(* ===== verification/_CoqProject ===== *)
-Q . S2P
Prelude.v
State.v
Bytes.v
TeeMm.v
TeeMmProofs.v
HandleDb.v
Handle.v
Pkcs11Handle.v
HandleProofs.v
Lockdep.v
LockdepProofs.v
Refcount.v
TeePobj.v
TransferList.v
TransferListProofs.v
TransferListSpec.v
TransferListRun.v
TransferListMap.v
WaitQueue.v
Mutex.v
MutexProofs.v
RecMutex.v
Bitstring.v
Pkcs11Attr.v
Pkcs11AttrProofs.v
Pkcs11AttrSpec.v
Pkcs11Sanitize.v
Pkcs11SanitizeRef.v
Pkcs11SanitizeSpec.v
Pkcs11SanitizeMain.v
Pkcs11Example.v
Pkcs11Serial.v
Pkcs11Pin.v
Pkcs11PinSpec.v
Pkcs11Session.v
Pkcs11SessionProofs.v
Pkcs11ObjectProofs.v
Pkcs11SessionSpec.v
Pkcs11Requests.v
Pkcs11Login.v
Pkcs11Serve.v
Pkcs11TokenExample.v
Dirfile.v
DirfileProofs.v
DirfileOpen.v
DirfileNext.v
DirfileExample.v
FsRpc.v
ReeFile.v
ReeFileProofs.v
ReeFileSpec.v
ReeExample.v
Htree.v
HtreeRules.v
HtreeBlocks.v
HtreeAuth.v
HtreeSync.v
HtreeCommit.v
HtreeReopen.v
HtreeRound.v
HtreeExample.v
StoredFile.v
ReeFs.v
ReeFsLaws.v
ReeFsRules.v
ReeFsOps.v
ReeFsCreate.v
ReeFsWrite.v
ReeFsExample.v
UteeDefs.v
UteeOps.v
UteeCrypt.v
UteeTables.v
UteeCipher.v
UteeSafe.v
UteeExample.v
UteeCipherProofs.v
UteeDigest.v
UteeCryptSafe.v
UteeApi.v
