(* ===== verification/Prelude.v ===== *)
(** * OP-TEE OS: a verification library

    OP-TEE OS is a trusted execution environment: a small kernel, the core
    (src/core), that runs in the secure world of an Arm or RISC-V processor next
    to a normal operating system, the libraries of the trusted applications it
    runs (src/lib), and some of these applications (src/ta). This library
    models parts of the core, of the library of the TAs and of the PKCS#11 TA
    that carry logic of their own, function by function, and proves what they
    promise. Definitions keep the names of the source.

    ** Conventions

    A [w]-bit unsigned integer is a [Z] that is reduced modulo [2 ^ w] where the
    source computes with it ([u8], [u16], [u32], [u64]); [size_t], [paddr_t] and
    pointers are 64 bits wide. A pointer to an object of a list or table is its
    address or index, NULL is 0 or [None]. Code that may stop returns an
    [outcome]: [Panicked] is a call of [panic] or [TEE_Panic] or a failed
    [assert], [Undef] an access to memory the object does not own, so that
    "not [Undef]" is memory safety. What the allocator answers is an argument
    or an oracle: the theorems hold for every answer. A critical section under
    a spinlock is one step. Traces and messages are left out.

    ** The parts

    - Memory pools, core/mm/tee_mm.c: [TeeMm] models every function, a pool is
      the list of its entries in link order; [TeeMmProofs] has the invariant
      (entries inside the pool, sorted, disjoint), what [tee_mm_alloc],
      [tee_mm_alloc2] and [tee_mm_find] return on every branch, release as the
      inverse of allocation, and two theorems on the width of the arithmetic:
      [tee_mm_find] keeps block numbers in 16 bits, and in a pool of more than
      4 GiB a shift of 32 bits overflows.
    - Handle databases, core/kernel/handle.c and ta/pkcs11/src/handle.c:
      [HandleDb] is the contract, a class; [Handle] and [Pkcs11Handle] are the
      two programs and their instances of it; [HandleProofs] proves, against
      the class, that any sequence of calls behaves as on a finite map.
    - Lock order checking, core/kernel/lockdep.c: [Lockdep] is the graph and its
      operations, with the recursion of [lockdep_visit] on fuel, one more than
      the number of nodes, which is proved to be enough; [LockdepProofs]
      proves that the sort decides acyclicity and that threads whose
      acquisitions lockdep accepted never deadlock.
    - Reference counts, core/kernel/refcount.c: [Refcount], with the atomic
      accesses of concurrent calls interleaved.
    - Wait queues, mutexes and condition variables, core/kernel/wait_queue.c,
      mutex.c and mutex_lockdep.c: [WaitQueue] and [Mutex] are the critical
      sections and the interleaving of the threads between them, a step
      relation; [MutexProofs] has mutual exclusion of writers and readers, the
      absence of lost wake-ups and the effect of [wq_wake_next]; [RecMutex]
      puts recursive mutexes on top, with the reference count of [Refcount] and
      the critical sections of [Mutex]. The mutex calls the checks of
      [Lockdep] when its parameter [lockdep] is set.
    - Cryptographic operations, lib/libutee/tee_api_operations.c:
      [UteeDefs] (constants and the fields of algorithm identifiers), [UteeOps]
      (handles: allocation, keys, copy) and [UteeCrypt] (digests, ciphers,
      MACs, authenticated encryption, asymmetric operations) are the functions
      of the file, in a monad over the heap of operations. The system calls of
      the core and the allocator are the class [Utee]; [UteeLaws] is what the
      memory safety theorem asks of them, lengths only, and [stream_core] what
      the progress theorem asks of an update.
      [UteeTables] has [TEE_IsAlgorithmSupported] and relates the algorithm
      tables to each other; [UteeCipher] and [UteeCipherProofs] are about the buffering of blocks and
      show that cutting a message into calls does not matter; [UteeDigest]
      covers piecewise extraction and the comparison of MACs; [UteeSafe],
      [UteeCryptSafe] and [UteeApi] prove memory safety of every
      sequence of calls, with the tactic [utee] that steps through a function.
      [UteeExample] is a concrete core for the examples.

    - Secure storage, core/tee: a file of trusted applications is kept by the
      normal world, which is not trusted, in a hash tree; a directory file
      names the files.
      [Htree] is core/tee/fs_htree.c, the tree in memory as an inductive type
      and its two versions in the storage; cryptography, random numbers,
      allocation and storage are the class [HtreeEnv], any call may fail.
      [HtreeRules] (paths and shapes, laws of the class and rules to step
      through the code), [HtreeBlocks], [HtreeSync] and [HtreeReopen]
      carry the theorems: [HtreeCommit] shows that updates are atomic wherever
      they fail, [HtreeAuth] that what is opened is what the hash was computed
      for, up to a collision of SHA-256 or an accepted header that says an
      impossible size, with nothing asked of the cipher, [HtreeRound] that a committed tree is
      opened as it was; [HtreeExample] has a concrete storage, and a truncation
      after which a file cannot be opened.
      [ReeFile] is an open file of core/tee/tee_ree_fs.c over the interface
      [HtreeOps] of a hash tree; [ReeFileProofs] and [ReeFileSpec] prove,
      against the laws of the interface, that it behaves as a sequence of
      bytes, and that the parts of a tree do not overlap in its file;
      [ReeExample] has two flaws of the error paths. [HtreeBlocks] makes [Htree]
      an instance of the interface, [StoredFile] puts both together.
      [Bitstring] is lib/libutils/ext/include/bitstring.h, and [Dirfile] the
      directory, core/tee/fs_dirfile.c, over the file operations it is given,
      [DirfileOps]; [DirfileProofs] has their laws, the class [DirfileLaws], the
      invariant and with [DirfileOpen] and [DirfileNext] the operations, with
      [DirfileExample] as the instance of the witnesses. The loops over the
      entries run on fuel; more than the number of entries is enough.
      [FsRpc] is core/tee/tee_fs_rpc.c, the requests to the normal world;
      [ReeFs] is the rest of core/tee/tee_ree_fs.c: the handle of the directory
      that open files share, and the operations on objects, over [Dirfile],
      [ReeFile], [Htree] and [FsRpc] at once. [HtreeCommit] also shows that
      commits keep the blocks of a tree; [ReeFsLaws] is what is asked of the normal
      world, the memory and the cryptography, and makes the files and the hash
      trees of [ReeFs] an instance of [DirfileLaws], with the map a directory
      stands for, [ReeFsRules] has the rules for the shared handle,
      [ReeFsOps] what removing and renaming do to the map, [ReeFsCreate] and
      [ReeFsWrite] what creating, writing and truncating an object do to the
      map and to the bytes of the files. [ReeFsExample] is a concrete normal
      world, with the witnesses and the runs that go wrong. The configuration
      with CFG_REE_FS_INTEGRITY_RPMB is left out.
      What is asked of the world outside: a write of an element of the storage
      changes no other element ([HtreeStoreLaws]); else the normal world may
      answer anything, but for one answer that the directory misreads, and that
      the theorems on the directory and the objects exclude:
      [TEE_ERROR_ITEM_NOT_FOUND] to a read or a write ([quiet], [ReeFsLaws];
      [denied_read_hides_object] shows what it does). And of the cipher
      ([CipherLaws]): under one key, iv and additional data a tag stands for one
      message. With tags of 16 bytes this is true of the runs in which none is
      forged or repeated, not of all messages there are; so the cipher is a
      partial function, and [run_enc] and [run_dec] of [HtreeRules] make one
      with these laws of any cipher and any log of messages, which is the
      cipher itself on a log without forgery.
    - Transfer lists, core/kernel/transfer_list.c: [TransferList], every function
      that works on the bytes of a list; [TransferListProofs] describes the
      memory by a header and a list of entries, gives a rule for each
      operation and reads memory of unknown contents, [TransferListSpec] states what the operations promise,
      [TransferListRun] that they keep a new list valid, with concrete lists
      and what goes wrong, and [TransferListMap] maps, makes and relocates
      lists in physical memory. The search takes as fuel more than the number
      of entries, or of bytes. [Bytes] has loads and stores on arrays of bytes.
    - Persistent objects, core/tee/tee_pobj.c: [TeePobj], the list of the open
      objects and who may share one. Its calls come in any order; a rename takes
      three, as in [syscall_storage_obj_rename] of core/tee/tee_svc_storage.c:
      the new name is reserved, given to the object, and released.

    - PKCS#11 attributes, ta/pkcs11/src: [Pkcs11Attr] is attributes.c with
      [serialize] of serializer.c, the identifiers of pkcs11_ta.h and the tables
      of pkcs11_helpers.c, on the bytes of an object; [Pkcs11AttrProofs]
      describes the object by a list of attributes and has a rule for each
      operation, [Pkcs11AttrSpec] what reading, merging and
      comparing lists amount to. [Pkcs11Sanitize] is sanitize_object.c, the check
      of what a client sends; [Pkcs11SanitizeRef] is its reference, a parser and
      three functions on lists, [Pkcs11SanitizeSpec]
      relates the two, pass by pass, and [Pkcs11SanitizeMain] has the theorems:
      the equivalence, and that the object built is a list of attributes that
      are well-typed by the PKCS#11 specification.
      Loops take as fuel more than the number of bytes, of which every round
      uses eight. [Pkcs11Example] has concrete objects and what goes wrong.
    - PKCS#11 messages and PINs, ta/pkcs11/src: [Pkcs11Serial] is the reading
      of arguments in serializer.c, with its theorem. [Pkcs11Pin] is the
      persistent data of a token and what checks or sets a PIN or an identity,
      in pkcs11_token.c and persistent_token.c; the two users share their
      functions, parameters are the files, the hash and the client's identity
      ([TokenApi]). [Pkcs11PinSpec] has flags and counter, one check and the
      theorems: guesses are limited whatever a client asks
      for, the new PIN is the one that is accepted, what initializing leaves.
      The requests end or panic ([pwp] of [State]), as the code does when it
      cannot write its file.
    - PKCS#11 sessions, login and objects, ta/pkcs11/src: [Pkcs11Session] is the
      state that the clients share, with the handlers of pkcs11_token.c and
      object.c that open and close sessions, log in and out, create, destroy
      and search objects. Structures are kept by address; an address that was
      freed is never used again, so that a stale pointer is an undefined access.
      The system calls are the class [ObjectApi]. The invariant has two parts:
      [Pkcs11SessionProofs] ties the lists of sessions, their handles, the
      counters of the tokens and the states of login together,
      [Pkcs11ObjectProofs] the objects, the lists they are in and the handles of
      the clients. [Pkcs11SessionSpec] has the rules for the shared state and
      what creating and destroying objects do to the two parts,
      [Pkcs11Requests] the requests on objects, [Pkcs11Login] those on sessions,
      with loops over the sessions of a client, and [Pkcs11Serve] the calls of
      the framework (entry.c) with 14 commands, any sequence of them, and the
      theorems. They hold for calls that are [allowed]: a token whose objects
      clients still have handles of is not initialized, which the TA does not
      check.
      [Pkcs11TokenExample] has a concrete token and what goes wrong: an operation
      that a logout leaves running, and handles that outlive their objects.

    [State] is the monad of code that changes a state and may stop, with the
    rules of its weakest precondition [wp]; [Bytes] also has the result codes.
    The parts meet in the mutex (wait queues, lockdep, reference counts), in the
    files of secure storage (directory, hash tree, layout) and in the operation
    API (objects, core); the other parts are used through calls only.

    ** What is not modelled, and the plan

    Next: the attributes of PKCS#11 objects that clients read, change and copy
    (ta/pkcs11/src/object.c), the operations of a session (processing.c), and the
    clock tree (core/drivers/clk/clk.c).
    The shortest cycle that lockdep prints is defined but nothing is proved of
    it. A condition variable is signalled by a thread that holds the mutex,
    which is how the core uses it.
    Not planned: page tables, context switches, drivers and platform code, whose
    meaning is that of the hardware, and third-party libraries (libmbedtls,
    libtomcrypt, libfdt, zlib), which the source only calls. *)
From stdpp Require Export base list gmap sets strings.
From Stdlib Require Export ZArith Lia.

#[global] Open Scope Z_scope.

(** ** Machine integers

    Unsigned C integers are values of [Z]; every conversion to a [w]-bit
    unsigned type is an explicit reduction modulo [2^w]. *)

Definition u8 (z : Z) : Z := z mod 2 ^ 8.

Definition u16 (z : Z) : Z := z mod 2 ^ 16.

Definition u32 (z : Z) : Z := z mod 2 ^ 32.

Definition u64 (z : Z) : Z := z mod 2 ^ 64.

Definition UINT32_MAX : Z := 2 ^ 32 - 1.

Definition INT_MAX : Z := 2 ^ 31 - 1.

(** Conversion of an integer to [int]. *)
Definition to_int (z : Z) : Z :=
  let u := u32 z in if u <? 2 ^ 31 then u else u - 2 ^ 32.

(** [ROUNDUP] and [ROUNDDOWN] of lib/libutils/ext/include/util.h, at the
    64-bit width of [paddr_t] and [size_t]. *)
Definition ROUNDUP (v size : Z) : Z :=
  Z.land (u64 (v + (size - 1))) (u64 (Z.lnot (size - 1))).

Definition ROUNDDOWN (v size : Z) : Z :=
  Z.land v (u64 (Z.lnot (size - 1))).

(** A flag word has one of the bits of [bit] set. *)
Definition has_flag (flags bit : Z) : bool := negb (Z.land flags bit =? 0).

(** ** Byte arrays *)

(** [len] bytes from [pos]. *)
Definition slice (pos len : Z) (l : list Z) : list Z :=
  take (Z.to_nat len) (drop (Z.to_nat pos) l).

(** ** Outcomes of C code

    [Done] is a normal return, [Panicked] a call of [panic()], [TEE_Panic()]
    or a failed [assert()], [Undef] an access the C standard leaves undefined
    (a dangling handle, an access outside a buffer). *)
Inductive outcome (A : Type) : Type :=
| Done (a : A)
| Panicked (code : Z)
| Undef.
Arguments Done {A} a.
Arguments Panicked {A} code.
Arguments Undef {A}.

Definition outcome_bind {A B} (m : outcome A) (f : A → outcome B) : outcome B :=
  match m with
  | Done a => f a
  | Panicked c => Panicked c
  | Undef => Undef
  end.

#[global] Instance outcome_mret : MRet outcome := @Done.
#[global] Instance outcome_mbind : MBind outcome :=
  λ A B f m, outcome_bind m f.

(** ** Lemmas on machine integers *)

Lemma u8_id z : 0 ≤ z < 2 ^ 8 → u8 z = z.
Proof. apply Z.mod_small. Qed.

Lemma u16_id z : 0 ≤ z < 2 ^ 16 → u16 z = z.
Proof. apply Z.mod_small. Qed.

Lemma u32_id z : 0 ≤ z < 2 ^ 32 → u32 z = z.
Proof. apply Z.mod_small. Qed.

Lemma u64_id z : 0 ≤ z < 2 ^ 64 → u64 z = z.
Proof. apply Z.mod_small. Qed.

Lemma u32_range z : 0 ≤ u32 z < 2 ^ 32.
Proof. apply Z.mod_pos_bound. lia. Qed.

Lemma u64_range z : 0 ≤ u64 z < 2 ^ 64.
Proof. apply Z.mod_pos_bound. lia. Qed.

Lemma u16_range z : 0 ≤ u16 z < 2 ^ 16.
Proof. apply Z.mod_pos_bound. lia. Qed.

Lemma to_int_small z : 0 ≤ z < 2 ^ 31 → to_int z = z.
Proof.
  intros H. unfold to_int. rewrite u32_id by lia.
  destruct (Z.ltb_spec z (2 ^ 31)); lia.
Qed.

Lemma pow2_pos k : 0 ≤ k → 0 < 2 ^ k.
Proof. intros. apply Z.pow_pos_nonneg; lia. Qed.

Lemma lnot_pred_pow2 k : Z.lnot (2 ^ k - 1) = - 2 ^ k.
Proof. unfold Z.lnot. lia. Qed.

Lemma land_high_mask x k :
  0 ≤ x < 2 ^ 64 → 0 ≤ k < 64 →
  Z.land x (u64 (Z.lnot (2 ^ k - 1))) = x / 2 ^ k * 2 ^ k.
Proof.
  intros Hx Hk. unfold u64.
  rewrite <- Z.land_ones by lia.
  rewrite (Z.land_comm (Z.lnot _)), Z.land_assoc, Z.land_ones by lia.
  rewrite (Z.mod_small x) by lia.
  replace (2 ^ k - 1) with (Z.ones k) by (rewrite Z.ones_equiv; lia).
  rewrite <- Z.ldiff_land, Z.ldiff_ones_r by lia.
  rewrite Z.shiftl_mul_pow2, Z.shiftr_div_pow2 by lia. reflexivity.
Qed.

Lemma ROUNDDOWN_spec v k :
  0 ≤ v < 2 ^ 64 → 0 ≤ k < 64 → ROUNDDOWN v (2 ^ k) = v / 2 ^ k * 2 ^ k.
Proof. intros. unfold ROUNDDOWN. by apply land_high_mask. Qed.

Lemma ROUNDUP_spec v k :
  0 ≤ v → 0 ≤ k < 64 → v + (2 ^ k - 1) < 2 ^ 64 →
  ROUNDUP v (2 ^ k) = (v + (2 ^ k - 1)) / 2 ^ k * 2 ^ k.
Proof.
  intros Hv Hk Hb. unfold ROUNDUP.
  pose proof (pow2_pos k ltac:(lia)).
  rewrite (u64_id (v + _)) by lia. apply land_high_mask; lia.
Qed.

(** Division with a ceiling: the number of [2^k]-byte blocks that hold
    [n] bytes. *)
Lemma blocks_pred n k :
  0 ≤ k → 0 < n → (n - 1) / 2 ^ k + 1 = (n + (2 ^ k - 1)) / 2 ^ k.
Proof.
  intros Hk Hn. pose proof (pow2_pos k Hk).
  replace (n + (2 ^ k - 1)) with ((n - 1) + 1 * 2 ^ k) by lia.
  rewrite Z.div_add by lia. lia.
Qed.

(** [ROUNDUP] gives the least multiple that is large enough. *)
Lemma ROUNDUP_bounds v k :
  0 ≤ v → 0 ≤ k < 64 → v + (2 ^ k - 1) < 2 ^ 64 →
  v ≤ ROUNDUP v (2 ^ k) < v + 2 ^ k ∧ (2 ^ k | ROUNDUP v (2 ^ k)).
Proof.
  intros. rewrite ROUNDUP_spec by done. pose proof (pow2_pos k ltac:(lia)).
  pose proof (Z.div_mod (v + (2 ^ k - 1)) (2 ^ k) ltac:(lia)).
  pose proof (Z.mod_pos_bound (v + (2 ^ k - 1)) (2 ^ k) ltac:(lia)).
  split; [lia|]. by exists ((v + (2 ^ k - 1)) / 2 ^ k).
Qed.

(** Two multiples that are closer than the divisor are equal. *)
Lemma divide_close b x y : 0 < b → (b | x) → (b | y) → x < y + b → y < x + b → x = y.
Proof. intros Hb [p ->] [q ->] H1 H2. assert (p = q) by nia. congruence. Qed.

Lemma divide_le b x y : 0 < b → (b | x) → (b | y) → x < y + b → x ≤ y.
Proof.
  intros Hb [p ->] [q ->] H1. assert (p < q + 1) by (apply (Z.mul_lt_mono_pos_r b); lia).
  apply Z.mul_le_mono_nonneg_r; lia.
Qed.

Lemma has_flag_lor_l f b : has_flag b b = true → has_flag (Z.lor f b) b = true.
Proof.
  unfold has_flag. intros Hb.
  apply negb_true_iff, Z.eqb_neq. intros H0.
  apply negb_true_iff, Z.eqb_neq in Hb. apply Hb.
  rewrite Z.land_lor_distr_l in H0. apply Z.lor_eq_0_iff in H0. tauto.
Qed.

Lemma has_flag_clear f b : has_flag (Z.land f (Z.lnot b)) b = false.
Proof.
  unfold has_flag. rewrite <- Z.land_assoc, (Z.land_comm (Z.lnot b)).
  rewrite Z.land_lnot_diag, Z.land_0_r. reflexivity.
Qed.

(** ** Lemmas on byte arrays *)

Lemma slice_app_l pos len (a b : list Z) :
  0 ≤ pos → 0 ≤ len → pos + len ≤ Z.of_nat (length a) → slice pos len (a ++ b) = slice pos len a.
Proof.
  intros. unfold slice. rewrite drop_app_le by lia. apply take_app_le. rewrite length_drop. lia.
Qed.

Lemma slice_app_r pos len (a b : list Z) :
  Z.of_nat (length a) ≤ pos → slice pos len (a ++ b) = slice (pos - Z.of_nat (length a)) len b.
Proof.
  intros. unfold slice. rewrite drop_app_ge by lia. do 2 f_equal. lia.
Qed.

Lemma slice_all pos len (a : list Z) :
  pos = 0 → Z.of_nat (length a) ≤ len → slice pos len a = a.
Proof. intros -> H. unfold slice. simpl. rewrite drop_0. apply take_ge. lia. Qed.

Lemma length_slice pos len (a : list Z) :
  0 ≤ pos → 0 ≤ len → pos + len ≤ Z.of_nat (length a) → length (slice pos len a) = Z.to_nat len.
Proof. intros. unfold slice. rewrite length_take, length_drop. lia. Qed.

Lemma slice_past pos len (a : list Z) :
  Z.of_nat (length a) ≤ pos → slice pos len a = [].
Proof. intros. unfold slice. rewrite drop_ge by lia. apply take_nil. Qed.

Lemma slice_lookup pos len (a : list Z) (i : nat) :
  0 ≤ pos → slice pos len a !! i =
  if decide (Z.of_nat i < len) then a !! Z.to_nat (pos + Z.of_nat i) else None.
Proof.
  intros. unfold slice. case_decide.
  - rewrite lookup_take_lt, lookup_drop by lia. f_equal. lia.
  - apply lookup_take_ge. lia.
Qed.

(** ** Automation *)

Create HintDb mach.
Create Rewrite HintDb mach.
#[export] Hint Rewrite u8_id u16_id u32_id u64_id using lia : mach.
#[export] Hint Resolve u16_range u32_range u64_range pow2_pos : mach.

(** Splits conjunctions and existentials of the context. *)
Ltac break_and :=
  repeat match goal with
  | H : _ ∧ _ |- _ => destruct H
  | H : ∃ _, _ |- _ => destruct H
  end.

(** Reflects boolean comparisons of the context and of the goal. *)
Ltac breflect :=
  repeat match goal with
  | H : (_ && _) = true |- _ => apply andb_true_iff in H as [? ?]
  | H : (_ || _) = false |- _ => apply orb_false_iff in H as [? ?]
  | H : negb _ = true |- _ => apply negb_true_iff in H
  | H : negb _ = false |- _ => apply negb_false_iff in H
  | H : (_ <? _) = true |- _ => apply Z.ltb_lt in H
  | H : (_ <? _) = false |- _ => apply Z.ltb_ge in H
  | H : (_ <=? _) = true |- _ => apply Z.leb_le in H
  | H : (_ <=? _) = false |- _ => apply Z.leb_gt in H
  | H : (_ >? _) = true |- _ => rewrite Z.gtb_ltb in H
  | H : (_ >? _) = false |- _ => rewrite Z.gtb_ltb in H
  | H : (_ >=? _) = true |- _ => rewrite Z.geb_leb in H
  | H : (_ >=? _) = false |- _ => rewrite Z.geb_leb in H
  | H : (_ =? _) = true |- _ => apply Z.eqb_eq in H
  | H : (_ =? _) = false |- _ => apply Z.eqb_neq in H
  end.

(** Case analysis on the discriminee of the outermost [match] or [if] of a
    hypothesis or of the goal. *)
Ltac case_on_hyp H :=
  match type of H with
  | context [match ?x with _ => _ end] => destruct x eqn:?
  end.

Ltac case_on_goal :=
  match goal with
  | |- context [match ?x with _ => _ end] => destruct x eqn:?
  end.
