(* ===== verification/State.v ===== *)
(** Code that works on a state, may stop ([outcome]) and has loops that are
    bounded by fuel: a monad, and rules to show that such code ends and what it
    leaves behind, [wp], or that it panics, [pwp]. The secure storage and the
    PKCS#11 TA are written in it. *)
From S2P Require Import Prelude.

(** [None] is a loop that has run out of fuel. *)
Definition St (S A : Type) : Type := S → option (outcome (A * S)).

Definition st_ret {S A} (a : A) : St S A := λ s, Some (Done (a, s)).

Definition st_bind {S A B} (m : St S A) (f : A → St S B) : St S B := λ s,
  match m s with
  | None => None
  | Some (Done (a, s')) => f a s'
  | Some (Panicked c) => Some (Panicked c)
  | Some Undef => Some Undef
  end.

#[global] Instance st_mret {S} : MRet (St S) := @st_ret S.
#[global] Instance st_mbind {S} : MBind (St S) := λ A B f m, st_bind m f.

Section Monad.
Context {S : Type}.

Definition out_of_fuel {A} : St S A := λ _, None.

Definition undef {A} : St S A := λ _, Some Undef.

Definition gets {A} (f : S → A) : St S A := λ s, Some (Done (f s, s)).

Definition modify (f : S → S) : St S unit := λ s, Some (Done (tt, f s)).

(** A computation of its own, and [assert]. *)
Definition run {A} (o : outcome A) : St S A := λ s, Some (a ← o; Done (a, s)).

Definition st_assert (b : bool) : St S unit := run (if b then Done tt else Panicked 0).

(** [wp m s Q]: from [s] the code [m] ends, neither out of fuel nor in
    undefined behaviour nor in a failed assertion, in a state of [Q]. *)
Definition wp {A} (m : St S A) (s : S) (Q : A → S → Prop) : Prop :=
  ∃ a s', m s = Some (Done (a, s')) ∧ Q a s'.

Lemma wp_ret {A} (a : A) s (Q : A → S → Prop) : Q a s → wp (st_ret a) s Q.
Proof. intros. by exists a, s. Qed.

Lemma wp_bind {A B} (m : St S A) (f : A → St S B) s (Q : B → S → Prop) :
  wp m s (λ a s', wp (f a) s' Q) → wp (st_bind m f) s Q.
Proof. intros (a & s' & E & R). unfold wp, st_bind. by rewrite E. Qed.

Lemma wp_mono {A} (m : St S A) s (P Q : A → S → Prop) :
  wp m s P → (∀ a s', P a s' → Q a s') → wp m s Q.
Proof. intros (a & s' & E & R) HQ. exists a, s'. auto. Qed.

(** Code has one outcome. *)
Lemma wp_conj {A} (m : St S A) s (P Q : A → S → Prop) :
  wp m s P → wp m s Q → wp m s (λ a s', P a s' ∧ Q a s').
Proof. intros (a & s' & E & HP) (a2 & s2 & E2 & HQ). exists a, s'. rewrite E in E2. by simplify_eq. Qed.

Lemma wp_gets {A} (f : S → A) s (Q : A → S → Prop) : Q (f s) s → wp (gets f) s Q.
Proof. intros. by exists (f s), s. Qed.

Lemma wp_modify f s (Q : unit → S → Prop) : Q tt (f s) → wp (modify f) s Q.
Proof. intros. by exists tt, (f s). Qed.

Lemma wp_run {A} (o : outcome A) a s (Q : A → S → Prop) :
  o = Done a → Q a s → wp (run o) s Q.
Proof. intros -> HQ. by exists a, s. Qed.

Lemma wp_assert b s (Q : unit → S → Prop) : b = true → Q tt s → wp (st_assert b) s Q.
Proof. intros -> HQ. by exists tt, s. Qed.

End Monad.

(** Code on a part of the state. *)
Definition zoom {S T A} (get : S → T) (put : T → S → S) (m : St T A) : St S A := λ s,
  match m (get s) with
  | None => None
  | Some (Done (a, t)) => Some (Done (a, put t s))
  | Some (Panicked c) => Some (Panicked c)
  | Some Undef => Some Undef
  end.

Lemma wp_zoom {S T A} (get : S → T) put (m : St T A) s (Q : A → S → Prop) :
  wp m (get s) (λ a t, Q a (put t s)) → wp (zoom get put m) s Q.
Proof. intros (a & t & E & R). exists a, (put t s). unfold zoom. by rewrite E. Qed.

(** One step through code on a state. *)
Ltac st_step :=
  cbv beta; cbn [negb];
  lazymatch goal with
  | |- wp (mbind _ _) _ _ => apply wp_bind
  | |- wp (st_bind _ _) _ _ => apply wp_bind
  | |- wp (mret _) _ _ => apply wp_ret
  | |- wp (st_ret _) _ _ => apply wp_ret
  | |- wp (gets _) _ _ => apply wp_gets
  | |- wp (modify _) _ _ => apply wp_modify
  end; cbv beta.

Definition pwp {S A} (m : St S A) (s : S) (Q : A → S → Prop) : Prop :=
  match m s with
  | Some (Done (a, s')) => Q a s'
  | Some (Panicked _) => True
  | Some Undef => False
  | None => False
  end.

Definition panic {S A} : St S A := run (Panicked 0).

Section Rules.
Context {S : Type}.

Lemma pwp_ret {A} (a : A) (s : S) (Q : A → S → Prop) : Q a s → pwp (st_ret a) s Q.
Proof. done. Qed.

Lemma pwp_bind {A B} (m : St S A) (f : A → St S B) s (Q : B → S → Prop) :
  pwp m s (λ a s', pwp (f a) s' Q) → pwp (st_bind m f) s Q.
Proof. unfold pwp, st_bind. destruct (m s) as [[[a s']| |]|]; done. Qed.

Lemma pwp_mono {A} (m : St S A) s (P Q : A → S → Prop) :
  pwp m s P → (∀ a s', P a s' → Q a s') → pwp m s Q.
Proof. unfold pwp. destruct (m s) as [[[a s']| |]|]; auto. Qed.

Lemma pwp_of_wp {A} (m : St S A) s (Q : A → S → Prop) : wp m s Q → pwp m s Q.
Proof. intros (a & s' & E & HQ). unfold pwp. by rewrite E. Qed.

Lemma pwp_gets {A} (f : S → A) s (Q : A → S → Prop) : Q (f s) s → pwp (gets f) s Q.
Proof. done. Qed.

Lemma pwp_modify f s (Q : unit → S → Prop) : Q tt (f s) → pwp (modify f) s Q.
Proof. done. Qed.

Lemma pwp_panic {A} s (Q : A → S → Prop) : pwp panic s Q.
Proof. done. Qed.

Lemma pwp_assert b s (Q : unit → S → Prop) : (b = true → Q tt s) → pwp (st_assert b) s Q.
Proof. destruct b; intros HQ; [by apply HQ|done]. Qed.

End Rules.

Lemma pwp_zoom {S T A} (get : S → T) put (m : St T A) s (Q : A → S → Prop) :
  pwp m (get s) (λ a t, Q a (put t s)) → pwp (zoom get put m) s Q.
Proof. unfold pwp, zoom. destruct (m (get s)) as [[[a t]| |]|]; done. Qed.

(** One step. *)
Ltac p_step :=
  cbv beta; cbn [negb];
  lazymatch goal with
  | |- pwp (mbind _ _) _ _ => apply pwp_bind
  | |- pwp (st_bind _ _) _ _ => apply pwp_bind
  | |- pwp (mret _) _ _ => apply pwp_ret
  | |- pwp (st_ret _) _ _ => apply pwp_ret
  | |- pwp (gets _) _ _ => apply pwp_gets
  | |- pwp (modify _) _ _ => apply pwp_modify
  | |- pwp panic _ _ => apply pwp_panic
  | |- pwp (zoom _ _ _) _ _ => apply pwp_zoom
  end; cbv beta.
