(* ===== verification/Bytes.v ===== *)
(** Bytes and results: little-endian integers; code that works on an array of bytes,
    with loads and stores that are undefined outside the array, and [memmove];
    and the [TEE_Result] codes of lib/libutee/include/tee_api_defines.h that the
    modelled code returns or compares with. *)
From S2P Require Import Prelude State.

#[local] Ltac Zify.zify_post_hook ::= Z.div_mod_to_equations.

(** ** Little-endian integers *)

Fixpoint le_bytes (n : nat) (z : Z) : list Z :=
  match n with O => [] | S n => u8 z :: le_bytes n (Z.shiftr z 8) end.

Fixpoint of_le (l : list Z) : Z :=
  match l with [] => 0 | b :: l => b + 256 * of_le l end.

Lemma le_bytes_length n z : length (le_bytes n z) = n.
Proof. revert z; induction n; intros; simpl; auto. Qed.

Lemma le_bytes_2 a b : le_bytes 2 a = le_bytes 2 b → u16 a = u16 b.
Proof.
  simpl. intros [= E0 E1]. unfold u8, u16 in *. rewrite !Z.shiftr_div_pow2 in E1 by lia.
  change (2 ^ 8) with 256 in *. change (2 ^ 16) with (256 * 256).
  rewrite !Z.rem_mul_r by lia. congruence.
Qed.

Lemma of_le_bytes n : ∀ z, 0 ≤ z < 2 ^ (8 * Z.of_nat n) → of_le (le_bytes n z) = z.
Proof.
  induction n as [|n IH]; intros z Hz; simpl le_bytes; simpl of_le.
  - simpl in Hz. lia.
  - rewrite Z.shiftr_div_pow2 by lia. unfold u8. change (2 ^ 8) with 256.
    rewrite IH; [pose proof (Z.div_mod z 256); lia|].
    replace (8 * Z.of_nat (S n)) with (8 + 8 * Z.of_nat n) in Hz by lia.
    rewrite Z.pow_add_r in Hz by lia. change (2 ^ 8) with 256 in Hz.
    split; [apply Z.div_pos; lia|]. apply Z.div_lt_upper_bound; lia.
Qed.

Definition is_byte (b : Z) : Prop := 0 ≤ b < 256.

Lemma le_bytes_are_bytes n z : Forall is_byte (le_bytes n z).
Proof.
  revert z. induction n as [|n IH]; intros z; simpl; constructor; [|apply IH].
  unfold is_byte, u8. lia.
Qed.

Lemma of_le_range l : Forall is_byte l → 0 ≤ of_le l < 2 ^ (8 * Z.of_nat (length l)).
Proof.
  induction 1 as [|b l Hb _ IH]; simpl of_le; [by simpl|]. unfold is_byte in Hb.
  replace (8 * Z.of_nat (length (b :: l))) with (8 + 8 * Z.of_nat (length l)) by (simpl; lia).
  rewrite Z.pow_add_r by lia. change (2 ^ 8) with 256. lia.
Qed.

Lemma le_bytes_of_le l : Forall is_byte l → le_bytes (length l) (of_le l) = l.
Proof.
  induction 1 as [|b l Hb F IH]; [done|]. simpl. unfold is_byte in Hb.
  rewrite Z.shiftr_div_pow2 by lia. unfold u8. change (2 ^ 8) with 256. f_equal; [lia|].
  rewrite <- IH at 3. f_equal. lia.
Qed.

(** ** Arrays of bytes *)

(** The array with [data] at [off]. *)
Definition put_bytes (off : Z) (data m : list Z) : list Z :=
  take (Z.to_nat off) m ++ data ++ drop (Z.to_nat off + length data) m.

Definition inside (off len : Z) (m : list Z) : bool :=
  (0 <=? off) && (0 <=? len) && (off + len <=? Z.of_nat (length m)).

Definition load (off len : Z) : St (list Z) (list Z) := λ m,
  if inside off len m then Some (Done (slice off len m, m)) else Some Undef.

Definition store (off : Z) (data : list Z) : St (list Z) unit := λ m,
  if inside off (Z.of_nat (length data)) m then Some (Done (tt, put_bytes off data m)) else Some Undef.

(** An unsigned integer of [n] bytes. *)
Definition load_le (n : nat) (off : Z) : St (list Z) Z := l ← load off (Z.of_nat n); mret (of_le l).

Definition store_le (n : nat) (off z : Z) : St (list Z) unit := store off (le_bytes n z).

Definition move_bytes (dst src len : Z) : St (list Z) unit := l ← load src len; store dst l.

(** ** Rules *)

Lemma inside_true off len m :
  0 ≤ off → 0 ≤ len → off + len ≤ Z.of_nat (length m) → inside off len m = true.
Proof. unfold inside. intros. rewrite !andb_true_iff, !Z.leb_le. lia. Qed.

Lemma wp_load off len m (Q : list Z → list Z → Prop) :
  0 ≤ off → 0 ≤ len → off + len ≤ Z.of_nat (length m) → Q (slice off len m) m → wp (load off len) m Q.
Proof. intros ??? HQ. eexists _, _. unfold load. by rewrite inside_true by done. Qed.

Lemma wp_load_le n off m (Q : Z → list Z → Prop) :
  0 ≤ off → off + Z.of_nat n ≤ Z.of_nat (length m) → Q (of_le (slice off (Z.of_nat n) m)) m →
  wp (load_le n off) m Q.
Proof. intros ?? HQ. unfold load_le. apply wp_bind, wp_load; [lia..|]. by apply wp_ret. Qed.

Lemma wp_store off data m (Q : unit → list Z → Prop) :
  0 ≤ off → off + Z.of_nat (length data) ≤ Z.of_nat (length m) → Q tt (put_bytes off data m) →
  wp (store off data) m Q.
Proof. intros ?? HQ. eexists _, _. unfold store. rewrite inside_true by lia. done. Qed.

Lemma length_put_bytes off data m :
  0 ≤ off → off + Z.of_nat (length data) ≤ Z.of_nat (length m) →
  length (put_bytes off data m) = length m.
Proof. intros. unfold put_bytes. rewrite !length_app, length_take, length_drop. lia. Qed.

(** What is stored in the middle of three parts. *)
Lemma put_bytes_app off data a x b :
  off = Z.of_nat (length a) → length x = length data → put_bytes off data (a ++ x ++ b) = a ++ data ++ b.
Proof.
  intros -> L. unfold put_bytes. rewrite Nat2Z.id, take_app_length. f_equal. f_equal.
  rewrite <- L, <- length_app, app_assoc, drop_app_length. done.
Qed.

Lemma put_bytes_split off data m :
  0 ≤ off → off + Z.of_nat (length data) ≤ Z.of_nat (length m) →
  ∃ a x b, m = a ++ x ++ b ∧ off = Z.of_nat (length a) ∧ length x = length data ∧
    put_bytes off data m = a ++ data ++ b.
Proof.
  intros H1 H2. exists (take (Z.to_nat off) m), (slice off (Z.of_nat (length data)) m),
    (drop (Z.to_nat off + length data) m).
  assert (L : length (take (Z.to_nat off) m) = Z.to_nat off) by (rewrite length_take; lia).
  assert (Ls : length (slice off (Z.of_nat (length data)) m) = length data) by (rewrite length_slice; lia).
  split_and!; [|lia|done|done]. unfold slice. rewrite Nat2Z.id.
  rewrite <- drop_drop, take_drop, take_drop. done.
Qed.

(** What is read in the middle of three parts. *)
Lemma slice_mid off len (a x b : list Z) :
  off = Z.of_nat (length a) → len = Z.of_nat (length x) → slice off len (a ++ x ++ b) = x.
Proof.
  intros -> ->. rewrite slice_app_r by lia. rewrite slice_app_l by lia. apply slice_all; lia.
Qed.

Lemma slice_put off data m :
  0 ≤ off → off + Z.of_nat (length data) ≤ Z.of_nat (length m) →
  slice off (Z.of_nat (length data)) (put_bytes off data m) = data.
Proof.
  intros H1 H2. destruct (put_bytes_split off data m H1 H2) as (a & x & b & _ & E & _ & ->).
  by apply slice_mid.
Qed.

Definition TEE_SUCCESS : Z := 0x00000000.

Definition TEE_ERROR_CORRUPT_OBJECT : Z := 0xF0100001.

Definition TEE_ERROR_CORRUPT_OBJECT_2 : Z := 0xF0100002.

Definition TEE_ERROR_STORAGE_NOT_AVAILABLE : Z := 0xF0100003.

Definition TEE_ERROR_STORAGE_NOT_AVAILABLE_2 : Z := 0xF0100004.

Definition TEE_ERROR_CIPHERTEXT_INVALID : Z := 0xF0100006.

Definition TEE_ERROR_GENERIC : Z := 0xFFFF0000.

Definition TEE_ERROR_ACCESS_DENIED : Z := 0xFFFF0001.

Definition TEE_ERROR_ACCESS_CONFLICT : Z := 0xFFFF0003.

Definition TEE_ERROR_BAD_PARAMETERS : Z := 0xFFFF0006.

Definition TEE_ERROR_BAD_STATE : Z := 0xFFFF0007.

Definition TEE_ERROR_ITEM_NOT_FOUND : Z := 0xFFFF0008.

Definition TEE_ERROR_NOT_IMPLEMENTED : Z := 0xFFFF0009.

Definition TEE_ERROR_NOT_SUPPORTED : Z := 0xFFFF000A.

Definition TEE_ERROR_OUT_OF_MEMORY : Z := 0xFFFF000C.

Definition TEE_ERROR_SECURITY : Z := 0xFFFF000F.

Definition TEE_ERROR_SHORT_BUFFER : Z := 0xFFFF0010.

Definition TEE_ERROR_MAC_INVALID : Z := 0xFFFF3071.

Definition TEE_ERROR_SIGNATURE_INVALID : Z := 0xFFFF3072.
