(* ===== verification/TeeMm.v ===== *)
(** core/mm/tee_mm.c: the block allocator behind the secure DDR, the virtual
    core and the shared-memory pools.

    A pool keeps a singly linked list of entries that starts with a sentinel.
    The list is modelled in link order ([chain]); an empty [chain] is the
    NULL [pool->entry] of a pool that was never initialised or was finalised.
    Offsets and sizes are the [uint32_t] block counts of the source, wrapped
    where the source wraps them; [paddr_t], [paddr_size_t] and [size_t] are
    64 bits wide. The result of [pmalloc]/[pcalloc] is an argument: [None] is
    NULL, [Some a] the address of the new entry. *)
From S2P Require Import Prelude.

Definition TEE_MM_POOL_HI_ALLOC : Z := 1.

Definition TEE_MM_POOL_NEX_MALLOC : Z := 2.

Record tee_mm_entry := mk_entry {
  addr : Z;
  offset : Z;
  size : Z;
}.

Record tee_mm_pool := mk_pool {
  chain : list tee_mm_entry;
  lo : Z;
  pool_size : Z;
  flags : Z;
  shift : Z;
  max_allocated : Z;
}.

(** The pool as it is before [tee_mm_init] runs. *)
Definition pool_zero : tee_mm_pool := mk_pool [] 0 0 0 0 0.

Definition with_chain (p : tee_mm_pool) (c : list tee_mm_entry) : tee_mm_pool :=
  mk_pool c (lo p) (pool_size p) (flags p) (shift p) (max_allocated p).

Definition with_max (p : tee_mm_pool) (m : Z) : tee_mm_pool :=
  mk_pool (chain p) (lo p) (pool_size p) (flags p) (shift p) m.

Definition hi_alloc (p : tee_mm_pool) : bool := has_flag (flags p) TEE_MM_POOL_HI_ALLOC.

(** Which heap [pmalloc], [pcalloc] and [pfree] use. *)
Inductive heap_id := heap_core | heap_nex.

Definition pool_heap (p : tee_mm_pool) : heap_id :=
  if has_flag (flags p) TEE_MM_POOL_NEX_MALLOC then heap_nex else heap_core.

Definition tee_mm_init (sentinel : option Z) (lo0 size0 shift0 flags0 : Z)
  : outcome (bool * tee_mm_pool) :=
  let lo1 := ROUNDUP lo0 (2 ^ shift0) in
  let rounded := u64 (lo1 - lo0) in
  let size1 := ROUNDDOWN (u64 (size0 - rounded)) (2 ^ shift0) in
  if negb (Z.shiftr size1 shift0 <? UINT32_MAX) then Panicked 0 else
  match sentinel with
  | None => Done (false, mk_pool [] lo1 size1 flags0 shift0 0)
  | Some a =>
    let off :=
      if has_flag flags0 TEE_MM_POOL_HI_ALLOC
      then u32 (Z.shiftr (u64 (size1 - 1)) shift0 + 1) else 0 in
    Done (true, mk_pool [mk_entry a off 0] lo1 size1 flags0 shift0 0)
  end.

(** [tee_mm_add]: the new entry is linked right after [p]. *)
Definition tee_mm_add (p nn : tee_mm_entry) (rest : list tee_mm_entry)
  : list tee_mm_entry := p :: nn :: rest.

(** The sum of the entry sizes, in a [uint32_t], shifted as a [uint32_t]. *)
Definition tee_mm_stats_allocated (p : tee_mm_pool) : Z :=
  let sz := foldl (λ s e, u32 (s + size e)) 0 (chain p) in
  u32 (Z.shiftl sz (shift p)).

Definition update_max_allocated (with_stats : bool) (p : tee_mm_pool) : tee_mm_pool :=
  if with_stats then
    let sz := tee_mm_stats_allocated p in
    if max_allocated p <? sz then with_max p sz else p
  else p.

Record pta_stats_alloc := mk_stats {
  st_size : Z;
  st_max_allocated : Z;
  st_allocated : Z;
}.

Definition tee_mm_get_pool_stats (p : tee_mm_pool) (reset : bool)
  : pta_stats_alloc * tee_mm_pool :=
  (mk_stats (pool_size p) (max_allocated p) (tee_mm_stats_allocated p),
   if reset then with_max p 0 else p).

(** The list walk both allocators start with: step from [e] to its successor
    while there is one and [advance e successor] holds. The result is the
    part of the list that was passed, the entry reached and its successors. *)
Fixpoint walk (advance : tee_mm_entry → tee_mm_entry → bool)
  (e : tee_mm_entry) (rest : list tee_mm_entry)
  : list tee_mm_entry * tee_mm_entry * list tee_mm_entry :=
  match rest with
  | [] => ([], e, [])
  | n :: rest' =>
    if advance e n then
      let '(pre, e', rest'') := walk advance n rest' in (e :: pre, e', rest'')
    else ([], e, rest)
  end.

(** The number of blocks [size] bytes need. *)
Definition psize_of (p : tee_mm_pool) (sz : Z) : Z :=
  if sz =? 0 then 0 else Z.shiftr (sz - 1) (shift p) + 1.

Definition alloc_advance (p : tee_mm_pool) (psize : Z)
  (e next : tee_mm_entry) : bool :=
  if hi_alloc p
  then u32 (u32 (offset e - offset next) - size next) <? psize
  else u32 (u32 (offset next - size e) - offset e) <? psize.

(** [tee_mm_alloc]. [nn] is the result of [pmalloc]; the outcome carries the
    returned pointer and the pool afterwards. *)
Definition tee_mm_alloc (with_stats : bool) (p : tee_mm_pool) (sz : Z)
  (nn : option Z) : outcome (option Z * tee_mm_pool) :=
  match chain p with
  | [] => Done (None, p)
  | sentinel :: rest =>
    match nn with
    | None => Done (None, p)
    | Some a =>
      let psize := psize_of p sz in
      let '(pre, entry, next) := walk (alloc_advance p psize) sentinel rest in
      let insert :=
        let off :=
          if hi_alloc p then u32 (offset entry - psize)
          else u32 (offset entry + size entry) in
        let mm := mk_entry a off (u32 psize) in
        Done (Some a, update_max_allocated with_stats
                        (with_chain p (pre ++ tee_mm_add entry mm next))) in
      match next with
      | [] =>
        if hi_alloc p then
          if u32 (Z.shiftl (offset entry) (shift p)) <? sz
          then Done (None, p) else insert
        else if pool_size p =? 0 then Panicked 0
        else
          let remaining :=
            u64 (pool_size p -
                 u32 (Z.shiftl (u32 (offset entry + size entry)) (shift p))) in
          if remaining <? sz then Done (None, p) else insert
      | _ :: _ => insert
      end
    end
  end.

Definition fit_in_gap (p : tee_mm_pool) (e : tee_mm_entry)
  (next : list tee_mm_entry) (offslo offshi : Z) : bool :=
  if hi_alloc p then
    negb ((offset e <? offshi)
          || match next with
             | [] => false
             | n :: _ => offslo <? u32 (offset n + size n)
             end
          || (pool_size p <? u64 (u64 (Z.shiftl offshi (shift p)) - 1)))
  else
    negb ((offslo <? u32 (offset e + size e))
          || match next with
             | [] => false
             | n :: _ => offset n <? offshi
             end
          || (pool_size p <? u64 (Z.shiftl offshi (shift p)))).

Definition alloc2_advance (p : tee_mm_pool) (offslo offshi : Z)
  (_ next : tee_mm_entry) : bool :=
  if hi_alloc p then offshi <? u32 (offset next + size next)
  else offset next <? offslo.

Definition tee_mm_alloc2 (with_stats : bool) (p : tee_mm_pool) (base sz : Z)
  (mm : option Z) : outcome (option Z * tee_mm_pool) :=
  match chain p with
  | [] => Done (None, p)
  | sentinel :: rest =>
    if (u64 (base + sz) <? base) || (base <? lo p) then Done (None, p) else
    match mm with
    | None => Done (None, p)
    | Some a =>
      let offslo := Z.shiftr (u64 (base - lo p)) (shift p) in
      let offshi :=
        u64 (Z.shiftr (u64 (u64 (base - lo p) + sz - 1)) (shift p) + 1) in
      let '(pre, entry, next) := walk (alloc2_advance p offslo offshi) sentinel rest in
      if negb (fit_in_gap p entry next offslo offshi) then Done (None, p) else
      let m := mk_entry a (u32 offslo) (u32 (offshi - offslo)) in
      Done (Some a, update_max_allocated with_stats
                      (with_chain p (pre ++ tee_mm_add entry m next)))
    end
  end.

(** Unlink the first entry after the sentinel whose address is [a]; [None]
    when the list ends first. *)
Fixpoint unlink (a : Z) (rest : list tee_mm_entry) : option (list tee_mm_entry) :=
  match rest with
  | [] => None
  | n :: rest' =>
    if addr n =? a then Some rest'
    else match unlink a rest' with
         | None => None
         | Some r => Some (n :: r)
         end
  end.

(** [tee_mm_free] on an entry pointer [a] that belongs to [p]; [None] is the
    NULL pointer. *)
Definition tee_mm_free (p : tee_mm_pool) (a : option Z) : outcome tee_mm_pool :=
  match a with
  | None => Done p
  | Some a =>
    match chain p with
    | [] => Undef
    | sentinel :: rest =>
      match unlink a rest with
      | None => Panicked 0
      | Some rest' => Done (with_chain p (sentinel :: rest'))
      end
    end
  end.

(** [tee_mm_final]: free the first entry until only the sentinel is left,
    then the sentinel. *)
Fixpoint tee_mm_final_loop (fuel : nat) (p : tee_mm_pool) : outcome tee_mm_pool :=
  match fuel with
  | O => Undef
  | S f =>
    match chain p with
    | _ :: n :: _ => p' ← tee_mm_free p (Some (addr n)); tee_mm_final_loop f p'
    | _ => Done (with_chain p [])
    end
  end.

Definition tee_mm_final (p : tee_mm_pool) : outcome tee_mm_pool :=
  match chain p with
  | [] => Done p
  | _ => tee_mm_final_loop (S (length (chain p))) p
  end.

Definition tee_mm_get_bytes (p : tee_mm_pool) (mm : tee_mm_entry) : Z :=
  u32 (Z.shiftl (size mm) (shift p)).

Definition tee_mm_addr_is_within_range (p : tee_mm_pool) (a : Z) : bool :=
  (lo p <=? a) && (a <=? u64 (lo p + u64 (pool_size p - 1))).

Definition tee_mm_is_empty (p : tee_mm_pool) : bool :=
  match chain p with
  | [] | [_] => true
  | _ => false
  end.

(** [offset] is a [uint16_t] in [tee_mm_find]. *)
Definition tee_mm_find (p : tee_mm_pool) (a : Z) : outcome (option Z) :=
  match chain p with
  | [] => if tee_mm_addr_is_within_range p a then Undef else Done None
  | _ :: rest =>
    let off := u16 (Z.shiftr (u64 (a - lo p)) (shift p)) in
    if negb (tee_mm_addr_is_within_range p a) then Done None else
    Done ((λ ne, addr ne.2) <$>
      list_find (λ e, (offset e <=? off) && (off <? u32 (offset e + size e)) = true) rest)
  end.

Definition tee_mm_get_smem (p : tee_mm_pool) (mm : tee_mm_entry) : Z :=
  u64 (u32 (Z.shiftl (offset mm) (shift p)) + lo p).
