(* ===== verification/TeeMmProofs.v ===== *)
(** The correctness of the block allocator of core/mm/tee_mm.c: the pool
    invariant, what a successful allocation gives, when an allocation may
    fail, and the round trip of allocation and release. *)
From S2P Require Import Prelude TeeMm.

(** The number of blocks of the pool. *)
Definition nblocks (p : tee_mm_pool) : Z := pool_size p / 2 ^ shift p.

(** The allocations: the entries after the sentinel. *)
Definition live (p : tee_mm_pool) : list tee_mm_entry := tail (chain p).

(** Two block runs [o, o+n) and [e] do not meet. *)
Definition clear_of (o n : Z) (e : tee_mm_entry) : Prop :=
  o + n ≤ offset e ∨ offset e + size e ≤ o.

#[global] Instance clear_of_dec o n e : Decision (clear_of o n e).
Proof. unfold clear_of. apply _. Defined.

(** The list of a pool that allocates upwards from [b] within [n] blocks. *)
Fixpoint asc (b : Z) (l : list tee_mm_entry) (n : Z) : Prop :=
  match l with
  | [] => b ≤ n
  | e :: r => b ≤ offset e ∧ 0 ≤ size e ∧ asc (offset e + size e) r n
  end.

(** The list of a [TEE_MM_POOL_HI_ALLOC] pool, that allocates downwards from
    [t]. *)
Fixpoint desc (t : Z) (l : list tee_mm_entry) : Prop :=
  match l with
  | [] => 0 ≤ t
  | e :: r => offset e + size e ≤ t ∧ 0 ≤ size e ∧ desc (offset e) r
  end.

(** The invariant of an initialised pool smaller than 4 GiB. *)
Record pool_wf (p : tee_mm_pool) : Prop := {
  wf_shift : 0 ≤ shift p < 32;
  wf_size : 0 < pool_size p < 2 ^ 32;
  wf_lo : 0 ≤ lo p ∧ lo p + pool_size p < 2 ^ 64;
  wf_round : pool_size p = nblocks p * 2 ^ shift p;
  wf_chain : ∃ sent, chain p = sent :: live p ∧ size sent = 0 ∧
    if hi_alloc p
    then offset sent = nblocks p ∧ desc (nblocks p) (live p)
    else offset sent = 0 ∧ asc 0 (live p) (nblocks p);
}.

(** Any two different entries are apart. *)
Definition disjoint_entries (l : list tee_mm_entry) : Prop :=
  ∀ i j a b, l !! i = Some a → l !! j = Some b → (i < j)%nat →
    clear_of (offset a) (size a) b.

(** ** List lemmas *)

Lemma asc_weaken b b' l n : asc b l n → b' ≤ b → asc b' l n.
Proof. destruct l; simpl; intuition lia. Qed.

Lemma asc_bound b l n : asc b l n → b ≤ n.
Proof.
  revert b; induction l as [|e l IH]; simpl; intros b H; [done|].
  destruct H as (?&?&H). specialize (IH _ H). lia.
Qed.

Lemma asc_elem b l n e :
  asc b l n → e ∈ l → b ≤ offset e ∧ 0 ≤ size e ∧ offset e + size e ≤ n.
Proof.
  revert b; induction l as [|x l IH]; simpl; intros b H He.
  - by apply elem_of_nil in He.
  - destruct H as (?&?&H). apply elem_of_cons in He as [->|He].
    + pose proof (asc_bound _ _ _ H). lia.
    + destruct (IH _ H He) as (?&?&?). lia.
Qed.

Lemma asc_app b l1 e l2 n :
  asc b (l1 ++ e :: l2) n ↔
  asc b l1 (offset e) ∧ 0 ≤ size e ∧ asc (offset e + size e) l2 n.
Proof.
  revert b; induction l1 as [|x l IH]; simpl; intros b; [tauto|].
  rewrite IH. tauto.
Qed.

Lemma desc_bound t l : desc t l → 0 ≤ t.
Proof.
  revert t; induction l as [|e l IH]; simpl; intros t H; [done|].
  destruct H as (?&?&H). specialize (IH _ H). lia.
Qed.

Lemma desc_elem t l e :
  desc t l → e ∈ l → 0 ≤ offset e ∧ 0 ≤ size e ∧ offset e + size e ≤ t.
Proof.
  revert t; induction l as [|x l IH]; simpl; intros b H He.
  - by apply elem_of_nil in He.
  - destruct H as (?&?&H). apply elem_of_cons in He as [->|He].
    + pose proof (desc_bound _ _ H). lia.
    + destruct (IH _ H He) as (?&?&?). lia.
Qed.

(** [desc] of a list whose last bound is [b] rather than 0. *)
Fixpoint desc_to (t : Z) (l : list tee_mm_entry) (b : Z) : Prop :=
  match l with
  | [] => b ≤ t
  | e :: r => offset e + size e ≤ t ∧ 0 ≤ size e ∧ desc_to (offset e) r b
  end.

Lemma desc_desc_to t l : desc t l ↔ desc_to t l 0.
Proof. revert t; induction l; simpl; intros; [done|]. by rewrite IHl. Qed.

Lemma desc_app t l1 e l2 :
  desc t (l1 ++ e :: l2) ↔
  desc_to t l1 (offset e + size e) ∧ 0 ≤ size e ∧ desc (offset e) l2.
Proof.
  revert t; induction l1 as [|x l IH]; simpl; intros b; [tauto|].
  rewrite IH. tauto.
Qed.

Lemma asc_disjoint b l n : asc b l n → disjoint_entries l.
Proof.
  revert b; induction l as [|x l IH]; intros b H i j a c Ha Hc Hij; [done|].
  simpl in H. destruct H as (?&?&H).
  destruct i, j; simpl in *; try lia.
  - simplify_eq. left. apply list_elem_of_lookup_2 in Hc.
    destruct (asc_elem _ _ _ _ H Hc). lia.
  - eapply (IH _ H i j); eauto. lia.
Qed.

Lemma desc_disjoint t l : desc t l → disjoint_entries l.
Proof.
  revert t; induction l as [|x l IH]; intros b H i j a c Ha Hc Hij; [done|].
  simpl in H. destruct H as (?&?&H).
  destruct i, j; simpl in *; try lia.
  - simplify_eq. right. apply list_elem_of_lookup_2 in Hc.
    destruct (desc_elem _ _ _ H Hc). lia.
  - eapply (IH _ H i j); eauto. lia.
Qed.

(** ** The list walk *)

Lemma walk_split adv e rest pre e' next :
  walk adv e rest = (pre, e', next) → e :: rest = pre ++ e' :: next.
Proof.
  revert e pre; induction rest as [|n rest IH]; simpl; intros e pre H.
  - by simplify_eq.
  - destruct (adv e n); [|by simplify_eq].
    destruct (walk adv n rest) as [[pre0 e0] next0] eqn:W. simplify_eq.
    simpl. by rewrite (IH _ _ W).
Qed.

Lemma walk_stop adv e rest pre e' n next :
  walk adv e rest = (pre, e', n :: next) → adv e' n = false.
Proof.
  revert e pre; induction rest as [|x rest IH]; simpl; intros e pre H; [done|].
  destruct (adv e x) eqn:A; [|by simplify_eq].
  destruct (walk adv x rest) as [[pre0 e0] next0] eqn:W. simplify_eq. eauto.
Qed.

(** Every step the walk took went over a pair for which [adv] holds. *)
Lemma walk_passed adv e rest pre e' next l1 x y l2 :
  walk adv e rest = (pre, e', next) →
  pre ++ [e'] = l1 ++ x :: y :: l2 → adv x y = true.
Proof.
  revert e pre l1; induction rest as [|n rest IH]; simpl; intros e pre l1 H E.
  - simplify_eq. destruct l1 as [|? [|]]; simplify_list_eq.
  - destruct (adv e n) eqn:A; cycle 1.
    { simplify_eq. destruct l1 as [|? [|]]; simplify_list_eq. }
    destruct (walk adv n rest) as [[pre0 e0] next0] eqn:W. simplify_eq.
    destruct l1 as [|z l1]; simplify_list_eq.
    + pose proof (walk_split _ _ _ _ _ _ W) as S.
      destruct pre0; simplify_list_eq; done.
    + eapply IH; eauto.
Qed.

(** Insertion after the entry the walk reached, seen from the sentinel. *)
Lemma insert_after (s e nn : tee_mm_entry) l pre next :
  s :: l = pre ++ e :: next →
  ∃ l1, l = l1 ++ next ∧ pre ++ tee_mm_add e nn next = s :: l1 ++ nn :: next.
Proof.
  unfold tee_mm_add. destruct pre as [|x pre]; simpl; intros; simplify_eq.
  - by exists [].
  - exists (pre ++ [e]). rewrite <- !app_assoc. done.
Qed.

(** ** Sizes in blocks *)

Lemma psize_of_0 p : psize_of p 0 = 0.
Proof. done. Qed.

Lemma psize_of_pos p sz :
  0 ≤ shift p → 0 < sz →
  psize_of p sz = (sz - 1) / 2 ^ shift p + 1.
Proof.
  intros. unfold psize_of. case_match; breflect; [lia|].
  by rewrite Z.shiftr_div_pow2 by lia.
Qed.

Lemma psize_of_nonneg p sz : 0 ≤ shift p → 0 ≤ sz → 0 ≤ psize_of p sz.
Proof.
  intros Hs Hz. pose proof (pow2_pos _ Hs).
  destruct (decide (sz = 0)) as [->|]; [done|].
  rewrite psize_of_pos by lia. pose proof (Z.div_pos (sz - 1) (2 ^ shift p)). lia.
Qed.

(** [n] blocks hold [sz] bytes exactly when [psize_of] is at most [n]. *)
Lemma psize_of_fits p sz n :
  0 ≤ shift p → 0 ≤ sz → 0 ≤ n → psize_of p sz ≤ n ↔ sz ≤ n * 2 ^ shift p.
Proof.
  intros Hs Hz Hn. pose proof (pow2_pos _ Hs).
  destruct (decide (sz = 0)) as [->|]; [rewrite psize_of_0; nia|].
  rewrite psize_of_pos by lia.
  pose proof (Z.div_mod (sz - 1) (2 ^ shift p) ltac:(lia)).
  pose proof (Z.mod_pos_bound (sz - 1) (2 ^ shift p) ltac:(lia)).
  split; intros; nia.
Qed.

Lemma psize_of_tight p sz :
  0 ≤ shift p → 0 ≤ sz → psize_of p sz * 2 ^ shift p < sz + 2 ^ shift p.
Proof.
  intros Hs Hz. pose proof (pow2_pos _ Hs).
  destruct (decide (sz = 0)) as [->|]; [rewrite psize_of_0; lia|].
  rewrite psize_of_pos by lia.
  pose proof (Z.div_mod (sz - 1) (2 ^ shift p) ltac:(lia)).
  pose proof (Z.mod_pos_bound (sz - 1) (2 ^ shift p) ltac:(lia)). nia.
Qed.

(** The pool has fewer than [2^32] blocks, and each block offset times the
    block size is below [2^32]. *)
Lemma wf_nblocks p : pool_wf p → 0 < nblocks p < 2 ^ 32.
Proof.
  intros [? ? ? Hr _]. pose proof (pow2_pos (shift p) ltac:(lia)). nia.
Qed.

Lemma wf_shiftl p o :
  pool_wf p → 0 ≤ o ≤ nblocks p →
  u32 (Z.shiftl o (shift p)) = o * 2 ^ shift p ∧ o * 2 ^ shift p ≤ pool_size p.
Proof.
  intros [? ? ? Hr _] Ho. pose proof (pow2_pos (shift p) ltac:(lia)).
  rewrite Z.shiftl_mul_pow2 by lia.
  assert (o * 2 ^ shift p ≤ pool_size p) by (rewrite Hr; nia).
  split; [|done]. apply u32_id. nia.
Qed.

(** ** Preservation of the invariant *)

Lemma update_max_fields ws p :
  let q := update_max_allocated ws p in
  chain q = chain p ∧ lo q = lo p ∧ pool_size q = pool_size p
  ∧ flags q = flags p ∧ shift q = shift p.
Proof. unfold update_max_allocated. repeat case_match; done. Qed.

Lemma pool_wf_ext p q :
  chain q = chain p → lo q = lo p → pool_size q = pool_size p →
  flags q = flags p → shift q = shift p → pool_wf p → pool_wf q.
Proof.
  destruct p, q; simpl; intros; subst. destruct H4 as [A B C D E].
  split; assumption.
Qed.

(** The whole list, the sentinel included, is sorted. *)
Lemma wf_lo_chain p s l :
  pool_wf p → chain p = s :: l → hi_alloc p = false →
  asc 0 (s :: l) (nblocks p) ∧ offset s = 0 ∧ size s = 0.
Proof.
  intros [_ _ _ _ (s' & E & Z0 & H)] C Hh.
  unfold live in *. rewrite C in *. simplify_eq/=.
  rewrite Hh in H. destruct H as [-> H]. rewrite Z0. simpl. auto with lia.
Qed.

Lemma wf_hi_chain p s l :
  pool_wf p → chain p = s :: l → hi_alloc p = true →
  desc (nblocks p) (s :: l) ∧ offset s = nblocks p ∧ size s = 0.
Proof.
  intros [_ _ _ _ (s' & E & Z0 & H)] C Hh.
  unfold live in *. rewrite C in *. simplify_eq/=.
  rewrite Hh in H. destruct H as [Ho H]. rewrite Z0, Ho. simpl. auto with lia.
Qed.

Lemma pool_wf_chain p s l :
  pool_wf p → size s = 0 →
  (if hi_alloc p then offset s = nblocks p ∧ desc (nblocks p) l
   else offset s = 0 ∧ asc 0 l (nblocks p)) →
  pool_wf (with_chain p (s :: l)).
Proof.
  intros [A B C D _] Hz H. split; try assumption.
  exists s. split_and!; [done..|]. exact H.
Qed.

Lemma wf_nonempty p : pool_wf p → ∃ s l, chain p = s :: l ∧ live p = l.
Proof. intros [_ _ _ _ (s & E & _)]. exists s, (live p). auto. Qed.

(** ** Gaps between neighbours *)

Definition gap (p : tee_mm_pool) (x y : tee_mm_entry) : Z :=
  if hi_alloc p then offset x - offset y - size y
  else offset y - size x - offset x.

(** A sorted whole list: ascending or descending as the pool's flags say. *)
Definition sorted (p : tee_mm_pool) (c : list tee_mm_entry) : Prop :=
  if hi_alloc p then desc (nblocks p) c else asc 0 c (nblocks p).

Lemma wf_sorted p : pool_wf p → sorted p (chain p).
Proof.
  intros W. destruct (wf_nonempty _ W) as (s & l & C & _). unfold sorted.
  destruct (hi_alloc p) eqn:Hh; rewrite C.
  - by apply (wf_hi_chain _ _ _ W C Hh).
  - by apply (wf_lo_chain _ _ _ W C Hh).
Qed.

Lemma sorted_elem p c e :
  sorted p c → e ∈ c → 0 ≤ offset e ∧ 0 ≤ size e ∧ offset e + size e ≤ nblocks p.
Proof.
  unfold sorted. case_match; intros S E.
  - destruct (desc_elem _ _ _ S E). lia.
  - destruct (asc_elem _ _ _ _ S E). lia.
Qed.

Lemma alloc_advance_gap p psize c l1 x y l2 :
  pool_wf p → sorted p c → c = l1 ++ x :: y :: l2 →
  alloc_advance p psize x y = (gap p x y <? psize) ∧ 0 ≤ gap p x y.
Proof.
  intros W S ->. pose proof (wf_nblocks _ W).
  destruct (sorted_elem p _ x S) as (?&?&?); [set_solver+|].
  destruct (sorted_elem p _ y S) as (?&?&?); [set_solver+|].
  unfold alloc_advance, gap, sorted in *. destruct (hi_alloc p).
  - apply desc_app in S as (_ & _ & S). simpl in S. destruct S as (?&?&_).
    rewrite (u32_id (offset x - offset y)) by lia.
    rewrite u32_id by lia. split; [done|lia].
  - apply asc_app in S as (_ & _ & S). simpl in S. destruct S as (?&?&_).
    rewrite (u32_id (offset y - size x)) by lia.
    rewrite u32_id by lia. split; [done|lia].
Qed.

(** The room that is left after the last entry of the list. *)
Definition last_room (p : tee_mm_pool) (e : tee_mm_entry) : Z :=
  if hi_alloc p then offset e else nblocks p - (offset e + size e).

(** Where [tee_mm_alloc] puts an entry of [n] blocks after [e]. *)
Definition place (p : tee_mm_pool) (e : tee_mm_entry) (n : Z) : Z :=
  if hi_alloc p then offset e - n else offset e + size e.

Definition room_after (p : tee_mm_pool) (e : tee_mm_entry)
  (next : list tee_mm_entry) : Z :=
  match next with [] => last_room p e | y :: _ => gap p e y end.

(** The run [o, o+n) is between [e] and its successor. *)
Definition fits (p : tee_mm_pool) (e : tee_mm_entry) (next : list tee_mm_entry)
  (o n : Z) : Prop :=
  if hi_alloc p then
    o + n ≤ offset e ∧ match next with [] => 0 ≤ o | y :: _ => offset y + size y ≤ o end
  else
    offset e + size e ≤ o
    ∧ match next with [] => o + n ≤ nblocks p | y :: _ => o + n ≤ offset y end.

Lemma place_fits p e next n :
  0 ≤ n ≤ room_after p e next → fits p e next (place p e n) n.
Proof.
  unfold fits, place, room_after, last_room, gap.
  destruct (hi_alloc p), next; lia.
Qed.

Lemma sorted_insert p pre e next nn :
  sorted p (pre ++ e :: next) → 0 ≤ size nn →
  fits p e next (offset nn) (size nn) →
  sorted p (pre ++ tee_mm_add e nn next).
Proof.
  unfold sorted, fits, tee_mm_add. intros S N F. destruct (hi_alloc p).
  - apply desc_app in S as (A & B & C). apply desc_app. split_and!; [done..|].
    simpl. destruct next; simpl in *; intuition lia.
  - apply asc_app in S as (A & B & C). apply asc_app. split_and!; [done..|].
    simpl. destruct next; simpl in *; intuition lia.
Qed.

(** A run of blocks that is clear of every entry lies in one of the gaps. *)
Lemma asc_clear_gap b l n o k :
  asc b l n → 0 < k → b ≤ o → o + k ≤ n → (∀ e, e ∈ l → clear_of o k e) →
  (∃ y l2, l = y :: l2 ∧ b ≤ o ∧ o + k ≤ offset y) ∨
  (∃ l1 x y l2, l = l1 ++ x :: y :: l2 ∧ offset x + size x ≤ o ∧ o + k ≤ offset y) ∨
  (∃ x l1, l = l1 ++ [x] ∧ offset x + size x ≤ o) ∨ l = [].
Proof.
  revert b; induction l as [|e l IH]; intros b S K B N C; [auto|].
  simpl in S. destruct S as (S1 & S2 & S).
  destruct (C e ltac:(set_solver)) as [H|H].
  { left. eauto. }
  destruct (IH _ S K H N ltac:(set_solver))
    as [(y & l2 & -> & ? & ?)|[(l1 & x & y & l2 & -> & ? & ?)|[(x & l1 & -> & ?)| ->]]].
  - right; left. by exists [], e, y, l2.
  - right; left. by exists (e :: l1), x, y, l2.
  - right; right; left. by exists x, (e :: l1).
  - right; right; left. by exists e, [].
Qed.

Lemma desc_clear_gap t l o k :
  desc t l → 0 < k → 0 ≤ o → o + k ≤ t → (∀ e, e ∈ l → clear_of o k e) →
  (∃ y l2, l = y :: l2 ∧ offset y + size y ≤ o ∧ o + k ≤ t) ∨
  (∃ l1 x y l2, l = l1 ++ x :: y :: l2 ∧ offset y + size y ≤ o ∧ o + k ≤ offset x) ∨
  (∃ x l1, l = l1 ++ [x] ∧ o + k ≤ offset x) ∨ l = [].
Proof.
  revert t; induction l as [|e l IH]; intros t S K B N C; [auto|].
  simpl in S. destruct S as (S1 & S2 & S).
  destruct (C e ltac:(set_solver)) as [H|H]; cycle 1.
  { left. eauto. }
  destruct (IH _ S K B H ltac:(set_solver))
    as [(y & l2 & -> & ? & ?)|[(l1 & x & y & l2 & -> & ? & ?)|[(x & l1 & -> & ?)| ->]]].
  - right; left. by exists [], e, y, l2.
  - right; left. by exists (e :: l1), x, y, l2.
  - right; right; left. by exists x, (e :: l1).
  - right; right; left. by exists e, [].
Qed.

(** In terms of the whole list, sentinel included. *)
Lemma clear_in_gap p s l o k :
  pool_wf p → chain p = s :: l → 0 < k → 0 ≤ o → o + k ≤ nblocks p →
  (∀ e, e ∈ l → clear_of o k e) →
  (∃ l1 x y l2, s :: l = l1 ++ x :: y :: l2 ∧ k ≤ gap p x y) ∨
  (∃ x l1, s :: l = l1 ++ [x] ∧ k ≤ last_room p x).
Proof.
  intros W C K O N Cl. unfold gap, last_room.
  destruct (hi_alloc p) eqn:Hh.
  - destruct (wf_hi_chain _ _ _ W C Hh) as (S & Os & Zs). simpl in S.
    destruct (desc_clear_gap (offset s) l o k)
      as [(y & l2 & -> & ? & ?)|[(l1 & x & y & l2 & -> & ? & ?)|[(x & l1 & -> & ?)| -> ] ] ];
      [intuition lia..|set_solver| | | |].
    + left. exists [], s, y, l2. split; [done|lia].
    + left. exists (s :: l1), x, y, l2. split; [done|lia].
    + right. exists x, (s :: l1). split; [done|lia].
    + right. exists s, []. split; [done|lia].
  - destruct (wf_lo_chain _ _ _ W C Hh) as (S & Os & Zs). simpl in S.
    destruct S as (_ & _ & S).
    destruct (asc_clear_gap (offset s + size s) l (nblocks p) o k)
      as [(y & l2 & -> & ? & ?)|[(l1 & x & y & l2 & -> & ? & ?)|[(x & l1 & -> & ?)| -> ] ] ];
      [done|lia..|set_solver| | | |].
    + left. exists [], s, y, l2. split; [done|lia].
    + left. exists (s :: l1), x, y, l2. split; [done|lia].
    + right. exists x, (s :: l1). split; [done|lia].
    + right. exists s, []. split; [done|lia].
Qed.

(** ** What one call of [tee_mm_alloc] does *)

(** The byte test of the last entry decides whether the blocks fit. *)
Lemma last_room_test p sz e :
  pool_wf p → 0 ≤ sz < 2 ^ 64 → 0 ≤ offset e → 0 ≤ size e →
  offset e + size e ≤ nblocks p →
  (if hi_alloc p then u32 (Z.shiftl (offset e) (shift p)) <? sz
   else u64 (pool_size p -
             u32 (Z.shiftl (u32 (offset e + size e)) (shift p))) <? sz)
  = (last_room p e <? psize_of p sz).
Proof.
  intros W Hsz Ho Hs Hn. pose proof (wf_nblocks _ W). pose proof W as [? ? ? Hr _].
  unfold last_room. destruct (hi_alloc p).
  - destruct (wf_shiftl p (offset e) W) as [-> _]; [lia|].
    pose proof (psize_of_fits p sz (offset e)). apply eq_true_iff_eq.
    rewrite !Z.ltb_lt. lia.
  - rewrite (u32_id (_ + _)) by lia.
    destruct (wf_shiftl p (offset e + size e) W) as [-> ?]; [lia|].
    pose proof (pow2_pos (shift p) ltac:(lia)).
    rewrite u64_id by nia.
    pose proof (psize_of_fits p sz (nblocks p - (offset e + size e))).
    apply eq_true_iff_eq. rewrite !Z.ltb_lt.
    replace (pool_size p - (offset e + size e) * 2 ^ shift p)
      with ((nblocks p - (offset e + size e)) * 2 ^ shift p) by (rewrite Hr at 1; ring).
    lia.
Qed.

(** The decision [tee_mm_alloc] takes, in terms of gaps. *)
Lemma tee_mm_alloc_eq ws p sz a s l pre e next :
  pool_wf p → 0 ≤ sz < 2 ^ 64 → chain p = s :: l →
  walk (alloc_advance p (psize_of p sz)) s l = (pre, e, next) →
  let k := psize_of p sz in
  tee_mm_alloc ws p sz (Some a) =
  if room_after p e next <? k then Done (None, p)
  else Done (Some a, update_max_allocated ws
         (with_chain p (pre ++ tee_mm_add e (mk_entry a (place p e k) k) next))).
Proof.
  intros W Hsz C Hw k. pose proof (wf_nblocks _ W).
  pose proof (wf_sorted _ W) as S. rewrite C, (walk_split _ _ _ _ _ _ Hw) in S.
  destruct (sorted_elem p _ e S) as (?&?&?); [set_solver+|].
  pose proof (psize_of_nonneg p sz). pose proof (wf_shift _ W). pose proof (wf_size _ W).
  assert (∀ n, n ≤ nblocks p → k ≤ n → u32 k = k) as Hk.
  { intros. apply u32_id. unfold k in *. lia. }
  unfold tee_mm_alloc. rewrite C, Hw. fold k.
  assert (k ≤ room_after p e next → room_after p e next ≤ nblocks p →
    mk_entry a (if hi_alloc p then u32 (offset e - k) else u32 (offset e + size e)) (u32 k)
    = mk_entry a (place p e k) k) as Hentry.
  { intros K1 K2. rewrite (Hk _ K2 K1). f_equal. unfold place, k in *.
    destruct next as [|y next]; simpl in *; unfold last_room, gap in *.
    - case_match; apply u32_id; lia.
    - destruct (sorted_elem p _ y S) as (?&?&?); [set_solver+|].
      case_match; apply u32_id; lia. }
  destruct next as [|y next]; simpl room_after in *.
  - pose proof (last_room_test p sz e W Hsz) as T. fold k in T.
    rewrite <- T by lia. clear T.
    pose proof (last_room_test p sz e W Hsz) as T. fold k in T.
    specialize (T ltac:(lia) ltac:(lia) ltac:(lia)).
    destruct (hi_alloc p) eqn:Hh.
    + rewrite T. case_match; [done|]. breflect.
      rewrite Hentry; [done|lia|]. unfold last_room. rewrite Hh. lia.
    + case_match; [breflect; lia|]. rewrite T. case_match; [done|]. breflect.
      rewrite Hentry; [done|lia|]. unfold last_room. rewrite Hh. lia.
  - pose proof (walk_stop _ _ _ _ _ _ _ Hw) as St.
    destruct (alloc_advance_gap p k _ pre e y next W S eq_refl) as [G ?].
    fold k in St. rewrite St in G. rewrite <- G. symmetry in G. breflect.
    rewrite Hentry; [done|lia|]. unfold gap.
    destruct (sorted_elem p _ y S) as (?&?&?); [set_solver+|]. case_match; lia.
Qed.

Lemma wf_insert ws p s l pre e next nn :
  pool_wf p → chain p = s :: l → s :: l = pre ++ e :: next →
  0 ≤ size nn → fits p e next (offset nn) (size nn) →
  let p' := update_max_allocated ws (with_chain p (pre ++ tee_mm_add e nn next)) in
  pool_wf p' ∧ ∃ l1, live p = l1 ++ next ∧ live p' = l1 ++ nn :: next.
Proof.
  intros W C E R F p'.
  pose proof (wf_sorted _ W) as S. rewrite C, E in S.
  pose proof (sorted_insert p pre e next nn S R F) as S'.
  destruct (insert_after s e nn l pre next E) as (l1 & -> & E').
  destruct (update_max_fields ws (with_chain p (pre ++ tee_mm_add e nn next)))
    as (F1 & F2 & F3 & F4 & F5).
  simpl in F1. split.
  - apply (pool_wf_ext (with_chain p (pre ++ tee_mm_add e nn next))); [done..|].
    rewrite E' in *. unfold sorted in S'.
    destruct (hi_alloc p) eqn:Hh.
    + destruct (wf_hi_chain _ _ _ W C Hh) as (_ & Os & Zs).
      apply pool_wf_chain; [done..|]. rewrite Hh. split; [done|].
      destruct S' as (_ & _ & S'). by rewrite Os in S'.
    + destruct (wf_lo_chain _ _ _ W C Hh) as (_ & Os & Zs).
      apply pool_wf_chain; [done..|]. rewrite Hh. split; [done|].
      destruct S' as (_ & _ & S'). by rewrite Os, Zs in S'.
  - exists l1. unfold live, p'. rewrite F1, C. by rewrite E'.
Qed.

Lemma room_le_nblocks p pre e next :
  pool_wf p → sorted p (pre ++ e :: next) → room_after p e next ≤ nblocks p.
Proof.
  intros W S. destruct (sorted_elem p _ e S) as (?&?&?); [set_solver+|].
  unfold room_after, last_room, gap. destruct next as [|y next].
  - case_match; lia.
  - destruct (sorted_elem p _ y S) as (?&?&?); [set_solver+|]. case_match; lia.
Qed.

(** ** Allocation *)

Lemma clear_of_sym x y :
  clear_of (offset x) (size x) y ↔ clear_of (offset y) (size y) x.
Proof. unfold clear_of. lia. Qed.

Lemma wf_disjoint p : pool_wf p → disjoint_entries (live p).
Proof.
  intros W. pose proof W as [_ _ _ _ (s & _ & _ & H)]. case_match.
  - eapply desc_disjoint. apply H.
  - eapply asc_disjoint. apply H.
Qed.

Lemma wf_live_bounds p e :
  pool_wf p → e ∈ live p → 0 ≤ offset e ∧ 0 ≤ size e ∧ offset e + size e ≤ nblocks p.
Proof.
  intros W E. destruct (wf_nonempty _ W) as (s & l & C & L).
  apply (sorted_elem p (chain p)); [by apply wf_sorted|].
  rewrite C. rewrite L in E. set_solver.
Qed.

(** In a well-formed pool a new entry is apart from all the others. *)
Lemma wf_inserted_clear p l1 l2 nn e :
  pool_wf p → live p = l1 ++ nn :: l2 → e ∈ l1 ++ l2 →
  clear_of (offset nn) (size nn) e.
Proof.
  intros W L E. pose proof (wf_disjoint _ W) as D. rewrite L in D.
  assert (Hn : (l1 ++ nn :: l2) !! length l1 = Some nn) by by apply list_lookup_middle.
  apply elem_of_app in E as [E|E]; apply list_elem_of_lookup in E as [i E].
  - apply clear_of_sym. apply (D i (length l1)); [|done|by eapply lookup_lt_Some].
    rewrite lookup_app_l; [done|]. by eapply lookup_lt_Some.
  - apply (D (length l1) (length l1 + S i)%nat); [done| |lia].
    rewrite lookup_app_r by lia. by replace (_ - _)%nat with (S i) by lia.
Qed.

(** Everything an insertion that fits gives. *)
Lemma insert_correct ws p s l pre e next nn :
  pool_wf p → chain p = s :: l → s :: l = pre ++ e :: next →
  0 ≤ size nn → fits p e next (offset nn) (size nn) →
  let p' := update_max_allocated ws (with_chain p (pre ++ tee_mm_add e nn next)) in
  pool_wf p' ∧
  (∃ l1, live p = l1 ++ next ∧ live p' = l1 ++ nn :: next) ∧
  0 ≤ offset nn ∧ offset nn + size nn ≤ nblocks p ∧
  ∀ x, x ∈ live p → clear_of (offset nn) (size nn) x.
Proof.
  intros W C Hs Hn F p'.
  destruct (wf_insert ws p s l pre e next nn W C Hs Hn F) as (W' & l1 & L1 & L2).
  fold p' in W', L2.
  assert (nblocks p' = nblocks p) as En.
  { destruct (update_max_fields ws (with_chain p (pre ++ tee_mm_add e nn next)))
      as (_&_&E1&_&E2). fold p' in E1, E2. unfold nblocks. by rewrite E1, E2. }
  destruct (wf_live_bounds p' nn W') as (B1&_&B2); [rewrite L2; set_solver+|].
  split_and!; [done|by exists l1|done|by rewrite <- En|].
  intros x Hx. rewrite L1 in Hx. by apply (wf_inserted_clear _ _ _ _ _ W' L2).
Qed.

(** When the walk ends without room, no gap holds [k] blocks. *)
Lemma no_clear_run p k s l pre e next o n :
  pool_wf p → chain p = s :: l →
  walk (alloc_advance p k) s l = (pre, e, next) → room_after p e next < k →
  0 ≤ o → o + n ≤ nblocks p → k ≤ n →
  ∃ x, x ∈ live p ∧ ¬ clear_of o n x.
Proof.
  intros W C Hw R Ho Hn K. pose proof (walk_split _ _ _ _ _ _ Hw) as Hs.
  pose proof (wf_sorted _ W) as S. rewrite C in S.
  assert (next = []) as ->.
  { destruct next as [|y next]; [done|]. simpl in R.
    pose proof (walk_stop _ _ _ _ _ _ _ Hw) as St.
    destruct (alloc_advance_gap p k _ pre e y next W S Hs) as [G _].
    rewrite St in G. symmetry in G. breflect. lia. }
  assert (0 ≤ last_room p e).
  { destruct (sorted_elem p _ e S) as (?&?&?); [rewrite Hs; set_solver+|].
    unfold last_room. case_match; lia. }
  simpl in R.
  destruct (decide (Exists (λ x, ¬ clear_of o n x) (live p))) as [Ex|Ex].
  { by apply Exists_exists in Ex. }
  exfalso. apply not_Exists_Forall in Ex; [|apply _].
  assert (∀ x, x ∈ l → clear_of o n x) as Cl.
  { intros x Hx. apply dec_stable. unfold live in Ex. rewrite C in Ex.
    rewrite Forall_forall in Ex. by apply Ex. }
  destruct (clear_in_gap p s l o n W C ltac:(lia) Ho Hn Cl)
    as [(l1 & x & y & l2 & E & G)|(x & l1 & E & G)].
  - destruct (alloc_advance_gap p k _ l1 x y l2 W S E) as [A _].
    rewrite Hs in E. rewrite (walk_passed _ _ _ _ _ _ _ _ _ _ Hw E) in A.
    symmetry in A. breflect. lia.
  - rewrite Hs in E. apply app_inj_tail in E as [_ ->]. lia.
Qed.

(** What one allocation of [sz] bytes in [p] promises of its result. On
    success the new entry, of the fewest blocks that hold [sz] bytes, lies
    inside the pool and meets no live entry; on failure no run of blocks that
    would hold [sz] bytes is clear of the live entries. *)
Definition alloc_post (p : tee_mm_pool) (sz a : Z) (r : option Z) (p' : tee_mm_pool)
  : Prop :=
  match r with
  | Some a' =>
    a' = a ∧ pool_wf p' ∧ ∃ l1 l2 o n,
      live p = l1 ++ l2 ∧ live p' = l1 ++ mk_entry a o n :: l2 ∧
      sz ≤ n * 2 ^ shift p < sz + 2 ^ shift p ∧
      0 ≤ o ∧ o + n ≤ nblocks p ∧ ∀ e, e ∈ live p → clear_of o n e
  | None =>
    p' = p ∧ ∀ o n, 0 ≤ o → o + n ≤ nblocks p → sz ≤ n * 2 ^ shift p →
      ∃ e, e ∈ live p ∧ ¬ clear_of o n e
  end.

Lemma tee_mm_alloc_spec ws p sz a :
  pool_wf p → 0 ≤ sz < 2 ^ 64 →
  ∃ r p', tee_mm_alloc ws p sz (Some a) = Done (r, p') ∧ alloc_post p sz a r p'.
Proof.
  intros W Hsz. destruct (wf_nonempty _ W) as (s & l & C & L).
  destruct (walk (alloc_advance p (psize_of p sz)) s l) as [[pre e] next] eqn:Hw.
  pose proof (walk_split _ _ _ _ _ _ Hw) as Hs.
  rewrite (tee_mm_alloc_eq ws p sz a s l pre e next W Hsz C Hw).
  pose proof (wf_shift _ W) as Wsh. pose proof (pow2_pos (shift p) ltac:(lia)).
  pose proof (psize_of_nonneg p sz ltac:(lia) ltac:(lia)) as Hk0.
  case_match; breflect.
  - exists None, p. split; [done|]. split; [done|]. intros o n Ho Hn Hb.
    eapply no_clear_run; eauto.
    apply psize_of_fits; [lia..| |done]. nia.
  - eexists (Some a), _. split; [done|]. split; [done|].
    destruct (insert_correct ws p s l pre e next
                (mk_entry a (place p e (psize_of p sz)) (psize_of p sz)) W C Hs)
      as (W' & (l1 & L1 & L2) & B1 & B2 & Cl); [done|by apply place_fits|].
    split; [done|]. eexists l1, next, _, _. split_and!; eauto.
    + by apply psize_of_fits; [lia..|].
    + apply psize_of_tight; lia.
Qed.

(** [tee_mm_alloc] never panics on a well-formed pool; what it returns is
    right ([alloc_post]): a fresh run of blocks inside the pool that holds the
    request, or NULL when no such run is free. *)
Theorem tee_mm_alloc_correct ws p sz a :
  pool_wf p → 0 ≤ sz < 2 ^ 64 →
  ∃ r p', tee_mm_alloc ws p sz (Some a) = Done (r, p') ∧ alloc_post p sz a r p'.
Proof. apply tee_mm_alloc_spec. Qed.

(** ** Allocation at a given address *)

(** The blocks [offslo, offshi) that cover the bytes from [base] on. *)
Lemma alloc2_blocks p base sz :
  pool_wf p → lo p ≤ base → 0 < sz → base + sz ≤ 2 ^ 64 - 2 ^ shift p →
  let B := 2 ^ shift p in
  let x := (base - lo p) / B in
  let y := (base - lo p + sz - 1) / B + 1 in
  Z.shiftr (u64 (base - lo p)) (shift p) = x ∧
  u64 (Z.shiftr (u64 (u64 (base - lo p) + sz - 1)) (shift p) + 1) = y ∧
  0 ≤ x < y ∧ x * B ≤ base - lo p ∧ base - lo p + sz ≤ y * B ∧
  0 ≤ y * B < 2 ^ 64.
Proof.
  intros W Hb Hz Hm B x y. pose proof (wf_shift _ W). pose proof (wf_lo _ W).
  pose proof (pow2_pos (shift p) ltac:(lia)) as HB. fold B in HB, Hm.
  rewrite (u64_id (base - lo p)), (u64_id (base - lo p + sz - 1)) by lia.
  rewrite !Z.shiftr_div_pow2 by lia. fold B. fold x.
  pose proof (Z.div_mod (base - lo p) B ltac:(lia)).
  pose proof (Z.mod_pos_bound (base - lo p) B ltac:(lia)).
  pose proof (Z.div_mod (base - lo p + sz - 1) B ltac:(lia)).
  pose proof (Z.mod_pos_bound (base - lo p + sz - 1) B ltac:(lia)).
  assert (x ≤ (base - lo p + sz - 1) / B) by (apply Z.div_le_mono; lia).
  assert (0 ≤ x) by (apply Z.div_pos; lia).
  assert (y * B < 2 ^ 64) by (unfold y; nia).
  fold y. rewrite u64_id by (unfold y in *; nia).
  split_and!; unfold y, x in *; lia || nia.
Qed.

Lemma walk_last_passed adv e rest pre e' next :
  walk adv e rest = (pre, e', next) →
  (pre = [] ∧ e' = e) ∨ ∃ pre' x, pre = pre' ++ [x] ∧ adv x e' = true ∧ e' ∈ rest.
Proof.
  intros Hw. pose proof (walk_split _ _ _ _ _ _ Hw) as Hs.
  destruct pre as [|x pre _] using rev_ind; [left; by simplify_list_eq|].
  right. exists pre, x. split; [done|]. split.
  - eapply (walk_passed _ _ _ _ _ _ pre x e' []); [done|]. by rewrite <- app_assoc.
  - destruct pre; simplify_list_eq; set_solver.
Qed.

(** [fit_in_gap] decides whether the run fits after [e]. *)
Lemma fit_in_gap_spec p pre e next x y :
  pool_wf p → sorted p (pre ++ e :: next) →
  0 ≤ x < y → y * 2 ^ shift p < 2 ^ 64 →
  fit_in_gap p e next x y = true ↔ fits p e next x (y - x) ∧ y ≤ nblocks p.
Proof.
  intros W S Hxy Hy. pose proof (wf_shift _ W). pose proof (wf_nblocks _ W).
  pose proof (pow2_pos (shift p) ltac:(lia)). pose proof (wf_round _ W) as Hr.
  destruct (sorted_elem p _ e S) as (?&?&?); [set_solver+|].
  assert (match next with [] => True | n :: _ =>
     0 ≤ offset n ∧ 0 ≤ size n ∧ offset n + size n ≤ nblocks p end) as Hn.
  { destruct next; [done|]. apply (sorted_elem p _ _ S). set_solver+. }
  unfold fit_in_gap, fits. rewrite Z.shiftl_mul_pow2 by lia.
  assert (0 ≤ y * 2 ^ shift p) by nia.
  assert (pool_size p < y * 2 ^ shift p ↔ nblocks p < y) by (rewrite Hr; nia).
  assert (nblocks p < y → pool_size p < y * 2 ^ shift p - 1 ∨ shift p = 0 ∧ y = nblocks p + 1).
  { intros. destruct (decide (shift p = 0)) as [E0|E0].
    - rewrite E0 in *. change (2 ^ 0) with 1 in *. lia.
    - left. assert (2 ≤ 2 ^ shift p).
      { change 2 with (2 ^ 1) at 1. apply Z.pow_le_mono_r; lia. }
      rewrite Hr. nia. }
  rewrite (u64_id (y * _)) by lia.
  destruct (hi_alloc p); rewrite negb_true_iff, !orb_false_iff.
  - rewrite u64_id by nia. destruct next as [|n next].
    + rewrite !Z.ltb_ge. nia.
    + rewrite (u32_id (offset n + _)) by lia. rewrite !Z.ltb_ge. nia.
  - rewrite (u32_id (offset e + _)) by lia. destruct next as [|n next].
    + rewrite !Z.ltb_ge. lia.
    + rewrite !Z.ltb_ge. lia.
Qed.

(** Where [tee_mm_alloc2] stops: a run that is clear of every non-empty entry
    fits right there. *)
Lemma alloc2_stop_fits p s l pre e next x y :
  pool_wf p → chain p = s :: l →
  walk (alloc2_advance p x y) s l = (pre, e, next) →
  0 ≤ x < y → y ≤ nblocks p →
  (∀ z, z ∈ l → 0 < size z ∧ clear_of x (y - x) z) →
  fits p e next x (y - x).
Proof.
  intros W C Hw Hxy Hy Cl. pose proof (wf_nblocks _ W).
  pose proof (walk_split _ _ _ _ _ _ Hw) as Hs.
  pose proof (wf_sorted _ W) as S. rewrite C in S.
  assert (∀ z, z ∈ l → 0 ≤ offset z ∧ offset z + size z ≤ nblocks p) as Hb.
  { intros z Hz. destruct (sorted_elem p _ z S) as (?&?&?); [set_solver+Hz|]. lia. }
  assert (match next with [] => True | n :: _ => n ∈ l ∧
    alloc2_advance p x y e n = false end) as Hn.
  { destruct next as [|n next]; [done|]. split; [|eapply walk_stop; eauto].
    destruct pre; simplify_list_eq; set_solver+. }
  unfold alloc2_advance, clear_of, fits in *.
  destruct (walk_last_passed _ _ _ _ _ _ Hw) as [[-> ->]|(pre' & z & -> & A & He)].
  - destruct (hi_alloc p) eqn:Hh.
    + destruct (wf_hi_chain _ _ _ W C Hh) as (_&?&?). split; [lia|].
      destruct next as [|n next]; [lia|]. destruct Hn as [Hn A].
      destruct (Cl n Hn), (Hb n Hn). rewrite u32_id in A by lia. breflect. lia.
    + destruct (wf_lo_chain _ _ _ W C Hh) as (_&?&?). split; [lia|].
      destruct next as [|n next]; [lia|]. destruct Hn as [Hn A].
      destruct (Cl n Hn), (Hb n Hn). breflect. lia.
  - destruct (Cl e He), (Hb e He). destruct (hi_alloc p) eqn:Hh.
    + rewrite u32_id in A by lia. breflect. split; [lia|].
      destruct next as [|n next]; [lia|]. destruct Hn as [Hn A'].
      destruct (Cl n Hn), (Hb n Hn). rewrite u32_id in A' by lia. breflect. lia.
    + breflect. split; [lia|].
      destruct next as [|n next]; [lia|]. destruct Hn as [Hn A'].
      destruct (Cl n Hn), (Hb n Hn). breflect. lia.
Qed.

(** [tee_mm_alloc2] as a decision on the entry where the walk stops. *)
Lemma tee_mm_alloc2_eq ws p base sz a s l :
  pool_wf p → lo p ≤ base → 0 < sz → base + sz ≤ 2 ^ 64 - 2 ^ shift p →
  chain p = s :: l →
  let o := (base - lo p) / 2 ^ shift p in
  let n := (base - lo p + sz - 1) / 2 ^ shift p + 1 - o in
  ∃ pre e next,
    walk (alloc2_advance p o (o + n)) s l = (pre, e, next) ∧
    (fit_in_gap p e next o (o + n) = true ↔ fits p e next o n ∧ o + n ≤ nblocks p) ∧
    0 ≤ o ∧ 0 < n ∧
    o * 2 ^ shift p ≤ base - lo p ∧ base - lo p + sz ≤ (o + n) * 2 ^ shift p ∧
    tee_mm_alloc2 ws p base sz (Some a) =
    if fit_in_gap p e next o (o + n)
    then Done (Some a, update_max_allocated ws
           (with_chain p (pre ++ tee_mm_add e (mk_entry a o n) next)))
    else Done (None, p).
Proof.
  intros W Hb Hz Hm C o n.
  destruct (alloc2_blocks p base sz W Hb Hz Hm) as (Ex & Ey & Hxy & Lo & Hi & B).
  pose proof (wf_lo _ W). pose proof (wf_nblocks _ W).
  pose proof (pow2_pos (shift p) ltac:(apply W)).
  unfold tee_mm_alloc2. rewrite C, Ex, Ey. rewrite u64_id by lia.
  replace (base + sz <? base) with false by (symmetry; apply Z.ltb_ge; lia).
  replace (base <? lo p) with false by (symmetry; apply Z.ltb_ge; lia).
  cbn [orb]. fold o in Hxy, Lo |- *.
  set (y := (base - lo p + sz - 1) / 2 ^ shift p + 1) in *.
  assert (o + n = y) as -> by (unfold n; lia).
  destruct (walk _ s l) as [[pre e] next] eqn:Hw. exists pre, e, next.
  pose proof (walk_split _ _ _ _ _ _ Hw) as Hs.
  pose proof (wf_sorted _ W) as S. rewrite C, Hs in S.
  pose proof (fit_in_gap_spec p pre e next o y W S Hxy ltac:(lia)) as F.
  replace (y - o) with n in F |- * by lia.
  split_and!; [done|done|lia|lia|lia|lia|].
  destruct (fit_in_gap p e next o y); [|done]. cbn [negb].
  destruct (proj1 F eq_refl). rewrite !u32_id by lia. done.
Qed.

Lemma tee_mm_alloc2_wf ws p base sz a r p' :
  pool_wf p → lo p ≤ base → 0 < sz → base + sz ≤ 2 ^ 64 - 2 ^ shift p →
  tee_mm_alloc2 ws p base sz (Some a) = Done (r, p') → pool_wf p'.
Proof.
  intros W Hb Hz Hm. destruct (wf_nonempty _ W) as (s & l & C & L).
  destruct (tee_mm_alloc2_eq ws p base sz a s l W Hb Hz Hm C)
    as (pre & e & next & Hw & F & _ & Hn & _ & _ & ->).
  case_match; intros E; injection E as <- <-; [|done].
  eapply insert_correct; eauto using walk_split; [simpl; lia|]. by apply F.
Qed.

(** [tee_mm_alloc2] gives the blocks that cover [base, base+size) when
    they are inside the pool and meet no live entry, and NULL otherwise. *)
Theorem tee_mm_alloc2_correct ws p base sz a :
  pool_wf p → lo p ≤ base → 0 < sz → base + sz ≤ 2 ^ 64 - 2 ^ shift p →
  (∀ e, e ∈ live p → 0 < size e) →
  let o := (base - lo p) / 2 ^ shift p in
  let n := (base - lo p + sz - 1) / 2 ^ shift p + 1 - o in
  if decide (o + n ≤ nblocks p ∧ Forall (clear_of o n) (live p))
  then ∃ p' l1 l2, tee_mm_alloc2 ws p base sz (Some a) = Done (Some a, p') ∧
    pool_wf p' ∧ live p = l1 ++ l2 ∧ live p' = l1 ++ mk_entry a o n :: l2 ∧
    o * 2 ^ shift p ≤ base - lo p ∧ base - lo p + sz ≤ (o + n) * 2 ^ shift p
  else tee_mm_alloc2 ws p base sz (Some a) = Done (None, p).
Proof.
  intros W Hb Hz Hm Hpos o n. destruct (wf_nonempty _ W) as (s & l & C & L).
  destruct (tee_mm_alloc2_eq ws p base sz a s l W Hb Hz Hm C)
    as (pre & e & next & Hw & F & Ho & Hn & Lo & Hi & ->).
  fold o in Hw, F, Ho, Hn, Lo, Hi |- *. fold n in Hw, F, Hn, Hi |- *.
  pose proof (walk_split _ _ _ _ _ _ Hw) as Hs.
  case_decide as D.
  - destruct D as [D1 D2]. rewrite Forall_forall in D2.
    assert (fits p e next o n) as Fit.
    { replace n with (o + n - o) by lia.
      eapply alloc2_stop_fits; eauto; [lia|]. intros z Hz'. rewrite <- L in Hz'.
      replace (o + n - o) with n by lia. auto. }
    rewrite (proj2 F (conj Fit D1)).
    destruct (insert_correct ws p s l pre e next (mk_entry a o n) W C Hs)
      as (W' & (l1 & L1 & L2) & _); [simpl; lia|done|].
    eexists _, l1, next. eauto 10.
  - destruct (fit_in_gap p e next o (o + n)); [|done].
    exfalso. apply D. destruct (proj1 F eq_refl) as [Fg Yn].
    destruct (insert_correct ws p s l pre e next (mk_entry a o n) W C Hs)
      as (_ & _ & _ & _ & Cl); [simpl; lia|done|].
    split; [lia|]. by apply Forall_forall.
Qed.

(** ** Release *)

Lemma unlink_app l1 e l2 :
  addr e ∉ map addr l1 → unlink (addr e) (l1 ++ e :: l2) = Some (l1 ++ l2).
Proof.
  induction l1 as [|x l1 IH]; simpl; intros H.
  - by rewrite Z.eqb_refl.
  - rewrite elem_of_cons in H. case_match; breflect; [naive_solver|].
    rewrite IH; [done|tauto].
Qed.

Lemma unlink_none a l : unlink a l = None ↔ a ∉ map addr l.
Proof.
  induction l as [|x l IH]; simpl; [set_solver+|].
  rewrite elem_of_cons. destruct (addr x =? a) eqn:E; breflect.
  - split; [done|]. intros H. exfalso. auto.
  - destruct (unlink a l) as [r|]; split; intros H; [done| |intuition congruence|done].
    exfalso. apply H. right. apply dec_stable. intros N. by apply IH in N.
Qed.

Lemma unlink_inv a l l' :
  unlink a l = Some l' → ∃ l1 e l2, l = l1 ++ e :: l2 ∧ l' = l1 ++ l2 ∧ addr e = a.
Proof.
  revert l'; induction l as [|x l IH]; simpl; intros l' H; [done|].
  case_match; breflect.
  - simplify_eq. by exists [], x, l'.
  - destruct (unlink a l) as [r|] eqn:U; simplify_eq.
    destruct (IH r eq_refl) as (l1 & e & l2 & -> & -> & ?).
    by exists (x :: l1), e, l2.
Qed.

Lemma asc_remove b l1 e l2 n : asc b (l1 ++ e :: l2) n → asc b (l1 ++ l2) n.
Proof.
  revert b; induction l1 as [|x l1 IH]; simpl; intros b H.
  - destruct H as (?&?&H). eapply asc_weaken; [done|lia].
  - destruct H as (?&?&H). auto.
Qed.

Lemma desc_remove t l1 e l2 : desc t (l1 ++ e :: l2) → desc t (l1 ++ l2).
Proof.
  revert t; induction l1 as [|x l1 IH]; simpl; intros b H.
  - destruct H as (?&?&H). destruct l2 as [|y l2]; simpl in *; [lia|].
    intuition lia.
  - destruct H as (?&?&H). auto.
Qed.

Definition free_post (p : tee_mm_pool) (a : Z) (r : outcome tee_mm_pool) : Prop :=
  match r with
  | Done p' =>
    pool_wf p' ∧ ∃ l1 e l2, addr e = a ∧ live p = l1 ++ e :: l2 ∧ live p' = l1 ++ l2
  | Panicked _ => ∀ e, e ∈ live p → addr e ≠ a
  | Undef => False
  end.

Lemma tee_mm_free_spec p a : pool_wf p → free_post p a (tee_mm_free p (Some a)).
Proof.
  intros W. destruct (wf_nonempty _ W) as (s & l & C & L).
  unfold tee_mm_free. rewrite C. destruct (unlink a l) as [l'|] eqn:U.
  - destruct (unlink_inv _ _ _ U) as (l1 & e & l2 & -> & -> & E).
    split; [|exists l1, e, l2; unfold live; by rewrite C].
    pose proof W as [_ _ _ _ (s' & C' & Zs & H)]. rewrite C, L in C'.
    rewrite L in H. simplify_eq. apply pool_wf_chain; [done..|].
    destruct (hi_alloc p).
    + destruct H as [? H]. eauto using desc_remove.
    + destruct H as [? H]. eauto using asc_remove.
  - intros e He <-. rewrite L in He. apply unlink_none in U. apply U.
    apply list_elem_of_In, in_map. by apply list_elem_of_In.
Qed.

(** releasing what [tee_mm_alloc] just returned gives the list of
    entries back, when the new entry's address was fresh. *)
Theorem tee_mm_alloc_free ws p sz a p' :
  pool_wf p → 0 ≤ sz < 2 ^ 64 → (∀ e, e ∈ live p → addr e ≠ a) →
  tee_mm_alloc ws p sz (Some a) = Done (Some a, p') →
  ∃ p'', tee_mm_free p' (Some a) = Done p'' ∧ pool_wf p'' ∧ live p'' = live p.
Proof.
  intros W Hsz Fr E.
  destruct (tee_mm_alloc_spec ws p sz a W Hsz) as (r & q & E' & H).
  rewrite E in E'. injection E' as <- <-. destruct H as (_ & W' & l1 & l2 & o & n & L & L' & _).
  pose proof (tee_mm_free_spec p' a W') as F.
  destruct (tee_mm_free p' (Some a)) as [p''|c|] eqn:Ef; [|exfalso|done].
  - exists p''. destruct F as (W'' & F). split_and!; [done..|].
    destruct (wf_nonempty _ W') as (s & l & C & Ll).
    unfold tee_mm_free in Ef. rewrite C in Ef. rewrite <- Ll, L' in Ef.
    change a with (addr (mk_entry a o n)) in Ef at 1. rewrite unlink_app in Ef.
    + injection Ef as <-. unfold live at 1. simpl. done.
    + intros Hin. apply list_elem_of_In, in_map_iff in Hin as (x & Ex & Hx).
      apply (Fr x); [|done]. rewrite L. apply elem_of_app. left.
      by apply list_elem_of_In.
  - apply (F (mk_entry a o n)); [|done]. rewrite L'. set_solver+.
Qed.

(** ** Look-up and initialisation *)

(** The entry whose bytes contain the address [x]. *)
Definition covers (p : tee_mm_pool) (x : Z) (e : tee_mm_entry) : Prop :=
  offset e * 2 ^ shift p ≤ x - lo p < (offset e + size e) * 2 ^ shift p.

Lemma range_test p x :
  pool_wf p → 0 ≤ x < 2 ^ 64 →
  tee_mm_addr_is_within_range p x = true ↔ lo p ≤ x < lo p + pool_size p.
Proof.
  intros W Hx. pose proof (wf_lo _ W). pose proof (wf_size _ W).
  unfold tee_mm_addr_is_within_range.
  rewrite (u64_id (pool_size p - 1)), u64_id by lia.
  rewrite andb_true_iff, !Z.leb_le. lia.
Qed.

Lemma covers_blocks p x e :
  pool_wf p → lo p ≤ x →
  covers p x e ↔ offset e ≤ (x - lo p) / 2 ^ shift p < offset e + size e.
Proof.
  intros W Hx. pose proof (wf_shift _ W).
  pose proof (pow2_pos (shift p) ltac:(lia)). unfold covers.
  pose proof (Z.div_mod (x - lo p) (2 ^ shift p) ltac:(lia)).
  pose proof (Z.mod_pos_bound (x - lo p) (2 ^ shift p) ltac:(lia)).
  set (q := (x - lo p) / 2 ^ shift p) in *.
  set (r := (x - lo p) mod 2 ^ shift p) in *.
  split; intros; nia.
Qed.

Lemma disjoint_covers_unique l x e1 e2 :
  disjoint_entries l → e1 ∈ l → e2 ∈ l →
  offset e1 ≤ x < offset e1 + size e1 → offset e2 ≤ x < offset e2 + size e2 →
  e1 = e2.
Proof.
  intros D H1 H2 C1 C2.
  apply list_elem_of_lookup in H1 as [i H1], H2 as [j H2].
  destruct (decide (i = j)) as [->|N]; [congruence|].
  destruct (decide (i < j)%nat).
  - pose proof (D i j _ _ H1 H2 ltac:(lia)). unfold clear_of in *. lia.
  - pose proof (D j i _ _ H2 H1 ltac:(lia)). unfold clear_of in *. lia.
Qed.

Lemma u16_div_range p x :
  pool_wf p → nblocks p ≤ 2 ^ 16 → lo p ≤ x < lo p + pool_size p →
  u16 (Z.shiftr (u64 (x - lo p)) (shift p)) = (x - lo p) / 2 ^ shift p.
Proof.
  intros W N Hx. pose proof (wf_shift _ W). pose proof (wf_lo _ W).
  pose proof (wf_size _ W).
  pose proof (pow2_pos (shift p) ltac:(lia)).
  rewrite u64_id by lia. rewrite Z.shiftr_div_pow2 by lia.
  apply u16_id. split; [apply Z.div_pos; lia|].
  apply Z.div_lt_upper_bound; [lia|]. rewrite (wf_round _ W) in Hx. nia.
Qed.

Lemma find_covers p x e :
  pool_wf p → nblocks p ≤ 2 ^ 16 → lo p ≤ x < lo p + pool_size p → e ∈ live p →
  ((offset e <=? u16 (Z.shiftr (u64 (x - lo p)) (shift p)))
   && (u16 (Z.shiftr (u64 (x - lo p)) (shift p)) <? u32 (offset e + size e))) = true
  ↔ covers p x e.
Proof.
  intros W N Hx He. rewrite u16_div_range by done.
  pose proof (wf_nblocks _ W). destruct (wf_live_bounds _ _ W He) as (?&?&?).
  rewrite u32_id by lia. rewrite covers_blocks by (done || lia).
  rewrite andb_true_iff, Z.leb_le, Z.ltb_lt. lia.
Qed.

(** In a pool of at most [2^16] blocks [tee_mm_find] returns the one entry
    whose bytes contain the address, and NULL when there is none or the
    address is outside the pool. *)
Theorem tee_mm_find_correct p x :
  pool_wf p → nblocks p ≤ 2 ^ 16 → 0 ≤ x < 2 ^ 64 →
  match tee_mm_find p x with
  | Done (Some a) =>
    ∃ e, e ∈ live p ∧ addr e = a ∧ covers p x e ∧
      ∀ e', e' ∈ live p → covers p x e' → e' = e
  | Done None => ∀ e, e ∈ live p → ¬ covers p x e
  | _ => False
  end.
Proof.
  intros W N Hx. destruct (wf_nonempty _ W) as (s & l & C & L).
  pose proof (range_test p x W Hx) as R. unfold tee_mm_find. rewrite C.
  destruct (tee_mm_addr_is_within_range p x) eqn:T; cbn [negb].
  - apply proj1 in R. specialize (R eq_refl).
    destruct (list_find _ l) as [[i e]|] eqn:F; simpl.
    + apply list_find_Some in F as (F1 & F2 & _).
      assert (e ∈ live p) as He by (rewrite L; by apply list_elem_of_lookup_2 in F1).
      apply find_covers in F2; [|done..].
      exists e. split_and!; [done..|]. intros e' He' Ce'.
      eapply disjoint_covers_unique; [by apply wf_disjoint|done|done| |];
        (apply (covers_blocks p x); [done|lia|done]).
    + apply list_find_None in F. rewrite Forall_forall in F.
      intros e He Ce. rewrite L in He. apply (F e He).
      apply find_covers; [done..| |done]. by rewrite L.
  - intros e He Ce. enough (false = true) by done. apply R.
    destruct (wf_live_bounds _ _ W He) as (?&?&?). unfold covers in Ce.
    pose proof (pow2_pos (shift p) ltac:(apply W)).
    assert ((offset e + size e) * 2 ^ shift p ≤ pool_size p)
      by (rewrite (wf_round _ W); apply Z.mul_le_mono_nonneg_r; lia).
    assert (0 ≤ offset e * 2 ^ shift p) by (apply Z.mul_nonneg_nonneg; lia). lia.
Qed.


Lemma round_up_bounds v k :
  0 ≤ v → 0 ≤ k < 64 → v + (2 ^ k - 1) < 2 ^ 64 →
  v ≤ ROUNDUP v (2 ^ k) < v + 2 ^ k.
Proof.
  intros. rewrite ROUNDUP_spec by done. pose proof (pow2_pos k ltac:(lia)).
  pose proof (Z.div_mod (v + (2 ^ k - 1)) (2 ^ k) ltac:(lia)).
  pose proof (Z.mod_pos_bound (v + (2 ^ k - 1)) (2 ^ k) ltac:(lia)). lia.
Qed.

Lemma tee_mm_init_spec lo0 size0 shift0 flags0 a :
  0 ≤ shift0 < 31 → 0 ≤ lo0 → lo0 + size0 < 2 ^ 64 → size0 < UINT32_MAX →
  2 * 2 ^ shift0 ≤ size0 →
  ∃ p, tee_mm_init (Some a) lo0 size0 shift0 flags0 = Done (true, p) ∧
    pool_wf p ∧ live p = [] ∧ tee_mm_is_empty p = true ∧
    lo0 ≤ lo p < lo0 + 2 ^ shift0 ∧
    lo0 + size0 - 2 ^ shift0 < lo p + pool_size p ≤ lo0 + size0 ∧
    lo p mod 2 ^ shift0 = 0.
Proof.
  unfold UINT32_MAX. intros Hs Hlo Hb Hz Hr.
  pose proof (pow2_pos shift0 ltac:(lia)) as HB.
  pose proof (round_up_bounds lo0 shift0 Hlo ltac:(lia) ltac:(lia)) as Hup.
  unfold tee_mm_init. set (lo1 := ROUNDUP lo0 (2 ^ shift0)) in *.
  rewrite (u64_id (lo1 - lo0)), (u64_id (size0 - _)) by lia.
  rewrite ROUNDDOWN_spec by lia. set (z := size0 - (lo1 - lo0)).
  pose proof (Z.div_mod z (2 ^ shift0) ltac:(lia)).
  pose proof (Z.mod_pos_bound z (2 ^ shift0) ltac:(lia)).
  set (n := z / 2 ^ shift0) in *.
  assert (1 ≤ n) by (unfold z in *; nia). assert (n * 2 ^ shift0 ≤ z) by lia.
  rewrite Z.shiftr_div_pow2, Z.div_mul by lia.
  assert (n < 2 ^ 32 - 1) by (unfold z in *; nia).
  replace (n <? UINT32_MAX) with true by (symmetry; apply Z.ltb_lt; unfold UINT32_MAX; lia).
  cbn [negb]. eexists. split; [reflexivity|].
  assert (lo1 mod 2 ^ shift0 = 0).
  { unfold lo1. rewrite ROUNDUP_spec by lia. apply Z.mod_mul. lia. }
  assert (n * 2 ^ shift0 / 2 ^ shift0 = n) as Hn by (apply Z.div_mul; lia).
  assert (u32 (Z.shiftr (u64 (n * 2 ^ shift0 - 1)) shift0 + 1) = n) as Hsent.
  { rewrite u64_id by (unfold z in *; lia). rewrite Z.shiftr_div_pow2 by lia.
    rewrite blocks_pred by nia.
    replace (n * 2 ^ shift0 + (2 ^ shift0 - 1)) with ((2 ^ shift0 - 1) + n * 2 ^ shift0) by lia.
    rewrite Z.div_add, Z.div_small by lia. apply u32_id. lia. }
  split_and!; simpl; try done; try (unfold z in *; lia).
  split; simpl; unfold nblocks; simpl; rewrite ?Hn; try (unfold z in *; lia).
  eexists. split; [done|]. split; [done|]. unfold hi_alloc; simpl.
  destruct (has_flag flags0 TEE_MM_POOL_HI_ALLOC); simpl; [rewrite Hsent|]; lia.
Qed.

(** ** Every reachable pool *)

Section Reachable.
Context (ws : bool).

(** One call of the public operations on a pool. The addresses and sizes are
    those a caller may pass: sizes are [size_t], and [tee_mm_alloc2] is
    given a non-empty range at or above the pool that does not end in the
    last block of the address space. *)
Inductive mm_step : tee_mm_pool → tee_mm_pool → Prop :=
| step_alloc p sz a r p' :
    0 ≤ sz < 2 ^ 64 → tee_mm_alloc ws p sz (Some a) = Done (r, p') → mm_step p p'
| step_alloc2 p base sz a r p' :
    lo p ≤ base → 0 < sz → base + sz ≤ 2 ^ 64 - 2 ^ shift p →
    tee_mm_alloc2 ws p base sz (Some a) = Done (r, p') → mm_step p p'
| step_free p a p' : tee_mm_free p (Some a) = Done p' → mm_step p p'.

Lemma mm_step_wf p p' : mm_step p p' → pool_wf p → pool_wf p'.
Proof.
  intros S W. destruct S as [p sz a r p' Hs E|p base sz a r p' ? ? ? E|p a p' E].
  - destruct (tee_mm_alloc_spec ws p sz a W Hs) as (r' & q & E' & H).
    rewrite E in E'. injection E' as <- <-.
    destruct r; [apply H|]. by destruct H as [-> _].
  - eauto using tee_mm_alloc2_wf.
  - pose proof (tee_mm_free_spec p a W) as F. rewrite E in F. apply F.
Qed.

(** C35: Take a pool that [tee_mm_init] accepts, of less than 2^32 - 1 bytes
    ([tee_mm_alloc_overflows_4g]), that lies below 2^64 and has two blocks at
    least, of 2^30 bytes at most. After any sequence of [tee_mm_alloc],
    [tee_mm_free] and of [tee_mm_alloc2] of ranges that are not empty, begin at
    the pool or above and do not end in the last block of the address space
    ([mm_step]), the live entries are inside the pool and pairwise disjoint. *)
Theorem mm_reachable_safe lo0 size0 shift0 flags0 a p0 p :
  0 ≤ shift0 < 31 → 0 ≤ lo0 → lo0 + size0 < 2 ^ 64 → size0 < UINT32_MAX →
  2 * 2 ^ shift0 ≤ size0 →
  tee_mm_init (Some a) lo0 size0 shift0 flags0 = Done (true, p0) →
  rtc mm_step p0 p →
  disjoint_entries (live p) ∧
  ∀ e, e ∈ live p → 0 ≤ offset e ∧ (offset e + size e) * 2 ^ shift p ≤ pool_size p.
Proof.
  intros H1 H2 H3 H4 H5 E R.
  assert (pool_wf p0) as W0.
  { clear R.
    destruct (tee_mm_init_spec lo0 size0 shift0 flags0 a H1 H2 H3 H4 H5)
      as (q & Eq & Wq & _). rewrite E in Eq. by injection Eq as ->. }
  assert (pool_wf p) as W.
  { clear E H1 H2 H3 H4 H5. induction R; eauto using mm_step_wf. }
  split; [by apply wf_disjoint|]. intros e He.
  destruct (wf_live_bounds _ _ W He) as (?&?&?). split; [done|].
  pose proof (pow2_pos (shift p) ltac:(apply W)).
  rewrite (wf_round _ W). apply Z.mul_le_mono_nonneg_r; lia.
Qed.
End Reachable.

(** ** Beyond the widths the code uses *)

(** [tee_mm_find] truncates the block number to 16 bits: in a 512 MiB pool
    of 4 KiB blocks with one allocated block, the address of block 65536,
    which no entry covers, is reported as part of the entry at block 0. *)
Theorem tee_mm_find_truncates :
  ∃ p0 p, tee_mm_init (Some 1) 0 (2 ^ 29) 12 0 = Done (true, p0) ∧
    tee_mm_alloc false p0 4096 (Some 2) = Done (Some 2, p) ∧
    tee_mm_find p (2 ^ 28) = Done (Some 2) ∧
    ∀ e, e ∈ live p → ¬ covers p (2 ^ 28) e.
Proof.
  eexists _, _. split; [vm_compute; reflexivity|].
  split; [vm_compute; reflexivity|]. split; [vm_compute; reflexivity|].
  intros e He. unfold live in He. simpl in He. apply list_elem_of_singleton in He as ->.
  unfold covers. simpl. lia.
Qed.

(** In an 8 GiB pool, which the size assertion of [tee_mm_init] accepts,
    the 32-bit shift of the end of the list lets [tee_mm_alloc] return an
    entry that ends 4 GiB after the end of the pool. *)
Theorem tee_mm_alloc_overflows_4g :
  ∃ p0 p1 p2 e, tee_mm_init (Some 1) 0 (2 ^ 33) 12 0 = Done (true, p0) ∧
    tee_mm_alloc false p0 (2 ^ 32) (Some 2) = Done (Some 2, p1) ∧
    tee_mm_alloc false p1 (2 ^ 33) (Some 3) = Done (Some 3, p2) ∧
    e ∈ live p2 ∧ (offset e + size e) * 2 ^ shift p2 = pool_size p2 + 2 ^ 32.
Proof.
  eexists _, _, _, (mk_entry 3 (2 ^ 20) (2 ^ 21)).
  split; [vm_compute; reflexivity|]. split; [vm_compute; reflexivity|].
  split; [vm_compute; reflexivity|]. split; [|vm_compute; reflexivity].
  unfold live. simpl. set_solver+.
Qed.

(** ** Concrete pools *)

(** Sixteen 4 KiB blocks from 64 KiB on, the first four allocated. *)
Definition small_pool : tee_mm_pool :=
  mk_pool [mk_entry 1 0 0; mk_entry 2 0 4] 65536 65536 0 12 0.

Lemma small_pool_wf : pool_wf small_pool.
Proof.
  split; try (vm_compute; intuition congruence).
  eexists. split; [reflexivity|]. split; [reflexivity|].
  vm_compute. intuition congruence.
Qed.

Lemma tee_mm_alloc_correct_witness :
  ∃ r p', tee_mm_alloc true small_pool 5000 (Some 3) = Done (r, p') ∧
    alloc_post small_pool 5000 3 r p'.
Proof. apply (tee_mm_alloc_correct true small_pool 5000 3 small_pool_wf). lia. Defined.

Lemma tee_mm_alloc_free_witness :
  ∃ p'', tee_mm_free (mk_pool [mk_entry 1 0 0; mk_entry 2 0 4; mk_entry 3 4 2]
                        65536 65536 0 12 0) (Some 3) = Done p'' ∧
    pool_wf p'' ∧ live p'' = live small_pool.
Proof.
  apply (tee_mm_alloc_free false small_pool 5000 3 _ small_pool_wf).
  - lia.
  - intros e He. apply list_elem_of_singleton in He as ->. simpl. lia.
  - vm_compute. reflexivity.
Defined.

Lemma tee_mm_find_correct_witness :
  match tee_mm_find small_pool 70000 with
  | Done (Some a) =>
    ∃ e, e ∈ live small_pool ∧ addr e = a ∧ covers small_pool 70000 e ∧
      ∀ e', e' ∈ live small_pool → covers small_pool 70000 e' → e' = e
  | Done None => ∀ e, e ∈ live small_pool → ¬ covers small_pool 70000 e
  | _ => False
  end.
Proof.
  apply (tee_mm_find_correct small_pool 70000 small_pool_wf).
  - vm_compute. congruence.
  - lia.
Defined.

(** One allocation on a fresh pool. *)
Lemma mm_reachable_safe_witness :
  let p := mk_pool [mk_entry 1 0 0; mk_entry 2 0 4] 65536 65536 0 12 0 in
  disjoint_entries (live p) ∧
  ∀ e, e ∈ live p → 0 ≤ offset e ∧ (offset e + size e) * 2 ^ shift p ≤ pool_size p.
Proof.
  apply (mm_reachable_safe false 65536 65536 12 0 1
           (mk_pool [mk_entry 1 0 0] 65536 65536 0 12 0));
    [lia|lia|lia|vm_compute; reflexivity|vm_compute; congruence|vm_compute; reflexivity|].
  eapply rtc_l; [|apply rtc_refl].
  eapply (step_alloc false _ 16384 2); [lia|vm_compute; reflexivity].
Defined.

Lemma tee_mm_alloc2_correct_witness :
  let p := small_pool in
  let o := (81920 - lo p) / 2 ^ shift p in
  let n := (81920 - lo p + 8192 - 1) / 2 ^ shift p + 1 - o in
  if decide (o + n ≤ nblocks p ∧ Forall (clear_of o n) (live p))
  then ∃ p' l1 l2, tee_mm_alloc2 true p 81920 8192 (Some 3) = Done (Some 3, p') ∧
    pool_wf p' ∧ live p = l1 ++ l2 ∧ live p' = l1 ++ mk_entry 3 o n :: l2 ∧
    o * 2 ^ shift p ≤ 81920 - lo p ∧ 81920 - lo p + 8192 ≤ (o + n) * 2 ^ shift p
  else tee_mm_alloc2 true p 81920 8192 (Some 3) = Done (None, p).
Proof.
  apply (tee_mm_alloc2_correct true small_pool 81920 8192 3 small_pool_wf).
  - vm_compute. congruence.
  - lia.
  - vm_compute. congruence.
  - intros e He. apply list_elem_of_singleton in He as ->. simpl. lia.
Defined.
