(* ===== verification/HandleDb.v ===== *)
(** The contract of a handle database, which both implementations of the
    repository meet: core/kernel/handle.c, with [int] handles from 0 and -1
    for failure, and ta/pkcs11/src/handle.c, with [uint32_t] handles from 1
    and 0 for failure. A pointer is its address, 0 is NULL. The databases are
    arrays of pointers; their clients only rely on the map from handles to
    pointers. *)
From S2P Require Import Prelude.

(** The pointer array of a database: [ptrs[n]] at position [n]. *)
Record handle_db := mk_db { ptrs : list Z }.

Definition max_ptrs (db : handle_db) : Z := Z.of_nat (length (ptrs db)).

Definition HANDLE_DB_INITIAL_MAX_PTRS : Z := 4.

(** The search loop of [handle_get]: the first NULL slot at or after [n]. *)
Fixpoint find_empty (l : list Z) (n : nat) : option nat :=
  match l with
  | [] => None
  | p :: l' => if p =? 0 then Some n else find_empty l' (S n)
  end.

(** The map a pointer array stands for: the non-NULL slots. *)
Definition slots (db : handle_db) (h : Z) : option Z :=
  if decide (0 ≤ h < max_ptrs db) then
    match ptrs db !! Z.to_nat h with
    | Some p => if p =? 0 then None else Some p
    | None => None
    end
  else None.

(** What a database promises. [hdb_get ok p] is [handle_get] of the pointer
    [p], where [ok] says whether [realloc] succeeds should the array grow;
    [hdb_cap] bounds the array so that handles fit their C type. *)
Class HandleDb := {
  hdb_fail : Z;
  hdb_cap : handle_db → Prop;
  hdb_storable : Z → Prop;
  hdb_get : bool → Z → handle_db → Z * handle_db;
  hdb_put : Z → handle_db → Z * handle_db;
  hdb_lookup : handle_db → Z → Z;
  hdb_get_ok : ∀ ok p db h db',
    hdb_cap db → hdb_storable p → hdb_get ok p db = (h, db') → h ≠ hdb_fail →
    slots db h = None ∧ slots db' h = Some p ∧
    ∀ h', h' ≠ h → slots db' h' = slots db h';
  hdb_get_fail : ∀ ok p db db',
    hdb_cap db → hdb_storable p → hdb_get ok p db = (hdb_fail, db') →
    ok = false ∧ db' = db;
  hdb_put_ok : ∀ h db r db',
    hdb_cap db → hdb_put h db = (r, db') → h ≠ hdb_fail →
    r = default 0 (slots db h) ∧ slots db' h = None ∧
    ∀ h', h' ≠ h → slots db' h' = slots db h';
  hdb_lookup_ok : ∀ db h p,
    hdb_cap db → h ≠ hdb_fail → hdb_storable p →
    slots db h = Some p → hdb_lookup db h = p;
  hdb_lookup_none : ∀ db h, slots db h = None → hdb_lookup db h = 0;
}.

(** ** Lemmas on pointer arrays *)

Lemma find_empty_spec l n i :
  find_empty l n = Some i →
  (n ≤ i)%nat ∧ l !! (i - n)%nat = Some 0 ∧
  ∀ j p, (j < i - n)%nat → l !! j = Some p → p ≠ 0.
Proof.
  revert n; induction l as [|x l IH]; simpl; intros n H; [done|].
  destruct (x =? 0) eqn:E; breflect.
  - injection H as <-. subst. rewrite Nat.sub_diag. split_and!; [lia|done|lia].
  - destruct (IH _ H) as (A & B & C).
    replace (i - n)%nat with (S (i - S n)) by lia. split_and!; [lia|done|].
    intros [|j] p Hj; simpl; [congruence|]. apply C. lia.
Qed.

Lemma find_empty_none l n :
  find_empty l n = None ↔ ∀ j p, l !! j = Some p → p ≠ 0.
Proof.
  revert n; induction l as [|x l IH]; simpl; intros n.
  - split; [|done]. intros _ j p H. by rewrite lookup_nil in H.
  - destruct (x =? 0) eqn:E; breflect.
    + split; [done|]. intros H. by destruct (H 0%nat x).
    + rewrite IH. split; intros H; [intros [|j] p; simpl; [congruence|apply H]|].
      intros j p. apply (H (S j)).
Qed.

Lemma slots_lookup db h p :
  slots db h = Some p ↔ 0 ≤ h ∧ ptrs db !! Z.to_nat h = Some p ∧ p ≠ 0.
Proof.
  unfold slots, max_ptrs. case_decide as D.
  - destruct (ptrs db !! Z.to_nat h) as [q|] eqn:E.
    + destruct (q =? 0) eqn:Q; breflect; split; intros; naive_solver.
    + split; [done|]. intros (?&?&?). done.
  - split; [done|]. intros (H&E&?). apply lookup_lt_Some in E. lia.
Qed.

Lemma slots_none db h :
  slots db h = None ↔ (0 ≤ h → ∀ p, ptrs db !! Z.to_nat h = Some p → p = 0).
Proof.
  split.
  - intros H Hh p E. apply dec_stable. intros N.
    assert (slots db h = Some p) by (by apply slots_lookup). congruence.
  - intros H. destruct (slots db h) as [p|] eqn:E; [|done].
    apply slots_lookup in E as (A & B & C). by rewrite (H A p B) in C.
Qed.

Lemma slots_ext db db' h :
  (0 ≤ h → ∀ p, p ≠ 0 →
    ptrs db !! Z.to_nat h = Some p ↔ ptrs db' !! Z.to_nat h = Some p) →
  slots db' h = slots db h.
Proof.
  intros H. apply option_eq. intros p. rewrite !slots_lookup. naive_solver.
Qed.

(** Storing in an existing slot. *)
Lemma slots_store db i p h :
  (i < length (ptrs db))%nat →
  slots (mk_db (<[i:=p]> (ptrs db))) h =
  if decide (h = Z.of_nat i) then if p =? 0 then None else Some p else slots db h.
Proof.
  intros Hi. case_decide as D.
  - subst h. destruct (p =? 0) eqn:P; breflect.
    + apply slots_none. simpl. intros _ q. rewrite Nat2Z.id.
      rewrite list_lookup_insert_eq by done. congruence.
    + apply slots_lookup. simpl. rewrite Nat2Z.id, list_lookup_insert_eq by done.
      auto with lia.
  - apply slots_ext. simpl. intros Hh q _. by rewrite list_lookup_insert_ne by lia.
Qed.

(** Growing with NULL slots does not change the map. *)
Lemma slots_grow db k h :
  slots (mk_db (ptrs db ++ replicate k 0)) h = slots db h.
Proof.
  apply slots_ext. simpl. intros Hh q Hq. rewrite lookup_app.
  destruct (ptrs db !! Z.to_nat h) eqn:E; [done|].
  rewrite lookup_replicate. naive_solver.
Qed.
