(* ===== verification/Handle.v ===== *)
(** core/kernel/handle.c: the handle database of the core. *)
From S2P Require Import Prelude HandleDb.

(** [handle_db_destroy]: the pointers handed to [ptr_destructor], in order,
    and the database afterwards. *)
Definition handle_db_destroy (with_destructor : bool) (db : handle_db)
  : list Z * handle_db :=
  (if with_destructor then filter (λ p, p ≠ 0) (ptrs db) else [], mk_db []).

Definition handle_db_is_empty (db : handle_db) : bool :=
  forallb (λ p, p =? 0) (ptrs db).

(** [ok] is the success of [realloc] when the array has to grow. *)
Definition handle_get (ok : bool) (ptr : Z) (db : handle_db) : Z * handle_db :=
  if ptr =? 0 then (-1, db) else
  match find_empty (ptrs db) 0 with
  | Some n => (to_int (Z.of_nat n), mk_db (<[n:=ptr]> (ptrs db)))
  | None =>
    let n := length (ptrs db) in
    let new_max_ptrs :=
      if max_ptrs db =? 0 then HANDLE_DB_INITIAL_MAX_PTRS else u64 (max_ptrs db * 2) in
    if negb ok then (-1, db) else
    let grown := ptrs db ++ replicate (Z.to_nat (new_max_ptrs - max_ptrs db)) 0 in
    (to_int (Z.of_nat n), mk_db (<[n:=ptr]> grown))
  end.

Definition handle_put (handle : Z) (db : handle_db) : Z * handle_db :=
  if (handle <? 0) || (max_ptrs db <=? handle) then (0, db) else
  (default 0 (ptrs db !! Z.to_nat handle), mk_db (<[Z.to_nat handle:=0]> (ptrs db))).

Definition handle_lookup (db : handle_db) (handle : Z) : Z :=
  if (handle <? 0) || (max_ptrs db <=? handle) then 0
  else default 0 (ptrs db !! Z.to_nat handle).

(** ** The contract *)

Definition cap (db : handle_db) : Prop := max_ptrs db < 2 ^ 31.

(** Where [handle_get] stores, and what it returns. *)
Lemma handle_get_eq ok p db :
  cap db → p ≠ 0 →
  (∃ i, (i < length (ptrs db))%nat ∧ slots db (Z.of_nat i) = None ∧
     handle_get ok p db = (Z.of_nat i, mk_db (<[i:=p]> (ptrs db)))) ∨
  (∃ k, (0 < k)%nat ∧ let i := length (ptrs db) in slots db (Z.of_nat i) = None ∧
     handle_get ok p db =
     if ok then (Z.of_nat i, mk_db (<[i:=p]> (ptrs db ++ replicate k 0)))
     else (-1, db)).
Proof.
  unfold cap, max_ptrs. intros Hc Hp. unfold handle_get.
  rewrite (proj2 (Z.eqb_neq p 0) Hp).
  destruct (find_empty (ptrs db) 0) as [i|] eqn:F.
  - left. exists i. destruct (find_empty_spec _ _ _ F) as (_ & E & _).
    rewrite Nat.sub_0_r in E. pose proof (lookup_lt_Some _ _ _ E).
    rewrite to_int_small by lia. split_and!; [done| |done].
    apply slots_none. intros _ q. rewrite Nat2Z.id, E. congruence.
  - right. unfold max_ptrs.
    exists (Z.to_nat ((if Z.of_nat (length (ptrs db)) =? 0 then HANDLE_DB_INITIAL_MAX_PTRS
      else u64 (Z.of_nat (length (ptrs db)) * 2)) - Z.of_nat (length (ptrs db)))).
    split; [|split].
    + unfold HANDLE_DB_INITIAL_MAX_PTRS. case_match; breflect; [lia|].
      rewrite u64_id by lia. lia.
    + apply slots_none. intros _ q. rewrite Nat2Z.id.
      intros Hq%lookup_lt_Some. lia.
    + rewrite to_int_small by lia. by destruct ok.
Qed.

Lemma handle_put_eq h db :
  h ≠ -1 → handle_put h db = (default 0 (slots db h),
    if decide (0 ≤ h < max_ptrs db) then mk_db (<[Z.to_nat h:=0]> (ptrs db)) else db).
Proof.
  intros _. unfold handle_put, slots. case_decide as D.
  - replace (h <? 0) with false by (symmetry; apply Z.ltb_ge; lia).
    replace (max_ptrs db <=? h) with false by (symmetry; apply Z.leb_gt; lia).
    simpl. destruct (ptrs db !! Z.to_nat h) as [p|]; [|done].
    destruct (p =? 0) eqn:E; breflect; simpl; congruence.
  - destruct (h <? 0) eqn:A; [done|]. destruct (max_ptrs db <=? h) eqn:B; [done|].
    breflect. lia.
Qed.

Lemma handle_lookup_eq db h : handle_lookup db h = default 0 (slots db h).
Proof.
  unfold handle_lookup, slots. case_decide as D.
  - replace (h <? 0) with false by (symmetry; apply Z.ltb_ge; lia).
    replace (max_ptrs db <=? h) with false by (symmetry; apply Z.leb_gt; lia).
    simpl. destruct (ptrs db !! Z.to_nat h) as [p|]; [|done].
    destruct (p =? 0) eqn:E; breflect; simpl; congruence.
  - destruct (h <? 0) eqn:A; [done|]. destruct (max_ptrs db <=? h) eqn:B; [done|].
    breflect. lia.
Qed.

Lemma core_get_ok ok p db h db' :
  cap db → p ≠ 0 → handle_get ok p db = (h, db') → h ≠ -1 →
  slots db h = None ∧ slots db' h = Some p ∧ ∀ h', h' ≠ h → slots db' h' = slots db h'.
Proof.
  intros C Hp E Hh.
  destruct (handle_get_eq ok p db C Hp) as [(i & Hi & Sn & Eq)|(k & Hk & Sn & Eq)];
    rewrite E in Eq.
  - injection Eq as -> ->. split; [done|]. rewrite slots_store by done.
    rewrite decide_True by done. rewrite (proj2 (Z.eqb_neq p 0) Hp). split; [done|].
    intros h' N. rewrite slots_store by done. by rewrite decide_False.
  - destruct ok; injection Eq as -> ->; [|done]. split; [done|].
    assert (length (ptrs db) < length (ptrs db ++ replicate k 0%Z))%nat.
    { rewrite length_app, length_replicate. lia. }
    change (ptrs db ++ replicate k 0%Z)
      with (ptrs (mk_db (ptrs db ++ replicate k 0))).
    rewrite slots_store by done.
    rewrite decide_True by done. rewrite (proj2 (Z.eqb_neq p 0) Hp). split; [done|].
    intros h' N. rewrite slots_store by done. rewrite decide_False by done.
    apply slots_grow.
Qed.

Lemma core_get_fail ok p db db' :
  cap db → p ≠ 0 → handle_get ok p db = (-1, db') → ok = false ∧ db' = db.
Proof.
  intros C Hp E.
  destruct (handle_get_eq ok p db C Hp) as [(i & Hi & Sn & Eq)|(k & Hk & Sn & Eq)];
    rewrite E in Eq; [injection Eq; lia|].
  destruct ok; [injection Eq; lia|]. by injection Eq as ->.
Qed.

Lemma core_put_ok h db r db' :
  cap db → handle_put h db = (r, db') → h ≠ -1 →
  r = default 0 (slots db h) ∧ slots db' h = None ∧
  ∀ h', h' ≠ h → slots db' h' = slots db h'.
Proof.
  intros C E Hh. rewrite handle_put_eq in E by done. injection E as <- <-.
  split; [done|]. case_decide as D.
  - unfold max_ptrs in D. split; [|intros h' N]; rewrite slots_store by lia.
    + by rewrite decide_True by lia.
    + by rewrite decide_False by lia.
  - split; [|done]. unfold slots. by rewrite decide_False.
Qed.

(** The core's database meets the contract. *)
#[export] Instance core_handle_db : HandleDb := {|
  hdb_fail := -1;
  hdb_cap := cap;
  hdb_storable := λ p, p ≠ 0;
  hdb_get := handle_get;
  hdb_put := handle_put;
  hdb_lookup := handle_lookup;
  hdb_get_ok := core_get_ok;
  hdb_get_fail := core_get_fail;
  hdb_put_ok := core_put_ok;
  hdb_lookup_ok := λ db h p _ _ _ E, eq_trans (handle_lookup_eq db h) (f_equal (default 0) E);
  hdb_lookup_none := λ db h E, eq_trans (handle_lookup_eq db h) (f_equal (default 0) E);
|}.
