(* ===== verification/Pkcs11Handle.v ===== *)
(** ta/pkcs11/src/handle.c: the handle database of the PKCS#11 TA. Handle 0 is
    the invalid handle and the pointer ~0 marks a handle that is still
    allocated but no longer refers to an object. *)
From S2P Require Import Prelude HandleDb.

Definition INVALID_HANDLE_PTR : Z := 2 ^ 64 - 1.

Definition handle_db_init : handle_db := mk_db [].

Definition handle_db_destroy (db : handle_db) : handle_db := mk_db [].

(** The search starts at index 1; [n] stops at [max_ptrs], or at 1 for an
    array that is still empty. *)
Definition handle_get (ok : bool) (ptr : Z) (db : handle_db) : Z * handle_db :=
  if (ptr =? 0) || (ptr =? INVALID_HANDLE_PTR) then (0, db) else
  match find_empty (drop 1 (ptrs db)) 1 with
  | Some n => (Z.of_nat n, mk_db (<[n:=ptr]> (ptrs db)))
  | None =>
    let n := Nat.max 1 (length (ptrs db)) in
    let new_max_ptrs :=
      if max_ptrs db =? 0 then HANDLE_DB_INITIAL_MAX_PTRS else u32 (max_ptrs db * 2) in
    if negb ok then (0, db) else
    let grown := ptrs db ++ replicate (Z.to_nat (new_max_ptrs - max_ptrs db)) 0 in
    (Z.of_nat n, mk_db (<[n:=ptr]> grown))
  end.

Definition handle_is_valid (db : handle_db) (handle : Z) : bool :=
  negb (handle =? 0) && (0 <=? handle) && (handle <? max_ptrs db).

Definition handle_put (handle : Z) (db : handle_db) : Z * handle_db :=
  if negb (handle_is_valid db handle) then (0, db) else
  (default 0 (ptrs db !! Z.to_nat handle), mk_db (<[Z.to_nat handle:=0]> (ptrs db))).

Definition handle_lookup (db : handle_db) (handle : Z) : Z :=
  if negb (handle_is_valid db handle) then 0 else
  let p := default 0 (ptrs db !! Z.to_nat handle) in
  if p =? INVALID_HANDLE_PTR then 0 else p.

Definition handle_invalidate (handle : Z) (db : handle_db) : outcome handle_db :=
  if handle_is_valid db handle then
    if default 0 (ptrs db !! Z.to_nat handle) =? 0 then Panicked 0xFFFF0000
    else Done (mk_db (<[Z.to_nat handle:=INVALID_HANDLE_PTR]> (ptrs db)))
  else Done db.

Fixpoint find_ptr (ptr : Z) (l : list Z) (n : nat) : Z :=
  match l with
  | [] => 0
  | p :: l' => if p =? ptr then Z.of_nat n else find_ptr ptr l' (S n)
  end.

Definition handle_lookup_handle (db : handle_db) (ptr : Z) : Z :=
  if negb (ptr =? 0) && negb (ptr =? INVALID_HANDLE_PTR)
  then find_ptr ptr (drop 1 (ptrs db)) 1 else 0.

(** ** The contract *)

Definition cap (db : handle_db) : Prop := max_ptrs db < 2 ^ 31.

Definition storable (p : Z) : Prop := p ≠ 0 ∧ p ≠ INVALID_HANDLE_PTR.

Lemma storable_test p :
  storable p → (p =? 0) || (p =? INVALID_HANDLE_PTR) = false.
Proof. intros [??]. apply orb_false_iff. by rewrite !Z.eqb_neq. Qed.

(** The array from which [handle_get] chooses the slot: as it is, or grown. *)
Lemma ta_handle_get_eq ok p db :
  cap db → storable p →
  (∃ i, (1 ≤ i < length (ptrs db))%nat ∧ slots db (Z.of_nat i) = None ∧
     handle_get ok p db = (Z.of_nat i, mk_db (<[i:=p]> (ptrs db)))) ∨
  (∃ k i, (1 ≤ i)%nat ∧ (length (ptrs db) ≤ i < length (ptrs db) + k)%nat ∧
     handle_get ok p db =
     if ok then (Z.of_nat i, mk_db (<[i:=p]> (ptrs db ++ replicate k 0)))
     else (0, db)).
Proof.
  unfold cap, max_ptrs. intros Hc Hp. unfold handle_get.
  rewrite storable_test by done.
  destruct (find_empty (drop 1 (ptrs db)) 1) as [i|] eqn:F.
  - left. exists i. destruct (find_empty_spec _ _ _ F) as (Hi & E & _).
    rewrite lookup_drop in E. replace (1 + (i - 1))%nat with i in E by lia.
    pose proof (lookup_lt_Some _ _ _ E).
    split_and!; [lia|lia| |done].
    apply slots_none. intros _ q. rewrite Nat2Z.id, E. congruence.
  - right. unfold max_ptrs.
    exists (Z.to_nat ((if Z.of_nat (length (ptrs db)) =? 0 then HANDLE_DB_INITIAL_MAX_PTRS
      else u32 (Z.of_nat (length (ptrs db)) * 2)) - Z.of_nat (length (ptrs db)))).
    exists (Nat.max 1 (length (ptrs db))).
    split; [lia|]. split; [|by destruct ok].
    unfold HANDLE_DB_INITIAL_MAX_PTRS. case_match; breflect; [lia|].
    rewrite u32_id by lia. lia.
Qed.

Lemma slots_beyond db h : max_ptrs db ≤ h → slots db h = None.
Proof. intros H. unfold slots. case_decide; [lia|done]. Qed.

Lemma handle_is_valid_spec db h :
  h ≠ 0 → handle_is_valid db h = bool_decide (0 ≤ h < max_ptrs db).
Proof.
  intros N. unfold handle_is_valid. rewrite (proj2 (Z.eqb_neq h 0) N). simpl.
  apply eq_true_iff_eq. rewrite andb_true_iff, bool_decide_eq_true, Z.leb_le, Z.ltb_lt.
  lia.
Qed.

Lemma raw_lookup db h :
  0 ≤ h < max_ptrs db → default 0 (ptrs db !! Z.to_nat h) = default 0 (slots db h).
Proof.
  intros D. unfold slots. rewrite decide_True by done.
  destruct (ptrs db !! Z.to_nat h) as [p|]; [|done].
  destruct (p =? 0) eqn:E; breflect; simpl; congruence.
Qed.

Lemma ta_get_ok ok p db h db' :
  cap db → storable p → handle_get ok p db = (h, db') → h ≠ 0 →
  slots db h = None ∧ slots db' h = Some p ∧ ∀ h', h' ≠ h → slots db' h' = slots db h'.
Proof.
  intros C Hp E Hh. pose proof Hp as [Hp0 _].
  destruct (ta_handle_get_eq ok p db C Hp) as [(i & Hi & Sn & Eq)|(k & i & Hi & Hl & Eq)];
    rewrite E in Eq.
  - injection Eq as -> ->. split; [done|]. rewrite slots_store by lia.
    rewrite decide_True by done. rewrite (proj2 (Z.eqb_neq p 0) Hp0). split; [done|].
    intros h' N. rewrite slots_store by lia. by rewrite decide_False.
  - destruct ok; injection Eq as -> ->; [|done].
    assert (i < length (ptrs db ++ replicate k 0%Z))%nat.
    { rewrite length_app, length_replicate. lia. }
    split; [apply slots_beyond; unfold max_ptrs; lia|].
    change (ptrs db ++ replicate k 0%Z)
      with (ptrs (mk_db (ptrs db ++ replicate k 0))).
    rewrite slots_store by done.
    rewrite decide_True by done. rewrite (proj2 (Z.eqb_neq p 0) Hp0). split; [done|].
    intros h' N. rewrite slots_store by done. rewrite decide_False by done.
    apply slots_grow.
Qed.

Lemma ta_get_fail ok p db db' :
  cap db → storable p → handle_get ok p db = (0, db') → ok = false ∧ db' = db.
Proof.
  intros C Hp E.
  destruct (ta_handle_get_eq ok p db C Hp) as [(i & Hi & Sn & Eq)|(k & i & Hi & Hl & Eq)];
    rewrite E in Eq; [injection Eq; lia|].
  destruct ok; [injection Eq; lia|]. by injection Eq as ->.
Qed.

Lemma ta_put_ok h db r db' :
  cap db → handle_put h db = (r, db') → h ≠ 0 →
  r = default 0 (slots db h) ∧ slots db' h = None ∧
  ∀ h', h' ≠ h → slots db' h' = slots db h'.
Proof.
  intros C E Hh. unfold handle_put in E. rewrite handle_is_valid_spec in E by done.
  case_bool_decide as D; simpl in E; injection E as <- <-.
  - rewrite raw_lookup by done. split; [done|]. unfold max_ptrs in D.
    split; [|intros h' N]; rewrite slots_store by lia.
    + by rewrite decide_True by lia.
    + by rewrite decide_False by lia.
  - assert (slots db h = None) as -> by (unfold slots; by rewrite decide_False). done.
Qed.

Lemma ta_lookup_ok db h p :
  cap db → h ≠ 0 → storable p → slots db h = Some p → handle_lookup db h = p.
Proof.
  intros _ Hh [_ Hp] E. unfold handle_lookup. rewrite handle_is_valid_spec by done.
  pose proof E as (?&?%lookup_lt_Some&?)%slots_lookup.
  unfold max_ptrs. rewrite bool_decide_true by lia. simpl.
  rewrite raw_lookup, E by (unfold max_ptrs; lia). simpl.
  by rewrite (proj2 (Z.eqb_neq _ _) Hp).
Qed.

Lemma ta_lookup_none db h : slots db h = None → handle_lookup db h = 0.
Proof.
  intros E. unfold handle_lookup.
  destruct (decide (h = 0)) as [->|N]; [done|]. rewrite handle_is_valid_spec by done.
  case_bool_decide as D; [|done]. simpl. rewrite raw_lookup, E by done. done.
Qed.

(** The TA's database meets the contract. *)
#[export] Instance ta_handle_db : HandleDb := {|
  hdb_fail := 0;
  hdb_cap := cap;
  hdb_storable := storable;
  hdb_get := handle_get;
  hdb_put := handle_put;
  hdb_lookup := handle_lookup;
  hdb_get_ok := ta_get_ok;
  hdb_get_fail := ta_get_fail;
  hdb_put_ok := ta_put_ok;
  hdb_lookup_ok := ta_lookup_ok;
  hdb_lookup_none := ta_lookup_none;
|}.

(** An invalidated handle stays allocated and looks up NULL; every other
    handle is unchanged. *)
Lemma handle_invalidate_spec db h p :
  h ≠ 0 → slots db h = Some p →
  ∃ db', handle_invalidate h db = Done db' ∧
    slots db' h = Some INVALID_HANDLE_PTR ∧ handle_lookup db' h = 0 ∧
    ∀ h', h' ≠ h → slots db' h' = slots db h'.
Proof.
  intros N E. pose proof E as (H1&H2&H3)%slots_lookup.
  pose proof (lookup_lt_Some _ _ _ H2).
  assert (0 ≤ h < max_ptrs db) as D by (unfold max_ptrs; lia).
  unfold handle_invalidate. rewrite handle_is_valid_spec, bool_decide_true by done.
  rewrite raw_lookup, E by done. simpl. rewrite (proj2 (Z.eqb_neq p 0) H3).
  eexists. split; [done|].
  split; [|split; [|intros h' N']]; rewrite ?slots_store by lia.
  - by rewrite decide_True by lia.
  - unfold handle_lookup. rewrite handle_is_valid_spec by done.
    unfold max_ptrs. simpl. rewrite length_insert.
    rewrite bool_decide_true by lia. simpl. by rewrite list_lookup_insert_eq.
  - by rewrite decide_False by lia.
Qed.

Lemma find_ptr_spec ptr l n :
  find_ptr ptr l n = 0 ∧ (∀ j, l !! j ≠ Some ptr) ∨
  ∃ i, (n ≤ i)%nat ∧ find_ptr ptr l n = Z.of_nat i ∧ l !! (i - n)%nat = Some ptr.
Proof.
  revert n; induction l as [|x l IH]; intros n; simpl; [by left|].
  destruct (x =? ptr) eqn:E; breflect.
  - right. exists n. rewrite Nat.sub_diag. subst. auto.
  - destruct (IH (S n)) as [[A B]|(i & A & B & C)].
    + left. split; [done|]. intros [|j]; simpl; [congruence|done].
    + right. exists i. split_and!; [lia|done|].
      by replace (i - n)%nat with (S (i - S n)) by lia.
Qed.

(** [handle_lookup_handle] is a right inverse of the look-up: what it finds is
    a handle of the pointer, and it finds one whenever there is one. *)
Lemma handle_lookup_handle_spec db ptr :
  storable ptr →
  let h := handle_lookup_handle db ptr in
  if decide (h = 0) then ∀ h', h' ≠ 0 → slots db h' ≠ Some ptr
  else slots db h = Some ptr.
Proof.
  intros [H0 Hi]. unfold handle_lookup_handle.
  rewrite (proj2 (Z.eqb_neq _ _) H0), (proj2 (Z.eqb_neq _ _) Hi). simpl.
  destruct (find_ptr_spec ptr (drop 1 (ptrs db)) 1) as [[-> B]|(i & A & -> & C)].
  - rewrite decide_True by done. intros h' N (P1 & P2 & _)%slots_lookup.
    apply (B (Z.to_nat h' - 1)%nat). rewrite lookup_drop. rewrite <- P2. f_equal. lia.
  - rewrite decide_False by lia. apply slots_lookup. rewrite Nat2Z.id.
    rewrite lookup_drop in C. replace (1 + (i - 1))%nat with i in C by lia. auto with lia.
Qed.
