(* ===== verification/HandleProofs.v ===== *)
(** Refinement of the handle databases: any sequence of calls on a database
    that meets the contract behaves as on a finite map from handles to
    pointers. Both databases of the repository are instances. *)
From S2P Require Import Prelude HandleDb.
From S2P Require Handle.
From S2P Require Pkcs11Handle.

Section Refinement.
Context {D : HandleDb}.

Inductive hop :=
| Get (ok : bool) (p : Z)
| Put (h : Z)
| Lookup (h : Z).

Definition hop_run (op : hop) (db : handle_db) : Z * handle_db :=
  match op with
  | Get ok p => hdb_get ok p db
  | Put h => hdb_put h db
  | Lookup h => (hdb_lookup db h, db)
  end.

(** The calls a client may make. *)
Definition hop_ok (op : hop) : Prop :=
  match op with
  | Get _ p => hdb_storable p
  | Put h | Lookup h => h ≠ hdb_fail
  end.

(** The specification: a handle [handle_get] returns is fresh. *)
Inductive hspec (m : gmap Z Z) : hop → Z → gmap Z Z → Prop :=
| spec_get ok p h : h ≠ hdb_fail → m !! h = None → hspec m (Get ok p) h (<[h:=p]> m)
| spec_get_fail p : hspec m (Get false p) hdb_fail m
| spec_put h : hspec m (Put h) (default 0 (m !! h)) (delete h m)
| spec_lookup h : hspec m (Lookup h) (default 0 (m !! h)) m.

Inductive hspec_trace : gmap Z Z → list hop → list Z → gmap Z Z → Prop :=
| trace_nil m : hspec_trace m [] [] m
| trace_cons m op r m1 ops rs m2 :
    hspec m op r m1 → hspec_trace m1 ops rs m2 →
    hspec_trace m (op :: ops) (r :: rs) m2.

Fixpoint hrun (ops : list hop) (db : handle_db) : list Z * handle_db :=
  match ops with
  | [] => ([], db)
  | op :: ops' =>
    let '(r, db1) := hop_run op db in
    let '(rs, db2) := hrun ops' db1 in (r :: rs, db2)
  end.

(** The calls are allowed and the array stays within its bound. *)
Fixpoint client_ok (ops : list hop) (db : handle_db) : Prop :=
  match ops with
  | [] => True
  | op :: ops' => hop_ok op ∧ hdb_cap db ∧ client_ok ops' (snd (hop_run op db))
  end.

Definition abstracts (db : handle_db) (m : gmap Z Z) : Prop :=
  (∀ h, slots db h = m !! h) ∧ map_Forall (λ _ p, hdb_storable p) m.

Lemma hop_run_refines op db m r db' :
  abstracts db m → hop_ok op → hdb_cap db → hop_run op db = (r, db') →
  ∃ m', hspec m op r m' ∧ abstracts db' m'.
Proof.
  intros [A F] O C E. destruct op as [ok p|h|h]; simpl in *.
  - destruct (decide (r = hdb_fail)) as [->|N].
    + destruct (hdb_get_fail _ _ _ _ C O E) as [-> ->]. exists m.
      split; [constructor|done].
    + destruct (hdb_get_ok _ _ _ _ _ C O E N) as (S1 & S2 & S3).
      exists (<[r:=p]> m). split; [constructor; [done|by rewrite <- A]|].
      split; [|by apply map_Forall_insert_2].
      intros h. destruct (decide (h = r)) as [->|Nh].
      * by rewrite lookup_insert_eq.
      * rewrite lookup_insert_ne by done. rewrite S3 by done. apply A.
  - destruct (hdb_put_ok _ _ _ _ C E O) as (-> & S2 & S3).
    exists (delete h m). rewrite A. split; [constructor|].
    split; [|by apply map_Forall_delete].
    intros h'. destruct (decide (h' = h)) as [->|Nh].
    + by rewrite lookup_delete_eq.
    + rewrite lookup_delete_ne by done. rewrite S3 by done. apply A.
  - injection E as <- <-. exists m. split; [|done].
    replace (hdb_lookup db h) with (default 0 (m !! h)); [constructor|].
    symmetry. destruct (m !! h) as [p|] eqn:Em; simpl.
    + apply hdb_lookup_ok; [done|done|by apply (F h)|by rewrite A].
    + apply hdb_lookup_none. by rewrite A.
Qed.

(** C36: every sequence of calls on a database that meets the contract returns
    what the same calls on a finite map may return: a handle is fresh when it
    is given out, keeps its pointer until it is put, and [handle_get] fails
    only for lack of memory. *)
Theorem handle_db_refines ops : ∀ db m rs db',
  abstracts db m → client_ok ops db → hrun ops db = (rs, db') →
  ∃ m', hspec_trace m ops rs m' ∧ abstracts db' m'.
Proof.
  induction ops as [|op ops IH]; simpl; intros db m rs db' A O E.
  - injection E as <- <-. exists m. split; [constructor|done].
  - destruct O as (O & C & Os). destruct (hop_run op db) as [r db1] eqn:E1.
    destruct (hrun ops db1) as [rs1 db2] eqn:E2. injection E as <- <-.
    destruct (hop_run_refines _ _ _ _ _ A O C E1) as (m1 & S1 & A1).
    destruct (IH _ _ _ _ A1 Os E2) as (m2 & S2 & A2).
    exists m2. split; [by econstructor|done].
Qed.
End Refinement.

Arguments hspec_trace _ _ _ _ _ : clear implicits.

(** The calls of the witness, on both databases: two handles are taken, the
    first is put back and given out again. *)
Definition session (h1 h2 : Z) : list hop :=
  [Get true 4096; Get true 8192; Lookup h2; Put h1; Lookup h1; Get true 12288].

Lemma handle_db_refines_witness :
  (∃ m, hspec_trace Handle.core_handle_db ∅ (session 0 1) [0; 1; 8192; 4096; 0; 0] m) ∧
  (∃ m, hspec_trace Pkcs11Handle.ta_handle_db ∅ (session 1 2) [1; 2; 8192; 4096; 0; 1] m).
Proof.
  assert (∀ h, slots (mk_db []) h = (∅ : gmap Z Z) !! h) as A.
  { intros h. rewrite lookup_empty. unfold slots, max_ptrs. simpl.
    case_decide; [lia|done]. }
  split.
  - destruct (@handle_db_refines Handle.core_handle_db (session 0 1) (mk_db []) ∅
      [0; 1; 8192; 4096; 0; 0] (mk_db [12288; 8192; 0; 0])) as (m & H & _).
    + split; [done|apply map_Forall_empty].
    + vm_compute. intuition congruence.
    + reflexivity.
    + by exists m.
  - destruct (@handle_db_refines Pkcs11Handle.ta_handle_db (session 1 2) (mk_db []) ∅
      [1; 2; 8192; 4096; 0; 1] (mk_db [0; 12288; 8192; 0])) as (m & H & _).
    + split; [done|apply map_Forall_empty].
    + vm_compute. intuition congruence.
    + reflexivity.
    + by exists m.
Defined.

(** [handle_invalidate] of an allocated handle of the TA keeps the handle
    allocated, so that it is not given out again, but makes it look up NULL;
    no other handle changes. *)
Theorem handle_invalidate_correct db h p :
  h ≠ 0 → slots db h = Some p →
  ∃ db', Pkcs11Handle.handle_invalidate h db = Done db' ∧
    slots db' h = Some Pkcs11Handle.INVALID_HANDLE_PTR ∧
    Pkcs11Handle.handle_lookup db' h = 0 ∧
    ∀ h', h' ≠ h → slots db' h' = slots db h'.
Proof. apply Pkcs11Handle.handle_invalidate_spec. Qed.

Lemma handle_invalidate_correct_witness :
  ∃ db', Pkcs11Handle.handle_invalidate 1 (mk_db [0; 4096; 8192; 0]) = Done db' ∧
    slots db' 1 = Some Pkcs11Handle.INVALID_HANDLE_PTR ∧
    Pkcs11Handle.handle_lookup db' 1 = 0 ∧
    ∀ h', h' ≠ 1 → slots db' h' = slots (mk_db [0; 4096; 8192; 0]) h'.
Proof.
  apply (handle_invalidate_correct (mk_db [0; 4096; 8192; 0]) 1 4096); [lia|reflexivity].
Defined.

(** [handle_lookup_handle] inverts the look-up: a handle it returns
    belongs to the pointer, and it returns 0 only when no handle does. *)
Theorem handle_lookup_handle_correct db ptr :
  Pkcs11Handle.storable ptr →
  let h := Pkcs11Handle.handle_lookup_handle db ptr in
  if decide (h = 0) then ∀ h', h' ≠ 0 → slots db h' ≠ Some ptr
  else slots db h = Some ptr.
Proof. apply Pkcs11Handle.handle_lookup_handle_spec. Qed.

Lemma handle_lookup_handle_correct_witness :
  let h := Pkcs11Handle.handle_lookup_handle (mk_db [0; 4096; 8192; 0]) 8192 in
  if decide (h = 0) then ∀ h', h' ≠ 0 → slots (mk_db [0; 4096; 8192; 0]) h' ≠ Some 8192
  else slots (mk_db [0; 4096; 8192; 0]) h = Some 8192.
Proof.
  apply (handle_lookup_handle_correct (mk_db [0; 4096; 8192; 0]) 8192).
  split; [lia|]. vm_compute. congruence.
Defined.
