(* ===== verification/Lockdep.v ===== *)
(** core/kernel/lockdep.c: the lock order graph.

    A node stands for a lock and an edge from [a] to [b] records that a thread
    acquired [b] while it held [a]. [lockdep_add_to_graph] never creates two
    nodes for one lock, so a node pointer is modelled by the [lock_id] of the
    node; the node and edge queues are lists in queue order. The outcome of
    each allocation is drawn from a list of booleans, which succeeds when the
    list is used up. Printing is left out. *)
From S2P Require Import Prelude Bytes.

Definition LOCKDEP_NODE_TEMP_MARK : Z := 1.

Definition LOCKDEP_NODE_PERM_MARK : Z := 2.

Definition LOCKDEP_NODE_BFS_VISITED : Z := 4.

Record lockdep_edge := mk_edge {
  e_to : Z;
  e_thread_id : Z;
  e_call_stack_from : option (list Z);
  e_call_stack_to : option (list Z);
}.

Record lockdep_node := mk_node {
  lock_id : Z;
  edges : list lockdep_edge;
  nflags : Z;
}.

Record lockdep_lock := mk_lock {
  l_node : Z;
  l_call_stack : option (list Z);
}.

Definition allocs := list bool.

Definition take_alloc (o : allocs) : bool * allocs :=
  match o with [] => (true, []) | b :: o' => (b, o') end.

(** The node a pointer stands for. *)
Definition find_node (g : list lockdep_node) (id : Z) : option lockdep_node :=
  snd <$> list_find (λ n, lock_id n = id) g.

(** Assignments through a node pointer. *)
Definition update_node (g : list lockdep_node) (id : Z)
  (f : lockdep_node → lockdep_node) : list lockdep_node :=
  map (λ n, if decide (lock_id n = id) then f n else n) g.

Definition set_flags (g : list lockdep_node) (id flags : Z) : list lockdep_node :=
  update_node g id (λ n, mk_node (lock_id n) (edges n) flags).

Definition set_edges (g : list lockdep_node) (id : Z) (es : list lockdep_edge)
  : list lockdep_node :=
  update_node g id (λ n, mk_node (lock_id n) es (nflags n)).

(** Find node in graph or add it; [false] when there is no memory. *)
Definition lockdep_add_to_graph (g : list lockdep_node) (id : Z) (o : allocs)
  : bool * list lockdep_node * allocs :=
  match find_node g id with
  | Some _ => (true, g, o)
  | None =>
    let '(ok, o') := take_alloc o in
    if ok then (true, g ++ [mk_node id [] 0], o') else (false, g, o')
  end.

(** A call stack is modelled without its terminating zero. *)
Definition dup_call_stack (stack : option (list Z)) (o : allocs)
  : option (list Z) * allocs :=
  match stack with
  | None => (None, o)
  | Some s => let '(ok, o') := take_alloc o in (if ok then Some s else None, o')
  end.

Definition lockdep_add_edge (g : list lockdep_node) (from to : Z)
  (call_stack_from call_stack_to : option (list Z)) (thread_id : Z) (o : allocs)
  : Z * list lockdep_node * allocs :=
  match find_node g from with
  | None => (TEE_SUCCESS, g, o)
  | Some n =>
    if bool_decide (Exists (λ e, e_to e = to) (edges n)) then (TEE_SUCCESS, g, o) else
    let '(ok, o1) := take_alloc o in
    if negb ok then (TEE_ERROR_OUT_OF_MEMORY, g, o1) else
    let '(sf, o2) := dup_call_stack call_stack_from o1 in
    let '(st, o3) := dup_call_stack call_stack_to o2 in
    (TEE_SUCCESS, set_edges g from (edges n ++ [mk_edge to thread_id sf st]), o3)
  end.

(** The edge loop of [lockdep_visit]. *)
Fixpoint visit_edges
  (visit : list lockdep_node → Z → option (Z * list lockdep_node))
  (es : list lockdep_edge) (g : list lockdep_node)
  : option (Z * list lockdep_node) :=
  match es with
  | [] => Some (TEE_SUCCESS, g)
  | e :: es' =>
    match visit g (e_to e) with
    | None => None
    | Some (res, g') =>
      if negb (res =? 0) then Some (res, g') else visit_edges visit es' g'
    end
  end.

(** [lockdep_visit], depth first. [None]: out of fuel, or an edge to a node
    that is not in the graph. *)
Fixpoint lockdep_visit (fuel : nat) (g : list lockdep_node) (id : Z)
  : option (Z * list lockdep_node) :=
  match fuel with
  | O => None
  | S f =>
    match find_node g id with
    | None => None
    | Some n =>
      if has_flag (nflags n) LOCKDEP_NODE_PERM_MARK then Some (TEE_SUCCESS, g)
      else if has_flag (nflags n) LOCKDEP_NODE_TEMP_MARK
      then Some (TEE_ERROR_BAD_STATE, g)
      else
        let marked := Z.lor (nflags n) LOCKDEP_NODE_TEMP_MARK in
        match visit_edges (lockdep_visit f) (edges n) (set_flags g id marked) with
        | None => None
        | Some (res, g') =>
          if negb (res =? 0) then Some (res, g')
          else Some (TEE_SUCCESS, set_flags g' id (Z.lor marked LOCKDEP_NODE_PERM_MARK))
        end
    end
  end.

(** The first loop of [lockdep_graph_sort], over the nodes [ids]. *)
Fixpoint sort_loop (fuel : nat) (ids : list Z) (g : list lockdep_node)
  : option (Z * list lockdep_node) :=
  match ids with
  | [] => Some (TEE_SUCCESS, g)
  | id :: ids' =>
    match find_node g id with
    | None => None
    | Some n =>
      if nflags n =? 0 then
        match lockdep_visit fuel g id with
        | None => None
        | Some (res, g') =>
          if negb (res =? 0) then Some (res, g') else sort_loop fuel ids' g'
        end
      else sort_loop fuel ids' g
    end
  end.

(** The recursion of [lockdep_visit] is never deeper than the number of nodes
    plus one. *)
Definition lockdep_graph_sort (g : list lockdep_node)
  : option (Z * list lockdep_node) :=
  match sort_loop (S (length g)) (map lock_id g) g with
  | None => None
  | Some (res, g') =>
    if negb (res =? 0) then Some (res, g')
    else Some (TEE_SUCCESS, map (λ n, mk_node (lock_id n) (edges n) 0) g')
  end.

Definition lockdep_find_edge (g : list lockdep_node) (from to : Z) : option lockdep_edge :=
  match find_node g from with
  | None => None
  | Some n => snd <$> list_find (λ e, e_to e = to) (edges n)
  end.

(** The loop of [__lockdep_lock_acquire] over the locks the thread owns. *)
Fixpoint add_owned_edges (g : list lockdep_node) (owned : list lockdep_lock)
  (id : Z) (acq_stack : option (list Z)) (thread_id : Z) (o : allocs)
  : Z * list lockdep_node * allocs :=
  match owned with
  | [] => (TEE_SUCCESS, g, o)
  | l :: owned' =>
    let '(res, g', o') :=
      lockdep_add_edge g (l_node l) id (l_call_stack l) acq_stack thread_id o in
    if negb (res =? 0) then (res, g', o')
    else add_owned_edges g' owned' id acq_stack thread_id o'
  end.

(** The state a call works on: the graph, the queue of the calling thread and
    the allocator. *)
Record ld_state := mk_ld {
  graph : list lockdep_node;
  owned : list lockdep_lock;
  mem : allocs;
}.

Definition lockdep_lock_acquire (s : ld_state) (id thread_id : Z)
  (acq_stack : option (list Z)) : option (Z * ld_state) :=
  let '(ok, g, o) := lockdep_add_to_graph (graph s) id (mem s) in
  if negb ok then Some (TEE_ERROR_OUT_OF_MEMORY, mk_ld g (owned s) o) else
  let '(res, g, o) := add_owned_edges g (owned s) id acq_stack thread_id o in
  if negb (res =? 0) then Some (res, mk_ld g (owned s) o) else
  match lockdep_graph_sort g with
  | None => None
  | Some (res, g) =>
    if negb (res =? 0) then Some (res, mk_ld g (owned s) o) else
    let '(ok, o) := take_alloc o in
    if negb ok then Some (TEE_ERROR_OUT_OF_MEMORY, mk_ld g (owned s) o)
    else Some (TEE_SUCCESS, mk_ld g (owned s ++ [mk_lock id acq_stack]) o)
  end.

Definition lockdep_lock_tryacquire (s : ld_state) (id : Z)
  (acq_stack : option (list Z)) : Z * ld_state :=
  let '(ok, g, o) := lockdep_add_to_graph (graph s) id (mem s) in
  if negb ok then (TEE_ERROR_OUT_OF_MEMORY, mk_ld g (owned s) o) else
  let '(ok, o) := take_alloc o in
  if negb ok then (TEE_ERROR_OUT_OF_MEMORY, mk_ld g (owned s) o)
  else (TEE_SUCCESS, mk_ld g (owned s ++ [mk_lock id acq_stack]) o).

(** Remove the first lock of a (reversed) queue that is [id]. *)
Fixpoint remove_first (id : Z) (ls : list lockdep_lock) : option (list lockdep_lock) :=
  match ls with
  | [] => None
  | l :: ls' => if l_node l =? id then Some ls' else (cons l) <$> remove_first id ls'
  end.

(** The queue is searched from its tail. *)
Definition lockdep_lock_release (own : list lockdep_lock) (id : Z)
  : Z * list lockdep_lock :=
  match remove_first id (reverse own) with
  | Some r => (TEE_SUCCESS, reverse r)
  | None => (TEE_ERROR_ITEM_NOT_FOUND, own)
  end.

Definition lockdep_graph_delete (_ : list lockdep_node) : list lockdep_node := [].

Definition lockdep_queue_delete (_ : list lockdep_lock) : list lockdep_lock := [].

(** The two loops of [lockdep_node_destroy] over the edges of a node: strip the
    matching edges at the head, then unlink those after an edge that stays. *)
Fixpoint strip_head (id : Z) (es : list lockdep_edge) : list lockdep_edge :=
  match es with
  | e :: es' => if e_to e =? id then strip_head id es' else es
  | [] => []
  end.

Fixpoint remove_after (id : Z) (es : list lockdep_edge) : list lockdep_edge :=
  match es with
  | e :: es' => if e_to e =? id then remove_after id es' else e :: remove_after id es'
  | [] => []
  end.

Definition remove_edges (id : Z) (es : list lockdep_edge) : list lockdep_edge :=
  match strip_head id es with
  | [] => []
  | e :: es' => e :: remove_after id es'
  end.

Definition lockdep_node_destroy (g : list lockdep_node) (id : Z) : list lockdep_node :=
  map (λ n, mk_node (lock_id n) (remove_edges id (edges n)) (nflags n))
    (filter (λ n, lock_id n ≠ id) g).

Definition lockdep_lock_destroy (g : list lockdep_node) (id : Z) : list lockdep_node :=
  match find_node g id with
  | None => g
  | Some _ => lockdep_node_destroy g id
  end.

(** ** The search for the shortest cycle *)

Record lockdep_bfs := mk_bfs {
  bfs_node : Z;
  bfs_path : list Z;
}.

(** The edge loop of one queue element [qe]: either the cycle, or the graph,
    the queue and the allocator afterwards; [None] when memory runs out. *)
Fixpoint bfs_edges (start : Z) (qe : lockdep_bfs) (es : list lockdep_edge)
  (g : list lockdep_node) (queue : list lockdep_bfs) (o : allocs)
  : option (list Z + list lockdep_node * list lockdep_bfs * allocs) :=
  match es with
  | [] => Some (inr (g, queue, o))
  | e :: es' =>
    if e_to e =? start then
      let '(ok, o') := take_alloc o in
      if ok then Some (inl (bfs_path qe)) else None
    else
      match find_node g (e_to e) with
      | None => None
      | Some t =>
        if has_flag (nflags t) LOCKDEP_NODE_BFS_VISITED
        then bfs_edges start qe es' g queue o
        else
          let g' := set_flags g (e_to e) (Z.lor (nflags t) LOCKDEP_NODE_BFS_VISITED) in
          let '(ok, o1) := take_alloc o in
          if negb ok then None else
          let '(ok, o2) := take_alloc o1 in
          if negb ok then None else
          bfs_edges start qe es' g'
            (queue ++ [mk_bfs (e_to e) (bfs_path qe ++ [e_to e])]) o2
      end
  end.

Fixpoint bfs_loop (fuel : nat) (start : Z) (g : list lockdep_node)
  (queue : list lockdep_bfs) (o : allocs) : option (list Z) :=
  match fuel with
  | O => None
  | S f =>
    match queue with
    | [] => None
    | qe :: queue' =>
      match find_node g (bfs_node qe) with
      | None => None
      | Some n =>
        match bfs_edges start qe (edges n) g queue' o with
        | None => None
        | Some (inl path) => Some path
        | Some (inr (g', queue'', o')) => bfs_loop f start g' queue'' o'
        end
      end
    end
  end.

(** The path returned leaves out its terminating zero. A node enters the queue
    at most once, so the loop runs at most once per node and once more. *)
Definition lockdep_graph_get_shortest_cycle (g : list lockdep_node) (start : Z)
  (o : allocs) : option (list Z) :=
  match find_node g start with
  | None => None
  | Some n =>
    let g' := set_flags g start (Z.lor (nflags n) LOCKDEP_NODE_BFS_VISITED) in
    let '(ok, o1) := take_alloc o in
    if negb ok then None else
    let '(ok, o2) := take_alloc o1 in
    if negb ok then None else
    bfs_loop (S (length g)) start g' [mk_bfs start [start]] o2
  end.
