(* ===== verification/LockdepProofs.v ===== *)
(** The lock order graph: [lockdep_graph_sort] decides acyclicity, the
    operations keep the graph well formed, and threads that only block on
    locks lockdep has accepted never wait for each other in a cycle. *)
From stdpp Require Import relations.
From S2P Require Import Prelude Bytes Lockdep.

(** ** The graph as a relation *)

Definition ids (g : list lockdep_node) : list Z := map lock_id g.

(** Lock [b] was acquired with lock [a] held. *)
Definition edge (g : list lockdep_node) (a b : Z) : Prop :=
  ∃ n, find_node g a = Some n ∧ Exists (λ e, e_to e = b) (edges n).

Definition cyclic (g : list lockdep_node) : Prop := ∃ x, tc (edge g) x x.

(** One node per lock, and every edge ends in the graph. *)
Record graph_wf (g : list lockdep_node) : Prop := {
  wf_ids : NoDup (ids g);
  wf_edges : ∀ a b, edge g a b → b ∈ ids g;
}.

(** No mark is left over. *)
Definition clean (g : list lockdep_node) : Prop := Forall (λ n, nflags n = 0) g.

Definition same_shape (g g' : list lockdep_node) : Prop :=
  map (λ n, (lock_id n, edges n)) g = map (λ n, (lock_id n, edges n)) g'.

(** ** Nodes *)

Lemma find_node_cons n g id :
  find_node (n :: g) id = if decide (lock_id n = id) then Some n else find_node g id.
Proof.
  unfold find_node. simpl. case_decide; [done|].
  by destruct (list_find _ g) as [[??]|].
Qed.

Lemma find_node_id g id n : find_node g id = Some n → lock_id n = id.
Proof.
  induction g as [|m g IH]; [done|]. rewrite find_node_cons.
  case_decide; [by intros [= <-]|done].
Qed.

Lemma find_node_ids g id : id ∈ ids g ↔ is_Some (find_node g id).
Proof.
  induction g as [|m g IH]; simpl.
  - split; [set_solver+|by intros [? ?]].
  - rewrite find_node_cons, elem_of_cons. case_decide as D.
    + split; [eauto|naive_solver].
    + rewrite <- IH. naive_solver.
Qed.

Lemma find_node_app g g' id :
  find_node (g ++ g') id =
  match find_node g id with Some n => Some n | None => find_node g' id end.
Proof.
  induction g as [|m g IH]; [done|]. simpl. rewrite !find_node_cons. by case_decide.
Qed.

Lemma find_node_in g n : NoDup (ids g) → n ∈ g → find_node g (lock_id n) = Some n.
Proof.
  induction g as [|m g IH]; intros N H; [by apply elem_of_nil in H|].
  simpl in N. apply NoDup_cons in N as [N1 N2]. rewrite find_node_cons.
  apply elem_of_cons in H as [->|H]; [by rewrite decide_True|].
  rewrite decide_False; [auto|]. intros E. apply N1. rewrite E.
  apply list_elem_of_In, in_map. by apply list_elem_of_In.
Qed.

Lemma find_node_update g id f x :
  (∀ n, lock_id (f n) = lock_id n) →
  find_node (update_node g id f) x =
  (λ n, if decide (x = id) then f n else n) <$> find_node g x.
Proof.
  intros Hf. unfold update_node. induction g as [|m g IH]; [done|].
  simpl. rewrite !find_node_cons.
  destruct (decide (lock_id m = id)) as [E|E]; rewrite ?Hf;
    destruct (decide (lock_id m = x)) as [D|D]; simpl; try done.
  - by rewrite decide_True by congruence.
  - by rewrite decide_False by congruence.
Qed.

Lemma ids_update g id f :
  (∀ n, lock_id (f n) = lock_id n) → ids (update_node g id f) = ids g.
Proof.
  intros Hf. unfold ids, update_node. rewrite map_map. apply map_ext.
  intros n. by case_decide.
Qed.

(** ** Shapes *)

Lemma same_shape_find g g' x :
  same_shape g g' →
  match find_node g x, find_node g' x with
  | Some n, Some n' => edges n = edges n'
  | None, None => True
  | _, _ => False
  end.
Proof.
  unfold same_shape. revert g'; induction g as [|m g IH]; intros [|m' g'] H;
    simplify_eq/=; [done|].
  rewrite !find_node_cons.
  destruct (decide (lock_id m = x)), (decide (lock_id m' = x)); try congruence.
  apply IH. congruence.
Qed.

Lemma same_shape_edge g g' a b : same_shape g g' → edge g a b ↔ edge g' a b.
Proof.
  intros H. unfold edge. pose proof (same_shape_find _ _ a H) as F.
  destruct (find_node g a), (find_node g' a); try done; naive_solver congruence.
Qed.

Lemma same_shape_tc g g' a b : same_shape g g' → tc (edge g) a b → tc (edge g') a b.
Proof.
  intros H. apply (tc_congruence id). intros x y. by apply same_shape_edge.
Qed.

Lemma same_shape_cyclic g g' : same_shape g g' → cyclic g → cyclic g'.
Proof. intros H [x C]. exists x. by apply (same_shape_tc _ _ _ _ H). Qed.

Lemma same_shape_sym g g' : same_shape g g' → same_shape g' g.
Proof. unfold same_shape. congruence. Qed.

Lemma same_shape_trans g1 g2 g3 :
  same_shape g1 g2 → same_shape g2 g3 → same_shape g1 g3.
Proof. unfold same_shape. congruence. Qed.

Lemma same_shape_ids g g' : same_shape g g' → ids g = ids g'.
Proof.
  intros H. apply (f_equal (map fst)) in H. by rewrite !map_map in H.
Qed.

Lemma same_shape_length g g' : same_shape g g' → length g = length g'.
Proof. intros H. apply (f_equal length) in H. by rewrite !length_map in H. Qed.

Lemma same_shape_wf g g' : same_shape g g' → graph_wf g → graph_wf g'.
Proof.
  intros H [A B]. split; rewrite <- (same_shape_ids _ _ H); [done|].
  intros a b E. by apply (B a), (same_shape_edge _ _ _ _ H).
Qed.

Lemma set_flags_shape g id v : same_shape g (set_flags g id v).
Proof.
  unfold same_shape, set_flags, update_node. rewrite map_map. apply map_ext.
  intros n. by case_decide.
Qed.

(** ** Cycles and accessibility *)

Definition below (g : list lockdep_node) (x y : Z) : Prop := edge g y x.

Lemma acc_no_cycle g x : Acc (below g) x → ¬ tc (edge g) x x.
Proof.
  induction 1 as [x _ IH]. intros H.
  assert (∃ y, edge g x y ∧ rtc (edge g) y x) as (y & E & R).
  { inversion H; subst; [by exists x|]. exists y. eauto using tc_rtc. }
  apply (IH y E). eapply tc_rtc_l; [exact R|]. by constructor.
Qed.

(** ** The depth-first search *)

Definition flag_of (g : list lockdep_node) (x : Z) : option Z :=
  nflags <$> find_node g x.

(** Done with all its successors, being visited. *)
Definition black (g : list lockdep_node) (x : Z) : Prop := flag_of g x = Some 3.

Definition grey (g : list lockdep_node) (x : Z) : Prop := flag_of g x = Some 1.

Definition white_count (g : list lockdep_node) : nat :=
  length (filter (λ n, nflags n = 0) g).

(** The marks while the graph is sorted: a black node is on no cycle. *)
Record marks_ok (g : list lockdep_node) : Prop := {
  mo_wf : graph_wf g;
  mo_marks : ∀ x v, flag_of g x = Some v → v = 0 ∨ v = 1 ∨ v = 3;
  mo_black : ∀ x, black g x → Acc (below g) x;
}.

Lemma flag_of_set g id v x :
  flag_of (set_flags g id v) x =
  if decide (x = id) then (λ _, v) <$> find_node g x else flag_of g x.
Proof.
  unfold flag_of, set_flags. rewrite find_node_update by done.
  case_decide; destruct (find_node g x); done.
Qed.

Lemma white_count_set g id v :
  v ≠ 0 → (white_count (set_flags g id v) ≤ white_count g)%nat ∧
  (flag_of g id = Some 0 → (white_count (set_flags g id v) < white_count g)%nat).
Proof.
  intros Hv. unfold flag_of. induction g as [|m g [IH1 IH2]]; [done|].
  unfold white_count, set_flags in *. simpl. rewrite find_node_cons.
  destruct (decide (lock_id m = id)) as [E|E]; simpl; rewrite !filter_cons; simpl.
  - rewrite (decide_False (P := v = 0)) by done.
    destruct (decide (nflags m = 0)); simpl; split; try lia. congruence.
  - destruct (decide (nflags m = 0)); simpl; split; try lia; intros F; specialize (IH2 F); lia.
Qed.

Lemma below_shape g g' x : same_shape g g' → Acc (below g) x → Acc (below g') x.
Proof.
  intros H. induction 1 as [x _ IH]. constructor. intros y E.
  apply IH. unfold below in *. by apply (same_shape_edge _ _ _ _ H).
Qed.

Lemma set_flags_ok g id v :
  marks_ok g → v = 1 ∨ v = 3 →
  (v = 3 → Acc (below g) id) → marks_ok (set_flags g id v).
Proof.
  intros [A B C] Hv Ha. pose proof (set_flags_shape g id v) as Hs. split.
  - by apply (same_shape_wf _ _ Hs).
  - intros x w. rewrite flag_of_set. case_decide; [|apply B].
    destruct (find_node g x); simpl; intros [= <-]; lia.
  - intros x. unfold black. rewrite flag_of_set. intros Hx.
    apply (below_shape _ _ _ Hs). case_decide; [|by apply C]. subst.
    destruct (find_node g id); simpl in Hx; [|done]. apply Ha. congruence.
Qed.

(** What a search from [g] may end in. *)
Definition visit_post (g : list lockdep_node) (fin : list lockdep_node → Prop)
  (r : option (Z * list lockdep_node)) : Prop :=
  ∃ res g', r = Some (res, g') ∧ same_shape g g' ∧
  (res = TEE_SUCCESS ∧ marks_ok g' ∧ fin g' ∧
     (∀ x, black g x → black g' x) ∧ (∀ x, grey g' x ↔ grey g x) ∧
     (white_count g' ≤ white_count g)%nat
   ∨ res = TEE_ERROR_BAD_STATE ∧ cyclic g).

(** [id] may be visited: it is a node, and every node being visited reaches
    it. *)
Definition visitable (g : list lockdep_node) (id : Z) : Prop :=
  id ∈ ids g ∧ ∀ x, grey g x → tc (edge g) x id.

Lemma visit_edges_spec visit es g :
  (∀ g' e, e ∈ es → same_shape g g' → marks_ok g' →
     (∀ x, grey g' x ↔ grey g x) → (white_count g' ≤ white_count g)%nat →
     visit_post g' (λ g'', black g'' (e_to e)) (visit g' (e_to e))) →
  marks_ok g →
  visit_post g (λ g', Forall (λ e, black g' (e_to e)) es) (visit_edges visit es g).
Proof.
  revert g; induction es as [|e es IH]; intros g Hv Hok; simpl.
  - exists TEE_SUCCESS, g. split_and!; [done|done|]. left. split_and!; eauto; done.
  - destruct (Hv g e) as (res & g' & -> & Hs & Hr); [set_solver+|done..|].
    destruct Hr as [(-> & Ok' & B & Mb & Mg & Mw)|(-> & Cy)].
    2:{ exists TEE_ERROR_BAD_STATE, g'. split_and!; [done|done|]. by right. }
    simpl. destruct (IH g') as (res & g2 & -> & Hs2 & Hr2); [|done|].
    { intros g2 e' He Hs' Ok2 G2 W2. apply Hv; [set_solver+He|..|done| |lia].
      - eauto using same_shape_trans.
      - intros x. rewrite G2. apply Mg. }
    exists res, g2. split_and!; [done|eauto using same_shape_trans|].
    destruct Hr2 as [(-> & Ok2 & B2 & Mb2 & Mg2 & Mw2)|(-> & Cy)].
    + left. split_and!; [done|done|by constructor; auto|auto| |lia].
      intros x. rewrite Mg2. apply Mg.
    + right. eauto using same_shape_cyclic, same_shape_sym.
Qed.

Lemma lockdep_visit_eq f g id n v :
  find_node g id = Some n → flag_of g id = Some v → v = 0 ∨ v = 1 ∨ v = 3 →
  lockdep_visit (S f) g id =
  if v =? 3 then Some (TEE_SUCCESS, g)
  else if v =? 1 then Some (TEE_ERROR_BAD_STATE, g)
  else match visit_edges (lockdep_visit f) (edges n) (set_flags g id 1) with
       | None => None
       | Some (res, g') =>
         if negb (res =? 0) then Some (res, g')
         else Some (TEE_SUCCESS, set_flags g' id 3)
       end.
Proof.
  intros F V Hv. unfold flag_of in V. rewrite F in V. injection V as V.
  simpl. rewrite F, V. by destruct Hv as [->|[->| ->]].
Qed.

Lemma lockdep_visit_spec fuel g id :
  marks_ok g → visitable g id → (white_count g < fuel)%nat →
  visit_post g (λ g', black g' id) (lockdep_visit fuel g id).
Proof.
  revert g id; induction fuel as [|f IH]; intros g id Hok [Hid Hg] Hf; [lia|].
  pose proof Hid as [n F]%find_node_ids.
  assert (flag_of g id = Some (nflags n)) as V by (unfold flag_of; by rewrite F).
  pose proof (mo_marks _ Hok _ _ V) as Hv.
  rewrite (lockdep_visit_eq f g id n _ F V Hv).
  destruct Hv as [E|[E|E]]; rewrite E in *; simpl.
  - (* white *)
    destruct (white_count_set g id 1) as [W1 W2]; [done|]. specialize (W2 V).
    pose proof (set_flags_shape g id 1) as S1.
    assert (flag_of (set_flags g id 1) id = Some 1) as V1.
    { rewrite flag_of_set, decide_True, F by done. done. }
    destruct (visit_edges_spec (lockdep_visit f) (edges n) (set_flags g id 1))
      as (res & g' & -> & Hs & Hr).
    { intros g' e He Hs Ok' Gr Wh. apply IH; [done| |lia].
      assert (edge g id (e_to e)) as Ed.
      { exists n. split; [done|]. apply Exists_exists. eauto. }
      pose proof (same_shape_trans _ _ _ S1 Hs) as Hs'. split.
      - rewrite <- (same_shape_ids _ _ Hs'). by apply (wf_edges _ (mo_wf _ Hok) id).
      - intros x Hx%Gr. apply (same_shape_tc _ _ _ _ Hs').
        unfold grey in Hx. rewrite flag_of_set in Hx. case_decide as D.
        + subst. by constructor.
        + eapply tc_r; [by apply Hg|done]. }
    { apply set_flags_ok; auto; lia. }
    pose proof (same_shape_trans _ _ _ S1 Hs) as Hs'.
    destruct Hr as [(-> & Ok' & B & Mb & Mg & Mw)|(-> & Cy)].
    2:{ exists TEE_ERROR_BAD_STATE, g'. split_and!; [done|done|]. right.
        eauto using same_shape_cyclic, same_shape_sym. }
    exists TEE_SUCCESS, (set_flags g' id 3). split_and!;
      [done|eauto using same_shape_trans, set_flags_shape|left].
    assert (is_Some (find_node g' id)) as [n' F'].
    { apply find_node_ids. by rewrite <- (same_shape_ids _ _ Hs'). }
    assert (Acc (below g') id) as HA.
    { constructor. intros y Hy. apply (mo_black _ Ok').
      unfold below in Hy. apply (same_shape_edge _ _ _ _ Hs') in Hy as (m & Hm & Ex).
      rewrite F in Hm. injection Hm as <-. apply Exists_exists in Ex as (e & He & <-).
      rewrite Forall_forall in B. by apply B. }
    split_and!; [done|by apply set_flags_ok; auto| | | |].
    + unfold black. by rewrite flag_of_set, decide_True, F' by done.
    + intros x Hx. unfold black. rewrite flag_of_set. case_decide; [by subst; rewrite F'|].
      apply Mb. unfold black. rewrite flag_of_set, decide_False by done. apply Hx.
    + intros x. unfold grey. rewrite flag_of_set. case_decide as D.
      * subst. rewrite F', V. done.
      * fold (grey g' x). rewrite Mg. unfold grey. by rewrite flag_of_set, decide_False.
    + pose proof (proj1 (white_count_set g' id 3 ltac:(done))). lia.
  - exists TEE_ERROR_BAD_STATE, g. split_and!; [done|done|]. right. split; [done|].
    exists id. by apply Hg.
  - exists TEE_SUCCESS, g. split_and!; [done|done|]. left. split_and!; try done; lia.
Qed.

(** ** Sorting *)

Lemma sort_loop_spec fuel l g :
  marks_ok g → (∀ x, ¬ grey g x) → (∀ x, x ∈ l → x ∈ ids g) →
  (white_count g < fuel)%nat →
  visit_post g (λ g', Forall (black g') l) (sort_loop fuel l g).
Proof.
  revert g; induction l as [|id l IH]; intros g Hok Hg Hl Hf; simpl.
  - exists TEE_SUCCESS, g. split_and!; [done|done|]. left. split_and!; eauto; done.
  - assert (is_Some (find_node g id)) as [n F] by (apply find_node_ids, Hl; set_solver+).
    rewrite F. assert (flag_of g id = Some (nflags n)) as V by (unfold flag_of; by rewrite F).
    destruct (nflags n =? 0) eqn:E; breflect.
    + destruct (lockdep_visit_spec fuel g id) as (res & g' & -> & Hs & Hr); [done|..|done|].
      { split; [apply Hl; set_solver+|]. intros x Hx. by apply Hg in Hx. }
      destruct Hr as [(-> & Ok' & B & Mb & Mg & Mw)|(-> & Cy)].
      2:{ exists TEE_ERROR_BAD_STATE, g'. split_and!; [done|done|]. by right. }
      simpl. destruct (IH g') as (res & g2 & -> & Hs2 & Hr2); [done|..|lia|].
      { intros x Hx%Mg. by apply Hg in Hx. }
      { intros x Hx. rewrite <- (same_shape_ids _ _ Hs). apply Hl. set_solver+Hx. }
      exists res, g2. split_and!; [done|eauto using same_shape_trans|].
      destruct Hr2 as [(-> & Ok2 & B2 & Mb2 & Mg2 & Mw2)|(-> & Cy)].
      * left. split_and!; [done|done|by constructor; auto|auto| |lia].
        intros x. rewrite Mg2. apply Mg.
      * right. eauto using same_shape_cyclic, same_shape_sym.
    + assert (black g id) as B.
      { destruct (mo_marks _ Hok _ _ V) as [D|[D|D]]; [done| |by red; rewrite V, D].
        exfalso. apply (Hg id). red. by rewrite V, D. }
      destruct (IH g Hok Hg) as (res & g2 & -> & Hs2 & Hr2); [|done|].
      { intros x Hx. apply Hl. set_solver+Hx. }
      exists res, g2. split_and!; [done|done|].
      destruct Hr2 as [(-> & Ok2 & B2 & Mb2 & Mg2 & Mw2)|(-> & Cy)]; [left|by right].
      split_and!; [done|done|by constructor; auto|auto|done|lia].
Qed.

Lemma clean_flag g x v : clean g → flag_of g x = Some v → v = 0.
Proof.
  unfold flag_of, clean. induction 1 as [|m g Hm _ IH]; [done|].
  rewrite find_node_cons. case_decide; [|done]. simpl. congruence.
Qed.

Lemma clean_marks_ok g : graph_wf g → clean g → marks_ok g.
Proof.
  intros W C. split; [done| |].
  - intros x v E%clean_flag; auto.
  - intros x E%clean_flag; done.
Qed.

(** Clearing the marks of a graph of the same shape gives the graph back. *)
Lemma unmark_same g g' :
  clean g → same_shape g g' → map (λ n, mk_node (lock_id n) (edges n) 0) g' = g.
Proof.
  unfold same_shape, clean. intros C. revert g'.
  induction C as [|m g Hm _ IH]; intros [|m' g'] H; simplify_eq/=; [done|].
  f_equal; [|by apply IH]. destruct m, m'; simpl in *; congruence.
Qed.

Lemma lockdep_graph_sort_spec g :
  graph_wf g → clean g →
  (lockdep_graph_sort g = Some (TEE_SUCCESS, g) ∧ ¬ cyclic g) ∨
  (∃ g', lockdep_graph_sort g = Some (TEE_ERROR_BAD_STATE, g') ∧ cyclic g).
Proof.
  intros W C. unfold lockdep_graph_sort.
  destruct (sort_loop_spec (S (length g)) (map lock_id g) g)
    as (res & g' & -> & Hs & Hr).
  - by apply clean_marks_ok.
  - intros x Hx%clean_flag; done.
  - done.
  - unfold white_count. pose proof (length_filter (λ n, nflags n = 0) g). lia.
  - destruct Hr as [(-> & Ok & B & _)|(-> & Cy)]; [left|right; by exists g'].
    cbn [negb Z.eqb TEE_SUCCESS]. rewrite (unmark_same g g' C Hs). split; [done|].
    intros [x Hx]. assert (x ∈ ids g) as Hi.
    { assert (∃ y, edge g y x) as [y Hy]
        by (apply tc_r_inv || (clear -Hx; induction Hx; eauto)).
      by apply (wf_edges _ W y). }
    rewrite Forall_forall in B. apply B, (mo_black _ Ok) in Hi.
    apply (acc_no_cycle _ _ Hi). by apply (same_shape_tc _ _ _ _ Hs).
Qed.

(** C39: on a well-formed graph without marks, [lockdep_graph_sort] returns
    [TEE_SUCCESS] exactly when the lock order has no cycle, and then leaves
    the graph as it was; otherwise it returns [TEE_ERROR_BAD_STATE]. The
    recursion always ends. *)
Theorem lockdep_graph_sort_correct g :
  graph_wf g → clean g →
  ∃ res g', lockdep_graph_sort g = Some (res, g') ∧
    (res = TEE_SUCCESS ↔ ¬ cyclic g) ∧ (res = TEE_ERROR_BAD_STATE ↔ cyclic g) ∧
    (res = TEE_SUCCESS → g' = g).
Proof.
  intros W C. destruct (lockdep_graph_sort_spec g W C) as [[E A]|(g' & E & A)].
  - exists TEE_SUCCESS, g. split_and!; [done|done| |done].
    split; [done|]. intros B. by destruct A.
  - exists TEE_ERROR_BAD_STATE, g'. split_and!; [done| |done|done].
    split; [done|]. intros B. by destruct B.
Qed.

(** ** The operations on the graph *)

Lemma add_to_graph_spec g id o ok g' o' :
  lockdep_add_to_graph g id o = (ok, g', o') → graph_wf g → clean g →
  graph_wf g' ∧ clean g' ∧ (∀ a b, edge g' a b ↔ edge g a b) ∧
  (ok = true → id ∈ ids g') ∧ (∀ x, x ∈ ids g → x ∈ ids g').
Proof.
  unfold lockdep_add_to_graph. intros E W C.
  destruct (find_node g id) as [n|] eqn:F.
  { injection E as <- <- <-. split_and!; try done. intros _. by apply find_node_ids. }
  destruct (take_alloc o) as [[] o1]; injection E as <- <- <-; [|done].
  assert (∀ a b, edge (g ++ [mk_node id [] 0]) a b ↔ edge g a b) as HE.
  { intros a b. unfold edge. rewrite find_node_app. destruct (find_node g a) eqn:Fa; [done|].
    rewrite find_node_cons. case_decide as D; [|done].
    split; intros (n & [= <-] & H). by apply Exists_nil in H. }
  assert (ids (g ++ [mk_node id [] 0]) = ids g ++ [id]) as HI
    by (unfold ids; by rewrite map_app).
  split_and!.
  - split; rewrite HI.
    + apply NoDup_app. split_and!; [apply W| |apply NoDup_singleton].
      intros x Hx Hx'%list_elem_of_singleton. subst. apply find_node_ids in Hx as [? Hx].
      congruence.
    + intros a b H%HE. apply elem_of_app. left. by apply (wf_edges _ W a).
  - apply Forall_app. split; [done|]. by repeat constructor.
  - done.
  - rewrite HI. set_solver+.
  - rewrite HI. set_solver+.
Qed.

Lemma set_edges_edge g from es a b :
  edge (set_edges g from es) a b ↔
  if decide (a = from) then is_Some (find_node g from) ∧ Exists (λ e, e_to e = b) es
  else edge g a b.
Proof.
  unfold edge, set_edges. rewrite find_node_update by done. case_decide as D.
  - subst. destruct (find_node g from); simpl; split.
    + intros (n & [= <-] & H). eauto.
    + intros [_ H]. eauto.
    + by intros (? & ? & ?).
    + by intros [[? ?] ?].
  - by destruct (find_node g a).
Qed.

Lemma add_edge_spec g from to sf st t o res g' o' :
  lockdep_add_edge g from to sf st t o = (res, g', o') →
  graph_wf g → clean g → from ∈ ids g → to ∈ ids g →
  graph_wf g' ∧ clean g' ∧ ids g' = ids g ∧
  (∀ a b, edge g a b → edge g' a b) ∧
  (∀ a b, edge g' a b → edge g a b ∨ a = from ∧ b = to) ∧
  (res = TEE_SUCCESS → edge g' from to).
Proof.
  unfold lockdep_add_edge. intros E W C Hf Ht.
  apply find_node_ids in Hf as [n F]. rewrite F in E.
  case_bool_decide as D.
  { injection E as <- <- <-. split_and!; try done; [by left|]. intros _. by exists n. }
  destruct (take_alloc o) as [[] o1]; simpl in E;
    [|injection E as <- <- <-; split_and!; try done; by left].
  destruct (dup_call_stack sf o1) as [sf' o2], (dup_call_stack st o2) as [st' o3].
  injection E as <- <- <-.
  set (es := edges n ++ _). set (g' := set_edges g from es).
  assert (∀ a b, edge g a b → edge g' a b) as Mono.
  { intros a b H. apply set_edges_edge. case_decide; [subst|done].
    split; [eauto|]. destruct H as (m & F' & H). rewrite F in F'. injection F' as <-.
    apply Exists_app. by left. }
  assert (∀ a b, edge g' a b → edge g a b ∨ a = from ∧ b = to) as Inv.
  { intros a b H%set_edges_edge. case_decide; [subst|by left].
    destruct H as [_ H]. apply Exists_app in H as [H|H].
    - left. by exists n.
    - right. apply Exists_cons in H as [H|H%Exists_nil]; [|done]. done. }
  assert (ids g' = ids g) as HI by (by apply ids_update).
  split_and!; [split|..]; rewrite ?HI; try done.
  - apply W.
  - intros a b [H|[-> ->]]%Inv; [|done]. by apply (wf_edges _ W a).
  - unfold g', set_edges, update_node, clean. apply Forall_forall. intros m Hm.
    apply list_elem_of_In, in_map_iff in Hm as (m' & <- & Hm').
    rewrite <- list_elem_of_In in Hm'. unfold clean in C. rewrite Forall_forall in C.
    case_decide; simpl; auto.
  - intros _. apply set_edges_edge. rewrite decide_True by done. split; [eauto|].
    apply Exists_app. right. by constructor.
Qed.

Lemma add_owned_edges_spec own : ∀ g id st t o res g' o',
  add_owned_edges g own id st t o = (res, g', o') →
  graph_wf g → clean g → id ∈ ids g → Forall (λ l, l_node l ∈ ids g) own →
  graph_wf g' ∧ clean g' ∧ ids g' = ids g ∧
  (∀ a b, edge g a b → edge g' a b) ∧
  (∀ a b, edge g' a b → edge g a b ∨ b = id) ∧
  (res = TEE_SUCCESS → ∀ l, l ∈ own → edge g' (l_node l) id).
Proof.
  induction own as [|l own IH]; simpl; intros g id st t o res g' o' E W C Hi Ho.
  { injection E as <- <- <-. split_and!; try done; [by left|set_solver+]. }
  apply Forall_cons in Ho as [Hl Ho].
  destruct (lockdep_add_edge g (l_node l) id (l_call_stack l) st t o)
    as [[r1 g1] o1] eqn:E1.
  destruct (add_edge_spec _ _ _ _ _ _ _ _ _ _ E1 W C Hl Hi) as (W1 & C1 & I1 & M1 & V1 & S1).
  destruct (negb (r1 =? 0)) eqn:R; breflect.
  { injection E as <- <- <-. split_and!; try done; naive_solver. }
  destruct (IH _ _ _ _ _ _ _ _ E W1 C1) as (W2 & C2 & I2 & M2 & V2 & S2);
    rewrite ?I1; [done..|].
  split_and!; [done|done|congruence|auto| |].
  - intros a b [H|H]%V2; [|by right]. apply V1 in H as [H|[_ H]]; auto.
  - intros Hr l' Hl'. apply elem_of_cons in Hl' as [->|Hl']; auto.
Qed.

Lemma remove_edges_filter id es :
  remove_edges id es = filter (λ e, e_to e ≠ id) es.
Proof.
  assert (∀ l, remove_after id l = filter (λ e, e_to e ≠ id) l) as HA.
  { induction l as [|e l IH]; simpl; [done|]. rewrite filter_cons, IH.
    destruct (e_to e =? id) eqn:E; breflect.
    - by rewrite decide_False by auto.
    - by rewrite decide_True by auto. }
  unfold remove_edges. induction es as [|e es IH]; simpl; [done|].
  rewrite filter_cons. destruct (e_to e =? id) eqn:E; breflect.
  - rewrite decide_False by auto. exact IH.
  - by rewrite decide_True, HA by auto.
Qed.

Lemma find_node_destroy g id x :
  find_node (lockdep_node_destroy g id) x =
  if decide (x = id) then None
  else (λ n, mk_node (lock_id n) (remove_edges id (edges n)) (nflags n)) <$> find_node g x.
Proof.
  unfold lockdep_node_destroy. induction g as [|m g IH]; simpl.
  { by case_decide. }
  rewrite filter_cons, find_node_cons. destruct (decide (lock_id m ≠ id)) as [D|D]; simpl.
  - rewrite find_node_cons, IH. simpl.
    destruct (decide (lock_id m = x)), (decide (x = id)); try done. congruence.
  - rewrite IH. destruct (decide (lock_id m = x)), (decide (x = id)); try done.
    exfalso. apply D. congruence.
Qed.

Lemma destroy_edge g id a b :
  edge (lockdep_node_destroy g id) a b ↔ edge g a b ∧ a ≠ id ∧ b ≠ id.
Proof.
  unfold edge. rewrite find_node_destroy. split.
  - intros (n & F & H). case_decide as D; [done|].
    destruct (find_node g a) as [m|]; simplify_eq/=. rewrite remove_edges_filter in H.
    apply Exists_exists in H as (e & He & <-). apply list_elem_of_filter in He as [? He].
    split_and!; [|done..]. exists m. split; [done|]. apply Exists_exists; eauto.
  - intros ((n & F & H) & Ha & Hb). rewrite decide_False, F by done. simpl.
    eexists. split; [done|]. simpl. rewrite remove_edges_filter.
    apply Exists_exists in H as (e & He & <-). apply Exists_exists. exists e.
    split; [|done]. by apply list_elem_of_filter.
Qed.

Lemma lock_destroy_spec g id :
  graph_wf g → clean g →
  let g' := lockdep_lock_destroy g id in
  graph_wf g' ∧ clean g' ∧ (∀ a b, edge g' a b ↔ edge g a b ∧ a ≠ id ∧ b ≠ id) ∧
  (∀ x, x ∈ ids g' ↔ x ∈ ids g ∧ x ≠ id).
Proof.
  intros W C. unfold lockdep_lock_destroy. destruct (find_node g id) as [n|] eqn:F; cbn zeta.
  - assert (∀ x, x ∈ ids (lockdep_node_destroy g id) ↔ x ∈ ids g ∧ x ≠ id) as HI.
    { intros x. rewrite !find_node_ids, find_node_destroy. case_decide as D.
      - split; [by intros []|tauto].
      - rewrite fmap_is_Some. tauto. }
    split_and!; [split|..].
    + unfold lockdep_node_destroy, ids. rewrite map_map. simpl.
      eapply sublist_NoDup; [apply W|]. clear. unfold ids.
      induction g as [|m g IH]; simpl; [done|]. rewrite filter_cons.
      case_decide; by constructor.
    + intros a b (H & Ha & Hb)%destroy_edge. apply HI. split; [|done].
      by apply (wf_edges _ W a).
    + unfold clean, lockdep_node_destroy in *. rewrite Forall_forall in *.
      intros m Hm. apply list_elem_of_In, in_map_iff in Hm as (m' & <- & Hm').
      rewrite <- list_elem_of_In in Hm'. apply list_elem_of_filter in Hm' as [_ Hm'].
      simpl. auto.
    + intros. apply destroy_edge.
    + done.
  - assert (id ∉ ids g) as Hi. { intros [? ?]%find_node_ids. congruence. }
    split_and!; [done|done| |].
    + intros a b. split; [|tauto]. intros H. split_and!; [done| |]; intros ->.
      * destruct H as (? & ? & ?). congruence.
      * apply Hi. by apply (wf_edges _ W a).
    + intros x. split; [|tauto]. intros H. split; [done|]. by intros ->.
Qed.

Lemma remove_first_spec id ls :
  match remove_first id ls with
  | Some r => ∃ l1 l l2, ls = l1 ++ l :: l2 ∧ r = l1 ++ l2 ∧ l_node l = id ∧
                Forall (λ l, l_node l ≠ id) l1
  | None => Forall (λ l, l_node l ≠ id) ls
  end.
Proof.
  induction ls as [|l ls IH]; simpl; [by constructor|].
  destruct (l_node l =? id) eqn:E; breflect.
  - exists [], l, ls. by repeat constructor.
  - destruct (remove_first id ls) as [r|]; simpl.
    + destruct IH as (l1 & m & l2 & -> & -> & ? & ?). exists (l :: l1), m, l2.
      by repeat constructor.
    + by constructor.
Qed.

Lemma lock_release_spec own id :
  match lockdep_lock_release own id with
  | (r, own') =>
    (r = TEE_SUCCESS ∧ ∃ l1 l l2, own = l1 ++ l :: l2 ∧ own' = l1 ++ l2 ∧ l_node l = id ∧
       Forall (λ l, l_node l ≠ id) l2) ∨
    (r = TEE_ERROR_ITEM_NOT_FOUND ∧ own' = own ∧ Forall (λ l, l_node l ≠ id) own)
  end.
Proof.
  unfold lockdep_lock_release. pose proof (remove_first_spec id (reverse own)) as H.
  destruct (remove_first id (reverse own)) as [r|].
  - left. split; [done|]. destruct H as (l1 & l & l2 & E & -> & Hl & Ha).
    exists (reverse l2), l, (reverse l1). split_and!.
    + apply (f_equal reverse) in E. rewrite reverse_involutive in E. rewrite E.
      by rewrite reverse_app, reverse_cons, <- app_assoc.
    + by rewrite reverse_app.
    + done.
    + by apply Forall_reverse.
  - right. split_and!; [done|done|]. apply Forall_reverse in H.
    by rewrite reverse_involutive in H.
Qed.

Lemma lock_acquire_spec s id tid st res s' :
  lockdep_lock_acquire s id tid st = Some (res, s') →
  graph_wf (graph s) → clean (graph s) → Forall (λ l, l_node l ∈ ids (graph s)) (owned s) →
  (∀ x, x ∈ ids (graph s) → x ∈ ids (graph s')) ∧
  (∀ a b, edge (graph s) a b → edge (graph s') a b) ∧
  (res = TEE_SUCCESS →
     graph_wf (graph s') ∧ clean (graph s') ∧ ¬ cyclic (graph s') ∧
     (∃ l, owned s' = owned s ++ [l] ∧ l_node l = id) ∧ id ∈ ids (graph s') ∧
     ∀ l, l ∈ owned s → edge (graph s') (l_node l) id).
Proof.
  unfold lockdep_lock_acquire. intros E W C Ho.
  destruct (lockdep_add_to_graph (graph s) id (mem s)) as [[ok g1] o1] eqn:E1.
  destruct (add_to_graph_spec _ _ _ _ _ _ E1 W C) as (W1 & C1 & H1 & I1 & M1).
  destruct ok; simpl in E; [|simplify_eq/=; split_and!; [done| |done]; intros; by apply H1].
  specialize (I1 eq_refl).
  destruct (add_owned_edges g1 (owned s) id st tid o1) as [[r2 g2] o2] eqn:E2.
  destruct (add_owned_edges_spec _ _ _ _ _ _ _ _ _ E2 W1 C1 I1)
    as (W2 & C2 & I2 & M2 & V2 & S2); [by eapply Forall_impl; [exact Ho|auto]|].
  destruct (negb (r2 =? 0)) eqn:R2; breflect.
  { simplify_eq/=. rewrite I2. split_and!; [done| |done].
    intros a b H. by apply M2, H1. }
  destruct (lockdep_graph_sort_spec g2 W2 C2) as [[E3 A]|(g3 & E3 & A)]; rewrite E3 in E.
  - cbn [negb Z.eqb TEE_SUCCESS] in E. destruct (take_alloc o2) as [[] o3]; simplify_eq/=;
      rewrite I2; (split_and!; [done|intros a b H; by apply M2, H1|]); [|done].
    intros _. split_and!; try done; [by eexists|by apply S2].
  - simplify_eq/=. assert (same_shape g2 g3) as Hs.
    { revert E3. unfold lockdep_graph_sort.
      destruct (sort_loop_spec (S (length g2)) (map lock_id g2) g2)
        as (r & g' & -> & Hs & _);
        [by apply clean_marks_ok|intros x Hx%clean_flag; done|done| |].
      - unfold white_count. pose proof (length_filter (λ n, nflags n = 0) g2). lia.
      - case_match; intros; simplify_eq; done. }
    rewrite <- (same_shape_ids _ _ Hs), I2. split_and!; [done| |done].
    intros a b H. by apply (same_shape_edge _ _ _ _ Hs), M2, H1.
Qed.

(** [__lockdep_lock_release] removes the most recently acquired entry of
    the lock and reports [TEE_ERROR_ITEM_NOT_FOUND], changing nothing, exactly
    when the thread does not own it. *)
Theorem lockdep_lock_release_correct own id :
  match lockdep_lock_release own id with
  | (r, own') =>
    (r = TEE_SUCCESS ∧ ∃ l1 l l2, own = l1 ++ l :: l2 ∧ own' = l1 ++ l2 ∧ l_node l = id ∧
       Forall (λ l, l_node l ≠ id) l2) ∨
    (r = TEE_ERROR_ITEM_NOT_FOUND ∧ own' = own ∧ Forall (λ l, l_node l ≠ id) own)
  end.
Proof. apply lock_release_spec. Qed.

(** [lockdep_lock_destroy] takes the lock and every edge that touches it
    out of the graph, and nothing else. *)
Theorem lockdep_lock_destroy_correct g id :
  graph_wf g → clean g →
  let g' := lockdep_lock_destroy g id in
  graph_wf g' ∧ clean g' ∧ (∀ a b, edge g' a b ↔ edge g a b ∧ a ≠ id ∧ b ≠ id) ∧
  (∀ x, x ∈ ids g' ↔ x ∈ ids g ∧ x ≠ id).
Proof. apply lock_destroy_spec. Qed.

(** ** Threads *)

(** The global graph, the queue of each thread and the lock a thread is
    blocked on. *)
Record system := mk_system {
  sys_graph : list lockdep_node;
  queues : gmap Z (list lockdep_lock);
  waiting : gmap Z Z;
}.

Definition queue (s : system) (t : Z) : list lockdep_lock := queues s !!! t.

(** The steps of a run in which no lockdep check has made the core panic.
    [mutex_lock] registers the lock before it blocks on it. *)
Inductive sys_step : system → system → Prop :=
| sys_acquire s t id st o res ld :
    waiting s !! t = None →
    lockdep_lock_acquire (mk_ld (sys_graph s) (queue s t) o) id t st = Some (res, ld) →
    res = TEE_SUCCESS →
    sys_step s (mk_system (graph ld) (<[t:=owned ld]> (queues s)) (<[t:=id]> (waiting s)))
| sys_granted s t id :
    waiting s !! t = Some id →
    sys_step s (mk_system (sys_graph s) (queues s) (delete t (waiting s)))
| sys_tryacquire s t id st o res ld :
    waiting s !! t = None →
    lockdep_lock_tryacquire (mk_ld (sys_graph s) (queue s t) o) id st = (res, ld) →
    res = TEE_SUCCESS →
    sys_step s (mk_system (graph ld) (<[t:=owned ld]> (queues s)) (waiting s))
| sys_release s t id own res :
    waiting s !! t = None →
    lockdep_lock_release (queue s t) id = (res, own) →
    res = TEE_SUCCESS →
    sys_step s (mk_system (sys_graph s) (<[t:=own]> (queues s)) (waiting s))
| sys_destroy s id :
    (∀ t l, l ∈ queue s t → l_node l ≠ id) →
    sys_step s (mk_system (lockdep_lock_destroy (sys_graph s) id) (queues s) (waiting s)).

Definition sys_start : system := mk_system [] ∅ ∅.

(** The locks a thread holds: its queue without the lock it is blocked on,
    which is the last one. *)
Definition held (s : system) (t : Z) : list Z :=
  map l_node (match waiting s !! t with
              | Some _ => take (pred (length (queue s t))) (queue s t)
              | None => queue s t
              end).

(** Thread [t] is blocked on a lock [u] holds. *)
Definition waits_for (s : system) (t u : Z) : Prop :=
  ∃ w, waiting s !! t = Some w ∧ w ∈ held s u.

Record sys_ok (s : system) : Prop := {
  ok_wf : graph_wf (sys_graph s);
  ok_clean : clean (sys_graph s);
  ok_acyclic : ¬ cyclic (sys_graph s);
  ok_nodes : ∀ t, Forall (λ l, l_node l ∈ ids (sys_graph s)) (queue s t);
  ok_waiting : ∀ t w, waiting s !! t = Some w →
    ∃ q l, queue s t = q ++ [l] ∧ l_node l = w ∧
      ∀ l', l' ∈ q → edge (sys_graph s) (l_node l') w;
}.

Lemma queue_insert g qs ws t q u :
  queue (mk_system g (<[t:=q]> qs) ws) u =
  if decide (u = t) then q else qs !!! u.
Proof.
  unfold queue. simpl. case_decide as D.
  - subst. apply lookup_total_insert_eq.
  - by apply lookup_total_insert_ne.
Qed.

Lemma held_waiting s t w q l :
  waiting s !! t = Some w → queue s t = q ++ [l] → held s t = map l_node q.
Proof.
  intros Hw Hq. unfold held. rewrite Hw, Hq, length_app. simpl.
  replace (pred (length q + 1)) with (length q) by lia. by rewrite take_app_length.
Qed.

Lemma tryacquire_spec s id st res s' :
  lockdep_lock_tryacquire s id st = (res, s') → res = TEE_SUCCESS →
  graph_wf (graph s) → clean (graph s) →
  graph_wf (graph s') ∧ clean (graph s') ∧
  (∀ a b, edge (graph s') a b ↔ edge (graph s) a b) ∧ id ∈ ids (graph s') ∧
  (∀ x, x ∈ ids (graph s) → x ∈ ids (graph s')) ∧
  ∃ l, owned s' = owned s ++ [l] ∧ l_node l = id.
Proof.
  unfold lockdep_lock_tryacquire. intros E Hr W C.
  destruct (lockdep_add_to_graph (graph s) id (mem s)) as [[ok g1] o1] eqn:E1.
  destruct (add_to_graph_spec _ _ _ _ _ _ E1 W C) as (W1 & C1 & H1 & I1 & M1).
  destruct ok; simpl in E; [|simplify_eq/=].
  destruct (take_alloc o1) as [[] o2]; simplify_eq/=.
  split_and!; auto. by eexists.
Qed.

Lemma sys_step_ok s s' : sys_step s s' → sys_ok s → sys_ok s'.
Proof.
  intros S [W C A N B]. destruct S as [s t id st o res ld Hw E Hr|s t id Hw
    |s t id st o res ld Hw E Hr|s t id own res Hw E Hr|s id Hd].
  - destruct (lock_acquire_spec _ _ _ _ _ _ E W C (N t)) as (I1 & M1 & H).
    destruct (H Hr) as (W' & C' & A' & (l & Ho & Hl) & Hi & He). simpl in *. split; simpl; try done.
    + intros u. rewrite queue_insert. case_decide.
      * rewrite Ho. apply Forall_app. split; [|by rewrite Forall_singleton, Hl].
        eapply Forall_impl; [apply N|]. auto.
      * eapply Forall_impl; [apply N|]. auto.
    + intros u w Hu. rewrite queue_insert. case_decide as D.
      * subst u. rewrite lookup_insert_eq in Hu. injection Hu as <-. eauto.
      * rewrite lookup_insert_ne in Hu by done. destruct (B _ _ Hu) as (q & l' & ? & ? & ?).
        eexists q, l'. eauto.
  - split; simpl; try done. intros u w Hu. apply lookup_delete_Some in Hu as [_ Hu]. by apply B.
  - destruct (tryacquire_spec _ _ _ _ _ E Hr W C) as (W' & C' & HE & Hi & I1 & l & Ho & Hl).
    simpl in *. split; simpl; try done.
    + intros [x Hx]. apply A. exists x. revert Hx. apply (tc_congruence (λ x, x)).
      intros ? ?. apply HE.
    + intros u. rewrite queue_insert. case_decide.
      * rewrite Ho. apply Forall_app. split; [|by rewrite Forall_singleton, Hl].
        eapply Forall_impl; [apply N|]. auto.
      * eapply Forall_impl; [apply N|]. auto.
    + intros u w Hu. rewrite queue_insert. case_decide as D; [congruence|].
      destruct (B _ _ Hu) as (q & l' & ? & ? & ?). exists q, l'. split_and!; [done..|].
      intros. apply HE. auto.
  - pose proof (lock_release_spec (queue s t) id) as H. rewrite E in H.
    destruct H as [(_ & l1 & l & l2 & Hq & -> & _)|(-> & _)]; [|done].
    split; simpl; try done.
    + intros u. rewrite queue_insert. case_decide as D; [|apply N].
      pose proof (N t) as HN. rewrite Hq in HN. rewrite Forall_app, Forall_cons in HN.
      apply Forall_app. tauto.
    + intros u w Hu. rewrite queue_insert. case_decide as D; [congruence|]. by apply B.
  - destruct (lock_destroy_spec (sys_graph s) id W C) as (W' & C' & HE & HI).
    split; simpl; try done.
    + intros [x Hx]. apply A. exists x. revert Hx. apply (tc_congruence (λ x, x)).
      intros ? ? H. apply HE in H as [H _]. exact H.
    + intros u. apply Forall_forall. intros l Hl. apply HI.
      pose proof (N u) as H. rewrite Forall_forall in H. split; [by apply H|].
      by apply (Hd u).
    + intros u w Hu. destruct (B _ _ Hu) as (q & l & Hq & Hl & H). exists q, l.
      split_and!; [done..|]. intros l' Hl'. apply HE. split; [auto|].
      unfold queue in *. simpl in *.
      split; [apply (Hd u)|rewrite <- Hl; apply (Hd u)]; rewrite Hq; set_solver+Hl'.
Qed.

Lemma sys_start_ok : sys_ok sys_start.
Proof.
  split; simpl.
  - split; [constructor|]. intros a b (n & H & _). done.
  - constructor.
  - intros [x H]. assert (∃ y, edge [] x y) as (y & n & H' & _) by (inversion H; eauto). done.
  - intros t. unfold queue. simpl. rewrite lookup_total_empty. constructor.
  - intros t w H. by rewrite lookup_empty in H.
Qed.

Lemma waits_for_edge s t u w wu :
  sys_ok s → waiting s !! t = Some w → w ∈ held s u → waiting s !! u = Some wu →
  edge (sys_graph s) w wu.
Proof.
  intros Ok _ Hh Hu. destruct (ok_waiting _ Ok _ _ Hu) as (q & l & Hq & _ & H).
  rewrite (held_waiting _ _ _ _ _ Hu Hq) in Hh.
  apply list_elem_of_In, in_map_iff in Hh as (l' & <- & Hl').
  apply H. by apply list_elem_of_In.
Qed.

Lemma waits_for_tc s t u w wu :
  sys_ok s → tc (waits_for s) t u → waiting s !! t = Some w → waiting s !! u = Some wu →
  tc (edge (sys_graph s)) w wu.
Proof.
  intros Ok H. revert w. induction H as [t u (w' & H1 & H2)|t v u (w' & H1 & H2) R IH];
    intros w Hw Hu; rewrite Hw in H1; injection H1 as <-.
  - constructor. eauto using waits_for_edge.
  - assert (∃ wv, waiting s !! v = Some wv) as [wv Hv].
    { inversion R as [? ? (x & ? & _)|? ? ? (x & ? & _)]; eauto. }
    eapply tc_l; [eauto using waits_for_edge|eauto].
Qed.

(** C30: deadlock freedom. However threads acquire, try, release and destroy
    locks, as long as every lockdep check succeeded there is no cycle of
    threads each of which is blocked on a lock the next one holds. *)
Theorem lockdep_no_deadlock s t :
  rtc sys_step sys_start s → ¬ tc (waits_for s) t t.
Proof.
  intros R. assert (sys_ok s) as Ok.
  { assert (sys_ok sys_start) as H by apply sys_start_ok.
    induction R; eauto using sys_step_ok. }
  intros H. assert (∃ w, waiting s !! t = Some w) as [w Hw].
  { inversion H as [? ? (x & ? & _)|? ? ? (x & ? & _)]; eauto. }
  apply (ok_acyclic _ Ok). exists w. by eapply waits_for_tc.
Qed.

(** Two threads and two locks taken in opposite orders: the last acquisition
    is refused. *)
Definition abba : option Z :=
  '(r1, s1) ← lockdep_lock_acquire (mk_ld [] [] []) 16 1 None;
  '(r2, s2) ← lockdep_lock_acquire s1 32 1 None;
  '(r3, s3) ← lockdep_lock_acquire (mk_ld (graph s2) [] []) 32 2 None;
  '(r4, s4) ← lockdep_lock_acquire s3 16 2 None;
  Some r4.

Example abba_refused : abba = Some TEE_ERROR_BAD_STATE.
Proof. vm_compute. reflexivity. Qed.

(** ** Concrete graphs *)

Definition graph_wfb (g : list lockdep_node) : bool :=
  bool_decide (NoDup (ids g)) &&
  forallb (λ n, forallb (λ e, bool_decide (e_to e ∈ ids g)) (edges n)) g.

Lemma graph_wfb_sound g : graph_wfb g = true → graph_wf g.
Proof.
  unfold graph_wfb. intros [N H]%andb_true_iff. apply bool_decide_eq_true in N.
  split; [done|]. intros a b (n & F & Hb).
  assert (n ∈ g) as Hn.
  { unfold find_node in F. destruct (list_find _ g) as [[i m]|] eqn:L; simplify_eq/=.
    apply list_find_Some in L as [L _]. by apply list_elem_of_lookup_2 in L. }
  rewrite forallb_forall in H. apply list_elem_of_In in Hn. apply H in Hn.
  apply Exists_exists in Hb as (e & He & <-).
  rewrite forallb_forall in Hn. apply list_elem_of_In in He. apply Hn in He.
  by apply bool_decide_eq_true in He.
Qed.

(** The lock orders 16 < 32 < 48. *)
Definition three_locks : list lockdep_node :=
  [mk_node 16 [mk_edge 32 1 None None] 0; mk_node 32 [mk_edge 48 1 None None] 0;
   mk_node 48 [] 0].

Lemma lockdep_graph_sort_correct_witness :
  ∃ res g', lockdep_graph_sort three_locks = Some (res, g') ∧
    (res = TEE_SUCCESS ↔ ¬ cyclic three_locks) ∧
    (res = TEE_ERROR_BAD_STATE ↔ cyclic three_locks) ∧
    (res = TEE_SUCCESS → g' = three_locks).
Proof.
  apply (lockdep_graph_sort_correct three_locks).
  - by apply graph_wfb_sound.
  - repeat constructor.
Defined.

Lemma lockdep_lock_destroy_correct_witness :
  let g' := lockdep_lock_destroy three_locks 32 in
  graph_wf g' ∧ clean g' ∧
  (∀ a b, edge g' a b ↔ edge three_locks a b ∧ a ≠ 32 ∧ b ≠ 32) ∧
  (∀ x, x ∈ ids g' ↔ x ∈ ids three_locks ∧ x ≠ 32).
Proof.
  apply (lockdep_lock_destroy_correct three_locks 32).
  - by apply graph_wfb_sound.
  - repeat constructor.
Defined.

(** Thread 1 acquires lock 16 and blocks on lock 32. *)
Definition two_locks : list lockdep_node :=
  [mk_node 16 [mk_edge 32 1 None None] 0; mk_node 32 [] 0].

Definition blocked_state : system :=
  mk_system two_locks {[1 := [mk_lock 16 None; mk_lock 32 None]]} {[1 := 32]}.

Lemma blocked_reachable : rtc sys_step sys_start blocked_state.
Proof.
  eapply rtc_l; [eapply (sys_acquire _ 1 16 None []);
    [reflexivity|vm_compute; reflexivity|reflexivity]|].
  eapply rtc_l; [eapply (sys_granted _ 1 16); reflexivity|].
  eapply rtc_l; [eapply (sys_acquire _ 1 32 None []);
    [reflexivity|vm_compute; reflexivity|reflexivity]|].
  match goal with |- rtc _ ?s _ => replace s with blocked_state by reflexivity end.
  done.
Qed.

Lemma lockdep_no_deadlock_witness : ¬ tc (waits_for blocked_state) 1 1.
Proof. apply (lockdep_no_deadlock blocked_state 1). apply blocked_reachable. Defined.
