(* ===== verification/Refcount.v ===== *)
(** core/kernel/refcount.c: reference counting with compare-and-swap loops,
    run by any number of threads at once.

    One iteration of each loop is a function; the interleaving of the atomic
    accesses is a step relation over the counter and the calls in progress.
    [atomic_cas_uint] is the weak compare-exchange of the compiler, which may
    also fail when the value is the expected one. *)
From S2P Require Import Prelude.

(** What an iteration of a loop does: return, update the counter and return,
    or go round again. *)
Inductive iteration :=
| Return (r : bool)
| Cas (nval : Z) (r : bool)
| AssertFails.

(** The body of the loop of [refcount_inc], given [oval]. *)
Definition refcount_inc_body (oval : Z) : iteration :=
  let nval := u32 (oval + 1) in
  if oval =? 0 then Return false else Cas nval true.

(** The body of the loop of [refcount_dec]. *)
Definition refcount_dec_body (oval : Z) : iteration :=
  if oval =? 0 then AssertFails else
  let nval := u32 (oval - 1) in Cas nval (nval =? 0).

Definition refcount_set (val : Z) : Z := u32 val.

Definition refcount_val (val : Z) : Z := val.

(** [incs] and [decs] are the [oval] of each call in progress. [refs] counts
    the references nobody is giving back yet and [last] the calls of
    [refcount_dec] that returned [true]: neither is in memory. *)
Record rc_state := mk_rc {
  val : Z;
  incs : list Z;
  decs : list Z;
  refs : nat;
  last : nat;
}.

(** Remove the call at position [i]. *)
Definition drop_at (i : nat) (l : list Z) : list Z := delete i l.

Inductive rc_step : rc_state → rc_state → Prop :=
| inc_load s :
    rc_step s (mk_rc (val s) (incs s ++ [val s]) (decs s) (refs s) (last s))
| inc_return s i oval :
    incs s !! i = Some oval → refcount_inc_body oval = Return false →
    rc_step s (mk_rc (val s) (drop_at i (incs s)) (decs s) (refs s) (last s))
| inc_cas s i oval nval r :
    incs s !! i = Some oval → refcount_inc_body oval = Cas nval r → val s = oval →
    rc_step s (mk_rc nval (drop_at i (incs s)) (decs s) (S (refs s)) (last s))
| inc_again s i oval nval r :
    incs s !! i = Some oval → refcount_inc_body oval = Cas nval r →
    rc_step s (mk_rc (val s) (<[i:=val s]> (incs s)) (decs s) (refs s) (last s))
(** Only the owner of a reference gives it back. *)
| dec_load s n :
    refs s = S n →
    rc_step s (mk_rc (val s) (incs s) (decs s ++ [val s]) n (last s))
| dec_cas s i oval nval r :
    decs s !! i = Some oval → refcount_dec_body oval = Cas nval r → val s = oval →
    rc_step s (mk_rc nval (incs s) (drop_at i (decs s)) (refs s)
                 (if r then S (last s) else last s))
| dec_again s i oval nval r :
    decs s !! i = Some oval → refcount_dec_body oval = Cas nval r →
    rc_step s (mk_rc (val s) (incs s) (<[i:=val s]> (decs s)) (refs s) (last s)).

(** As many references as a [uint32_t] can count. *)
Definition rc_bounded (s : rc_state) : Prop :=
  Z.of_nat (refs s + length (decs s)) < UINT32_MAX.

Definition rc_run : rc_state → rc_state → Prop :=
  rtc (λ s s', rc_bounded s ∧ rc_step s s').

(** After [refcount_set(r, 1)]. *)
Definition rc_start : rc_state := mk_rc (refcount_set 1) [] [] 1 0.

(** ** Correctness *)

Record rc_ok (s : rc_state) : Prop := {
  rc_val : val s = Z.of_nat (refs s + length (decs s));
  rc_u32 : 0 ≤ val s < 2 ^ 32;
  rc_decs : Forall (λ o, 0 < o < 2 ^ 32) (decs s);
  rc_incs : Forall (λ o, 0 ≤ o < 2 ^ 32) (incs s);
  rc_last : last s = if val s =? 0 then 1%nat else 0%nat;
}.

Lemma length_drop_at i l x : l !! i = Some x → S (length (drop_at i l)) = length l.
Proof.
  intros H. pose proof (lookup_lt_Some _ _ _ H).
  unfold drop_at. rewrite length_delete by (by exists x). lia.
Qed.

Lemma inc_cas_inv o n r :
  0 ≤ o < UINT32_MAX → refcount_inc_body o = Cas n r → n = o + 1 ∧ 0 < o.
Proof.
  unfold refcount_inc_body, UINT32_MAX. intros H E.
  destruct (o =? 0) eqn:Z0; breflect; [done|]. injection E as <- _.
  split; [apply u32_id; lia|lia].
Qed.

Lemma dec_cas_inv o n r :
  0 ≤ o < 2 ^ 32 → refcount_dec_body o = Cas n r → n = o - 1 ∧ 0 < o ∧ r = (n =? 0).
Proof.
  unfold refcount_dec_body. intros H E.
  destruct (o =? 0) eqn:Z0; breflect; [done|]. injection E as <- <-.
  rewrite u32_id by lia. split_and!; [done|lia|done].
Qed.

Lemma rc_step_ok s s' : rc_bounded s → rc_step s s' → rc_ok s → rc_ok s'.
Proof.
  unfold rc_bounded, UINT32_MAX.
  intros B S [V U D I L]. destruct S as [s|s i o Hi E|s i o n r Hi E Ev|s i o n r Hi E
    |s n Hn|s i o n r Hi E Ev|s i o n r Hi E]; split; simpl; try done.
  - apply Forall_app. split; [done|]. by constructor.
  - by apply Forall_delete.
  - destruct (inc_cas_inv o _ _ ltac:(unfold UINT32_MAX; lia) E) as [-> ?]. lia.
  - destruct (inc_cas_inv o _ _ ltac:(unfold UINT32_MAX; lia) E) as [-> ?]. lia.
  - by apply Forall_delete.
  - destruct (inc_cas_inv o _ _ ltac:(unfold UINT32_MAX; lia) E) as [-> ?].
    rewrite L, (proj2 (Z.eqb_neq (val s) 0)) by lia.
    by rewrite (proj2 (Z.eqb_neq (o + 1) 0)) by lia.
  - by apply Forall_insert.
  - rewrite length_app. simpl. lia.
  - apply Forall_app. split; [done|]. constructor; [lia|done].
  - pose proof (length_drop_at _ _ _ Hi). destruct (dec_cas_inv o _ _ ltac:(lia) E). lia.
  - destruct (dec_cas_inv o _ _ ltac:(lia) E). lia.
  - by apply Forall_delete.
  - destruct (dec_cas_inv o _ _ ltac:(lia) E) as (-> & ? & ->).
    rewrite L, (proj2 (Z.eqb_neq (val s) 0)) by lia. done.
  - by rewrite length_insert.
  - apply Forall_insert; [done|].
    pose proof (proj1 (Forall_lookup _ _) D _ _ Hi). pose proof (lookup_lt_Some _ _ _ Hi).
    lia.
Qed.

Lemma rc_start_ok : rc_ok rc_start.
Proof. split; simpl; try done. Qed.

Lemma rc_run_ok s : rc_run rc_start s → rc_ok s.
Proof.
  intros R. assert (rc_ok rc_start) as H by apply rc_start_ok.
  induction R as [|s1 s2 s3 [B S] R IH]; eauto using rc_step_ok.
Qed.

(** C37: however the calls interleave, the counter is the number of references
    that are held or being given back, no assertion of [refcount_dec] fails,
    and exactly one call of [refcount_dec] reports the last reference, which it
    does when the counter reaches zero. *)
Theorem refcount_correct s :
  rc_run rc_start s →
  val s = Z.of_nat (refs s + length (decs s)) ∧
  (∀ i oval, decs s !! i = Some oval → refcount_dec_body oval ≠ AssertFails) ∧
  last s = if val s =? 0 then 1%nat else 0%nat.
Proof.
  intros R. destruct (rc_run_ok s R) as [V U D I L]. split_and!; [done| |done].
  intros i o Hi. pose proof (proj1 (Forall_lookup _ _) D _ _ Hi) as Ho. simpl in Ho.
  unfold refcount_dec_body. by rewrite (proj2 (Z.eqb_neq o 0)) by lia.
Qed.

(** a counter that has reached zero stays there: whatever the calls still in
    progress do, [refcount_inc] cannot bring the object back. *)
Theorem refcount_no_resurrection s s' :
  rc_run rc_start s → val s = 0 → rc_run s s' → val s' = 0 ∧ last s' = 1%nat.
Proof.
  intros R Z0 R'. assert (rc_ok s) as Ok by by apply rc_run_ok.
  assert (rc_ok s' ∧ val s' = 0) as [Ok' E].
  { clear R. induction R' as [|s1 s2 s3 [B S] R' IH]; [done|].
    apply IH; [|by eapply rc_step_ok].
    destruct S as [s|s i o Hi E|s i o n r Hi E Ev|s i o n r Hi E
      |s n Hn|s i o n r Hi E Ev|s i o n r Hi E]; simpl in *; try done.
    - destruct Ok. destruct (inc_cas_inv o n r) as [-> ?]; unfold UINT32_MAX; try lia. done.
    - destruct Ok. destruct (dec_cas_inv o n r) as (-> & ? & _); try lia. done. }
  split; [done|]. rewrite (rc_last _ Ok'), E. done.
Qed.

(** One reference is taken and both are given back, with the second
    [refcount_dec] losing a race. *)
Definition rc_end : rc_state := mk_rc 0 [] [] 0 1.

Lemma rc_end_reachable : rc_run rc_start rc_end.
Proof.
  unfold rc_run, rc_start.
  eapply rtc_l; [split; [done|apply inc_load]|simpl].
  eapply rtc_l; [split; [done|by eapply (inc_cas _ 0)]|simpl].
  eapply rtc_l; [split; [done|by apply (dec_load _ 1)]|simpl].
  eapply rtc_l; [split; [done|by apply (dec_load _ 0)]|simpl].
  eapply rtc_l; [split; [done|by eapply (dec_cas _ 0)]|simpl].
  eapply rtc_l; [split; [done|by eapply (dec_again _ 0)]|simpl].
  eapply rtc_l; [split; [done|by eapply (dec_cas _ 0)]|simpl].
  done.
Qed.

Lemma refcount_correct_witness :
  val rc_end = Z.of_nat (refs rc_end + length (decs rc_end)) ∧
  (∀ i oval, decs rc_end !! i = Some oval → refcount_dec_body oval ≠ AssertFails) ∧
  last rc_end = if val rc_end =? 0 then 1%nat else 0%nat.
Proof. apply (refcount_correct rc_end). apply rc_end_reachable. Defined.

Lemma refcount_no_resurrection_witness : val rc_end = 0 ∧ last rc_end = 1%nat.
Proof.
  apply (refcount_no_resurrection rc_end rc_end); [apply rc_end_reachable|done|].
  apply rtc_refl.
Defined.
