(* ===== verification/TeePobj.v ===== *)
(** The open persistent objects of the core, core/tee/tee_pobj.c: a list of the
    objects that are open, with a reference count, and the rules that decide
    which handles may share an object. *)
From S2P Require Import Prelude Bytes.

Definition TEE_DATA_FLAG_ACCESS_READ : Z := 0x00000001.

Definition TEE_DATA_FLAG_ACCESS_WRITE : Z := 0x00000002.

Definition TEE_DATA_FLAG_ACCESS_WRITE_META : Z := 0x00000004.

Definition TEE_DATA_FLAG_SHARE_READ : Z := 0x00000010.

Definition TEE_DATA_FLAG_SHARE_WRITE : Z := 0x00000020.

Definition TEE_DATA_FLAG_OVERWRITE : Z := 0x00000400.

(** [struct tee_pobj]; [po_id] has [obj_id_len] bytes, [po_fops] is the address
    of the file operations. The field [obj_info_usage] is its users'. *)
Record tee_pobj := mk_pobj {
  refcnt : Z;
  po_uuid : list Z;
  po_id : list Z;
  po_flags : Z;
  temporary : bool;
  creating : bool;
  po_fops : Z;
}.

Inductive tee_pobj_usage :=
| TEE_POBJ_USAGE_OPEN
| TEE_POBJ_USAGE_RENAME
| TEE_POBJ_USAGE_CREATE
| TEE_POBJ_USAGE_ENUM.

(** [tee_pobjs]: the objects with their addresses, in the order of the list. *)
Definition pobjs : Type := list (Z * tee_pobj).

Definition pobj_need_usage_lock (obj : tee_pobj) : bool :=
  has_flag (po_flags obj) (Z.lor TEE_DATA_FLAG_SHARE_WRITE TEE_DATA_FLAG_SHARE_READ).

(** A right that either side has needs the permission of both, and both must
    agree on it. *)
Definition check_share (access share oflags nflags : Z) : bool :=
  (negb (has_flag oflags access || has_flag nflags access) ||
     (has_flag nflags share && has_flag oflags share)) &&
  Bool.eqb (has_flag nflags share) (has_flag oflags share).

Definition tee_pobj_check_access (oflags nflags : Z) : Z :=
  if has_flag oflags TEE_DATA_FLAG_ACCESS_WRITE_META ||
     has_flag nflags TEE_DATA_FLAG_ACCESS_WRITE_META
  then TEE_ERROR_ACCESS_CONFLICT
  else if negb (check_share TEE_DATA_FLAG_ACCESS_READ TEE_DATA_FLAG_SHARE_READ oflags nflags)
  then TEE_ERROR_ACCESS_CONFLICT
  else if negb (check_share TEE_DATA_FLAG_ACCESS_WRITE TEE_DATA_FLAG_SHARE_WRITE oflags nflags)
  then TEE_ERROR_ACCESS_CONFLICT
  else TEE_SUCCESS.

(** [find]: the last object of the list with the name. *)
Definition same_pobj (uuid id : list Z) (fops : Z) (o : tee_pobj) : bool :=
  bool_decide (length id = length (po_id o)) && bool_decide (id = po_id o) &&
  bool_decide (uuid = po_uuid o) && (fops =? po_fops o).

Fixpoint find_pobj (uuid id : list Z) (fops : Z) (l : pobjs) (obj : option (Z * tee_pobj))
  : option (Z * tee_pobj) :=
  match l with
  | [] => obj
  | (p, o) :: l => find_pobj uuid id fops l (if same_pobj uuid id fops o then Some (p, o) else obj)
  end.

(** An update of the object at an address. *)
Definition upd_pobj (p : Z) (f : tee_pobj → tee_pobj) (l : pobjs) : pobjs :=
  (λ '(q, o), (q, if q =? p then f o else o)) <$> l.

Definition set_refcnt (n : Z) (o : tee_pobj) : tee_pobj :=
  mk_pobj n (po_uuid o) (po_id o) (po_flags o) (temporary o) (creating o) (po_fops o).

Definition is_create (usage : tee_pobj_usage) : bool :=
  match usage with TEE_POBJ_USAGE_CREATE => true | _ => false end.

Definition is_enum (usage : tee_pobj_usage) : bool :=
  match usage with TEE_POBJ_USAGE_ENUM => true | _ => false end.

(** [calloc] answers the address of the new object or NULL, [malloc] whether
    there is room for the name. The result, [*obj] and the list. *)
Definition tee_pobj_get (uuid id : list Z) (flags : Z) (usage : tee_pobj_usage) (fops : Z)
    (calloc : option Z) (malloc : bool) (l : pobjs) : Z * option Z * pobjs :=
  match find_pobj uuid id fops l None with
  | Some (p, o) =>
      let got := (TEE_SUCCESS, Some p, upd_pobj p (λ o, set_refcnt (u32 (refcnt o + 1)) o) l) in
      if is_enum usage then got else
      if creating o || (is_create usage && negb (has_flag flags TEE_DATA_FLAG_OVERWRITE))
      then (TEE_ERROR_ACCESS_CONFLICT, None, l) else
      let res := tee_pobj_check_access (po_flags o) flags in
      if res =? TEE_SUCCESS then got else (res, None, l)
  | None =>
      match calloc with
      | None => (TEE_ERROR_OUT_OF_MEMORY, None, l)
      | Some p =>
          if negb malloc then (TEE_ERROR_OUT_OF_MEMORY, None, l) else
          let o := mk_pobj 1 uuid id flags (is_create usage) (is_create usage) fops in
          (TEE_SUCCESS, Some p, l ++ [(p, o)])
      end
  end.

Definition tee_pobj_create_final (p : Z) (l : pobjs) : pobjs :=
  upd_pobj p (λ o, mk_pobj (refcnt o) (po_uuid o) (po_id o) (po_flags o) false false (po_fops o)) l.

(** The object at an address; [None] is a dangling pointer. *)
Fixpoint pobj_at (p : Z) (l : pobjs) : option tee_pobj :=
  match l with
  | [] => None
  | (q, o) :: l => if q =? p then Some o else pobj_at p l
  end.

Fixpoint remove_pobj (p : Z) (l : pobjs) : pobjs :=
  match l with
  | [] => []
  | (q, o) :: l => if q =? p then l else (q, o) :: remove_pobj p l
  end.

Definition tee_pobj_release (obj : option Z) (l : pobjs) : outcome (Z * pobjs) :=
  match obj with
  | None => Done (TEE_ERROR_BAD_PARAMETERS, l)
  | Some p =>
      match pobj_at p l with
      | None => Undef
      | Some o =>
          let n := u32 (refcnt o - 1) in
          Done (TEE_SUCCESS, if n =? 0 then remove_pobj p l else upd_pobj p (set_refcnt n) l)
      end
  end.

Definition set_id (id : list Z) (o : tee_pobj) : tee_pobj :=
  mk_pobj (refcnt o) (po_uuid o) id (po_flags o) (temporary o) (creating o) (po_fops o).

Definition tee_pobj_rename (obj : option Z) (id : option (list Z)) (malloc : bool) (l : pobjs)
  : outcome (Z * pobjs) :=
  match obj, id with
  | Some p, Some id =>
      match pobj_at p l with
      | None => Undef
      | Some o =>
          if negb (refcnt o =? 1) then Done (TEE_ERROR_BAD_STATE, l) else
          if negb malloc then Done (TEE_ERROR_OUT_OF_MEMORY, l) else
          Done (TEE_SUCCESS, upd_pobj p (set_id id) l)
      end
  | _, _ => Done (TEE_ERROR_BAD_PARAMETERS, l)
  end.

(** What [syscall_storage_obj_rename] does to the objects, from the reservation
    of the new name on; [p] is the object of the handle, [moved] the answer of
    [fops->rename]. *)
Definition syscall_storage_obj_rename (uuid id : list Z) (p : Z) (calloc : option Z)
    (malloc malloc2 : bool) (moved : Z) (l : pobjs) : outcome (Z * pobjs) :=
  match pobj_at p l with
  | None => Undef
  | Some o =>
      let '(res, po, l) := tee_pobj_get uuid id TEE_DATA_FLAG_ACCESS_WRITE_META TEE_POBJ_USAGE_RENAME
                             (po_fops o) calloc malloc l in
      '(res, l) ←
        (if negb (res =? TEE_SUCCESS) then Done (res, l) else
         if negb (moved =? TEE_SUCCESS) then Done (moved, l) else
         match po with
         | None => Undef
         | Some q =>
             match pobj_at q l with
             | None => Undef
             | Some on => tee_pobj_rename (Some p) (Some (po_id on)) malloc2 l
             end
         end);
      '(_, l) ← tee_pobj_release po l;
      Done (res, l)
  end.

(** ** Handles

    What [tee_pobj_get] was asked for, one for each success that was not
    released yet. *)
Record handle := mk_handle { h_ptr : Z; h_flags : Z; h_usage : tee_pobj_usage }.

Definition h_enum (h : handle) : bool := is_enum (h_usage h).

Definition is_rename (usage : tee_pobj_usage) : bool :=
  match usage with TEE_POBJ_USAGE_RENAME => true | _ => false end.

(** A handle of a trusted application, from opening or creating an object. *)
Definition h_app (h : handle) : bool := negb (h_enum h) && negb (is_rename (h_usage h)).

(** [spent] are the addresses of the objects that reserved a name which a
    rename has given to another object since. *)
Record pobj_state := mk_state { objs : pobjs; handles : list handle; spent : list Z }.

(** What is left of a list of addresses. *)
Definition live_of (l : pobjs) (ps : list Z) : list Z := filter (λ p, is_Some (pobj_at p l)) ps.

(** A new object has an address of its own. *)
Definition fresh (calloc : option Z) (l : pobjs) : Prop :=
  ∀ p, calloc = Some p → pobj_at p l = None.

(** The calls, one at a time, in any order: every function holds [pobjs_mutex].
    [syscall_storage_obj_rename] takes three of them: it reserves the new name
    with [tee_pobj_get] as a name to be written exclusively ([step_get]); when
    the file is renamed it gives the name of the reservation [hn] to the object
    of its handle [h], which it may do once ([step_rename]); and it releases the
    reservation ([step_release]), also when something failed. *)
Inductive pobj_step : pobj_state → pobj_state → Prop :=
| step_get uuid id flags usage fops calloc malloc l hs sp p l' :
    fresh calloc l → Z.of_nat (length hs) < UINT32_MAX →
    (is_rename usage = true → flags = TEE_DATA_FLAG_ACCESS_WRITE_META) →
    tee_pobj_get uuid id flags usage fops calloc malloc l = (TEE_SUCCESS, Some p, l') →
    pobj_step (mk_state l hs sp) (mk_state l' (hs ++ [mk_handle p flags usage]) sp)
| step_get_fails uuid id flags usage fops calloc malloc l hs sp res l' :
    fresh calloc l →
    tee_pobj_get uuid id flags usage fops calloc malloc l = (res, None, l') →
    pobj_step (mk_state l hs sp) (mk_state l' hs sp)
| step_final l h hs sp :
    h ∈ hs → pobj_step (mk_state l hs sp) (mk_state (tee_pobj_create_final (h_ptr h) l) hs sp)
| step_release l h hs1 hs2 sp res l' :
    tee_pobj_release (Some (h_ptr h)) l = Done (res, l') →
    pobj_step (mk_state l (hs1 ++ h :: hs2) sp) (mk_state l' (hs1 ++ hs2) (live_of l' sp))
| step_rename l h hn hs sp malloc o on res l' :
    h ∈ hs → h_app h = true → has_flag (h_flags h) TEE_DATA_FLAG_ACCESS_WRITE_META = true →
    hn ∈ hs → is_rename (h_usage hn) = true → h_ptr hn ∉ sp →
    pobj_at (h_ptr h) l = Some o → pobj_at (h_ptr hn) l = Some on →
    po_uuid on = po_uuid o → po_fops on = po_fops o →
    tee_pobj_rename (Some (h_ptr h)) (Some (po_id on)) malloc l = Done (res, l') →
    pobj_step (mk_state l hs sp)
      (mk_state l' hs (if res =? TEE_SUCCESS then h_ptr hn :: sp else sp)).

Inductive pobj_reachable : pobj_state → Prop :=
| reach_start : pobj_reachable (mk_state [] [] [])
| reach_step s s' : pobj_reachable s → pobj_step s s' → pobj_reachable s'.

(** What the specification of the TEE API asks of two handles of an object. *)
Definition may_share (f1 f2 : Z) : Prop :=
  has_flag f1 TEE_DATA_FLAG_ACCESS_WRITE_META = false ∧
  has_flag f2 TEE_DATA_FLAG_ACCESS_WRITE_META = false ∧
  (has_flag f1 TEE_DATA_FLAG_ACCESS_READ = true ∨ has_flag f2 TEE_DATA_FLAG_ACCESS_READ = true →
   has_flag f1 TEE_DATA_FLAG_SHARE_READ = true ∧ has_flag f2 TEE_DATA_FLAG_SHARE_READ = true) ∧
  (has_flag f1 TEE_DATA_FLAG_ACCESS_WRITE = true ∨ has_flag f2 TEE_DATA_FLAG_ACCESS_WRITE = true →
   has_flag f1 TEE_DATA_FLAG_SHARE_WRITE = true ∧ has_flag f2 TEE_DATA_FLAG_SHARE_WRITE = true) ∧
  has_flag f1 TEE_DATA_FLAG_SHARE_READ = has_flag f2 TEE_DATA_FLAG_SHARE_READ ∧
  has_flag f1 TEE_DATA_FLAG_SHARE_WRITE = has_flag f2 TEE_DATA_FLAG_SHARE_WRITE.

(** ** Lists of objects *)

Definition addrs (l : pobjs) : list Z := fst <$> l.

Lemma pobj_at_addrs p l : is_Some (pobj_at p l) ↔ p ∈ addrs l.
Proof.
  induction l as [|[q o] l IH]; simpl; [by split; [intros []|intros ?%elem_of_nil]|].
  rewrite elem_of_cons. destruct (Z.eqb_spec q p); naive_solver.
Qed.

Lemma pobj_at_in p o l : pobj_at p l = Some o → (p, o) ∈ l.
Proof.
  induction l as [|[q o'] l IH]; simpl; [done|]. rewrite elem_of_cons.
  destruct (Z.eqb_spec q p); naive_solver.
Qed.

Lemma pobj_at_nodup p o l : NoDup (addrs l) → (p, o) ∈ l → pobj_at p l = Some o.
Proof.
  induction l as [|[q o'] l IH]; simpl; [by intros _ ?%elem_of_nil|].
  intros [Nq N]%NoDup_cons. rewrite elem_of_cons. destruct (Z.eqb_spec q p) as [->|D].
  - intros [[= ->]|Hin]; [done|]. destruct Nq. apply list_elem_of_fmap. by exists (p, o).
  - intros [[= ? ?]|]; [congruence|auto].
Qed.

Lemma addrs_upd p f l : addrs (upd_pobj p f l) = addrs l.
Proof. unfold addrs, upd_pobj. rewrite <- list_fmap_compose. by apply list_fmap_ext; intros ? [] _. Qed.

Lemma pobj_at_upd p f l q :
  pobj_at q (upd_pobj p f l) = (if q =? p then f <$> pobj_at q l else pobj_at q l).
Proof.
  induction l as [|[r o] l IH]; simpl; [by destruct (q =? p)|]. fold (upd_pobj p f l).
  destruct (Z.eqb_spec r q) as [->|], (Z.eqb_spec q p); try done; rewrite IH; done.
Qed.

Lemma pobj_at_app l p o q :
  pobj_at q (l ++ [(p, o)]) =
  match pobj_at q l with Some o' => Some o' | None => if p =? q then Some o else None end.
Proof.
  induction l as [|[r o'] l IH]; simpl; [done|]. by destruct (r =? q).
Qed.

Lemma pobj_at_remove l p q :
  NoDup (addrs l) → pobj_at q (remove_pobj p l) = if p =? q then None else pobj_at q l.
Proof.
  induction l as [|[r o] l IH]; simpl; [by destruct (p =? q)|]. intros [Nr N]%NoDup_cons.
  destruct (Z.eqb_spec r p) as [->|D1]; simpl.
  - destruct (Z.eqb_spec p q) as [->|]; [|done].
    destruct (pobj_at q l) eqn:E; [|done]. destruct Nr. apply pobj_at_addrs. by eexists.
  - rewrite IH by done. by destruct (Z.eqb_spec p q) as [->|], (Z.eqb_spec r q).
Qed.

Lemma addrs_remove p l : NoDup (addrs l) → NoDup (addrs (remove_pobj p l)).
Proof.
  intros N. assert (S : remove_pobj p l `sublist_of` l).
  { clear N. induction l as [|[q o] l IH]; simpl; [done|].
    destruct (q =? p); by constructor. }
  eapply sublist_NoDup; [exact N|]. by apply fmap_sublist.
Qed.

Lemma find_pobj_spec uuid id fops l acc :
  match find_pobj uuid id fops l acc with
  | Some (p, o) => acc = Some (p, o) ∨ (p, o) ∈ l ∧ same_pobj uuid id fops o = true
  | None => acc = None ∧ ∀ p o, (p, o) ∈ l → same_pobj uuid id fops o = false
  end.
Proof.
  revert acc. induction l as [|[q o] l IH]; intros acc; simpl.
  { destruct acc as [[]|]; [by left|]. split; [done|]. by intros ? ? ?%elem_of_nil. }
  specialize (IH (if same_pobj uuid id fops o then Some (q, o) else acc)).
  destruct (same_pobj uuid id fops o) eqn:S; destruct (find_pobj _ _ _ l _) as [[p' o']|];
    setoid_rewrite elem_of_cons; naive_solver.
Qed.

Lemma same_pobj_true uuid id fops o :
  same_pobj uuid id fops o = true ↔ (po_uuid o, po_id o, po_fops o) = (uuid, id, fops).
Proof.
  unfold same_pobj. rewrite !andb_true_iff, !bool_decide_eq_true, Z.eqb_eq.
  split; [intros [[[? ->] ->] ->]; done|intros [= -> -> ->]; done].
Qed.

(** ** Sharing *)

Lemma check_share_spec access share f1 f2 :
  check_share access share f1 f2 = true ↔
  (has_flag f1 access = true ∨ has_flag f2 access = true →
   has_flag f1 share = true ∧ has_flag f2 share = true) ∧
  has_flag f1 share = has_flag f2 share.
Proof.
  unfold check_share. destruct (has_flag f1 access), (has_flag f2 access),
    (has_flag f1 share), (has_flag f2 share); simpl; naive_solver.
Qed.

Lemma check_access_iff f1 f2 : tee_pobj_check_access f1 f2 = TEE_SUCCESS ↔ may_share f1 f2.
Proof.
  unfold tee_pobj_check_access, may_share.
  pose proof (check_share_spec TEE_DATA_FLAG_ACCESS_READ TEE_DATA_FLAG_SHARE_READ f1 f2) as R.
  pose proof (check_share_spec TEE_DATA_FLAG_ACCESS_WRITE TEE_DATA_FLAG_SHARE_WRITE f1 f2) as W.
  destruct (has_flag f1 TEE_DATA_FLAG_ACCESS_WRITE_META); [naive_solver|].
  destruct (has_flag f2 TEE_DATA_FLAG_ACCESS_WRITE_META); [naive_solver|]. simpl.
  destruct (check_share TEE_DATA_FLAG_ACCESS_READ TEE_DATA_FLAG_SHARE_READ f1 f2); simpl;
    [destruct (check_share TEE_DATA_FLAG_ACCESS_WRITE TEE_DATA_FLAG_SHARE_WRITE f1 f2); simpl|];
    (split; [try (intros [=]); tauto|intros S; try done]); exfalso; tauto || naive_solver.
Qed.

Lemma may_share_sym f1 f2 : may_share f1 f2 → may_share f2 f1.
Proof. unfold may_share. intuition congruence. Qed.

(** Handles that may share with the first one may share with each other. *)
Lemma may_share_trans f f1 f2 : may_share f f1 → may_share f f2 → may_share f1 f2.
Proof. unfold may_share. intuition congruence. Qed.

Lemma sublist_single {A} (x : A) l : [x] `sublist_of` l → x ∈ l.
Proof. intros S%sublist_submseteq. eapply elem_of_submseteq; [|exact S]. by apply list_elem_of_singleton. Qed.

Definition of_pobj (p : Z) (h : handle) : Prop := h_ptr h = p.

#[global] Instance of_pobj_dec p h : Decision (of_pobj p h).
Proof. unfold of_pobj. apply _. Defined.

Definition handle_count (p : Z) (hs : list handle) : Z := Z.of_nat (length (filter (of_pobj p) hs)).

Lemma handle_count_app p l1 l2 : handle_count p (l1 ++ l2) = handle_count p l1 + handle_count p l2.
Proof. unfold handle_count. rewrite filter_app, length_app. lia. Qed.

Lemma handle_count_cons p h l :
  handle_count p (h :: l) = (if h_ptr h =? p then 1 else 0) + handle_count p l.
Proof.
  unfold handle_count. rewrite filter_cons. unfold of_pobj.
  case_decide; destruct (Z.eqb_spec (h_ptr h) p); simpl; try done; lia.
Qed.

Lemma handle_count_elem p l : 0 < handle_count p l ↔ ∃ h, h ∈ l ∧ h_ptr h = p.
Proof.
  induction l as [|h l IH]; [split; [done|by intros (?&?%elem_of_nil&?)]|].
  rewrite handle_count_cons. setoid_rewrite elem_of_cons.
  pose proof (Nat2Z.is_nonneg (length (filter (of_pobj p) l))) as N. fold (handle_count p l) in N.
  destruct (Z.eqb_spec (h_ptr h) p); [split; [intros _; eauto|intros _; lia]|].
  rewrite Z.add_0_l, IH. naive_solver.
Qed.

Lemma handle_count_le p l : 0 ≤ handle_count p l ≤ Z.of_nat (length l).
Proof. unfold handle_count. pose proof (length_filter (of_pobj p) l). lia. Qed.

(** The handles of an object are counted, the first to open it fixed its
    flags, and any two of them may share it. *)
Record pobj_inv (s : pobj_state) : Prop := {
  v_nodup : NoDup (addrs (objs s));
  v_names : ∀ p q o o', pobj_at p (objs s) = Some o → pobj_at q (objs s) = Some o' →
    (po_uuid o, po_id o, po_fops o) = (po_uuid o', po_id o', po_fops o') →
    p = q ∨ p ∈ spent s ∨ q ∈ spent s;
  v_spent : ∀ p, p ∈ spent s → ∃ o, pobj_at p (objs s) = Some o ∧
    has_flag (po_flags o) TEE_DATA_FLAG_ACCESS_WRITE_META = true;
  v_app : ∀ h, h ∈ handles s → h_app h = true → h_ptr h ∉ spent s;
  v_reserve : ∀ h, h ∈ handles s → is_rename (h_usage h) = true →
    has_flag (h_flags h) TEE_DATA_FLAG_ACCESS_WRITE_META = true;
  v_live : ∀ h, h ∈ handles s → is_Some (pobj_at (h_ptr h) (objs s));
  v_count : ∀ p o, pobj_at p (objs s) = Some o →
    refcnt o = handle_count p (handles s) ∧ 0 < refcnt o ≤ UINT32_MAX;
  v_flags : ∀ h o, h ∈ handles s → h_enum h = false → pobj_at (h_ptr h) (objs s) = Some o →
    h_flags h = po_flags o ∨ may_share (po_flags o) (h_flags h);
  v_share : ∀ h1 h2, [h1; h2] `sublist_of` handles s → h_ptr h1 = h_ptr h2 →
    h_enum h1 = false → h_enum h2 = false → may_share (h_flags h1) (h_flags h2);
}.

(** A change of an object that keeps its count and flags. *)
Lemma inv_upd p f l hs sp sp' :
  (∀ o, refcnt (f o) = refcnt o ∧ po_flags (f o) = po_flags o) →
  (∀ q, q ∈ sp → q ∈ sp') →
  (∀ q, q ∈ sp' → ∃ o, pobj_at q l = Some o ∧
     has_flag (po_flags o) TEE_DATA_FLAG_ACCESS_WRITE_META = true) →
  (∀ h, h ∈ hs → h_app h = true → h_ptr h ∉ sp') →
  (∀ o q o', pobj_at p l = Some o → pobj_at q l = Some o' → q ≠ p →
     (po_uuid (f o), po_id (f o), po_fops (f o)) = (po_uuid o', po_id o', po_fops o') →
     p ∈ sp' ∨ q ∈ sp') →
  pobj_inv (mk_state l hs sp) → pobj_inv (mk_state (upd_pobj p f l) hs sp').
Proof.
  intros Hf Hsp Hw Ha Hn [N Nm W A Rs L C F S]. simpl in *.
  assert (At : ∀ q o, pobj_at q (upd_pobj p f l) = Some o →
    ∃ o', pobj_at q l = Some o' ∧ o = if q =? p then f o' else o').
  { intros q o. rewrite pobj_at_upd. destruct (q =? p), (pobj_at q l); naive_solver. }
  split; simpl; [by rewrite addrs_upd| | |done|done| | | |done].
  - intros q r o o' (o1 & E1 & ->)%At (o2 & E2 & ->)%At E.
    destruct (Z.eqb_spec q p) as [->|], (Z.eqb_spec r p) as [->|]; [by left| | |].
    + right. by apply (Hn o1 r o2).
    + right. destruct (Hn o2 q o1); auto.
    + destruct (Nm q r o1 o2) as [|[|]]; auto.
  - intros q Hq. destruct (Hw q Hq) as (o & E & Fl). rewrite pobj_at_upd, E.
    destruct (q =? p); [|by exists o]. exists (f o). split; [done|]. by destruct (Hf o) as [_ ->].
  - intros h Hh. rewrite pobj_at_upd. destruct (L h Hh) as [o ->]. by destruct (_ =? _).
  - intros q o (o' & E & ->)%At. specialize (C q o' E). destruct (q =? p); [|done].
    destruct (Hf o') as [-> _]. done.
  - intros h o Hh He (o' & E & ->)%At. specialize (F h o' Hh He E).
    destruct (_ =? p); [|done]. destruct (Hf o') as [_ ->]. done.
Qed.

(** One more handle of an object that is open. *)
Lemma inv_another l hs sp p o flags usage :
  pobj_at p l = Some o → Z.of_nat (length hs) < UINT32_MAX →
  (is_enum usage = false → may_share (po_flags o) flags) →
  (is_rename usage = true → has_flag flags TEE_DATA_FLAG_ACCESS_WRITE_META = true) →
  pobj_inv (mk_state l hs sp) →
  pobj_inv (mk_state (upd_pobj p (λ o, set_refcnt (u32 (refcnt o + 1)) o) l)
                     (hs ++ [mk_handle p flags usage]) sp).
Proof.
  intros E Hl Hs Hr [N Nm W A Rs L C F S]. simpl in *. set (f := λ o, _).
  assert (At : ∀ q o, pobj_at q (upd_pobj p f l) = Some o →
    ∃ o', pobj_at q l = Some o' ∧ o = if q =? p then f o' else o').
  { intros q o1. rewrite pobj_at_upd. destruct (q =? p), (pobj_at q l); naive_solver. }
  split; simpl; [by rewrite addrs_upd| | | | | | | |].
  - intros q r o1 o2 (o1' & E1 & ->)%At (o2' & E2 & ->)%At En. apply (Nm q r o1' o2'); [done|done|].
    by destruct (q =? p), (r =? p).
  - intros q Hq. destruct (W q Hq) as (o1 & E1 & Fl). rewrite pobj_at_upd, E1.
    destruct (q =? p); [by exists (f o1)|by exists o1].
  - intros h [Hh| ->%list_elem_of_singleton]%elem_of_app Ha; [by apply A|]. intros Hp. simpl in Hp.
    destruct (W p Hp) as (o1 & E1 & Fl). assert (o1 = o) as -> by congruence.
    apply andb_true_iff in Ha as [Ha _]. apply negb_true_iff in Ha.
    destruct (Hs Ha) as [Fl' _]. congruence.
  - intros h [Hh| ->%list_elem_of_singleton]%elem_of_app; [by apply Rs|done].
  - intros h [Hh| ->%list_elem_of_singleton]%elem_of_app; rewrite pobj_at_upd.
    + destruct (L h Hh) as [o1 ->]. by destruct (_ =? _).
    + simpl. rewrite Z.eqb_refl, E. by eexists.
  - intros q o1 (o' & E1 & ->)%At. destruct (C q o' E1) as [Cq Cb].
    rewrite handle_count_app, handle_count_cons. simpl.
    change (handle_count q []) with 0. rewrite (Z.eqb_sym p q).
    pose proof (handle_count_le q hs). destruct (Z.eqb_spec q p) as [->|]; [|rewrite Cq; lia].
    unfold f. simpl. unfold UINT32_MAX in *. rewrite u32_id by lia. lia.
  - intros h o1 [Hh| ->%list_elem_of_singleton]%elem_of_app He (o' & E1 & ->)%At.
    + specialize (F h o' Hh He E1). by destruct (_ =? p).
    + unfold h_enum in He. simpl in *. assert (o' = o) as -> by congruence. right.
      rewrite Z.eqb_refl. by apply Hs.
  - intros h1 h2 Sub Ep E1 E2.
    apply sublist_app_r in Sub as (k1 & k2 & Ek & S1 & S2).
    apply sublist_cons_r in S2 as [S2|(k' & -> & S2)]; apply sublist_nil_r in S2 as ->.
    { rewrite app_nil_r in Ek. subst k1. by apply S. }
    destruct k1 as [|h1' [|? []]]; simplify_eq/=. unfold h_enum in E2. simpl in E2.
    assert (Hh : h1' ∈ hs) by (by apply (sublist_single h1')).
    destruct (F h1' o Hh E1 ltac:(congruence)) as [-> |M]; [by apply Hs|].
    eapply may_share_trans; [exact M|by apply Hs].
Qed.

Lemma inv_new l hs sp p uuid id flags usage fops :
  pobj_at p l = None → find_pobj uuid id fops l None = None →
  (is_rename usage = true → has_flag flags TEE_DATA_FLAG_ACCESS_WRITE_META = true) →
  pobj_inv (mk_state l hs sp) →
  pobj_inv (mk_state (l ++ [(p, mk_pobj 1 uuid id flags (is_create usage) (is_create usage) fops)])
                     (hs ++ [mk_handle p flags usage]) sp).
Proof.
  intros Ep Ef Hr [N Nm W A Rs L C F S]. simpl in *. set (o := mk_pobj _ _ _ _ _ _ _).
  pose proof (find_pobj_spec uuid id fops l None) as Fs. rewrite Ef in Fs. destruct Fs as [_ Fs].
  assert (New : ∀ q o', pobj_at q l = Some o' →
    (po_uuid o', po_id o', po_fops o') ≠ (uuid, id, fops)).
  { intros q o' E Es%same_pobj_true. apply pobj_at_in in E. by rewrite (Fs _ _ E) in Es. }
  assert (At : ∀ q o', pobj_at q (l ++ [(p, o)]) = Some o' →
    pobj_at q l = Some o' ∧ q ≠ p ∨ q = p ∧ o' = o).
  { intros q o'. rewrite pobj_at_app. destruct (pobj_at q l) eqn:Eq.
    - intros [= ->]. left. split; [done|congruence].
    - destruct (Z.eqb_spec p q); naive_solver. }
  assert (No : ∀ h, h ∈ hs → h_ptr h ≠ p).
  { intros h Hh Eh. destruct (L h Hh) as [? Ex]. congruence. }
  assert (Cp : handle_count p hs = 0).
  { pose proof (handle_count_le p hs). destruct (decide (0 < handle_count p hs)) as [Pc|]; [|lia].
    apply handle_count_elem in Pc as (h & Hh & Eh). by destruct (No h Hh). }
  split; simpl.
  - unfold addrs. rewrite fmap_app. apply NoDup_app. split; [done|]. split; [|apply NoDup_singleton].
    intros q Hq ->%list_elem_of_singleton. apply pobj_at_addrs in Hq as [? Hq]. simpl in Hq. congruence.
  - intros q r o1 o2 [[E1 D1]|[-> ->]]%At [[E2 D2]|[-> ->]]%At En; [by eauto| | |by left].
    + by destruct (New q o1 E1).
    + by destruct (New r o2 E2).
  - intros q Hq. destruct (W q Hq) as (o1 & E1 & Fl). exists o1. by rewrite pobj_at_app, E1.
  - intros h [Hh| ->%list_elem_of_singleton]%elem_of_app Ha; [by apply A|]. simpl. intros Hp.
    destruct (W p Hp) as (o1 & E1 & _). congruence.
  - intros h [Hh| ->%list_elem_of_singleton]%elem_of_app; [by apply Rs|done].
  - intros h [Hh| ->%list_elem_of_singleton]%elem_of_app; rewrite pobj_at_app.
    + by destruct (L h Hh) as [o1 ->].
    + simpl. rewrite Ep, Z.eqb_refl. by eexists.
  - intros q o' Eq. rewrite handle_count_app, handle_count_cons. change (handle_count q []) with 0.
    simpl. destruct (At q o' Eq) as [[E D]|[-> ->]].
    + destruct (C q o' E) as [-> ?]. destruct (Z.eqb_spec p q); [congruence|]. lia.
    + rewrite Z.eqb_refl, Cp. simpl. unfold UINT32_MAX. lia.
  - intros h o' [Hh| ->%list_elem_of_singleton]%elem_of_app He [[E D]|[E ->]]%At;
      [by eauto|by destruct (No h Hh)|done|by left].
  - intros h1 h2 Sub Eh E1 E2.
    apply sublist_app_r in Sub as (k1 & k2 & Ek & S1 & S2).
    apply sublist_cons_r in S2 as [S2|(k' & -> & S2)]; apply sublist_nil_r in S2 as ->.
    { rewrite app_nil_r in Ek. subst k1. by apply S. }
    destruct k1 as [|h1' [|? []]]; simplify_eq/=.
    assert (Hh : h1' ∈ hs) by (by apply (sublist_single h1')).
    by destruct (No h1' Hh).
Qed.

Lemma elem_live l ps p : is_Some (pobj_at p l) → p ∈ live_of l ps ↔ p ∈ ps.
Proof. intros. unfold live_of. rewrite list_elem_of_filter. tauto. Qed.

(** Two handles of an object come in one order or the other. *)
Lemma pair_sublist {A} (x y : A) l :
  x ∈ l → y ∈ l → x ≠ y → [x; y] `sublist_of` l ∨ [y; x] `sublist_of` l.
Proof.
  intros Hx Hy N. apply list_elem_of_split in Hx as (l1 & l2 & ->).
  apply elem_of_app in Hy as [Hy|Hy]; [|apply elem_of_cons in Hy as [->|Hy]; [done|]].
  - right. apply list_elem_of_split in Hy as (l3 & l4 & ->). rewrite <- app_assoc. simpl.
    apply (sublist_inserts_l l3). constructor. apply (sublist_inserts_l l4). constructor.
    apply sublist_nil_l.
  - left. apply list_elem_of_split in Hy as (l3 & l4 & ->).
    apply (sublist_inserts_l l1). constructor. apply (sublist_inserts_l l3). constructor.
    apply sublist_nil_l.
Qed.

(** Nothing shares an object whose name is reserved. *)
Lemma reserve_alone s h hn :
  pobj_inv s → hn ∈ handles s → is_rename (h_usage hn) = true → h ∈ handles s → h_app h = true →
  h_ptr h ≠ h_ptr hn.
Proof.
  intros I Hn Rn Hh Ha Ep. pose proof (v_reserve _ I hn Hn Rn) as Fl.
  apply andb_true_iff in Ha as [E1%negb_true_iff R1%negb_true_iff].
  assert (E2 : h_enum hn = false) by (unfold h_enum; by destruct (h_usage hn)).
  assert (D : h ≠ hn) by congruence.
  destruct (pair_sublist h hn (handles s) Hh Hn D) as [S|S]; eapply (v_share _ I) in S; try done;
    destruct S as (? & ? & _); congruence.
Qed.

Lemma handle_count_split p h hs1 hs2 :
  handle_count p (hs1 ++ h :: hs2) = (if h_ptr h =? p then 1 else 0) + handle_count p (hs1 ++ hs2).
Proof. rewrite !handle_count_app, handle_count_cons. lia. Qed.

Lemma inv_release l h hs1 hs2 sp res l' :
  tee_pobj_release (Some (h_ptr h)) l = Done (res, l') →
  pobj_inv (mk_state l (hs1 ++ h :: hs2) sp) → pobj_inv (mk_state l' (hs1 ++ hs2) (live_of l' sp)).
Proof.
  set (p := h_ptr h). intros E [N Nm W A Rs L C F S]. simpl in *.
  destruct (pobj_at p l) as [o|] eqn:Ep; simplify_eq/=.
  destruct (C p o Ep) as [Co Cb]. rewrite handle_count_split in Co. fold p in Co.
  rewrite Z.eqb_refl in Co. unfold UINT32_MAX in *. rewrite u32_id by lia.
  pose proof (handle_count_le p (hs1 ++ hs2)).
  assert (In : ∀ h', h' ∈ hs1 ++ hs2 → h' ∈ hs1 ++ h :: hs2)
    by (intros h'; rewrite !elem_of_app, elem_of_cons; tauto).
  assert (Sub : hs1 ++ hs2 `sublist_of` hs1 ++ h :: hs2) by (apply sublist_app; [done|by constructor]).
  destruct (Z.eqb_spec (refcnt o - 1) 0) as [Z0|NZ].
  - assert (No : ∀ h', h' ∈ hs1 ++ hs2 → h_ptr h' ≠ p).
    { intros h' Hh Eh. assert (0 < handle_count p (hs1 ++ hs2)); [|lia].
      apply handle_count_elem. by exists h'. }
    assert (At : ∀ q o', pobj_at q (remove_pobj p l) = Some o' → pobj_at q l = Some o' ∧ q ≠ p).
    { intros q o'. rewrite pobj_at_remove by done. by destruct (Z.eqb_spec p q). }
    split; simpl; [by apply addrs_remove| | | | | | | |].
    + intros q r o1 o2 E1' E2' En. destruct (At q o1 E1') as [E1 _], (At r o2 E2') as [E2 _].
      rewrite !elem_live by eauto. by eapply Nm.
    + intros q [[o1 E1'] Hq]%list_elem_of_filter. destruct (At q o1 E1') as [E1 _].
      destruct (W q Hq) as (o2 & E2 & Fl). exists o1. split; [done|]. congruence.
    + intros h' Hh Ha [_ Hp]%list_elem_of_filter. by apply (A h' (In h' Hh)).
    + intros h' Hh. auto.
    + intros h' Hh. rewrite pobj_at_remove by done. pose proof (No h' Hh).
      destruct (Z.eqb_spec p (h_ptr h')); [congruence|]. auto.
    + intros q o' [E D]%At. destruct (C q o' E) as [Cq ?]. rewrite handle_count_split in Cq.
      fold p in Cq. rewrite (proj2 (Z.eqb_neq p q)) in Cq by congruence. unfold UINT32_MAX in *; lia.
    + intros h' o' Hh He [E _]%At. eauto.
    + intros h1 h2 Sb. apply S. by etrans.
  - set (f := set_refcnt (refcnt o - 1)).
    assert (At : ∀ q o', pobj_at q (upd_pobj p f l) = Some o' →
      ∃ o1, pobj_at q l = Some o1 ∧ o' = if q =? p then f o1 else o1).
    { intros q o'. rewrite pobj_at_upd. destruct (q =? p), (pobj_at q l); naive_solver. }
    split; simpl; [by rewrite addrs_upd| | | | | | | |].
    + intros q r o1 o2 E1' E2' En. rewrite !elem_live by eauto.
      destruct (At q o1 E1') as (o1' & E1 & ->), (At r o2 E2') as (o2' & E2 & ->).
      apply (Nm q r o1' o2'); [done|done|]. by destruct (q =? p), (r =? p).
    + intros q [_ Hq]%list_elem_of_filter. destruct (W q Hq) as (o2 & E2 & Fl).
      rewrite pobj_at_upd, E2. destruct (q =? p); [by exists (f o2)|by exists o2].
    + intros h' Hh Ha [_ Hp]%list_elem_of_filter. by apply (A h' (In h' Hh)).
    + intros h' Hh. auto.
    + intros h' Hh. rewrite pobj_at_upd. destruct (L h' (In h' Hh)) as [o1 ->].
      by destruct (_ =? _).
    + intros q o' (o1 & E & ->)%At. destruct (C q o1 E) as [Cq ?]. rewrite handle_count_split in Cq.
      fold p in Cq. rewrite (Z.eqb_sym p q) in Cq. revert Cq.
      destruct (Z.eqb_spec q p) as [->|]; [simpl|unfold UINT32_MAX in *; lia]. intros Cq. unfold UINT32_MAX. assert (o1 = o) as -> by congruence. lia.
    + intros h' o' Hh He (o1 & E & ->)%At. specialize (F h' o1 (In h' Hh) He E).
      by destruct (_ =? p).
    + intros h1 h2 Sb. apply S. by etrans.
Qed.

Lemma rename_flags usage flags :
  (is_rename usage = true → flags = TEE_DATA_FLAG_ACCESS_WRITE_META) →
  is_rename usage = true → has_flag flags TEE_DATA_FLAG_ACCESS_WRITE_META = true.
Proof. intros E R. by rewrite (E R). Qed.

Lemma inv_get uuid id flags usage fops calloc malloc l hs sp p l' :
  fresh calloc l → Z.of_nat (length hs) < UINT32_MAX →
  (is_rename usage = true → flags = TEE_DATA_FLAG_ACCESS_WRITE_META) →
  tee_pobj_get uuid id flags usage fops calloc malloc l = (TEE_SUCCESS, Some p, l') →
  pobj_inv (mk_state l hs sp) → pobj_inv (mk_state l' (hs ++ [mk_handle p flags usage]) sp).
Proof.
  intros Fr Hl Hr G I. pose proof (rename_flags _ _ Hr) as Hf.
  unfold tee_pobj_get in G. pose proof (find_pobj_spec uuid id fops l None) as Fs.
  destruct (find_pobj uuid id fops l None) as [[q o]|] eqn:Ef.
  - destruct Fs as [?|[Ho _]]; [done|].
    pose proof (pobj_at_nodup q o l (v_nodup _ I) Ho) as Eo.
    assert (flags_ok : is_enum usage = false → may_share (po_flags o) flags).
    { intros Ee. rewrite Ee in G. destruct (creating o || _); [done|].
      destruct (Z.eqb_spec (tee_pobj_check_access (po_flags o) flags) TEE_SUCCESS) as [A|]; [|by simplify_eq].
      by apply check_access_iff. }
    assert (p = q ∧ l' = upd_pobj q (λ o, set_refcnt (u32 (refcnt o + 1)) o) l) as [-> ->].
    { destruct (is_enum usage); [by simplify_eq|]. destruct (creating o || _); [done|].
      destruct (tee_pobj_check_access (po_flags o) flags =? TEE_SUCCESS); by simplify_eq. }
    by apply inv_another with o.
  - destruct calloc as [q|]; [|done]. destruct malloc; simplify_eq/=.
    apply inv_new; [by apply Fr|done|done|done].
Qed.

Lemma inv_rename l h hn hs sp malloc o on res l' :
  h ∈ hs → h_app h = true → hn ∈ hs → is_rename (h_usage hn) = true → h_ptr hn ∉ sp →
  pobj_at (h_ptr h) l = Some o → pobj_at (h_ptr hn) l = Some on →
  po_uuid on = po_uuid o → po_fops on = po_fops o →
  tee_pobj_rename (Some (h_ptr h)) (Some (po_id on)) malloc l = Done (res, l') →
  pobj_inv (mk_state l hs sp) →
  pobj_inv (mk_state l' hs (if res =? TEE_SUCCESS then h_ptr hn :: sp else sp)).
Proof.
  intros Hh Ha Hn Rn Nsp Eo En Eu Efo G I. simpl in G. rewrite Eo in G.
  destruct (negb (refcnt o =? 1)); [by simplify_eq|]. destruct malloc; simplify_eq/=; [|done].
  assert (Dn : h_enum hn = false) by (unfold h_enum; by destruct (h_usage hn)).
  apply (inv_upd _ _ l hs sp); [done|by right| | | |done].
  - intros q [->|Hq]%elem_of_cons; [|by apply (v_spent _ I)]. exists on. split; [done|].
    pose proof (v_reserve _ I hn Hn Rn) as Fl.
    destruct (v_flags _ I hn on Hn Dn En) as [<-|(_ & F2 & _)]; [done|congruence].
  - intros h' Hh' Ha' [E|Hq]%elem_of_cons; [|by eapply (v_app _ I)].
    by destruct (reserve_alone _ h' hn I Hn Rn Hh' Ha').
  - intros o1 q o' E1 Eq D En'. assert (o1 = o) as -> by congruence. simpl in En'.
    rewrite !elem_of_cons. destruct (decide (q = h_ptr hn)) as [|Dq]; [auto|].
    destruct (v_names _ I (h_ptr hn) q on o' En Eq) as [|[|]]; simpl in *; try done; [congruence..|auto].
Qed.

Lemma pobj_step_inv s s' : pobj_inv s → pobj_step s s' → pobj_inv s'.
Proof.
  intros I St. destruct St as [uuid id flags usage fops calloc malloc l hs sp p l' Fr Hl Hr G|
    uuid id flags usage fops calloc malloc l hs sp res l' Fr G|l h hs sp Hh|l h hs1 hs2 sp res l' G|
    l h hn hs sp malloc o on res l' Hh Ha Fl Hn Rn Nsp Eo En Eu Efo G].
  - by eapply inv_get.
  - unfold tee_pobj_get in G. destruct (find_pobj uuid id fops l None) as [[q o]|].
    + destruct (is_enum usage); [done|]. destruct (creating o || _); [by simplify_eq|].
      destruct (tee_pobj_check_access (po_flags o) flags =? TEE_SUCCESS); by simplify_eq.
    + destruct calloc as [q|]; [|by simplify_eq]. destruct malloc; by simplify_eq/=.
  - apply (inv_upd _ _ l hs sp); [done|done|exact (v_spent _ I)|exact (v_app _ I)| |done].
    intros o q o' Eo Eq D En. simpl in *.
    destruct (v_names _ I (h_ptr h) q o o') as [|[|]]; auto; congruence.
  - by eapply inv_release.
  - by apply (inv_rename l h hn hs sp malloc o on).
Qed.

Lemma pobj_reachable_inv s : pobj_reachable s → pobj_inv s.
Proof.
  induction 1 as [|s s' _ IH St]; [|by eapply pobj_step_inv].
  split; simpl; try done; [apply NoDup_nil_2|..]; try (intros h; rewrite ?elem_of_nil; try done).
  intros h2 S. by apply sublist_nil_r in S.
Qed.

(** Reserving a name succeeds only for a name of its own. *)
Lemma get_rename uuid id fops calloc malloc l res po l' :
  tee_pobj_get uuid id TEE_DATA_FLAG_ACCESS_WRITE_META TEE_POBJ_USAGE_RENAME fops calloc malloc l =
    (res, po, l') →
  (res ≠ TEE_SUCCESS ∧ po = None ∧ l' = l) ∨
  ∃ q, res = TEE_SUCCESS ∧ po = Some q ∧ calloc = Some q ∧
    l' = l ++ [(q, mk_pobj 1 uuid id TEE_DATA_FLAG_ACCESS_WRITE_META false false fops)].
Proof.
  unfold tee_pobj_get. destruct (find_pobj uuid id fops l None) as [[q o]|].
  - cbn [is_enum is_create andb]. rewrite orb_false_r. intros E. left.
    destruct (creating o); [by simplify_eq|]. unfold tee_pobj_check_access in E.
    change (has_flag TEE_DATA_FLAG_ACCESS_WRITE_META TEE_DATA_FLAG_ACCESS_WRITE_META) with true in E.
    rewrite orb_true_r in E. cbv zeta in E.
    change (TEE_ERROR_ACCESS_CONFLICT =? TEE_SUCCESS) with false in E. cbv iota in E. by simplify_eq.
  - destruct calloc as [q|]; [|intros; simplify_eq; by left].
    destruct malloc; intros; simplify_eq/=; [right; by exists q|by left].
Qed.

(** The system call is a sequence of the steps, which leaves the handles. *)
Lemma obj_rename_steps uuid id p calloc malloc malloc2 moved l h hs sp o res l' :
  pobj_inv (mk_state l hs sp) → h ∈ hs → h_ptr h = p → h_app h = true →
  has_flag (h_flags h) TEE_DATA_FLAG_ACCESS_WRITE_META = true →
  pobj_at p l = Some o → po_uuid o = uuid → fresh calloc l → Z.of_nat (length hs) < UINT32_MAX →
  syscall_storage_obj_rename uuid id p calloc malloc malloc2 moved l = Done (res, l') →
  ∃ sp', rtc pobj_step (mk_state l hs sp) (mk_state l' hs sp').
Proof.
  intros I Hh Ep Ha Fl Eo Eu Fr Hl E. unfold syscall_storage_obj_rename in E. rewrite Eo in E.
  destruct (tee_pobj_get _ _ _ _ _ _ _ _) as [[r po] l1] eqn:G.
  destruct (get_rename _ _ _ _ _ _ _ _ _ G) as [(N & -> & ->)|(q & -> & -> & -> & El)].
  { rewrite (proj2 (Z.eqb_neq r TEE_SUCCESS) N) in E. simplify_eq/=. by exists sp. }
  change (TEE_SUCCESS =? TEE_SUCCESS) with true in E. cbn [negb] in E.
  pose proof (Fr q eq_refl) as Fq. set (on := mk_pobj 1 uuid id _ false false (po_fops o)) in *.
  assert (Eq : pobj_at q l1 = Some on) by (subst l1; rewrite pobj_at_app, Fq; by rewrite Z.eqb_refl).
  assert (Ep1 : pobj_at p l1 = Some o) by (subst l1; by rewrite pobj_at_app, Eo).
  set (hn := mk_handle q TEE_DATA_FLAG_ACCESS_WRITE_META TEE_POBJ_USAGE_RENAME).
  assert (S1 : pobj_step (mk_state l hs sp) (mk_state l1 (hs ++ [hn]) sp)) by by eapply step_get.
  assert (Nq : q ∉ sp).
  { intros Hq. destruct (v_spent _ I q Hq) as (x & Ex & _). simpl in Ex. congruence. }
  assert (Rel : ∀ l2 sp2 r2, (x ← tee_pobj_release (Some q) l2; let '(_, l3) := x in Done (r2, l3)) = Done (res, l') →
    pobj_step (mk_state l2 (hs ++ [hn]) sp2) (mk_state l' hs (live_of l' sp2))).
  { intros l2 sp2 r2 E2. destruct (tee_pobj_release (Some q) l2) as [[r3 l3]| |] eqn:Er; simplify_eq/=.
    pose proof (step_release l2 hn hs [] sp2 r3 l' Er) as S2. by rewrite app_nil_r in S2. }
  destruct (moved =? TEE_SUCCESS); cbn [negb] in E.
  2: { exists (live_of l' sp). eapply rtc_l; [exact S1|]. apply rtc_once. by apply (Rel _ _ moved). }
  rewrite Eq in E. destruct (tee_pobj_rename (Some p) (Some (po_id on)) malloc2 l1) as [[r2 l2]| |] eqn:Ern; [|done..].
  set (sp2 := if r2 =? TEE_SUCCESS then q :: sp else sp). exists (live_of l' sp2).
  eapply rtc_l; [exact S1|]. eapply (rtc_l _ _ (mk_state l2 (hs ++ [hn]) sp2)); [|apply rtc_once; by apply (Rel l2 sp2 r2)].
  subst p. apply (step_rename l1 h hn _ _ malloc2 o on); try done; apply elem_of_app;
    [by left|right; by apply list_elem_of_singleton].
Qed.

Lemma reachable_rtc s s' : pobj_reachable s → rtc pobj_step s s' → pobj_reachable s'.
Proof. intros R St. induction St as [|s1 s2 s3 St _ IH]; [done|]. apply IH. by eapply reach_step. Qed.

(** C18: Persistent objects are shared by the rules of the TEE API. In whatever
    order handles are got, released and finished and objects are renamed - to a
    new name that was reserved with [tee_pobj_get], as
    [syscall_storage_obj_rename] does, with any calls in between -: the pointer
    of a handle is that of an object, so that no call on it uses freed memory;
    the reference count of an object is the number of its handles; two handles
    that trusted applications got by opening or creating objects of the same
    name are handles of the same object; and any two handles of an object, but
    for the ones of an enumeration, may share it, also when the handle that
    opened it first is gone: none is exclusive, reading and writing are
    permitted by both when one of them asks for it, and both permit the same.
    The system call itself, on a handle that may rename, is such a sequence and
    leaves the handles as they are. *)
Theorem pobj_sharing s :
  pobj_reachable s →
  (∀ h, h ∈ handles s → is_Some (pobj_at (h_ptr h) (objs s))) ∧
  (∀ p o, pobj_at p (objs s) = Some o → refcnt o = handle_count p (handles s) ∧ 0 < refcnt o) ∧
  (∀ h h' o o', h ∈ handles s → h' ∈ handles s → h_app h = true → h_app h' = true →
     pobj_at (h_ptr h) (objs s) = Some o → pobj_at (h_ptr h') (objs s) = Some o' →
     (po_uuid o, po_id o, po_fops o) = (po_uuid o', po_id o', po_fops o') → h_ptr h = h_ptr h') ∧
  (∀ hs1 h1 hs2 h2 hs3, handles s = hs1 ++ h1 :: hs2 ++ h2 :: hs3 → h_ptr h1 = h_ptr h2 →
     h_enum h1 = false → h_enum h2 = false → may_share (h_flags h1) (h_flags h2)) ∧
  (∀ h o id calloc malloc malloc2 moved res l', h ∈ handles s → h_app h = true →
     has_flag (h_flags h) TEE_DATA_FLAG_ACCESS_WRITE_META = true → pobj_at (h_ptr h) (objs s) = Some o →
     fresh calloc (objs s) → Z.of_nat (length (handles s)) < UINT32_MAX →
     syscall_storage_obj_rename (po_uuid o) id (h_ptr h) calloc malloc malloc2 moved (objs s) = Done (res, l') →
     ∃ sp', pobj_reachable (mk_state l' (handles s) sp')).
Proof.
  intros R. pose proof (pobj_reachable_inv s R) as I. pose proof I as [N Nm W A Rs L C F S].
  split_and!; [done| | | |].
  - intros p o E. destruct (C p o E). lia.
  - intros h h' o o' Hh Hh' Ha Ha' E E' En.
    destruct (Nm _ _ o o' E E' En) as [|[Sp|Sp]]; [done|by destruct (A h)|by destruct (A h')].
  - intros hs1 h1 hs2 h2 hs3 E. apply S. rewrite E.
    apply (sublist_inserts_l hs1). constructor. apply (sublist_inserts_l hs2). constructor.
    apply sublist_nil_l.
  - intros h o id calloc malloc malloc2 moved res l' Hh Ha Fl Eo Fr Hl E. destruct s as [l hs sp].
    destruct (obj_rename_steps _ _ _ _ _ _ _ _ h hs sp o res l' I Hh eq_refl Ha Fl Eo eq_refl Fr Hl E) as [sp' Rt].
    exists sp'. by eapply reachable_rtc.
Qed.

(** An object is created, renamed, closed, and opened by its new name twice;
    the first of the handles that opened it is released. *)
Definition share_read : Z := Z.lor TEE_DATA_FLAG_ACCESS_READ TEE_DATA_FLAG_SHARE_READ.

Definition meta : Z := TEE_DATA_FLAG_ACCESS_WRITE_META.

Definition obj (n flags : Z) (id : list Z) : tee_pobj := mk_pobj n [7] id flags false false 1.

Definition shared_state : pobj_state :=
  mk_state [(100, obj 2 share_read [65; 66])]
    [mk_handle 100 TEE_DATA_FLAG_SHARE_READ TEE_POBJ_USAGE_OPEN; mk_handle 100 share_read TEE_POBJ_USAGE_OPEN] [].

Lemma get_step id flags usage calloc l hs sp p l' :
  fresh calloc l → Z.of_nat (length hs) < UINT32_MAX →
  (is_rename usage = true → flags = TEE_DATA_FLAG_ACCESS_WRITE_META) →
  tee_pobj_get [7] id flags usage 1 calloc true l = (TEE_SUCCESS, Some p, l') →
  pobj_reachable (mk_state l hs sp) →
  pobj_reachable (mk_state l' (hs ++ [mk_handle p flags usage]) sp).
Proof. intros Fr Hl Hr E R. eapply reach_step; [exact R|]. by eapply step_get. Qed.

Lemma release_step h hs1 hs2 l sp l' :
  tee_pobj_release (Some (h_ptr h)) l = Done (TEE_SUCCESS, l') →
  pobj_reachable (mk_state l (hs1 ++ h :: hs2) sp) →
  pobj_reachable (mk_state l' (hs1 ++ hs2) (live_of l' sp)).
Proof. intros E R. eapply reach_step; [exact R|]. by eapply step_release. Qed.

(** The object has its new name, and the name is still reserved. *)
Lemma renamed_reachable : pobj_reachable
  (mk_state [(100, obj 1 meta [65; 66]); (200, obj 1 meta [65; 66])]
    [mk_handle 100 meta TEE_POBJ_USAGE_OPEN; mk_handle 200 meta TEE_POBJ_USAGE_RENAME] [200]).
Proof.
  assert (Small : ∀ n, n < 3 → n < UINT32_MAX) by (unfold UINT32_MAX; lia).
  eapply reach_step.
  - apply (get_step [65; 66] meta TEE_POBJ_USAGE_RENAME (Some 200) [(100, obj 1 meta [67])]
      [mk_handle 100 meta TEE_POBJ_USAGE_OPEN] [] 200 [(100, obj 1 meta [67]); (200, obj 1 meta [65; 66])]);
      [by intros q [= <-]|by apply Small|done|vm_compute; reflexivity|].
    apply (get_step [67] meta TEE_POBJ_USAGE_OPEN (Some 100) [] []);
      [by intros q [= <-]|by apply Small|done|vm_compute; reflexivity|apply reach_start].
  - eapply (step_rename _ (mk_handle 100 meta TEE_POBJ_USAGE_OPEN) (mk_handle 200 meta TEE_POBJ_USAGE_RENAME)
      _ _ true (obj 1 meta [67]) (obj 1 meta [65; 66]) TEE_SUCCESS); try reflexivity;
      [by left|by right; left|by intros ?%elem_of_nil].
Qed.

Lemma shared_reachable : pobj_reachable shared_state.
Proof.
  assert (Small : ∀ n, n < 3 → n < UINT32_MAX) by (unfold UINT32_MAX; lia).
  assert (R0 : pobj_reachable (mk_state [] [] [])).
  { apply (release_step (mk_handle 100 meta TEE_POBJ_USAGE_OPEN) [] [] [(100, obj 1 meta [65; 66])] []);
      [vm_compute; reflexivity|].
    apply (release_step (mk_handle 200 meta TEE_POBJ_USAGE_RENAME) [mk_handle 100 meta TEE_POBJ_USAGE_OPEN] []
      [(100, obj 1 meta [65; 66]); (200, obj 1 meta [65; 66])] [200]);
      [vm_compute; reflexivity|exact renamed_reachable]. }
  apply (get_step [65; 66] share_read TEE_POBJ_USAGE_OPEN None [(100, obj 1 share_read [65; 66])]
    [mk_handle 100 TEE_DATA_FLAG_SHARE_READ TEE_POBJ_USAGE_OPEN]);
    [done|by apply Small|done|vm_compute; reflexivity|].
  apply (release_step (mk_handle 100 share_read TEE_POBJ_USAGE_OPEN) []
    [mk_handle 100 TEE_DATA_FLAG_SHARE_READ TEE_POBJ_USAGE_OPEN] [(100, obj 2 share_read [65; 66])] []);
    [vm_compute; reflexivity|].
  apply (get_step [65; 66] TEE_DATA_FLAG_SHARE_READ TEE_POBJ_USAGE_OPEN None
    [(100, obj 1 share_read [65; 66])] [mk_handle 100 share_read TEE_POBJ_USAGE_OPEN]);
    [done|by apply Small|done|vm_compute; reflexivity|].
  apply (get_step [65; 66] share_read TEE_POBJ_USAGE_OPEN (Some 100) [] []);
    [by intros q [= <-]|by apply Small|done|vm_compute; reflexivity|exact R0].
Qed.

Lemma pobj_sharing_witness :
  pobj_reachable shared_state ∧
  (∀ hs1 h1 hs2 h2 hs3, handles shared_state = hs1 ++ h1 :: hs2 ++ h2 :: hs3 → h_ptr h1 = h_ptr h2 →
     h_enum h1 = false → h_enum h2 = false → may_share (h_flags h1) (h_flags h2)).
Proof.
  split; [apply shared_reachable|].
  destruct (pobj_sharing shared_state shared_reachable) as (_ & _ & _ & S & _). exact S.
Defined.
