(* ===== verification/TransferList.v ===== *)
(** Transfer lists, core/kernel/transfer_list.c and
    core/include/kernel/transfer_list.h: the list of tagged entries in which
    the boot stages hand data over, in the memory it lies in. Pointers are
    virtual addresses, 0 is NULL; [vaddr_t] and [size_t] have 64 bits, integers
    are little endian. The state is the memory from the list on, as far as it
    is mapped; an access outside it is undefined. *)
From S2P Require Import Prelude State Bytes.

(** ** Constants *)

Definition TRANSFER_LIST_SIGNATURE : Z := 1242542347.
Definition TRANSFER_LIST_VERSION : Z := 1.
Definition TRANSFER_LIST_INIT_MAX_ALIGN : Z := 3.
Definition TRANSFER_LIST_GRANULE : Z := 8.
Definition TL_FLAGS_HAS_CHECKSUM : Z := 1.

Definition TL_OPS_NONE : Z := 0.
Definition TL_OPS_ALL : Z := 1.
Definition TL_OPS_RO : Z := 2.
Definition TL_OPS_CUS : Z := 3.

Definition TL_TAG_EMPTY : Z := 0.
Definition TL_TAG_FDT : Z := 1.

(** The sizes of [struct transfer_list_header] and [struct transfer_list_entry]. *)
Definition sizeof_tl : Z := 24.
Definition sizeof_te : Z := 8.

(** [BIT] is a shift of a 32-bit value, which is undefined from 32 bits on. *)
Definition TL_ALIGNMENT_FROM_ORDER (a : Z) : outcome Z :=
  if a <? 32 then Done (Z.shiftl 1 a) else Undef.

(** [ADD_OVERFLOW] and [ROUNDUP_OVERFLOW] of util.h with a 64-bit result;
    [None] is an overflow. *)
Definition ADD_OVERFLOW (a b : Z) : option Z :=
  if a + b <? 2 ^ 64 then Some (a + b) else None.

Definition ROUNDUP_OVERFLOW (v size : Z) : option Z :=
  let mask := u64 (size - 1) in
  match ADD_OVERFLOW v mask with
  | Some tmp => Some (Z.land tmp (u64 (Z.lnot mask)))
  | None => None
  end.

(** [ROUNDUP] and [ROUNDDOWN] of util.h are [Prelude.ROUNDUP] and
    [Prelude.ROUNDDOWN]. *)
Definition IS_ALIGNED (x a : Z) : bool := Z.land x (a - 1) =? 0.

(** ** The fields *)

Definition TL : Type → Type := St (list Z).

Section List.

(** The address of the list: the first byte of the state. *)
Variable tl : Z.

(** The field of [n] bytes at the address [va]. *)
Definition field (n : nat) (va : Z) : TL Z := load_le n (va - tl).

Definition set_field (n : nat) (va z : Z) : TL unit := store_le n (va - tl) z.

Definition tl_signature : TL Z := field 4 tl.
Definition tl_checksum : TL Z := field 1 (tl + 4).
Definition tl_version : TL Z := field 1 (tl + 5).
Definition tl_hdr_size : TL Z := field 1 (tl + 6).
Definition tl_alignment : TL Z := field 1 (tl + 7).
Definition tl_size : TL Z := field 4 (tl + 8).
Definition tl_max_size : TL Z := field 4 (tl + 12).
Definition tl_flags : TL Z := field 4 (tl + 16).

Definition set_tl_checksum : Z → TL unit := set_field 1 (tl + 4).
Definition set_tl_alignment : Z → TL unit := set_field 1 (tl + 7).
Definition set_tl_size : Z → TL unit := set_field 4 (tl + 8).

Definition tag_id (e : Z) : TL Z := field 2 e.
Definition hdr_size (e : Z) : TL Z := field 1 (e + 3).
Definition data_size (e : Z) : TL Z := field 4 (e + 4).

(** An entry that is written whole. *)
Definition te_header (tag hdr data : Z) : list Z :=
  le_bytes 2 tag ++ [0; u8 hdr] ++ le_bytes 4 data.

(** ** The operations *)

(** *** Checksum *)

Definition byte_sum (l : list Z) : Z := foldl (λ cs b, u8 (cs + b)) 0 l.

Definition calc_byte_sum : TL Z :=
  size ← tl_size;
  b ← load 0 size;
  mret (byte_sum b).

Definition transfer_list_verify_checksum : TL bool :=
  if tl =? 0 then mret false else
  flags ← tl_flags;
  if negb (has_flag flags TL_FLAGS_HAS_CHECKSUM) then mret true else
  cs ← calc_byte_sum;
  mret (cs =? 0).

Definition transfer_list_update_checksum : TL unit :=
  if tl =? 0 then mret tt else
  flags ← tl_flags;
  if negb (has_flag flags TL_FLAGS_HAS_CHECKSUM) then mret tt else
  cs ← calc_byte_sum;
  old ← tl_checksum;
  let cs := u8 (cs - old) in
  let cs := u8 (256 - cs) in
  _ ← set_tl_checksum cs;
  ok ← transfer_list_verify_checksum;
  st_assert ok.

(** *** Header *)

Definition transfer_list_check_header : TL Z :=
  if tl =? 0 then mret TL_OPS_NONE else
  signature ← tl_signature;
  if negb (signature =? TRANSFER_LIST_SIGNATURE) then mret TL_OPS_NONE else
  max_size ← tl_max_size;
  if max_size =? 0 then mret TL_OPS_NONE else
  size ← tl_size;
  if max_size <? size then mret TL_OPS_NONE else
  hdr ← tl_hdr_size;
  if negb (hdr =? sizeof_tl) then mret TL_OPS_NONE else
  ok ← transfer_list_verify_checksum;
  if negb ok then mret TL_OPS_NONE else
  version ← tl_version;
  mret (if version =? 0 then TL_OPS_NONE
        else if version =? TRANSFER_LIST_VERSION then TL_OPS_ALL
        else if TRANSFER_LIST_VERSION <? version then TL_OPS_RO
        else TL_OPS_CUS).

(** The part of [transfer_list_init] that fills the memory. *)
Definition init_list (max_size : Z) : TL unit :=
  _ ← store 0 (replicate (Z.to_nat max_size) 0);
  _ ← set_field 4 tl TRANSFER_LIST_SIGNATURE;
  _ ← set_field 1 (tl + 5) TRANSFER_LIST_VERSION;
  _ ← set_field 1 (tl + 6) sizeof_tl;
  _ ← set_field 1 (tl + 7) TRANSFER_LIST_INIT_MAX_ALIGN;
  _ ← set_field 4 (tl + 8) sizeof_tl;
  _ ← set_field 4 (tl + 12) max_size;
  _ ← set_field 4 (tl + 16) TL_FLAGS_HAS_CHECKSUM;
  transfer_list_update_checksum.

(** *** Enumeration *)

(** The end of an entry, rounded up to the next one. *)
Definition round_end (hdr data va : Z) : option Z :=
  match ADD_OVERFLOW hdr data with
  | None => None
  | Some sz =>
      match ADD_OVERFLOW va sz with
      | None => None
      | Some ev => ROUNDUP_OVERFLOW ev TRANSFER_LIST_GRANULE
      end
  end.

(** Where the entry after [cur] begins. *)
Definition next_va (cur : Z) : TL (option Z) :=
  if negb (cur =? 0) then
    hdr ← hdr_size cur;
    data ← data_size cur;
    mret (round_end hdr data cur)
  else
    hdr ← tl_hdr_size;
    mret (Some (u64 (tl + hdr))).

Definition transfer_list_next (cur : Z) : TL Z :=
  if tl =? 0 then mret 0 else
  size ← tl_size;
  let tl_ev := u64 (tl + size) in
  va ← next_va cur;
  match va with
  | None => mret 0
  | Some va =>
      if tl_ev <? u64 (va + sizeof_te) then mret 0 else
      hdr ← hdr_size va;
      if hdr <? sizeof_te then mret 0 else
      data ← data_size va;
      mret (match ADD_OVERFLOW hdr data with
            | None => 0
            | Some sz =>
                match ADD_OVERFLOW va sz with
                | None => 0
                | Some ev => if tl_ev <? ev then 0 else va
                end
            end)
  end.

(** The loop of [transfer_list_find]. *)
Fixpoint find_loop (fuel : nat) (tag tl_e : Z) : TL Z :=
  match fuel with
  | O => out_of_fuel
  | S fuel =>
      tl_e ← transfer_list_next tl_e;
      if tl_e =? 0 then mret 0 else
      t ← tag_id tl_e;
      if t =? tag then mret tl_e else find_loop fuel tag tl_e
  end.

Definition transfer_list_find (fuel : nat) (tag : Z) : TL Z := find_loop fuel tag 0.

Definition transfer_list_entry_data (e : Z) : TL Z :=
  if e =? 0 then mret 0 else
  hdr ← hdr_size e;
  mret (e + hdr).

(** What [transfer_list_dump] prints of the entries: tag, size of the header,
    size and address of the data. *)
Fixpoint dump_loop (fuel : nat) (tl_e : Z) : TL (list (Z * Z * Z * Z)) :=
  match fuel with
  | O => out_of_fuel
  | S fuel =>
      tl_e ← transfer_list_next tl_e;
      if tl_e =? 0 then mret [] else
      tag ← tag_id tl_e;
      hdr ← hdr_size tl_e;
      data ← data_size tl_e;
      addr ← transfer_list_entry_data tl_e;
      rest ← dump_loop fuel tl_e;
      mret ((tag, hdr, data, addr) :: rest)
  end.

Definition transfer_list_dump (fuel : nat) : TL (list (Z * Z * Z * Z)) :=
  if tl =? 0 then mret [] else dump_loop fuel 0.

(** *** Changes *)

(** How far the entries after the one that ends at [old_ev] move, and the new
    size of the list; [None] if there is no room. *)
Definition move_distance (old_ev new_ev align size max_size : Z) : option (Z * Z) :=
  if old_ev <? new_ev then
    match ROUNDUP_OVERFLOW (new_ev - old_ev) align with
    | None => None
    | Some mov_dis =>
        if max_size <? u64 (size + mov_dis) then None
        else Some (u64 (old_ev + mov_dis), u32 (size + mov_dis))
    end
  else
    let mov_dis := ROUNDDOWN (old_ev - new_ev) align in
    Some (old_ev - mov_dis, u32 (size - mov_dis)).

Definition transfer_list_set_data_size (e new_data_size : Z) : TL bool :=
  if (tl =? 0) || (e =? 0) then mret false else
  size ← tl_size;
  let tl_old_ev := u64 (tl + size) in
  hdr ← hdr_size e;
  data ← data_size e;
  match round_end hdr data e, round_end hdr new_data_size e with
  | Some old_ev, Some new_ev =>
      order ← tl_alignment;
      align ← run (TL_ALIGNMENT_FROM_ORDER order);
      max_size ← tl_max_size;
      match move_distance old_ev new_ev align size max_size with
      | None => mret false
      | Some (r_new_ev, new_size) =>
          _ ← set_tl_size new_size;
          _ ← move_bytes (r_new_ev - tl) (old_ev - tl) (u64 (tl_old_ev - old_ev));
          let gap := u64 (r_new_ev - new_ev) in
          _ ← (if sizeof_te <=? gap
               then store (new_ev - tl) (te_header TL_TAG_EMPTY sizeof_te (u32 (gap - sizeof_te)))
               else mret tt);
          _ ← set_field 4 (e + 4) new_data_size;
          _ ← transfer_list_update_checksum;
          mret true
      end
  | _, _ => mret false
  end.

Definition transfer_list_rem (e : Z) : TL bool :=
  if (tl =? 0) || (e =? 0) then mret false else
  size ← tl_size;
  if u64 (tl + size) <? e then mret false else
  _ ← set_field 2 e TL_TAG_EMPTY;
  _ ← set_field 1 (e + 2) 0;
  _ ← transfer_list_update_checksum;
  mret true.

(** [data] is [None] for NULL, else its bytes. The destination of [memmove] is
    [tl_e + tl_e->hdr_size] as the code has it: so many entry headers after the
    entry, not so many bytes. *)
Definition transfer_list_add (tag dsize : Z) (data : option (list Z)) : TL Z :=
  if tl =? 0 then mret 0 else
  max_size ← tl_max_size;
  size ← tl_size;
  let max_tl_ev := u64 (tl + max_size) in
  let tl_ev := u64 (tl + size) in
  match round_end sizeof_te dsize tl_ev with
  | None => mret 0
  | Some ev =>
      if max_tl_ev <? ev then mret 0 else
      _ ← store (tl_ev - tl) (te_header tag sizeof_te dsize);
      _ ← set_tl_size (u32 (size + (ev - tl_ev)));
      _ ← (match data with
           | None => mret tt
           | Some d =>
               hdr ← hdr_size tl_ev;
               store (tl_ev + sizeof_te * hdr - tl) (take (Z.to_nat dsize) d)
           end);
      _ ← transfer_list_update_checksum;
      mret tl_ev
  end.

Definition transfer_list_add_with_align (tag dsize : Z) (data : option (list Z)) (alignment : Z) : TL Z :=
  if tl =? 0 then mret 0 else
  size ← tl_size;
  let tl_ev := u64 (tl + size) in
  let ev := u64 (tl_ev + sizeof_te) in
  align ← run (TL_ALIGNMENT_FROM_ORDER alignment);
  ok ← (if negb (IS_ALIGNED ev align) then
          let new_tl_ev := u64 (ROUNDUP ev align - sizeof_te) in
          _ ← st_assert (sizeof_te <? u64 (new_tl_ev - tl_ev));
          e ← transfer_list_add TL_TAG_EMPTY (u32 (new_tl_ev - tl_ev - sizeof_te)) None;
          mret (negb (e =? 0))
        else mret true);
  if negb ok then mret 0 else
  e ← transfer_list_add tag dsize data;
  order ← tl_alignment;
  _ ← (if order <? alignment then
         _ ← set_tl_alignment alignment;
         transfer_list_update_checksum
       else mret tt);
  mret e.

End List.
