(* ===== verification/TransferListProofs.v ===== *)
(** What a transfer list in memory holds, and what the operations of
    core/kernel/transfer_list.c do to it; then the reading of a list that comes
    from elsewhere: whatever the memory holds, one that passes
    [transfer_list_check_header] and is mapped up to its maximum size is read
    within that memory, and its enumeration ends. *)
From S2P Require Import Prelude State Bytes TransferList.

#[local] Ltac Zify.zify_post_hook ::= Z.div_mod_to_equations.

(** ** The contents of a list

    An entry: the tag, its third byte, what the header has beyond its eight
    bytes, the data and the padding up to the next multiple of eight. *)
Record tl_entry := mk_te {
  te_tag : Z; te_res : Z; te_ext : list Z; te_data : list Z; te_pad : list Z;
}.

Definition te_hdr (e : tl_entry) : Z := sizeof_te + Z.of_nat (length (te_ext e)).

Definition te_dsize (e : tl_entry) : Z := Z.of_nat (length (te_data e)).

Definition te_bytes (e : tl_entry) : list Z :=
  (le_bytes 2 (te_tag e) ++ [te_res e; te_hdr e] ++ le_bytes 4 (te_dsize e)) ++
  te_ext e ++ te_data e ++ te_pad e.

Definition te_total (e : tl_entry) : Z := Z.of_nat (length (te_bytes e)).

Record te_ok (e : tl_entry) : Prop := {
  te_ok_tag : 0 ≤ te_tag e < 2 ^ 16;
  te_ok_res : is_byte (te_res e);
  te_ok_hdr : te_hdr e < 2 ^ 8;
  te_ok_size : te_dsize e < 2 ^ 32;
  te_ok_bytes : Forall is_byte (te_ext e ++ te_data e ++ te_pad e);
  te_ok_pad : (length (te_pad e) < 8)%nat;
  te_ok_total : (8 | te_total e);
}.

(** The header but for its size. *)
Record tl_head := mk_tlh {
  th_checksum : Z; th_version : Z; th_alignment : Z; th_max_size : Z; th_flags : Z; th_reserved : Z;
}.

Definition th_bytes (h : tl_head) (size : Z) : list Z :=
  le_bytes 4 TRANSFER_LIST_SIGNATURE ++ [th_checksum h; th_version h; sizeof_tl; th_alignment h] ++
  le_bytes 4 size ++ le_bytes 4 (th_max_size h) ++ le_bytes 4 (th_flags h) ++ le_bytes 4 (th_reserved h).

Record th_ok (h : tl_head) : Prop := {
  th_ok_checksum : is_byte (th_checksum h);
  th_ok_version : is_byte (th_version h);
  th_ok_alignment : 0 ≤ th_alignment h < 32;
  th_ok_max : 0 ≤ th_max_size h < 2 ^ 32;
  th_ok_flags : 0 ≤ th_flags h < 2 ^ 32;
}.

Definition body (ents : list tl_entry) : list Z := concat (te_bytes <$> ents).

Definition body_size (ents : list tl_entry) : Z := sizeof_tl + Z.of_nat (length (body ents)).

(** The memory: header, entries, and what is mapped after the list. *)
Definition tl_mem (h : tl_head) (ents : list tl_entry) (rest : list Z) : list Z :=
  th_bytes h (body_size ents) ++ body ents ++ rest.

(** The checksum is right if there is one. *)
Definition sealed (h : tl_head) (size : Z) (b : list Z) : Prop :=
  has_flag (th_flags h) TL_FLAGS_HAS_CHECKSUM = true → byte_sum (th_bytes h size ++ b) = 0.

Record tl_ok (tl : Z) (h : tl_head) (ents : list tl_entry) (rest : list Z) : Prop := {
  tl_ok_base : 0 < tl;
  tl_ok_align : (8 | tl);
  tl_ok_top : tl + body_size ents + Z.of_nat (length rest) + 2 ^ 33 ≤ 2 ^ 64;
  tl_ok_head : th_ok h;
  tl_ok_ents : Forall te_ok ents;
  tl_ok_size : body_size ents ≤ th_max_size h ≤ body_size ents + Z.of_nat (length rest);
}.

(** ** Sizes *)

Lemma length_th_bytes h size : length (th_bytes h size) = 24%nat.
Proof. reflexivity. Qed.

Lemma body_app a b : body (a ++ b) = body a ++ body b.
Proof. unfold body. by rewrite fmap_app, concat_app. Qed.

Lemma body_cons e a : body (e :: a) = te_bytes e ++ body a.
Proof. done. Qed.

Lemma te_total_eq e :
  te_total e = te_hdr e + te_dsize e + Z.of_nat (length (te_pad e)).
Proof. unfold te_total, te_bytes, te_hdr, te_dsize, sizeof_te. rewrite !length_app. simpl. lia. Qed.

Lemma body_divide ents : Forall te_ok ents → (8 | Z.of_nat (length (body ents))).
Proof.
  induction 1 as [|e ents He _ IH]; [by exists 0|]. rewrite body_cons, length_app, Nat2Z.inj_add.
  apply Z.divide_add_r; [apply He|done].
Qed.

(** The end of an entry, rounded up. *)
Definition up8 (x : Z) : Z := (x + 7) / 8 * 8.

Lemma up8_bounds x : x ≤ up8 x < x + 8 ∧ (8 | up8 x).
Proof. unfold up8. split; [lia|]. by exists ((x + 7) / 8). Qed.

Lemma up8_unique x y : x ≤ y < x + 8 → (8 | y) → up8 x = y.
Proof. intros Hy [k ->]. unfold up8. lia. Qed.

Lemma ROUNDUP_OVERFLOW_spec v k :
  0 ≤ v → 0 ≤ k < 64 → v + (2 ^ k - 1) < 2 ^ 64 →
  ROUNDUP_OVERFLOW v (2 ^ k) = Some (ROUNDUP v (2 ^ k)).
Proof.
  intros Hv Hk Hb. pose proof (pow2_pos k ltac:(lia)).
  assert (2 ^ k ≤ 2 ^ 63) by (apply Z.pow_le_mono_r; lia).
  unfold ROUNDUP_OVERFLOW, ADD_OVERFLOW, ROUNDUP. rewrite (u64_id (2 ^ k - 1)) by lia.
  destruct (Z.ltb_spec (v + (2 ^ k - 1)) (2 ^ 64)); [|lia]. by rewrite (u64_id (v + (2 ^ k - 1))) by lia.
Qed.

Lemma round_end_spec hdr data va :
  0 ≤ hdr → 0 ≤ data → 0 ≤ va → va + hdr + data + 8 ≤ 2 ^ 64 →
  round_end hdr data va = Some (up8 (va + (hdr + data))).
Proof.
  intros. unfold round_end, ADD_OVERFLOW.
  destruct (Z.ltb_spec (hdr + data) (2 ^ 64)); [|lia].
  destruct (Z.ltb_spec (va + (hdr + data)) (2 ^ 64)); [|lia].
  unfold TRANSFER_LIST_GRANULE. change 8 with (2 ^ 3) at 1. rewrite ROUNDUP_OVERFLOW_spec by lia.
  f_equal. rewrite ROUNDUP_spec by lia. unfold up8. f_equal.
Qed.

(** ** The checksum *)

Definition sum_of (l : list Z) : Z := foldr Z.add 0 l.

Lemma byte_sum_eq l : byte_sum l = u8 (sum_of l).
Proof.
  unfold byte_sum. cut (∀ a, foldl (λ cs b, u8 (cs + b)) (u8 a) l = u8 (a + sum_of l)).
  { intros E. exact (E 0). }
  induction l as [|b l IH]; intros a; simpl; [by rewrite Z.add_0_r|].
  replace (u8 (u8 a + b)) with (u8 (a + b)); [|unfold u8; by rewrite Zplus_mod_idemp_l].
  rewrite IH. f_equal. lia.
Qed.

Lemma sum_of_app a b : sum_of (a ++ b) = sum_of a + sum_of b.
Proof. unfold sum_of. induction a; simpl in *; lia. Qed.

(** ** Reading and writing fields *)

Section Rules.
Context (tl : Z).

(** A field among the bytes of the memory. *)
Lemma wp_field_mid n va a x b (Q : Z → list Z → Prop) :
  va = tl + Z.of_nat (length a) → length x = n → Q (of_le x) (a ++ x ++ b) →
  wp (field tl n va) (a ++ x ++ b) Q.
Proof.
  intros -> <- HQ. unfold field. replace (tl + _ - tl) with (Z.of_nat (length a)) by lia.
  apply wp_load_le; [lia|rewrite !length_app; lia|]. by rewrite slice_mid by lia.
Qed.

Lemma wp_set_field_mid n va z a x b (Q : unit → list Z → Prop) :
  va = tl + Z.of_nat (length a) → length x = n → Q tt (a ++ le_bytes n z ++ b) →
  wp (set_field tl n va z) (a ++ x ++ b) Q.
Proof.
  intros -> <- HQ. unfold set_field. replace (tl + _ - tl) with (Z.of_nat (length a)) by lia.
  apply wp_store; [lia|rewrite le_bytes_length, !length_app; lia|].
  by rewrite put_bytes_app by (rewrite ?le_bytes_length; lia).
Qed.

Lemma wp_store_mid off d a x b (Q : unit → list Z → Prop) :
  off = Z.of_nat (length a) → length x = length d → Q tt (a ++ d ++ b) →
  wp (store off d) (a ++ x ++ b) Q.
Proof.
  intros -> L HQ. apply wp_store; [lia|rewrite !length_app; lia|]. by rewrite put_bytes_app by lia.
Qed.

(** *** The header *)

(** The field of [n] bytes at [k] of the header, one of the little-endian
    numbers it is made of. *)
Ltac head_field k n v :=
  unfold field; replace (tl + k - tl) with k by lia;
  apply wp_load_le; [lia|rewrite length_app, length_th_bytes; lia|];
  lazymatch goal with |- ?Q (of_le (slice k _ (th_bytes ?h ?s ++ ?r))) _ =>
    change (slice k (Z.of_nat n) (th_bytes h s ++ r)) with (le_bytes n v) end;
  rewrite of_le_bytes; [done|unfold TRANSFER_LIST_SIGNATURE; lia].

Lemma wp_tl_size h size r (Q : Z → list Z → Prop) :
  0 ≤ size < 2 ^ 32 → Q size (th_bytes h size ++ r) → wp (tl_size tl) (th_bytes h size ++ r) Q.
Proof. intros. unfold tl_size. head_field 8 4%nat size. Qed.

Lemma wp_tl_max_size h size r (Q : Z → list Z → Prop) :
  th_ok h → Q (th_max_size h) (th_bytes h size ++ r) → wp (tl_max_size tl) (th_bytes h size ++ r) Q.
Proof. intros [] HQ. unfold tl_max_size. head_field 12 4%nat (th_max_size h). Qed.

Lemma wp_tl_flags h size r (Q : Z → list Z → Prop) :
  th_ok h → Q (th_flags h) (th_bytes h size ++ r) → wp (tl_flags tl) (th_bytes h size ++ r) Q.
Proof. intros [] HQ. unfold tl_flags. head_field 16 4%nat (th_flags h). Qed.

Lemma wp_tl_signature h size r (Q : Z → list Z → Prop) :
  Q TRANSFER_LIST_SIGNATURE (th_bytes h size ++ r) → wp (tl_signature tl) (th_bytes h size ++ r) Q.
Proof.
  intros. unfold tl_signature. replace tl with (tl + 0) at 2 by lia.
  head_field 0 4%nat TRANSFER_LIST_SIGNATURE.
Qed.

(** The fields of one byte. *)
Ltac head_byte k v :=
  unfold field; replace (tl + k - tl) with k by lia;
  apply wp_load_le; [lia|rewrite length_app, length_th_bytes; simpl; lia|];
  lazymatch goal with |- ?Q (of_le (slice k _ (th_bytes ?h ?s ++ ?r))) _ =>
    change (of_le (slice k (Z.of_nat 1) (th_bytes h s ++ r))) with (v + 256 * 0) end;
  rewrite Z.add_0_r.

Lemma wp_tl_checksum h size r (Q : Z → list Z → Prop) :
  Q (th_checksum h) (th_bytes h size ++ r) → wp (tl_checksum tl) (th_bytes h size ++ r) Q.
Proof. intros. unfold tl_checksum. by head_byte 4 (th_checksum h). Qed.

Lemma wp_tl_version h size r (Q : Z → list Z → Prop) :
  Q (th_version h) (th_bytes h size ++ r) → wp (tl_version tl) (th_bytes h size ++ r) Q.
Proof. intros. unfold tl_version. by head_byte 5 (th_version h). Qed.

Lemma wp_tl_hdr_size h size r (Q : Z → list Z → Prop) :
  Q sizeof_tl (th_bytes h size ++ r) → wp (tl_hdr_size tl) (th_bytes h size ++ r) Q.
Proof. intros. unfold tl_hdr_size. by head_byte 6 sizeof_tl. Qed.

Lemma wp_tl_alignment h size r (Q : Z → list Z → Prop) :
  Q (th_alignment h) (th_bytes h size ++ r) → wp (tl_alignment tl) (th_bytes h size ++ r) Q.
Proof. intros. unfold tl_alignment. by head_byte 7 (th_alignment h). Qed.

Definition with_checksum (c : Z) (h : tl_head) : tl_head :=
  mk_tlh c (th_version h) (th_alignment h) (th_max_size h) (th_flags h) (th_reserved h).

Definition with_alignment (a : Z) (h : tl_head) : tl_head :=
  mk_tlh (th_checksum h) (th_version h) a (th_max_size h) (th_flags h) (th_reserved h).

Lemma wp_set_tl_checksum c h size r (Q : unit → list Z → Prop) :
  is_byte c → Q tt (th_bytes (with_checksum c h) size ++ r) →
  wp (set_tl_checksum tl c) (th_bytes h size ++ r) Q.
Proof.
  intros Hc HQ. unfold set_tl_checksum, set_field. replace (tl + 4 - tl) with 4 by lia.
  apply wp_store; [lia|rewrite length_app, length_th_bytes; simpl; lia|].
  change (put_bytes 4 (le_bytes 1 c) (th_bytes h size ++ r)) with
    (th_bytes (with_checksum (u8 c) h) size ++ r). unfold is_byte in Hc. by rewrite u8_id by lia.
Qed.

Lemma wp_set_tl_alignment a h size r (Q : unit → list Z → Prop) :
  is_byte a → Q tt (th_bytes (with_alignment a h) size ++ r) →
  wp (set_tl_alignment tl a) (th_bytes h size ++ r) Q.
Proof.
  intros Hc HQ. unfold set_tl_alignment, set_field. replace (tl + 7 - tl) with 7 by lia.
  apply wp_store; [lia|rewrite length_app, length_th_bytes; simpl; lia|].
  change (put_bytes 7 (le_bytes 1 a) (th_bytes h size ++ r)) with
    (th_bytes (with_alignment (u8 a) h) size ++ r). unfold is_byte in Hc. by rewrite u8_id by lia.
Qed.

Lemma wp_set_tl_size size' h size r (Q : unit → list Z → Prop) :
  Q tt (th_bytes h size' ++ r) → wp (set_tl_size tl size') (th_bytes h size ++ r) Q.
Proof.
  intros HQ. unfold set_tl_size, set_field. replace (tl + 8 - tl) with 8 by lia.
  apply wp_store; [lia|rewrite length_app, length_th_bytes; simpl; lia|]. exact HQ.
Qed.

(** *** The checksum *)

Lemma wp_calc_byte_sum h b rest (Q : Z → list Z → Prop) :
  let size := sizeof_tl + Z.of_nat (length b) in
  size < 2 ^ 32 → Q (byte_sum (th_bytes h size ++ b)) (th_bytes h size ++ b ++ rest) →
  wp (calc_byte_sum tl) (th_bytes h size ++ b ++ rest) Q.
Proof.
  intros size Hs HQ. unfold calc_byte_sum. assert (sizeof_tl = 24) as E24 by done.
  st_step. apply wp_tl_size; [lia|]. st_step.
  assert (L : length (th_bytes h size) = 24%nat) by done.
  apply wp_load; [lia..|rewrite !length_app; lia|]. st_step.
  rewrite app_assoc. rewrite slice_app_l by (rewrite ?length_app; lia).
  rewrite slice_all by (rewrite ?length_app; lia). by rewrite <- app_assoc.
Qed.

Lemma wp_verify_checksum h b rest (Q : bool → list Z → Prop) :
  let size := sizeof_tl + Z.of_nat (length b) in
  0 < tl → th_ok h → size < 2 ^ 32 →
  (∀ r, (r = true ↔ sealed h size b) → Q r (th_bytes h size ++ b ++ rest)) →
  wp (transfer_list_verify_checksum tl) (th_bytes h size ++ b ++ rest) Q.
Proof.
  intros size Ht Ho Hs HQ. unfold transfer_list_verify_checksum.
  destruct (Z.eqb_spec tl 0); [lia|]. st_step. apply wp_tl_flags; [done|]. unfold sealed in HQ.
  destruct (has_flag (th_flags h) TL_FLAGS_HAS_CHECKSUM); cbn [negb]; st_step.
  - apply wp_calc_byte_sum; [done|]. st_step. apply HQ. rewrite Z.eqb_eq. intuition.
  - apply HQ. split; [done|]. by intros.
Qed.

(** The header with the checksum that [transfer_list_update_checksum] computes. *)
Definition reseal (h : tl_head) (size : Z) (b : list Z) : tl_head :=
  if has_flag (th_flags h) TL_FLAGS_HAS_CHECKSUM
  then with_checksum (u8 (256 - u8 (byte_sum (th_bytes h size ++ b) - th_checksum h))) h else h.

Lemma sum_th_bytes h size :
  sum_of (th_bytes h size) = th_checksum h + sum_of (th_bytes (with_checksum 0 h) size).
Proof.
  unfold th_bytes. rewrite !sum_of_app. unfold sum_of, with_checksum. cbn [foldr th_checksum th_version
    th_alignment th_max_size th_flags th_reserved]. lia.
Qed.

Lemma with_checksum_with c d h : with_checksum c (with_checksum d h) = with_checksum c h.
Proof. done. Qed.

Lemma reseal_sealed h size b : sealed (reseal h size b) size b.
Proof.
  unfold sealed, reseal. destruct (has_flag (th_flags h) TL_FLAGS_HAS_CHECKSUM) eqn:F; [|by rewrite F].
  intros _. rewrite !byte_sum_eq, !sum_of_app, (sum_th_bytes h), (sum_th_bytes (with_checksum _ h)).
  rewrite with_checksum_with. cbn [with_checksum th_checksum]. unfold u8. change (2 ^ 8) with 256. lia.
Qed.

Lemma th_ok_with_checksum c h : is_byte c → th_ok h → th_ok (with_checksum c h).
Proof. intros Hc []. by split. Qed.

Lemma reseal_ok h size b : th_ok h → th_ok (reseal h size b).
Proof.
  intros. unfold reseal. case_match; [|done]. apply th_ok_with_checksum; [|done].
  unfold is_byte, u8. lia.
Qed.

Lemma reseal_max h size b : th_max_size (reseal h size b) = th_max_size h.
Proof. unfold reseal. by case_match. Qed.

Lemma reseal_alignment h size b : th_alignment (reseal h size b) = th_alignment h.
Proof. unfold reseal. by case_match. Qed.

Lemma wp_update_checksum h b rest (Q : unit → list Z → Prop) :
  let size := sizeof_tl + Z.of_nat (length b) in
  0 < tl → th_ok h → size < 2 ^ 32 →
  Q tt (th_bytes (reseal h size b) size ++ b ++ rest) →
  wp (transfer_list_update_checksum tl) (th_bytes h size ++ b ++ rest) Q.
Proof.
  intros size Ht Ho Hs HQ. unfold transfer_list_update_checksum.
  destruct (Z.eqb_spec tl 0); [lia|]. st_step. apply wp_tl_flags; [done|].
  pose proof (reseal_sealed h size b) as Se. pose proof (reseal_ok h size b Ho) as Ro. unfold reseal in *.
  destruct (has_flag (th_flags h) TL_FLAGS_HAS_CHECKSUM); cbn [negb]; st_step; [|done].
  apply wp_calc_byte_sum; [done|]. fold size. st_step. apply wp_tl_checksum. st_step.
  apply wp_set_tl_checksum; [unfold is_byte, u8; lia|]. st_step.
  apply wp_verify_checksum; [done..|]. intros r Hr. apply wp_assert; [by apply Hr|done].
Qed.

(** *** An entry *)

Lemma te_bytes_split e :
  te_bytes e = le_bytes 2 (te_tag e) ++ [te_res e; te_hdr e] ++ le_bytes 4 (te_dsize e) ++
    te_ext e ++ te_data e ++ te_pad e.
Proof. unfold te_bytes. by rewrite <- !app_assoc. Qed.

Lemma te_hdr_range e : te_ok e → 8 ≤ te_hdr e < 256.
Proof. intros []. unfold te_hdr, sizeof_te in *. lia. Qed.

Lemma wp_tag_id va a e r (Q : Z → list Z → Prop) :
  va = tl + Z.of_nat (length a) → te_ok e → Q (te_tag e) (a ++ te_bytes e ++ r) →
  wp (tag_id tl va) (a ++ te_bytes e ++ r) Q.
Proof.
  intros E [] HQ. rewrite te_bytes_split in HQ |- *. rewrite <- app_assoc in HQ |- *.
  unfold tag_id. apply wp_field_mid; [done|done|]. by rewrite of_le_bytes by lia.
Qed.

Lemma wp_hdr_size va a e r (Q : Z → list Z → Prop) :
  va = tl + Z.of_nat (length a) → te_ok e → Q (te_hdr e) (a ++ te_bytes e ++ r) →
  wp (hdr_size tl va) (a ++ te_bytes e ++ r) Q.
Proof.
  intros E Ok HQ. unfold hdr_size.
  assert (Ea : a ++ te_bytes e ++ r = (a ++ le_bytes 2 (te_tag e) ++ [te_res e]) ++ [te_hdr e] ++
    (le_bytes 4 (te_dsize e) ++ te_ext e ++ te_data e ++ te_pad e) ++ r)
    by (rewrite te_bytes_split; by rewrite <- !app_assoc).
  rewrite Ea in HQ |- *. apply wp_field_mid; [rewrite !length_app, le_bytes_length; simpl; lia|done|].
  simpl of_le. by rewrite Z.add_0_r.
Qed.

Lemma wp_data_size va a e r (Q : Z → list Z → Prop) :
  va = tl + Z.of_nat (length a) → te_ok e → Q (te_dsize e) (a ++ te_bytes e ++ r) →
  wp (data_size tl va) (a ++ te_bytes e ++ r) Q.
Proof.
  intros E [] HQ. unfold data_size.
  assert (Ea : a ++ te_bytes e ++ r = (a ++ le_bytes 2 (te_tag e) ++ [te_res e; te_hdr e]) ++
    le_bytes 4 (te_dsize e) ++ (te_ext e ++ te_data e ++ te_pad e) ++ r)
    by (rewrite te_bytes_split; by rewrite <- !app_assoc).
  rewrite Ea in HQ |- *. apply wp_field_mid; [rewrite !length_app, le_bytes_length; simpl; lia|done|].
  rewrite of_le_bytes; [done|]. unfold te_dsize in *. lia.
Qed.

(** ** Enumeration *)

(** The address after the entries [pre]. *)
Definition va_after (pre : list tl_entry) : Z := tl + body_size pre.

(** What is mapped is known to be there. *)
Lemma tl_mem_eq h ents rest :
  tl_mem h ents rest = th_bytes h (body_size ents) ++ body ents ++ rest.
Proof. done. Qed.

Lemma tl_mem_at h pre post rest :
  tl_mem h (pre ++ post) rest =
  (th_bytes h (body_size (pre ++ post)) ++ body pre) ++ body post ++ rest.
Proof. unfold tl_mem. by rewrite body_app, <- !app_assoc. Qed.

Lemma body_size_app pre post : body_size (pre ++ post) = body_size pre + Z.of_nat (length (body post)).
Proof. unfold body_size. rewrite body_app, length_app. lia. Qed.

Lemma body_size_range ents : 24 ≤ body_size ents.
Proof. unfold body_size, sizeof_tl. lia. Qed.

Lemma length_before h pre post :
  Z.of_nat (length (th_bytes h (body_size (pre ++ post)) ++ body pre)) = body_size pre.
Proof. rewrite length_app, length_th_bytes. unfold body_size, sizeof_tl. lia. Qed.

Lemma va_after_divide h ents pre rest :
  tl_ok tl h ents rest → pre `prefix_of` ents → (8 | va_after pre).
Proof.
  intros [] [post ->]. unfold va_after, body_size. apply Forall_app in tl_ok_ents0 as [F _].
  apply Z.divide_add_r; [done|]. apply Z.divide_add_r; [by exists 3|by apply body_divide].
Qed.

(** The sizes of an entry of a list. *)
Lemma entry_sizes h pre e post rest :
  tl_ok tl h (pre ++ e :: post) rest → te_ok e ∧
  body_size (pre ++ e :: post) = body_size pre + te_total e + Z.of_nat (length (body post)) ∧
  va_after (pre ++ [e]) = va_after pre + te_total e ∧
  0 < va_after pre ∧ tl + body_size (pre ++ e :: post) + 2 ^ 33 ≤ 2 ^ 64 ∧
  va_after pre ≤ tl + body_size (pre ++ e :: post) ∧ body_size (pre ++ e :: post) < 2 ^ 32.
Proof.
  intros []. apply Forall_app in tl_ok_ents0 as [_ F]. apply Forall_cons in F as [Ok _].
  unfold va_after. rewrite !body_size_app, !body_cons, !length_app.
  assert (te_total e = Z.of_nat (length (te_bytes e))) by done.
  pose proof (body_size_range pre). destruct tl_ok_head0.
  rewrite body_size_app, body_cons, length_app in *. split_and!; try done. all: try (change (length (body [])) with 0%nat; lia).
Qed.

Lemma round_end_entry h pre e post rest :
  tl_ok tl h (pre ++ e :: post) rest →
  round_end (te_hdr e) (te_dsize e) (va_after pre) = Some (va_after (pre ++ [e])).
Proof.
  intros Ok. destruct (entry_sizes _ _ _ _ _ Ok) as (Oe & _ & Ev & ? & ? & ? & ?).
  pose proof (te_hdr_range e Oe). pose proof Oe as []. unfold te_dsize in *.
  rewrite round_end_spec by lia. f_equal. pose proof (te_total_eq e). unfold te_dsize in *.
  apply up8_unique; [lia|]. eapply va_after_divide; [exact Ok|]. exists post. by rewrite <- app_assoc.
Qed.

(** The address of the current entry, 0 before the first. *)
Definition cur_of (pre : list tl_entry) : Z :=
  match reverse pre with [] => 0 | _ :: r => va_after (reverse r) end.

Lemma cur_of_snoc pre e : cur_of (pre ++ [e]) = va_after pre.
Proof. unfold cur_of. rewrite reverse_snoc. by rewrite reverse_involutive. Qed.

Lemma wp_next_va h pre post rest (Q : option Z → list Z → Prop) :
  tl_ok tl h (pre ++ post) rest → Q (Some (va_after pre)) (tl_mem h (pre ++ post) rest) →
  wp (next_va tl (cur_of pre)) (tl_mem h (pre ++ post) rest) Q.
Proof.
  intros Ok HQ. destruct pre as [|e pre _] using rev_ind.
  - change (cur_of []) with 0. unfold next_va. change (negb (0 =? 0)) with false. cbv beta iota.
    st_step. apply wp_tl_hdr_size. st_step. destruct Ok. pose proof (body_size_range ([] ++ post)).
    rewrite u64_id by (unfold sizeof_tl; lia). exact HQ.
  - rewrite cur_of_snoc. rewrite <- app_assoc in Ok, HQ |- *. simpl in Ok, HQ |- *.
    destruct (entry_sizes _ _ _ _ _ Ok) as (Oe & _ & Ev & ? & _). unfold next_va.
    destruct (Z.eqb_spec (va_after pre) 0); [lia|]. cbn [negb].
    rewrite tl_mem_at, body_cons, <- (app_assoc (te_bytes e)) in HQ |- *.
    pose proof (length_before h pre (e :: post)).
    st_step. apply wp_hdr_size; [unfold va_after; lia|done|].
    st_step. apply wp_data_size; [unfold va_after; lia|done|]. st_step.
    by rewrite (round_end_entry _ _ _ _ _ Ok).
Qed.

Lemma wp_next h pre post rest (Q : Z → list Z → Prop) :
  tl_ok tl h (pre ++ post) rest →
  Q (match post with [] => 0 | _ => va_after pre end) (tl_mem h (pre ++ post) rest) →
  wp (transfer_list_next tl (cur_of pre)) (tl_mem h (pre ++ post) rest) Q.
Proof.
  intros Ok HQ. unfold transfer_list_next. destruct (Z.eqb_spec tl 0); [destruct Ok; lia|].
  assert (Es : u64 (tl + body_size (pre ++ post)) = tl + body_size (pre ++ post)).
  { destruct Ok. pose proof (body_size_range (pre ++ post)). apply u64_id. lia. }
  st_step. apply wp_tl_size.
  { destruct Ok as [_ _ _ [] _ ?]. pose proof (body_size_range (pre ++ post)). lia. }
  rewrite <- tl_mem_eq, Es. st_step. apply wp_next_va; [done|]. cbv beta iota.
  destruct post as [|e post].
  - rewrite app_nil_r in Ok |- *. rewrite app_nil_r in HQ. destruct Ok. pose proof (body_size_range pre). unfold va_after, sizeof_te.
    rewrite u64_id by lia. destruct (Z.ltb_spec (tl + body_size pre) (tl + body_size pre + 8)); [|lia]. by st_step.
  - destruct (entry_sizes _ _ _ _ _ Ok) as (Oe & Eb & Ev & ? & ? & ? & ?).
    pose proof (te_hdr_range e Oe). pose proof Oe as []. pose proof (te_total_eq e). unfold te_dsize in *.
    assert (tl + body_size (pre ++ e :: post) = va_after pre + te_total e + Z.of_nat (length (body post)))
      by (unfold va_after; lia).
    rewrite u64_id by (unfold sizeof_te; lia). unfold sizeof_te.
    destruct (Z.ltb_spec (tl + body_size (pre ++ e :: post)) (va_after pre + 8)); [lia|].
    rewrite tl_mem_at, body_cons, <- (app_assoc (te_bytes e)) in HQ |- *.
    pose proof (length_before h pre (e :: post)).
    st_step. apply wp_hdr_size; [unfold va_after; lia|done|].
    destruct (Z.ltb_spec (te_hdr e) 8); [lia|].
    st_step. apply wp_data_size; [unfold va_after; lia|done|]. st_step.
    unfold ADD_OVERFLOW, te_dsize.
    destruct (Z.ltb_spec (te_hdr e + Z.of_nat (length (te_data e))) (2 ^ 64)); [|lia].
    destruct (Z.ltb_spec (va_after pre + (te_hdr e + Z.of_nat (length (te_data e)))) (2 ^ 64)); [|lia].
    destruct (Z.ltb_spec (tl + body_size (pre ++ e :: post))
      (va_after pre + (te_hdr e + Z.of_nat (length (te_data e))))); [lia|]. done.
Qed.

(** Where the first entry with a tag is. *)
Fixpoint tag_va (tag : Z) (pre post : list tl_entry) : Z :=
  match post with
  | [] => 0
  | e :: post => if te_tag e =? tag then va_after pre else tag_va tag (pre ++ [e]) post
  end.

(** The entry after [pre], with its parts of the memory. *)
Lemma wp_on_entry {A} (m : TL A) h pre e post rest (Q : A → list Z → Prop) :
  (∀ a r, va_after pre = tl + Z.of_nat (length a) → tl_mem h (pre ++ e :: post) rest = a ++ te_bytes e ++ r →
    wp m (a ++ te_bytes e ++ r) Q) → wp m (tl_mem h (pre ++ e :: post) rest) Q.
Proof.
  intros H. pose proof (length_before h pre (e :: post)) as L.
  specialize (H _ (body post ++ rest) ltac:(unfold va_after; by rewrite L)).
  rewrite tl_mem_at, body_cons, <- (app_assoc (te_bytes e)) in H |- *. by apply H.
Qed.

Lemma wp_find_loop tag fuel : ∀ h pre post rest (Q : Z → list Z → Prop),
  tl_ok tl h (pre ++ post) rest → (length post < fuel)%nat →
  Q (tag_va tag pre post) (tl_mem h (pre ++ post) rest) →
  wp (find_loop tl fuel tag (cur_of pre)) (tl_mem h (pre ++ post) rest) Q.
Proof.
  induction fuel as [|fuel IH]; intros h pre post rest Q Ok Hf HQ; [lia|]. simpl.
  st_step. apply wp_next; [done|]. destruct post as [|e post].
  { change (0 =? 0) with true. cbv iota. by st_step. }
  destruct (entry_sizes _ _ _ _ _ Ok) as (Oe & _ & _ & ? & _).
  destruct (Z.eqb_spec (va_after pre) 0); [lia|]. st_step.
  apply wp_on_entry. intros a r Ea Em. apply wp_tag_id; [done|done|]. rewrite <- Em. simpl in HQ.
  destruct (te_tag e =? tag); [by st_step|].
  rewrite <- (cur_of_snoc pre e). replace (pre ++ e :: post) with ((pre ++ [e]) ++ post) in *
    by (by rewrite <- app_assoc). apply IH; [done|simpl in Hf; lia|done].
Qed.

(** What [transfer_list_dump] prints of the entries after [pre]. *)
Fixpoint dump_of (pre post : list tl_entry) : list (Z * Z * Z * Z) :=
  match post with
  | [] => []
  | e :: post =>
      (te_tag e, te_hdr e, te_dsize e, va_after pre + te_hdr e) :: dump_of (pre ++ [e]) post
  end.

Lemma wp_dump_loop fuel : ∀ h pre post rest (Q : list (Z * Z * Z * Z) → list Z → Prop),
  tl_ok tl h (pre ++ post) rest → (length post < fuel)%nat →
  Q (dump_of pre post) (tl_mem h (pre ++ post) rest) →
  wp (dump_loop tl fuel (cur_of pre)) (tl_mem h (pre ++ post) rest) Q.
Proof.
  induction fuel as [|fuel IH]; intros h pre post rest Q Ok Hf HQ; [lia|]. simpl.
  st_step. apply wp_next; [done|]. destruct post as [|e post].
  { change (0 =? 0) with true. cbv iota. by st_step. }
  destruct (entry_sizes _ _ _ _ _ Ok) as (Oe & _ & _ & ? & _).
  destruct (Z.eqb_spec (va_after pre) 0) as [|N]; [lia|]. st_step.
  apply wp_on_entry. intros a r Ea Em. apply wp_tag_id; [done|done|].
  st_step. apply wp_hdr_size; [done|done|]. st_step. apply wp_data_size; [done|done|]. st_step.
  unfold transfer_list_entry_data. destruct (Z.eqb_spec (va_after pre) 0); [done|].
  st_step. apply wp_hdr_size; [done|done|]. st_step. st_step. rewrite <- Em.
  rewrite <- (cur_of_snoc pre e). replace (pre ++ e :: post) with ((pre ++ [e]) ++ post) in *
    by (by rewrite <- app_assoc). apply IH; [done|simpl in Hf; lia|]. rewrite cur_of_snoc. by st_step.
Qed.

(** ** Changes *)

Definition resealed (h : tl_head) (ents : list tl_entry) : tl_head := reseal h (body_size ents) (body ents).

Lemma wp_update_mem h ents rest (Q : unit → list Z → Prop) :
  0 < tl → th_ok h → body_size ents < 2 ^ 32 → Q tt (tl_mem (resealed h ents) ents rest) →
  wp (transfer_list_update_checksum tl) (tl_mem h ents rest) Q.
Proof. intros. by apply wp_update_checksum. Qed.

(** *** Removing *)

Definition emptied (e : tl_entry) : tl_entry := mk_te TL_TAG_EMPTY 0 (te_ext e) (te_data e) (te_pad e).

Lemma te_total_emptied e : te_total (emptied e) = te_total e.
Proof. by rewrite !te_total_eq. Qed.

Lemma emptied_ok e : te_ok e → te_ok (emptied e).
Proof. intros []. split; simpl; try done. Qed.

(** An entry is replaced by one of the same size. *)
Lemma replace_ok h pre e e' post rest :
  te_ok e' → te_total e' = te_total e → tl_ok tl h (pre ++ e :: post) rest → tl_ok tl h (pre ++ e' :: post) rest.
Proof.
  intros Oe Et []. unfold te_total in Et.
  assert (Eb : body_size (pre ++ e' :: post) = body_size (pre ++ e :: post))
    by (rewrite !body_size_app, !body_cons, !length_app; lia).
  rewrite <- Eb in *. split; try done. apply Forall_app in tl_ok_ents0 as [F1 F2].
  apply Forall_cons in F2 as [_ F2]. apply Forall_app. split; [done|]. by apply Forall_cons.
Qed.

(** The memory around an entry. *)
Lemma entry_parts h pre e post rest : ∃ a r, va_after pre = tl + Z.of_nat (length a) ∧
  ∀ e', te_total e' = te_total e → tl_mem h (pre ++ e' :: post) rest = a ++ te_bytes e' ++ r.
Proof.
  exists (th_bytes h (body_size (pre ++ e :: post)) ++ body pre), (body post ++ rest).
  split; [unfold va_after; by rewrite length_before|]. intros e' Et. unfold te_total in Et.
  rewrite tl_mem_at, body_cons, <- !app_assoc.
  replace (body_size (pre ++ e' :: post)) with (body_size (pre ++ e :: post)); [done|].
  rewrite !body_size_app, !body_cons, !length_app. lia.
Qed.

Lemma reseal_mem_ok h ents rest : tl_ok tl h ents rest → tl_ok tl (resealed h ents) ents rest.
Proof.
  intros []. split; try done; [by apply reseal_ok|]. unfold resealed. by rewrite reseal_max.
Qed.

Lemma wp_rem h pre e post rest (Q : bool → list Z → Prop) :
  let ents := pre ++ emptied e :: post in
  tl_ok tl h (pre ++ e :: post) rest →
  Q true (tl_mem (resealed h ents) ents rest) →
  wp (transfer_list_rem tl (va_after pre)) (tl_mem h (pre ++ e :: post) rest) Q.
Proof.
  intros ents Ok HQ. destruct (entry_sizes _ _ _ _ _ Ok) as (Oe & _ & _ & ? & ? & ? & ?).
  pose proof (body_size_range (pre ++ e :: post)). unfold transfer_list_rem.
  destruct (Z.eqb_spec tl 0); [destruct Ok; lia|]. destruct (Z.eqb_spec (va_after pre) 0); [lia|].
  cbn [orb]. st_step. apply wp_tl_size; [lia|].
  rewrite u64_id by (destruct Ok; lia).
  destruct (Z.ltb_spec (tl + body_size (pre ++ e :: post)) (va_after pre)); [lia|].
  rewrite <- tl_mem_eq. destruct (entry_parts h pre e post rest) as (a & r & Ea & Em).
  rewrite (Em e eq_refl), te_bytes_split, <- app_assoc.
  st_step. apply wp_set_field_mid; [done|done|].
  change ([te_res e; te_hdr e]) with ([te_res e] ++ [te_hdr e]).
  rewrite <- !app_assoc, app_assoc. st_step.
  apply wp_set_field_mid; [rewrite length_app, le_bytes_length; lia|done|].
  specialize (Em (emptied e) (te_total_emptied e)).
  rewrite te_bytes_split, <- !app_assoc in Em. rewrite <- !app_assoc. change (le_bytes 1 0) with [0].
  change ([te_res (emptied e); te_hdr (emptied e)]) with ([0] ++ [te_hdr e]) in Em.
  rewrite <- !app_assoc in Em.
  match goal with |- wp _ ?m _ => replace m with (tl_mem h ents rest) by exact Em end.
  assert (Ok' : tl_ok tl h ents rest).
  { apply (replace_ok h pre e); [by apply emptied_ok|apply te_total_emptied|done]. }
  st_step. apply wp_update_mem; [apply Ok|apply Ok'|destruct Ok'; destruct tl_ok_head0; lia|]. by st_step.
Qed.

(** *** Adding *)

(** The entry that is made of the bytes after the list. *)
Definition new_entry (tag n : Z) (rest : list Z) : tl_entry :=
  let room := up8 (sizeof_te + n) in
  mk_te tag 0 [] (slice 8 n rest) (slice (8 + n) (room - 8 - n) rest).

Lemma new_entry_size tag n rest :
  0 ≤ n → up8 (sizeof_te + n) ≤ Z.of_nat (length rest) →
  length (te_data (new_entry tag n rest)) = Z.to_nat n ∧ te_total (new_entry tag n rest) = up8 (sizeof_te + n).
Proof.
  intros Hn Hr. unfold sizeof_te in *. pose proof (up8_bounds (8 + n)).
  assert (L : length (te_data (new_entry tag n rest)) = Z.to_nat n).
  { simpl. rewrite length_slice by lia. done. }
  split; [done|]. rewrite te_total_eq. unfold te_dsize. rewrite L. unfold te_hdr, new_entry, sizeof_te. simpl.
  rewrite length_slice by lia. lia.
Qed.

Lemma new_entry_ok tag n rest :
  0 ≤ tag < 2 ^ 16 → 0 ≤ n < 2 ^ 32 → up8 (sizeof_te + n) ≤ Z.of_nat (length rest) → Forall is_byte rest →
  te_ok (new_entry tag n rest).
Proof.
  intros Ht Hn Hr Hb. destruct (new_entry_size tag n rest) as [L T]; [lia|done|].
  unfold sizeof_te in *. pose proof (up8_bounds (8 + n)). split; try done.
  - unfold te_dsize. lia.
  - simpl. apply Forall_app. split; apply Forall_take, Forall_drop, Hb.
  - simpl. unfold sizeof_te. rewrite length_slice by lia. lia.
  - rewrite T. apply up8_bounds.
Qed.

Lemma drop_slice a b (l : list Z) : 0 ≤ a → 0 ≤ b →
  drop (Z.to_nat a) l = slice a b l ++ drop (Z.to_nat (a + b)) l.
Proof.
  intros. unfold slice. rewrite <- (take_drop (Z.to_nat b) (drop (Z.to_nat a) l)) at 1.
  f_equal. rewrite drop_drop. f_equal. lia.
Qed.

(** Where the first bytes are those of the header of the new entry. *)
Lemma new_entry_bytes tag n rest :
  0 ≤ n → up8 (sizeof_te + n) ≤ Z.of_nat (length rest) →
  te_header tag sizeof_te n ++ drop 8 rest =
  te_bytes (new_entry tag n rest) ++ drop (Z.to_nat (up8 (sizeof_te + n))) rest.
Proof.
  intros Hn Hr. destruct (new_entry_size tag n rest Hn Hr) as [L _]. unfold te_header, te_bytes, te_dsize.
  rewrite L, Z2Nat.id by lia. unfold sizeof_te in *. pose proof (up8_bounds (8 + n)).
  rewrite <- !app_assoc. do 3 f_equal. simpl te_ext. simpl app.
  change (drop 8 rest) with (drop (Z.to_nat 8) rest). rewrite (drop_slice 8 n) by lia. simpl te_data. f_equal.
  simpl te_pad. rewrite (drop_slice (8 + n) (up8 (8 + n) - 8 - n)) by lia. f_equal. f_equal. lia.
Qed.

Lemma up8_shift a x : (8 | a) → up8 (a + x) = a + up8 x.
Proof. intros [k ->]. unfold up8. lia. Qed.

Lemma body_size_divide h ents rest : tl_ok tl h ents rest → (8 | tl + body_size ents).
Proof. intros Ok. apply (va_after_divide h ents ents rest Ok). by exists []; rewrite app_nil_r. Qed.

Lemma snoc_ok h ents rest e rest' :
  tl_ok tl h ents rest → te_ok e → body_size ents + te_total e ≤ th_max_size h →
  Z.of_nat (length rest) = te_total e + Z.of_nat (length rest') →
  tl_ok tl h (ents ++ [e]) rest' ∧ body_size (ents ++ [e]) = body_size ents + te_total e.
Proof.
  intros [] Oe Hm Hl. assert (E : body_size (ents ++ [e]) = body_size ents + te_total e).
  { rewrite body_size_app. unfold te_total, body. simpl. by rewrite app_nil_r. }
  split; [|done]. split; rewrite ?E; try done; try lia. apply Forall_app. split; [done|]. by apply Forall_singleton.
Qed.

(** There is room for an entry with [n] bytes of data. *)
Definition fits_in (h : tl_head) (ents : list tl_entry) (n : Z) : bool :=
  body_size ents + up8 (sizeof_te + n) <=? th_max_size h.

Lemma wp_add h ents rest tag n (Q : Z → list Z → Prop) :
  let e := new_entry tag n rest in
  tl_ok tl h ents rest → 0 ≤ tag < 2 ^ 16 → 0 ≤ n < 2 ^ 32 → Forall is_byte rest →
  (fits_in h ents n = false → Q 0 (tl_mem h ents rest)) →
  (fits_in h ents n = true →
     tl_ok tl h (ents ++ [e]) (drop (Z.to_nat (te_total e)) rest) →
     Q (va_after ents)
       (tl_mem (resealed h (ents ++ [e])) (ents ++ [e]) (drop (Z.to_nat (te_total e)) rest))) →
  wp (transfer_list_add tl tag n None) (tl_mem h ents rest) Q.
Proof.
  intros e Ok Ht Hn Hb HN HS. pose proof Ok as []. pose proof (body_size_range ents).
  pose proof tl_ok_head0 as [_ _ _ Hmx _]. unfold transfer_list_add.
  destruct (Z.eqb_spec tl 0); [lia|]. st_step. apply wp_tl_max_size; [done|].
  st_step. apply wp_tl_size; [lia|]. rewrite <- tl_mem_eq. rewrite !u64_id by lia.
  rewrite round_end_spec by (unfold sizeof_te; lia).
  rewrite up8_shift by by eapply body_size_divide. unfold fits_in in HN, HS.
  pose proof (up8_bounds (sizeof_te + n)). unfold sizeof_te in *.
  destruct (Z.ltb_spec (tl + th_max_size h) (tl + body_size ents + up8 (8 + n))).
  { st_step. apply HN. apply Z.leb_gt. lia. }
  specialize (HS ltac:(apply Z.leb_le; lia)).
  destruct (new_entry_size tag n rest) as [L T]; [lia|unfold sizeof_te; lia|].
  assert (Oe : te_ok e) by (apply new_entry_ok; unfold sizeof_te; try done; lia).
  unfold sizeof_te in *. fold e in L, T. rewrite T in *.
  destruct (snoc_ok h ents rest e (drop (Z.to_nat (up8 (8 + n))) rest)) as [Ok' Eb];
    [done|done|lia|rewrite length_drop; lia|]. rewrite T in Eb.
  st_step. unfold tl_mem. rewrite <- (take_drop 8 rest), app_assoc.
  apply wp_store_mid; [rewrite length_app, length_th_bytes; unfold body_size, sizeof_tl in *; lia| |].
  { rewrite length_take. change (length (te_header tag 8 n)) with 8%nat. lia. }
  rewrite <- app_assoc. st_step. apply wp_set_tl_size. st_step. st_step.
  replace (tl + body_size ents + up8 (8 + n) - (tl + body_size ents)) with (up8 (8 + n)) by lia.
  rewrite u32_id, <- Eb by lia.
  match goal with |- wp _ ?m _ => assert (Em : m = tl_mem h (ents ++ [e]) (drop (Z.to_nat (up8 (8 + n))) rest)) end.
  { unfold tl_mem. do 1 f_equal. rewrite body_app, <- !app_assoc. f_equal.
    unfold body. simpl. rewrite app_nil_r. apply new_entry_bytes; unfold sizeof_te; lia. }
  rewrite Em. st_step. apply wp_update_mem; [done|done|lia|]. st_step. by apply HS.
Qed.

(** *** Changing the size of the data *)

(** The room an entry has after the change, for ends [old] and [new] of the
    entry before and after it, both multiples of eight; what is left of the
    room becomes a void entry. *)
Definition grown (k old new : Z) : Z := old + (new - old + (2 ^ k - 1)) / 2 ^ k * 2 ^ k.

Definition shrunk (k old new : Z) : Z := old - (old - new) / 2 ^ k * 2 ^ k.

Definition room_for (k old new size max : Z) : option Z :=
  if old <? new then if max <? size + (grown k old new - old) then None else Some (grown k old new)
  else Some (shrunk k old new).

Lemma divide_8_pow2 k x : 0 ≤ k → (8 | x) → (8 | x / 2 ^ k * 2 ^ k).
Proof.
  intros Hk [q ->]. destruct (Z.le_gt_cases 3 k).
  - apply Z.divide_mul_r. exists (2 ^ (k - 3)). change 8 with (2 ^ 3). rewrite <- Z.pow_add_r by lia. f_equal. lia.
  - assert (k = 0 ∨ k = 1 ∨ k = 2) as [->|[->| ->]] by lia; exists q; lia.
Qed.

Lemma up_pow2 k x : 0 ≤ k → (8 | x) →
  x ≤ (x + (2 ^ k - 1)) / 2 ^ k * 2 ^ k < x + 2 ^ k ∧ (8 | (x + (2 ^ k - 1)) / 2 ^ k * 2 ^ k).
Proof.
  intros Hk [q ->]. pose proof (pow2_pos k Hk).
  pose proof (Z.div_mod (q * 8 + (2 ^ k - 1)) (2 ^ k) ltac:(lia)).
  pose proof (Z.mod_pos_bound (q * 8 + (2 ^ k - 1)) (2 ^ k) ltac:(lia)).
  split; [lia|]. destruct (Z.le_gt_cases 3 k).
  - apply Z.divide_mul_r. exists (2 ^ (k - 3)). change 8 with (2 ^ 3). rewrite <- Z.pow_add_r by lia. f_equal. lia.
  - assert (k = 0 ∨ k = 1 ∨ k = 2) as [->|[->| ->]] by lia; exists q; lia.
Qed.

Lemma grown_bounds k old new : 0 ≤ k → (8 | old) → (8 | new) →
  new ≤ grown k old new < new + 2 ^ k ∧ (8 | grown k old new).
Proof.
  intros Hk Ho Hn. unfold grown. destruct (up_pow2 k (new - old) Hk) as [B D].
  { by apply Z.divide_sub_r. }
  split; [lia|]. by apply Z.divide_add_r.
Qed.

Lemma shrunk_bounds k old new : 0 ≤ k → (8 | old) → (8 | new) → new ≤ old →
  new ≤ shrunk k old new ≤ old ∧ (8 | shrunk k old new).
Proof.
  intros Hk Ho Hn Hle. unfold shrunk. pose proof (pow2_pos k Hk).
  pose proof (Z.div_mod (old - new) (2 ^ k) ltac:(lia)).
  pose proof (Z.mod_pos_bound (old - new) (2 ^ k) ltac:(lia)).
  assert (0 ≤ (old - new) / 2 ^ k * 2 ^ k) by (apply Z.mul_nonneg_nonneg; [apply Z.div_pos|]; lia).
  split; [lia|]. apply Z.divide_sub_r; [done|]. apply divide_8_pow2; [done|]. by apply Z.divide_sub_r.
Qed.

Lemma room_for_bounds k old new size max r : 0 ≤ k → (8 | old) → (8 | new) →
  room_for k old new size max = Some r →
  new ≤ r ∧ (8 | r) ∧ (old < new → size + (r - old) ≤ max) ∧ (new ≤ old → r ≤ old).
Proof.
  intros Hk Ho Hn. unfold room_for. destruct (Z.ltb_spec old new).
  - destruct (Z.ltb_spec max (size + (grown k old new - old))); [done|]. intros [= <-].
    destruct (grown_bounds k old new Hk Ho Hn). split_and!; try done; lia.
  - intros [= <-]. destruct (shrunk_bounds k old new Hk Ho Hn); [lia|]. split_and!; try done; lia.
Qed.

Lemma move_distance_spec va k old new size max :
  0 ≤ k < 32 → (8 | old) → (8 | new) → 0 ≤ va → 0 ≤ old ≤ size → 0 ≤ new < 2 ^ 32 + 2 ^ 9 → size < 2 ^ 32 →
  max < 2 ^ 32 → va + 2 ^ 33 ≤ 2 ^ 64 →
  move_distance (va + old) (va + new) (2 ^ k) size max =
  (λ r, (va + r, size + (r - old))) <$> room_for k old new size max.
Proof.
  intros Hk Ho Hn Hva Hos Hnb Hs Hm Ht. pose proof (pow2_pos k ltac:(lia)).
  assert (2 ^ k ≤ 2 ^ 31) by (apply Z.pow_le_mono_r; lia).
  unfold move_distance, room_for.
  replace (va + new - (va + old)) with (new - old) by lia.
  replace (va + old - (va + new)) with (old - new) by lia.
  destruct (Z.ltb_spec (va + old) (va + new)); destruct (Z.ltb_spec old new); try lia.
  - rewrite ROUNDUP_OVERFLOW_spec, ROUNDUP_spec by lia. unfold grown.
    destruct (up_pow2 k (new - old)) as [B _]; [lia|by apply Z.divide_sub_r|].
    set (m := (new - old + (2 ^ k - 1)) / 2 ^ k * 2 ^ k) in *.
    rewrite (u64_id (size + m)) by lia. replace (old + m - old) with m by lia.
    destruct (Z.ltb_spec max (size + m)); [done|]. simpl. rewrite u64_id, u32_id by lia. do 2 f_equal; lia.
  - simpl. rewrite ROUNDDOWN_spec by lia.
    destruct (shrunk_bounds k old new) as [B _]; [lia|done..|lia|]. unfold shrunk in *.
    set (m := (old - new) / 2 ^ k * 2 ^ k) in *. rewrite u32_id by lia. do 2 f_equal; lia.
Qed.

(** What follows the header of an entry. *)
Definition tail_of (e : tl_entry) (post : list tl_entry) (rest : list Z) : list Z :=
  te_data e ++ te_pad e ++ body post ++ rest.

(** The bytes of an entry up to its data. *)
Definition te_head (e : tl_entry) (n : Z) : list Z :=
  (le_bytes 2 (te_tag e) ++ [te_res e; te_hdr e]) ++ le_bytes 4 n ++ te_ext e.

Lemma te_bytes_head e : te_bytes e = te_head e (te_dsize e) ++ te_data e ++ te_pad e.
Proof. unfold te_bytes, te_head. by rewrite <- !app_assoc. Qed.

Lemma length_te_head e n : Z.of_nat (length (te_head e n)) = te_hdr e.
Proof. unfold te_head, te_hdr, sizeof_te. rewrite !length_app, !le_bytes_length. simpl. lia. Qed.

(** The entry with [n] bytes of data that ends at [new], made of [dat], and the
    void entry in the rest of its room. *)
Definition resized_te (e : tl_entry) (n new : Z) (dat : list Z) : tl_entry :=
  mk_te (te_tag e) (te_res e) (te_ext e) (take (Z.to_nat n) dat) (slice n (new - te_hdr e - n) dat).

Definition gap_te (gap : list Z) : list tl_entry :=
  if 8 <=? Z.of_nat (length gap) then [mk_te TL_TAG_EMPTY 0 [] (drop 8 gap) []] else [].

Definition new_end (e : tl_entry) (n : Z) : Z := up8 (te_hdr e + n).

(** The entries and the memory after them when the room becomes [r]. *)
Definition resized_dat (e : tl_entry) (post : list tl_entry) (rest : list Z) (r : Z) : list Z :=
  take (Z.to_nat (r - te_hdr e)) (tail_of e post rest).

Definition resized_ents (pre : list tl_entry) (e : tl_entry) (post : list tl_entry) (rest : list Z)
    (n r : Z) : list tl_entry :=
  let dat := resized_dat e post rest r in
  pre ++ resized_te e n (new_end e n) dat ::
    gap_te (drop (Z.to_nat (new_end e n - te_hdr e)) dat) ++ post.

Definition resized_rest (e : tl_entry) (post : list tl_entry) (rest : list Z) (r : Z) : list Z :=
  drop (Z.to_nat (r - te_hdr e) + length (body post)) (tail_of e post rest).

Section Resize.
Context (h : tl_head) (pre : list tl_entry) (e : tl_entry) (post : list tl_entry) (rest : list Z).
Context (n r : Z).
Context (Ok : tl_ok tl h (pre ++ e :: post) rest) (Hn : 0 ≤ n < 2 ^ 32).
Context (Hr : room_for (th_alignment h) (te_total e) (new_end e n) (body_size (pre ++ e :: post))
  (th_max_size h) = Some r).

Lemma te_ok_e : te_ok e.
Proof using Ok. by apply (entry_sizes _ _ _ _ _ Ok). Qed.

Lemma new_end_bounds : te_hdr e + n ≤ new_end e n < te_hdr e + n + 8 ∧ (8 | new_end e n).
Proof. apply up8_bounds. Qed.

Lemma length_tail : Z.of_nat (length (tail_of e post rest)) =
  te_total e - te_hdr e + Z.of_nat (length (body post)) + Z.of_nat (length rest).
Proof.
  unfold tail_of. rewrite te_total_eq, !length_app. unfold te_dsize. lia.
Qed.

(** The room is not too small and not too large. *)
Lemma room_bounds : new_end e n ≤ r ∧ (8 | r) ∧
  r - te_hdr e + Z.of_nat (length (body post)) ≤ Z.of_nat (length (tail_of e post rest)) ∧
  24 ≤ body_size (pre ++ e :: post) + (r - te_total e) ≤ th_max_size h.
Proof using Ok Hr Hn.
  pose proof te_ok_e as Oe. destruct (entry_sizes _ _ _ _ _ Ok) as (_ & Eb & _ & _ & _ & _ & Hb).
  pose proof new_end_bounds as [B D]. pose proof (te_hdr_range e Oe).
  pose proof Ok as []. pose proof tl_ok_head0 as []. pose proof (body_size_range pre).
  destruct (room_for_bounds _ _ _ _ _ _ (proj1 th_ok_alignment0) (te_ok_total e Oe) D Hr) as (R1 & R2 & R3 & R4).
  rewrite length_tail. split_and!; try done; lia.
Qed.

Lemma length_dat : Z.of_nat (length (resized_dat e post rest r)) = r - te_hdr e.
Proof using Ok Hr Hn.
  destruct room_bounds as (R1 & _ & R2 & _). pose proof new_end_bounds as [? _].
  pose proof (te_hdr_range e te_ok_e). unfold resized_dat. rewrite length_take. lia.
Qed.

(** The data, the padding and the gap. *)
Lemma dat_split :
  let e' := resized_te e n (new_end e n) (resized_dat e post rest r) in
  let gap := drop (Z.to_nat (new_end e n - te_hdr e)) (resized_dat e post rest r) in
  resized_dat e post rest r = te_data e' ++ te_pad e' ++ gap ∧
  length (te_data e') = Z.to_nat n ∧ Z.of_nat (length (te_pad e')) = new_end e n - te_hdr e - n ∧
  Z.of_nat (length gap) = r - new_end e n.
Proof using Ok Hr Hn.
  intros e' gap. pose proof length_dat. destruct room_bounds as (R1 & _ & _).
  pose proof new_end_bounds as [B _]. unfold e', gap, resized_te. simpl.
  split_and!.
  - rewrite <- (take_drop (Z.to_nat n) (resized_dat e post rest r)) at 1. f_equal.
    rewrite (drop_slice n (new_end e n - te_hdr e - n)) by lia. do 2 f_equal. lia.
  - rewrite length_take. lia.
  - rewrite length_slice by lia. lia.
  - rewrite length_drop. lia.
Qed.

Lemma resized_te_ok :
  Forall is_byte (tail_of e post rest) → te_ok (resized_te e n (new_end e n) (resized_dat e post rest r)) ∧
  te_total (resized_te e n (new_end e n) (resized_dat e post rest r)) = new_end e n.
Proof using Ok Hr Hn.
  intros Hb. destruct dat_split as (Ed & Ld & Lp & _). pose proof te_ok_e as [].
  pose proof new_end_bounds as [B D]. set (e' := resized_te _ _ _ _) in *.
  assert (Eh : te_hdr e' = te_hdr e) by done.
  assert (Et : te_total e' = new_end e n) by (rewrite te_total_eq; unfold te_dsize; lia).
  split; [|done]. split; rewrite ?Et; try done.
  - unfold te_dsize. lia.
  - apply Forall_app. split; [by apply Forall_app in te_ok_bytes0 as [? _]|].
    apply (Forall_app is_byte (te_data e' ++ te_pad e')
      (drop (Z.to_nat (new_end e n - te_hdr e)) (resized_dat e post rest r))).
    rewrite <- app_assoc, <- Ed. by apply Forall_take.
  - lia.
Qed.

Lemma gap_te_ok :
  Forall is_byte (tail_of e post rest) →
  let gap := drop (Z.to_nat (new_end e n - te_hdr e)) (resized_dat e post rest r) in
  Forall te_ok (gap_te gap) ∧ length (body (gap_te gap)) = length gap.
Proof using Ok Hr Hn.
  intros Hb gap. destruct dat_split as (_ & _ & _ & Lg). fold gap in Lg.
  destruct room_bounds as (R1 & R2 & _ & R3). pose proof new_end_bounds as [B D].
  assert (D8 : (8 | Z.of_nat (length gap))) by (rewrite Lg; by apply Z.divide_sub_r).
  unfold gap_te. destruct (Z.leb_spec 8 (Z.of_nat (length gap))).
  2: { split; [done|]. destruct D8 as [q Eq]. assert (q = 0) by lia. simpl. lia. }
  set (v := mk_te _ _ _ _ _).
  assert (Et : te_total v = Z.of_nat (length gap)).
  { rewrite te_total_eq. unfold te_dsize, te_hdr, sizeof_te, v. simpl. rewrite length_drop. lia. }
  split.
  - apply Forall_singleton. split; rewrite ?Et; try done.
    + pose proof Ok as [_ _ _ [] _ _]. destruct (entry_sizes _ _ _ _ _ Ok) as (_ & Eb & _).
      pose proof (te_hdr_range e te_ok_e). pose proof (body_size_range pre).
      unfold te_dsize, v. simpl. rewrite length_drop. lia.
    + simpl. rewrite app_nil_r. unfold gap, resized_dat. by apply Forall_drop, Forall_drop, Forall_take.
    + simpl. lia.
  - change (body [v]) with (te_bytes v ++ []). rewrite app_nil_r. unfold te_total in Et. lia.
Qed.

(** The new list, and that it is one. *)
Definition new_ents : list tl_entry := resized_ents pre e post rest n r.

Lemma resized_ok :
  Forall is_byte (tail_of e post rest) →
  tl_ok tl h new_ents (resized_rest e post rest r) ∧
  body_size new_ents = body_size (pre ++ e :: post) + (r - te_total e).
Proof using Ok Hr Hn.
  intros Hb. destruct (resized_te_ok Hb) as [O1 T1]. destruct (gap_te_ok Hb) as [O2 L2].
  destruct dat_split as (_ & _ & _ & Lg). destruct room_bounds as (R1 & R2 & R3 & R4).
  destruct (entry_sizes _ _ _ _ _ Ok) as (_ & Eb & _). pose proof new_end_bounds as [B _].
  assert (E : body_size new_ents = body_size (pre ++ e :: post) + (r - te_total e)).
  { unfold new_ents, resized_ents. rewrite body_size_app, body_cons, body_app, !length_app.
    unfold te_total in T1. lia. }
  pose proof Ok as []. split; [|done]. pose proof length_tail as Lt. pose proof (te_hdr_range e te_ok_e).
  assert (Lr : Z.of_nat (length (resized_rest e post rest r)) = Z.of_nat (length rest) - (r - te_total e)).
  { unfold resized_rest. rewrite length_drop. lia. }
  split; rewrite ?E, ?Lr; try done; try lia.
  unfold new_ents, resized_ents. apply Forall_app in tl_ok_ents0 as [F1 F2].
  apply Forall_cons in F2 as [_ F2]. apply Forall_app. split; [done|]. apply Forall_cons. split; [done|].
  by apply Forall_app.
Qed.

(** The memory before and after, in parts. *)
Lemma mem_before size :
  th_bytes h size ++ body (pre ++ e :: post) ++ rest =
  (th_bytes h size ++ body pre) ++ te_head e (te_dsize e) ++ tail_of e post rest.
Proof.
  rewrite body_app, body_cons, te_bytes_head. unfold tail_of. by rewrite <- !app_assoc.
Qed.

Lemma mem_after :
  Forall is_byte (tail_of e post rest) →
  let gap := drop (Z.to_nat (new_end e n - te_hdr e)) (resized_dat e post rest r) in
  let e' := resized_te e n (new_end e n) (resized_dat e post rest r) in
  tl_mem h new_ents (resized_rest e post rest r) =
  (th_bytes h (body_size new_ents) ++ body pre) ++ te_head e n ++ (te_data e' ++ te_pad e') ++
    body (gap_te gap) ++ body post ++ resized_rest e post rest r.
Proof using Ok Hr Hn.
  intros Hb gap e'. unfold tl_mem, new_ents, resized_ents. fold gap e'.
  rewrite body_app, body_cons, body_app, te_bytes_head.
  destruct dat_split as (_ & Ld & _). fold e' in Ld.
  replace (te_dsize e') with n by (unfold te_dsize; lia). rewrite <- !app_assoc. done.
Qed.

(** [memmove] of the entries that follow. *)
Lemma wp_move_entries a hd (Q : unit → list Z → Prop) :
  Z.of_nat (length hd) = te_hdr e →
  Q tt (a ++ hd ++ resized_dat e post rest r ++ body post ++ resized_rest e post rest r) →
  wp (move_bytes (Z.of_nat (length a) + r) (Z.of_nat (length a) + te_total e) (Z.of_nat (length (body post))))
    (a ++ hd ++ tail_of e post rest) Q.
Proof using Ok Hr Hn.
  intros Lh HQ. pose proof length_tail as Lt. pose proof length_dat as Ld.
  destruct room_bounds as (R1 & _ & R3 & _). pose proof new_end_bounds as [B _].
  pose proof (te_hdr_range e te_ok_e). pose proof (te_total_eq e) as Et.
  unfold te_dsize in Et. unfold move_bytes. st_step. apply wp_load; [lia..|rewrite !length_app; lia|].
  assert (Em : a ++ hd ++ tail_of e post rest =
    (a ++ hd ++ te_data e ++ te_pad e) ++ body post ++ rest)
    by (unfold tail_of; by rewrite <- !app_assoc).
  rewrite Em at 1. rewrite slice_mid; [|rewrite !length_app; unfold te_dsize in *; lia|done].
  assert (Es : tail_of e post rest = resized_dat e post rest r ++
    slice (r - te_hdr e) (Z.of_nat (length (body post))) (tail_of e post rest) ++ resized_rest e post rest r).
  { rewrite <- (take_drop (Z.to_nat (r - te_hdr e)) (tail_of e post rest)) at 1. f_equal.
    rewrite (drop_slice (r - te_hdr e) (Z.of_nat (length (body post)))) by lia. f_equal.
    unfold resized_rest. f_equal. lia. }
  rewrite Es, !app_assoc, <- (app_assoc _ (slice _ _ _)), <- (app_assoc a).
  apply wp_store_mid; [rewrite !length_app; lia|rewrite length_slice by lia; lia|].
  rewrite <- !app_assoc. exact HQ.
Qed.

(** The void entry in the gap. *)
Lemma wp_fill_gap a gap b (Q : unit → list Z → Prop) :
  Z.of_nat (length gap) < 2 ^ 32 → (8 | Z.of_nat (length gap)) → Q tt (a ++ body (gap_te gap) ++ b) →
  wp (if sizeof_te <=? Z.of_nat (length gap)
      then store (Z.of_nat (length a)) (te_header TL_TAG_EMPTY sizeof_te (u32 (Z.of_nat (length gap) - sizeof_te)))
      else mret tt) (a ++ gap ++ b) Q.
Proof.
  intros Hl D HQ. unfold sizeof_te, gap_te in *. destruct (Z.leb_spec 8 (Z.of_nat (length gap))).
  2: { st_step. destruct D as [q Eq]. assert (q = 0) by lia. subst q.
    destruct gap; [exact HQ|simpl in Eq; lia]. }
  replace (a ++ gap ++ b) with (a ++ take 8 gap ++ drop 8 gap ++ b)
    by (f_equal; by rewrite app_assoc, take_drop).
  apply wp_store_mid; [done|rewrite length_take; change (length (te_header _ _ _)) with 8%nat; lia|].
  rewrite u32_id by lia.
  match goal with |- Q tt ?m => match type of HQ with Q tt ?m' => replace m with m'; [done|] end end.
  f_equal. unfold body. simpl. unfold te_bytes, te_dsize, te_hdr, sizeof_te. simpl. rewrite !app_nil_r.
  rewrite length_drop. replace (Z.of_nat (length gap - 8)) with (Z.of_nat (length gap) - 8) by lia. done.
Qed.

(** Storing the new size of the data. *)
Lemma wp_set_te_dsize a b (Q : unit → list Z → Prop) :
  va_after pre = tl + Z.of_nat (length a) → Q tt (a ++ te_head e n ++ b) →
  wp (set_field tl 4 (va_after pre + 4) n) (a ++ te_head e (te_dsize e) ++ b) Q.
Proof.
  intros Ea HQ.
  assert (E : ∀ s, a ++ te_head e s ++ b =
    (a ++ le_bytes 2 (te_tag e) ++ [te_res e; te_hdr e]) ++ le_bytes 4 s ++ te_ext e ++ b).
  { intros s. unfold te_head. by rewrite <- !app_assoc. }
  rewrite E in HQ |- *.
  apply wp_set_field_mid; [rewrite !length_app, le_bytes_length; simpl; lia|done|exact HQ].
Qed.

Lemma wp_write_resized (Q : bool → list Z → Prop) :
  Forall is_byte (tail_of e post rest) →
  Q true (tl_mem (resealed h new_ents) new_ents (resized_rest e post rest r)) →
  wp (_ ← set_tl_size tl (body_size (pre ++ e :: post) + (r - te_total e));
      _ ← move_bytes (va_after pre + r - tl) (va_after pre + te_total e - tl)
            (Z.of_nat (length (body post)));
      let gap := r - new_end e n in
      _ ← (if sizeof_te <=? gap
           then store (va_after pre + new_end e n - tl)
                  (te_header TL_TAG_EMPTY sizeof_te (u32 (gap - sizeof_te)))
           else mret tt);
      _ ← set_field tl 4 (va_after pre + 4) n;
      _ ← transfer_list_update_checksum tl;
      mret true) (tl_mem h (pre ++ e :: post) rest) Q.
Proof using Ok Hr Hn.
  intros Hb HQ. destruct (resized_ok Hb) as [Ok' Eb']. pose proof (mem_after Hb) as Ma. cbv zeta in Ma.
  destruct (gap_te_ok Hb) as [_ Lg]. destruct dat_split as (Ed & Ld & Lp & Lgap).
  destruct room_bounds as (R1 & R2 & _ & R4). pose proof new_end_bounds as [B D].
  set (gap := drop _ (resized_dat e post rest r)) in *. set (e' := resized_te _ _ _ _) in *.
  rewrite <- Eb'. st_step. rewrite tl_mem_eq. apply wp_set_tl_size. rewrite mem_before.
  set (a := th_bytes h (body_size new_ents) ++ body pre) in *.
  assert (La : Z.of_nat (length a) = body_size pre).
  { unfold a. rewrite length_app, length_th_bytes. unfold body_size, sizeof_tl. lia. }
  replace (va_after pre + r - tl) with (Z.of_nat (length a) + r) by (unfold va_after; lia).
  replace (va_after pre + te_total e - tl) with (Z.of_nat (length a) + te_total e) by (unfold va_after; lia).
  st_step. apply wp_move_entries; [apply length_te_head|]. cbv zeta. st_step.
  rewrite Ed. pose proof (te_hdr_range e te_ok_e).
  assert (Lh : Z.of_nat (length (a ++ te_head e (te_dsize e) ++ te_data e' ++ te_pad e')) =
    va_after pre + new_end e n - tl).
  { rewrite !length_app, !Nat2Z.inj_add, length_te_head, La. unfold va_after. lia. }
  replace (a ++ te_head e (te_dsize e) ++ (te_data e' ++ te_pad e' ++ gap) ++ body post ++ resized_rest e post rest r)
    with ((a ++ te_head e (te_dsize e) ++ te_data e' ++ te_pad e') ++ gap ++ body post ++ resized_rest e post rest r)
    by (by rewrite <- !app_assoc).
  rewrite <- Lh, <- Lgap.
  apply wp_fill_gap; [|rewrite Lgap; by apply Z.divide_sub_r|].
  { destruct (entry_sizes _ _ _ _ _ Ok) as (_ & Eb & _). pose proof Ok as [_ _ _ [] _ _].
    pose proof (body_size_range pre). lia. }
  rewrite <- app_assoc. st_step. rewrite <- app_assoc.
  apply wp_set_te_dsize; [unfold va_after; lia|]. rewrite <- !app_assoc in Ma |- *.
  rewrite <- Ma.
  st_step. apply wp_update_mem; [apply Ok|apply Ok| |by st_step].
  pose proof Ok' as []. destruct tl_ok_head0. lia.
Qed.

End Resize.

(** The room of an entry after a change of its size, if there is room. *)
Definition new_room (h : tl_head) (pre : list tl_entry) (e : tl_entry) (post : list tl_entry) (n : Z) : option Z :=
  room_for (th_alignment h) (te_total e) (new_end e n) (body_size (pre ++ e :: post)) (th_max_size h).

Lemma wp_set_data_size h pre e post rest n (Q : bool → list Z → Prop) :
  tl_ok tl h (pre ++ e :: post) rest → 0 ≤ n < 2 ^ 32 → Forall is_byte (tail_of e post rest) →
  match new_room h pre e post n with
  | None => Q false (tl_mem h (pre ++ e :: post) rest)
  | Some r =>
      let ents := new_ents pre e post rest n r in
      tl_ok tl h ents (resized_rest e post rest r) →
      Q true (tl_mem (resealed h ents) ents (resized_rest e post rest r))
  end →
  wp (transfer_list_set_data_size tl (va_after pre) n) (tl_mem h (pre ++ e :: post) rest) Q.
Proof.
  intros Ok Hn Hb HQ. destruct (entry_sizes _ _ _ _ _ Ok) as (Oe & Eb & Ev & ? & ? & ? & ?).
  pose proof (te_hdr_range e Oe). pose proof Oe as []. pose proof (te_total_eq e).
  pose proof Ok as []. pose proof tl_ok_head0 as []. pose proof (body_size_range pre).
  pose proof (up8_bounds (te_hdr e + n)) as [B D]. fold (new_end e n) in B, D.
  unfold te_dsize in *. unfold transfer_list_set_data_size.
  destruct (Z.eqb_spec tl 0); [lia|]. destruct (Z.eqb_spec (va_after pre) 0); [lia|]. cbn [orb].
  assert (Eva : va_after pre = tl + body_size pre) by done.
  st_step. rewrite tl_mem_eq at 1. apply wp_tl_size; [lia|]. rewrite <- tl_mem_eq.
  st_step. apply wp_on_entry. intros a b Ea Em. apply wp_hdr_size; [done|done|]. rewrite <- Em.
  st_step. apply wp_on_entry. intros a' b' Ea' Em'. apply wp_data_size; [done|done|]. rewrite <- Em'.
  rewrite (round_end_entry _ _ _ _ _ Ok), Ev, round_end_spec by lia.
  rewrite up8_shift by (eapply (va_after_divide _ _ pre); [exact Ok|by eexists]). fold (new_end e n).
  st_step. rewrite tl_mem_eq at 1. apply wp_tl_alignment. rewrite <- tl_mem_eq. st_step.
  apply (wp_run _ (2 ^ th_alignment h)).
  { unfold TL_ALIGNMENT_FROM_ORDER. destruct (Z.ltb_spec (th_alignment h) 32); [|lia].
    by rewrite Z.shiftl_1_l. }
  st_step. rewrite tl_mem_eq at 1. apply wp_tl_max_size; [done|]. rewrite <- tl_mem_eq.
  rewrite move_distance_spec; [|lia|done|done|lia..].
  unfold new_room in HQ. destruct (room_for _ _ _ _ _) as [r|] eqn:Hr; simpl fmap; cbv beta iota.
  2: { by st_step. }
  destruct (resized_ok h pre e post rest n r Ok Hn Hr Hb) as [Ok' _].
  destruct (room_bounds h pre e post rest n r Ok Hn Hr) as (R1 & _ & R3 & R4). 
  rewrite (u64_id (tl + _)) by lia.
  replace (tl + body_size (pre ++ e :: post) - (va_after pre + te_total e)) with
    (Z.of_nat (length (body post))) by lia.
  rewrite (u64_id (Z.of_nat (length (body post)))) by lia.
  replace (va_after pre + r - (va_after pre + new_end e n)) with (r - new_end e n) by lia.
  rewrite (u64_id (r - _)) by lia.
  by apply (wp_write_resized h pre e post rest n r Ok Hn Hr); [|apply HQ].
Qed.

End Rules.

#[local] Ltac Zify.zify_post_hook ::= Z.div_mod_to_equations.

(** Code on the memory that may end badly: what it ends in if it ends well. *)
Definition ends_with {S A} (m : St S A) (s : S) (a : A) : Prop := ∃ s', m s = Some (Done (a, s')).

(** The number of [n] bytes at [off]. *)
Definition num (m : list Z) (n : nat) (off : Z) : Z := of_le (slice off (Z.of_nat n) m).

Lemma num_range m n off : Forall is_byte m → 0 ≤ num m n off < 2 ^ (8 * Z.of_nat n).
Proof.
  intros H. unfold num. assert (F : Forall is_byte (slice off (Z.of_nat n) m)) by by apply Forall_take, Forall_drop.
  pose proof (of_le_range _ F) as [? U]. split; [done|]. eapply Z.lt_le_trans; [exact U|].
  apply Z.pow_le_mono_r; [lia|]. unfold slice. rewrite length_take. lia.
Qed.

Section Safe.
Context (tl : Z) (m : list Z).
Context (Htl : 0 < tl) (Hm : Forall is_byte m) (Hlen : 24 ≤ Z.of_nat (length m)).
Context (Htop : tl + Z.of_nat (length m) + 2 ^ 9 ≤ 2 ^ 64).

Lemma wp_field n va (Q : Z → list Z → Prop) :
  tl ≤ va → va + Z.of_nat n ≤ tl + Z.of_nat (length m) → Q (num m n (va - tl)) m → wp (field tl n va) m Q.
Proof. intros. unfold field. apply wp_load_le; [lia..|done]. Qed.

(** The size the header gives. *)
Definition size_of : Z := num m 4 8.

Context (Hsize : size_of ≤ Z.of_nat (length m)).

(** An entry that [transfer_list_next] may return. *)
Definition entry_at (va : Z) : Prop :=
  tl ≤ va ∧ 8 ≤ num m 1 (va + 3 - tl) ∧
  va + num m 1 (va + 3 - tl) + num m 4 (va + 4 - tl) ≤ tl + size_of.

Lemma entry_at_range va : entry_at va →
  tl ≤ va ∧ va + 8 ≤ tl + size_of ∧ 0 ≤ num m 4 (va + 4 - tl) < 2 ^ 32.
Proof using Hm. intros (? & ? & ?). pose proof (num_range m 4 (va + 4 - tl) Hm). simpl in *. lia. Qed.

Lemma wp_next_safe cur (Q : Z → list Z → Prop) :
  cur = 0 ∨ entry_at cur → Q 0 m → (∀ va, entry_at va → cur < va → Q va m) →
  wp (transfer_list_next tl cur) m Q.
Proof using All.
  intros Hc H0 HQ. unfold transfer_list_next. destruct (Z.eqb_spec tl 0); [lia|].
  pose proof (num_range m 4 8 Hm) as Rs. fold size_of in Rs. simpl in Rs.
  st_step. unfold tl_size. apply wp_field; [lia..|]. replace (tl + 8 - tl) with 8 by lia. fold size_of.
  rewrite (u64_id (tl + size_of)) by lia. st_step.
  apply (wp_mono _ _ (λ o s, s = m ∧ ∀ va, o = Some va → tl ≤ va < 2 ^ 64 - 8 ∧ cur < va)).
  - unfold next_va. destruct (Z.eqb_spec cur 0) as [->|Nc]; cbn [negb].
    + unfold tl_hdr_size. st_step. apply wp_field; [lia..|]. st_step. split; [done|]. intros va [= <-].
      pose proof (num_range m 1 (tl + 6 - tl) Hm) as R. simpl in R. rewrite u64_id by lia. lia.
    + destruct Hc as [->|Hc]; [done|]. pose proof (entry_at_range _ Hc) as (? & ? & ?).
      destruct Hc as (_ & ? & ?). unfold hdr_size, data_size.
      st_step. apply wp_field; [lia..|]. st_step. apply wp_field; [lia..|]. st_step. split; [done|].
      intros va. rewrite round_end_spec by lia. intros [= <-].
      pose proof (up8_bounds (cur + (num m 1 (cur + 3 - tl) + num m 4 (cur + 4 - tl)))). lia.
  - intros o s [-> Ho]. destruct o as [va|]; [|by st_step]. destruct (Ho va eq_refl) as [Hva Hcv].
    unfold sizeof_te. rewrite u64_id by lia. destruct (Z.ltb_spec (tl + size_of) (va + 8)); [by st_step|].
    st_step. unfold hdr_size, data_size. apply wp_field; [lia..|].
    destruct (Z.ltb_spec (num m 1 (va + 3 - tl)) 8); [by st_step|].
    st_step. apply wp_field; [lia..|]. st_step. unfold ADD_OVERFLOW.
    pose proof (num_range m 1 (va + 3 - tl) Hm). pose proof (num_range m 4 (va + 4 - tl) Hm). simpl in *.
    destruct (Z.ltb_spec (num m 1 (va + 3 - tl) + num m 4 (va + 4 - tl)) (2 ^ 64)); [|done].
    destruct (Z.ltb_spec (va + (num m 1 (va + 3 - tl) + num m 4 (va + 4 - tl))) (2 ^ 64)); [|done].
    destruct (Z.ltb_spec (tl + size_of) (va + (num m 1 (va + 3 - tl) + num m 4 (va + 4 - tl)))); [done|].
    apply HQ; [|done]. unfold entry_at; lia.
Qed.

(** The tag at an address. *)
Definition tag_at (va : Z) : Z := num m 2 (va - tl).

Lemma wp_find_safe tag fuel : ∀ cur (Q : Z → list Z → Prop),
  cur = 0 ∨ entry_at cur → 0 ≤ cur → tl + size_of - Z.max cur (tl - 1) < Z.of_nat fuel →
  (∀ va, va = 0 ∨ entry_at va ∧ tag_at va = tag → Q va m) →
  wp (find_loop tl fuel tag cur) m Q.
Proof using All.
  pose proof (num_range m 4 8 Hm) as Rs. fold size_of in Rs. simpl in Rs.
  induction fuel as [|fuel IH]; intros cur Q Hc Hp Hf HQ.
  { destruct Hc as [->|Hc]; [lia|]. destruct (entry_at_range _ Hc) as (? & ? & _). lia. }
  simpl. st_step. apply wp_next_safe; [done| |].
  { change (0 =? 0) with true. cbv iota. st_step. apply HQ. by left. }
  intros va Hv Hcv. destruct (entry_at_range _ Hv) as (? & ? & _).
  destruct (Z.eqb_spec va 0); [lia|]. st_step. unfold tag_id. apply wp_field; [lia..|].
  destruct (Z.eqb_spec (num m 2 (va - tl)) tag) as [E|N].
  - st_step. apply HQ. by right.
  - apply IH; [by right|lia|lia|done].
Qed.

(** A list that passes the check has its size within its maximum. *)
Lemma check_header_size c :
  ends_with (transfer_list_check_header tl) m c → c ≠ TL_OPS_NONE → size_of ≤ num m 4 12.
Proof using Htl Hlen.
  unfold ends_with. intros [s' E] N.
  assert (W : wp (transfer_list_check_header tl) m (λ c' _, c' = c)) by by exists c, s'.
  clear E. unfold transfer_list_check_header in W. destruct (Z.eqb_spec tl 0); [lia|].
  destruct (Z.leb_spec size_of (num m 4 12)) as [|L]; [done|]. exfalso. apply N. clear N.
  cut (wp (transfer_list_check_header tl) m (λ c' _, c' = TL_OPS_NONE)).
  { unfold transfer_list_check_header. destruct (Z.eqb_spec tl 0); [lia|]. intros W'.
    destruct (wp_conj _ _ _ _ W W') as (c' & ? & _ & -> & E). done. }
  unfold transfer_list_check_header. destruct (Z.eqb_spec tl 0); [lia|].
  st_step. unfold tl_signature. apply wp_field; [lia..|]. case_match; [by st_step|].
  st_step. unfold tl_max_size. apply wp_field; [lia..|]. case_match; [by st_step|].
  st_step. unfold tl_size. apply wp_field; [lia..|].
  replace (tl + 12 - tl) with 12 by lia. replace (tl + 8 - tl) with 8 by lia. fold size_of.
  destruct (Z.ltb_spec (num m 4 12) size_of); [by st_step|lia].
Qed.

End Safe.

(** Reading a transfer list of unknown origin. Whatever the bytes of the
    memory, when [transfer_list_check_header] accepts the list and the memory
    is mapped up to the maximum size that its header gives, then
    [transfer_list_find] ends without an access outside the memory and changes
    nothing; what it returns is NULL or an entry with the tag that lies, header
    and data, within the size of the list. *)
Theorem transfer_list_find_safe tl m c tag fuel :
  0 < tl → Forall is_byte m → 24 ≤ Z.of_nat (length m) → tl + Z.of_nat (length m) + 2 ^ 9 ≤ 2 ^ 64 →
  ends_with (transfer_list_check_header tl) m c → c ≠ TL_OPS_NONE →
  num m 4 12 ≤ Z.of_nat (length m) → (length m + 1 < fuel)%nat →
  wp (transfer_list_find tl fuel tag) m (λ va m', m' = m ∧
    (va = 0 ∨ entry_at tl m va ∧ tag_at tl m va = tag)).
Proof.
  intros Ht Hm Hl Hp Hc Nc Hx Hf. pose proof (check_header_size tl m Ht Hl c Hc Nc).
  apply (wp_find_safe tl m); try done; try (by left); lia.
Qed.
