(* ===== verification/TransferListSpec.v ===== *)
(** Transfer lists as lists of entries: what each operation of
    core/kernel/transfer_list.c promises, and that any sequence of them keeps
    the list valid; then what goes wrong. *)
From S2P Require Import Prelude State Bytes TransferList TransferListProofs.

#[local] Ltac Zify.zify_post_hook ::= Z.div_mod_to_equations.

(** The memory [m] holds a list with the header [h] and the entries [ents]. *)
Definition is_tl (tl : Z) (h : tl_head) (ents : list tl_entry) (m : list Z) : Prop :=
  ∃ rest, m = tl_mem h ents rest ∧ tl_ok tl h ents rest ∧
    sealed h (body_size ents) (body ents) ∧ Forall is_byte rest.

(** Two headers that differ by the checksum. *)
Definition same_head (h h' : tl_head) : Prop := ∃ c, h' = with_checksum c h.

Lemma same_head_refl h : same_head h h.
Proof. exists (th_checksum h). by destruct h. Qed.

Lemma reseal_same h size b : same_head h (reseal h size b).
Proof. unfold reseal. case_match; [by eexists|apply same_head_refl]. Qed.

Lemma same_head_trans h1 h2 h3 : same_head h1 h2 → same_head h2 h3 → same_head h1 h3.
Proof. intros [c ->] [d ->]. by exists d. Qed.

Lemma sealed_is_tl tl h ents rest :
  tl_ok tl h ents rest → Forall is_byte rest → is_tl tl (resealed h ents) ents (tl_mem (resealed h ents) ents rest).
Proof. intros. exists rest. split_and!; [done|by apply reseal_mem_ok|apply reseal_sealed|done]. Qed.

Lemma te_bytes_are_bytes e : te_ok e → Forall is_byte (te_bytes e).
Proof.
  intros Oe. pose proof (te_hdr_range e Oe). destruct Oe. unfold te_bytes. apply Forall_app. split; [|done].
  apply Forall_app. split; [apply le_bytes_are_bytes|]. apply Forall_app. split; [|apply le_bytes_are_bytes].
  repeat constructor; unfold is_byte in *; lia.
Qed.

Lemma body_are_bytes ents : Forall te_ok ents → Forall is_byte (body ents).
Proof.
  induction 1 as [|e ents He _ IH]; [constructor|]. rewrite body_cons. apply Forall_app.
  split; [by apply te_bytes_are_bytes|done].
Qed.

Lemma tail_are_bytes tl h pre e post rest :
  tl_ok tl h (pre ++ e :: post) rest → Forall is_byte rest → Forall is_byte (tail_of e post rest).
Proof.
  intros [] Hr. apply Forall_app in tl_ok_ents as [_ F]. apply Forall_cons in F as [[] F].
  unfold tail_of. apply Forall_app in te_ok_bytes as [_ Hb]. apply Forall_app in Hb as [Hd Hp].
  repeat (apply Forall_app; split; try done). by apply body_are_bytes.
Qed.

(** ** The header *)

(** What the version of a list allows. *)
Definition ops_of (h : tl_head) : Z :=
  if th_version h =? 0 then TL_OPS_NONE
  else if th_version h =? TRANSFER_LIST_VERSION then TL_OPS_ALL
  else if TRANSFER_LIST_VERSION <? th_version h then TL_OPS_RO
  else TL_OPS_CUS.

Lemma wp_check_header tl h ents m (Q : Z → list Z → Prop) :
  is_tl tl h ents m → Q (ops_of h) m → wp (transfer_list_check_header tl) m Q.
Proof.
  intros (rest & -> & Ok & Se & _) HQ. pose proof Ok as []. pose proof tl_ok_head as [].
  pose proof (body_size_range ents). unfold transfer_list_check_header, tl_mem in *.
  destruct (Z.eqb_spec tl 0); [lia|]. st_step. apply wp_tl_signature. rewrite Z.eqb_refl.
  st_step. apply wp_tl_max_size; [done|]. destruct (Z.eqb_spec (th_max_size h) 0); [lia|].
  st_step. apply wp_tl_size; [lia|]. destruct (Z.ltb_spec (th_max_size h) (body_size ents)); [lia|].
  st_step. apply wp_tl_hdr_size. rewrite Z.eqb_refl. st_step.
  apply wp_verify_checksum; [done|done|unfold body_size in *; lia|]. intros r Hr.
  replace r with true by (symmetry; by apply Hr). st_step. apply wp_tl_version. by st_step.
Qed.

(** ** Reading *)

(** Reading a transfer list. On a list with the entries [ents]
    [transfer_list_check_header] gives what the version allows,
    [transfer_list_find] the address of the first entry with the tag or NULL,
    [transfer_list_dump] passes over exactly the entries, in order, and the
    memory stays as it is. *)
Theorem transfer_list_read_correct tl h ents m tag fuel :
  is_tl tl h ents m → (length ents < fuel)%nat →
  wp (transfer_list_check_header tl) m (λ c m', c = ops_of h ∧ m' = m) ∧
  wp (transfer_list_find tl fuel tag) m (λ va m', va = tag_va tl tag [] ents ∧ m' = m) ∧
  wp (transfer_list_dump tl fuel) m (λ l m', l = dump_of tl [] ents ∧ m' = m).
Proof.
  intros I Hf. split; [by apply (wp_check_header tl h ents)|].
  destruct I as (rest & -> & Ok & _ & _). split.
  - by apply (wp_find_loop tl tag fuel h []).
  - unfold transfer_list_dump. destruct (Z.eqb_spec tl 0); [destruct Ok; lia|].
    by apply (wp_dump_loop tl fuel h []).
Qed.

(** ** Changing the size of the data of an entry *)

Lemma wp_resize tl h pre e post m n (Q : bool → list Z → Prop) :
  is_tl tl h (pre ++ e :: post) m → 0 ≤ n < 2 ^ 32 →
  (new_room h pre e post n = None → Q false m) →
  (∀ r h' e' gap m', new_room h pre e post n = Some r → same_head h h' →
     is_tl tl h' (pre ++ e' :: gap ++ post) m' →
     te_tag e' = te_tag e → te_res e' = te_res e → te_ext e' = te_ext e →
     length (te_data e') = Z.to_nat n →
     (∀ k, (k ≤ length (te_data e))%nat → (k ≤ Z.to_nat n)%nat → take k (te_data e') = take k (te_data e)) →
     Forall (λ v, te_tag v = TL_TAG_EMPTY) gap → (length gap ≤ 1)%nat →
     body_size (pre ++ e' :: gap ++ post) = body_size (pre ++ e :: post) + (r - te_total e) →
     Q true m') →
  wp (transfer_list_set_data_size tl (va_after tl pre) n) m Q.
Proof.
  intros (rest & -> & Ok & Se & Hr) Hn HN HS. pose proof (tail_are_bytes _ _ _ _ _ _ Ok Hr) as Hb.
  apply wp_set_data_size; [done..|]. destruct (new_room h pre e post n) as [r|] eqn:Er; [|by apply HN].
  intros ents Ok'. destruct (resized_ok tl h pre e post rest n r Ok Hn Er Hb) as [_ Eb].
  destruct (dat_split tl h pre e post rest n r Ok Hn Er) as (Ed & Ld & _).
  eapply (HS r (resealed h ents)); [done|apply reseal_same|apply sealed_is_tl; [exact Ok'|]|done|done|done|done| | | |exact Eb].
  - unfold resized_rest. by apply Forall_drop.
  - intros k Hk Hk'. destruct (room_bounds tl h pre e post rest n r Ok Hn Er) as (R1 & _).
    pose proof (new_end_bounds e n) as [B _]. simpl. unfold resized_dat, tail_of. rewrite !take_take.
    rewrite !Nat.min_l by lia. by rewrite take_app_le by lia.
  - unfold gap_te. case_match; [by apply Forall_singleton|by apply Forall_nil].
  - unfold gap_te. case_match; simpl; lia.
Qed.

(** C25: Changing the size of the data of an entry. When there is no room
    [transfer_list_set_data_size] returns false and changes nothing. Otherwise
    the list is the same but that the entry has [n] bytes of data, of which the
    first are those it had, and that at most one void entry follows it; the
    entries behind are moved as they are, and the checksum is right again. *)
Theorem transfer_list_set_data_size_correct tl h pre e post m n :
  is_tl tl h (pre ++ e :: post) m → 0 ≤ n < 2 ^ 32 →
  wp (transfer_list_set_data_size tl (va_after tl pre) n) m (λ ok m',
    match new_room h pre e post n with
    | None => ok = false ∧ m' = m
    | Some r => ok = true ∧ ∃ h' e' gap, same_head h h' ∧ is_tl tl h' (pre ++ e' :: gap ++ post) m' ∧
        te_tag e' = te_tag e ∧ te_res e' = te_res e ∧ te_ext e' = te_ext e ∧
        length (te_data e') = Z.to_nat n ∧
        (∀ k, (k ≤ length (te_data e))%nat → (k ≤ Z.to_nat n)%nat → take k (te_data e') = take k (te_data e)) ∧
        Forall (λ v, te_tag v = TL_TAG_EMPTY) gap ∧ (length gap ≤ 1)%nat ∧
        body_size (pre ++ e' :: gap ++ post) = body_size (pre ++ e :: post) + (r - te_total e)
    end).
Proof.
  intros I Hn. eapply wp_resize; [done|done| |].
  - intros ->. done.
  - intros r h' e' gap m' Er ??????????. rewrite Er. split; [done|].
    exists h', e', gap. by split_and!.
Qed.

(** ** Adding and removing entries *)

Lemma wp_add_tl tl h ents m tag n (Q : Z → list Z → Prop) :
  is_tl tl h ents m → 0 ≤ tag < 2 ^ 16 → 0 ≤ n < 2 ^ 32 →
  (fits_in h ents n = false → Q 0 m) →
  (∀ h' e m', fits_in h ents n = true → same_head h h' → is_tl tl h' (ents ++ [e]) m' →
     te_tag e = tag → te_res e = 0 → te_ext e = [] → length (te_data e) = Z.to_nat n →
     te_total e = up8 (sizeof_te + n) → Q (va_after tl ents) m') →
  wp (transfer_list_add tl tag n None) m Q.
Proof.
  intros (rest & -> & Ok & Se & Hr) Ht Hn HN HS. apply wp_add; [done..|]. intros Hf Ok'.
  unfold fits_in in Hf. pose proof Hf as Hf'. apply Z.leb_le in Hf'. destruct Ok.
  destruct (new_entry_size tag n rest) as [L T]; [lia|lia|].
  apply (HS (resealed h (ents ++ [new_entry tag n rest])) (new_entry tag n rest)); try done.
  - apply reseal_same.
  - apply sealed_is_tl; [done|]. by apply Forall_drop.
Qed.

Lemma wp_rem_tl tl h pre e post m (Q : bool → list Z → Prop) :
  is_tl tl h (pre ++ e :: post) m →
  (∀ h' m', same_head h h' → is_tl tl h' (pre ++ emptied e :: post) m' → Q true m') →
  wp (transfer_list_rem tl (va_after tl pre)) m Q.
Proof.
  intros (rest & -> & Ok & Se & Hr) HS. apply wp_rem; [done|].
  apply (HS (resealed h (pre ++ emptied e :: post))); [apply reseal_same|]. apply sealed_is_tl; [|done].
  destruct (entry_sizes _ _ _ _ _ _ Ok) as [Oe _].
  apply (replace_ok tl h pre e); [by apply emptied_ok|apply te_total_emptied|done].
Qed.

(** Adding an entry without data. When the maximum size leaves no room
    [transfer_list_add] returns NULL and changes nothing; otherwise it returns
    the address behind the last entry, where there is now an entry with the tag
    and room for the data, the other entries are as before and the checksum is
    right. *)
Theorem transfer_list_add_correct tl h ents m tag n :
  is_tl tl h ents m → 0 ≤ tag < 2 ^ 16 → 0 ≤ n < 2 ^ 32 →
  wp (transfer_list_add tl tag n None) m (λ va m',
    va = 0 ∧ m' = m ∧ th_max_size h < body_size ents + up8 (sizeof_te + n) ∨
    va = va_after tl ents ∧ body_size ents + up8 (sizeof_te + n) ≤ th_max_size h ∧
    ∃ h' e, same_head h h' ∧ is_tl tl h' (ents ++ [e]) m' ∧
      te_tag e = tag ∧ te_ext e = [] ∧ length (te_data e) = Z.to_nat n).
Proof.
  intros I Ht Hn. eapply wp_add_tl; [done..| |].
  - intros F%Z.leb_gt. left. split_and!; [done|done|lia].
  - intros h' e m' F%Z.leb_le ???????. right. split_and!; [done|lia|]. by exists h', e.
Qed.

(** *** With an alignment *)

(** How far the data of the next entry is from the alignment. *)
Definition misalignment (tl : Z) (ents : list tl_entry) (a : Z) : Z :=
  (- (va_after tl ents + sizeof_te)) mod 2 ^ a.

Lemma round_up_distance x k : 0 ≤ k → (x + (2 ^ k - 1)) / 2 ^ k * 2 ^ k = x + (- x) mod 2 ^ k.
Proof.
  intros Hk. pose proof (pow2_pos k Hk). set (d := 2 ^ k) in *. clearbody d.
  pose proof (Z.div_mod (x + (d - 1)) d ltac:(lia)). pose proof (Z.mod_pos_bound (x + (d - 1)) d ltac:(lia)).
  assert (E : (- x) mod d = d - 1 - (x + (d - 1)) mod d); [|nia].
  symmetry. apply (Z.mod_unique_pos _ _ (- ((x + (d - 1)) / d))); nia.
Qed.

Lemma IS_ALIGNED_spec x k : 0 ≤ k → IS_ALIGNED x (2 ^ k) = (x mod 2 ^ k =? 0).
Proof.
  intros Hk. unfold IS_ALIGNED. replace (2 ^ k - 1) with (Z.ones k) by (rewrite Z.ones_equiv; lia).
  by rewrite Z.land_ones.
Qed.

Lemma mod_opp_zero x d : 0 < d → (x mod d =? 0) = ((- x) mod d =? 0).
Proof.
  intros Hd. destruct (Z.eqb_spec (x mod d) 0) as [E|N].
  - symmetry. apply Z.eqb_eq. by rewrite Z.mod_opp_l_z by lia.
  - symmetry. apply Z.eqb_neq. rewrite Z.mod_opp_l_nz by lia. pose proof (Z.mod_pos_bound x d Hd). lia.
Qed.

(** Code that fails an assertion. *)
Definition asserts {S A} (m : St S A) (s : S) : Prop := m s = Some (Panicked 0).

Lemma asserts_bind {S A B} (m : St S A) (f : A → St S B) s :
  asserts m s → asserts (st_bind m f) s.
Proof. unfold asserts, st_bind. by intros ->. Qed.

Lemma asserts_after {S A B} (m : St S A) (f : A → St S B) s :
  wp m s (λ a s', asserts (f a) s') → asserts (st_bind m f) s.
Proof. unfold asserts, st_bind. by intros (a & s' & -> & ?). Qed.

Lemma misalignment_range tl ents a : 3 ≤ a < 32 → (8 | va_after tl ents) →
  0 ≤ misalignment tl ents a < 2 ^ 31 ∧ (8 | misalignment tl ents a).
Proof.
  intros Ha [q Eq]. unfold misalignment. rewrite Eq. unfold sizeof_te. pose proof (pow2_pos a ltac:(lia)).
  assert (2 ^ a ≤ 2 ^ 31) by (apply Z.pow_le_mono_r; lia).
  pose proof (Z.mod_pos_bound (- (q * 8 + 8)) (2 ^ a) ltac:(lia)). split; [lia|].
  replace (2 ^ a) with (2 ^ (a - 3) * 8) in * by (change 8 with (2 ^ 3); rewrite <- Z.pow_add_r by lia; f_equal; lia).
  replace (- (q * 8 + 8)) with ((- (q + 1)) * 8) by lia.
  assert (2 ^ (a - 3) ≠ 0) by (pose proof (pow2_pos (a - 3) ltac:(lia)); lia).
  rewrite Zmult_mod_distr_r. by eexists.
Qed.

Section Align.
Context (tl : Z) (h : tl_head) (ents : list tl_entry) (rest : list Z) (a : Z).
Context (Ok : tl_ok tl h ents rest) (Ha : 3 ≤ a < 32).

Let d := misalignment tl ents a.

Lemma align_facts : 0 ≤ d < 2 ^ 31 ∧ (8 | d) ∧ u64 (tl + body_size ents) = va_after tl ents ∧
  u64 (va_after tl ents + sizeof_te) = va_after tl ents + sizeof_te ∧
  IS_ALIGNED (va_after tl ents + sizeof_te) (2 ^ a) = (d =? 0) ∧
  u64 (ROUNDUP (va_after tl ents + sizeof_te) (2 ^ a) - sizeof_te) = va_after tl ents + d ∧
  u64 (va_after tl ents + d - va_after tl ents) = d.
Proof using All.
  pose proof Ok as []. pose proof (body_size_range ents). pose proof (pow2_pos a ltac:(lia)).
  assert (2 ^ a ≤ 2 ^ 31) by (apply Z.pow_le_mono_r; lia).
  destruct (misalignment_range tl ents a Ha) as [R D]; [by eapply body_size_divide|]. fold d in R, D.
  assert (Ev : va_after tl ents = tl + body_size ents) by done. unfold sizeof_te.
  split_and!; try done; try lia.
  - rewrite u64_id by lia. done.
  - apply u64_id. lia.
  - rewrite IS_ALIGNED_spec by lia. apply mod_opp_zero. lia.
  - rewrite ROUNDUP_spec, round_up_distance by lia. unfold d, misalignment, sizeof_te in *.
    rewrite u64_id by lia. lia.
  - rewrite u64_id by lia. lia.
Qed.

Lemma wp_align_size (Q : Z → list Z → Prop) :
  Q (body_size ents) (tl_mem h ents rest) → wp (tl_size tl) (tl_mem h ents rest) Q.
Proof using All.
  pose proof Ok as []. pose proof (body_size_range ents). destruct tl_ok_head. intros. apply wp_tl_size; [lia|done].
Qed.

Lemma run_align (m : list Z) (Q : Z → list Z → Prop) :
  Q (2 ^ a) m → wp (run (TL_ALIGNMENT_FROM_ORDER a)) m Q.
Proof using All.
  intros HQ. apply (wp_run _ (2 ^ a)); [|done]. unfold TL_ALIGNMENT_FROM_ORDER.
  destruct (Z.ltb_spec a 32); [|lia]. by rewrite Z.shiftl_1_l.
Qed.

(** An entry that would leave exactly a header's room before it. *)
Lemma add_with_align_asserts tag n data :
  d = 8 → asserts (transfer_list_add_with_align tl tag n data a) (tl_mem h ents rest).
Proof using All.
  intros Ed. destruct align_facts as (_ & _ & E1 & E2 & E3 & E4 & E5).
  unfold transfer_list_add_with_align. destruct (Z.eqb_spec tl 0); [destruct Ok; lia|].
  apply asserts_after, wp_align_size. rewrite E1, E2. apply asserts_after, run_align.
  rewrite E3, Ed. change (negb (8 =? 0)) with true. cbv iota. rewrite E4. apply asserts_bind.
  rewrite E5, Ed. change (sizeof_te <? 8) with false. by apply asserts_bind.
Qed.

Lemma wp_align_steps tag n data (Q : Z → list Z → Prop) :
  d ≠ 8 →
  wp (ok ← (if negb (d =? 0) then e ← transfer_list_add tl TL_TAG_EMPTY (d - 8) None; mret (negb (e =? 0))
            else mret true);
      if negb ok then mret 0 else
      e ← transfer_list_add tl tag n data;
      order ← tl_alignment tl;
      _ ← (if order <? a then (_ ← set_tl_alignment tl a; transfer_list_update_checksum tl) else mret tt);
      mret e) (tl_mem h ents rest) Q →
  wp (transfer_list_add_with_align tl tag n data a) (tl_mem h ents rest) Q.
Proof using All.
  intros Nd W. destruct align_facts as (R & D & E1 & E2 & E3 & E4 & E5).
  unfold transfer_list_add_with_align. destruct (Z.eqb_spec tl 0); [destruct Ok; lia|].
  apply wp_bind, wp_align_size. rewrite E1, E2. apply wp_bind, run_align.
  rewrite E3. destruct (Z.eqb_spec d 0) as [Ed|Nz]; cbn [negb] in *; [exact W|].
  rewrite E4, E5. destruct W as (x & s' & E & HQ). exists x, s'. split; [|done]. rewrite <- E.
  assert (Hd : (sizeof_te <? d) = true).
  { apply Z.ltb_lt. unfold sizeof_te. destruct D as [q ->]. lia. }
  rewrite Hd. replace (va_after tl ents + d - va_after tl ents - sizeof_te) with (d - 8)
    by (unfold sizeof_te; lia). rewrite u32_id; [done|]. destruct D as [q Eq]. lia.
Qed.

End Align.

(** The alignment of the list is raised, and the checksum renewed. *)
Lemma wp_raise_alignment tl h ents m a va (Q : Z → list Z → Prop) :
  is_tl tl h ents m → 3 ≤ a < 32 →
  (∀ h' m', th_alignment h' = Z.max a (th_alignment h) → th_max_size h' = th_max_size h →
     th_version h' = th_version h → is_tl tl h' ents m' → Q va m') →
  wp (order ← tl_alignment tl;
      _ ← (if order <? a then (_ ← set_tl_alignment tl a; transfer_list_update_checksum tl) else mret tt);
      mret va) m Q.
Proof.
  intros (rest & -> & Ok & Se & Hr) Ha HQ. pose proof Ok as []. pose proof tl_ok_head as [].
  st_step. rewrite tl_mem_eq. apply wp_tl_alignment. rewrite <- tl_mem_eq.
  destruct (Z.ltb_spec (th_alignment h) a).
  2: { st_step. st_step. st_step. apply (HQ h); [lia|done|done|]. by exists rest. }
  st_step. st_step. rewrite tl_mem_eq. apply wp_set_tl_alignment; [unfold is_byte; lia|]. rewrite <- tl_mem_eq.
  assert (Ok' : tl_ok tl (with_alignment a h) ents rest).
  { split; try done. split; try done; simpl; lia. }
  apply wp_update_mem; [done|apply Ok'|lia|]. st_step.
  apply (HQ (resealed (with_alignment a h) ents)); [| | |by apply sealed_is_tl].
  - unfold resealed. rewrite reseal_alignment. simpl. lia.
  - unfold resealed. by rewrite reseal_max.
  - unfold resealed, reseal. by case_match.
Qed.

(** What [transfer_list_add_with_align] leaves behind, when [void] was added
    before the entry. *)
Definition aligned_add (tl : Z) (h : tl_head) (ents : list tl_entry) (tag n a va : Z) (m' : list Z) : Prop :=
  ∃ h' void new, is_tl tl h' (ents ++ void ++ new) m' ∧ th_max_size h' = th_max_size h ∧
    th_version h' = th_version h ∧ (length void ≤ 1)%nat ∧ Forall (λ v, te_tag v = TL_TAG_EMPTY) void ∧
    (va = 0 ∧ new = [] ∨
     ∃ e, new = [e] ∧ va = va_after tl (ents ++ void) ∧ (2 ^ a | va + te_hdr e) ∧
       te_tag e = tag ∧ te_ext e = [] ∧ length (te_data e) = Z.to_nat n ∧
       th_alignment h' = Z.max a (th_alignment h)).

Lemma wp_add_aligned tl h h1 ents void m1 tag n a :
  0 ≤ tag < 2 ^ 16 → 0 ≤ n < 2 ^ 32 → 3 ≤ a < 32 →
  is_tl tl h1 (ents ++ void) m1 → same_head h h1 →
  (length void ≤ 1)%nat → Forall (λ v, te_tag v = TL_TAG_EMPTY) void →
  (2 ^ a | va_after tl (ents ++ void) + sizeof_te) →
  wp (e ← transfer_list_add tl tag n None;
      order ← tl_alignment tl;
      _ ← (if order <? a then (_ ← set_tl_alignment tl a; transfer_list_update_checksum tl) else mret tt);
      mret e) m1 (aligned_add tl h ents tag n a).
Proof.
  intros Ht Hn Ha I1 [c ->] Lv Fv Dv. st_step. eapply wp_add_tl; [done..| |].
  - intros _. eapply wp_raise_alignment; [done..|]. intros h' m' E1 E2 E3 I'.
    exists h', void, []. rewrite app_nil_r. split_and!; try done. by left.
  - intros h2 e m2 Hf [c2 ->] I2 T1 T2 T3 T4 T5. eapply wp_raise_alignment; [done..|].
    intros h' m' E1 E2 E3 I'. exists h', void, [e]. rewrite app_assoc. split_and!; try done. right.
    exists e. split_and!; try done. unfold te_hdr. rewrite T3. simpl. by rewrite Z.add_0_r.
Qed.

(** The place behind a void entry that fills the misalignment. *)
Lemma aligned_after_void tl ents void a d :
  3 ≤ a → d = misalignment tl ents a → Z.of_nat (length (body void)) = d →
  (2 ^ a | va_after tl (ents ++ void) + sizeof_te).
Proof.
  intros Ha -> L. unfold va_after. rewrite body_size_app, L.
  replace (tl + (body_size ents + misalignment tl ents a) + sizeof_te) with
    ((va_after tl ents + sizeof_te) + (- (va_after tl ents + sizeof_te)) mod 2 ^ a)
    by (unfold misalignment, va_after; lia).
  rewrite <- round_up_distance by lia. by eexists.
Qed.

Lemma wp_add_with_align tl h ents m tag n a :
  is_tl tl h ents m → 0 ≤ tag < 2 ^ 16 → 0 ≤ n < 2 ^ 32 → 3 ≤ a < 32 → misalignment tl ents a ≠ 8 →
  wp (transfer_list_add_with_align tl tag n None a) m (aligned_add tl h ents tag n a).
Proof.
  intros I Ht Hn Ha N. pose proof I as (rest & -> & Ok & Se & Hr).
  apply wp_align_steps; [done..|]. destruct (align_facts tl h ents rest a Ok Ha) as (R & [q D] & _).
  destruct (Z.eqb_spec (misalignment tl ents a) 0) as [Ed|Nd]; cbn [negb]; st_step.
  - st_step. apply (wp_add_aligned tl h h ents []); try done; [by rewrite app_nil_r|apply same_head_refl|simpl; lia|].
    by apply (aligned_after_void tl ents [] a 0); [lia|done|].
  - st_step. eapply wp_add_tl; [done|done|lia| |].
    + intros _. st_step. change (0 =? 0) with true. cbn [negb]. st_step. exists h, [], [].
      rewrite !app_nil_r. split_and!; try done; [simpl; lia|by left].
    + intros h1 v m1 Hf S1 I1 T1 T2 T3 T4 T5. st_step.
      assert (0 < va_after tl ents).
      { destruct Ok. pose proof (body_size_range ents). unfold va_after. lia. }
      destruct (Z.eqb_spec (va_after tl ents) 0); [lia|]. cbn [negb].
      apply (wp_add_aligned tl h h1 ents [v]); try done; [by apply Forall_singleton|].
      apply (aligned_after_void tl ents [v] a (misalignment tl ents a)); [lia|done|].
      change (body [v]) with (te_bytes v ++ []). rewrite app_nil_r. fold (te_total v). rewrite T5.
      unfold sizeof_te. replace (8 + (misalignment tl ents a - 8)) with (misalignment tl ents a) by lia.
      apply up8_unique; [lia|by eexists].
Qed.

(** C29: Adding an entry without data to copy whose data is to be aligned to
    [2^a], from 8 bytes to 2^31. When the place behind the last entry is off by
    exactly the size of an entry header the assertion fails. Otherwise the list
    gets, when it is off, a void entry and, when there is room for it, the
    entry, whose data is then aligned; the alignment of the list is raised as
    far as needed, and all other entries are as before. With data to copy the
    data is misplaced ([add_misplaces_data]). *)
Theorem transfer_list_add_with_align_correct tl h ents m tag n a :
  is_tl tl h ents m → 0 ≤ tag < 2 ^ 16 → 0 ≤ n < 2 ^ 32 → 3 ≤ a < 32 →
  if misalignment tl ents a =? 8
  then transfer_list_add_with_align tl tag n None a m = Some (Panicked 0)
  else wp (transfer_list_add_with_align tl tag n None a) m (aligned_add tl h ents tag n a).
Proof.
  intros I Ht Hn Ha. destruct (Z.eqb_spec (misalignment tl ents a) 8) as [E|N].
  - destruct I as (rest & -> & Ok & _). by apply (add_with_align_asserts tl h ents rest).
  - by apply wp_add_with_align.
Qed.
