(* ===== verification/TransferListRun.v ===== *)
(** Transfer lists from their creation on: any sequence of changes keeps the
    list valid; concrete lists, and what goes wrong with them. *)
From S2P Require Import Prelude State Bytes TransferList TransferListProofs TransferListSpec.

#[local] Ltac Zify.zify_post_hook ::= Z.div_mod_to_equations.

(** ** Sequences of changes

    The users of the library find an entry by its tag and then change it. *)
Inductive tl_call :=
| Add (tag n : Z)
| AddAligned (tag n alignment : Z)
| Remove (tag : Z)
| Resize (tag n : Z).

Definition call_ok (c : tl_call) : Prop :=
  match c with
  | Add tag n => 0 ≤ tag < 2 ^ 16 ∧ 0 ≤ n < 2 ^ 32
  | AddAligned tag n a => 0 ≤ tag < 2 ^ 16 ∧ 0 ≤ n < 2 ^ 32 ∧ a = 3
  | Remove tag => True
  | Resize tag n => 0 ≤ n < 2 ^ 32
  end.

Definition run_call (tl : Z) (fuel : nat) (c : tl_call) : TL unit :=
  match c with
  | Add tag n => _ ← transfer_list_add tl tag n None; mret tt
  | AddAligned tag n a => _ ← transfer_list_add_with_align tl tag n None a; mret tt
  | Remove tag => e ← transfer_list_find tl fuel tag; _ ← transfer_list_rem tl e; mret tt
  | Resize tag n => e ← transfer_list_find tl fuel tag; _ ← transfer_list_set_data_size tl e n; mret tt
  end.

Fixpoint run_calls (tl : Z) (fuel : nat) (l : list tl_call) : TL unit :=
  match l with
  | [] => mret tt
  | c :: l => _ ← run_call tl fuel c; run_calls tl fuel l
  end.

(** A list of version 1 with some entries. *)
Definition valid_list (tl max : Z) (m : list Z) : Prop :=
  ∃ h ents, is_tl tl h ents m ∧ th_max_size h = max ∧ th_version h = TRANSFER_LIST_VERSION.

Lemma tag_va_cases tl tag post : ∀ pre,
  tag_va tl tag pre post = 0 ∨
  ∃ a e b, post = a ++ e :: b ∧ te_tag e = tag ∧ tag_va tl tag pre post = va_after tl (pre ++ a).
Proof.
  induction post as [|e post IH]; intros pre; simpl; [by left|].
  destruct (Z.eqb_spec (te_tag e) tag) as [E|N].
  - right. exists [], e, post. by rewrite app_nil_r.
  - destruct (IH (pre ++ [e])) as [E|(a & x & b & -> & E & V)]; [by left|]. right.
    exists (e :: a), x, b. split_and!; [done|done|]. by rewrite V, <- app_assoc.
Qed.

(** Each entry takes at least eight bytes. *)
Lemma ents_le_size tl h ents rest : tl_ok tl h ents rest → Z.of_nat (length ents) ≤ body_size ents.
Proof.
  intros [_ _ _ _ F _]. unfold body_size, sizeof_tl. induction F as [|e ents He _ IH]; [simpl; lia|].
  rewrite body_cons, length_app. pose proof (te_hdr_range e He).
  pose proof (te_total_eq e) as T. unfold te_total, te_dsize in T. simpl length. lia.
Qed.

Lemma valid_fuel tl h ents m fuel :
  is_tl tl h ents m → (Z.to_nat (th_max_size h) < fuel)%nat → (length ents < fuel)%nat.
Proof.
  intros (rest & -> & Ok & _) Hf. pose proof (ents_le_size _ _ _ _ Ok). destruct Ok. lia.
Qed.

Lemma wp_find_tl tl h ents m tag fuel (Q : Z → list Z → Prop) :
  is_tl tl h ents m → (Z.to_nat (th_max_size h) < fuel)%nat →
  Q 0 m → (∀ pre e post, ents = pre ++ e :: post → Q (va_after tl pre) m) →
  wp (transfer_list_find tl fuel tag) m Q.
Proof.
  intros I Hf H0 HS. pose proof (valid_fuel _ _ _ _ _ I Hf). destruct I as (rest & -> & Ok & _).
  apply (wp_find_loop tl tag fuel h []); [done|done|].
  destruct (tag_va_cases tl tag ents []) as [->|(a & e & b & E & _ & ->)]; [done|]. by apply (HS a e b).
Qed.

Lemma valid_intro tl h h' ents m max :
  same_head h h' → is_tl tl h' ents m → th_max_size h = max → th_version h = TRANSFER_LIST_VERSION →
  valid_list tl max m.
Proof. intros [c ->] I E V. by exists (with_checksum c h), ents. Qed.

(** A void entry is never needed for the alignment every entry has. *)
Lemma no_misalignment tl h ents m : is_tl tl h ents m → misalignment tl ents 3 = 0.
Proof.
  intros (rest & -> & Ok & _). destruct (body_size_divide _ _ _ _ Ok) as [q E].
  unfold misalignment, va_after, sizeof_te. rewrite E. change (2 ^ 3) with 8. lia.
Qed.

Lemma run_call_ok tl max fuel c m :
  valid_list tl max m → call_ok c → (Z.to_nat max < fuel)%nat →
  wp (run_call tl fuel c) m (λ _ m', valid_list tl max m').
Proof.
  intros (h & ents & I & Em & Ev) Hc Hf. subst max. destruct c as [tag n|tag n a|tag|tag n]; simpl in *; st_step.
  - destruct Hc. eapply wp_add_tl; [done..| |].
    + intros _. st_step. by exists h, ents.
    + intros h' e m' _ S I' **. st_step. by apply (valid_intro tl h h' (ents ++ [e])).
  - destruct Hc as (Ht & Hn & ->).
    eapply wp_mono; [apply (wp_add_with_align tl h ents); [done|done|done|lia|by rewrite (no_misalignment _ _ _ _ I)]|].
    intros va m' (h' & void & new & I' & E1 & E2 & _). st_step. rewrite <- E1.
    exists h', (ents ++ void ++ new). split_and!; [done|done|by rewrite E2].
  - eapply wp_find_tl; [done|done| |].
    + st_step. unfold transfer_list_rem. change (0 =? 0) with true. rewrite orb_true_r. st_step. st_step. by exists h, ents.
    + intros pre e post ->. st_step. eapply wp_rem_tl; [done|]. intros h' m' S I'. st_step.
      by apply (valid_intro tl h h' (pre ++ emptied e :: post)).
  - eapply wp_find_tl; [done|done| |].
    + st_step. unfold transfer_list_set_data_size. change (0 =? 0) with true. rewrite orb_true_r. st_step. st_step. by exists h, ents.
    + intros pre e post ->. st_step. eapply wp_resize; [done|done| |].
      * intros _. st_step. by exists h, (pre ++ e :: post).
      * intros r h' e' gap m' _ S I' **. st_step. by apply (valid_intro tl h h' (pre ++ e' :: gap ++ post)).
Qed.

Lemma run_calls_ok tl max fuel l : ∀ m,
  valid_list tl max m → Forall call_ok l → (Z.to_nat max < fuel)%nat →
  wp (run_calls tl fuel l) m (λ _ m', valid_list tl max m').
Proof.
  induction l as [|c l IH]; intros m V F Hf; simpl; [by st_step|].
  apply Forall_cons in F as [Hc F]. st_step. eapply wp_mono; [by apply (run_call_ok tl max)|].
  intros ? m' V'. by apply IH.
Qed.

(** ** A new list *)

(** The first bytes of the memory, made of 24 bytes. *)
Lemma init_fields max r :
  put_bytes 16 (le_bytes 4 TL_FLAGS_HAS_CHECKSUM)
    (put_bytes 12 (le_bytes 4 max)
      (put_bytes 8 (le_bytes 4 sizeof_tl)
        (put_bytes 7 (le_bytes 1 TRANSFER_LIST_INIT_MAX_ALIGN)
          (put_bytes 6 (le_bytes 1 sizeof_tl)
            (put_bytes 5 (le_bytes 1 TRANSFER_LIST_VERSION)
              (put_bytes 0 (le_bytes 4 TRANSFER_LIST_SIGNATURE) (replicate 24 0 ++ r))))))) =
  th_bytes (mk_tlh 0 1 3 max 1 0) 24 ++ r.
Proof. reflexivity. Qed.

(** A field of the header of memory that has room for one. *)
Lemma wp_set_head tl k n z x (Q : unit → list Z → Prop) :
  0 ≤ k → k + Z.of_nat n ≤ 24 → (24 ≤ length x)%nat →
  (∀ y, y = put_bytes k (le_bytes n z) x → (24 ≤ length y)%nat → Q tt y) →
  wp (set_field tl n (tl + k) z) x Q.
Proof.
  intros Hk Hn Hx HQ. unfold set_field. replace (tl + k - tl) with k by lia.
  apply wp_store; rewrite ?le_bytes_length; [lia..|]. apply HQ; [done|].
  rewrite length_put_bytes; rewrite ?le_bytes_length; lia.
Qed.

Lemma wp_init_list tl max m :
  0 < tl → (8 | tl) → 24 ≤ max < 2 ^ 32 → max ≤ Z.of_nat (length m) →
  tl + Z.of_nat (length m) + 2 ^ 33 ≤ 2 ^ 64 → Forall is_byte m →
  wp (init_list tl max) m (λ _ m', valid_list tl max m').
Proof.
  intros Ht Ha Hm Hl Hp Hb. unfold init_list. st_step.
  apply wp_store; [lia|rewrite length_replicate; lia|].
  set (r := replicate (Z.to_nat max - 24) 0 ++ drop (Z.to_nat max) m).
  assert (E : put_bytes 0 (replicate (Z.to_nat max) 0) m = replicate 24 0 ++ r).
  { unfold put_bytes, r. rewrite length_replicate. simpl take. rewrite (app_assoc (replicate 24 0)), <- replicate_add.
    replace (24 + (Z.to_nat max - 24))%nat with (Z.to_nat max) by lia. done. }
  rewrite E. clear E. replace tl with (tl + 0) at 2 by lia.
  assert (Lr : length r = (length m - 24)%nat) by (unfold r; rewrite length_app, length_replicate, length_drop; lia).
  assert (Br : Forall is_byte r).
  { apply Forall_app. split; [|by apply Forall_drop]. by apply Forall_replicate. }
  assert (L0 : (24 ≤ length (replicate 24 0%Z ++ r))%nat) by (rewrite length_app, length_replicate; lia).
  do 7 (st_step; apply wp_set_head; [lia|simpl; lia|done|]; intros ? -> ?).
  rewrite (init_fields max r). set (h := mk_tlh 0 1 3 max 1 0).
  change (th_bytes h 24 ++ r) with (tl_mem h [] r).
  assert (Ok : tl_ok tl h [] r).
  { split; try done; unfold body_size, sizeof_tl; simpl; try lia. split; unfold is_byte; simpl; lia. }
  apply wp_update_mem; [done|apply Ok|unfold body_size, sizeof_tl; simpl; lia|].
  apply (valid_intro tl h (resealed h []) []); [apply reseal_same|by apply sealed_is_tl|done|done].
Qed.

(** C26: A transfer list made by [transfer_list_init] stays one. After the
    memory is initialised, any sequence of adding entries without data to copy -
    the caller fills them in later -, plainly or with an alignment of 8 bytes,
    of finding entries and removing them or changing the size of their data ends
    without an access outside the memory or a failed assertion, and
    [transfer_list_check_header] accepts the list for all operations, the
    checksum included. Adding an entry with its data ([add_misplaces_data]) and
    larger alignments, for which an assertion can fail, are left out. *)
Theorem transfer_list_stays_valid tl max m fuel l :
  0 < tl → (8 | tl) → 24 ≤ max < 2 ^ 32 → max ≤ Z.of_nat (length m) →
  tl + Z.of_nat (length m) + 2 ^ 33 ≤ 2 ^ 64 → Forall is_byte m →
  Forall call_ok l → (Z.to_nat max < fuel)%nat →
  wp (_ ← init_list tl max; run_calls tl fuel l) m (λ _ m', valid_list tl max m' ∧
    wp (transfer_list_check_header tl) m' (λ c m'', c = TL_OPS_ALL ∧ m'' = m')).
Proof.
  intros Ht Ha Hm Hl Hp Hb Hc Hf. st_step. eapply wp_mono; [by apply (wp_init_list tl max)|].
  intros ? m' V. eapply wp_mono; [by apply (run_calls_ok tl max fuel l)|].
  intros ? m2 V2. split; [done|]. destruct V2 as (h & ents & I & _ & Ev).
  eapply wp_check_header; [done|]. unfold ops_of. by rewrite Ev.
Qed.

(** ** Concrete lists *)

Definition state_of_list {A} (m : TL A) (s : list Z) : list Z :=
  match m s with Some (Done (_, s')) => s' | _ => [] end.

Definition result_of {A} (m : TL A) (s : list Z) : option (outcome A) :=
  match m s with
  | Some (Done (a, _)) => Some (Done a)
  | Some (Panicked c) => Some (Panicked c)
  | Some Undef => Some Undef
  | None => None
  end.

Definition base_va : Z := 65536.

(** An empty list in 128 bytes; with an entry of five bytes; with two entries. *)
Definition list0 : list Z := state_of_list (init_list base_va 128) (replicate 128 0).
Definition list1 : list Z := state_of_list (transfer_list_add base_va 1 5 None) list0.
Definition list2 : list Z := state_of_list (transfer_list_add base_va 2 0 None) list1.

Definition entry1 : tl_entry := mk_te 1 0 [] [0; 0; 0; 0; 0] [0; 0; 0].
Definition entry2 : tl_entry := mk_te 2 0 [] [] [].

Definition head2 : tl_head := mk_tlh (nth 4 list2 0) 1 3 128 1 0.

Lemma list2_is : is_tl base_va head2 [entry1; entry2] list2.
Proof.
  exists (replicate 80 0). split; [vm_compute; reflexivity|].
  assert (Oe : Forall te_ok [entry1; entry2]).
  { repeat constructor; try (vm_compute; done); try (simpl; lia); try (by exists 2); try (by exists 1); try done;
      unfold is_byte; lia. }
  split_and!; [|by intros|by apply Forall_replicate].
  split; [done|by exists 8192|vm_compute; done| |done|vm_compute; by split].
  split; unfold is_byte; vm_compute; by split.
Qed.

Lemma transfer_list_read_correct_witness :
  wp (transfer_list_find base_va 3 2) list2 (λ va m', va = 65576 ∧ m' = list2).
Proof.
  assert (Hf : (length [entry1; entry2] < 3)%nat) by (simpl; lia).
  destruct (transfer_list_read_correct base_va head2 [entry1; entry2] list2 2 3 list2_is Hf) as (_ & W & _).
  exact W.
Defined.

Lemma transfer_list_set_data_size_correct_witness :
  ∃ m', transfer_list_set_data_size base_va 65560 20 list2 = Some (Done (true, m')).
Proof.
  assert (Hn : 0 ≤ 20 < 2 ^ 32) by lia.
  destruct (transfer_list_set_data_size_correct base_va head2 [] entry1 [entry2] list2 20 list2_is Hn)
    as (ok & m' & E & R).
  assert (En : new_room head2 [] entry1 [entry2] 20 = Some 32) by (vm_compute; reflexivity).
  rewrite En in R. destruct R as [-> _].
  exists m'. exact E.
Defined.

Lemma transfer_list_add_correct_witness :
  ∃ va m', transfer_list_add base_va 5 30 None list2 = Some (Done (va, m')).
Proof.
  assert (Ht : 0 ≤ 5 < 2 ^ 16) by lia. assert (Hn : 0 ≤ 30 < 2 ^ 32) by lia.
  destruct (transfer_list_add_correct base_va head2 [entry1; entry2] list2 5 30 list2_is Ht Hn)
    as (va & m' & E & _).
  exists va, m'. exact E.
Defined.

Lemma transfer_list_add_with_align_correct_witness :
  transfer_list_add_with_align base_va 5 4 None 4 list2 = Some (Panicked 0).
Proof.
  assert (Ht : 0 ≤ 5 < 2 ^ 16) by lia. assert (Hn : 0 ≤ 4 < 2 ^ 32) by lia. assert (Ha : 3 ≤ 4 < 32) by lia.
  pose proof (transfer_list_add_with_align_correct base_va head2 [entry1; entry2] list2 5 4 4 list2_is Ht Hn Ha) as R.
  assert (Em : (misalignment base_va [entry1; entry2] 4 =? 8) = true) by (vm_compute; reflexivity).
  rewrite Em in R. exact R.
Defined.

Lemma transfer_list_find_safe_witness :
  wp (transfer_list_find base_va 200 7) list2 (λ va m', m' = list2).
Proof.
  eapply wp_mono; [apply (transfer_list_find_safe base_va list2 TL_OPS_ALL 7 200)|by intros va m' [? _]].
  - done.
  - vm_compute. repeat constructor; done.
  - vm_compute. done.
  - vm_compute. done.
  - exists list2. vm_compute. reflexivity.
  - done.
  - vm_compute. done.
  - vm_compute. lia.
Defined.

Lemma transfer_list_stays_valid_witness :
  wp (_ ← init_list base_va 128; run_calls base_va 200 [Add 1 5; AddAligned 2 8 3; Resize 1 20; Remove 2])
    (replicate 128 0) (λ _ m', valid_list base_va 128 m').
Proof.
  eapply wp_mono; [apply (transfer_list_stays_valid base_va 128 (replicate 128 0) 200
    [Add 1 5; AddAligned 2 8 3; Resize 1 20; Remove 2])|by intros ? m' [? _]].
  - done.
  - by exists 8192.
  - lia.
  - simpl. lia.
  - done.
  - by apply Forall_replicate.
  - repeat constructor; lia.
  - lia.
Defined.

(** ** What goes wrong *)

(** The data given to [transfer_list_add] is stored eight entry headers after
    the entry, where the next entries will be, and not where
    [transfer_list_entry_data] finds it; in a list whose memory ends before
    that, it is stored outside. *)
Theorem add_misplaces_data :
  let m := state_of_list (transfer_list_add base_va 1 4 (Some [9; 8; 7; 6])) list0 in
  result_of (transfer_list_add base_va 1 4 (Some [9; 8; 7; 6])) list0 = Some (Done 65560) ∧
  result_of (transfer_list_entry_data base_va 65560) m = Some (Done 65568) ∧
  slice (65568 - base_va) 4 m = [0; 0; 0; 0] ∧
  slice (65560 + 64 - base_va) 4 m = [9; 8; 7; 6] ∧
  result_of (_ ← init_list base_va 64; transfer_list_add base_va 1 4 (Some [9; 8; 7; 6])) (replicate 64 0)
    = Some Undef.
Proof. vm_compute. split_and!; reflexivity. Qed.

(** The address behind the last entry passes the test of [transfer_list_rem],
    which then writes behind the list. *)
Theorem rem_accepts_end :
  result_of (transfer_list_rem base_va 65560) list0 = Some (Done true) ∧
  result_of (_ ← init_list base_va 24; transfer_list_rem base_va 65560) (replicate 24 0) = Some Undef.
Proof. vm_compute. split_and!; reflexivity. Qed.

(** A list whose size ends with the data of its last entry, without padding. *)
Definition unpadded : list Z :=
  th_bytes (mk_tlh 0 1 3 64 0 0) 35 ++ te_header 1 8 3 ++ [1; 2; 3] ++ replicate 29 0.

(** Such a list is accepted and its entry found, but a change of the size of
    the data moves a negative number of bytes. *)
Theorem unpadded_list_resize :
  result_of (transfer_list_check_header base_va) unpadded = Some (Done TL_OPS_ALL) ∧
  result_of (transfer_list_find base_va 5 1) unpadded = Some (Done 65560) ∧
  result_of (transfer_list_set_data_size base_va 65560 3) unpadded = Some Undef.
Proof. vm_compute. split_and!; reflexivity. Qed.

(** A list that claims to be smaller than its header is accepted, and the
    first entry that is added overwrites the header. *)
Definition no_size : list Z := th_bytes (mk_tlh 0 1 3 64 0 0) 0 ++ replicate 40 0.

Theorem small_list_accepted :
  result_of (transfer_list_check_header base_va) no_size = Some (Done TL_OPS_ALL) ∧
  result_of (transfer_list_add base_va 1 0 None) no_size = Some (Done base_va) ∧
  result_of (_ ← transfer_list_add base_va 1 0 None; transfer_list_check_header base_va) no_size =
    Some (Done TL_OPS_NONE).
Proof. vm_compute. split_and!; reflexivity. Qed.
