(* ===== verification/TransferListMap.v ===== *)
(** Transfer lists and the memory map, core/kernel/transfer_list.c: mapping,
    unmapping, making and relocating a list. Of the memory map the model has
    the physical memory and what is mapped where; how core_mmu_add_mapping of
    core/mm/core_mmu.c chooses an address, and when core_mmu_remove_mapping
    finds the mapping it is to remove, are parameters. *)
From S2P Require Import Prelude State Bytes TransferList TransferListProofs TransferListSpec.
From S2P Require Import TransferListRun.

#[local] Ltac Zify.zify_post_hook ::= Z.div_mod_to_equations.

Definition SMALL_PAGE_SIZE : Z := 4096.

(** The bytes of the physical memory, and for the virtual address of a mapping
    its physical address and its size. *)
Record mmu := mk_mmu { phys : Z → Z; maps : gmap Z (Z * Z) }.

(** [place w pa len] is the address [core_mmu_add_mapping] gives and how many
    bytes are accessible there, [None] when it fails; [unmaps pa n len]
    tells whether [core_mmu_remove_mapping] takes a mapping of [n] bytes at
    [pa] for one of [len]. *)
Class CoreMmu := {
  place : mmu → Z → Z → option (Z * Z);
  unmaps : Z → Z → Z → bool;
}.

Section Map.
Context `{CoreMmu}.

Definition core_mmu_add_mapping (pa len : Z) : St mmu Z := λ w,
  match place w pa len with
  | None => Some (Done (0, w))
  | Some (va, n) => Some (Done (va, mk_mmu (phys w) (<[va := (pa, n)]> (maps w))))
  end.

(** 0 if the mapping is removed. *)
Definition core_mmu_remove_mapping (va len : Z) : St mmu Z := λ w,
  match maps w !! va with
  | Some (pa, n) => if unmaps pa n len then Some (Done (0, mk_mmu (phys w) (delete va (maps w))))
                   else Some (Done (1, w))
  | None => Some (Done (1, w))
  end.

(** [n] bytes of the physical memory. *)
Definition phys_bytes (f : Z → Z) (pa n : Z) : list Z := f <$> seqZ pa n.

Definition set_phys (pa : Z) (bytes : list Z) (f : Z → Z) : Z → Z := λ a,
  match bytes !! Z.to_nat (a - pa) with
  | Some b => if pa <=? a then b else f a
  | None => f a
  end.

(** Code on the list at [va]. *)
Definition on_list {A} (va : Z) (m : TL A) : St mmu A := λ w,
  match maps w !! va with
  | None => Some Undef
  | Some (pa, n) =>
      match m (phys_bytes (phys w) pa n) with
      | Some (Done (a, bytes)) => Some (Done (a, mk_mmu (set_phys pa bytes (phys w)) (maps w)))
      | Some (Panicked c) => Some (Panicked c)
      | Some Undef => Some Undef
      | None => None
      end
  end.

(** [panic()] of [unmap_list]. *)
Definition UNMAP_PANIC : Z := 1.

Definition get_align_base_addr (pa tl alignment : Z) : outcome Z :=
  align ← TL_ALIGNMENT_FROM_ORDER alignment;
  let align_mask := u32 (align - 1) in
  let align_off := Z.land tl align_mask in
  let new_addr := u64 (Z.land pa (u64 (Z.lnot align_mask)) + align_off) in
  Done (if new_addr <? pa then u64 (new_addr + align) else new_addr).

Definition unmap_list (tl sz : Z) : St mmu unit :=
  res ← core_mmu_remove_mapping tl sz;
  run (if negb (res =? 0) then Panicked UNMAP_PANIC else Done tt).

Fixpoint map_loop (fuel : nat) (pa sz : Z) : St mmu Z :=
  match fuel with
  | O => out_of_fuel
  | S fuel =>
      tl ← core_mmu_add_mapping pa sz;
      if tl =? 0 then mret 0 else
      ops ← on_list tl (transfer_list_check_header tl);
      if ops =? TL_OPS_NONE then _ ← unmap_list tl sz; mret 0 else
      max_size ← on_list tl (tl_max_size tl);
      if max_size <=? sz then mret tl else
      _ ← unmap_list tl sz;
      map_loop fuel pa (Z.land (u32 (max_size + (SMALL_PAGE_SIZE - 1))) (u32 (Z.lnot (SMALL_PAGE_SIZE - 1))))
  end.

Definition transfer_list_map (fuel : nat) (pa : Z) : St mmu Z := map_loop fuel pa SMALL_PAGE_SIZE.

Definition transfer_list_unmap_nosync (tl : Z) : St mmu unit :=
  sz ← on_list tl (tl_max_size tl);
  unmap_list tl sz.

(** The cache is not part of the model. *)
Definition transfer_list_unmap_sync (tl : Z) : St mmu unit :=
  sz ← on_list tl (tl_max_size tl);
  _ ← on_list tl (transfer_list_update_checksum tl);
  unmap_list tl sz.

Definition transfer_list_init (pa max_size : Z) : St mmu Z :=
  if (pa =? 0) || (max_size =? 0) then mret 0 else
  let align := 2 ^ TRANSFER_LIST_INIT_MAX_ALIGN in
  if negb (IS_ALIGNED pa align) || negb (IS_ALIGNED max_size align) || (max_size <? sizeof_tl) then mret 0 else
  tl ← core_mmu_add_mapping pa max_size;
  if tl =? 0 then mret 0 else
  _ ← on_list tl (init_list tl max_size);
  mret tl.

Definition transfer_list_relocate (tl pa max_size : Z) : St mmu Z :=
  if (tl =? 0) || (pa =? 0) || (max_size =? 0) then mret 0 else
  alignment ← on_list tl (tl_alignment tl);
  new_addr ← run (get_align_base_addr pa tl alignment);
  let new_max_size := u64 (max_size - u64 (new_addr - pa)) in
  size ← on_list tl (tl_size tl);
  if new_max_size <? size then mret 0 else
  new_tl ← core_mmu_add_mapping new_addr new_max_size;
  if new_tl =? 0 then mret 0 else
  bytes ← on_list tl (load 0 size);
  _ ← on_list new_tl (store 0 bytes);
  _ ← on_list new_tl (set_field new_tl 4 (new_tl + 12) (u32 new_max_size));
  _ ← on_list new_tl (transfer_list_update_checksum new_tl);
  _ ← transfer_list_unmap_nosync tl;
  mret new_tl.

End Map.

(** What the memory map promises. *)
Class CoreMmuLaws `{CoreMmu} := {
  place_ok : ∀ w pa len va n, 0 ≤ len → place w pa len = Some (va, n) →
    0 < len ∧ 0 < va ∧ len ≤ n ∧ va mod SMALL_PAGE_SIZE = pa mod SMALL_PAGE_SIZE ∧ va + n + 2 ^ 33 ≤ 2 ^ 64;
}.

(** ** Physical memory *)

Lemma length_phys_bytes f pa n : 0 ≤ n → Z.of_nat (length (phys_bytes f pa n)) = n.
Proof. intros. unfold phys_bytes. rewrite length_fmap, length_seqZ. lia. Qed.

Lemma lookup_phys_bytes f pa n (i : nat) :
  phys_bytes f pa n !! i = if decide (Z.of_nat i < n) then Some (f (pa + Z.of_nat i)) else None.
Proof.
  unfold phys_bytes. rewrite list_lookup_fmap. case_decide.
  - by rewrite lookup_seqZ_lt by lia.
  - by rewrite lookup_seqZ_ge by lia.
Qed.

Lemma set_phys_at f pa b n : Z.of_nat (length b) = n → phys_bytes (set_phys pa b f) pa n = b.
Proof.
  intros L. apply list_eq. intros i. rewrite lookup_phys_bytes. case_decide as D.
  - destruct (lookup_lt_is_Some_2 b i ltac:(lia)) as [x Ex]. unfold set_phys.
    replace (Z.to_nat (pa + Z.of_nat i - pa)) with i by lia. rewrite Ex.
    by destruct (Z.leb_spec pa (pa + Z.of_nat i)); [|lia].
  - symmetry. apply lookup_ge_None. lia.
Qed.

(** Two ranges that do not meet. *)
Definition apart (pa n pa' n' : Z) : Prop := pa + n ≤ pa' ∨ pa' + n' ≤ pa.

Lemma set_phys_apart f pa b pa' n' :
  apart pa (Z.of_nat (length b)) pa' n' → phys_bytes (set_phys pa b f) pa' n' = phys_bytes f pa' n'.
Proof.
  intros Ap. apply list_eq. intros i. rewrite !lookup_phys_bytes. case_decide as D; [|done]. f_equal.
  unfold set_phys. destruct (b !! Z.to_nat (pa' + Z.of_nat i - pa)) as [x|] eqn:E; [|done].
  apply lookup_lt_Some in E. destruct (Z.leb_spec pa (pa' + Z.of_nat i)); [|done]. unfold apart in Ap. lia.
Qed.

Definition bytes_phys (f : Z → Z) : Prop := ∀ a, is_byte (f a).

Lemma phys_bytes_are_bytes f pa n : bytes_phys f → Forall is_byte (phys_bytes f pa n).
Proof. intros B. apply Forall_fmap, Forall_true. intros x. apply B. Qed.

(** Code that leaves the size of the memory. *)
Definition keeps_length {A} (m : TL A) : Prop := ∀ b a b', m b = Some (Done (a, b')) → length b' = length b.

Lemma keeps_ret {A} (a : A) : keeps_length (mret a).
Proof. by intros b a' b' [= _ <-]. Qed.

Lemma keeps_bind {A B} (m : TL A) (f : A → TL B) :
  keeps_length m → (∀ a, keeps_length (f a)) → keeps_length (mbind f m).
Proof.
  intros Km Kf b c b'. unfold mbind, st_mbind, st_bind. destruct (m b) as [[[a b1]| |]|] eqn:E; [|done..].
  intros E'. rewrite (Kf _ _ _ _ E'). by apply Km in E.
Qed.

Lemma keeps_load off len : keeps_length (load off len).
Proof. intros b a b'. unfold load. case_match; [by intros [= _ <-]|done]. Qed.

Lemma keeps_store off d : keeps_length (store off d).
Proof.
  intros b a b'. unfold store. destruct (inside _ _ _) eqn:I; [|done]. intros [= _ <-].
  unfold inside in I. apply andb_true_iff in I as [[I1 I2]%andb_true_iff I3].
  apply length_put_bytes; lia.
Qed.

Lemma keeps_assert b : keeps_length (st_assert b).
Proof. intros x a x'. unfold st_assert, run. destruct b; simpl; [by intros [= _ <-]|done]. Qed.

Create HintDb keeps.
#[local] Hint Resolve @keeps_ret @keeps_load @keeps_store @keeps_assert : keeps.

(** Goes through code. *)
Ltac keep :=
  repeat match goal with
  | |- keeps_length (mbind _ _) => apply keeps_bind; [|intros]
  | |- keeps_length (if ?b then _ else _) => destruct b
  | |- keeps_length (match ?x with _ => _ end) => destruct x
  end; eauto with keeps.

Lemma keeps_field tl n va : keeps_length (field tl n va).
Proof. unfold field, load_le. keep. Qed.

Lemma keeps_set_field tl n va z : keeps_length (set_field tl n va z).
Proof. unfold set_field, store_le. keep. Qed.
#[local] Hint Resolve keeps_field keeps_set_field : keeps.

Lemma keeps_update tl : keeps_length (transfer_list_update_checksum tl).
Proof.
  unfold transfer_list_update_checksum, transfer_list_verify_checksum, calc_byte_sum, tl_flags, tl_size,
    tl_checksum, set_tl_checksum. keep.
Qed.
#[local] Hint Resolve keeps_update : keeps.

Lemma keeps_init_list tl max : keeps_length (init_list tl max).
Proof. unfold init_list. keep. Qed.

Section Proofs.
Context `{CoreMmuLaws}.

(** Code on the list that is mapped at [va]. *)
Lemma wp_on_list {A} va pa n (m : TL A) w (Q : A → mmu → Prop) :
  maps w !! va = Some (pa, n) → 0 ≤ n → keeps_length m →
  wp m (phys_bytes (phys w) pa n) (λ a b, Z.of_nat (length b) = n →
    Q a (mk_mmu (set_phys pa b (phys w)) (maps w))) →
  wp (on_list va m) w Q.
Proof.
  intros E Hn K (a & b & Em & HQ). eexists _, _. unfold on_list. rewrite E, Em. split; [done|]. apply HQ.
  apply K in Em. rewrite Em. by apply length_phys_bytes.
Qed.

Lemma wp_add_mapping pa len w (Q : Z → mmu → Prop) :
  0 ≤ len → Q 0 w →
  (∀ va n, place w pa len = Some (va, n) → 0 < va → len ≤ n → va mod SMALL_PAGE_SIZE = pa mod SMALL_PAGE_SIZE →
     va + n + 2 ^ 33 ≤ 2 ^ 64 → Q va (mk_mmu (phys w) (<[va := (pa, n)]> (maps w)))) →
  wp (core_mmu_add_mapping pa len) w Q.
Proof.
  intros Hl HN HQ. unfold core_mmu_add_mapping, wp. destruct (place w pa len) as [[va n]|] eqn:Pl.
  - destruct (place_ok w pa len va n Hl Pl) as (? & ? & ? & ? & ?). eexists _, _. split; [done|]. by apply HQ.
  - by eexists _, _.
Qed.

(** *** Making a list *)

Lemma IS_ALIGNED_divide x k : 0 ≤ k → IS_ALIGNED x (2 ^ k) = true → (2 ^ k | x).
Proof.
  intros Hk. rewrite IS_ALIGNED_spec by done. intros E%Z.eqb_eq.
  apply Z.mod_divide; [pose proof (pow2_pos k Hk); lia|done].
Qed.

Lemma page_divide va pa : va mod SMALL_PAGE_SIZE = pa mod SMALL_PAGE_SIZE → (8 | pa) → (8 | va).
Proof. unfold SMALL_PAGE_SIZE. intros E [q ->]. exists (va / 8). lia. Qed.

(** [transfer_list_init] gives NULL or a list that is mapped and valid: it
    has version 1, the size asked for, and its checksum is right. It gives NULL
    for an address or a size that is not a multiple of eight, or a size that is
    less than that of a header, and changes nothing then. *)
Theorem transfer_list_init_correct pa max w :
  bytes_phys (phys w) → 0 ≤ pa → 0 ≤ max < 2 ^ 32 →
  wp (transfer_list_init pa max) w (λ tl w',
    tl = 0 ∧ w' = w ∨
    0 < tl ∧ (8 | pa) ∧ (8 | max) ∧ sizeof_tl ≤ max ∧
      ∃ n, maps w' !! tl = Some (pa, n) ∧ max ≤ n ∧ valid_list tl max (phys_bytes (phys w') pa n)).
Proof.
  intros Hb Hp Hm. unfold transfer_list_init.
  destruct (Z.eqb_spec pa 0); [cbn [orb]; st_step; by left|].
  destruct (Z.eqb_spec max 0); [cbn [orb]; st_step; by left|]. cbn [orb].
  destruct (IS_ALIGNED pa (2 ^ TRANSFER_LIST_INIT_MAX_ALIGN)) eqn:Ap; [|cbn [negb orb]; st_step; by left].
  destruct (IS_ALIGNED max (2 ^ TRANSFER_LIST_INIT_MAX_ALIGN)) eqn:Am; [|cbn [negb orb]; st_step; by left].
  destruct (Z.ltb_spec max sizeof_tl); [cbn [negb orb]; st_step; by left|]. cbn [negb orb].
  unfold TRANSFER_LIST_INIT_MAX_ALIGN in *.
  apply IS_ALIGNED_divide in Ap; [|lia]. apply IS_ALIGNED_divide in Am; [|lia]. change (2 ^ 3) with 8 in Ap, Am.
  st_step. apply wp_add_mapping; [lia| |].
  { change (0 =? 0) with true. cbv iota. st_step. by left. }
  intros va k Pl Hva Hn Hpg Htop. destruct (Z.eqb_spec va 0); [lia|]. st_step.
  eapply wp_on_list; [apply lookup_insert_eq|lia|apply keeps_init_list|]. simpl.
  eapply wp_mono; [apply (wp_init_list va max)|].
  - done.
  - by eapply page_divide.
  - unfold sizeof_tl in *. lia.
  - rewrite length_phys_bytes by lia. lia.
  - rewrite length_phys_bytes by lia. lia.
  - by apply phys_bytes_are_bytes.
  - intros ? m V L. st_step. right. split_and!; try done. exists k. simpl. rewrite lookup_insert_eq.
    split_and!; [done|lia|]. by rewrite set_phys_at.
Qed.

(** *** Mapping a list that is there *)

Lemma bind_done {S A B} (m : St S A) (f : A → St S B) s b s2 :
  mbind f m s = Some (Done (b, s2)) → ∃ a s1, m s = Some (Done (a, s1)) ∧ f a s1 = Some (Done (b, s2)).
Proof.
  unfold mbind, st_mbind, st_bind. destruct (m s) as [[[a s1]| |]|]; [|done..]. intros E. by exists a, s1.
Qed.

(** Code that only reads. *)
Definition reads_only {A} (m : TL A) : Prop := ∀ b a b', m b = Some (Done (a, b')) → b' = b.

Lemma reads_ret {A} (a : A) : reads_only (mret a).
Proof. by intros b a' b' [= _ <-]. Qed.

Lemma reads_bind {A B} (m : TL A) (f : A → TL B) :
  reads_only m → (∀ a, reads_only (f a)) → reads_only (mbind f m).
Proof. intros Km Kf b c b' (a & b1 & E & E')%bind_done. apply Km in E as ->. by apply Kf in E'. Qed.

Lemma reads_field tl n va : reads_only (field tl n va).
Proof.
  unfold field, load_le. apply reads_bind; [|intros; apply reads_ret]. intros b a b'. unfold load.
  case_match; [by intros [= _ <-]|done].
Qed.

Lemma reads_load off len : reads_only (load off len).
Proof. intros b a b'. unfold load. case_match; [by intros [= _ <-]|done]. Qed.

Lemma reads_check_header tl : reads_only (transfer_list_check_header tl).
Proof.
  unfold transfer_list_check_header, transfer_list_verify_checksum, calc_byte_sum, tl_flags, tl_size,
    tl_signature, tl_max_size, tl_hdr_size, tl_version.
  repeat match goal with
  | |- reads_only (mbind _ _) => apply reads_bind; [|intros]
  | |- reads_only (if ?b then _ else _) => destruct b
  | |- reads_only (mret _) => apply reads_ret
  | |- reads_only (field _ _ _) => apply reads_field
  | |- reads_only (load _ _) => apply reads_load
  end.
Qed.

(** Reading leaves the physical memory. *)
Definition same_phys (w w' : mmu) : Prop := maps w' = maps w ∧ ∀ a, phys w' a = phys w a.

Lemma set_phys_same f pa n a : set_phys pa (phys_bytes f pa n) f a = f a.
Proof.
  unfold set_phys. destruct (phys_bytes f pa n !! _) as [x|] eqn:E; [|done].
  destruct (Z.leb_spec pa a); [|done]. rewrite lookup_phys_bytes in E. case_decide; [|done].
  injection E as <-. f_equal. lia.
Qed.

Lemma phys_bytes_ext f g pa n : (∀ a, f a = g a) → phys_bytes f pa n = phys_bytes g pa n.
Proof. intros E. unfold phys_bytes. apply list_fmap_ext. intros i x _. apply E. Qed.

Lemma on_list_reads {A} va pa n (m : TL A) w a w' :
  maps w !! va = Some (pa, n) → reads_only m → on_list va m w = Some (Done (a, w')) →
  same_phys w w' ∧ m (phys_bytes (phys w) pa n) = Some (Done (a, phys_bytes (phys w) pa n)).
Proof.
  intros E R. unfold on_list. rewrite E. destruct (m _) as [[[x b]| |]|] eqn:Em; try done.
  intros [= -> <-]. pose proof (R _ _ _ Em) as ->. split; [|done].
  split; [done|]. intros y. apply set_phys_same.
Qed.

(** What [transfer_list_map] has seen of a list it returns. *)
Definition accepted (tl pa : Z) (w : mmu) : Prop := ∃ n c, maps w !! tl = Some (pa, n) ∧ 0 < tl ∧
  SMALL_PAGE_SIZE ≤ n ∧ tl + n + 2 ^ 33 ≤ 2 ^ 64 ∧
  ends_with (transfer_list_check_header tl) (phys_bytes (phys w) pa n) c ∧ c ≠ TL_OPS_NONE ∧
  num (phys_bytes (phys w) pa n) 4 12 ≤ n.

Lemma pages_eq x : 0 ≤ x → Z.land (u32 x) (u32 (Z.lnot (SMALL_PAGE_SIZE - 1))) = u32 x / 4096 * 4096.
Proof.
  intros Hx. unfold SMALL_PAGE_SIZE, u32. rewrite <- (Z.land_ones (Z.lnot _)) by lia.
  rewrite (Z.land_comm (Z.lnot _)), Z.land_assoc, Z.land_ones, Zmod_mod by lia.
  change (4096 - 1) with (Z.ones 12). rewrite <- Z.ldiff_land, Z.ldiff_ones_r by lia.
  by rewrite Z.shiftl_mul_pow2, Z.shiftr_div_pow2 by lia.
Qed.

Lemma max_size_read va m x m' : tl_max_size va m = Some (Done (x, m')) → x = num m 4 12.
Proof.
  unfold tl_max_size, field, load_le. intros (l & b & El & Em)%bind_done.
  unfold load in El. destruct (inside _ _ _); [|done]. injection El as <- <-. injection Em as <-.
  unfold num. by replace (va + 12 - va) with 12 by lia.
Qed.

Lemma map_loop_accepted fuel : ∀ pa sz w tl w',
  bytes_phys (phys w) → sz = 0 ∨ SMALL_PAGE_SIZE ≤ sz →
  map_loop fuel pa sz w = Some (Done (tl, w')) → tl ≠ 0 →
  accepted tl pa w' ∧ bytes_phys (phys w').
Proof.
  induction fuel as [|fuel IH]; intros pa sz w tl w' Hb Hsz E N; [done|]. simpl in E.
  apply bind_done in E as (va & w1 & E1 & E). unfold core_mmu_add_mapping in E1.
  destruct (place w pa sz) as [[va' n]|] eqn:Pl.
  2: { injection E1 as <- <-. change (0 =? 0) with true in E. cbv iota in E. by injection E as <- <-. }
  injection E1 as -> <-. destruct (place_ok w pa sz va n ltac:(unfold SMALL_PAGE_SIZE in *; lia) Pl) as (? & Hva & Hn & Hpg & Htop).
  destruct (Z.eqb_spec va 0); [lia|].
  apply bind_done in E as (ops & w2 & E2 & E).
  eapply on_list_reads in E2 as [[M2 P2] Eh]; [|apply lookup_insert_eq|apply reads_check_header]. simpl in *.
  assert (B2 : bytes_phys (phys w2)) by (intros a; rewrite P2; apply Hb).
  destruct (Z.eqb_spec ops TL_OPS_NONE) as [|Nops].
  { apply bind_done in E as (u & w3 & _ & E). by injection E as <- <-. }
  apply bind_done in E as (mx & w3 & E3 & E).
  assert (L2 : maps w2 !! va = Some (pa, n)) by (rewrite M2; apply lookup_insert_eq).
  eapply on_list_reads in E3 as [[M3 P3] Em]; [|exact L2|apply reads_field].
  assert (B3 : bytes_phys (phys w3)) by (intros a; rewrite P3; apply B2).
  destruct (Z.leb_spec mx sz).
  - injection E as <- <-. split; [|done]. exists n, ops.
    rewrite (phys_bytes_ext (phys w3) (phys w2)) by done. rewrite M3, (phys_bytes_ext (phys w2) (phys w)) in * by done.
    split_and!; try done; [unfold SMALL_PAGE_SIZE in *; lia|by eexists|].
    apply max_size_read in Em. lia.
  - apply bind_done in E as (u & w4 & E4 & E). eapply (IH _ _ w4); [| |exact E|done].
    + unfold unmap_list in E4. apply bind_done in E4 as (res & w5 & E5 & E4).
      assert (w5 = w4) as ->.
      { unfold run in E4. destruct (negb (res =? 0)); [done|]. simpl in E4. by injection E4. }
      assert (Pw : phys w4 = phys w3).
      { unfold core_mmu_remove_mapping in E5. destruct (maps w3 !! va) as [[? ?]|]; [destruct (unmaps _ _ _)|];
          by injection E5 as _ <-. }
      rewrite Pw. done.
    + assert (0 ≤ mx).
      { apply max_size_read in Em as ->.
        pose proof (num_range (phys_bytes (phys w2) pa n) 4 12 (phys_bytes_are_bytes _ _ _ B2)). lia. }
      rewrite pages_eq by (unfold SMALL_PAGE_SIZE; lia). unfold SMALL_PAGE_SIZE.
      pose proof (u32_range (mx + (4096 - 1))). lia.
Qed.

(** C27: A list that [transfer_list_map] returns can be searched safely,
    whatever the physical memory holds: it is mapped, and [transfer_list_find]
    ends without an access outside its mapping, changes nothing, and returns
    NULL or an entry with the tag within the size of the list. *)
Theorem transfer_list_map_find_safe fuel pa w tl w' tag fuel' :
  bytes_phys (phys w) → transfer_list_map fuel pa w = Some (Done (tl, w')) → tl ≠ 0 →
  ∃ n, maps w' !! tl = Some (pa, n) ∧
    let m := phys_bytes (phys w') pa n in
    ((length m + 1 < fuel')%nat →
     wp (on_list tl (transfer_list_find tl fuel' tag)) w' (λ va w'', same_phys w' w'' ∧
       (va = 0 ∨ entry_at tl m va ∧ tag_at tl m va = tag))).
Proof.
  intros Hb E N. destruct (map_loop_accepted _ _ _ _ _ _ Hb ltac:(by right) E N)
    as [(n & c & L & Ht & Hn & Htop & Hc & Nc & Hx) B']. exists n. split; [done|]. intros m Hf.
  unfold SMALL_PAGE_SIZE in *. pose proof (length_phys_bytes (phys w') pa n ltac:(lia)) as Ln.
  assert (Bm : Forall is_byte m) by by apply phys_bytes_are_bytes.
  assert (Hs : size_of m ≤ num m 4 12) by exact (check_header_size tl m Ht ltac:(unfold m; lia) c Hc Nc).
  assert (W : wp (transfer_list_find tl fuel' tag) m (λ va m', m' = m ∧
    (va = 0 ∨ entry_at tl m va ∧ tag_at tl m va = tag))).
  { apply (wp_find_safe tl m); try done; unfold m in *; try lia; by left. }
  destruct W as (va & m' & Ef & -> & Q). eexists _, _. unfold on_list. rewrite L. fold m. rewrite Ef.
  split; [done|]. split; [|done]. split; [done|]. intros a. apply set_phys_same.
Qed.

(** *** Relocating a list *)

(** Where the list goes: the first address from [pa] on that is as far from the
    alignment as the list is. *)
Definition aligned_base (pa tl k : Z) : Z := pa + (tl - pa) mod 2 ^ k.

Lemma get_align_base_addr_spec pa tl k :
  0 ≤ pa → pa + 2 ^ 32 ≤ 2 ^ 64 → 0 ≤ tl → 0 ≤ k < 32 →
  get_align_base_addr pa tl k = Done (aligned_base pa tl k) ∧
  pa ≤ aligned_base pa tl k < pa + 2 ^ k ∧ (2 ^ k | aligned_base pa tl k - tl).
Proof.
  intros Hp Ht Htl Hk. pose proof (pow2_pos k ltac:(lia)). assert (2 ^ k ≤ 2 ^ 31) by (apply Z.pow_le_mono_r; lia).
  unfold get_align_base_addr, aligned_base, TL_ALIGNMENT_FROM_ORDER. destruct (Z.ltb_spec k 32); [|lia].
  rewrite Z.shiftl_1_l. unfold mbind, outcome_mbind, outcome_bind. cbv zeta.
  rewrite u32_id, land_high_mask by lia.
  replace (Z.land tl (2 ^ k - 1)) with (tl mod 2 ^ k)
    by (replace (2 ^ k - 1) with (Z.ones k) by (rewrite Z.ones_equiv; lia); by rewrite Z.land_ones by lia).
  set (d := 2 ^ k) in *. clearbody d.
  pose proof (Z.div_mod pa d ltac:(lia)). pose proof (Z.mod_pos_bound pa d ltac:(lia)).
  pose proof (Z.mod_pos_bound tl d ltac:(lia)). pose proof (Z.div_mod tl d ltac:(lia)).
  pose proof (Z.mod_pos_bound (tl - pa) d ltac:(lia)). pose proof (Z.div_mod (tl - pa) d ltac:(lia)).
  assert (E : (tl - pa) mod d = if tl mod d <? pa mod d then tl mod d - pa mod d + d else tl mod d - pa mod d).
  { symmetry. destruct (Z.ltb_spec (tl mod d) (pa mod d)).
    - apply (Z.mod_unique_pos _ _ (tl / d - pa / d - 1)); nia.
    - apply (Z.mod_unique_pos _ _ (tl / d - pa / d)); nia. }
  assert (0 ≤ pa / d * d) by (apply Z.mul_nonneg_nonneg; [apply Z.div_pos|]; lia).
  rewrite u64_id by nia. split_and!; [|lia|lia|].
  - f_equal. rewrite E. destruct (Z.ltb_spec (pa / d * d + tl mod d) pa); destruct (Z.ltb_spec (tl mod d) (pa mod d)); try nia.
    rewrite u64_id by nia. nia.
  - exists (- ((tl - pa) / d)). nia.
Qed.

Definition with_max (n : Z) (h : tl_head) : tl_head :=
  mk_tlh (th_checksum h) (th_version h) (th_alignment h) n (th_flags h) (th_reserved h).

(** The new list, from the bytes copied to it. *)
Lemma relocated_ok tl tl' h ents rest max rest' :
  tl_ok tl h ents rest → Forall is_byte rest' → 0 < tl' → (8 | tl') →
  tl' + body_size ents + Z.of_nat (length rest') + 2 ^ 33 ≤ 2 ^ 64 →
  max < 2 ^ 32 → body_size ents ≤ max ≤ body_size ents + Z.of_nat (length rest') →
  tl_ok tl' (with_max max h) ents rest'.
Proof.
  intros [] Hr Ht Ha Htop Hm Hs. pose proof (body_size_range ents).
  split; try done. destruct tl_ok_head. split; simpl; try done; lia.
Qed.

(** What is copied. *)
Lemma list_prefix h ents rest :
  slice 0 (body_size ents) (tl_mem h ents rest) = th_bytes h (body_size ents) ++ body ents.
Proof.
  assert (Lh : length (th_bytes h (body_size ents)) = 24%nat) by done.
  unfold tl_mem. rewrite app_assoc, slice_app_l; unfold body_size, sizeof_tl in *; rewrite ?length_app; [|lia..].
  apply slice_all; [done|]. rewrite length_app. lia.
Qed.

Lemma put_prefix h ents b :
  body_size ents ≤ Z.of_nat (length b) →
  put_bytes 0 (th_bytes h (body_size ents) ++ body ents) b =
  tl_mem h ents (drop (Z.to_nat (body_size ents)) b).
Proof.
  intros L. unfold put_bytes, tl_mem. simpl take. rewrite app_nil_l, <- app_assoc. do 3 f_equal.
  rewrite length_app, length_th_bytes. unfold body_size, sizeof_tl. lia.
Qed.

(** A step on one of two lists that are apart. *)
Lemma wp_step {A} va pa n va' pa' n' (m : TL A) b b' w (P : A → list Z → Prop) (Q : A → mmu → Prop) :
  maps w !! va = Some (pa, n) → maps w !! va' = Some (pa', n') → 0 ≤ n → apart pa n pa' n' →
  phys_bytes (phys w) pa n = b → phys_bytes (phys w) pa' n' = b' → keeps_length m → wp m b P →
  (∀ a w' c, maps w' = maps w → P a c → Z.of_nat (length c) = n → phys_bytes (phys w') pa n = c →
     phys_bytes (phys w') pa' n' = b' → Q a w') →
  wp (on_list va m) w Q.
Proof.
  intros E E' Hn Ap <- <- K W HQ. eapply wp_on_list; [done..|]. eapply wp_mono; [exact W|].
  intros a c Pc Lc. apply (HQ a _ c); [done|done|done|by apply set_phys_at|].
  apply set_phys_apart. by rewrite Lc.
Qed.

Lemma wp_remove_mapping va pa n len w (Q : unit → mmu → Prop) :
  maps w !! va = Some (pa, n) → unmaps pa n len = true → Q tt (mk_mmu (phys w) (delete va (maps w))) →
  wp (unmap_list va len) w Q.
Proof.
  intros E U HQ. unfold unmap_list. st_step. unfold core_mmu_remove_mapping, wp. rewrite E, U.
  eexists _, _. split; [done|]. change (negb (0 =? 0)) with false. cbv iota. by apply (wp_run _ tt).
Qed.

Lemma wp_on_read {A} va pa n (m : TL A) b w (Q : A → mmu → Prop) :
  maps w !! va = Some (pa, n) → phys_bytes (phys w) pa n = b → reads_only m →
  wp m b (λ a _, ∀ w', same_phys w w' → Q a w') → wp (on_list va m) w Q.
Proof.
  intros E <- R (a & c & Em & HQ). eexists _, _. unfold on_list. rewrite E, Em. split; [done|]. apply HQ.
  apply R in Em as ->. split; [done|]. intros y. apply set_phys_same.
Qed.

Lemma same_phys_bytes w w' pa n : same_phys w w' → phys_bytes (phys w') pa n = phys_bytes (phys w) pa n.
Proof. intros [_ E]. by apply phys_bytes_ext. Qed.

Lemma same_phys_ok w w' : same_phys w w' → bytes_phys (phys w) → bytes_phys (phys w').
Proof. intros [_ E] B a. rewrite E. apply B. Qed.

(** The copy: the bytes of the list, the new maximum and the checksum. *)
Lemma wp_copy_list {A} tl pa n new pa' n' h ents rest max w (k : Z → St mmu A) (Q : A → mmu → Prop) :
  tl_ok tl h ents rest → maps w !! tl = Some (pa, n) → maps w !! new = Some (pa', n') → apart pa' n' pa n →
  phys_bytes (phys w) pa n = tl_mem h ents rest → bytes_phys (phys w) →
  0 < new → (8 | new) → new + n' + 2 ^ 33 ≤ 2 ^ 64 → body_size ents ≤ max ≤ n' → max < 2 ^ 32 →
  (∀ w', maps w' = maps w → phys_bytes (phys w') pa n = tl_mem h ents rest →
     is_tl new (resealed (with_max max h) ents) ents (phys_bytes (phys w') pa' n') → wp (k new) w' Q) →
  wp (bytes ← on_list tl (load 0 (body_size ents));
      _ ← on_list new (store 0 bytes);
      _ ← on_list new (set_field new 4 (new + 12) (u32 max));
      _ ← on_list new (transfer_list_update_checksum new);
      k new) w Q.
Proof.
  intros Ok Et En Ap Pt Hb Hnew H8 Htop Hs Hm HQ. pose proof (body_size_range ents). pose proof Ok as [].
  assert (L1 : length (tl_mem h ents rest) = Z.to_nat (body_size ents + Z.of_nat (length rest))).
  { unfold tl_mem. rewrite !length_app, length_th_bytes. unfold body_size, sizeof_tl. lia. }
  assert (Ln : Z.of_nat (length (phys_bytes (phys w) pa' n')) = n') by (apply length_phys_bytes; lia).
  set (rest' := drop (Z.to_nat (body_size ents)) (phys_bytes (phys w) pa' n')).
  assert (Lr : Z.of_nat (length rest') = n' - body_size ents) by (unfold rest'; rewrite length_drop; lia).
  assert (Br : Forall is_byte rest') by by apply Forall_drop, phys_bytes_are_bytes.
  assert (Ok' : tl_ok new (with_max max h) ents rest') by (apply (relocated_ok tl new h ents rest); try done; lia).
  st_step. eapply wp_on_read; [exact Et|exact Pt|apply reads_load|].
  apply wp_load; [lia|lia|lia|]. rewrite list_prefix. intros w1 S1.
  st_step. eapply (wp_step _ pa' n' tl pa n _ _ _ _ (λ _ c, c = tl_mem h ents rest')); [| |lia|done|done| |apply keeps_store| |].
  { by rewrite (proj1 S1). }
  { by rewrite (proj1 S1). }
  { by rewrite (same_phys_bytes w). }
  { rewrite (same_phys_bytes w w1) by done. apply wp_store; [lia| |by apply put_prefix; lia].
    rewrite length_app, length_th_bytes. unfold body_size, sizeof_tl in *. lia. }
  intros _ w2 c M2 -> _ P2 T2. rewrite (proj1 S1) in M2.
  st_step. eapply (wp_step _ pa' n' tl pa n _ _ _ _ (λ _ c, c = tl_mem (with_max max h) ents rest'));
    [by rewrite M2|by rewrite M2|lia|done|exact P2|exact T2|apply keeps_set_field| |].
  { unfold set_field. replace (new + 12 - new) with 12 by lia. rewrite u32_id by lia.
    apply wp_store; [lia| |done]. unfold tl_mem. rewrite length_app, length_th_bytes. simpl. lia. }
  intros _ w3 c M3 -> _ P3 T3. rewrite M2 in M3.
  st_step. eapply (wp_step _ pa' n' tl pa n _ _ _ _
    (λ _ c, c = tl_mem (resealed (with_max max h) ents) ents rest'));
    [by rewrite M3|by rewrite M3|lia|done|exact P3|exact T3|apply keeps_update| |].
  { apply wp_update_mem; [done|apply Ok'|lia|done]. }
  intros _ w4 c M4 -> _ P4 T4. rewrite M3 in M4. apply HQ; [done|done|]. rewrite P4. by apply sealed_is_tl.
Qed.

(** C28: Relocating a list. The list is mapped with its maximum size, so that
    unmapping it succeeds (else it panics, [unmap_of_odd_list_panics]); the room
    at the new place is not less than the alignment of the list; and the new
    place does not overlap the old one. Then [transfer_list_relocate] does not
    panic and gives NULL and changes nothing, or a list with the same entries,
    the new maximum size and a right checksum, at the first address from [pa] on
    that has the alignment of the list; the old mapping is gone. *)
Theorem transfer_list_relocate_correct tl pa0 n0 h ents pa max w :
  maps w !! tl = Some (pa0, n0) → 0 ≤ n0 → is_tl tl h ents (phys_bytes (phys w) pa0 n0) →
  bytes_phys (phys w) → 3 ≤ th_alignment h → unmaps pa0 n0 (th_max_size h) = true →
  0 < pa → pa + 2 ^ 32 ≤ 2 ^ 64 → 2 ^ th_alignment h ≤ max < 2 ^ 32 →
  let pa' := aligned_base pa tl (th_alignment h) in
  let max' := max - (pa' - pa) in
  (∀ w' va n, same_phys w w' → place w' pa' max' = Some (va, n) → va ≠ tl ∧ apart pa' n pa0 n0) →
  wp (transfer_list_relocate tl pa max) w (λ va w',
    va = 0 ∧ same_phys w w' ∨
    0 < va ∧ body_size ents ≤ max' ∧ maps w' !! tl = None ∧
      ∃ n h', maps w' !! va = Some (pa', n) ∧ is_tl va h' ents (phys_bytes (phys w') pa' n) ∧
        th_max_size h' = max' ∧ th_version h' = th_version h ∧ th_alignment h' = th_alignment h).
Proof.
  intros Et Hn0 (rest & Em & Ok & Se & Hr) Hb Ha Hu Hp Hpt Hmax pa' max' Hpl.
  pose proof Ok as []. pose proof tl_ok_head as []. pose proof (body_size_range ents).
  assert (2 ^ th_alignment h ≤ 2 ^ 31) by (apply Z.pow_le_mono_r; lia).
  destruct (get_align_base_addr_spec pa tl (th_alignment h)) as (Eb & Rb & Db); [lia..|]. fold pa' in Eb, Rb, Db.
  unfold transfer_list_relocate.
  destruct (Z.eqb_spec tl 0); [lia|]. destruct (Z.eqb_spec pa 0); [lia|].
  destruct (Z.eqb_spec max 0); [pose proof (pow2_pos (th_alignment h)); lia|]. cbn [orb].
  st_step. eapply wp_on_read; [exact Et|exact Em|apply reads_field|]. apply wp_tl_alignment. intros w1 S1.
  st_step. eapply wp_run; [exact Eb|]. rewrite (u64_id (pa' - pa)) by lia. fold max'.
  rewrite (u64_id max') by (unfold max'; lia).
  st_step. eapply wp_on_read; [rewrite (proj1 S1); exact Et|rewrite (same_phys_bytes w w1) by done; exact Em|apply reads_field|].
  apply wp_tl_size; [lia|]. intros w2 S2.
  assert (S : same_phys w w2).
  { split; [by rewrite (proj1 S2), (proj1 S1)|]. intros a. by rewrite (proj2 S2), (proj2 S1). }
  destruct (Z.ltb_spec max' (body_size ents)); [st_step; by left|].
  st_step. apply wp_add_mapping; [lia| |].
  { change (0 =? 0) with true. cbv iota. st_step. by left. }
  intros va k Pl Hva Hk Hpg Htop. destruct (Hpl w2 va k S Pl) as [Nva Ap].
  destruct (Z.eqb_spec va 0); [lia|].
  apply (wp_copy_list tl pa0 n0 va pa' k h ents rest max' _
    (λ new, _ ← transfer_list_unmap_nosync tl; mret new)); simpl; try done.
  - rewrite lookup_insert_ne by done. by rewrite (proj1 S).
  - apply lookup_insert_eq.
  - by rewrite (same_phys_bytes w).
  - by apply (same_phys_ok w).
  - eapply page_divide; [exact Hpg|]. destruct Db as [q Eq]. replace pa' with (q * 2 ^ th_alignment h + tl) by lia.
    apply Z.divide_add_r; [|done]. apply Z.divide_mul_r.
    exists (2 ^ (th_alignment h - 3)). change 8 with (2 ^ 3). rewrite <- Z.pow_add_r by lia. f_equal. lia.
  - unfold max' in *. lia.
  - intros w3 M3 T3 I3. st_step. unfold transfer_list_unmap_nosync. st_step.
    assert (Et3 : maps w3 !! tl = Some (pa0, n0)).
    { rewrite M3. rewrite lookup_insert_ne by done. by rewrite (proj1 S). }
    eapply wp_on_read; [exact Et3|exact T3|apply reads_field|]. apply wp_tl_max_size; [done|]. intros w4 S4.
    eapply wp_remove_mapping; [rewrite (proj1 S4); exact Et3|done|]. st_step. right.
    split_and!; [done|done|simpl; apply lookup_delete_eq|]. eexists k, _. simpl.
    rewrite lookup_delete_ne by done. rewrite (proj1 S4), M3, lookup_insert_eq.
    split_and!; [done|rewrite (same_phys_bytes w3) by done; exact I3| | |].
    + unfold resealed. by rewrite reseal_max.
    + unfold resealed, reseal. by case_match.
    + unfold resealed. by rewrite reseal_alignment.
Qed.

End Proofs.

(** ** A concrete memory map

    Mappings are of whole pages, at a fixed distance from the physical
    address; a mapping is removed when the pages are the same. *)
Definition pages_end (pa len : Z) : Z := (pa + len + 4095) / 4096 * 4096.

#[global] Instance page_mmu : CoreMmu := {|
  place := λ _ pa len, if (0 <? len) && (0 <=? pa) && (pa + len <=? 2 ^ 40)
                       then Some (pa + 2 ^ 20, pages_end pa len - pa) else None;
  unmaps := λ pa n len, pages_end pa n =? pages_end pa len;
|}.

#[global] Instance page_mmu_laws : CoreMmuLaws.
Proof.
  split. intros w pa len va n Hl. simpl. unfold pages_end, SMALL_PAGE_SIZE.
  destruct (Z.ltb_spec 0 len); [|done]. destruct (Z.leb_spec 0 pa); [|done].
  destruct (Z.leb_spec (pa + len) (2 ^ 40)); [|done]. simpl. intros [= <- <-]. lia.
Qed.

Definition zero_mmu : mmu := mk_mmu (λ _, 0) ∅.

Lemma zero_bytes : bytes_phys (λ _ : Z, 0).
Proof. intros a. unfold is_byte. lia. Qed.

Definition mmu_of {A} (m : St mmu A) (w : mmu) : mmu :=
  match m w with Some (Done (_, w')) => w' | _ => zero_mmu end.

Definition res_of_mmu {A} (m : St mmu A) (w : mmu) : option (outcome A) :=
  match m w with
  | Some (Done (a, _)) => Some (Done a)
  | Some (Panicked c) => Some (Panicked c)
  | Some Undef => Some Undef
  | None => None
  end.

Lemma transfer_list_init_correct_witness :
  ∃ tl w', transfer_list_init 8192 128 zero_mmu = Some (Done (tl, w')).
Proof.
  assert (Hm : 0 ≤ 128 < 2 ^ 32) by lia. assert (Hp : 0 ≤ 8192) by lia.
  destruct (transfer_list_init_correct 8192 128 zero_mmu zero_bytes Hp Hm) as (tl & w' & E & _).
  exists tl, w'. exact E.
Defined.

(** A list of 128 bytes is made at 8192, unmapped and mapped again. *)
Definition list_va : Z := 8192 + 2 ^ 20.

Definition phys_list : Z → Z :=
  set_phys 8192 (state_of_list (init_list list_va 128) (replicate 128 0)) (λ _, 0).

Definition stored_list : mmu := mk_mmu phys_list ∅.

Lemma stored_bytes : bytes_phys phys_list.
Proof.
  unfold phys_list, bytes_phys, set_phys. intros a.
  assert (F : Forall is_byte (state_of_list (init_list list_va 128) (replicate 128 0))).
  { vm_compute. repeat constructor; done. }
  destruct (_ !! Z.to_nat (a - 8192)) as [b|] eqn:E; [|unfold is_byte; lia].
  rewrite Forall_lookup in F. apply F in E. case_match; [done|unfold is_byte; lia].
Qed.

Lemma transfer_list_map_find_safe_witness :
  ∃ w', transfer_list_map 2 8192 stored_list = Some (Done (list_va, w')) ∧
    maps w' !! list_va = Some (8192, 4096).
Proof.
  assert (E : res_of_mmu (transfer_list_map 2 8192) stored_list = Some (Done list_va))
    by (vm_compute; reflexivity).
  unfold res_of_mmu in E. destruct (transfer_list_map 2 8192 stored_list) as [[[tl w']| |]|] eqn:Em; [|discriminate E..].
  injection E as ->. exists w'. split; [done|].
  destruct (transfer_list_map_find_safe 2 8192 stored_list list_va w' 1 5000 stored_bytes Em) as (n & L & _);
    [discriminate|].
  rewrite L. f_equal. f_equal.
  assert (En : (λ w, (maps w !! list_va)) <$> Some (mmu_of (transfer_list_map 2 8192) stored_list) =
    Some (Some (8192, 4096))) by (vm_compute; reflexivity).
  unfold mmu_of in En. rewrite Em in En. simpl in En. rewrite L in En. by injection En.
Defined.

(** The list is relocated to the next page. *)
Definition mapped_list : mmu := mk_mmu phys_list (<[list_va := (8192, 4096)]> ∅).

Lemma phys_list_bytes : ∃ tail, phys_bytes phys_list 8192 4096 =
  state_of_list (init_list list_va 128) (replicate 128 0) ++ tail ∧ Forall is_byte tail ∧ length tail = 3968%nat.
Proof.
  assert (E : phys_bytes phys_list 8192 4096 = take 128 (phys_bytes phys_list 8192 4096) ++
    drop 128 (phys_bytes phys_list 8192 4096)) by by rewrite take_drop.
  exists (drop 128 (phys_bytes phys_list 8192 4096)). split_and!.
  - rewrite E at 1. f_equal.
  - apply Forall_drop, phys_bytes_are_bytes, stored_bytes.
  - rewrite length_drop. pose proof (length_phys_bytes phys_list 8192 4096). lia.
Qed.

Definition stored_head : tl_head :=
  mk_tlh (nth 4 (state_of_list (init_list list_va 128) (replicate 128 0)) 0) 1 3 128 1 0.

Lemma mapped_is_tl : is_tl list_va stored_head [] (phys_bytes phys_list 8192 4096).
Proof.
  destruct phys_list_bytes as (tail & -> & Bt & Lt).
  exists (replicate 104 0 ++ tail). split_and!.
  - unfold tl_mem. rewrite !app_assoc. f_equal.
  - split; [done|by exists 132096| | |by apply Forall_nil|].
    + rewrite length_app, length_replicate, Lt. vm_compute. done.
    + split; unfold is_byte; vm_compute; by split.
    + rewrite length_app, length_replicate, Lt. vm_compute. by split.
  - intros _. vm_compute. reflexivity.
  - apply Forall_app. split; [by apply Forall_replicate|done].
Qed.

Lemma transfer_list_relocate_correct_witness :
  ∃ va w', transfer_list_relocate list_va 12292 256 mapped_list = Some (Done (va, w')).
Proof.
  destruct (transfer_list_relocate_correct list_va 8192 4096 stored_head [] 12292 256 mapped_list)
    as (va & w' & E & _).
  - done.
  - lia.
  - apply mapped_is_tl.
  - apply stored_bytes.
  - done.
  - vm_compute. reflexivity.
  - lia.
  - lia.
  - vm_compute. split; done.
  - intros w' va n _. assert (Ea : aligned_base 12292 list_va (th_alignment stored_head) = 12296)
      by (vm_compute; reflexivity).
    rewrite Ea. simpl. unfold pages_end. intros [= <- <-]. split; [done|]. right. done.
  - exists va, w'. exact E.
Defined.

(** *** What goes wrong *)

(** A list that is longer than a page: its checksum is computed while only the
    first page is mapped. *)
Definition long_list : mmu :=
  mk_mmu (set_phys 8192 (th_bytes (mk_tlh 0 1 3 8192 1 0) 5000) (λ _, 0)) ∅.

Theorem map_reads_past_page : res_of_mmu (transfer_list_map 3 8192) long_list = Some Undef.
Proof. vm_compute. reflexivity. Qed.

(** A list that does not begin at a page: [transfer_list_map] maps a page from
    there on, which takes two, but the list is unmapped with its maximum size,
    which takes one, and the mapping is not found. *)
Definition odd_list : mmu :=
  mk_mmu (set_phys 8200 (th_bytes (mk_tlh 0 1 3 128 0 0) 24) (λ _, 0)) ∅.

Theorem unmap_of_odd_list_panics :
  res_of_mmu (tl ← transfer_list_map 3 8200; transfer_list_unmap_sync tl) odd_list = Some (Panicked UNMAP_PANIC).
Proof. vm_compute. reflexivity. Qed.
