(* ===== verification/WaitQueue.v ===== *)
(** core/kernel/wait_queue.c: the queue of threads that wait for a mutex or for
    a condition variable that uses the mutex.

    Each function holds [wq_spin_lock] while it reads or changes the queue, so
    a critical section is one function on the list of elements. An element is
    on the stack of the waiting thread, which never waits twice at a time: its
    thread id identifies it. [cv] is [None] for NULL. *)
From S2P Require Import Prelude.

Record wait_queue_elem := mk_wqe {
  handle : Z;
  done_ : bool;
  wait_read : bool;
  cv : option Z;
}.

Abbreviation wait_queue := (list wait_queue_elem).

Definition wq_init : wait_queue := [].

(** The walk to the last element. *)
Fixpoint slist_add_tail (wq : wait_queue) (wqe : wait_queue_elem) : wait_queue :=
  match wq with
  | [] => [wqe]
  | e :: wq' => e :: slist_add_tail wq' wqe
  end.

Definition wq_wait_init_condvar (wq : wait_queue) (thread : Z) (c : option Z)
  (read : bool) : wait_queue :=
  slist_add_tail wq (mk_wqe thread false read c).

Definition wq_wait_init (wq : wait_queue) (thread : Z) (read : bool) : wait_queue :=
  wq_wait_init_condvar wq thread None read.

(** [SLIST_REMOVE] of the element of a thread. *)
Fixpoint slist_remove (wq : wait_queue) (thread : Z) : wait_queue :=
  match wq with
  | [] => []
  | e :: wq' => if handle e =? thread then wq' else e :: slist_remove wq' thread
  end.

(** The critical section of [wq_wait_final]: [None] when the element is not
    done and the thread goes back to sleep. *)
Definition wq_wait_final (wq : wait_queue) (thread : Z) : option wait_queue :=
  match list_find (λ e, handle e = thread) wq with
  | Some (_, e) => if done_ e then Some (slist_remove wq thread) else None
  | None => None
  end.

(** The critical section of [wq_wake_next]: the search for the next element to
    wake. [wake_read] is [None] until [wake_type_assigned]. The result is the
    handle to notify, the wake type and the queue. *)
Fixpoint wake_pick (wake_read : option bool) (wq : wait_queue)
  : option Z * option bool * wait_queue :=
  match wq with
  | [] => (None, wake_read, [])
  | e :: wq' =>
    let next wr := let '(h, wr', r) := wake_pick wr wq' in (h, wr', e :: r) in
    match cv e with
    | Some _ => next wake_read
    | None =>
      if done_ e then next wake_read else
      let wr := match wake_read with None => wait_read e | Some b => b end in
      if negb (Bool.eqb (wait_read e) wr) then next (Some wr)
      else (Some (handle e), Some wr,
            mk_wqe (handle e) true (wait_read e) (cv e) :: wq')
    end
  end.

(** The whole of [wq_wake_next] when nothing interferes: the handles notified,
    in order, and the queue. It goes round at most once per element. *)
Fixpoint wake_loop (fuel : nat) (wake_read : option bool) (wq : wait_queue)
  : list Z * wait_queue :=
  match fuel with
  | O => ([], wq)
  | S f =>
    match wake_pick wake_read wq with
    | (None, _, wq') => ([], wq')
    | (Some h, wr, wq') =>
      if default false wr
      then let '(hs, wq'') := wake_loop f wr wq' in (h :: hs, wq'')
      else ([h], wq')
    end
  end.

Definition wq_wake_next (wq : wait_queue) : list Z * wait_queue :=
  wake_loop (S (length wq)) None wq.

(** [cv] is not NULL. *)
Fixpoint wq_promote_condvar (wq : wait_queue) (c : Z) (only_one : bool) : wait_queue :=
  match wq with
  | [] => []
  | e :: wq' =>
    if bool_decide (cv e = Some c) then
      let e' := mk_wqe (handle e) (done_ e) (wait_read e) None in
      if only_one then e' :: wq' else e' :: wq_promote_condvar wq' c only_one
    else e :: wq_promote_condvar wq' c only_one
  end.

Definition wq_have_condvar (wq : wait_queue) (c : Z) : bool :=
  existsb (λ e, bool_decide (cv e = Some c)) wq.

Definition wq_is_empty (wq : wait_queue) : bool :=
  match wq with [] => true | _ => false end.
