(* ===== verification/Mutex.v ===== *)
(** core/kernel/mutex.c and core/kernel/mutex_lockdep.c: sleeping mutexes,
    read locks and condition variables.

    The spinlock of a mutex makes each critical section atomic: it is a
    function on the mutex. The code between two critical sections is a point of
    a thread ([pc]), and [step] is the interleaving of the threads that use one
    mutex. The lockdep checks only touch the queue of the calling thread and
    the lock order graph; each is one step with the section next to it.
    [CFG_LOCKDEP] is the parameter [lockdep]. The debug variants only add the
    position of the caller to the trace. *)
From S2P Require Import Prelude Bytes Lockdep WaitQueue.

(** [short] arithmetic. *)
Definition to_short (z : Z) : Z :=
  let u := u16 z in if u <? 2 ^ 15 then u else u - 2 ^ 16.

Record mutex := mk_mutex {
  wq : wait_queue;
  mstate : Z;
}.

Definition mutex_init : mutex := mk_mutex wq_init 0.

(** ** Critical sections *)

(** Of the loop of [__mutex_lock]: [can_lock] and the mutex. *)
Definition mutex_lock_section (thread : Z) (m : mutex) : bool * mutex :=
  let can_lock := mstate m =? 0 in
  if negb can_lock then (false, mk_mutex (wq_wait_init (wq m) thread false) (mstate m))
  else (true, mk_mutex (wq m) (-1)).

(** Of the loop of [__mutex_read_lock]. *)
Definition mutex_read_lock_section (thread : Z) (m : mutex) : bool * mutex :=
  let can_lock := negb (mstate m =? -1) in
  if negb can_lock then (false, mk_mutex (wq_wait_init (wq m) thread true) (mstate m))
  else (true, mk_mutex (wq m) (to_short (mstate m + 1))).

Definition mutex_unlock_section (m : mutex) : outcome mutex :=
  if mstate m =? 0 then Panicked 0 else Done (mk_mutex (wq m) 0).

(** Also [new_state]. *)
Definition mutex_read_unlock_section (m : mutex) : outcome (Z * mutex) :=
  if mstate m <=? 0 then Panicked 0 else
  let s := to_short (mstate m - 1) in Done (s, mk_mutex (wq m) s).

Definition mutex_trylock (m : mutex) : bool * mutex :=
  let can_lock_write := mstate m =? 0 in
  (can_lock_write, if can_lock_write then mk_mutex (wq m) (-1) else m).

Definition mutex_read_trylock (m : mutex) : bool * mutex :=
  let can_lock := negb (mstate m =? -1) in
  (can_lock, if can_lock then mk_mutex (wq m) (to_short (mstate m + 1)) else m).

(** Of [__condvar_wait] under the spinlock of the mutex: [old_state],
    [new_state] and the mutex. *)
Definition condvar_wait_section (thread c : Z) (m : mutex) : outcome (Z * Z * mutex) :=
  if mstate m =? 0 then Panicked 0 else
  let wq' := wq_wait_init_condvar (wq m) thread (Some c) (0 <? mstate m) in
  let s := if 1 <? mstate m then to_short (mstate m - 1) else 0 in
  Done (mstate m, s, mk_mutex wq' s).

(** The other critical section of [__condvar_wait] links the condition
    variable, whose mutex is [cvm] (0 for NULL), to the mutex [m]. *)
Definition condvar_link (cvm m : Z) : outcome Z :=
  if negb (cvm =? 0) && negb (cvm =? m) then Panicked 0 else Done m.

(** [cvm] says whether the condition variable is linked to the mutex. *)
Definition cv_signal (cvm : bool) (c : Z) (only_one : bool) (m : mutex) : mutex :=
  if cvm then mk_mutex (wq_promote_condvar (wq m) c only_one) (mstate m) else m.

Definition condvar_signal (cvm : bool) (c : Z) (m : mutex) : mutex := cv_signal cvm c true m.

Definition condvar_broadcast (cvm : bool) (c : Z) (m : mutex) : mutex :=
  cv_signal cvm c false m.

(** The condition variable is left without mutex. *)
Definition condvar_destroy (cvm : bool) (c : Z) (m : mutex) : outcome unit :=
  if cvm && wq_have_condvar (wq m) c then Panicked 0 else Done tt.

(** ** Lockdep for mutexes *)

(** The global graph and the queue of each thread. *)
Record lockdep_env := mk_env {
  lgraph : list lockdep_node;
  lowned : gmap Z (list lockdep_lock);
}.

Definition lockdep_start : lockdep_env := mk_env [] ∅.

(** [mutex_lock_check], with the wrapper that panics on an error. [None] as a
    result of the search is a graph that is not well formed. *)
Definition mutex_lock_check (l : lockdep_env) (thread m : Z) (st : option (list Z))
  (o : allocs) : outcome lockdep_env :=
  match lockdep_lock_acquire (mk_ld (lgraph l) (lowned l !!! thread) o) m thread st with
  | None => Undef
  | Some (res, s) =>
    if res =? 0 then Done (mk_env (graph s) (<[thread:=owned s]> (lowned l)))
    else Panicked 0
  end.

Definition mutex_trylock_check (l : lockdep_env) (thread m : Z) (st : option (list Z))
  (o : allocs) : outcome lockdep_env :=
  let '(res, s) := lockdep_lock_tryacquire (mk_ld (lgraph l) (lowned l !!! thread) o) m st in
  if res =? 0 then Done (mk_env (graph s) (<[thread:=owned s]> (lowned l)))
  else Panicked 0.

Definition mutex_unlock_check (l : lockdep_env) (thread m : Z) : outcome lockdep_env :=
  let '(res, own) := lockdep_lock_release (lowned l !!! thread) m in
  if res =? 0 then Done (mk_env (lgraph l) (<[thread:=own]> (lowned l)))
  else Panicked 0.

Definition mutex_destroy_check (l : lockdep_env) (m : Z) : lockdep_env :=
  mk_env (lockdep_lock_destroy (lgraph l) m) (lowned l).

Definition mutex_destroy (l : lockdep_env) (addr : Z) (m : mutex) : outcome lockdep_env :=
  if negb (mstate m =? 0) then Panicked 0
  else if negb (wq_is_empty (wq m)) then Panicked 0
  else Done (mutex_destroy_check l addr).

(** ** Threads *)

(** Where [wq_wake_next] returns to: the end of an unlock, or [__condvar_wait]
    about to sleep and then take the mutex again. *)
Inductive cont :=
| ToCaller
| ToSleep (read : bool).

Inductive pc :=
| Outside
(** at the top of the loop of [__mutex_lock] or [__mutex_read_lock] *)
| LockLoop (read : bool)
(** in [wq_wait_final], then at the top of the loop; [enter] when the whole of
    [mutex_lock] runs next, as in [__condvar_wait] *)
| WaitFinal (read enter : bool)
(** about to run [mutex_lock] after a condition variable *)
| LockAgain (read : bool)
(** in the loop of [wq_wake_next], before the critical section or before the
    notification *)
| WakeLoop (wake_read : option bool) (k : cont)
| WakeSend (h : Z) (wake_read : bool) (k : cont).

Definition after (k : cont) : pc :=
  match k with ToCaller => Outside | ToSleep read => WaitFinal read true end.

(** [linked] are the condition variables linked to the mutex. Two fields are not
    in memory: [locks] lists who holds the mutex and how ([true] for reading),
    and [sent] the threads that were sent a notification since they last
    entered the queue. *)
Record mstate_all := mk_all {
  mtx : mutex;
  pcs : gmap Z pc;
  env : lockdep_env;
  linked : gset Z;
  locks : list (Z * bool);
  sent : gset Z;
}.

Definition pc_of (s : mstate_all) (t : Z) : pc := default Outside (pcs s !! t).

Definition at_pc (s : mstate_all) (t : Z) (p : pc) : gmap Z pc := <[t:=p]> (pcs s).

(** Remove one hold of a thread. *)
Fixpoint drop_lock (l : Z * bool) (ls : list (Z * bool)) : list (Z * bool) :=
  match ls with
  | [] => []
  | x :: ls' => if bool_decide (x = l) then ls' else x :: drop_lock l ls'
  end.

Section Steps.
Context (lockdep : bool) (addr : Z).

Definition check {A} (c : outcome A) (dflt : A) : outcome A :=
  if lockdep then c else Done dflt.

(** The loop body of a lock function, [read] or not. *)
Definition lock_section (read : bool) (t : Z) (m : mutex) : bool * mutex :=
  if read then mutex_read_lock_section t m else mutex_lock_section t m.

(** [mutex_lock] runs [mutex_lock_check]; [mutex_read_lock] does not. *)
Definition lock_entry (read : bool) (t : Z) (st : option (list Z)) (o : allocs)
  (l : lockdep_env) : outcome lockdep_env :=
  if read then Done l else check (mutex_lock_check l t addr st o) l.

(** The steps callers may make happen: they unlock and wait with locks they
    hold, and they signal while they hold the mutex. A panic stops the core:
    there is no step from it. *)
Inductive step : mstate_all → mstate_all → Prop :=
| step_lock s t read st o l :
    pc_of s t = Outside → lock_entry read t st o (env s) = Done l →
    step s (mk_all (mtx s) (at_pc s t (LockLoop read)) l (linked s) (locks s) (sent s))
| step_lock_again s t read st o l :
    pc_of s t = LockAgain read → lock_entry read t st o (env s) = Done l →
    step s (mk_all (mtx s) (at_pc s t (LockLoop read)) l (linked s) (locks s) (sent s))
| step_lock_got s t read m :
    pc_of s t = LockLoop read → lock_section read t (mtx s) = (true, m) →
    step s (mk_all m (at_pc s t Outside) (env s) (linked s) ((t, read) :: locks s) (sent s))
| step_lock_wait s t read m :
    pc_of s t = LockLoop read → lock_section read t (mtx s) = (false, m) →
    step s (mk_all m (at_pc s t (WaitFinal read false)) (env s) (linked s) (locks s)
              (sent s ∖ {[t]}))
| step_wait_done s t read enter q :
    pc_of s t = WaitFinal read enter → wq_wait_final (wq (mtx s)) t = Some q →
    step s (mk_all (mk_mutex q (mstate (mtx s)))
              (at_pc s t (if enter then LockAgain read else LockLoop read))
              (env s) (linked s) (locks s) (sent s))
| step_unlock s t l m :
    pc_of s t = Outside → (t, false) ∈ locks s →
    check (mutex_unlock_check (env s) t addr) (env s) = Done l →
    mutex_unlock_section (mtx s) = Done m →
    step s (mk_all m (at_pc s t (WakeLoop None ToCaller)) l (linked s)
              (drop_lock (t, false) (locks s)) (sent s))
| step_read_unlock s t new_state m :
    pc_of s t = Outside → (t, true) ∈ locks s →
    mutex_read_unlock_section (mtx s) = Done (new_state, m) →
    step s (mk_all m
              (at_pc s t (if new_state =? 0 then WakeLoop None ToCaller else Outside))
              (env s) (linked s) (drop_lock (t, true) (locks s)) (sent s))
| step_trylock s t st o l m :
    pc_of s t = Outside → mutex_trylock (mtx s) = (true, m) →
    check (mutex_trylock_check (env s) t addr st o) (env s) = Done l →
    step s (mk_all m (pcs s) l (linked s) ((t, false) :: locks s) (sent s))
| step_read_trylock s t m :
    pc_of s t = Outside → mutex_read_trylock (mtx s) = (true, m) →
    step s (mk_all m (pcs s) (env s) (linked s) ((t, true) :: locks s) (sent s))
| step_wake_pick s t wr k h wr' q :
    pc_of s t = WakeLoop wr k → wake_pick wr (wq (mtx s)) = (Some h, wr', q) →
    step s (mk_all (mk_mutex q (mstate (mtx s)))
              (at_pc s t (WakeSend h (default false wr') k))
              (env s) (linked s) (locks s) (sent s))
| step_wake_none s t wr k wr' q :
    pc_of s t = WakeLoop wr k → wake_pick wr (wq (mtx s)) = (None, wr', q) →
    step s (mk_all (mk_mutex q (mstate (mtx s))) (at_pc s t (after k))
              (env s) (linked s) (locks s) (sent s))
| step_wake_send s t h wr k :
    pc_of s t = WakeSend h wr k →
    step s (mk_all (mtx s) (at_pc s t (if wr then WakeLoop (Some true) k else after k))
              (env s) (linked s) (locks s) ({[h]} ∪ sent s))
| step_condvar_wait s t c read l old_state new_state m :
    pc_of s t = Outside → (t, read) ∈ locks s →
    check (mutex_unlock_check (env s) t addr) (env s) = Done l →
    condvar_wait_section t c (mtx s) = Done (old_state, new_state, m) →
    let k := ToSleep (0 <? old_state) in
    step s (mk_all m (at_pc s t (if new_state =? 0 then WakeLoop None k else after k))
              l ({[c]} ∪ linked s) (drop_lock (t, read) (locks s)) (sent s ∖ {[t]}))
| step_signal s t c only_one read :
    pc_of s t = Outside → (t, read) ∈ locks s →
    step s (mk_all (cv_signal (bool_decide (c ∈ linked s)) c only_one (mtx s))
              (pcs s) (env s) (linked s) (locks s) (sent s)).

Definition start : mstate_all := mk_all mutex_init ∅ lockdep_start ∅ [] ∅.

(** The counter of readers is a [short]. *)
Definition bounded (s : mstate_all) : Prop := Z.of_nat (length (locks s)) < 2 ^ 15 - 1.

Definition run : mstate_all → mstate_all → Prop :=
  rtc (λ s s', bounded s ∧ step s s').
End Steps.
