(* ===== verification/MutexProofs.v ===== *)
(** Mutexes and condition variables: mutual exclusion of writers and readers,
    the shape of the wait queue and the absence of lost wake-ups, for every
    interleaving of the threads. *)
From S2P Require Import Prelude Bytes Lockdep WaitQueue Mutex.

(** ** Wait queues *)

Definition handles (q : wait_queue) : list Z := map handle q.

(** An element that nobody has woken, of a thread that waits for the mutex. *)
Definition asleep (e : wait_queue_elem) : Prop := cv e = None ∧ done_ e = false.

Definition wake (e : wait_queue_elem) : wait_queue_elem :=
  mk_wqe (handle e) true (wait_read e) (cv e).

Lemma slist_add_tail_app q e : slist_add_tail q e = q ++ [e].
Proof. induction q as [|x q IH]; simpl; congruence. Qed.

Lemma handles_app q1 q2 : handles (q1 ++ q2) = handles q1 ++ handles q2.
Proof. apply map_app. Qed.

Lemma elem_of_handles t q : t ∈ handles q ↔ ∃ e, e ∈ q ∧ handle e = t.
Proof.
  unfold handles. rewrite list_elem_of_In, in_map_iff.
  setoid_rewrite list_elem_of_In. naive_solver.
Qed.

Lemma slist_remove_spec q t :
  NoDup (handles q) → slist_remove q t = filter (λ e, handle e ≠ t) q.
Proof.
  induction q as [|e q IH]; simpl; intros N; [done|]. apply NoDup_cons in N as [N1 N2].
  rewrite filter_cons. destruct (handle e =? t) eqn:E; breflect.
  - rewrite decide_False by auto. clear IH N2. subst t.
    induction q as [|x q IH]; simpl in *; [done|]. rewrite elem_of_cons in N1.
    rewrite filter_cons, decide_True by (intros H; apply N1; auto).
    f_equal. auto.
  - rewrite decide_True, IH by auto. done.
Qed.

Lemma wait_final_spec q t q' :
  NoDup (handles q) → wq_wait_final q t = Some q' →
  q' = filter (λ e, handle e ≠ t) q ∧ t ∈ handles q ∧ ∃ e, e ∈ q ∧ done_ e = true.
Proof.
  unfold wq_wait_final. intros N H. destruct (list_find _ q) as [[i e]|] eqn:F; [|done].
  apply list_find_Some in F as (F & Hh & _). apply list_elem_of_lookup_2 in F.
  destruct (done_ e) eqn:D; [|done]. injection H as <-. split_and!.
  - by apply slist_remove_spec.
  - apply elem_of_handles; eauto.
  - eauto.
Qed.

(** What one search of [wq_wake_next] finds. *)
Lemma wake_pick_spec q : ∀ wr h wr' q',
  wake_pick wr q = (h, wr', q') →
  match h with
  | Some h => ∃ l1 e l2, q = l1 ++ e :: l2 ∧ q' = l1 ++ wake e :: l2 ∧ handle e = h ∧
                asleep e ∧ wr' = Some (wait_read e)
  | None => q' = q ∧ (wr = None → ∀ e, e ∈ q → ¬ asleep e)
  end.
Proof.
  induction q as [|e q IH]; simpl; intros wr h wr' q' H.
  - injection H as <- <- <-. split; [done|]. set_solver+.
  - assert (∀ wr1, (let '(h1, wr2, r) := wake_pick wr1 q in (h1, wr2, e :: r)) = (h, wr', q') →
      (wr = None → wr1 = None ∧ ¬ asleep e) →
      match h with
      | Some h => ∃ l1 x l2, e :: q = l1 ++ x :: l2 ∧ q' = l1 ++ wake x :: l2 ∧
                    handle x = h ∧ asleep x ∧ wr' = Some (wait_read x)
      | None => q' = e :: q ∧ (wr = None → ∀ x, x ∈ e :: q → ¬ asleep x)
      end) as Next.
    { intros wr1 E Hw. destruct (wake_pick wr1 q) as [[h1 wr2] r] eqn:P.
      injection E as <- <- <-. specialize (IH _ _ _ _ P). destruct h1 as [h1|].
      - destruct IH as (l1 & x & l2 & -> & -> & ?). exists (e :: l1), x, l2. done.
      - destruct IH as [-> IH]. split; [done|]. intros W x Hx.
        destruct (Hw W) as [W1 Ha].
        apply elem_of_cons in Hx as [->|Hx]; [done|by apply IH]. }
    unfold asleep in *. destruct (cv e) as [c|] eqn:C.
    { apply (Next wr H). intros ->. split; [done|]. by intros [? _]. }
    destruct (done_ e) eqn:D.
    { apply (Next wr H). intros ->. split; [done|]. by intros [_ ?]. }
    destruct wr as [b|]; simpl in H.
    + destruct (Bool.eqb (wait_read e) b) eqn:B; simpl in H.
      * injection H as <- <- <-. apply eqb_prop in B. subst b.
        exists [], e, q. unfold wake. rewrite C. split_and!; done.
      * by apply (Next (Some b)).
    + rewrite Bool.eqb_reflx in H. simpl in H. injection H as <- <- <-.
      exists [], e, q. unfold wake. rewrite C. split_and!; done.
Qed.

Lemma promote_handles q c b : handles (wq_promote_condvar q c b) = handles q.
Proof.
  induction q as [|e q IH]; simpl; [done|].
  case_bool_decide; [destruct b|]; simpl; congruence.
Qed.

Lemma promote_done q c b e :
  e ∈ wq_promote_condvar q c b → ∃ e', e' ∈ q ∧ handle e' = handle e ∧ done_ e' = done_ e.
Proof.
  induction q as [|x q IH]; simpl; [set_solver+|].
  assert (∀ y, e = y ∨ e ∈ q → handle y = handle x → done_ y = done_ x →
    ∃ e', e' ∈ x :: q ∧ handle e' = handle e ∧ done_ e' = done_ e) as Hd.
  { intros y [->|H] E1 E2; [exists x|exists e]; split; done || by constructor. }
  assert (∀ y, e = y ∨ e ∈ wq_promote_condvar q c b → handle y = handle x →
    done_ y = done_ x →
    ∃ e', e' ∈ x :: q ∧ handle e' = handle e ∧ done_ e' = done_ e) as Hr.
  { intros y [->|H] E1 E2; [by apply (Hd y); auto|].
    destruct (IH H) as (e' & ? & ? & ?). exists e'. split; [by constructor|done]. }
  case_bool_decide as B; [destruct b|]; rewrite elem_of_cons; intros H.
  - by apply (Hd _ H).
  - by apply (Hr _ H).
  - by apply (Hr _ H).
Qed.

(** ** The invariants *)

(** One writer, or as many readers as the counter says. *)
Definition excl (s : mstate_all) : Prop :=
  (mstate (mtx s) = -1 ∧ ∃ t, locks s = [(t, false)]) ∨
  (mstate (mtx s) = Z.of_nat (length (locks s)) ∧ Forall (λ l, l.2 = true) (locks s)).

(** The points of a thread that is in the queue. *)
Definition in_queue (p : pc) : Prop :=
  match p with
  | WaitFinal _ _ | WakeLoop _ (ToSleep _) | WakeSend _ _ (ToSleep _) => True
  | _ => False
  end.

(** Each sleeping thread has one element. *)
Definition queue_ok (s : mstate_all) : Prop :=
  NoDup (handles (wq (mtx s))) ∧ ∀ t, t ∈ handles (wq (mtx s)) ↔ in_queue (pc_of s t).

(** The points from which a thread will take the mutex or wake the first
    waiter. *)
Definition active (p : pc) : Prop :=
  match p with WakeLoop None _ | LockLoop _ | LockAgain _ => True | _ => False end.

(** While the mutex is free and a thread waits for it, some thread is on its
    way. *)
Definition wake_ok (s : mstate_all) : Prop :=
  mstate (mtx s) = 0 → (∃ e, e ∈ wq (mtx s) ∧ asleep e) →
  (∃ t, active (pc_of s t)) ∨ ∃ e, e ∈ wq (mtx s) ∧ done_ e = true.

(** The thread of an element that is done was notified, or is about to be. *)
Definition sent_ok (s : mstate_all) : Prop :=
  ∀ e, e ∈ wq (mtx s) → done_ e = true →
  handle e ∈ sent s ∨ ∃ t wr k, pc_of s t = WakeSend (handle e) wr k.

Lemma pc_of_at m s t p l k ls se u :
  pc_of (mk_all m (at_pc s t p) l k ls se) u = if decide (u = t) then p else pc_of s u.
Proof.
  unfold pc_of, at_pc. simpl. case_decide as D.
  - subst. by rewrite lookup_insert_eq.
  - by rewrite lookup_insert_ne.
Qed.

(** *** Mutual exclusion *)

Lemma to_short_id z : 0 ≤ z < 2 ^ 15 → to_short z = z.
Proof.
  intros H. unfold to_short. rewrite u16_id by lia. case_match; breflect; lia.
Qed.

Lemma drop_lock_spec l ls :
  l ∈ ls → length ls = S (length (drop_lock l ls)) ∧
  ∀ P, Forall P ls → Forall P (drop_lock l ls).
Proof.
  induction ls as [|x ls IH]; simpl; [set_solver+|]. intros H.
  case_bool_decide as B; simpl.
  - split; [done|]. intros P HP. by apply Forall_cons in HP as [_ HP].
  - apply elem_of_cons in H as [?|H]; [congruence|]. destruct (IH H) as [IH1 IH2].
    split; [by rewrite IH1|]. intros P HP. apply Forall_cons in HP as [??].
    by constructor; auto.
Qed.

(** Releasing or waiting gives up one hold. *)
Lemma excl_drop s t read m' :
  excl s → (t, read) ∈ locks s → Z.of_nat (length (locks s)) < 2 ^ 15 →
  mstate m' = (if 1 <? mstate (mtx s) then to_short (mstate (mtx s) - 1) else 0) →
  ∀ pcs' l k se, excl (mk_all m' pcs' l k (drop_lock (t, read) (locks s)) se).
Proof.
  intros [[E (u & L)]|[E F]] Hin B Em pcs' l k se; right; simpl; rewrite Em, E.
  - rewrite L in *. apply list_elem_of_singleton in Hin. injection Hin as -> ->.
    simpl. rewrite bool_decide_true by done. by split.
  - destruct (drop_lock_spec _ _ Hin) as [Len Fd]. split; [|by apply Fd].
    destruct (1 <? Z.of_nat (length (locks s))) eqn:X; breflect; [rewrite to_short_id by lia; lia|lia].
Qed.

Lemma excl_writer s t : excl s → (t, false) ∈ locks s → mstate (mtx s) = -1.
Proof.
  intros [[E _]|[_ F]] Hin; [done|]. rewrite Forall_forall in F. by apply F in Hin.
Qed.

Lemma excl_reader s t : excl s → (t, true) ∈ locks s → 0 < mstate (mtx s).
Proof.
  intros [[_ (u & L)]|[E F]] Hin; [rewrite L in Hin; set_solver+Hin|].
  destruct (drop_lock_spec _ _ Hin) as [Len _]. lia.
Qed.

Lemma excl_free s : excl s → mstate (mtx s) = 0 → locks s = [].
Proof.
  intros [[E _]|[E _]] Z0; [lia|]. destruct (locks s); [done|]. simpl in E. lia.
Qed.

(** Taking the mutex, by any of the four functions that do. *)
Lemma excl_take s t (read : bool) m' :
  excl s → Z.of_nat (length (locks s)) < 2 ^ 15 - 1 →
  (if read then mstate (mtx s) ≠ -1 ∧ mstate m' = to_short (mstate (mtx s) + 1)
   else mstate (mtx s) = 0 ∧ mstate m' = -1) →
  ∀ pcs' l k se, excl (mk_all m' pcs' l k ((t, read) :: locks s) se).
Proof.
  intros Ex B H pcs' l k se. destruct read; destruct H as [H1 H2].
  - destruct Ex as [[E _]|[E F]]; [done|]. right. simpl. rewrite H2, E.
    rewrite to_short_id by lia. split; [lia|]. by constructor.
  - left. simpl. split; [done|]. exists t. by rewrite (excl_free s Ex H1).
Qed.

Lemma lock_section_true read t m m' :
  lock_section read t m = (true, m') →
  wq m' = wq m ∧
  if read then mstate m ≠ -1 ∧ mstate m' = to_short (mstate m + 1)
  else mstate m = 0 ∧ mstate m' = -1.
Proof.
  destruct read; unfold lock_section, mutex_read_lock_section, mutex_lock_section;
    destruct (mstate m =? _) eqn:E; simpl; intros [= <-]; breflect; done.
Qed.

Lemma lock_section_false read t m m' :
  lock_section read t m = (false, m') →
  mstate m ≠ 0 ∧ mstate m' = mstate m ∧ wq m' = wq m ++ [mk_wqe t false read None].
Proof.
  destruct read; unfold lock_section, mutex_read_lock_section, mutex_lock_section;
    destruct (mstate m =? _) eqn:E; simpl; intros [= <-]; breflect;
    unfold wq_wait_init, wq_wait_init_condvar; simpl; rewrite slist_add_tail_app;
    split_and!; done || lia.
Qed.

Lemma condvar_wait_section_spec t c m o n m' :
  condvar_wait_section t c m = Done (o, n, m') →
  mstate m ≠ 0 ∧ o = mstate m ∧ n = mstate m' ∧
  mstate m' = (if 1 <? mstate m then to_short (mstate m - 1) else 0) ∧
  wq m' = wq m ++ [mk_wqe t false (0 <? mstate m) (Some c)].
Proof.
  unfold condvar_wait_section. destruct (mstate m =? 0) eqn:E; [done|].
  intros [= <- <- <-]; breflect. unfold wq_wait_init_condvar. simpl.
  by rewrite slist_add_tail_app.
Qed.

Lemma excl_same s m' pcs' l k se :
  excl s → mstate m' = mstate (mtx s) → excl (mk_all m' pcs' l k (locks s) se).
Proof. unfold excl. simpl. by intros H ->. Qed.

Lemma cv_signal_state b c o m : mstate (cv_signal b c o m) = mstate m.
Proof. by destruct b. Qed.

Section Invariant.
Context (lockdep : bool) (addr : Z).
Local Abbreviation step := (step lockdep addr).

Lemma step_excl s s' : step s s' → bounded s → excl s → excl s'.
Proof.
  unfold bounded. intros S B Ex.
  destruct S as [s t read st o l Hp E|s t read st o l Hp E|s t read m Hp E
    |s t read m Hp E|s t read en q Hp E|s t l m Hp Hl E1 E2|s t n m Hp Hl E
    |s t st o l m Hp E1 E2|s t m Hp E|s t wr k h wr' q Hp E|s t wr k wr' q Hp E
    |s t h wr k Hp|s t c read l o n m Hp Hl E1 E2 k|s t c o read Hp Hl];
    try by apply excl_same.
  - apply lock_section_true in E as [_ E]. by apply excl_take.
  - apply lock_section_false in E as (_ & E & _). by apply excl_same.
  - pose proof (excl_writer s t Ex Hl) as W. eapply excl_drop; [done|done|lia|].
    unfold mutex_unlock_section in E2. rewrite W in *. by injection E2 as <-.
  - pose proof (excl_reader s t Ex Hl). eapply excl_drop; [done|done|lia|].
    unfold mutex_read_unlock_section in E. case_match; breflect; [lia|].
    injection E as _ <-. simpl. destruct (1 <? _) eqn:E1; breflect; [done|].
    by replace (mstate (mtx s)) with 1 by lia.
  - unfold mutex_trylock in E1. injection E1 as E0 E1. rewrite E0 in E1. subst m.
    breflect. by apply excl_take.
  - unfold mutex_read_trylock in E. injection E as E0 E1. rewrite E0 in E1. subst m.
    breflect. by apply excl_take.
  - destruct (condvar_wait_section_spec _ _ _ _ _ _ E2) as (_ & _ & _ & E & _).
    eapply excl_drop; [done|done|lia|done].
  - apply excl_same; [done|]. apply cv_signal_state.
Qed.

(** *** The queue *)

Lemma queue_same s m' t p l k ls se :
  queue_ok s → handles (wq m') = handles (wq (mtx s)) →
  (in_queue p ↔ in_queue (pc_of s t)) →
  queue_ok (mk_all m' (at_pc s t p) l k ls se).
Proof.
  intros [N Q] Hh Hp. split; simpl; rewrite Hh; [done|].
  intros u. rewrite Q, pc_of_at. case_decide; [by subst|done].
Qed.

Lemma queue_pcs s m' l k ls se :
  queue_ok s → handles (wq m') = handles (wq (mtx s)) →
  queue_ok (mk_all m' (pcs s) l k ls se).
Proof. intros [N Q] Hh. split; simpl; rewrite Hh; done. Qed.

Lemma queue_add s m' t p e l k ls se :
  queue_ok s → wq m' = wq (mtx s) ++ [e] → handle e = t →
  ¬ in_queue (pc_of s t) → in_queue p →
  queue_ok (mk_all m' (at_pc s t p) l k ls se).
Proof.
  intros [N Q] Hw He Hn Hp.
  assert (handles (wq m') = handles (wq (mtx s)) ++ [t]) as HE
    by (rewrite Hw, handles_app, <- He; done).
  split; simpl; rewrite HE.
  - apply NoDup_app. split_and!; [done| |apply NoDup_singleton].
    intros u Hu Hu'%list_elem_of_singleton. subst u.
    by apply Hn, Q.
  - intros u. rewrite elem_of_app, Q, pc_of_at, list_elem_of_singleton.
    case_decide; [subst; tauto|]. split; [|auto]. by intros [?|?].
Qed.

Lemma queue_remove s m' t p l k ls se :
  queue_ok s → wq m' = filter (λ e, handle e ≠ t) (wq (mtx s)) → ¬ in_queue p →
  queue_ok (mk_all m' (at_pc s t p) l k ls se).
Proof.
  intros [N Q] Hw Hp.
  assert (∀ u, u ∈ handles (wq m') ↔ u ∈ handles (wq (mtx s)) ∧ u ≠ t) as HE.
  { intros u. rewrite Hw, !elem_of_handles. setoid_rewrite list_elem_of_filter.
    naive_solver. }
  split; simpl.
  - rewrite Hw. clear -N. unfold handles in *. induction (wq (mtx s)) as [|e q IH]; [done|].
    simpl in N. apply NoDup_cons in N as [N1 N2]. rewrite filter_cons.
    case_decide; [|by apply IH]. simpl. apply NoDup_cons. split; [|by apply IH].
    intros H1. apply N1. change (handle e ∈ handles q).
    apply elem_of_handles in H1 as (x & Hx & <-). apply elem_of_handles.
    apply list_elem_of_filter in Hx as [_ Hx]. eauto.
  - intros u. rewrite HE, Q, pc_of_at. case_decide; [subst; tauto|tauto].
Qed.

Lemma wake_pick_handles wr q h wr' q' :
  wake_pick wr q = (h, wr', q') → handles q' = handles q.
Proof.
  intros E. pose proof (wake_pick_spec _ _ _ _ _ E) as H. destruct h as [h|].
  - destruct H as (l1 & e & l2 & -> & -> & _). by rewrite !handles_app.
  - by destruct H as [-> _].
Qed.

Lemma step_queue s s' : step s s' → queue_ok s → queue_ok s'.
Proof.
  intros S Q.
  destruct S as [s t read st o l Hp E|s t read st o l Hp E|s t read m Hp E
    |s t read m Hp E|s t read en q Hp E|s t l m Hp Hl E1 E2|s t n m Hp Hl E
    |s t st o l m Hp E1 E2|s t m Hp E|s t wr k h wr' q Hp E|s t wr k wr' q Hp E
    |s t h wr k Hp|s t c read l o n m Hp Hl E1 E2 k|s t c o read Hp Hl].
  - apply queue_same; [done..|rewrite Hp; simpl; tauto].
  - apply queue_same; [done..|rewrite Hp; simpl; tauto].
  - apply lock_section_true in E as [E _]. apply queue_same; [done| |rewrite Hp; simpl; tauto].
    by rewrite E.
  - apply lock_section_false in E as (_ & _ & E).
    eapply queue_add; [done|done|done|rewrite Hp; simpl; tauto|done].
  - apply wait_final_spec in E as (-> & _); [|apply Q].
    apply queue_remove; [done|done|destruct en; simpl; tauto].
  - apply queue_same; [done| |rewrite Hp; simpl; tauto].
    unfold mutex_unlock_section in E2. case_match; [done|]. by injection E2 as <-.
  - apply queue_same; [done| |rewrite Hp; case_match; simpl; tauto].
    unfold mutex_read_unlock_section in E. case_match; [done|]. by injection E as <- <-.
  - apply queue_pcs; [done|]. unfold mutex_trylock in E1. injection E1 as E0 <-.
    by rewrite E0.
  - apply queue_pcs; [done|]. unfold mutex_read_trylock in E. injection E as E0 <-.
    by rewrite E0.
  - apply queue_same; [done|by apply (wake_pick_handles _ _ _ _ _ E)|].
    by rewrite Hp.
  - apply queue_same; [done|by apply (wake_pick_handles _ _ _ _ _ E)|].
    rewrite Hp. destruct k; simpl; tauto.
  - apply queue_same; [done..|]. rewrite Hp. destruct wr, k; simpl; tauto.
  - destruct (condvar_wait_section_spec _ _ _ _ _ _ E2) as (_ & _ & _ & _ & E).
    eapply queue_add; [done|done|done|rewrite Hp; simpl; tauto|case_match; simpl; tauto].
  - apply queue_pcs; [done|]. unfold cv_signal. case_bool_decide; [|done].
    apply promote_handles.
Qed.

(** *** Wake-ups *)

Lemma wake_active s' t : active (pc_of s' t) → wake_ok s'.
Proof. intros H _ _. left. eauto. Qed.

Lemma wake_busy s' : mstate (mtx s') ≠ 0 → wake_ok s'.
Proof. intros H ?. done. Qed.

Lemma wake_same s m' t p l k ls se :
  wake_ok s → mstate m' = mstate (mtx s) → wq m' = wq (mtx s) →
  (active (pc_of s t) → active p) →
  wake_ok (mk_all m' (at_pc s t p) l k ls se).
Proof.
  intros W Hm Hq Ha Z0 He. simpl in *. rewrite Hm in Z0. rewrite Hq in *.
  destruct (W Z0 He) as [[u Hu]|?]; [|by right]. left. exists u.
  rewrite pc_of_at. case_decide; [subst; auto|done].
Qed.

Lemma step_wake s s' :
  step s s' → bounded s → excl s → queue_ok s → wake_ok s → wake_ok s'.
Proof.
  unfold bounded. intros S B Ex Q W.
  destruct S as [s t read st o l Hp E|s t read st o l Hp E|s t read m Hp E
    |s t read m Hp E|s t read en q Hp E|s t l m Hp Hl E1 E2|s t n m Hp Hl E
    |s t st o l m Hp E1 E2|s t m Hp E|s t wr k h wr' q Hp E|s t wr k wr' q Hp E
    |s t h wr k Hp|s t c read l o n m Hp Hl E1 E2 k|s t c o read Hp Hl];
    try (apply (wake_active _ t); rewrite pc_of_at, decide_True by done; done).
  - apply wake_busy. simpl. apply lock_section_true in E as [_ E].
    destruct read, E as [E ->]; [|done].
    destruct Ex as [[? _]|[E' _]]; [done|]. rewrite E', to_short_id by lia. lia.
  - apply lock_section_false in E as (E & E' & _). apply wake_busy. simpl. lia.
  - apply (wake_active _ t). rewrite pc_of_at, decide_True by done. by destruct en.
  - destruct (n =? 0) eqn:N.
    + apply (wake_active _ t). by rewrite pc_of_at, decide_True by done.
    + apply wake_busy. simpl. breflect. unfold mutex_read_unlock_section in E.
      case_match; [done|]. injection E as <- <-. done.
  - apply wake_busy. simpl. unfold mutex_trylock in E1. injection E1 as E0 <-.
    by rewrite E0.
  - apply wake_busy. simpl. unfold mutex_read_trylock in E. injection E as E0 <-.
    rewrite E0. breflect. simpl.
    destruct Ex as [[? _]|[E' _]]; [done|]. rewrite E', to_short_id by lia. lia.
  - intros _ _. right. simpl.
    destruct (wake_pick_spec _ _ _ _ _ E) as (l1 & e & l2 & _ & -> & _).
    exists (wake e). split; [set_solver+|done].
  - destruct (wake_pick_spec _ _ _ _ _ E) as [-> Hn]. destruct wr as [b|].
    + apply wake_same; [done..|]. by rewrite Hp.
    + intros _ (e & He & Ha). exfalso. by apply (Hn eq_refl e).
  - apply wake_same; [done..|]. by rewrite Hp.
  - destruct (n =? 0) eqn:N.
    + apply (wake_active _ t). by rewrite pc_of_at, decide_True by done.
    + breflect. destruct (condvar_wait_section_spec _ _ _ _ _ _ E2) as (_ & _ & E & _).
      apply wake_busy. simpl. lia.
  - apply wake_busy. simpl. rewrite cv_signal_state. destruct read.
    + pose proof (excl_reader s t Ex Hl). lia.
    + pose proof (excl_writer s t Ex Hl). lia.
Qed.

(** *** Notifications *)

(** The notification of [h] by a thread at [WakeSend] is kept by a step of a
    thread that is elsewhere. *)
Lemma sent_keep s m' t p l k ls se :
  sent_ok s → (∀ h wr c, pc_of s t ≠ WakeSend h wr c) →
  (∀ e, e ∈ wq m' → done_ e = true →
     (∃ e', e' ∈ wq (mtx s) ∧ handle e' = handle e ∧ done_ e' = done_ e) ∧
     (handle e ∈ sent s → handle e ∈ se)) →
  sent_ok (mk_all m' (at_pc s t p) l k ls se).
Proof.
  intros S Hn Hq e He Hd. destruct (Hq e He Hd) as [(e' & He' & Hh & Hd') Hs].
  destruct (S e') as [H|(u & wr & c & H)]; [done|congruence| |]; rewrite Hh in *.
  - left. auto.
  - right. exists u, wr, c. rewrite pc_of_at. case_decide; [subst; by destruct (Hn _ _ _ H)|done].
Qed.

Lemma sent_pcs s m' l k ls :
  sent_ok s →
  (∀ e, e ∈ wq m' → done_ e = true →
     ∃ e', e' ∈ wq (mtx s) ∧ handle e' = handle e ∧ done_ e' = done_ e) →
  sent_ok (mk_all m' (pcs s) l k ls (sent s)).
Proof.
  intros S Hq e He Hd. destruct (Hq e He Hd) as (e' & He' & Hh & Hd').
  rewrite <- Hh. apply S; [done|congruence].
Qed.

Lemma same_elems (q q' : wait_queue) (se se' : gset Z) :
  q' = q → se' = se → ∀ e, e ∈ q' → done_ e = true →
  (∃ e', e' ∈ q ∧ handle e' = handle e ∧ done_ e' = done_ e) ∧
  (handle e ∈ se → handle e ∈ se').
Proof. intros -> ->. eauto. Qed.

(** The element that is added is not done, and the thread had no other. *)
Lemma added_elems s t x e :
  queue_ok s → ¬ in_queue (pc_of s t) → done_ x = false →
  e ∈ wq (mtx s) ++ [x] → done_ e = true →
  (∃ e', e' ∈ wq (mtx s) ∧ handle e' = handle e ∧ done_ e' = done_ e) ∧
  (handle e ∈ sent s → handle e ∈ sent s ∖ {[t]}).
Proof.
  intros [N Q] Hn Hx He Hd.
  apply elem_of_app in He as [He|He%list_elem_of_singleton]; [|congruence].
  split; [eauto|]. intros Hs. apply elem_of_difference. split; [done|].
  intros Ht%elem_of_singleton. apply Hn, Q, elem_of_handles. eauto.
Qed.

Lemma step_sent s s' : step s s' → queue_ok s → sent_ok s → sent_ok s'.
Proof.
  intros S Q W.
  destruct S as [s t read st o l Hp E|s t read st o l Hp E|s t read m Hp E
    |s t read m Hp E|s t read en q Hp E|s t l m Hp Hl E1 E2|s t n m Hp Hl E
    |s t st o l m Hp E1 E2|s t m Hp E|s t wr k h wr' q Hp E|s t wr k wr' q Hp E
    |s t h wr k Hp|s t c read l o n m Hp Hl E1 E2 k|s t c o read Hp Hl].
  - apply sent_keep; [done|by rewrite Hp|by apply same_elems].
  - apply sent_keep; [done|by rewrite Hp|by apply same_elems].
  - apply sent_keep; [done|by rewrite Hp|].
    apply same_elems; [by apply lock_section_true in E as [-> _]|done].
  - apply lock_section_false in E as (_ & _ & E).
    apply sent_keep; [done|by rewrite Hp|]. rewrite E. intros e. apply added_elems; [done| |done].
    rewrite Hp. simpl. tauto.
  - apply wait_final_spec in E as (-> & _); [|apply Q].
    apply sent_keep; [done|by rewrite Hp|]. simpl.
    intros e [_ He]%list_elem_of_filter Hd. eauto.
  - apply sent_keep; [done|by rewrite Hp|]. apply same_elems; [|done].
    unfold mutex_unlock_section in E2. case_match; [done|]. by injection E2 as <-.
  - apply sent_keep; [done|by rewrite Hp|]. apply same_elems; [|done].
    unfold mutex_read_unlock_section in E. case_match; [done|]. by injection E as <- <-.
  - apply sent_pcs; [done|]. unfold mutex_trylock in E1. injection E1 as E0 <-.
    rewrite E0. simpl. eauto.
  - apply sent_pcs; [done|]. unfold mutex_read_trylock in E. injection E as E0 <-.
    rewrite E0. simpl. eauto.
  - destruct (wake_pick_spec _ _ _ _ _ E) as (l1 & x & l2 & Hq & -> & Hh & _).
    intros e He Hd. simpl in *.
    destruct (decide (handle e = h)) as [->|Nh].
    + right. exists t, (default false wr'), k. by rewrite pc_of_at, decide_True.
    + assert (e ∈ wq (mtx s)) as Hin.
      { rewrite Hq. apply elem_of_app in He as [He|He]; [set_solver+He|].
        apply elem_of_cons in He as [->|He]; [|set_solver+He]. by destruct Nh. }
      destruct (W e Hin Hd) as [H|(u & wr2 & c & H)]; [by left|right].
      exists u, wr2, c. rewrite pc_of_at. case_decide; [congruence|done].
  - destruct (wake_pick_spec _ _ _ _ _ E) as [-> _].
    apply sent_keep; [done|by rewrite Hp|by apply same_elems].
  - intros e He Hd. simpl in *.
    destruct (W e He Hd) as [H|(u & wr2 & c & H)]; [left; set_solver+H|].
    destruct (decide (u = t)) as [->|Nu].
    + rewrite Hp in H. injection H as -> _ _. left. set_solver+.
    + right. exists u, wr2, c. by rewrite pc_of_at, decide_False.
  - destruct (condvar_wait_section_spec _ _ _ _ _ _ E2) as (_ & _ & _ & _ & E).
    apply sent_keep; [done|by rewrite Hp|]. rewrite E. intros e. apply added_elems; [done| |done].
    rewrite Hp. simpl. tauto.
  - apply sent_pcs; [done|]. unfold cv_signal. case_bool_decide; [|eauto].
    simpl. intros e He _. by apply (promote_done _ _ _ _ He).
Qed.

Record mutex_ok (s : mstate_all) : Prop := {
  ok_excl : excl s;
  ok_queue : queue_ok s;
  ok_wake : wake_ok s;
  ok_sent : sent_ok s;
}.

Lemma start_ok : mutex_ok start.
Proof.
  split.
  - right. done.
  - split; [constructor|]. intros t. split; [set_solver+|]. done.
  - intros _ (e & He & _). set_solver+He.
  - intros e He. set_solver+He.
Qed.

Lemma run_ok s : run lockdep addr start s → mutex_ok s.
Proof.
  intros R. assert (mutex_ok start) as H by apply start_ok.
  induction R as [|s1 s2 s3 [B S] R IH]; [done|]. apply IH. destruct H.
  split; eauto using step_excl, step_queue, step_wake, step_sent.
Qed.

(** C1: mutual exclusion. Whatever the threads do, the mutex is held by one
    writer and nobody else, or by readers only, and its state says which: -1
    for a writer, otherwise the number of readers. *)
Theorem mutex_exclusion s :
  run lockdep addr start s →
  (∀ t, (t, false) ∈ locks s → locks s = [(t, false)] ∧ mstate (mtx s) = -1) ∧
  ((∀ t, (t, false) ∉ locks s) → mstate (mtx s) = Z.of_nat (length (locks s))).
Proof.
  intros [[[E (u & L)]|[E F]] _ _ _]%run_ok; split.
  - intros t Ht. rewrite L in *. apply list_elem_of_singleton in Ht. split; congruence.
  - intros H. destruct (H u). rewrite L. by apply list_elem_of_singleton.
  - intros t Ht. rewrite Forall_forall in F. by apply F in Ht.
  - done.
Qed.

(** C2: no wake-up is lost. When the mutex is free and every thread is
    outside the mutex functions or asleep with nobody having woken it, the
    only threads in the queue wait for a condition variable. *)
Theorem mutex_no_lost_wakeup s :
  run lockdep addr start s → mstate (mtx s) = 0 →
  (∀ t, pc_of s t = Outside ∨
     ∃ read enter, pc_of s t = WaitFinal read enter ∧ wq_wait_final (wq (mtx s)) t = None) →
  ∀ e, e ∈ wq (mtx s) → cv e ≠ None ∧ done_ e = false.
Proof.
  intros [_ [N Q] W _]%run_ok Z0 Hp.
  assert (∀ e, e ∈ wq (mtx s) → done_ e = false) as Hd.
  { intros e He. destruct (done_ e) eqn:D; [|done]. exfalso.
    assert (in_queue (pc_of s (handle e))) as Hi by (apply Q, elem_of_handles; eauto).
    destruct (Hp (handle e)) as [H|(r & en & H & F)]; [by rewrite H in Hi|].
    unfold wq_wait_final in F. destruct (list_find _ (wq (mtx s))) as [[i x]|] eqn:L.
    - apply list_find_Some in L as (L & Hh & _).
      enough (x = e) by (subst; by rewrite D in F).
      apply list_elem_of_lookup in He as [j He].
      assert (i = j) as ->; [|congruence].
      eapply (NoDup_lookup (handles (wq (mtx s)))); [done| |]; unfold handles;
        rewrite list_lookup_fmap; [by rewrite L|rewrite He; simpl; congruence].
    - apply list_find_None in L. rewrite Forall_forall in L. by apply (L e). }
  intros e He. split; [|by apply Hd]. intros Hc.
  destruct (W Z0) as [[t Ht]|(x & Hx & Dx)].
  - exists e. split; [done|]. split; [done|by apply Hd].
  - destruct (Hp t) as [H|(r & en & H & _)]; by rewrite H in Ht.
  - by rewrite (Hd x Hx) in Dx.
Qed.

(** A thread that has been woken in the queue is sent its notification:
    it was sent one since it entered the queue, or some thread is about to
    send it. *)
Theorem mutex_woken_notified s e :
  run lockdep addr start s → e ∈ wq (mtx s) → done_ e = true →
  handle e ∈ sent s ∨ ∃ t wr k, pc_of s t = WakeSend (handle e) wr k.
Proof. intros [_ _ _ S]%run_ok. apply S. Qed.
End Invariant.

(** ** The whole of [wq_wake_next] *)

Definition asleep_as (b : bool) (e : wait_queue_elem) : Prop := asleep e ∧ wait_read e = b.

#[global] Instance asleep_dec e : Decision (asleep e).
Proof. unfold asleep. apply _. Defined.

#[global] Instance asleep_as_dec b e : Decision (asleep_as b e).
Proof. unfold asleep_as. apply _. Defined.

Definition wake_if (b : bool) (e : wait_queue_elem) : wait_queue_elem :=
  if decide (asleep_as b e) then wake e else e.

(** A search of a known type finds the first sleeper of that type. *)
Lemma wake_pick_some b q :
  match list_find (asleep_as b) q with
  | None => wake_pick (Some b) q = (None, Some b, q)
  | Some (i, e) => wake_pick (Some b) q = (Some (handle e), Some b, <[i:=wake e]> q)
  end.
Proof.
  induction q as [|e q IH]; simpl; [done|].
  destruct (decide (asleep_as b e)) as [[[C D] B]|N].
  { rewrite C, D, B, Bool.eqb_reflx. simpl. unfold wake. by rewrite C, B. }
  destruct (cv e) as [c|] eqn:C;
    [|destruct (done_ e) eqn:D; [|destruct (Bool.eqb (wait_read e) b) eqn:B; simpl]].
  3: { exfalso. apply eqb_prop in B. by apply N. }
  all: destruct (list_find _ q) as [[i x]|]; simpl; by rewrite IH.
Qed.

(** The first search takes its type from the first sleeper. *)
Lemma wake_pick_none q :
  match list_find asleep q with
  | None => wake_pick None q = (None, None, q)
  | Some (i, e) =>
    wake_pick None q = (Some (handle e), Some (wait_read e), <[i:=wake e]> q)
  end.
Proof.
  induction q as [|e q IH]; simpl; [done|].
  destruct (decide (asleep e)) as [[C D]|N].
  { rewrite C, D, Bool.eqb_reflx. simpl. unfold wake. by rewrite C. }
  destruct (cv e) as [c|] eqn:C; [|destruct (done_ e) eqn:D; [|by destruct N]].
  all: destruct (list_find _ q) as [[i x]|]; simpl; by rewrite IH.
Qed.

Lemma wake_not_asleep b e : ¬ asleep_as b (wake e).
Proof. unfold asleep_as, asleep, wake. simpl. naive_solver. Qed.

Lemma wake_if_id b q : Forall (λ e, ¬ asleep_as b e) q → map (wake_if b) q = q.
Proof.
  induction 1 as [|e q H _ IH]; simpl; [done|]. unfold wake_if at 1.
  by rewrite decide_False, IH.
Qed.

(** Waking the first sleeper of a type, then all the others of the type. *)
Lemma wake_first b q i e :
  list_find (asleep_as b) q = Some (i, e) →
  filter (asleep_as b) q = e :: filter (asleep_as b) (<[i:=wake e]> q) ∧
  map (wake_if b) (<[i:=wake e]> q) = map (wake_if b) q ∧
  length (<[i:=wake e]> q) = length q.
Proof.
  revert i; induction q as [|x q IH]; simpl; intros i H; [done|].
  destruct (decide (asleep_as b x)) as [D|D].
  - injection H as <- <-. simpl. rewrite !filter_cons, decide_True by done.
    rewrite decide_False by apply wake_not_asleep. split_and!; [done| |done].
    unfold wake_if at 1 3. rewrite decide_False by apply wake_not_asleep.
    by rewrite decide_True by done.
  - destruct (list_find _ q) as [[j y]|] eqn:F; [|done]. injection H as <- <-.
    destruct (IH j eq_refl) as (H1 & H2 & H3). simpl.
    rewrite !filter_cons, !decide_False by done. split_and!; congruence.
Qed.

Lemma wake_loop_readers fuel q :
  (length (filter (asleep_as true) q) < fuel)%nat →
  wake_loop fuel (Some true) q =
  (handles (filter (asleep_as true) q), map (wake_if true) q).
Proof.
  revert q; induction fuel as [|f IH]; intros q Hf; [lia|]. simpl.
  pose proof (wake_pick_some true q) as P.
  destruct (list_find (asleep_as true) q) as [[i e]|] eqn:F; rewrite P; simpl.
  - destruct (wake_first _ _ _ _ F) as (H1 & H2 & _). rewrite H1 in *. simpl in *.
    rewrite IH by lia. by rewrite H2.
  - apply list_find_None in F. rewrite wake_if_id by done.
    assert (filter (asleep_as true) q = []) as ->; [|done].
    clear P Hf. induction F as [|x q Hx _ IHq]; [done|].
    rewrite filter_cons, decide_False by done. exact IHq.
Qed.

(** The first sleeper of all, when it waits to read, is the first reader. *)
Lemma find_asleep_read q i e :
  list_find asleep q = Some (i, e) → wait_read e = true →
  list_find (asleep_as true) q = Some (i, e).
Proof.
  intros F R. apply list_find_Some in F as (F & A & H). apply list_find_Some.
  split_and!; [done|done|]. intros j y Hj Hlt [Ha _]. by apply (H j y).
Qed.

(** [wq_wake_next] wakes the first sleeper when it waits to write, and
    every sleeper that waits to read when the first one does; it wakes nobody
    else, and notifies exactly the threads it wakes, in queue order. *)
Theorem wq_wake_next_correct q :
  wq_wake_next q =
  match list_find asleep q with
  | None => ([], q)
  | Some (i, e) =>
    if wait_read e
    then (handles (filter (asleep_as true) q), map (wake_if true) q)
    else ([handle e], <[i:=wake e]> q)
  end.
Proof.
  unfold wq_wake_next. cbn [wake_loop]. pose proof (wake_pick_none q) as P.
  destruct (list_find asleep q) as [[i e]|] eqn:F; rewrite P; [|done].
  destruct (wait_read e) eqn:R; simpl; [|done].
  destruct (wake_first true q i e) as (H1 & H2 & H3); [by apply find_asleep_read|].
  destruct q as [|x q]; [done|]. cbn [length].
  rewrite wake_loop_readers.
  - rewrite H1, H2. done.
  - pose proof (length_filter (asleep_as true) (x :: q)) as L.
    rewrite H1 in L. simpl in L. lia.
Qed.

(** ** Concrete runs *)

Tactic Notation "run_step" open_constr(R) :=
  eapply rtc_l; [split; [done|eapply R; done]|].

(** Thread 1 takes the mutex and waits for condition variable 4096. *)
Lemma condvar_run : ∃ s, run false 8192 start s ∧
  mtx s = mk_mutex [mk_wqe 1 false false (Some 4096)] 0 ∧ locks s = [] ∧
  ∀ t, pc_of s t = if decide (t = 1) then WaitFinal false true else Outside.
Proof.
  eexists. split; [|split; [|split]].
  - unfold run, start.
    run_step (step_lock _ _ _ 1 false None []).
    run_step (step_lock_got _ _ _ 1 false).
    eapply rtc_l; [split; [done|eapply (step_condvar_wait _ _ _ 1 4096 false);
      [done|set_solver+|done|done]]|].
    run_step (step_wake_none _ _ _ 1).
    apply rtc_refl.
  - done.
  - done.
  - intros t. rewrite pc_of_at. case_decide; [done|]. rewrite pc_of_at.
    rewrite decide_False by done. rewrite !pc_of_at, !decide_False by done. done.
Qed.

(** Thread 1 holds the mutex for writing and thread 2 waits to read; when
    thread 1 unlocks, it wakes thread 2 but has not notified it yet. *)
Lemma handover_run : ∃ s, run false 8192 start s ∧
  mtx s = mk_mutex [mk_wqe 2 true true None] 0 ∧ sent s = ∅ ∧
  pc_of s 1 = WakeSend 2 true ToCaller.
Proof.
  eexists. split; [|split; [|split]].
  - unfold run, start.
    run_step (step_lock _ _ _ 1 false None []).
    run_step (step_lock_got _ _ _ 1 false).
    run_step (step_lock _ _ _ 2 true None []).
    run_step (step_lock_wait _ _ _ 2 true).
    eapply rtc_l; [split; [done|eapply (step_unlock _ _ _ 1);
      [done|set_solver+|done|done]]|].
    run_step (step_wake_pick _ _ _ 1).
    apply rtc_refl.
  - done.
  - simpl. set_solver+.
  - by rewrite pc_of_at.
Qed.

(** Thread 1 holds the mutex for writing. *)
Lemma writer_run : ∃ s, run false 8192 start s ∧ locks s = [(1, false)].
Proof.
  eexists. split.
  - unfold run, start.
    run_step (step_lock _ _ _ 1 false None []).
    run_step (step_lock_got _ _ _ 1 false).
    apply rtc_refl.
  - done.
Qed.

Lemma mutex_exclusion_witness : ∃ s, locks s = [(1, false)] ∧ mstate (mtx s) = -1.
Proof.
  destruct writer_run as (s & R & L). exists s. split; [done|].
  apply (proj1 (mutex_exclusion false 8192 s R) 1). rewrite L. by left.
Defined.

Lemma mutex_no_lost_wakeup_witness : ∃ s,
  wq (mtx s) = [mk_wqe 1 false false (Some 4096)] ∧
  ∀ e, e ∈ wq (mtx s) → cv e ≠ None ∧ done_ e = false.
Proof.
  destruct condvar_run as (s & R & M & _ & P). exists s. split; [by rewrite M|].
  apply (mutex_no_lost_wakeup false 8192 s R).
  - by rewrite M.
  - intros t. rewrite P, M. case_decide; [right|by left].
    exists false, true. split; [done|]. by subst.
Defined.

Lemma mutex_woken_notified_witness : ∃ s,
  wq (mtx s) = [mk_wqe 2 true true None] ∧
  (2 ∈ sent s ∨ ∃ t wr k, pc_of s t = WakeSend 2 wr k).
Proof.
  destruct handover_run as (s & R & M & _ & _). exists s. split; [by rewrite M|].
  apply (mutex_woken_notified false 8192 s (mk_wqe 2 true true None) R); [|done].
  rewrite M. by left.
Defined.

(** ** Condition variables and read locks under lockdep *)

(** With lockdep, waiting for a condition variable with a read lock makes
    the core panic: [__condvar_wait] releases the mutex from lockdep's queue,
    where [mutex_read_lock] never entered it. *)
Theorem condvar_wait_read_lock_panics l t addr m m' o :
  lowned l !!! t = [] → mstate m = 0 →
  mutex_read_lock_section t m = (true, m') →
  lock_entry true addr true t None o l = Done l ∧ mstate m' = 1 ∧
  mutex_unlock_check l t addr = Panicked 0.
Proof.
  intros Hl Hm E. split; [done|]. unfold mutex_read_lock_section in E. rewrite Hm in E.
  injection E as <-. split; [done|]. unfold mutex_unlock_check. by rewrite Hl.
Qed.

Lemma condvar_wait_read_lock_panics_witness :
  lock_entry true 8192 true 1 None [] lockdep_start = Done lockdep_start ∧
  mstate (mk_mutex [] 1) = 1 ∧ mutex_unlock_check lockdep_start 1 8192 = Panicked 0.
Proof.
  apply (condvar_wait_read_lock_panics lockdep_start 1 8192 mutex_init (mk_mutex [] 1) []);
    reflexivity.
Defined.
