(* ===== verification/RecMutex.v ===== *)
(** core/kernel/mutex.c: recursive mutexes. The mutex inside is the one of
    Mutex.v, of which only the state matters here: a step may change its wait
    queue at any time. The accesses to [owner] and [lock_depth] are atomic
    steps of the threads. *)
From S2P Require Import Prelude Bytes Lockdep WaitQueue Mutex Refcount.

Definition THREAD_ID_INVALID : Z := -1.

Record recursive_mutex := mk_rmutex {
  inner : mutex;
  owner : Z;
  lock_depth : Z;
}.

Definition mutex_init_recursive : recursive_mutex := mk_rmutex mutex_init THREAD_ID_INVALID 0.

(** Where a thread is: outside; in [refcount_inc] having loaded a value; about
    to take the inner mutex, with it taken, with the owner stored; in
    [refcount_dec] having loaded a value; with the depth down to zero, with the
    owner cleared. *)
Inductive rpc :=
| RIdle
| RInc (oval : Z)
| RLock
| RTaken
| ROwner
| RDec (oval : Z)
| RLast
| RFree.

(** [nest] counts, per thread, the calls of the lock function that returned
    less the calls of the unlock function: it is not in memory. *)
Record rec_all := mk_rall {
  rmtx : recursive_mutex;
  rpcs : gmap Z rpc;
  nest : gmap Z Z;
}.

Definition rpc_of (s : rec_all) (t : Z) : rpc := default RIdle (rpcs s !! t).

Definition nest_of (s : rec_all) (t : Z) : Z := default 0 (nest s !! t).

Definition set_depth (m : recursive_mutex) (d : Z) : recursive_mutex :=
  mk_rmutex (inner m) (owner m) d.

Definition set_owner (m : recursive_mutex) (t : Z) : recursive_mutex :=
  mk_rmutex (inner m) t (lock_depth m).

Definition set_inner (m : recursive_mutex) (i : mutex) : recursive_mutex :=
  mk_rmutex i (owner m) (lock_depth m).

(** [__mutex_lock_recursive] and [__mutex_unlock_recursive], one atomic access
    after the other. Threads unlock what they have locked. A failed assertion
    stops the core: there is no step from it. *)
Inductive rec_step : rec_all → rec_all → Prop :=
| rec_queue s q :
    rec_step s (mk_rall (set_inner (rmtx s) (mk_mutex q (mstate (inner (rmtx s)))))
                  (rpcs s) (nest s))
| rec_lock_own s t :
    rpc_of s t = RIdle → 0 ≤ t → owner (rmtx s) = t →
    rec_step s (mk_rall (rmtx s) (<[t:=RInc (lock_depth (rmtx s))]> (rpcs s)) (nest s))
| rec_inc_cas s t oval n r :
    rpc_of s t = RInc oval → refcount_inc_body oval = Cas n r → lock_depth (rmtx s) = oval →
    rec_step s (mk_rall (set_depth (rmtx s) n) (<[t:=RIdle]> (rpcs s))
                  (<[t:=nest_of s t + 1]> (nest s)))
| rec_inc_again s t oval n r :
    rpc_of s t = RInc oval → refcount_inc_body oval = Cas n r →
    rec_step s (mk_rall (rmtx s) (<[t:=RInc (lock_depth (rmtx s))]> (rpcs s)) (nest s))
| rec_lock_other s t :
    rpc_of s t = RIdle → 0 ≤ t → owner (rmtx s) ≠ t →
    rec_step s (mk_rall (rmtx s) (<[t:=RLock]> (rpcs s)) (nest s))
| rec_lock_got s t i :
    rpc_of s t = RLock → 0 ≤ t → mutex_lock_section t (inner (rmtx s)) = (true, i) →
    rec_step s (mk_rall (set_inner (rmtx s) i) (<[t:=RTaken]> (rpcs s)) (nest s))
| rec_owner_store s t :
    rpc_of s t = RTaken → owner (rmtx s) = THREAD_ID_INVALID →
    rec_step s (mk_rall (set_owner (rmtx s) t) (<[t:=ROwner]> (rpcs s)) (nest s))
| rec_depth_set s t :
    rpc_of s t = ROwner →
    rec_step s (mk_rall (set_depth (rmtx s) (refcount_set 1)) (<[t:=RIdle]> (rpcs s))
                  (<[t:=nest_of s t + 1]> (nest s)))
| rec_unlock s t :
    rpc_of s t = RIdle → 0 < nest_of s t → owner (rmtx s) = t →
    rec_step s (mk_rall (rmtx s) (<[t:=RDec (lock_depth (rmtx s))]> (rpcs s))
                  (<[t:=nest_of s t - 1]> (nest s)))
| rec_dec_cas s t oval n (r : bool) :
    rpc_of s t = RDec oval → refcount_dec_body oval = Cas n r → lock_depth (rmtx s) = oval →
    rec_step s (mk_rall (set_depth (rmtx s) n) (<[t:=if r then RLast else RIdle]> (rpcs s))
                  (nest s))
| rec_dec_again s t oval n r :
    rpc_of s t = RDec oval → refcount_dec_body oval = Cas n r →
    rec_step s (mk_rall (rmtx s) (<[t:=RDec (lock_depth (rmtx s))]> (rpcs s)) (nest s))
| rec_owner_clear s t :
    rpc_of s t = RLast →
    rec_step s (mk_rall (set_owner (rmtx s) THREAD_ID_INVALID) (<[t:=RFree]> (rpcs s)) (nest s))
| rec_inner_unlock s t i :
    rpc_of s t = RFree → mutex_unlock_section (inner (rmtx s)) = Done i →
    rec_step s (mk_rall (set_inner (rmtx s) i) (<[t:=RIdle]> (rpcs s)) (nest s)).

Definition mutex_get_recursive_lock_depth (t : Z) (m : recursive_mutex) : outcome Z :=
  if negb (owner m =? t) then Panicked 0 else Done (refcount_val (lock_depth m)).

Definition mutex_destroy_recursive (l : lockdep_env) (addr : Z) (m : recursive_mutex)
  : outcome lockdep_env := mutex_destroy l addr (inner m).

Definition rec_start : rec_all := mk_rall mutex_init_recursive ∅ ∅.

(** The depth is an [unsigned int]. *)
Definition rec_bounded (s : rec_all) : Prop := ∀ t, nest_of s t < UINT32_MAX.

Definition rec_run : rec_all → rec_all → Prop :=
  rtc (λ s s', rec_bounded s ∧ rec_step s s').

(** ** The invariant *)

(** The thread that holds the inner mutex. *)
Definition holder_ok (s : rec_all) (t : Z) : Prop :=
  match rpc_of s t with
  | RIdle => owner (rmtx s) = t ∧ lock_depth (rmtx s) = nest_of s t ∧ 0 < nest_of s t
  | RInc o => owner (rmtx s) = t ∧ lock_depth (rmtx s) = nest_of s t ∧ 0 < nest_of s t ∧
      o = nest_of s t
  | RLock => False
  | RTaken => owner (rmtx s) = THREAD_ID_INVALID ∧ nest_of s t = 0
  | ROwner => owner (rmtx s) = t ∧ nest_of s t = 0
  | RDec o => owner (rmtx s) = t ∧ lock_depth (rmtx s) = nest_of s t + 1 ∧ 0 ≤ nest_of s t ∧
      o = nest_of s t + 1
  | RLast => owner (rmtx s) = t ∧ nest_of s t = 0
  | RFree => owner (rmtx s) = THREAD_ID_INVALID ∧ nest_of s t = 0
  end.

(** A thread that does not hold it. *)
Definition other_ok (s : rec_all) (t : Z) : Prop :=
  nest_of s t = 0 ∧ (rpc_of s t = RIdle ∨ rpc_of s t = RLock).

(** Nobody holds the inner mutex, or one thread does. *)
Definition rec_free (s : rec_all) : Prop :=
  mstate (inner (rmtx s)) = 0 ∧ owner (rmtx s) = THREAD_ID_INVALID ∧ ∀ t, other_ok s t.

Definition rec_held (s : rec_all) (h : Z) : Prop :=
  0 ≤ h ∧ mstate (inner (rmtx s)) = -1 ∧ holder_ok s h ∧ ∀ t, t ≠ h → other_ok s t.

Definition rec_ok (s : rec_all) : Prop := rec_free s ∨ ∃ h, rec_held s h.

Lemma rpc_of_insert m p n s t t' :
  rpc_of (mk_rall m (<[t:=p]> (rpcs s)) n) t' = if decide (t' = t) then p else rpc_of s t'.
Proof. unfold rpc_of. simpl. rewrite lookup_insert. repeat case_decide; naive_solver. Qed.

Lemma nest_of_insert m p v s t t' :
  nest_of (mk_rall m p (<[t:=v]> (nest s))) t' = if decide (t' = t) then v else nest_of s t'.
Proof. unfold nest_of. simpl. rewrite lookup_insert. repeat case_decide; naive_solver. Qed.

(** A thread that is neither outside nor about to take the inner mutex holds
    it. *)
Lemma holder_is s t :
  rec_ok s → rpc_of s t ≠ RIdle → rpc_of s t ≠ RLock → rec_held s t.
Proof.
  intros [(_ & _ & F)|(h & H)] N1 N2.
  - destruct (F t) as [_ [?|?]]; done.
  - destruct (decide (t = h)) as [->|N]; [done|]. destruct H as (_ & _ & _ & H).
    destruct (H t N) as [_ [?|?]]; done.
Qed.

Lemma owner_holds s t : rec_ok s → 0 ≤ t → owner (rmtx s) = t → rec_held s t.
Proof.
  intros [(_ & Ho & _)|(h & H)] Ht E; [unfold THREAD_ID_INVALID in *; lia|].
  destruct (decide (t = h)) as [->|N]; [done|]. exfalso.
  destruct H as (_ & _ & H & _). unfold holder_ok, THREAD_ID_INVALID in H.
  destruct (rpc_of s h); break_and; lia || done.
Qed.

Lemma nested_holds s t : rec_ok s → 0 < nest_of s t → rec_held s t.
Proof.
  intros [(_ & _ & F)|(h & H)] Hn; [destruct (F t); lia|].
  destruct (decide (t = h)) as [->|N]; [done|]. destruct H as (_ & _ & _ & H).
  destruct (H t N); lia.
Qed.

(** A step of the holder that keeps it the holder. *)
Lemma held_step s s' t :
  rec_held s t → mstate (inner (rmtx s')) = -1 → holder_ok s' t →
  (∀ t', t' ≠ t → rpc_of s' t' = rpc_of s t' ∧ nest_of s' t' = nest_of s t') → rec_ok s'.
Proof.
  intros (Ht & _ & _ & H) M Hh Hs. right. exists t. split_and!; [done..|].
  intros t' N. destruct (Hs t' N) as [Ep En]. unfold other_ok. rewrite Ep, En. by apply H.
Qed.

(** The holder moves without changing its nesting. *)
Lemma held_move s m p t :
  rec_held s t → mstate (inner m) = -1 →
  holder_ok (mk_rall m (<[t:=p]> (rpcs s)) (nest s)) t →
  rec_ok (mk_rall m (<[t:=p]> (rpcs s)) (nest s)).
Proof.
  intros H M Hh. eapply held_step; [done..|]. intros t' N.
  rewrite rpc_of_insert, decide_False by done. done.
Qed.

(** The holder moves and changes its nesting. *)
Lemma held_nest s m p v t :
  rec_held s t → mstate (inner m) = -1 →
  holder_ok (mk_rall m (<[t:=p]> (rpcs s)) (<[t:=v]> (nest s))) t →
  rec_ok (mk_rall m (<[t:=p]> (rpcs s)) (<[t:=v]> (nest s))).
Proof.
  intros H M Hh. eapply held_step; [done..|]. intros t' N.
  rewrite rpc_of_insert, nest_of_insert, !decide_False by done. done.
Qed.

(** A thread that does not hold the mutex moves to where it may be. *)
Lemma other_move s p t :
  rec_ok s → other_ok s t → ¬ rec_held s t → p = RIdle ∨ p = RLock →
  rec_ok (mk_rall (rmtx s) (<[t:=p]> (rpcs s)) (nest s)).
Proof.
  intros Ok [Hn Hp] Nh Pp.
  assert (∀ t', other_ok s t' → other_ok (mk_rall (rmtx s) (<[t:=p]> (rpcs s)) (nest s)) t') as K.
  { intros t' [Hn' Hp']. split; [done|]. rewrite rpc_of_insert. by case_decide. }
  destruct Ok as [(M & O & F)|(h & Hh & M & Ho & F)]; [left|right].
  - split_and!; [done..|]. intros t'. by apply K.
  - exists h. split_and!; [done..| |intros t' N'; by apply K, F].
    assert (h ≠ t) as N by (intros ->; apply Nh; by split_and!).
    unfold holder_ok. rewrite rpc_of_insert, decide_False by done. exact Ho.
Qed.

Lemma not_held_other s t :
  rec_ok s → rpc_of s t = RIdle ∨ rpc_of s t = RLock → owner (rmtx s) ≠ t →
  other_ok s t ∧ ¬ rec_held s t.
Proof.
  intros Ok Hp No.
  assert (¬ rec_held s t) as N.
  { intros (_ & _ & H & _). unfold holder_ok in H.
    destruct Hp as [E|E]; rewrite E in H; [destruct H; done|done]. }
  split; [|done]. destruct Ok as [(_ & _ & F)|(h & H)]; [apply F|].
  destruct H as (? & ? & ? & F). apply F. intros ->. apply N. by split_and!.
Qed.

(** Leaves what holds of the holder [t], known to be it by [H], after its step. *)
Ltac holder_step H E :=
  let M := fresh "M" in let Hh := fresh "Hh" in
  pose proof H as (_ & M & Hh & _); first [apply held_move|apply held_nest]; [done..|];
  unfold holder_ok in *; rewrite E in Hh;
  rewrite rpc_of_insert, ?nest_of_insert, !decide_True by done; simpl;
  try match goal with
  | |- context [nest_of (mk_rall _ _ (nest ?s)) ?t] =>
    change (nest_of (mk_rall _ _ (nest s)) t) with (nest_of s t)
  end; break_and.

Lemma holder_inner s t i :
  rec_ok s → rpc_of s t = RLock → 0 ≤ t → mutex_lock_section t (inner (rmtx s)) = (true, i) →
  rec_ok (mk_rall (set_inner (rmtx s) i) (<[t:=RTaken]> (rpcs s)) (nest s)).
Proof.
  intros Ok E Ht El. unfold mutex_lock_section in El.
  destruct (mstate (inner (rmtx s)) =? 0) eqn:E0; [|done].
  simpl in El. injection El as <-. breflect.
  destruct Ok as [(_ & Hw & F)|(h & _ & M & _)]; [|lia]. right. exists t.
  split_and!; [done|done| |].
  - unfold holder_ok. rewrite rpc_of_insert, decide_True by done. split; [done|]. apply F.
  - intros t' N. unfold other_ok. rewrite rpc_of_insert, decide_False by done. apply F.
Qed.

Lemma holder_leaves s t i :
  rec_held s t → rpc_of s t = RFree → mutex_unlock_section (inner (rmtx s)) = Done i →
  rec_ok (mk_rall (set_inner (rmtx s) i) (<[t:=RIdle]> (rpcs s)) (nest s)).
Proof.
  intros (_ & M & Hh & F) E Eu. unfold holder_ok in Hh. rewrite E in Hh.
  unfold mutex_unlock_section in Eu. rewrite M in Eu. simpl in Eu. injection Eu as <-.
  left. split_and!; [done|apply Hh|]. intros t'. unfold other_ok.
  rewrite rpc_of_insert. case_decide as D; [subst; split; [apply Hh|by left]|]. by apply F.
Qed.

Lemma rec_step_ok s s' : rec_bounded s → rec_ok s → rec_step s s' → rec_ok s'.
Proof.
  intros B Ok S.
  destruct S as [s q|s t E Ht Ho|s t o n r E Eb Ed|s t o n r E Eb|s t E Ht Ho|s t i E Ht El
    |s t E Ho|s t E|s t E Hn Ho|s t o n r E Eb Ed|s t o n r E Eb|s t E|s t i E Eu];
    try (pose proof (holder_is s t Ok ltac:(congruence) ltac:(congruence)) as H);
    try specialize (B t).
  - exact Ok.
  - pose proof (owner_holds s t Ok Ht Ho) as H. holder_step H E. by split_and!.
  - holder_step H E.
    destruct (inc_cas_inv o n r ltac:(lia) Eb) as [-> _]. split_and!; [done|lia|lia].
  - holder_step H E. by split_and!.
  - destruct (not_held_other s t Ok ltac:(by left) Ho). apply other_move; auto.
  - by apply holder_inner.
  - holder_step H E. by split_and!.
  - holder_step H E. split_and!; [done| |lia]. replace (nest_of s t) with 0 by lia. done.
  - pose proof (nested_holds s t Ok Hn) as H. holder_step H E. split_and!; [done|lia..].
  - holder_step H E.
    destruct (dec_cas_inv o n r ltac:(unfold UINT32_MAX in *; lia) Eb) as (-> & _ & ->).
    destruct (o - 1 =? 0) eqn:E0; breflect; split_and!; done || lia.
  - holder_step H E. by split_and!.
  - holder_step H E. by split_and!.
  - by apply holder_leaves.
Qed.

Lemma rec_start_ok : rec_ok rec_start.
Proof. left. split_and!; [done|done|]. intros t. split; [done|by left]. Qed.

Lemma rec_run_ok s : rec_run rec_start s → rec_ok s.
Proof.
  intros R. assert (rec_ok rec_start) as H by apply rec_start_ok.
  induction R as [|s1 s2 s3 [B S] R IH]; eauto using rec_step_ok.
Qed.

(** C38: recursive mutexes. In every reachable state at most one thread has
    locked the mutex and not unlocked it as often, and it is the owner; its
    depth, when it is outside, is the number of times it still has to unlock;
    and no assertion of [__mutex_lock_recursive] and [__mutex_unlock_recursive]
    nor of the functions they call fails. *)
Theorem rec_mutex_correct s :
  rec_run rec_start s →
  (∀ t t', 0 < nest_of s t → 0 < nest_of s t' → t = t') ∧
  (∀ t, 0 < nest_of s t → owner (rmtx s) = t ∧
     (rpc_of s t = RIdle → mutex_get_recursive_lock_depth t (rmtx s) = Done (nest_of s t))) ∧
  (∀ t, rpc_of s t = RTaken → owner (rmtx s) = THREAD_ID_INVALID) ∧
  (∀ t o, rpc_of s t = RInc o → refcount_inc_body o ≠ Return false) ∧
  (∀ t o, rpc_of s t = RDec o → refcount_dec_body o ≠ AssertFails) ∧
  (∀ t, rpc_of s t = RFree → mutex_unlock_section (inner (rmtx s)) ≠ Panicked 0).
Proof.
  intros R%rec_run_ok.
  assert (∀ t, 0 < nest_of s t → rec_held s t) as N by eauto using nested_holds.
  assert (∀ t p, rpc_of s t = p → p ≠ RIdle → p ≠ RLock → rec_held s t) as P
    by (intros t p <-; by apply holder_is).
  split_and!.
  - intros t t' H H'. destruct (N t H) as (_ & _ & _ & F).
    destruct (decide (t' = t)) as [->|D]; [done|]. destruct (F t' D). lia.
  - intros t H. destruct (N t H) as (_ & _ & Hh & _). unfold holder_ok in Hh.
    destruct (rpc_of s t) eqn:E; break_and; try done; try lia.
    split; [done|]. intros _. unfold mutex_get_recursive_lock_depth.
    rewrite (proj2 (Z.eqb_eq _ _)) by done. simpl. by f_equal.
  - intros t E. destruct (P t _ E) as (_ & _ & Hh & _); [done..|].
    unfold holder_ok in Hh. rewrite E in Hh. apply Hh.
  - intros t o E. destruct (P t _ E) as (_ & _ & Hh & _); [done..|].
    unfold holder_ok in Hh. rewrite E in Hh. unfold refcount_inc_body.
    by rewrite (proj2 (Z.eqb_neq o 0)) by lia.
  - intros t o E. destruct (P t _ E) as (_ & _ & Hh & _); [done..|].
    unfold holder_ok in Hh. rewrite E in Hh. unfold refcount_dec_body.
    by rewrite (proj2 (Z.eqb_neq o 0)) by lia.
  - intros t E. destruct (P t _ E) as (_ & M & _ & _); [done..|].
    unfold mutex_unlock_section. by rewrite M.
Qed.

(** Thread 3 takes the mutex twice while thread 5 is about to take it. *)
Definition rec_twice : rec_all :=
  mk_rall (mk_rmutex (mk_mutex [] (-1)) 3 2)
    (<[5:=RLock]> (<[3:=RIdle]> (<[3:=RInc 1]> (<[3:=RIdle]> (<[3:=ROwner]>
      (<[3:=RTaken]> (<[3:=RLock]> ∅)))))))
    (<[3:=2]> (<[3:=1]> ∅)).

Lemma rec_twice_run : rec_run rec_start rec_twice.
Proof.
  assert (∀ m p (n : gmap Z Z), (∀ t, default 0 (n !! t) ≤ 2) → rec_bounded (mk_rall m p n)) as B.
  { intros m p n H t. unfold nest_of. simpl. specialize (H t). unfold UINT32_MAX. lia. }
  unfold rec_run, rec_start.
  eapply rtc_l; [split; [apply B; done|by apply (rec_lock_other _ 3)]|simpl].
  eapply rtc_l; [split; [apply B; done|by eapply (rec_lock_got _ 3)]|simpl].
  eapply rtc_l; [split; [apply B; done|by apply (rec_owner_store _ 3)]|simpl].
  eapply rtc_l; [split; [apply B; done|by apply (rec_depth_set _ 3)]|simpl].
  assert (∀ t, default 0 (<[3:=1]> (∅ : gmap Z Z) !! t) ≤ 2) as B1.
  { intros t. rewrite lookup_insert. by case_decide. }
  eapply rtc_l; [split; [by apply B|by apply (rec_lock_own _ 3)]|simpl].
  eapply rtc_l; [split; [by apply B|by eapply (rec_inc_cas _ 3)]|simpl].
  assert (∀ t, default 0 (<[3:=2]> (<[3:=1]> (∅ : gmap Z Z)) !! t) ≤ 2) as B2.
  { intros t. rewrite !lookup_insert. by repeat case_decide. }
  eapply rtc_l; [split; [by apply B|by apply (rec_lock_other _ 5)]|simpl].
  done.
Qed.

Theorem rec_mutex_correct_witness :
  mutex_get_recursive_lock_depth 3 (rmtx rec_twice) = Done 2.
Proof. apply (rec_mutex_correct rec_twice rec_twice_run); reflexivity. Defined.
