(* ===== verification/Bitstring.v ===== *)
(** Bit strings, lib/libutils/ext/include/bitstring.h: the macros on arrays of
    bytes, and the set of bits they stand for. An access of a byte outside
    the array is [Undef]. Arguments of type [int] are values of [Z]; callers
    keep them in range. *)
From S2P Require Import Prelude.

Abbreviation bitstr := (list Z).

(** ** The macros *)

Definition bit_byte (bit : Z) : Z := Z.shiftr bit 3.

Definition bit_mask (bit : Z) : Z := Z.shiftl 1 (Z.land bit 7).

Definition bitstr_size (nbits : Z) : Z := Z.shiftr (nbits + 7) 3.

(** [name[i]] as a value and as the target of an assignment. *)
Definition get_byte (name : bitstr) (i : Z) : outcome Z :=
  if i <? 0 then Undef
  else match name !! Z.to_nat i with Some b => Done b | None => Undef end.

Definition set_byte (name : bitstr) (i b : Z) : outcome bitstr :=
  if (i <? 0) || (Z.of_nat (length name) <=? i) then Undef
  else Done (<[Z.to_nat i := u8 b]> name).

(** [name[i] op= v], the compound assignments. *)
Definition upd_byte (name : bitstr) (i : Z) (f : Z → Z) : outcome bitstr :=
  b ← get_byte name i; set_byte name i (f b).

Definition bit_test (name : bitstr) (bit : Z) : outcome bool :=
  b ← get_byte name (bit_byte bit); Done (has_flag b (bit_mask bit)).

Definition bit_set (name : bitstr) (bit : Z) : outcome bitstr :=
  upd_byte name (bit_byte bit) (λ b, Z.lor b (bit_mask bit)).

Definition bit_clear (name : bitstr) (bit : Z) : outcome bitstr :=
  upd_byte name (bit_byte bit) (λ b, Z.land b (Z.lnot (bit_mask bit))).

(** [while (++_startbyte < _stopbyte) _name[_startbyte] = v], [n] rounds. *)
Fixpoint fill_bytes (name : bitstr) (byte : Z) (n : nat) (v : Z) : outcome bitstr :=
  match n with
  | O => Done name
  | S n' => name' ← set_byte name (byte + 1) v; fill_bytes name' (byte + 1) n' v
  end.

Definition rounds_between (startbyte stopbyte : Z) : nat :=
  Z.to_nat (stopbyte - startbyte - 1).

Definition bit_nclear (name : bitstr) (start stop : Z) : outcome bitstr :=
  let startbyte := bit_byte start in
  let stopbyte := bit_byte stop in
  let low := Z.shiftr 0xff (8 - Z.land start 7) in
  let high := Z.shiftl 0xff (Z.land stop 7 + 1) in
  if startbyte =? stopbyte then upd_byte name startbyte (λ b, Z.land b (Z.lor low high))
  else
    name1 ← upd_byte name startbyte (λ b, Z.land b low);
    name2 ← fill_bytes name1 startbyte (rounds_between startbyte stopbyte) 0;
    upd_byte name2 stopbyte (λ b, Z.land b high).

Definition bit_nset (name : bitstr) (start stop : Z) : outcome bitstr :=
  let startbyte := bit_byte start in
  let stopbyte := bit_byte stop in
  let high := Z.shiftl 0xff (Z.land start 7) in
  let low := Z.shiftr 0xff (7 - Z.land stop 7) in
  if startbyte =? stopbyte then upd_byte name startbyte (λ b, Z.lor b (Z.land high low))
  else
    name1 ← upd_byte name startbyte (λ b, Z.lor b high);
    name2 ← fill_bytes name1 startbyte (rounds_between startbyte stopbyte) 0xff;
    upd_byte name2 stopbyte (λ b, Z.lor b low).

(** The inner loops of the searches: [++_value, _lb >>= 1] while the low bit
    of the byte is [skip]; eight rounds are enough for a byte that has a low
    bit of the other value. *)
Fixpoint scan_bits (fuel : nat) (skip : bool) (lb value : Z) : Z :=
  match fuel with
  | O => value
  | S fuel' =>
      if Bool.eqb (Z.testbit lb 0) skip
      then scan_bits fuel' skip (Z.shiftr lb 1) (value + 1) else value
  end.

(** The loop of [bit_ffc] over the bytes [byte .. byte + n - 1]. *)
Fixpoint ffc_loop (name : bitstr) (byte : Z) (n : nat) : outcome Z :=
  match n with
  | O => Done (-1)
  | S n' =>
      b ← get_byte name byte;
      if negb (b =? 0xff) then Done (scan_bits 8 true b (Z.shiftl byte 3))
      else ffc_loop name (byte + 1) n'
  end.

Definition bit_ffc (name : bitstr) (nbits : Z) : outcome Z :=
  let stopbyte := bit_byte (nbits - 1) in
  value ← (if 0 <? nbits then ffc_loop name 0 (Z.to_nat (stopbyte + 1)) else Done (-1));
  Done (if value >=? nbits then -1 else value).

(** The loop of [bit_ffs_from]; the first byte is looked at through a mask. *)
Fixpoint ffs_loop (name : bitstr) (byte : Z) (n : nat) (test_bit_mask : Z) : outcome Z :=
  match n with
  | O => Done (-1)
  | S n' =>
      b ← get_byte name byte;
      if negb (Z.land b test_bit_mask =? 0)
      then Done (scan_bits 8 false (u8 (Z.land b test_bit_mask)) (Z.shiftl byte 3))
      else ffs_loop name (byte + 1) n' 0xff
  end.

Definition bit_ffs_from (name : bitstr) (nbits startbit : Z) : outcome Z :=
  let startbyte := bit_byte startbit in
  let stopbyte := bit_byte (nbits - 1) in
  let test_bit_mask := u8 (Z.shiftl 0xff (startbit mod 8)) in
  value ← (if 0 <? nbits
           then ffs_loop name startbyte (Z.to_nat (stopbyte + 1 - startbyte)) test_bit_mask
           else Done (-1));
  Done (if value >=? nbits then -1 else value).

Definition bit_ffs (name : bitstr) (nbits : Z) : outcome Z := bit_ffs_from name nbits 0.

(** ** The set of bits *)

Definition byte_of (name : bitstr) (k : Z) : Z := default 0 (name !! Z.to_nat k).

Definition bit_at (name : bitstr) (i : Z) : bool := Z.testbit (byte_of name (i / 8)) (i mod 8).

Definition bytes_ok (name : bitstr) : Prop := Forall (λ b, 0 ≤ b < 256) name.

Definition capacity (name : bitstr) : Z := 8 * Z.of_nat (length name).

(** An operation on the bit string succeeds, keeps its size and leaves the
    bits [f]. *)
Definition updates (name : bitstr) (r : outcome bitstr) (f : Z → bool) : Prop :=
  ∃ name', r = Done name' ∧ length name' = length name ∧ bytes_ok name' ∧
    ∀ i, 0 ≤ i → bit_at name' i = f i.

(** A search over [lo .. nbits - 1] for the first bit with the value [v]. *)
Definition finds (name : bitstr) (r : outcome Z) (lo nbits : Z) (v : bool) : Prop :=
  (r = Done (-1) ∧ ∀ i, lo ≤ i < nbits → bit_at name i = negb v) ∨
  (∃ i, r = Done i ∧ lo ≤ i < nbits ∧ bit_at name i = v ∧
     ∀ j, lo ≤ j < i → bit_at name j = negb v).

(** ** Lemmas *)

Lemma bit_byte_div bit : bit_byte bit = bit / 8.
Proof. unfold bit_byte. by rewrite Z.shiftr_div_pow2. Qed.

Lemma land_7 z : Z.land z 7 = z mod 8.
Proof. change 7 with (Z.ones 3). by rewrite Z.land_ones. Qed.

Lemma testbit_mask bit k : 0 ≤ k → Z.testbit (bit_mask bit) k = (k =? bit mod 8).
Proof.
  intros Hk. unfold bit_mask. rewrite land_7, Z.shiftl_1_l.
  pose proof (Z.mod_pos_bound bit 8 ltac:(lia)).
  destruct (Z.eqb_spec k (bit mod 8)) as [->|]; [by apply Z.pow2_bits_true; lia|].
  by apply Z.pow2_bits_false.
Qed.

Lemma testbit_ff k : Z.testbit 0xff k = (0 <=? k) && (k <? 8).
Proof. change 0xff with (Z.ones 8). by apply Z.testbit_ones. Qed.

Lemma testbit_u8 z k : 0 ≤ k < 8 → Z.testbit (u8 z) k = Z.testbit z k.
Proof. intros. unfold u8. apply Z.mod_pow2_bits_low. lia. Qed.

Lemma same_bit i j : i / 8 = j / 8 → (i mod 8 =? j mod 8) = (i =? j).
Proof.
  intros H. pose proof (Z.div_mod i 8). pose proof (Z.div_mod j 8).
  destruct (Z.eqb_spec (i mod 8) (j mod 8)), (Z.eqb_spec i j); lia || congruence.
Qed.

Lemma u8_range z : 0 ≤ u8 z < 256.
Proof. apply Z.mod_pos_bound. lia. Qed.

Lemma get_byte_ok name k :
  0 ≤ k < Z.of_nat (length name) → get_byte name k = Done (byte_of name k).
Proof.
  intros Hk. unfold get_byte, byte_of. destruct (Z.ltb_spec k 0); [lia|].
  destruct (lookup_lt_is_Some_2 name (Z.to_nat k)) as [b E]; [lia|]. by rewrite E.
Qed.

Lemma byte_of_range name k : bytes_ok name → 0 ≤ byte_of name k < 256.
Proof.
  intros H. unfold byte_of. destruct (name !! Z.to_nat k) eqn:E; simpl; [|lia].
  eapply (Forall_lookup_1 _ _ _ _ H E).
Qed.

(** Assigning one byte. *)
Lemma set_byte_updates name k b :
  bytes_ok name → 0 ≤ k < Z.of_nat (length name) →
  updates name (set_byte name k b)
    (λ i, if i / 8 =? k then Z.testbit b (i mod 8) else bit_at name i).
Proof.
  intros Hok Hk. unfold set_byte, updates.
  destruct (Z.ltb_spec k 0); [lia|]. destruct (Z.leb_spec (Z.of_nat (length name)) k); [lia|].
  simpl. eexists. split; [done|]. split_and!.
  - apply length_insert.
  - apply Forall_insert; [done|]. apply u8_range.
  - intros i Hi. pose proof (Z.mod_pos_bound i 8 ltac:(lia)).
    pose proof (Z.div_pos i 8 ltac:(lia) ltac:(lia)).
    unfold bit_at, byte_of. destruct (Z.eqb_spec (i / 8) k) as [->|].
    + rewrite list_lookup_insert_eq by lia. simpl. by apply testbit_u8.
    + by rewrite list_lookup_insert_ne by lia.
Qed.

Lemma upd_byte_updates name k f :
  bytes_ok name → 0 ≤ k < Z.of_nat (length name) →
  updates name (upd_byte name k f)
    (λ i, if i / 8 =? k then Z.testbit (f (byte_of name k)) (i mod 8) else bit_at name i).
Proof.
  intros Hok Hk. unfold upd_byte. rewrite get_byte_ok by done. simpl.
  by apply set_byte_updates.
Qed.

Lemma updates_ext name r f g :
  updates name r f → (∀ i, 0 ≤ i → f i = g i) → updates name r g.
Proof.
  intros (n' & ? & ? & ? & H) E. exists n'. split_and!; [done..|].
  intros i Hi. rewrite H by done. by apply E.
Qed.

(** Operations in sequence. *)
Lemma updates_bind name r f (k : bitstr → outcome bitstr) g :
  updates name r f →
  (∀ name', length name' = length name → bytes_ok name' →
     (∀ i, 0 ≤ i → bit_at name' i = f i) → updates name' (k name') g) →
  updates name (r ≫= k) g.
Proof.
  intros (n1 & -> & L & O & H) K. simpl.
  destruct (K n1 L O H) as (n2 & E & L2 & O2 & H2). exists n2.
  split_and!; [done|congruence|done|done].
Qed.

Lemma div8_in name i : 0 ≤ i < capacity name → 0 ≤ i / 8 < Z.of_nat (length name).
Proof.
  unfold capacity. intros. split; [apply Z.div_pos; lia|].
  apply Z.div_lt_upper_bound; lia.
Qed.

Lemma bit_test_ok name bit :
  0 ≤ bit < capacity name → bit_test name bit = Done (bit_at name bit).
Proof.
  intros H. unfold bit_test. rewrite bit_byte_div, get_byte_ok by by apply div8_in.
  simpl. f_equal. unfold has_flag, bit_at.
  set (b := byte_of name (bit / 8)). pose proof (Z.mod_pos_bound bit 8 ltac:(lia)).
  assert (E : Z.testbit (Z.land b (bit_mask bit)) (bit mod 8) = Z.testbit b (bit mod 8)).
  { rewrite Z.land_spec, testbit_mask, Z.eqb_refl by lia. apply andb_true_r. }
  destruct (Z.eqb_spec (Z.land b (bit_mask bit)) 0) as [Z0|N0]; simpl.
  - rewrite Z0, Z.bits_0 in E. done.
  - destruct (Z.testbit b (bit mod 8)) eqn:T; [done|]. exfalso. apply N0.
    apply Z.bits_inj_0. intros k. destruct (Z.ltb_spec k 0); [by apply Z.testbit_neg_r|].
    rewrite Z.land_spec, testbit_mask by done.
    destruct (Z.eqb_spec k (bit mod 8)) as [->|]; [by rewrite T|apply andb_false_r].
Qed.

Lemma bit_set_updates name bit :
  bytes_ok name → 0 ≤ bit < capacity name →
  updates name (bit_set name bit) (λ i, (i =? bit) || bit_at name i).
Proof.
  intros Hok Hb. unfold bit_set. rewrite bit_byte_div.
  eapply updates_ext; [apply upd_byte_updates; [done|by apply div8_in]|].
  intros i Hi. simpl. pose proof (Z.mod_pos_bound i 8 ltac:(lia)).
  destruct (Z.eqb_spec (i / 8) (bit / 8)) as [E|N].
  - rewrite Z.lor_spec, testbit_mask, same_bit by (done || lia).
    unfold bit_at. rewrite E. apply orb_comm.
  - destruct (Z.eqb_spec i bit); [congruence|done].
Qed.

Lemma bit_clear_updates name bit :
  bytes_ok name → 0 ≤ bit < capacity name →
  updates name (bit_clear name bit) (λ i, negb (i =? bit) && bit_at name i).
Proof.
  intros Hok Hb. unfold bit_clear. rewrite bit_byte_div.
  eapply updates_ext; [apply upd_byte_updates; [done|by apply div8_in]|].
  intros i Hi. simpl. pose proof (Z.mod_pos_bound i 8 ltac:(lia)).
  destruct (Z.eqb_spec (i / 8) (bit / 8)) as [E|N].
  - rewrite Z.land_spec, Z.lnot_spec, testbit_mask, same_bit by (done || lia).
    unfold bit_at. rewrite E. apply andb_comm.
  - destruct (Z.eqb_spec i bit); [congruence|done].
Qed.

(** The range of bytes a loop fills. *)
Lemma fill_bytes_updates n : ∀ name byte v,
  bytes_ok name → -1 ≤ byte → byte + Z.of_nat n < Z.of_nat (length name) →
  updates name (fill_bytes name byte n v)
    (λ i, if (byte <? i / 8) && (i / 8 <=? byte + Z.of_nat n)
          then Z.testbit v (i mod 8) else bit_at name i).
Proof.
  induction n as [|n IH]; intros name byte v Hok Hb Hn; simpl fill_bytes.
  - exists name. split_and!; [done..|]. intros i Hi.
    destruct (Z.ltb_spec byte (i / 8)), (Z.leb_spec (i / 8) (byte + Z.of_nat 0));
      simpl; done || lia.
  - eapply updates_bind; [apply set_byte_updates; [done|lia]|].
    intros n1 L O H. eapply updates_ext; [apply IH; [done|lia|lia]|].
    intros i Hi. simpl. rewrite H by done.
    destruct (Z.eqb_spec (i / 8) (byte + 1)), (Z.ltb_spec (byte + 1) (i / 8)),
      (Z.ltb_spec byte (i / 8)), (Z.leb_spec (i / 8) (byte + 1 + Z.of_nat n)),
      (Z.leb_spec (i / 8) (byte + Z.of_nat (S n))); simpl; done || lia.
Qed.

(** Where a bit lies relative to the bytes of the ends of a range. *)
Lemma bit_order i j : 0 ≤ i → 0 ≤ j →
  (i <? j) = (i / 8 <? j / 8) || ((i / 8 =? j / 8) && (i mod 8 <? j mod 8)).
Proof.
  intros Hi Hj. pose proof (Z.div_mod i 8). pose proof (Z.div_mod j 8).
  pose proof (Z.mod_pos_bound i 8 ltac:(lia)). pose proof (Z.mod_pos_bound j 8 ltac:(lia)).
  destruct (Z.ltb_spec i j), (Z.ltb_spec (i / 8) (j / 8)), (Z.eqb_spec (i / 8) (j / 8)),
    (Z.ltb_spec (i mod 8) (j mod 8)); simpl; done || lia.
Qed.

Lemma in_range_bytes i start stop : 0 ≤ i → 0 ≤ start → 0 ≤ stop →
  (start <=? i) && (i <=? stop) =
  negb ((i / 8 <? start / 8) || ((i / 8 =? start / 8) && (i mod 8 <? start mod 8))) &&
  negb ((stop / 8 <? i / 8) || ((stop / 8 =? i / 8) && (stop mod 8 <? i mod 8))).
Proof.
  intros. rewrite <- !bit_order, !Z.leb_antisym by done. reflexivity.
Qed.

(** The masks of the ends of a range. *)
Lemma testbit_below k s : 0 ≤ k < 8 → 0 ≤ s < 8 →
  Z.testbit (Z.shiftr 0xff (8 - s)) k = (k <? s).
Proof.
  intros. rewrite Z.shiftr_spec, testbit_ff by lia.
  destruct (Z.leb_spec 0 (k + (8 - s))), (Z.ltb_spec (k + (8 - s)) 8), (Z.ltb_spec k s);
    simpl; done || lia.
Qed.

Lemma testbit_from k s : 0 ≤ k < 8 → 0 ≤ s ≤ 8 →
  Z.testbit (Z.shiftl 0xff s) k = (s <=? k).
Proof.
  intros. rewrite Z.shiftl_spec, testbit_ff by lia.
  destruct (Z.leb_spec 0 (k - s)), (Z.ltb_spec (k - s) 8), (Z.leb_spec s k);
    simpl; done || lia.
Qed.

Ltac bool_range :=
  repeat match goal with
  | |- context [Z.ltb ?a ?b] => destruct (Z.ltb_spec a b)
  | |- context [Z.leb ?a ?b] => destruct (Z.leb_spec a b)
  | |- context [Z.eqb ?a ?b] => destruct (Z.eqb_spec a b)
  end; simpl; rewrite ?andb_true_r, ?andb_false_r, ?orb_true_r, ?orb_false_r;
  solve [done | lia | congruence].

(** Both range operations update the first byte, the bytes between and the
    last byte; [f] and [l] are the masks as functions of a byte. *)
Lemma range_updates name start stop f l v g :
  bytes_ok name → 0 ≤ start ≤ stop → stop < capacity name → start / 8 < stop / 8 →
  (∀ i, 0 ≤ i → i / 8 = start / 8 →
     Z.testbit (f (byte_of name (start / 8))) (i mod 8) = g i) →
  (∀ i, 0 ≤ i → i / 8 = stop / 8 →
     Z.testbit (l (byte_of name (stop / 8))) (i mod 8) = g i) →
  (∀ i, 0 ≤ i → start / 8 < i / 8 < stop / 8 → Z.testbit v (i mod 8) = g i) →
  (∀ i, 0 ≤ i → i / 8 < start / 8 ∨ stop / 8 < i / 8 → bit_at name i = g i) →
  updates name
    (name1 ← upd_byte name (start / 8) f;
     name2 ← fill_bytes name1 (start / 8) (rounds_between (start / 8) (stop / 8)) v;
     upd_byte name2 (stop / 8) l) g.
Proof.
  intros Hok Hs Hc Hlt Hf Hl Hv Ho.
  pose proof (div8_in name stop ltac:(lia)) as Bstop.
  pose proof (Z.div_pos start 8 ltac:(lia) ltac:(lia)) as Bstart.
  assert (R : Z.of_nat (rounds_between (start / 8) (stop / 8)) = stop / 8 - start / 8 - 1)
    by (unfold rounds_between; lia).
  eapply updates_bind; [apply upd_byte_updates; [done|lia]|]. intros n1 L1 O1 H1.
  eapply updates_bind; [apply fill_bytes_updates; [done|lia|lia]|]. intros n2 L2 O2 H2.
  eapply updates_ext; [apply upd_byte_updates; [done|rewrite L2, L1; lia]|].
  assert (S : byte_of n2 (stop / 8) = byte_of name (stop / 8)).
  { apply Z.bits_inj'. intros k Hk. destruct (Z.ltb_spec k 8) as [K|K].
    - assert (B : ∀ m, Z.testbit (byte_of m (stop / 8)) k = bit_at m (stop / 8 * 8 + k)).
      { intros m. unfold bit_at. rewrite (Z.add_comm (_ * 8)), Z.div_add, Z.mod_add by lia.
        by rewrite (Z.div_small k), (Z.mod_small k) by lia. }
      rewrite !B, H2, H1 by lia.
      rewrite (Z.add_comm (_ * 8)), Z.div_add, (Z.div_small k) by lia.
      bool_range.
    - rewrite !Z.bits_above_log2; [done|..]; [by apply byte_of_range| |by apply byte_of_range|];
      match goal with |- Z.log2 ?b < _ =>
        destruct (Z.eq_dec b 0) as [->|]; [simpl; lia|];
        enough (Z.log2 b < 8) by lia; apply Z.log2_lt_pow2;
        [pose proof (byte_of_range n2 (stop / 8) O2);
         pose proof (byte_of_range name (stop / 8) Hok); lia|by apply byte_of_range]
      end. }
  intros i Hi. simpl. rewrite S, H2, H1, R by done.
  destruct (Z.eqb_spec (i / 8) (stop / 8)); [by apply Hl|].
  destruct (Z.ltb_spec (start / 8) (i / 8)); simpl.
  - destruct (Z.leb_spec (i / 8) (start / 8 + (stop / 8 - start / 8 - 1)));
      [apply Hv; lia|].
    destruct (Z.eqb_spec (i / 8) (start / 8)); [by apply Hf|]. apply Ho; lia.
  - destruct (Z.eqb_spec (i / 8) (start / 8)); [by apply Hf|]. apply Ho; lia.
Qed.

Lemma bit_nclear_updates name start stop :
  bytes_ok name → 0 ≤ start ≤ stop → stop < capacity name →
  updates name (bit_nclear name start stop)
    (λ i, negb ((start <=? i) && (i <=? stop)) && bit_at name i).
Proof.
  intros Hok Hs Hc. unfold bit_nclear. rewrite !bit_byte_div, !land_7.
  pose proof (Z.mod_pos_bound start 8 ltac:(lia)).
  pose proof (Z.mod_pos_bound stop 8 ltac:(lia)).
  pose proof (Z.div_le_mono start stop 8 ltac:(lia) ltac:(lia)).
  destruct (Z.eqb_spec (start / 8) (stop / 8)) as [E|N].
  - eapply updates_ext; [apply upd_byte_updates; [done|apply div8_in; lia]|].
    intros i Hi. simpl. pose proof (Z.mod_pos_bound i 8 ltac:(lia)).
    rewrite in_range_bytes by lia. destruct (Z.eqb_spec (i / 8) (start / 8)) as [Ei|Ni].
    + rewrite Z.land_spec, Z.lor_spec, testbit_below, testbit_from by lia.
      unfold bit_at. rewrite Ei, E. rewrite andb_comm. f_equal. bool_range.
    + rewrite <- (andb_true_l (bit_at name i)) at 1. f_equal. bool_range.
  - apply range_updates; [done|done|done|lia|..]; intros i Hi Hr; cbv beta;
      pose proof (Z.mod_pos_bound i 8 ltac:(lia)); rewrite in_range_bytes by lia.
    + rewrite Z.land_spec, testbit_below by lia. unfold bit_at. rewrite Hr, andb_comm.
      f_equal. bool_range.
    + rewrite Z.land_spec, testbit_from by lia. unfold bit_at. rewrite Hr, andb_comm.
      f_equal. bool_range.
    + rewrite Z.bits_0. symmetry. apply andb_false_iff. left. bool_range.
    + rewrite <- (andb_true_l (bit_at name i)) at 1. f_equal. bool_range.
Qed.

Lemma bit_nset_updates name start stop :
  bytes_ok name → 0 ≤ start ≤ stop → stop < capacity name →
  updates name (bit_nset name start stop)
    (λ i, ((start <=? i) && (i <=? stop)) || bit_at name i).
Proof.
  intros Hok Hs Hc. unfold bit_nset. rewrite !bit_byte_div, !land_7.
  pose proof (Z.mod_pos_bound start 8 ltac:(lia)).
  pose proof (Z.mod_pos_bound stop 8 ltac:(lia)).
  pose proof (Z.div_le_mono start stop 8 ltac:(lia) ltac:(lia)).
  assert (T : ∀ k, 0 ≤ k < 8 →
    Z.testbit (Z.shiftr 0xff (7 - stop mod 8)) k = (k <=? stop mod 8)).
  { intros k Hk. replace (7 - stop mod 8) with (8 - (stop mod 8 + 1)) by lia.
    destruct (Z.eq_dec (stop mod 8) 7) as [->|].
    - rewrite Z.shiftr_0_r, testbit_ff. bool_range.
    - rewrite testbit_below by lia. bool_range. }
  destruct (Z.eqb_spec (start / 8) (stop / 8)) as [E|N].
  - eapply updates_ext; [apply upd_byte_updates; [done|apply div8_in; lia]|].
    intros i Hi. simpl. pose proof (Z.mod_pos_bound i 8 ltac:(lia)).
    rewrite in_range_bytes by lia. destruct (Z.eqb_spec (i / 8) (start / 8)) as [Ei|Ni].
    + rewrite Z.lor_spec, Z.land_spec, T, testbit_from by lia.
      unfold bit_at. rewrite Ei, E. rewrite orb_comm. f_equal. bool_range.
    + rewrite <- (orb_false_l (bit_at name i)) at 1. f_equal. bool_range.
  - apply range_updates; [done|done|done|lia|..]; intros i Hi Hr; cbv beta;
      pose proof (Z.mod_pos_bound i 8 ltac:(lia)); rewrite in_range_bytes by lia.
    + rewrite Z.lor_spec, testbit_from by lia. unfold bit_at. rewrite Hr, orb_comm.
      f_equal. bool_range.
    + rewrite Z.lor_spec, T by lia. unfold bit_at. rewrite Hr, orb_comm.
      f_equal. bool_range.
    + rewrite testbit_ff. bool_range.
    + rewrite <- (orb_false_l (bit_at name i)) at 1. f_equal. bool_range.
Qed.

(** ** The searches *)

(** The inner loop stops at the first low bit of the other value. *)
Lemma scan_bits_spec fuel skip : ∀ lb value j,
  (j < fuel)%nat → Z.testbit lb (Z.of_nat j) = negb skip → 0 ≤ lb →
  ∃ k, scan_bits fuel skip lb value = value + Z.of_nat k ∧ (k ≤ j)%nat ∧
    Z.testbit lb (Z.of_nat k) = negb skip ∧
    ∀ m, (m < k)%nat → Z.testbit lb (Z.of_nat m) = skip.
Proof.
  induction fuel as [|fuel IH]; intros lb value j Hj Hb Hlb; [lia|]. cbn [scan_bits].
  destruct (Bool.eqb (Z.testbit lb 0) skip) eqn:E.
  - apply Bool.eqb_prop in E. destruct j as [|j].
    { change (Z.of_nat 0) with 0 in Hb. rewrite E in Hb. by destruct skip. }
    destruct (IH (Z.shiftr lb 1) (value + 1) j) as (k & R & K1 & K2 & K3);
      [lia| |by apply Z.shiftr_nonneg|].
    { rewrite Z.shiftr_spec by lia. rewrite <- Hb. f_equal. lia. }
    exists (S k). rewrite R. split_and!; [lia|lia| |].
    + rewrite Z.shiftr_spec in K2 by lia. rewrite <- K2. f_equal. lia.
    + intros [|m] Hm; [done|]. rewrite <- (K3 m) by lia.
      rewrite Z.shiftr_spec by lia. f_equal. lia.
  - exists 0%nat. apply Bool.eqb_false_iff in E. change (Z.of_nat 0) with 0.
    split_and!; [lia|lia| |lia].
    destruct (Z.testbit lb 0), skip; done.
Qed.

#[local] Arguments scan_bits : simpl never.

Lemma bit_at_byte name byte k : 0 ≤ k < 8 →
  bit_at name (8 * byte + k) = Z.testbit (byte_of name byte) k.
Proof.
  intros. unfold bit_at. rewrite (Z.add_comm (8 * byte)), (Z.mul_comm 8).
  rewrite Z.div_add, Z.mod_add by lia. by rewrite (Z.div_small k), (Z.mod_small k) by lia.
Qed.

Lemma byte_all_ones b : 0 ≤ b < 256 → (∀ k, 0 ≤ k < 8 → Z.testbit b k = true) → b = 0xff.
Proof.
  intros Hb H. apply Z.bits_inj'. intros k Hk. rewrite testbit_ff.
  destruct (Z.ltb_spec k 8).
  - rewrite H by lia. bool_range.
  - rewrite Z.bits_above_log2; [bool_range|lia|].
    destruct (Z.eq_dec b 0) as [->|]; [simpl; lia|].
    enough (Z.log2 b < 8) by lia. apply Z.log2_lt_pow2; lia.
Qed.

(** A byte that is not 0xff has a clear bit, one that is not zero a set one. *)
Lemma byte_has_bit b (v : bool) : 0 ≤ b < 256 → b ≠ (if v then 0 else 0xff) →
  ∃ j, (j < 8)%nat ∧ Z.testbit b (Z.of_nat j) = v.
Proof.
  intros Hb Hne.
  destruct (decide (Exists (λ j, Z.testbit b (Z.of_nat j) = v) (seq 0 8))) as [E|N].
  { apply Exists_exists in E as (j & J & T). exists j. apply elem_of_seq in J.
    split; [lia|done]. }
  assert (N' : ∀ k, 0 ≤ k < 8 → Z.testbit b k ≠ v).
  { intros k Hk T. apply N, Exists_exists. exists (Z.to_nat k).
    rewrite elem_of_seq, Z2Nat.id by lia. split; [lia|done]. }
  exfalso. apply Hne. destruct v.
  - apply Z.bits_inj_0. intros k. destruct (Z.ltb_spec k 0); [by apply Z.testbit_neg_r|].
    destruct (Z.ltb_spec k 8) as [K|K].
    + by apply not_true_is_false, N'.
    + apply Z.bits_above_log2; [lia|]. destruct (Z.eq_dec b 0) as [->|]; [simpl; lia|].
      enough (Z.log2 b < 8) by lia. apply Z.log2_lt_pow2; lia.
  - apply byte_all_ones; [done|]. intros k Hk. by apply not_false_is_true, N'.
Qed.

(** The position that the inner loop of a search finds in a byte. *)
Lemma scan_byte byte (v : bool) lb value :
  0 ≤ lb < 256 → lb ≠ (if v then 0 else 0xff) → value = 8 * byte →
  ∃ k, 0 ≤ k < 8 ∧ scan_bits 8 (negb v) lb value = 8 * byte + k ∧
    Z.testbit lb k = v ∧ ∀ m, 0 ≤ m < k → Z.testbit lb m = negb v.
Proof.
  intros Hb Hne ->. destruct (byte_has_bit lb v Hb Hne) as (j & J & T).
  destruct (scan_bits_spec 8 (negb v) lb (8 * byte) j) as (k & R & K1 & K2 & K3);
    [done|by rewrite negb_involutive|lia|].
  exists (Z.of_nat k). rewrite negb_involutive in K2. split_and!; [lia|lia|done|done|].
  intros m Hm. rewrite <- (K3 (Z.to_nat m)) by lia. f_equal. lia.
Qed.

Lemma ffc_loop_spec n : ∀ name byte,
  bytes_ok name → 0 ≤ byte → byte + Z.of_nat n ≤ Z.of_nat (length name) →
  finds name (ffc_loop name byte n) (8 * byte) (8 * (byte + Z.of_nat n)) false.
Proof.
  induction n as [|n IH]; intros name byte Hok Hb Hn; simpl ffc_loop.
  { left. split; [done|]. intros i Hi. lia. }
  rewrite get_byte_ok by lia. simpl. pose proof (byte_of_range name byte Hok).
  destruct (Z.eqb_spec (byte_of name byte) 0xff) as [F|F]; simpl.
  - assert (A : ∀ i, 8 * byte ≤ i < 8 * byte + 8 → bit_at name i = true).
    { intros i Hi. replace i with (8 * byte + (i - 8 * byte)) by lia.
      rewrite bit_at_byte, F, testbit_ff by lia. bool_range. }
    destruct (IH name (byte + 1) Hok ltac:(lia) ltac:(lia)) as [(E & H0)|(i & E & H1 & H2 & H3)].
    + left. split; [done|]. intros i Hi.
      destruct (Z.ltb_spec i (8 * byte + 8)); [apply A|apply H0]; lia.
    + right. exists i. split_and!; [done|lia|lia|done|]. intros j Hj.
      destruct (Z.ltb_spec j (8 * byte + 8)); [apply A|apply H3]; lia.
  - destruct (scan_byte byte false (byte_of name byte) (Z.shiftl byte 3))
      as (k & K & R & T & M); [done|done|rewrite Z.shiftl_mul_pow2; lia|].
    right. exists (8 * byte + k). simpl in R. rewrite R. split_and!; [done|lia|lia| |].
    + by rewrite bit_at_byte.
    + intros j Hj. replace j with (8 * byte + (j - 8 * byte)) by lia.
      rewrite bit_at_byte by lia. apply M. lia.
Qed.

(** A search of whole bytes that is cut at [nbits]. *)
Lemma finds_cut name r lo nbits hi v :
  0 ≤ lo → nbits ≤ hi → finds name r lo hi v →
  finds name (value ← r; Done (if value >=? nbits then -1 else value)) lo nbits v.
Proof.
  intros Hlo Hn [(-> & H)|(i & -> & H1 & H2 & H3)]; simpl.
  - left. split; [by destruct (-1 >=? nbits)|]. intros. apply H. lia.
  - rewrite Z.geb_leb. destruct (Z.leb_spec nbits i).
    + left. split; [done|]. intros. apply H3. lia.
    + right. exists i. auto with lia.
Qed.

Lemma last_byte nbits : 0 < nbits → nbits ≤ 8 * ((nbits - 1) / 8 + 1) < nbits + 8.
Proof. intros. pose proof (Z.div_mod (nbits - 1) 8). pose proof (Z.mod_pos_bound (nbits - 1) 8). lia. Qed.

Lemma bit_ffc_finds name nbits :
  bytes_ok name → nbits ≤ capacity name → finds name (bit_ffc name nbits) 0 nbits false.
Proof.
  intros Hok Hn. unfold bit_ffc. rewrite bit_byte_div.
  destruct (Z.ltb_spec 0 nbits).
  - pose proof (last_byte nbits ltac:(lia)). unfold capacity in Hn.
    apply (finds_cut _ _ _ _ (8 * (0 + Z.of_nat (Z.to_nat ((nbits - 1) / 8 + 1))))); [lia|lia|].
    apply (ffc_loop_spec _ name 0); [done|lia|lia].
  - left. simpl. split; [by destruct (-1 >=? nbits)|]. intros; lia.
Qed.

(** [bit_ffs_from]: the bits of a byte before the start are masked out. *)
Lemma masked_bit b s k : 0 ≤ k < 8 → 0 ≤ s < 8 →
  Z.testbit (Z.land b (u8 (Z.shiftl 0xff s))) k = (s <=? k) && Z.testbit b k.
Proof.
  intros. rewrite Z.land_spec, testbit_u8, testbit_from by lia. apply andb_comm.
Qed.

Lemma land_byte b m : 0 ≤ b < 256 → 0 ≤ m → 0 ≤ Z.land b m < 256.
Proof.
  intros Hb Hm. assert (0 ≤ Z.land b m) by (apply Z.land_nonneg; lia).
  split; [done|]. destruct (Z.eq_dec (Z.land b m) 0) as [->|]; [lia|].
  apply Z.log2_lt_cancel. change (Z.log2 256) with 8.
  eapply Z.le_lt_trans; [apply Z.log2_land; lia|].
  destruct (Z.eq_dec b 0) as [->|]; [simpl; lia|].
  enough (Z.log2 b < 8) by lia. apply Z.log2_lt_pow2; lia.
Qed.

Lemma ffs_loop_spec n : ∀ name byte s,
  bytes_ok name → 0 ≤ byte → byte + Z.of_nat n ≤ Z.of_nat (length name) → 0 ≤ s < 8 →
  finds name (ffs_loop name byte n (u8 (Z.shiftl 0xff s)))
    (8 * byte + s) (8 * (byte + Z.of_nat n)) true.
Proof.
  induction n as [|n IH]; intros name byte s Hok Hb Hn Hs; simpl ffs_loop.
  { left. split; [done|]. intros i Hi. lia. }
  rewrite get_byte_ok by lia. simpl. pose proof (byte_of_range name byte Hok) as Hr.
  set (m := Z.land (byte_of name byte) (u8 (Z.shiftl 0xff s))).
  assert (Hm : 0 ≤ m < 256) by (apply land_byte; [done|apply u8_range]).
  assert (B : ∀ i, 8 * byte + s ≤ i < 8 * byte + 8 → bit_at name i = Z.testbit m (i - 8 * byte)).
  { intros i Hi. replace i with (8 * byte + (i - 8 * byte)) at 1 by lia.
    unfold m. rewrite bit_at_byte, masked_bit by lia.
    destruct (Z.leb_spec s (i - 8 * byte)); [done|lia]. }
  destruct (Z.eqb_spec m 0) as [F|F]; simpl.
  - change 0xff with (u8 (Z.shiftl 0xff 0)).
    destruct (IH name (byte + 1) 0 Hok ltac:(lia) ltac:(lia) ltac:(lia))
      as [(E & H0)|(i & E & H1 & H2 & H3)].
    + left. split; [done|]. intros i Hi.
      destruct (Z.ltb_spec i (8 * byte + 8)); [rewrite B, F, Z.bits_0 by lia; done|].
      apply H0; lia.
    + right. exists i. split_and!; [done|lia|lia|done|]. intros j Hj.
      destruct (Z.ltb_spec j (8 * byte + 8)); [rewrite B, F, Z.bits_0 by lia; done|].
      apply H3; lia.
  - rewrite u8_id by done.
    destruct (scan_byte byte true m (Z.shiftl byte 3)) as (k & K & R & T & M);
      [done|done|rewrite Z.shiftl_mul_pow2; lia|].
    assert (s ≤ k).
    { unfold m in T. rewrite masked_bit in T by lia. apply andb_true_iff in T as [T _].
      by apply Z.leb_le. }
    right. exists (8 * byte + k). simpl negb in R. rewrite R. split_and!; [done|lia|lia| |].
    + rewrite B by lia. rewrite <- T. f_equal. lia.
    + intros j Hj. rewrite B by lia. apply M. lia.
Qed.

Lemma bit_ffs_from_finds name nbits startbit :
  bytes_ok name → 0 ≤ startbit → nbits ≤ capacity name →
  finds name (bit_ffs_from name nbits startbit) startbit nbits true.
Proof.
  intros Hok Hs Hn. unfold bit_ffs_from. rewrite !bit_byte_div.
  pose proof (Z.div_mod startbit 8). pose proof (Z.mod_pos_bound startbit 8).
  pose proof (Z.div_pos startbit 8).
  destruct (Z.ltb_spec 0 nbits); [|left; simpl; split; [by destruct (-1 >=? nbits)|lia]].
  pose proof (last_byte nbits ltac:(lia)). unfold capacity in Hn.
  set (n := Z.to_nat ((nbits - 1) / 8 + 1 - startbit / 8)).
  destruct (Z.leb_spec (startbit / 8) ((nbits - 1) / 8)) as [Hle|Hgt].
  - apply (finds_cut _ _ _ _ (8 * (startbit / 8 + Z.of_nat n))); [done|lia|].
    replace startbit with (8 * (startbit / 8) + startbit mod 8) at 3 by lia.
    apply ffs_loop_spec; [done|lia|lia|lia].
  - replace n with 0%nat by lia. simpl. left.
    split; [by destruct (-1 >=? nbits)|]. intros i Hi. lia.
Qed.

(** The macros of bitstring.h work on the set of bits of the array: on an
    index inside the array [bit_test] tells the membership, [bit_set] adds it,
    [bit_clear] removes it, [bit_nset] and [bit_nclear] add and remove an
    interval, nothing else changes and no byte outside the array is accessed;
    [bit_ffc] and [bit_ffs_from] return the least index below [nbits] that is
    not in the set, or that is in the set from [startbit] on, and -1 when
    there is none, whatever the bits from [nbits] to the end of the last byte
    hold. *)
Theorem bitstring_correct name :
  bytes_ok name →
  (∀ bit, 0 ≤ bit < capacity name →
     bit_test name bit = Done (bit_at name bit) ∧
     updates name (bit_set name bit) (λ i, (i =? bit) || bit_at name i) ∧
     updates name (bit_clear name bit) (λ i, negb (i =? bit) && bit_at name i)) ∧
  (∀ start stop, 0 ≤ start ≤ stop → stop < capacity name →
     updates name (bit_nset name start stop)
       (λ i, ((start <=? i) && (i <=? stop)) || bit_at name i) ∧
     updates name (bit_nclear name start stop)
       (λ i, negb ((start <=? i) && (i <=? stop)) && bit_at name i)) ∧
  (∀ nbits, nbits ≤ capacity name →
     finds name (bit_ffc name nbits) 0 nbits false ∧
     ∀ startbit, 0 ≤ startbit →
       finds name (bit_ffs_from name nbits startbit) startbit nbits true).
Proof.
  intros Hok. split_and!.
  - intros bit Hb. auto using bit_test_ok, bit_set_updates, bit_clear_updates.
  - intros start stop Hs Hc. auto using bit_nset_updates, bit_nclear_updates.
  - intros nbits Hn. split; [by apply bit_ffc_finds|].
    intros s Hs. by apply bit_ffs_from_finds.
Qed.

Lemma bitstring_correct_witness :
  bytes_ok [0xff; 0x0b; 0] ∧
  finds [0xff; 0x0b; 0] (bit_ffc [0xff; 0x0b; 0] 20) 0 20 false ∧
  bit_ffc [0xff; 0x0b; 0] 20 = Done 10.
Proof.
  assert (H : bytes_ok [0xff; 0x0b; 0]) by (repeat constructor; lia).
  split_and!; [done| |reflexivity].
  apply (bitstring_correct _ H). simpl. unfold capacity. simpl. lia.
Defined.
