(* ===== verification/Pkcs11Attr.v ===== *)
(** Serialized attribute lists of the PKCS#11 TA: the part of
    ta/pkcs11/src/serializer.c that builds them, ta/pkcs11/src/attributes.c, and
    the attribute identifiers of ta/pkcs11/include/pkcs11_ta.h with the tables of
    ta/pkcs11/src/pkcs11_helpers.c. An allocated object is the list of its bytes,
    a pointer into it a position; [size_t] has 64 bits, integers are little
    endian. An allocation may fail. *)
From S2P Require Import Prelude State Bytes.

(** ** Constants *)

Definition PKCS11_CKR_OK : Z := 0.
Definition PKCS11_CKR_GENERAL_ERROR : Z := 5.
Definition PKCS11_CKR_FUNCTION_FAILED : Z := 6.
Definition PKCS11_CKR_ARGUMENTS_BAD : Z := 7.
Definition PKCS11_CKR_DEVICE_MEMORY : Z := 49.
Definition PKCS11_CKR_TEMPLATE_INCONSISTENT : Z := 209.
Definition PKCS11_CKR_BUFFER_TOO_SMALL : Z := 336.
Definition PKCS11_RV_NOT_FOUND : Z := 2147483648.
Definition PKCS11_UNDEFINED_ID : Z := 4294967295.
Definition PKCS11_CKA_OPTEE_FLAGS_HIDDEN : Z := 2147549184.

Definition PKCS11_CKA_CLASS : Z := 0.
Definition PKCS11_CKA_KEY_TYPE : Z := 256.
Definition PKCS11_CKA_VALUE : Z := 17.
Definition PKCS11_CKA_VALUE_LEN : Z := 353.
Definition PKCS11_CKA_KEY_GEN_MECHANISM : Z := 358.
Definition PKCS11_CKA_LABEL : Z := 3.
Definition PKCS11_CKA_CERTIFICATE_TYPE : Z := 128.
Definition PKCS11_CKA_ISSUER : Z := 129.
Definition PKCS11_CKA_SERIAL_NUMBER : Z := 130.
Definition PKCS11_CKA_CERTIFICATE_CATEGORY : Z := 135.
Definition PKCS11_CKA_URL : Z := 137.
Definition PKCS11_CKA_HASH_OF_SUBJECT_PUBLIC_KEY : Z := 138.
Definition PKCS11_CKA_HASH_OF_ISSUER_PUBLIC_KEY : Z := 139.
Definition PKCS11_CKA_JAVA_MIDP_SECURITY_DOMAIN : Z := 136.
Definition PKCS11_CKA_NAME_HASH_ALGORITHM : Z := 140.
Definition PKCS11_CKA_CHECK_VALUE : Z := 144.
Definition PKCS11_CKA_WRAP_TEMPLATE : Z := 1073742353.
Definition PKCS11_CKA_UNWRAP_TEMPLATE : Z := 1073742354.
Definition PKCS11_CKA_DERIVE_TEMPLATE : Z := 1073742355.
Definition PKCS11_CKA_START_DATE : Z := 272.
Definition PKCS11_CKA_END_DATE : Z := 273.
Definition PKCS11_CKA_OBJECT_ID : Z := 18.
Definition PKCS11_CKA_APPLICATION : Z := 16.
Definition PKCS11_CKA_MECHANISM_TYPE : Z := 1280.
Definition PKCS11_CKA_ID : Z := 258.
Definition PKCS11_CKA_ALLOWED_MECHANISMS : Z := 1073743360.
Definition PKCS11_CKA_EC_POINT : Z := 385.
Definition PKCS11_CKA_EC_PARAMS : Z := 384.
Definition PKCS11_CKA_MODULUS : Z := 288.
Definition PKCS11_CKA_MODULUS_BITS : Z := 289.
Definition PKCS11_CKA_PUBLIC_EXPONENT : Z := 290.
Definition PKCS11_CKA_PRIVATE_EXPONENT : Z := 291.
Definition PKCS11_CKA_PRIME_1 : Z := 292.
Definition PKCS11_CKA_PRIME_2 : Z := 293.
Definition PKCS11_CKA_EXPONENT_1 : Z := 294.
Definition PKCS11_CKA_EXPONENT_2 : Z := 295.
Definition PKCS11_CKA_COEFFICIENT : Z := 296.
Definition PKCS11_CKA_SUBJECT : Z := 257.
Definition PKCS11_CKA_PUBLIC_KEY_INFO : Z := 297.
Definition PKCS11_CKA_TOKEN : Z := 1.
Definition PKCS11_CKA_PRIVATE : Z := 2.
Definition PKCS11_CKA_TRUSTED : Z := 134.
Definition PKCS11_CKA_SENSITIVE : Z := 259.
Definition PKCS11_CKA_ENCRYPT : Z := 260.
Definition PKCS11_CKA_DECRYPT : Z := 261.
Definition PKCS11_CKA_WRAP : Z := 262.
Definition PKCS11_CKA_UNWRAP : Z := 263.
Definition PKCS11_CKA_SIGN : Z := 264.
Definition PKCS11_CKA_SIGN_RECOVER : Z := 265.
Definition PKCS11_CKA_VERIFY : Z := 266.
Definition PKCS11_CKA_VERIFY_RECOVER : Z := 267.
Definition PKCS11_CKA_DERIVE : Z := 268.
Definition PKCS11_CKA_EXTRACTABLE : Z := 354.
Definition PKCS11_CKA_LOCAL : Z := 355.
Definition PKCS11_CKA_NEVER_EXTRACTABLE : Z := 356.
Definition PKCS11_CKA_ALWAYS_SENSITIVE : Z := 357.
Definition PKCS11_CKA_MODIFIABLE : Z := 368.
Definition PKCS11_CKA_COPYABLE : Z := 369.
Definition PKCS11_CKA_DESTROYABLE : Z := 370.
Definition PKCS11_CKA_ALWAYS_AUTHENTICATE : Z := 514.
Definition PKCS11_CKA_WRAP_WITH_TRUSTED : Z := 528.
Definition PKCS11_CKA_OPTEE_HIDDEN_EC_POINT : Z := 2147549184.
Definition PKCS11_CKA_UNDEFINED_ID : Z := 4294967295.
Definition PKCS11_CKO_UNDEFINED_ID : Z := PKCS11_UNDEFINED_ID.
Definition PKCS11_CKK_UNDEFINED_ID : Z := PKCS11_UNDEFINED_ID.
Definition PKCS11_CKC_UNDEFINED_ID : Z := PKCS11_UNDEFINED_ID.
Definition PKCS11_CKM_UNDEFINED_ID : Z := PKCS11_UNDEFINED_ID.

(** The known attributes, with the size of their value, 0 if any. *)
Definition attr_ids : list (Z * Z) := [
  (PKCS11_CKA_CLASS, 4);
  (PKCS11_CKA_KEY_TYPE, 4);
  (PKCS11_CKA_VALUE, 0);
  (PKCS11_CKA_VALUE_LEN, 4);
  (PKCS11_CKA_KEY_GEN_MECHANISM, 4);
  (PKCS11_CKA_LABEL, 0);
  (PKCS11_CKA_CERTIFICATE_TYPE, 4);
  (PKCS11_CKA_ISSUER, 0);
  (PKCS11_CKA_SERIAL_NUMBER, 0);
  (PKCS11_CKA_CERTIFICATE_CATEGORY, 4);
  (PKCS11_CKA_URL, 0);
  (PKCS11_CKA_HASH_OF_SUBJECT_PUBLIC_KEY, 0);
  (PKCS11_CKA_HASH_OF_ISSUER_PUBLIC_KEY, 0);
  (PKCS11_CKA_JAVA_MIDP_SECURITY_DOMAIN, 4);
  (PKCS11_CKA_NAME_HASH_ALGORITHM, 4);
  (PKCS11_CKA_CHECK_VALUE, 0);
  (PKCS11_CKA_WRAP_TEMPLATE, 0);
  (PKCS11_CKA_UNWRAP_TEMPLATE, 0);
  (PKCS11_CKA_DERIVE_TEMPLATE, 0);
  (PKCS11_CKA_START_DATE, 4);
  (PKCS11_CKA_END_DATE, 4);
  (PKCS11_CKA_OBJECT_ID, 0);
  (PKCS11_CKA_APPLICATION, 0);
  (PKCS11_CKA_MECHANISM_TYPE, 4);
  (PKCS11_CKA_ID, 0);
  (PKCS11_CKA_ALLOWED_MECHANISMS, 0);
  (PKCS11_CKA_EC_POINT, 0);
  (PKCS11_CKA_EC_PARAMS, 0);
  (PKCS11_CKA_MODULUS, 0);
  (PKCS11_CKA_MODULUS_BITS, 4);
  (PKCS11_CKA_PUBLIC_EXPONENT, 0);
  (PKCS11_CKA_PRIVATE_EXPONENT, 0);
  (PKCS11_CKA_PRIME_1, 0);
  (PKCS11_CKA_PRIME_2, 0);
  (PKCS11_CKA_EXPONENT_1, 0);
  (PKCS11_CKA_EXPONENT_2, 0);
  (PKCS11_CKA_COEFFICIENT, 0);
  (PKCS11_CKA_SUBJECT, 0);
  (PKCS11_CKA_PUBLIC_KEY_INFO, 0);
  (PKCS11_CKA_KEY_GEN_MECHANISM, 4);
  (PKCS11_CKA_TOKEN, 1);
  (PKCS11_CKA_PRIVATE, 1);
  (PKCS11_CKA_TRUSTED, 1);
  (PKCS11_CKA_SENSITIVE, 1);
  (PKCS11_CKA_ENCRYPT, 1);
  (PKCS11_CKA_DECRYPT, 1);
  (PKCS11_CKA_WRAP, 1);
  (PKCS11_CKA_UNWRAP, 1);
  (PKCS11_CKA_SIGN, 1);
  (PKCS11_CKA_SIGN_RECOVER, 1);
  (PKCS11_CKA_VERIFY, 1);
  (PKCS11_CKA_VERIFY_RECOVER, 1);
  (PKCS11_CKA_DERIVE, 1);
  (PKCS11_CKA_EXTRACTABLE, 1);
  (PKCS11_CKA_LOCAL, 1);
  (PKCS11_CKA_NEVER_EXTRACTABLE, 1);
  (PKCS11_CKA_ALWAYS_SENSITIVE, 1);
  (PKCS11_CKA_MODIFIABLE, 1);
  (PKCS11_CKA_COPYABLE, 1);
  (PKCS11_CKA_DESTROYABLE, 1);
  (PKCS11_CKA_ALWAYS_AUTHENTICATE, 1);
  (PKCS11_CKA_WRAP_WITH_TRUSTED, 1);
  (PKCS11_CKA_OPTEE_HIDDEN_EC_POINT, 0);
  (PKCS11_CKA_UNDEFINED_ID, 0)].

(** The boolean attributes, in the order of [enum boolprop_attr]. *)
Definition bpa : list Z := [
  PKCS11_CKA_TOKEN;
  PKCS11_CKA_PRIVATE;
  PKCS11_CKA_TRUSTED;
  PKCS11_CKA_SENSITIVE;
  PKCS11_CKA_ENCRYPT;
  PKCS11_CKA_DECRYPT;
  PKCS11_CKA_WRAP;
  PKCS11_CKA_UNWRAP;
  PKCS11_CKA_SIGN;
  PKCS11_CKA_SIGN_RECOVER;
  PKCS11_CKA_VERIFY;
  PKCS11_CKA_VERIFY_RECOVER;
  PKCS11_CKA_DERIVE;
  PKCS11_CKA_EXTRACTABLE;
  PKCS11_CKA_LOCAL;
  PKCS11_CKA_NEVER_EXTRACTABLE;
  PKCS11_CKA_ALWAYS_SENSITIVE;
  PKCS11_CKA_MODIFIABLE;
  PKCS11_CKA_COPYABLE;
  PKCS11_CKA_DESTROYABLE;
  PKCS11_CKA_ALWAYS_AUTHENTICATE;
  PKCS11_CKA_WRAP_WITH_TRUSTED].

Definition PKCS11_BOOLPROPS_MAX_COUNT : Z := 64.

(** The position in a table. *)
Fixpoint index_of (x : Z) (l : list Z) : option nat :=
  match l with
  | [] => None
  | y :: l => if y =? x then Some O else S <$> index_of x l
  end.

Definition pkcs11_attr2boolprop_shift (attr : Z) : Z :=
  match index_of attr bpa with Some n => Z.of_nat n | None => -1 end.

Definition pkcs11_attr_is_boolean (id : Z) : bool := 0 <=? pkcs11_attr2boolprop_shift id.

Fixpoint valid_id_loop (l : list (Z * Z)) (id size : Z) : bool :=
  match l with
  | [] => false
  | (i, s) :: l => if id =? i then (s =? 0) || (size =? s) else valid_id_loop l id size
  end.

Definition valid_pkcs11_attribute_id (id size : Z) : bool := valid_id_loop attr_ids id size.

(** 0 or the size of the type. *)
Definition pkcs11_attr_is_type (id : Z) : Z :=
  if (id =? PKCS11_CKA_KEY_TYPE) || (id =? PKCS11_CKA_MECHANISM_TYPE) || (id =? PKCS11_CKA_KEY_GEN_MECHANISM)
  then 4 else 0.

Definition pkcs11_attr_has_indirect_attributes (id : Z) : bool :=
  (id =? PKCS11_CKA_WRAP_TEMPLATE) || (id =? PKCS11_CKA_UNWRAP_TEMPLATE) || (id =? PKCS11_CKA_DERIVE_TEMPLATE).

Definition attribute_is_hidden (id : Z) : bool :=
  Z.land id PKCS11_CKA_OPTEE_FLAGS_HIDDEN =? PKCS11_CKA_OPTEE_FLAGS_HIDDEN.

(** ** The heap of the TA

    Only whether an allocation of so many bytes succeeds. *)
Class TaHeap := { ta_heap : Type; ta_alloc : Z → St ta_heap bool }.

Class TaHeapLaws `{TaHeap} := { ta_alloc_ok : ∀ n s, wp (ta_alloc n) s (λ _ _, True) }.

Section Attributes.
Context `{TaHeap}.

Definition PM : Type → Type := St ta_heap.

(** Reads and writes of an object. *)
Definition rd (off len : Z) (b : list Z) : PM (list Z) :=
  run (if inside off len b then Done (slice off len b) else Undef).

Definition rd32 (off : Z) (b : list Z) : PM Z := l ← rd off 4 b; mret (of_le l).

Definition wr (off : Z) (data b : list Z) : PM (list Z) :=
  run (if inside off (Z.of_nat (length data)) b then Done (put_bytes off data b) else Undef).

Definition wr32 (off v : Z) (b : list Z) : PM (list Z) := wr off (le_bytes 4 v) b.

(** The fields of [struct obj_attrs]. *)
Definition attrs_size (b : list Z) : PM Z := rd32 0 b.
Definition attrs_count (b : list Z) : PM Z := rd32 4 b.

Definition sizeof_obj_attrs : Z := 8.
Definition sizeof_attribute_head : Z := 8.

(** The identifier and the size of [struct pkcs11_attribute_head]. *)
Definition attr_head (off : Z) (b : list Z) : PM (Z * Z) :=
  h ← rd off sizeof_attribute_head b;
  mret (of_le (take 4 h), of_le (drop 4 h)).

(** ** Building *)

(** The result, [*bstart] and [*blen]. *)
Definition serialize (b : list Z) (blen : Z) (data : list Z) : PM (Z * list Z * Z) :=
  let nlen := blen + Z.of_nat (length data) in
  if 2 ^ 64 <=? nlen then mret (PKCS11_CKR_ARGUMENTS_BAD, b, blen) else
  ok ← ta_alloc nlen;
  if negb ok then mret (PKCS11_CKR_DEVICE_MEMORY, b, blen) else
  old ← rd 0 blen b;
  mret (PKCS11_CKR_OK, old ++ data, nlen).

(** The result and [*head]. *)
Definition init_attributes_head : PM (Z * option (list Z)) :=
  ok ← ta_alloc sizeof_obj_attrs;
  mret (if ok : bool then (PKCS11_CKR_OK, Some (replicate 8 0)) else (PKCS11_CKR_DEVICE_MEMORY, None)).

Definition add_attribute (head : list Z) (attribute : Z) (data : list Z) : PM (Z * list Z) :=
  size ← attrs_size head;
  '(rc, b, blen) ← serialize head (sizeof_obj_attrs + size) (le_bytes 4 (u32 attribute));
  if negb (rc =? 0) then mret (rc, b) else
  '(rc, b, blen) ← serialize b blen (le_bytes 4 (u32 (Z.of_nat (length data))));
  if negb (rc =? 0) then mret (rc, b) else
  '(rc, b, blen) ← serialize b blen data;
  if negb (rc =? 0) then mret (rc, b) else
  size ← attrs_size b;
  b ← wr32 0 (u32 (size + (8 + Z.of_nat (length data)))) b;
  count ← attrs_count b;
  b ← wr32 4 (u32 (count + 1)) b;
  mret (rc, b).

(** ** Removing *)

Fixpoint remove_loop (fuel : nat) (head : list Z) (attribute : Z) (empty : bool) (cur end_ : Z)
  : PM (Z * list Z) :=
  match fuel with
  | O => out_of_fuel
  | S fuel =>
      if negb (cur <? end_) then mret (PKCS11_RV_NOT_FOUND, head) else
      '(id, size) ← attr_head cur head;
      let next_off := sizeof_attribute_head + size in
      if negb (id =? attribute) then remove_loop fuel head attribute empty (cur + next_off) end_ else
      if empty && negb (size =? 0) then mret (PKCS11_CKR_FUNCTION_FAILED, head) else
      rest ← rd (cur + next_off) (u64 (end_ - (cur + next_off))) head;
      b ← wr cur rest head;
      count ← attrs_count b;
      b ← wr32 4 (u32 (count - 1)) b;
      sz ← attrs_size b;
      b ← wr32 0 (u32 (sz - next_off)) b;
      mret (PKCS11_CKR_OK, b)
  end.

Definition remove_attribute_ (head : list Z) (attribute : Z) (empty : bool) : PM (Z * list Z) :=
  size ← attrs_size head;
  remove_loop (S (length head)) head attribute empty sizeof_obj_attrs (sizeof_obj_attrs + size).

Definition remove_empty_attribute (head : list Z) (attribute : Z) : PM (Z * list Z) :=
  remove_attribute_ head attribute true.

(** ** Searching *)

(** The positions and sizes of the values found, and where the loop ends; an
    empty value has no position. *)
Fixpoint ptrs_loop (fuel : nat) (head : list Z) (attribute max_found cur end_ found : Z)
  : PM (list (option Z * Z) * Z * Z) :=
  match fuel with
  | O => out_of_fuel
  | S fuel =>
      if negb (cur <? end_) then mret ([], found, cur) else
      '(id, size) ← attr_head cur head;
      let next := cur + (sizeof_attribute_head + size) in
      if negb (id =? attribute) then ptrs_loop fuel head attribute max_found next end_ found else
      let found := found + 1 in
      if max_found =? 0 then ptrs_loop fuel head attribute max_found next end_ found else
      let p := (if size =? 0 then None else Some (cur + sizeof_attribute_head), size) in
      if found =? max_found then mret ([p], found, cur) else
      '(l, found, cur) ← ptrs_loop fuel head attribute max_found next end_ found;
      mret (p :: l, found, cur)
  end.

(** The values found and [*count]. *)
Definition get_attribute_ptrs (head : list Z) (attribute count : Z) : PM (list (option Z * Z) * Z) :=
  size ← attrs_size head;
  let end_ := sizeof_obj_attrs + size in
  '(l, found, cur) ← ptrs_loop (S (length head)) head attribute count sizeof_obj_attrs end_ 0;
  _ ← st_assert (cur <=? end_);
  mret (l, found).

(** The result, and the position and size of the value. *)
Definition get_attribute_ptr (head : list Z) (attribute : Z) : PM (Z * (option Z * Z)) :=
  '(l, count) ← get_attribute_ptrs head attribute 1;
  if count =? 0 then mret (PKCS11_RV_NOT_FOUND, (None, 0)) else
  if negb (count =? 1) then mret (PKCS11_CKR_GENERAL_ERROR, (None, 0)) else
  match l with
  | p :: _ => mret (PKCS11_CKR_OK, p)
  | [] => undef
  end.

(** The bytes at a position; of an empty value there are none. *)
Definition value_at (p : option Z) (size : Z) (b : list Z) : PM (list Z) :=
  match p with Some off => rd off size b | None => if size =? 0 then mret [] else undef end.

(** [attr_size] is [None] for NULL. The result, what is copied to [attr] if
    anything, and [*attr_size]. *)
Definition get_attribute (head : list Z) (attribute : Z) (attr_size : option Z)
  : PM (Z * option (list Z) * Z) :=
  '(rc, (p, size)) ← get_attribute_ptr head attribute;
  if negb (rc =? 0) then mret (rc, None, default 0 attr_size) else
  match attr_size with
  | Some n => if n <? size then mret (PKCS11_CKR_BUFFER_TOO_SMALL, None, size) else
                v ← value_at p size head; mret (PKCS11_CKR_OK, Some v, size)
  | None => v ← value_at p size head; mret (PKCS11_CKR_OK, Some v, 0)
  end.

(** A 32-bit variable that is 0 before [v] is copied to it. *)
Definition into_u32 (v : list Z) : Z := of_le (take 4 (v ++ [0; 0; 0; 0])).

(** The result and the value. *)
Definition get_u32_attribute (head : list Z) (attribute attr : Z) : PM (Z * Z) :=
  '(rc, v, size) ← get_attribute head attribute (Some 4);
  let x := match v with Some v => of_le (v ++ drop (length v) (le_bytes 4 attr)) | None => attr end in
  if (rc =? 0) && negb (size =? 4) then mret (PKCS11_CKR_GENERAL_ERROR, x) else mret (rc, x).

Definition get_class (head : list Z) : PM Z :=
  '(rc, v, _) ← get_attribute head PKCS11_CKA_CLASS (Some 4);
  mret (if negb (rc =? 0) then PKCS11_CKO_UNDEFINED_ID else into_u32 (default [] v)).

Definition get_key_type (head : list Z) : PM Z :=
  '(rc, v, _) ← get_attribute head PKCS11_CKA_KEY_TYPE (Some 4);
  mret (if negb (rc =? 0) then PKCS11_CKK_UNDEFINED_ID else into_u32 (default [] v)).

Definition get_certificate_type (head : list Z) : PM Z :=
  '(rc, type) ← get_u32_attribute head PKCS11_CKA_CERTIFICATE_TYPE 0;
  mret (if negb (rc =? 0) then PKCS11_CKC_UNDEFINED_ID else type).

Definition get_mechanism_type (head : list Z) : PM Z :=
  '(rc, v, _) ← get_attribute head PKCS11_CKA_MECHANISM_TYPE (Some 4);
  mret (if negb (rc =? 0) then PKCS11_CKM_UNDEFINED_ID else into_u32 (default [] v)).

Definition get_bool (head : list Z) (attribute : Z) : PM bool :=
  '(rc, v, _) ← get_attribute head attribute (Some 1);
  if rc =? PKCS11_RV_NOT_FOUND then mret false else
  _ ← st_assert (rc =? PKCS11_CKR_OK);
  mret (negb (of_le (default [] v) =? 0)).

(** ** Changing and comparing *)

Definition set_attribute (head : list Z) (attribute : Z) (data : list Z) : PM (Z * list Z) :=
  '(rc, b) ← remove_attribute_ head attribute false;
  if negb (rc =? PKCS11_CKR_OK) && negb (rc =? PKCS11_RV_NOT_FOUND) then mret (rc, b) else
  add_attribute b attribute data.

Fixpoint modify_loop (fuel : nat) (dst head : list Z) (cur end_ : Z) : PM (Z * list Z) :=
  match fuel with
  | O => out_of_fuel
  | S fuel =>
      if negb (cur <? end_) then mret (PKCS11_CKR_OK, dst) else
      '(id, size) ← attr_head cur head;
      data ← (if size =? 0 then mret [] else rd (cur + sizeof_attribute_head) size head);
      '(rc, dst) ← set_attribute dst id data;
      if negb (rc =? 0) then mret (rc, dst) else
      modify_loop fuel dst head (cur + (sizeof_attribute_head + size)) end_
  end.

Definition modify_attributes_list (dst head : list Z) : PM (Z * list Z) :=
  size ← attrs_size head;
  modify_loop (S (length head)) dst head sizeof_obj_attrs (sizeof_obj_attrs + size).

(** [TEE_MemCompare] of the value at [p] and the bytes at [off] of [ref]. *)
Definition same_value (candidate : list Z) (p : option Z) (size off : Z) (ref : list Z) : PM bool :=
  v ← value_at p size candidate;
  r ← rd off size ref;
  mret (bool_decide (v = r)).

(** [n] attributes of the reference are left, from [off] on. *)
Fixpoint match_loop (fuel : nat) (candidate ref : list Z) (n off : Z) : PM bool :=
  match fuel with
  | O => out_of_fuel
  | S fuel =>
      if n =? 0 then mret true else
      '(id, size) ← attr_head off ref;
      if attribute_is_hidden id then mret false else
      '(rc, (p, sz)) ← get_attribute_ptr candidate id;
      if negb (rc =? 0) || (match p with None => true | Some _ => false end) || negb (sz =? size)
      then mret false else
      same ← same_value candidate p sz (off + sizeof_attribute_head) ref;
      if negb same then mret false else
      match_loop fuel candidate ref (n - 1) (off + (sizeof_attribute_head + size))
  end.

Definition attributes_match_reference (candidate ref : list Z) : PM bool :=
  count ← attrs_count ref;
  if count =? 0 then mret true else
  match_loop (S (length ref)) candidate ref count sizeof_obj_attrs.

Fixpoint match_add_loop (fuel : nat) (head ref : list Z) (n off : Z) : PM (Z * list Z) :=
  match fuel with
  | O => out_of_fuel
  | S fuel =>
      if n =? 0 then mret (PKCS11_CKR_OK, head) else
      '(id, size) ← attr_head off ref;
      '(rc, (p, sz)) ← get_attribute_ptr head id;
      let next := off + (sizeof_attribute_head + size) in
      if rc =? PKCS11_RV_NOT_FOUND then
        data ← rd (off + sizeof_attribute_head) size ref;
        '(rc, head) ← add_attribute head id data;
        if negb (rc =? 0) then mret (rc, head) else match_add_loop fuel head ref (n - 1) next
      else if negb (rc =? 0) || (match p with None => true | Some _ => false end) || negb (sz =? size)
      then mret (PKCS11_CKR_TEMPLATE_INCONSISTENT, head) else
      same ← same_value head p sz (off + sizeof_attribute_head) ref;
      if negb same then mret (PKCS11_CKR_TEMPLATE_INCONSISTENT, head) else
      match_add_loop fuel head ref (n - 1) next
  end.

Definition attributes_match_add_reference (head ref : list Z) : PM (Z * list Z) :=
  count ← attrs_count ref;
  if count =? 0 then mret (PKCS11_CKR_OK, head) else
  match_add_loop (S (length ref)) head ref count sizeof_obj_attrs.

End Attributes.
