(* ===== verification/Pkcs11AttrProofs.v ===== *)
(** What a serialized attribute list of the PKCS#11 TA holds, and the rules of the
    loops of ta/pkcs11/src/attributes.c over it: the operations on a serialized
    list do to its contents what the reference functions of this file do to a
    list. *)
From S2P Require Import Prelude State Bytes Pkcs11Attr.

#[local] Ltac Zify.zify_post_hook ::= Z.div_mod_to_equations.

(** ** The contents of a list *)

Record pattr := mk_pa { pa_id : Z; pa_data : list Z }.

#[global] Instance pattr_eq_dec : EqDecision pattr.
Proof. solve_decision. Defined.

Definition pa_size (a : pattr) : Z := Z.of_nat (length (pa_data a)).

Definition pa_bytes (a : pattr) : list Z := le_bytes 4 (pa_id a) ++ le_bytes 4 (pa_size a) ++ pa_data a.

Definition pbody (l : list pattr) : list Z := concat (pa_bytes <$> l).

Definition psize (l : list pattr) : Z := Z.of_nat (length (pbody l)).

Record pattr_ok (a : pattr) : Prop := {
  pa_ok_id : 0 ≤ pa_id a < 2 ^ 32;
  pa_ok_size : pa_size a < 2 ^ 32;
}.

(** What the size field can hold. *)
Record attrs_ok (l : list pattr) : Prop := {
  attrs_ok_all : Forall pattr_ok l;
  attrs_ok_size : psize l < 2 ^ 32;
}.

(** The object: head, attributes, and what may follow them. *)
Definition attrs_mem (l : list pattr) (tail : list Z) : list Z :=
  le_bytes 4 (psize l) ++ le_bytes 4 (Z.of_nat (length l)) ++ pbody l ++ tail.

(** The attributes with an identifier; the first one. *)
Definition with_id (attribute : Z) (l : list pattr) : list pattr :=
  filter (λ a, pa_id a = attribute) l.

Definition find_id (attribute : Z) (l : list pattr) : option pattr := head (with_id attribute l).

(** The list without the first attribute with an identifier. *)
Fixpoint drop_id (attribute : Z) (l : list pattr) : list pattr :=
  match l with
  | [] => []
  | a :: l => if decide (pa_id a = attribute) then l else a :: drop_id attribute l
  end.

(** ** Sizes *)

Lemma length_pa_bytes a : Z.of_nat (length (pa_bytes a)) = 8 + pa_size a.
Proof. unfold pa_bytes, pa_size. rewrite !length_app, !le_bytes_length. lia. Qed.

Lemma pa_size_nonneg a : 0 ≤ pa_size a.
Proof. unfold pa_size. lia. Qed.

Lemma pbody_app a b : pbody (a ++ b) = pbody a ++ pbody b.
Proof. unfold pbody. by rewrite fmap_app, concat_app. Qed.

Lemma pbody_cons a l : pbody (a :: l) = pa_bytes a ++ pbody l.
Proof. done. Qed.

Lemma psize_app a b : psize (a ++ b) = psize a + psize b.
Proof. unfold psize. rewrite pbody_app, length_app. lia. Qed.

Lemma psize_cons a l : psize (a :: l) = 8 + pa_size a + psize l.
Proof. unfold psize. rewrite pbody_cons, length_app, Nat2Z.inj_add, length_pa_bytes. lia. Qed.

Lemma psize_count l : 8 * Z.of_nat (length l) ≤ psize l.
Proof.
  induction l as [|a l IH]; [done|]. rewrite psize_cons. pose proof (pa_size_nonneg a). simpl length. lia.
Qed.

Lemma length_attrs_mem l tail : Z.of_nat (length (attrs_mem l tail)) = 8 + psize l + Z.of_nat (length tail).
Proof. unfold attrs_mem, psize. rewrite !length_app, !le_bytes_length. lia. Qed.

Lemma attrs_ok_app a b : attrs_ok (a ++ b) → attrs_ok a ∧ attrs_ok b.
Proof.
  intros [F S]. rewrite psize_app in S. apply Forall_app in F as [Fa Fb].
  pose proof (psize_count a). pose proof (psize_count b). split; constructor; auto; lia.
Qed.

Lemma attrs_ok_cons a l : attrs_ok (a :: l) → pattr_ok a ∧ attrs_ok l.
Proof.
  intros A. destruct (attrs_ok_app [a] l A) as [[F _] ?]. split; [by inversion F|done].
Qed.

Lemma drop_id_split attribute l :
  match find_id attribute l with
  | Some a => ∃ pre post, l = pre ++ a :: post ∧ drop_id attribute l = pre ++ post ∧ pa_id a = attribute ∧
                Forall (λ b, pa_id b ≠ attribute) pre
  | None => drop_id attribute l = l ∧ Forall (λ b, pa_id b ≠ attribute) l
  end.
Proof.
  unfold find_id, with_id. induction l as [|a l IH]; [by repeat constructor|]. rewrite filter_cons.
  simpl drop_id. destruct (decide (pa_id a = attribute)) as [E|N]; simpl.
  - exists [], l. by repeat constructor.
  - destruct (head _) as [c|].
    + destruct IH as (pre & post & -> & -> & E & F). exists (a :: pre), post. by repeat constructor.
    + destruct IH as [-> F]. by repeat constructor.
Qed.

Lemma find_id_some attribute l a : find_id attribute l = Some a → a ∈ l ∧ pa_id a = attribute.
Proof.
  intros E. unfold find_id in E. destruct (with_id attribute l) as [|b r] eqn:W; simplify_eq/=.
  assert (In : a ∈ with_id attribute l) by (rewrite W; left).
  unfold with_id in In. apply list_elem_of_filter in In as [? ?]. done.
Qed.

(** ** Reads and writes *)

Section Rules.
Context `{TaHeap}.

Lemma wp_rd off len b s (Q : list Z → ta_heap → Prop) :
  0 ≤ off → 0 ≤ len → off + len ≤ Z.of_nat (length b) → Q (slice off len b) s → wp (rd off len b) s Q.
Proof. intros. eapply wp_run; [by rewrite inside_true by done|done]. Qed.

Lemma wp_rd_mid off len a x c s (Q : list Z → ta_heap → Prop) :
  off = Z.of_nat (length a) → len = Z.of_nat (length x) → Q x s → wp (rd off len (a ++ x ++ c)) s Q.
Proof.
  intros -> -> HQ. apply wp_rd; [lia|lia|rewrite !length_app; lia|]. by rewrite slice_mid by done.
Qed.

Lemma wp_rd32_mid off z a c s (Q : Z → ta_heap → Prop) :
  off = Z.of_nat (length a) → 0 ≤ z < 2 ^ 32 → Q z s → wp (rd32 off (a ++ le_bytes 4 z ++ c)) s Q.
Proof.
  intros E Hz HQ. unfold rd32. st_step. apply wp_rd_mid; [done|done|]. st_step. by rewrite of_le_bytes.
Qed.

Lemma wp_wr_mid off data a x c s (Q : list Z → ta_heap → Prop) :
  off = Z.of_nat (length a) → length x = length data → Q (a ++ data ++ c) s →
  wp (wr off data (a ++ x ++ c)) s Q.
Proof.
  intros -> L HQ. eapply wp_run; [rewrite inside_true; [done|lia|lia|rewrite !length_app; lia]|].
  by rewrite put_bytes_app.
Qed.

Lemma wp_attrs_size l tail s (Q : Z → ta_heap → Prop) :
  attrs_ok l → Q (psize l) s → wp (attrs_size (attrs_mem l tail)) s Q.
Proof.
  intros [_ S] HQ. pose proof (psize_count l). apply (wp_rd32_mid 0 _ []); [done|lia|done].
Qed.

Lemma wp_attrs_count l tail s (Q : Z → ta_heap → Prop) :
  attrs_ok l → Q (Z.of_nat (length l)) s → wp (attrs_count (attrs_mem l tail)) s Q.
Proof.
  intros [_ S] HQ. pose proof (psize_count l). unfold attrs_mem. apply wp_rd32_mid; [done|lia|done].
Qed.

(** The head of an attribute. *)
Lemma wp_attr_head off x a c s (Q : Z * Z → ta_heap → Prop) :
  off = Z.of_nat (length a) → pattr_ok x → Q (pa_id x, pa_size x) s →
  wp (attr_head off (a ++ pa_bytes x ++ c)) s Q.
Proof.
  intros E [Hi Hs] HQ. pose proof (pa_size_nonneg x). unfold attr_head, pa_bytes. st_step.
  rewrite (app_assoc (le_bytes 4 (pa_id x))), <- !app_assoc, (app_assoc (le_bytes 4 (pa_id x))).
  apply wp_rd_mid; [done|done|]. st_step.
  rewrite take_app_length', drop_app_length' by (by rewrite le_bytes_length).
  by rewrite !of_le_bytes by lia.
Qed.

(** The bytes before an attribute of the list. *)
Definition up_to (l : list pattr) (pre : list pattr) : list Z :=
  le_bytes 4 (psize l) ++ le_bytes 4 (Z.of_nat (length l)) ++ pbody pre.

Lemma length_up_to l pre : Z.of_nat (length (up_to l pre)) = 8 + psize pre.
Proof. unfold up_to, psize. rewrite !length_app, !le_bytes_length. lia. Qed.

Lemma attrs_mem_split l tail pre a post :
  l = pre ++ a :: post →
  attrs_mem l tail = up_to l pre ++ pa_bytes a ++ pbody post ++ tail.
Proof. intros E. unfold attrs_mem, up_to. rewrite E at 3. rewrite pbody_app, pbody_cons, <- !app_assoc. done. Qed.

(** One round of a loop over the list: the head of the attribute at hand. *)
Lemma wp_head_at l tail pre a post off s (Q : Z * Z → ta_heap → Prop) :
  l = pre ++ a :: post → off = 8 + psize pre → attrs_ok l → Q (pa_id a, pa_size a) s →
  wp (attr_head off (attrs_mem l tail)) s Q.
Proof.
  intros E -> [F _] HQ. rewrite (attrs_mem_split _ _ _ _ _ E). apply wp_attr_head; [|subst l|done].
  - by rewrite length_up_to.
  - apply Forall_app in F as [_ F]. by inversion F.
Qed.

(** The value of the attribute at hand. *)
Lemma wp_value_at l tail pre a post off len s (Q : list Z → ta_heap → Prop) :
  l = pre ++ a :: post → off = 8 + psize pre + 8 → len = pa_size a → Q (pa_data a) s →
  wp (rd off len (attrs_mem l tail)) s Q.
Proof.
  intros E -> -> HQ. rewrite (attrs_mem_split _ _ _ _ _ E). unfold pa_bytes.
  rewrite <- !app_assoc, (app_assoc (le_bytes 4 (pa_id a))), (app_assoc (up_to l pre)).
  apply wp_rd_mid; [|done|done].
  rewrite !length_app, !le_bytes_length, !Nat2Z.inj_add, length_up_to. lia.
Qed.

Lemma fuel_enough l tail : (length l < S (length (attrs_mem l tail)))%nat.
Proof.
  pose proof (psize_count l). pose proof (length_attrs_mem l tail). lia.
Qed.

End Rules.

(** ** Reference *)

(** What a pointer and a size found in an object stand for. *)
Definition refers (l : list pattr) (p : option Z * Z) (a : pattr) : Prop :=
  ∃ pre post, l = pre ++ a :: post ∧
    p = (if pa_size a =? 0 then None else Some (8 + psize pre + 8), pa_size a).

Definition get_ref (l : list pattr) (attribute : Z) (attr_size : option Z) : Z * option (list Z) * Z :=
  match find_id attribute l, attr_size with
  | None, _ => (PKCS11_RV_NOT_FOUND, None, default 0 attr_size)
  | Some a, None => (PKCS11_CKR_OK, Some (pa_data a), 0)
  | Some a, Some n =>
      if n <? pa_size a then (PKCS11_CKR_BUFFER_TOO_SMALL, None, pa_size a)
      else (PKCS11_CKR_OK, Some (pa_data a), pa_size a)
  end.

(** The list with one attribute set. *)
Definition set_ref (l : list pattr) (a : pattr) : list pattr := drop_id (pa_id a) l ++ [a].

(** A value is there and is not empty. *)
Definition matches (l : list pattr) (r : pattr) : bool :=
  match find_id (pa_id r) l with
  | Some a => bool_decide (pa_data a = pa_data r) && negb (pa_size a =? 0)
  | None => false
  end.

Fixpoint match_add_ref (l ref : list pattr) : Z * list pattr :=
  match ref with
  | [] => (PKCS11_CKR_OK, l)
  | r :: ref =>
      if decide (find_id (pa_id r) l = None) then match_add_ref (l ++ [r]) ref
      else if matches l r then match_add_ref l ref
      else (PKCS11_CKR_TEMPLATE_INCONSISTENT, l)
  end.

(** What an operation that allocates leaves: the result and the list of the
    reference, or no memory and some well-formed list. *)
Definition left_as (want : Z * list pattr) (r : Z * list Z) : Prop :=
  (r.1 = want.1 ∧ ∃ tail, r.2 = attrs_mem want.2 tail) ∨
  (r.1 = PKCS11_CKR_DEVICE_MEMORY ∧ ∃ l tail, attrs_ok l ∧ r.2 = attrs_mem l tail).

(** Goes on after the test of a result. *)
Ltac rc_step := cbv beta iota; cbn [Z.eqb negb PKCS11_CKR_OK PKCS11_CKR_DEVICE_MEMORY]; cbv iota.

Section Ops.
Context `{TaHeapLaws}.

(** ** Searching *)

Lemma wp_value_of l tail p size a s (Q : list Z → ta_heap → Prop) :
  refers l (p, size) a → Q (pa_data a) s → wp (value_at p size (attrs_mem l tail)) s Q.
Proof.
  intros (pre & post & E & [= -> ->]) HQ. unfold value_at. destruct (Z.eqb_spec (pa_size a) 0) as [Z|N].
  - st_step. unfold pa_size in Z. destruct (pa_data a); [done|]. simpl in Z. lia.
  - by eapply wp_value_at.
Qed.

(** What the search loop finds from the attribute after [pre] on. *)
Definition found_by (l suf : list pattr) (attribute max_found found : Z)
    (r : list (option Z * Z) * Z * Z) : Prop :=
  r.2 ≤ 8 + psize l ∧
  if max_found =? 0 then r.1.1 = [] ∧ r.1.2 = found + Z.of_nat (length (with_id attribute suf))
  else Forall2 (refers l) r.1.1 (take (Z.to_nat (max_found - found)) (with_id attribute suf)) ∧
       r.1.2 = found + Z.of_nat (length r.1.1).

Lemma ptrs_loop_spec l tail attribute max_found s : attrs_ok l → ∀ suf fuel pre found,
  l = pre ++ suf → (length suf < fuel)%nat → max_found = 0 ∨ found < max_found → 0 ≤ max_found →
  wp (ptrs_loop fuel (attrs_mem l tail) attribute max_found (8 + psize pre) (8 + psize l) found) s
    (λ r s', s' = s ∧ found_by l suf attribute max_found found r).
Proof.
  intros Hl. induction suf as [|a suf IH]; intros [|fuel] pre found E Hf Hm Hpos; simpl in Hf; try lia;
    simpl ptrs_loop.
  { subst l. rewrite app_nil_r. rewrite Z.ltb_irrefl. st_step. split; [done|].
    unfold found_by. simpl. split; [lia|]. destruct (max_found =? 0); [split; [done|lia]|].
    unfold with_id. rewrite filter_nil, take_nil. split; [constructor|lia]. }
  assert (Lt : 8 + psize pre < 8 + psize l).
  { subst l. rewrite psize_app, psize_cons. pose proof (pa_size_nonneg a). pose proof (psize_count suf). lia. }
  destruct (Z.ltb_spec (8 + psize pre) (8 + psize l)); [|lia]. cbn [negb].
  st_step. eapply wp_head_at; [done|done|done|]. cbv beta iota.
  assert (Next : 8 + psize pre + (sizeof_attribute_head + pa_size a) = 8 + psize (pre ++ [a])).
  { rewrite psize_app, psize_cons. unfold sizeof_attribute_head. pose proof (psize_count []).
    change (psize []) with 0. lia. }
  assert (E' : l = (pre ++ [a]) ++ suf) by (by rewrite <- app_assoc).
  destruct (Z.eqb_spec (pa_id a) attribute) as [Ea|Na]; cbn [negb].
  2:{ rewrite Next. eapply wp_mono; [apply IH; [done|lia|done|done]|].
      intros r s' [-> F]. split; [done|]. unfold found_by, with_id in *. by rewrite filter_cons, decide_False. }
  destruct (Z.eqb_spec max_found 0) as [->|Nm].
  { rewrite Next. eapply wp_mono; [apply IH; [done|lia|by left|done]|].
    intros r s' [-> [F1 [F2 F3]]]. split; [done|]. unfold found_by, with_id in *. simpl.
    rewrite filter_cons, decide_True by done. simpl length. split_and!; [lia|done|lia]. }
  assert (Here : refers l (if pa_size a =? 0 then None else Some (8 + psize pre + sizeof_attribute_head), pa_size a) a).
  { exists pre, suf. by split. }
  destruct (Z.eqb_spec (found + 1) max_found) as [Em|Nem].
  - st_step. split; [done|]. unfold found_by. apply Z.eqb_neq in Nm. rewrite Nm. simpl. split; [lia|].
    unfold with_id. rewrite filter_cons, decide_True by done.
    replace (Z.to_nat (max_found - found)) with 1%nat by lia. simpl. rewrite take_0. split; [by repeat constructor|lia].
  - st_step. rewrite Next. eapply wp_mono; [apply IH; [done|lia|lia|done]|].
    intros [[ps f] cur] s' [-> [F1 F2]]. apply Z.eqb_neq in Nm. rewrite Nm in F2. destruct F2 as [F2 F3]. simpl in *.
    st_step. split; [done|]. unfold found_by. rewrite Nm. simpl. split; [lia|].
    unfold with_id in *. rewrite filter_cons, decide_True by done.
    replace (Z.to_nat (max_found - found)) with (S (Z.to_nat (max_found - (found + 1)))) by lia. simpl.
    split; [by constructor|lia].
Qed.

Lemma wp_get_attribute_ptrs l tail attribute count s (Q : list (option Z * Z) * Z → ta_heap → Prop) :
  attrs_ok l → 0 ≤ count →
  (∀ ps n, (if count =? 0 then ps = [] ∧ n = Z.of_nat (length (with_id attribute l))
            else Forall2 (refers l) ps (take (Z.to_nat count) (with_id attribute l)) ∧
                 n = Z.of_nat (length ps)) → Q (ps, n) s) →
  wp (get_attribute_ptrs (attrs_mem l tail) attribute count) s Q.
Proof.
  intros Hl Hc HQ. unfold get_attribute_ptrs. st_step. apply wp_attrs_size; [done|]. st_step.
  eapply wp_mono.
  - change sizeof_obj_attrs with (8 + psize []) at 1. apply (ptrs_loop_spec l tail attribute count s Hl l);
      [done|apply fuel_enough|lia|done].
  - intros [[ps n] cur] s' [-> [F1 F2]]. simpl in *. st_step. unfold sizeof_obj_attrs.
    apply wp_assert; [by apply Z.leb_le|]. st_step. apply HQ.
    destruct (count =? 0); [done|]. by rewrite Z.sub_0_r, Z.add_0_l in F2.
Qed.

(** The first attribute with an identifier. *)
Lemma wp_get_attribute_ptr l tail attribute s (Q : Z * (option Z * Z) → ta_heap → Prop) :
  attrs_ok l →
  match find_id attribute l with
  | Some a => ∀ p, refers l p a → Q (PKCS11_CKR_OK, p) s
  | None => Q (PKCS11_RV_NOT_FOUND, (None, 0)) s
  end →
  wp (get_attribute_ptr (attrs_mem l tail) attribute) s Q.
Proof.
  intros Hl HQ. unfold get_attribute_ptr. st_step. apply wp_get_attribute_ptrs; [done|lia|].
  intros ps n [F ->]. simpl Z.to_nat in F. unfold find_id in HQ.
  destruct (with_id attribute l) as [|a r]; simpl in F, HQ.
  - inversion F; subst. simpl. by st_step.
  - rewrite take_0 in F. inversion F as [|p ? ps' ? Hp F']; subst. inversion F'; subst. simpl. st_step. by apply HQ.
Qed.

Lemma wp_get_attribute l tail attribute attr_size s (Q : Z * option (list Z) * Z → ta_heap → Prop) :
  attrs_ok l → Q (get_ref l attribute attr_size) s →
  wp (get_attribute (attrs_mem l tail) attribute attr_size) s Q.
Proof.
  intros Hl HQ. unfold get_attribute, get_ref in *. st_step. apply wp_get_attribute_ptr; [done|].
  destruct (find_id attribute l) as [a|]; [|simpl; by st_step]. intros [p size] R.
  assert (size = pa_size a) as -> by (by destruct R as (? & ? & _ & [= _ ->])). simpl.
  destruct attr_size as [n|]; [destruct (n <? pa_size a); [by st_step|]|];
    st_step; (eapply wp_value_of; [done|]); by st_step.
Qed.

(** ** Removing *)

(** The update of size and count that ends an addition and a removal. *)
Lemma wp_wr32_size size count z body s (Q : list Z → ta_heap → Prop) :
  Q (le_bytes 4 z ++ le_bytes 4 count ++ body) s →
  wp (wr32 0 z (le_bytes 4 size ++ le_bytes 4 count ++ body)) s Q.
Proof. intros HQ. apply (wp_wr_mid 0 _ []); [done|by rewrite !le_bytes_length|done]. Qed.

Lemma wp_wr32_count size count z body s (Q : list Z → ta_heap → Prop) :
  Q (le_bytes 4 size ++ le_bytes 4 z ++ body) s →
  wp (wr32 4 z (le_bytes 4 size ++ le_bytes 4 count ++ body)) s Q.
Proof. intros HQ. apply wp_wr_mid; [done|by rewrite !le_bytes_length|done]. Qed.

(** The bytes after an attribute moved over it. *)
Lemma wp_move_up {A} l tail pre a post (k : list Z → PM A) s (Q : A → ta_heap → Prop) :
  l = pre ++ a :: post → attrs_ok l →
  (∀ tail', wp (k (le_bytes 4 (psize l) ++ le_bytes 4 (Z.of_nat (length l)) ++ pbody (pre ++ post) ++ tail')) s Q) →
  wp (rest ← rd (8 + psize pre + (8 + pa_size a)) (u64 (8 + psize l - (8 + psize pre + (8 + pa_size a))))
               (attrs_mem l tail);
      b ← wr (8 + psize pre) rest (attrs_mem l tail);
      k b) s Q.
Proof.
  intros E Hl HQ. pose proof (attrs_ok_size _ Hl) as S. rewrite (attrs_mem_split _ _ _ _ _ E).
  replace (8 + psize l - (8 + psize pre + (8 + pa_size a))) with (psize post)
    by (rewrite E, psize_app, psize_cons; lia).
  assert (0 ≤ psize post ≤ psize l).
  { rewrite E, psize_app, psize_cons. pose proof (psize_count pre). pose proof (psize_count post).
    pose proof (pa_size_nonneg a). lia. }
  rewrite u64_id by lia. st_step. rewrite (app_assoc (up_to l pre) (pa_bytes a)).
  apply wp_rd_mid; [rewrite length_app, Nat2Z.inj_add, length_up_to, length_pa_bytes; lia|done|].
  set (x := pa_bytes a ++ pbody post).
  assert (Lx : (length (pbody post) ≤ length x)%nat) by (unfold x; rewrite length_app; lia).
  replace ((up_to l pre ++ pa_bytes a) ++ pbody post ++ tail)
    with (up_to l pre ++ take (length (pbody post)) x ++ drop (length (pbody post)) x ++ tail).
  2:{ rewrite (app_assoc (take _ _)), take_drop. unfold x. by rewrite <- !app_assoc. }
  st_step. apply wp_wr_mid; [by rewrite length_up_to|rewrite length_take; lia|].
  unfold up_to. rewrite <- !app_assoc, (app_assoc (pbody pre)), <- pbody_app. apply HQ.
Qed.

Lemma remove_loop_spec l tail attribute empty s (Q : Z * list Z → ta_heap → Prop) : attrs_ok l →
  ∀ suf fuel pre, l = pre ++ suf → (length suf < fuel)%nat →
  match find_id attribute suf with
  | None => Q (PKCS11_RV_NOT_FOUND, attrs_mem l tail) s
  | Some a =>
      if empty && negb (pa_size a =? 0) then Q (PKCS11_CKR_FUNCTION_FAILED, attrs_mem l tail) s
      else ∀ tail', Q (PKCS11_CKR_OK, attrs_mem (pre ++ drop_id attribute suf) tail') s
  end →
  wp (remove_loop fuel (attrs_mem l tail) attribute empty (8 + psize pre) (8 + psize l)) s Q.
Proof.
  intros Hl. induction suf as [|a suf IH]; intros [|fuel] pre E Hf HQ; simpl in Hf; try lia; simpl remove_loop.
  { subst l. rewrite app_nil_r, Z.ltb_irrefl in *. by st_step. }
  assert (Lt : psize l = psize pre + (8 + pa_size a) + psize suf) by (subst l; rewrite psize_app, psize_cons; lia).
  pose proof (pa_size_nonneg a). pose proof (psize_count suf). pose proof (psize_count pre).
  pose proof (attrs_ok_size _ Hl).
  destruct (Z.ltb_spec (8 + psize pre) (8 + psize l)); [|lia]. cbn [negb].
  st_step. eapply wp_head_at; [done|done|done|]. cbv beta iota.
  unfold find_id, with_id in HQ. rewrite filter_cons in HQ. simpl drop_id in HQ.
  destruct (Z.eqb_spec (pa_id a) attribute) as [Ea|Na]; cbn [negb].
  2:{ rewrite !decide_False in HQ by done.
      replace (8 + psize pre + (sizeof_attribute_head + pa_size a)) with (8 + psize (pre ++ [a]))
        by (rewrite psize_app, psize_cons; change (psize []) with 0; unfold sizeof_attribute_head; lia).
      apply IH; [by rewrite <- app_assoc|lia|]. unfold find_id, with_id. rewrite <- app_assoc. done. }
  rewrite !decide_True in HQ by done. simpl head in HQ. cbv iota beta in HQ.
  destruct (empty && negb (pa_size a =? 0)); [by st_step|].
  unfold sizeof_attribute_head. apply (wp_move_up l tail pre a suf); [done|done|]. intros tail'. st_step.
  apply wp_rd32_mid; [done|pose proof (psize_count l); lia|]. st_step. apply wp_wr32_count. st_step.
  apply (wp_rd32_mid 0 _ []); [done|lia|]. st_step. simpl app. apply wp_wr32_size. st_step.
  specialize (HQ tail'). unfold attrs_mem in HQ. rewrite psize_app in HQ.
  rewrite (u32_id (psize l - _)), (u32_id (Z.of_nat (length l) - 1)) by (pose proof (psize_count l); subst l; rewrite ?length_app in *; simpl length in *; lia).
  replace (psize l - (8 + pa_size a)) with (psize pre + psize suf) by lia.
  replace (Z.of_nat (length l) - 1) with (Z.of_nat (length (pre ++ suf)))
    by (subst l; rewrite !length_app; simpl; lia). done.
Qed.

Lemma wp_remove_attribute_ l tail attribute empty s (Q : Z * list Z → ta_heap → Prop) : attrs_ok l →
  match find_id attribute l with
  | None => Q (PKCS11_RV_NOT_FOUND, attrs_mem l tail) s
  | Some a =>
      if empty && negb (pa_size a =? 0) then Q (PKCS11_CKR_FUNCTION_FAILED, attrs_mem l tail) s
      else ∀ tail', Q (PKCS11_CKR_OK, attrs_mem (drop_id attribute l) tail') s
  end →
  wp (remove_attribute_ (attrs_mem l tail) attribute empty) s Q.
Proof.
  intros Hl HQ. unfold remove_attribute_. st_step. apply wp_attrs_size; [done|].
  change sizeof_obj_attrs with (8 + psize []) at 1.
  by apply (remove_loop_spec l tail attribute empty s Q Hl l); [|apply fuel_enough|].
Qed.

(** ** Adding *)

(** [serialize] extends what is kept of the object, or leaves it. *)
Lemma wp_serialize b blen data s (Q : Z * list Z * Z → ta_heap → Prop) :
  0 ≤ blen ≤ Z.of_nat (length b) → blen + Z.of_nat (length data) < 2 ^ 64 →
  (∀ s', Q (PKCS11_CKR_DEVICE_MEMORY, b, blen) s') →
  (∀ s', Q (PKCS11_CKR_OK, take (Z.to_nat blen) b ++ data, blen + Z.of_nat (length data)) s') →
  wp (serialize b blen data) s Q.
Proof.
  intros Hb Hd HF HOk. unfold serialize. destruct (Z.leb_spec (2 ^ 64) (blen + Z.of_nat (length data))); [lia|].
  st_step. eapply wp_mono; [apply ta_alloc_ok|]. intros [|] s' _; simpl; [|by st_step].
  st_step. apply wp_rd; [lia..|]. st_step. apply HOk.
Qed.

Lemma attrs_mem_take l tail x :
  take (Z.to_nat (8 + psize l)) (attrs_mem l tail) ++ x = attrs_mem l x.
Proof.
  unfold attrs_mem. rewrite !app_assoc, take_app_length'; [by rewrite <- !app_assoc|].
  rewrite !length_app, !le_bytes_length. unfold psize. lia.
Qed.

Lemma attrs_mem_app l tail x : attrs_mem l tail ++ x = attrs_mem l (tail ++ x).
Proof. unfold attrs_mem. by rewrite <- !app_assoc. Qed.

Lemma take_all_of {A} n (l : list A) : n = Z.of_nat (length l) → take (Z.to_nat n) l = l.
Proof. intros ->. apply take_ge. lia. Qed.

Lemma wp_add_attribute l tail a s (Q : Z * list Z → ta_heap → Prop) :
  attrs_ok (l ++ [a]) →
  (∀ s' tail', Q (PKCS11_CKR_DEVICE_MEMORY, attrs_mem l tail') s') →
  (∀ s', Q (PKCS11_CKR_OK, attrs_mem (l ++ [a]) []) s') →
  wp (add_attribute (attrs_mem l tail) (pa_id a) (pa_data a)) s Q.
Proof.
  intros Ho HF HOk. destruct (attrs_ok_app _ _ Ho) as [Hl Ha]. apply attrs_ok_cons in Ha as [[Hi Hs] _].
  pose proof (attrs_ok_size _ Ho) as S. rewrite psize_app, psize_cons in S. change (psize []) with 0 in S.
  pose proof (psize_count l). pose proof (pa_size_nonneg a). fold (pa_size a).
  unfold add_attribute, sizeof_obj_attrs. rewrite !u32_id by (fold (pa_size a); lia).
  st_step. apply wp_attrs_size; [done|]. fold (pa_size a).
  assert (L4 : ∀ z, length (le_bytes 4 z) = 4%nat) by (intros; apply le_bytes_length).
  st_step. apply wp_serialize; [rewrite length_attrs_mem; lia|rewrite L4; lia|intros; simpl; st_step; apply HF|]. intros s1. rc_step.
  rewrite attrs_mem_take, L4.
  st_step. apply wp_serialize; [rewrite length_attrs_mem, L4; lia|rewrite L4; lia|intros; simpl; st_step; apply HF|]. intros s2. rc_step.
  rewrite take_all_of by (rewrite length_attrs_mem, L4; lia).
  rewrite L4, attrs_mem_app.
  st_step. apply wp_serialize; [rewrite length_attrs_mem, length_app, !L4; lia|fold (pa_size a); lia|intros; simpl; st_step; apply HF|].
  intros s3. rc_step. rewrite take_all_of by (rewrite length_attrs_mem, length_app, !L4; lia).
  rewrite attrs_mem_app, <- app_assoc. fold (pa_bytes a).
  st_step. apply wp_attrs_size; [done|]. st_step. unfold attrs_mem. apply wp_wr32_size. st_step.
  apply wp_rd32_mid; [done|lia|]. st_step. apply wp_wr32_count. st_step.
  specialize (HOk s3). unfold attrs_mem in HOk. rewrite pbody_app, app_nil_r, psize_app, psize_cons in HOk.
  rewrite !u32_id by lia. replace (Z.of_nat (length l) + 1) with (Z.of_nat (length (l ++ [a])))
    by (rewrite length_app; simpl; lia).
  rewrite pbody_cons in HOk. change (pbody []) with (@nil Z) in HOk. rewrite app_nil_r in HOk.
  change (psize []) with 0 in HOk. rewrite Z.add_0_r in HOk. done.
Qed.

Lemma wp_set_attribute l tail a s (Q : Z * list Z → ta_heap → Prop) :
  attrs_ok l → attrs_ok (set_ref l a) →
  (∀ s' tail', Q (PKCS11_CKR_DEVICE_MEMORY, attrs_mem (drop_id (pa_id a) l) tail') s') →
  (∀ s', Q (PKCS11_CKR_OK, attrs_mem (set_ref l a) []) s') →
  wp (set_attribute (attrs_mem l tail) (pa_id a) (pa_data a)) s Q.
Proof.
  intros Hl Ho HF HOk. unfold set_attribute. st_step. apply wp_remove_attribute_; [done|].
  pose proof (drop_id_split (pa_id a) l) as D. destruct (find_id (pa_id a) l); simpl.
  - intros tail'. by apply wp_add_attribute.
  - destruct D as [D _]. rewrite <- D at 1. by apply wp_add_attribute.
Qed.

End Ops.
