(* ===== verification/Pkcs11AttrSpec.v ===== *)
(** The attribute lists of the PKCS#11 TA against their reference: reading, setting,
    merging and comparing lists. *)
From S2P Require Import Prelude State Bytes Pkcs11Attr Pkcs11AttrProofs.

(** ** The list with one attribute set *)

Lemma drop_id_ok attribute l : attrs_ok l → attrs_ok (drop_id attribute l) ∧ psize (drop_id attribute l) ≤ psize l.
Proof.
  intros Hl. pose proof (drop_id_split attribute l) as D. destruct (find_id attribute l) as [a|].
  - destruct D as (pre & post & -> & -> & _ & _). destruct Hl as [F S].
    rewrite !psize_app, psize_cons in *. pose proof (pa_size_nonneg a).
    apply Forall_app in F as [F1 F2]. inversion F2; subst.
    split; [constructor; [by apply Forall_app|rewrite psize_app; lia]|lia].
  - destruct D as [-> _]. done.
Qed.

Lemma attrs_ok_snoc l a : attrs_ok l → pattr_ok a → psize l + 8 + pa_size a < 2 ^ 32 → attrs_ok (l ++ [a]).
Proof.
  intros [F _] Ha Hs. constructor; [apply Forall_app; split; [done|by apply Forall_singleton]|].
  rewrite psize_app, psize_cons. change (psize []) with 0. lia.
Qed.

Lemma set_ref_ok l a : attrs_ok l → pattr_ok a → psize l + 8 + pa_size a < 2 ^ 32 →
  attrs_ok (set_ref l a) ∧ psize (set_ref l a) ≤ psize l + 8 + pa_size a.
Proof.
  intros Hl Ha Hs. destruct (drop_id_ok (pa_id a) l Hl) as [Hd Hp]. unfold set_ref. split.
  - apply attrs_ok_snoc; [done|done|lia].
  - rewrite psize_app, psize_cons. change (psize []) with 0. lia.
Qed.

Definition ids (l : list pattr) : list Z := pa_id <$> l.

Lemma with_id_app attribute a b : with_id attribute (a ++ b) = with_id attribute a ++ with_id attribute b.
Proof. apply filter_app. Qed.

Lemma with_id_none attribute l : Forall (λ b, pa_id b ≠ attribute) l → with_id attribute l = [].
Proof.
  intros F. unfold with_id. induction F as [|a l Ha F IH]; [done|]. by rewrite filter_cons, decide_False.
Qed.

Lemma not_in_ids attribute l : attribute ∉ ids l ↔ Forall (λ b, pa_id b ≠ attribute) l.
Proof.
  unfold ids. induction l as [|a l IH]; simpl; [by split; [constructor|intros _; apply not_elem_of_nil]|].
  rewrite not_elem_of_cons, Forall_cons, IH. naive_solver.
Qed.

(** In a list without duplicates the reference sets exactly one attribute. *)
Lemma set_ref_law l a x : NoDup (ids l) →
  NoDup (ids (set_ref l a)) ∧
  find_id x (set_ref l a) = if decide (x = pa_id a) then Some a else find_id x l.
Proof.
  intros N. pose proof (drop_id_split (pa_id a) l) as D. unfold set_ref.
  assert (NoDup (ids (drop_id (pa_id a) l)) ∧ (pa_id a ∉ ids (drop_id (pa_id a) l)) ∧
          (x ≠ pa_id a → with_id x (drop_id (pa_id a) l) = with_id x l)) as (Hd1 & Hd2 & Hd3).
  { destruct (find_id (pa_id a) l) as [c|].
    - destruct D as (pre & post & -> & -> & E & F). unfold ids in *. rewrite !fmap_app, fmap_cons in *.
      apply NoDup_app in N as (N1 & N2 & N3). apply NoDup_cons in N3 as [N3 N4]. rewrite E in *.
      split_and!.
      + apply NoDup_app. split_and!; [done| |done]. intros y Hy ?. apply (N2 y Hy). by right.
      + rewrite elem_of_app. intros [?|?]; [|done]. apply (N2 (pa_id a)); [done|left].
      + intros Hx. rewrite !with_id_app. f_equal. unfold with_id. rewrite filter_cons, decide_False by congruence. done.
    - destruct D as [-> F]. split_and!; [done|by apply not_in_ids|done]. }
  split.
  - unfold ids in *. rewrite fmap_app. apply NoDup_app. split_and!; [done| |simpl; apply NoDup_singleton].
    intros y Hy ?%list_elem_of_singleton. by subst y.
  - unfold find_id. rewrite with_id_app. destruct (decide (x = pa_id a)) as [->|Nx].
    + apply not_in_ids in Hd2. rewrite with_id_none by done. unfold with_id. by rewrite filter_cons, decide_True.
    + rewrite Hd3 by done. unfold with_id at 2. rewrite filter_cons, decide_False by done. by rewrite app_nil_r.
Qed.

(** A list of changes, the last of them first. *)
Definition merge (l changes : list pattr) : list pattr := foldl set_ref l changes.

Lemma merge_find changes : ∀ l x, NoDup (ids l) →
  NoDup (ids (merge l changes)) ∧
  find_id x (merge l changes) = from_option Some (find_id x l) (last (with_id x changes)).
Proof.
  unfold merge. induction changes as [|a changes IH]; intros l x N; simpl; [done|].
  destruct (set_ref_law l a x N) as [N' E]. destruct (IH (set_ref l a) x N') as [N2 ->]. split; [done|].
  rewrite E. unfold with_id. rewrite filter_cons. case_decide as D1; case_decide as D2; try congruence.
  rewrite last_cons. by destruct (last _).
Qed.

Section Spec.
Context `{TaHeapLaws}.

(** [get_attribute] on a well-formed list finds the first attribute with the
    identifier: it copies its value and gives its size, refuses a buffer that is
    too small and gives the size that is needed, and tells when there is none;
    the loop never runs past the list. *)
Theorem get_attribute_correct l tail attribute attr_size s :
  attrs_ok l →
  wp (get_attribute (attrs_mem l tail) attribute attr_size) s
    (λ r s', s' = s ∧ r = get_ref l attribute attr_size).
Proof. intros Hl. by apply wp_get_attribute. Qed.

(** Setting: the contents are as the reference has them, or memory is short
    and the attribute is gone. *)
Lemma wp_set_ref l tail a s : attrs_ok l → pattr_ok a → psize l + 8 + pa_size a < 2 ^ 32 →
  wp (set_attribute (attrs_mem l tail) (pa_id a) (pa_data a)) s
    (λ r s', (r.1 = PKCS11_CKR_OK ∧ ∃ tail', r.2 = attrs_mem (set_ref l a) tail') ∨
             (r.1 = PKCS11_CKR_DEVICE_MEMORY ∧ ∃ tail', r.2 = attrs_mem (drop_id (pa_id a) l) tail')).
Proof.
  intros Hl Ha Hs. apply wp_set_attribute; [done|by apply set_ref_ok|..]; intros; simpl; eauto.
Qed.

Lemma modify_loop_spec head tailh s : attrs_ok head → ∀ suf fuel pre l tail s0,
  head = pre ++ suf → (length suf < fuel)%nat → attrs_ok l → psize l + psize suf < 2 ^ 32 →
  s0 = s →
  wp (modify_loop fuel (attrs_mem l tail) (attrs_mem head tailh) (8 + psize pre) (8 + psize head)) s0
    (λ r s', left_as (PKCS11_CKR_OK, merge l suf) r).
Proof.
  intros Hh. assert (G : ∀ suf fuel pre l tail s0, head = pre ++ suf → (length suf < fuel)%nat → attrs_ok l →
    psize l + psize suf < 2 ^ 32 →
    wp (modify_loop fuel (attrs_mem l tail) (attrs_mem head tailh) (8 + psize pre) (8 + psize head)) s0
      (λ r s', left_as (PKCS11_CKR_OK, merge l suf) r)); [|by intros; apply G].
  induction suf as [|a suf IH]; intros [|fuel] pre l tail s0 E Hf Hl Hs; simpl in Hf; try lia; simpl modify_loop.
  { subst head. rewrite app_nil_r, Z.ltb_irrefl. st_step. left. split; [done|]. by exists tail. }
  rewrite psize_cons in Hs. pose proof (psize_count suf). pose proof (pa_size_nonneg a).
  destruct (Z.ltb_spec (8 + psize pre) (8 + psize head)) as [_|Lt].
  2:{ exfalso. rewrite E, psize_app, psize_cons in Lt. lia. }
  cbn [negb]. st_step. eapply wp_head_at; [done|done|done|]. cbv beta iota. st_step.
  assert (Ha : pattr_ok a).
  { destruct Hh as [F _]. rewrite E in F. apply Forall_app in F as [_ F]. by inversion F. }
  apply (wp_mono _ _ (λ data s', data = pa_data a)).
  { destruct (Z.eqb_spec (pa_size a) 0) as [Z|N].
    - st_step. unfold pa_size in Z. destruct (pa_data a); [done|]. simpl in Z. lia.
    - eapply wp_value_at; [done|unfold sizeof_attribute_head; lia|done|done]. }
  intros data s1 ->. st_step. eapply wp_mono; [apply wp_set_ref; [done|done|lia]|].
  intros [rc b] s2 [[Erc [tail' Eb]]|[Erc [tail' Eb]]]; simpl in Erc, Eb; subst rc b; simpl; [|st_step].
  - replace (8 + psize pre + (sizeof_attribute_head + pa_size a)) with (8 + psize (pre ++ [a]))
      by (rewrite psize_app, psize_cons; change (psize []) with 0; unfold sizeof_attribute_head; lia).
    destruct (set_ref_ok l a Hl Ha ltac:(lia)) as [? ?].
    apply IH; [by rewrite <- app_assoc|lia|done|lia].
  - right. split; [done|]. exists (drop_id (pa_id a) l), tail'. split; [by apply drop_id_ok|done].
Qed.

(** C21: [modify_attributes_list] sets, in the destination, every attribute of the
    source: afterwards an identifier stands for the last value that the source
    has for it, else for what it stood for before, and no identifier is there
    twice. When memory is short some changes are missing, but the list is well
    formed. *)
Theorem modify_attributes_list_correct l tail head tailh s :
  attrs_ok l → attrs_ok head → psize l + psize head < 2 ^ 32 → NoDup (ids l) →
  wp (modify_attributes_list (attrs_mem l tail) (attrs_mem head tailh)) s (λ r s',
    (r.1 = PKCS11_CKR_OK ∧ ∃ l' tail', r.2 = attrs_mem l' tail' ∧ NoDup (ids l') ∧
       ∀ x, find_id x l' = from_option Some (find_id x l) (last (with_id x head))) ∨
    (r.1 = PKCS11_CKR_DEVICE_MEMORY ∧ ∃ l' tail', attrs_ok l' ∧ r.2 = attrs_mem l' tail')).
Proof.
  intros Hl Hh Hs N. unfold modify_attributes_list. st_step. apply wp_attrs_size; [done|].
  change sizeof_obj_attrs with (8 + psize []) at 1. eapply wp_mono.
  - by apply (modify_loop_spec head tailh s Hh head); [|apply fuel_enough|..].
  - intros r s' [(Er & tail' & E)|]; [left|by right]. split; [done|]. exists (merge l head), tail'.
    split_and!; [done|by eapply (merge_find head l 0)|]. intros x. by apply merge_find.
Qed.

(** ** Comparing *)

Lemma wp_same_value cand tailc p size a ref tail pre r post off s (Q : bool → ta_heap → Prop) :
  refers cand (p, size) a → ref = pre ++ r :: post → off = 8 + psize pre + 8 → size = pa_size r →
  Q (bool_decide (pa_data a = pa_data r)) s →
  wp (same_value (attrs_mem cand tailc) p size off (attrs_mem ref tail)) s Q.
Proof.
  intros R E Eo Es HQ. unfold same_value. st_step. eapply wp_value_of; [done|]. st_step.
  eapply wp_value_at; [done|done|done|]. by st_step.
Qed.

(** The test of one attribute of a reference, against the first attribute with
    its identifier. *)
Lemma wp_match_one {A} cand tailc ref tail pre r post (yes no : PM A) p a s Q :
  ref = pre ++ r :: post → find_id (pa_id r) cand = Some a → refers cand p a →
  wp (if matches cand r then yes else no) s Q →
  wp (if (match p.1 with None => true | Some _ => false end) || negb (p.2 =? pa_size r) then no else
      same ← same_value (attrs_mem cand tailc) p.1 p.2 (8 + psize pre + sizeof_attribute_head) (attrs_mem ref tail);
      if negb same then no else yes) s Q.
Proof.
  intros E Ef R W. unfold matches in W. rewrite Ef in W. destruct p as [p size].
  assert (Ep : (match p with None => true | Some _ => false end) = (pa_size a =? 0) ∧ size = pa_size a)
    by (destruct R as (? & ? & _ & [= -> ->]); by destruct (pa_size a =? 0)). destruct Ep as [Ep ->].
  cbn [fst snd]. rewrite Ep. destruct (Z.eqb_spec (pa_size a) 0) as [Z|N]; cbn [orb].
  { by rewrite andb_false_r in W. }
  rewrite andb_true_r in W. destruct (Z.eqb_spec (pa_size a) (pa_size r)) as [Es|Ns]; cbn [negb].
  - st_step. eapply wp_same_value; [done|done|done|done|]. by destruct (bool_decide _).
  - rewrite bool_decide_false in W; [done|]. intros D. apply Ns. unfold pa_size. by rewrite D.
Qed.

(** What matches a reference list. *)
Definition matches_all (cand ref : list pattr) : bool :=
  forallb (λ r, negb (attribute_is_hidden (pa_id r)) && matches cand r) ref.

Lemma match_loop_spec cand tailc ref tail s : attrs_ok cand → attrs_ok ref → ∀ suf fuel pre,
  ref = pre ++ suf → (length suf < fuel)%nat →
  wp (match_loop fuel (attrs_mem cand tailc) (attrs_mem ref tail) (Z.of_nat (length suf)) (8 + psize pre)) s
    (λ r s', s' = s ∧ r = matches_all cand suf).
Proof.
  intros Hc Hr. induction suf as [|a suf IH]; intros [|fuel] pre E Hf; simpl in Hf; try lia; simpl match_loop.
  { by st_step. }
  destruct (Z.eqb_spec (Z.of_nat (length (a :: suf))) 0) as [Z|_]; [simpl in Z; lia|].
  st_step. eapply wp_head_at; [done|done|done|]. cbv beta iota.
  destruct (attribute_is_hidden (pa_id a)) eqn:Hid; [st_step; simpl; by rewrite Hid|].
  st_step. apply wp_get_attribute_ptr; [done|]. destruct (find_id (pa_id a) cand) as [c|] eqn:Ef.
  2:{ simpl. st_step. split; [done|]. unfold matches. by rewrite Ef, andb_false_r. }
  intros [p size] R. rc_step. cbn [orb].
  eapply (wp_match_one cand tailc ref tail pre a suf _ _ (p, size)); [done|done|done|].
  simpl. rewrite Hid. simpl. destruct (matches cand a); simpl; [|by st_step].
  replace (8 + psize pre + (sizeof_attribute_head + pa_size a)) with (8 + psize (pre ++ [a]))
    by (rewrite psize_app, psize_cons; change (psize []) with 0; unfold sizeof_attribute_head; lia).
  replace (Z.of_nat (S (length suf)) - 1) with (Z.of_nat (length suf)) by lia.
  apply IH; [by rewrite <- app_assoc|lia].
Qed.

Lemma wp_attributes_match_reference cand tailc ref tail s :
  attrs_ok cand → attrs_ok ref →
  wp (attributes_match_reference (attrs_mem cand tailc) (attrs_mem ref tail)) s
    (λ r s', s' = s ∧ r = matches_all cand ref).
Proof.
  intros Hc Hr. unfold attributes_match_reference. st_step. apply wp_attrs_count; [done|].
  destruct (Z.eqb_spec (Z.of_nat (length ref)) 0) as [Z|_].
  - st_step. destruct ref; [done|]. simpl in Z. lia.
  - change sizeof_obj_attrs with (8 + psize []). by apply match_loop_spec; [..|apply fuel_enough].
Qed.

(** [attributes_match_reference] tells whether every attribute of the reference
    is one that may be searched for and whose value, not empty, is the value of the
    first attribute of the candidate with its identifier; it changes nothing and
    reads no byte outside the two objects. *)
Theorem attributes_match_reference_correct cand tailc ref tail s :
  attrs_ok cand → attrs_ok ref →
  wp (attributes_match_reference (attrs_mem cand tailc) (attrs_mem ref tail)) s
    (λ r s', s' = s ∧ r = matches_all cand ref).
Proof. apply wp_attributes_match_reference. Qed.

Lemma match_add_loop_spec ref tailr : attrs_ok ref → ∀ suf fuel pre l tail s,
  ref = pre ++ suf → (length suf < fuel)%nat → attrs_ok l → psize l + psize suf < 2 ^ 32 →
  wp (match_add_loop fuel (attrs_mem l tail) (attrs_mem ref tailr) (Z.of_nat (length suf)) (8 + psize pre)) s
    (λ r s', left_as (match_add_ref l suf) r).
Proof.
  intros Hr. induction suf as [|a suf IH]; intros [|fuel] pre l tail s E Hf Hl Hs; simpl in Hf; try lia;
    simpl match_add_loop.
  { st_step. left. split; [done|]. by exists tail. }
  destruct (Z.eqb_spec (Z.of_nat (length (a :: suf))) 0) as [Z|_]; [simpl in Z; lia|].
  rewrite psize_cons in Hs. pose proof (psize_count suf). pose proof (pa_size_nonneg a).
  assert (Ha : pattr_ok a).
  { destruct Hr as [F _]. rewrite E in F. apply Forall_app in F as [_ F]. by inversion F. }
  st_step. eapply wp_head_at; [done|done|done|]. cbv beta iota.
  replace (8 + psize pre + (sizeof_attribute_head + pa_size a)) with (8 + psize (pre ++ [a]))
    by (rewrite psize_app, psize_cons; change (psize []) with 0; unfold sizeof_attribute_head; lia).
  replace (Z.of_nat (S (length suf)) - 1) with (Z.of_nat (length suf)) by lia.
  st_step. apply wp_get_attribute_ptr; [done|]. simpl match_add_ref.
  destruct (find_id (pa_id a) l) as [c|] eqn:Ef.
  - intros [p size] R. rewrite decide_False by done. cbn [Z.eqb PKCS11_CKR_OK PKCS11_RV_NOT_FOUND negb orb].
    eapply (wp_match_one l tail ref tailr pre a suf _ _ (p, size)); [done|done|done|].
    destruct (matches l a).
    + apply IH; [by rewrite <- app_assoc|lia|done|lia].
    + st_step. left. split; [done|]. by exists tail.
  - rewrite decide_True by done. cbn [Z.eqb PKCS11_CKR_OK PKCS11_RV_NOT_FOUND Pos.eqb negb orb].
    st_step. eapply wp_value_at; [done|unfold sizeof_attribute_head; lia|done|].
    st_step. apply wp_add_attribute; [apply attrs_ok_snoc; [done|done|lia]|..].
    + intros s' tail'. simpl. st_step. right. split; [done|]. by exists l, tail'.
    + intros s'. simpl. apply IH; [by rewrite <- app_assoc|lia|apply attrs_ok_snoc; [done|done|lia]|].
      rewrite psize_app, psize_cons. change (psize []) with 0. lia.
Qed.

(** [attributes_match_add_reference] goes through the reference in order: it
    adds what is missing, goes over what has the same value, and stops at the
    first attribute that is there with another value, with what was added so far. *)
Theorem attributes_match_add_reference_correct l tail ref tailr s :
  attrs_ok l → attrs_ok ref → psize l + psize ref < 2 ^ 32 →
  wp (attributes_match_add_reference (attrs_mem l tail) (attrs_mem ref tailr)) s
    (λ r s', left_as (match_add_ref l ref) r).
Proof.
  intros Hl Hr Hs. unfold attributes_match_add_reference. st_step. apply wp_attrs_count; [done|].
  destruct (Z.eqb_spec (Z.of_nat (length ref)) 0) as [Z|_].
  - st_step. destruct ref; [|simpl in Z; lia]. left. split; [done|]. by exists tail.
  - change sizeof_obj_attrs with (8 + psize []). apply match_add_loop_spec; [done|done|apply fuel_enough|done|done].
Qed.

End Spec.
