(* ===== verification/Pkcs11Sanitize.v ===== *)
(** ta/pkcs11/src/sanitize_object.c: a template that comes from the client is
    checked and copied to a new attribute list. [m] is the memory that the client's
    buffer lies in, [src] the position of the buffer in it; a read outside [m] is
    undefined. What the trace prints is left out, what it reads is not. *)
From S2P Require Import Prelude State Bytes Bitstring Pkcs11Attr.

Section Sanitize.
Context `{TaHeap}.

(** ** The trace of a template *)

Fixpoint trace_attributes_from_api_head (fuel : nat) (m : list Z) (plen ref size : Z) : PM unit :=
  match fuel with
  | O => out_of_fuel
  | S fuel =>
      h ← rd ref 8 m;
      let attrs_size := of_le (take 4 h) in
      if 8 + attrs_size <? size then mret tt else
      ok ← ta_alloc (plen + 2);
      if negb ok then mret tt else
      trace_attributes_ fuel m (plen + 1) (ref + 8) (ref + 8 + attrs_size)
  end
with trace_attributes_ (fuel : nat) (m : list Z) (plen src end_ : Z) : PM unit :=
  match fuel with
  | O => out_of_fuel
  | S fuel =>
      ok ← ta_alloc (plen + 5);
      if negb ok then mret tt else trace_loop fuel m (plen + 4) src end_
  end
with trace_loop (fuel : nat) (m : list Z) (plen cur end_ : Z) : PM unit :=
  match fuel with
  | O => out_of_fuel
  | S fuel =>
      if negb (cur <? end_) then mret tt else
      '(id, size) ← attr_head cur m;
      _ ← rd (cur + 8) (Z.min size 4) m;
      _ ← rd (cur + 8) 4 m;
      _ ← (if pkcs11_attr_has_indirect_attributes id
           then trace_attributes_from_api_head fuel m plen (cur + 8) (u64 (end_ - (cur + 8)))
           else mret tt);
      trace_loop fuel m plen (cur + (8 + size)) end_
  end.

(** ** One attribute of the client *)

(** [*pos], [*attr] and the position of [*data]; or the error. *)
Definition read_attr_advance (m : list Z) (buf blen pos : Z) : PM (Z + Z * (Z * Z) * Z) :=
  let data_pos := pos + 8 in
  if (2 ^ 64 <=? data_pos) || (blen <? data_pos) then mret (inl PKCS11_CKR_FUNCTION_FAILED) else
  '(id, size) ← attr_head (buf + pos) m;
  let next_pos := data_pos + size in
  if (2 ^ 64 <=? next_pos) || (blen <? next_pos) then mret (inl PKCS11_CKR_FUNCTION_FAILED) else
  mret (inr (next_pos, (id, size), buf + data_pos)).

(** ** Class and type *)

(** The error, or the class and the type found. *)
Fixpoint class_loop (fuel : nat) (m : list Z) (src src_size pos class_found type_found : Z)
  : PM (Z + Z * Z) :=
  match fuel with
  | O => out_of_fuel
  | S fuel =>
      if pos =? src_size then mret (inr (class_found, type_found)) else
      r ← read_attr_advance m src src_size pos;
      match r with
      | inl rc => mret (inl rc)
      | inr (pos, (id, size), data) =>
          if id =? PKCS11_CKA_CLASS then
            if negb (size =? 4) then mret (inl PKCS11_CKR_TEMPLATE_INCONSISTENT) else
            class ← rd32 data m;
            if negb (class_found =? PKCS11_CKO_UNDEFINED_ID) && negb (class_found =? class)
            then mret (inl PKCS11_CKR_TEMPLATE_INCONSISTENT)
            else class_loop fuel m src src_size pos class type_found
          else if negb (pkcs11_attr_is_type id =? 0) then
            if negb (size =? 4) then mret (inl PKCS11_CKR_TEMPLATE_INCONSISTENT) else
            type ← rd32 data m;
            if negb (type_found =? PKCS11_CKK_UNDEFINED_ID) && negb (type_found =? type)
            then mret (inl PKCS11_CKR_TEMPLATE_INCONSISTENT)
            else class_loop fuel m src src_size pos class_found type
          else class_loop fuel m src src_size pos class_found type_found
      end
  end.

(** The value found, else the hint, added if it is known. *)
Definition add_found (dst : list Z) (attribute found hint : Z) : PM (Z * list Z) :=
  if negb (found =? PKCS11_UNDEFINED_ID) then add_attribute dst attribute (le_bytes 4 found)
  else if negb (hint =? PKCS11_UNDEFINED_ID) then add_attribute dst attribute (le_bytes 4 hint)
  else mret (PKCS11_CKR_OK, dst).

Definition sanitize_class_and_type (dst m : list Z) (src src_size class_hint type_hint : Z)
  : PM (Z * list Z) :=
  r ← class_loop (S (length m)) m src src_size 8 PKCS11_CKO_UNDEFINED_ID PKCS11_UNDEFINED_ID;
  match r with
  | inl rc =>
      _ ← trace_attributes_from_api_head (2 * length m + 4) m 12 src src_size;
      mret (rc, dst)
  | inr (class_found, type_found) =>
      '(rc, dst) ← add_found dst PKCS11_CKA_CLASS class_found class_hint;
      if negb (rc =? 0) then mret (rc, dst) else
      '(rc, dst) ← add_found dst PKCS11_CKA_KEY_TYPE type_found type_hint;
      if negb (rc =? 0) then mret (rc, dst) else
      mret (PKCS11_CKR_OK, dst)
  end.

(** ** Boolean attributes *)

Fixpoint boolprops_loop (fuel : nat) (dst m : list Z) (src src_size pos : Z) (seen_attrs boolprops : bitstr)
  : PM (Z * list Z) :=
  match fuel with
  | O => out_of_fuel
  | S fuel =>
      if pos =? src_size then mret (PKCS11_CKR_OK, dst) else
      r ← read_attr_advance m src src_size pos;
      match r with
      | inl rc => mret (rc, dst)
      | inr (pos, (id, size), data) =>
          let idx := pkcs11_attr2boolprop_shift id in
          if idx <? 0 then boolprops_loop fuel dst m src src_size pos seen_attrs boolprops else
          if (PKCS11_BOOLPROPS_MAX_COUNT <=? idx) || negb (size =? 1)
          then mret (PKCS11_CKR_FUNCTION_FAILED, dst) else
          v ← rd data 1 m;
          let value := negb (of_le v =? 0) in
          seen ← run (bit_test seen_attrs idx);
          old ← run (bit_test boolprops idx);
          if seen && negb (eqb value old) then mret (PKCS11_CKR_TEMPLATE_INCONSISTENT, dst) else
          boolprops ← run (if value then bit_set boolprops idx else Done boolprops);
          '(rc, dst) ← (if negb seen then add_attribute dst id [Z.b2z value] else mret (PKCS11_CKR_OK, dst));
          if negb (rc =? 0) then mret (rc, dst) else
          seen_attrs ← run (bit_set seen_attrs idx);
          boolprops_loop fuel dst m src src_size pos seen_attrs boolprops
      end
  end.

Definition sanitize_boolprops (dst m : list Z) (src src_size : Z) : PM (Z * list Z) :=
  boolprops_loop (S (length m)) dst m src src_size 8 (replicate 8 0) (replicate 8 0).

(** ** The object *)

(** [sanitize] is [sanitize_client_object] on the attribute's data; its object is
    [None] for NULL. *)
Definition sanitize_indirect_attr (sanitize : Z → Z → Z → Z → PM (Z * option (list Z)))
    (dst : list Z) (id size data : Z) : PM (Z * list Z) :=
  _ ← st_assert (pkcs11_attr_has_indirect_attributes id);
  '(rc, obj2) ← sanitize data size PKCS11_CKO_UNDEFINED_ID PKCS11_UNDEFINED_ID;
  if negb (rc =? 0) then mret (rc, dst) else
  match obj2 with
  | None => undef
  | Some obj2 =>
      asize ← attrs_size obj2;
      v ← rd 0 (8 + asize) obj2;
      add_attribute dst id v
  end.

(** The result and [*dst], which was NULL. *)
Fixpoint sanitize_client_object (fuel : nat) (m : list Z) (src size class_hint type_hint : Z)
  : PM (Z * option (list Z)) :=
  match fuel with
  | O => out_of_fuel
  | S fuel =>
      if size <? 8 then mret (PKCS11_CKR_ARGUMENTS_BAD, None) else
      h ← rd src 8 m;
      let sz_from_hdr := 8 + of_le (take 4 h) in
      if (2 ^ 64 <=? sz_from_hdr) || (size <? sz_from_hdr) then mret (PKCS11_CKR_ARGUMENTS_BAD, None) else
      '(rc, dst) ← init_attributes_head;
      match dst with
      | None => mret (rc, None)
      | Some dst =>
          '(rc, dst) ← sanitize_class_and_type dst m src sz_from_hdr class_hint type_hint;
          if negb (rc =? 0) then mret (rc, Some dst) else
          '(rc, dst) ← sanitize_boolprops dst m src sz_from_hdr;
          if negb (rc =? 0) then mret (rc, Some dst) else
          '(rc, dst) ← sanitize_loop fuel dst m src sz_from_hdr 8;
          mret (rc, Some dst)
      end
  end
with sanitize_loop (fuel : nat) (dst m : list Z) (src sz_from_hdr pos : Z) : PM (Z * list Z) :=
  match fuel with
  | O => out_of_fuel
  | S fuel =>
      if pos =? sz_from_hdr then mret (PKCS11_CKR_OK, dst) else
      r ← read_attr_advance m src sz_from_hdr pos;
      match r with
      | inl rc => mret (rc, dst)
      | inr (pos, (id, size), data) =>
          if (id =? PKCS11_CKA_CLASS) || negb (pkcs11_attr_is_type id =? 0) || pkcs11_attr_is_boolean id
          then sanitize_loop fuel dst m src sz_from_hdr pos else
          if pkcs11_attr_has_indirect_attributes id then
            '(rc, dst) ← sanitize_indirect_attr (sanitize_client_object fuel m) dst id size data;
            if negb (rc =? 0) then mret (rc, dst) else sanitize_loop fuel dst m src sz_from_hdr pos
          else
          if negb (valid_pkcs11_attribute_id id size) then mret (PKCS11_CKR_TEMPLATE_INCONSISTENT, dst) else
          v ← rd data size m;
          '(rc, dst) ← add_attribute dst id v;
          if negb (rc =? 0) then mret (rc, dst) else sanitize_loop fuel dst m src sz_from_hdr pos
      end
  end.

End Sanitize.
