(* ===== verification/Pkcs11SanitizeRef.v ===== *)
(** What the check of a client's template promises: a reference that parses the
    template and builds the attribute list, and its bound on the size. *)
From S2P Require Import Prelude State Bytes Bitstring Pkcs11Attr Pkcs11AttrProofs.

#[local] Ltac Zify.zify_post_hook ::= Z.div_mod_to_equations.

(** ** Parsing *)

Fixpoint parse (fuel : nat) (b : list Z) : option (list pattr) :=
  match fuel with
  | O => None
  | S fuel =>
      if decide (b = []) then Some [] else
      if (length b <? 8)%nat then None else
      let size := Z.to_nat (of_le (take 4 (drop 4 b))) in
      if (length b - 8 <? size)%nat then None else
      cons (mk_pa (of_le (take 4 b)) (take size (drop 8 b))) <$> parse fuel (drop (8 + size) b)
  end.

Definition parse_all (b : list Z) : option (list pattr) := parse (S (length b)) b.

Lemma of_le_4 b : Forall is_byte b → (4 ≤ length b)%nat → 0 ≤ of_le (take 4 b) < 2 ^ 32.
Proof.
  intros F L. pose proof (of_le_range (take 4 b) ltac:(by apply Forall_take)) as R.
  rewrite length_take, Nat.min_l in R by lia. done.
Qed.

Lemma le_4_of b : Forall is_byte b → (4 ≤ length b)%nat → le_bytes 4 (of_le (take 4 b)) = take 4 b.
Proof.
  intros F L. rewrite <- (le_bytes_of_le (take 4 b)) at 2 by by apply Forall_take.
  by rewrite length_take, Nat.min_l.
Qed.

(** What is parsed is what is there. *)
Lemma parse_sound fuel : ∀ b l, Forall is_byte b → parse fuel b = Some l →
  b = pbody l ∧ Forall pattr_ok l ∧ Forall (λ a, Forall is_byte (pa_data a)) l.
Proof.
  induction fuel as [|fuel IH]; intros b l F E; [done|]. simpl in E.
  destruct (decide (b = [])) as [->|Nb]; [by simplify_eq|].
  destruct (Nat.ltb_spec (length b) 8); [done|].
  set (size := Z.to_nat (of_le (take 4 (drop 4 b)))) in *.
  destruct (Nat.ltb_spec (length b - 8) size); [done|].
  apply fmap_Some in E as (r & E & ->). apply IH in E as (E & G & D); [|by apply Forall_drop].
  pose proof (of_le_4 b F ltac:(lia)) as R1.
  pose proof (of_le_4 (drop 4 b) ltac:(by apply Forall_drop) ltac:(rewrite length_drop; lia)) as R2.
  assert (Es : pa_size (mk_pa (of_le (take 4 b)) (take size (drop 8 b))) = of_le (take 4 (drop 4 b))).
  { unfold pa_size. simpl. rewrite length_take, length_drop. lia. }
  split_and!.
  - rewrite pbody_cons, <- E. unfold pa_bytes. rewrite Es. simpl pa_id. simpl pa_data.
    rewrite !le_4_of by (done || (by apply Forall_drop) || (rewrite ?length_drop; lia)).
    rewrite <- (take_drop 4 b) at 1. rewrite <- app_assoc. f_equal.
    rewrite <- (take_drop 4 (drop 4 b)) at 1. rewrite <- app_assoc. f_equal.
    rewrite drop_drop. rewrite <- (take_drop size (drop (4 + 4) b)) at 1. by rewrite drop_drop.
  - constructor; [|done]. constructor; [done|]. rewrite Es. lia.
  - constructor; [|done]. simpl. by apply Forall_take, Forall_drop.
Qed.

(** ** The reference *)

(** The template is refused with a trace; is refused; gives a list. *)
Inductive san_result := SBad | SErr (rc : Z) | SOk (l : list pattr).

(** The class and the type: no two values, each of four bytes. *)
Fixpoint class_ref (l : list pattr) (class type : Z) : option (Z * Z) :=
  match l with
  | [] => Some (class, type)
  | a :: l =>
      let v := of_le (pa_data a) in
      if pa_id a =? PKCS11_CKA_CLASS then
        if negb (pa_size a =? 4) || (negb (class =? PKCS11_UNDEFINED_ID) && negb (class =? v)) then None
        else class_ref l v type
      else if negb (pkcs11_attr_is_type (pa_id a) =? 0) then
        if negb (pa_size a =? 4) || (negb (type =? PKCS11_UNDEFINED_ID) && negb (type =? v)) then None
        else class_ref l class v
      else class_ref l class type
  end.

Definition found_ref (attribute found hint : Z) : list pattr :=
  if negb (found =? PKCS11_UNDEFINED_ID) then [mk_pa attribute (le_bytes 4 found)]
  else if negb (hint =? PKCS11_UNDEFINED_ID) then [mk_pa attribute (le_bytes 4 hint)]
  else [].

(** The boolean attributes: one byte, each once, no two values. *)
Fixpoint bool_ref (seen : gmap Z bool) (l : list pattr) : Z + list pattr :=
  match l with
  | [] => inr []
  | a :: l =>
      if negb (pkcs11_attr_is_boolean (pa_id a)) then bool_ref seen l else
      if negb (pa_size a =? 1) then inl PKCS11_CKR_FUNCTION_FAILED else
      let v := negb (of_le (pa_data a) =? 0) in
      match seen !! pa_id a with
      | Some w => if eqb v w then bool_ref seen l else inl PKCS11_CKR_TEMPLATE_INCONSISTENT
      | None =>
          match bool_ref (<[pa_id a := v]> seen) l with
          | inl rc => inl rc
          | inr r => inr (mk_pa (pa_id a) [Z.b2z v] :: r)
          end
      end
  end.

(** The attributes that the other two passes handle. *)
Definition handled (id : Z) : bool :=
  (id =? PKCS11_CKA_CLASS) || negb (pkcs11_attr_is_type id =? 0) || pkcs11_attr_is_boolean id.

(** The bytes of a list, as the value of an attribute. *)
Definition obj_bytes (l : list pattr) : list Z :=
  le_bytes 4 (psize l) ++ le_bytes 4 (Z.of_nat (length l)) ++ pbody l.

Fixpoint others_ref (nested : list Z → san_result) (l : list pattr) : san_result :=
  match l with
  | [] => SOk []
  | a :: l =>
      if handled (pa_id a) then others_ref nested l else
      match (if pkcs11_attr_has_indirect_attributes (pa_id a) then
               match nested (pa_data a) with SOk l2 => SOk [mk_pa (pa_id a) (obj_bytes l2)] | r => r end
             else if valid_pkcs11_attribute_id (pa_id a) (pa_size a) then SOk [a]
             else SErr PKCS11_CKR_TEMPLATE_INCONSISTENT) with
      | SOk here => match others_ref nested l with SOk r => SOk (here ++ r) | r => r end
      | r => r
      end
  end.

Fixpoint san_ref (fuel : nat) (x : list Z) (class_hint type_hint : Z) : san_result :=
  match fuel with
  | O => SBad
  | S fuel =>
      if (length x <? 8)%nat then SErr PKCS11_CKR_ARGUMENTS_BAD else
      let n := Z.to_nat (of_le (take 4 x)) in
      if (length x <? 8 + n)%nat then SErr PKCS11_CKR_ARGUMENTS_BAD else
      match parse_all (take n (drop 8 x)) with
      | None => SBad
      | Some l =>
          match class_ref l PKCS11_UNDEFINED_ID PKCS11_UNDEFINED_ID with
          | None => SBad
          | Some (c, t) =>
              match bool_ref ∅ l with
              | inl rc => SErr rc
              | inr lb =>
                  match others_ref (λ x, san_ref fuel x PKCS11_UNDEFINED_ID PKCS11_UNDEFINED_ID) l with
                  | SOk lo => SOk (found_ref PKCS11_CKA_CLASS c class_hint ++
                                   found_ref PKCS11_CKA_KEY_TYPE t type_hint ++ lb ++ lo)
                  | r => r
                  end
              end
          end
      end
  end.

(** The reference for a template. *)
Definition template_ref (x : list Z) (class_hint type_hint : Z) : san_result :=
  san_ref (S (length x)) x class_hint type_hint.

(** ** Its size *)

Definition w12 (x : Z) : Z := if x =? PKCS11_UNDEFINED_ID then 0 else 12.

Lemma w12_bound x : 0 ≤ w12 x ≤ 12.
Proof. unfold w12. destruct (_ =? _); lia. Qed.

(** The bytes of the attributes that a pass handles. *)
Definition part (f : Z → bool) (l : list pattr) : Z :=
  foldr (λ a n, (if f (pa_id a) then 8 + pa_size a else 0) + n) 0 l.

Definition is_ct (id : Z) : bool := (id =? PKCS11_CKA_CLASS) || negb (pkcs11_attr_is_type id =? 0).

Lemma part_nonneg f l : 0 ≤ part f l.
Proof. induction l as [|a l IH]; simpl; [lia|]. pose proof (pa_size_nonneg a). destruct (f _); lia. Qed.

Lemma ct_not_bool id : is_ct id = true → pkcs11_attr_is_boolean id = false.
Proof.
  unfold is_ct, pkcs11_attr_is_type. intros E.
  destruct (Z.eqb_spec id PKCS11_CKA_CLASS) as [E1|_]; [by rewrite E1|].
  destruct (Z.eqb_spec id PKCS11_CKA_KEY_TYPE) as [E1|_]; [by rewrite E1|].
  destruct (Z.eqb_spec id PKCS11_CKA_MECHANISM_TYPE) as [E1|_]; [by rewrite E1|].
  destruct (Z.eqb_spec id PKCS11_CKA_KEY_GEN_MECHANISM) as [E1|_]; [by rewrite E1|done].
Qed.

Lemma parts_sum l :
  part is_ct l + part pkcs11_attr_is_boolean l + part (λ id, negb (handled id)) l = psize l.
Proof.
  induction l as [|a l IH]; [done|]. rewrite psize_cons. simpl. unfold handled at 1. fold (is_ct (pa_id a)).
  pose proof (ct_not_bool (pa_id a)) as N. destruct (is_ct (pa_id a)); simpl.
  - rewrite N by done. lia.
  - destruct (pkcs11_attr_is_boolean _); simpl; lia.
Qed.

Lemma class_ref_size l : ∀ c t c' t', class_ref l c t = Some (c', t') →
  w12 c' + w12 t' ≤ w12 c + w12 t + part is_ct l.
Proof.
  induction l as [|a l IH]; intros c t c' t' E; simpl in E; simpl part; [simplify_eq; lia|].
  pose proof (w12_bound c). pose proof (w12_bound t). unfold is_ct at 1.
  destruct (pa_id a =? PKCS11_CKA_CLASS); [|destruct (pkcs11_attr_is_type (pa_id a) =? 0)]; simpl in E |- *.
  2: by apply IH.
  all: destruct (Z.eqb_spec (pa_size a) 4) as [Es|]; simpl in E; [|done].
  all: case_match; [done|]; apply IH in E; pose proof (w12_bound (of_le (pa_data a))); lia.
Qed.

Lemma found_ref_size attribute found hint : psize (found_ref attribute found hint) = 
  if found =? PKCS11_UNDEFINED_ID then w12 hint else 12.
Proof. unfold found_ref, w12. destruct (found =? _), (hint =? _); reflexivity. Qed.

Lemma bool_ref_size l : ∀ seen r, bool_ref seen l = inr r → psize r ≤ part pkcs11_attr_is_boolean l.
Proof.
  induction l as [|a l IH]; intros seen r E; simpl in E; simpl part; [by simplify_eq|].
  destruct (pkcs11_attr_is_boolean (pa_id a)); simpl in E; [|by apply IH in E].
  destruct (Z.eqb_spec (pa_size a) 1) as [Es|]; simpl in E; [|done].
  destruct (seen !! pa_id a) as [w|].
  - destruct (eqb _ w); [|done]. apply IH in E. lia.
  - destruct (bool_ref _ l) as [|r'] eqn:E'; simplify_eq. apply IH in E'. rewrite psize_cons.
    unfold pa_size at 1. simpl length. lia.
Qed.

Lemma length_obj_bytes l : Z.of_nat (length (obj_bytes l)) = 8 + psize l.
Proof. unfold obj_bytes, psize. rewrite !length_app, !le_bytes_length. lia. Qed.

Lemma others_ref_size nested l :
  (∀ x r, Forall is_byte x → nested x = SOk r → 8 + psize r ≤ Z.of_nat (length x)) →
  Forall (λ a, Forall is_byte (pa_data a)) l → ∀ r, others_ref nested l = SOk r → psize r ≤ part (λ id, negb (handled id)) l.
Proof.
  intros N. induction 1 as [|a l Fa _ IH]; intros r E; simpl in E; simpl part; [by simplify_eq|].
  destruct (handled (pa_id a)); simpl; [by apply IH|].
  destruct (if pkcs11_attr_has_indirect_attributes _ then _ else _) as [| |here] eqn:Eh; [done|done|].
  destruct (others_ref nested l) as [| |r'] eqn:E'; simplify_eq. rewrite psize_app.
  assert (psize here ≤ 8 + pa_size a); [|specialize (IH r' eq_refl); lia].
  destruct (pkcs11_attr_has_indirect_attributes _).
  - destruct (nested (pa_data a)) as [| |l2] eqn:En; simplify_eq. apply N in En; [|done].
    rewrite psize_cons. change (psize []) with 0. unfold pa_size at 1. simpl pa_data.
    rewrite length_obj_bytes. unfold pa_size. lia.
  - destruct (valid_pkcs11_attribute_id _ _); simplify_eq. rewrite psize_cons. change (psize []) with 0. lia.
Qed.

(** The list built is not longer than the template, but for the two hints. *)
Lemma san_ref_size fuel : ∀ x ch th l, Forall is_byte x → san_ref fuel x ch th = SOk l →
  8 + psize l ≤ Z.of_nat (length x) + w12 ch + w12 th.
Proof.
  induction fuel as [|fuel IH]; intros x ch th l F E; [done|]. cbn [san_ref] in E; cbv zeta in E.
  destruct (Nat.ltb_spec (length x) 8); [done|].
  destruct (Nat.ltb_spec (length x) (8 + Z.to_nat (of_le (take 4 x)))); [done|].
  destruct (parse_all _) as [la|] eqn:Ep; [|done].
  destruct (class_ref la _ _) as [[c t]|] eqn:Ec; [|done].
  destruct (bool_ref ∅ la) as [|lb] eqn:Eb; [done|].
  destruct (others_ref _ la) as [| |lo] eqn:Eo; [done|done|]. simplify_eq.
  apply parse_sound in Ep as (Ep & _ & D); [|by apply Forall_take, Forall_drop].
  apply class_ref_size in Ec. apply bool_ref_size in Eb.
  eapply others_ref_size in Eo; [|intros y r Fy Ey; apply IH in Ey; [|done]; change (w12 PKCS11_UNDEFINED_ID) with 0 in Ey; lia|done].
  pose proof (parts_sum la) as S. rewrite !psize_app, !found_ref_size.
  assert (Es : psize la ≤ Z.of_nat (length x) - 8) by (unfold psize; rewrite <- Ep, length_take, length_drop; lia).
  pose proof (w12_bound ch). pose proof (w12_bound th).
  change (w12 PKCS11_UNDEFINED_ID) with 0 in *.
  unfold w12 in Ec. destruct (c =? _), (t =? _); lia.
Qed.
