(* ===== verification/Pkcs11SanitizeSpec.v ===== *)
(** The passes of ta/pkcs11/src/sanitize_object.c over a template that can be
    parsed do what the passes of the reference do, and [sanitize_client_object]
    does so whatever the bytes of a template, unless its check ends in the trace
    function. *)
From S2P Require Import Prelude State Bytes Bitstring Pkcs11Attr Pkcs11AttrProofs Pkcs11AttrSpec Pkcs11Sanitize Pkcs11SanitizeRef.

#[local] Ltac Zify.zify_post_hook ::= Z.div_mod_to_equations.

(** The attributes of a template in memory. *)
Record in_template (m : list Z) (src : Z) (l : list pattr) : Prop := {
  it_split : ∃ P R, m = P ++ pbody l ++ R ∧ Z.of_nat (length P) = src + 8;
  it_ok : Forall pattr_ok l;
  it_size : psize l < 2 ^ 31;
}.

(** A well-formed list; the result of a pass on it. *)
Definition well_formed (b : list Z) : Prop := ∃ l tail, attrs_ok l ∧ b = attrs_mem l tail.

Definition pass_left (want : Z + list pattr) (r : Z * list Z) : Prop :=
  (r.1 = PKCS11_CKR_DEVICE_MEMORY ∧ well_formed r.2) ∨
  match want with
  | inl rc => r.1 = rc ∧ well_formed r.2
  | inr l => attrs_ok l ∧ r = (PKCS11_CKR_OK, attrs_mem l [])
  end.

Lemma index_of_lookup x l n : index_of x l = Some n → l !! n = Some x.
Proof.
  revert n. induction l as [|y l IH]; intros n E; simpl in E; [done|].
  destruct (Z.eqb_spec y x) as [->|]; [by simplify_eq|].
  apply fmap_Some in E as (k & E & ->). simpl. by apply IH.
Qed.

(** The number of a boolean attribute. *)
Lemma shift_bool id : pkcs11_attr_is_boolean id = true →
  0 ≤ pkcs11_attr2boolprop_shift id < 22 ∧ bpa !! Z.to_nat (pkcs11_attr2boolprop_shift id) = Some id.
Proof.
  unfold pkcs11_attr_is_boolean, pkcs11_attr2boolprop_shift. intros E.
  destruct (index_of id bpa) as [n|] eqn:I; [|done]. apply index_of_lookup in I. rewrite Nat2Z.id. split; [|done].
  apply lookup_lt_Some in I. simpl in I. lia.
Qed.

Lemma shift_inj a b : pkcs11_attr_is_boolean a = true → pkcs11_attr_is_boolean b = true →
  pkcs11_attr2boolprop_shift a = pkcs11_attr2boolprop_shift b → a = b.
Proof.
  intros Ha Hb E. apply shift_bool in Ha as [_ Ha], Hb as [_ Hb]. rewrite E in Ha. congruence.
Qed.

Section Passes.
Context `{TaHeapLaws}.

(** ** One attribute *)

Section At.
Context (m : list Z) (src : Z) (l pre post : list pattr) (a : pattr).
Context (Ht : in_template m src l) (El : l = pre ++ a :: post).

Lemma it_head : pattr_ok a.
Proof using All. destruct Ht as [_ F _]. rewrite El in F. apply Forall_app in F as [_ F]. by inversion F. Qed.

Lemma it_next : 8 + psize pre + (8 + pa_size a) = 8 + psize (pre ++ [a]) ∧
  0 ≤ psize pre ∧ 0 ≤ psize post ∧ psize l = psize (pre ++ [a]) + psize post.
Proof using El.
  rewrite El, !psize_app, !psize_cons. change (psize []) with 0.
  pose proof (psize_count pre). pose proof (psize_count post). lia.
Qed.

Lemma wp_read_next s (Q : Z + Z * (Z * Z) * Z → ta_heap → Prop) :
  Q (inr (8 + psize (pre ++ [a]), (pa_id a, pa_size a), src + (8 + psize pre + 8))) s →
  wp (read_attr_advance m src (8 + psize l) (8 + psize pre)) s Q.
Proof using All.
  intros HQ. pose proof it_next as (E1 & Hp & Hq & E2). pose proof it_head as Ha.
  destruct Ht as [(P & R & -> & LP) _ S]. pose proof (pa_size_nonneg a).
  unfold read_attr_advance.
  destruct (Z.leb_spec (2 ^ 64) (8 + psize pre + 8)); [lia|].
  destruct (Z.ltb_spec (8 + psize l) (8 + psize pre + 8)); [lia|]. cbn [orb]. st_step.
  rewrite El at 1. rewrite pbody_app, pbody_cons, <- !app_assoc, (app_assoc P).
  apply wp_attr_head; [rewrite length_app, Nat2Z.inj_add; fold (psize pre); unfold psize; unfold psize in *; lia|done|].
  cbv beta iota. rewrite <- E1 in HQ.
  destruct (Z.leb_spec (2 ^ 64) (8 + psize pre + 8 + pa_size a)); [lia|].
  destruct (Z.ltb_spec (8 + psize l) (8 + psize pre + 8 + pa_size a)); [lia|]. cbn [orb]. st_step.
  by replace (8 + psize pre + 8 + pa_size a) with (8 + psize pre + (8 + pa_size a)) by lia.
Qed.

Lemma wp_data_next len s (Q : list Z → ta_heap → Prop) :
  len = pa_size a → Q (pa_data a) s → wp (rd (src + (8 + psize pre + 8)) len m) s Q.
Proof using All.
  intros -> HQ. destruct Ht as [(P & R & -> & LP) _ _].
  rewrite El. rewrite pbody_app, pbody_cons. unfold pa_bytes. rewrite <- !app_assoc.
  rewrite (app_assoc (le_bytes 4 (pa_id a))), (app_assoc (pbody pre)), (app_assoc P).
  apply wp_rd_mid; [|done|done]. rewrite !length_app, !le_bytes_length. unfold psize in *. lia.
Qed.

End At.

Lemma it_fuel m src l : in_template m src l → (length l < S (length m))%nat.
Proof.
  intros [(P & R & -> & _) _ _]. rewrite !length_app. pose proof (psize_count l). unfold psize in *. lia.
Qed.

(** ** Class and type *)

Lemma class_loop_spec m src l s : in_template m src l → ∀ suf fuel pre c t,
  l = pre ++ suf → (length suf < fuel)%nat →
  wp (class_loop fuel m src (8 + psize l) (8 + psize pre) c t) s
    (λ r s', s' = s ∧ match class_ref suf c t with
                      | Some ct => r = inr ct
                      | None => r = inl PKCS11_CKR_TEMPLATE_INCONSISTENT
                      end).
Proof.
  intros Ht. induction suf as [|a suf IH]; intros [|fuel] pre c t E Hf; simpl in Hf; try lia; simpl class_loop.
  { subst l. rewrite app_nil_r, Z.eqb_refl. by st_step. }
  pose proof (it_next _ _ _ _ E) as (E1 & Hp & Hq & E2). pose proof (pa_size_nonneg a).
  destruct (Z.eqb_spec (8 + psize pre) (8 + psize l)); [lia|]. st_step.
  eapply wp_read_next; [done|done|]. cbv iota beta. simpl class_ref.
  assert (IH' : ∀ c t, wp (class_loop fuel m src (8 + psize l) (8 + psize (pre ++ [a])) c t) s
    (λ r s', s' = s ∧ match class_ref suf c t with
                      | Some ct => r = inr ct
                      | None => r = inl PKCS11_CKR_TEMPLATE_INCONSISTENT
                      end)) by (intros; apply IH; [by rewrite <- app_assoc|lia]).
  destruct (pa_id a =? PKCS11_CKA_CLASS); [|destruct (pkcs11_attr_is_type (pa_id a) =? 0); simpl; [apply IH'|]].
  all: destruct (Z.eqb_spec (pa_size a) 4) as [Es|]; simpl; [|by st_step].
  all: st_step; unfold rd32; st_step; eapply wp_data_next; [done|done|done|]; st_step.
  all: unfold PKCS11_CKO_UNDEFINED_ID, PKCS11_CKK_UNDEFINED_ID.
  all: destruct (_ && _); [by st_step|apply IH'].
Qed.

Lemma found_ref_ok attribute found hint l0 : 0 ≤ attribute < 2 ^ 32 → attrs_ok l0 → psize l0 + 12 < 2 ^ 32 →
  attrs_ok (l0 ++ found_ref attribute found hint) ∧ psize (l0 ++ found_ref attribute found hint) ≤ psize l0 + 12.
Proof.
  intros Hi Hl Hs. rewrite psize_app. unfold found_ref.
  destruct (negb _); [|destruct (negb _)]; [..|rewrite app_nil_r; change (psize []) with 0; split; [done|lia]].
  all: (split; [apply attrs_ok_snoc; [done|by constructor|]|]); unfold pa_size; simpl; try lia.
  all: rewrite psize_cons; change (psize []) with 0; unfold pa_size; simpl; lia.
Qed.

Lemma wp_add_found l0 attribute found hint s (Q : Z * list Z → ta_heap → Prop) :
  attrs_ok l0 → 0 ≤ attribute < 2 ^ 32 → psize l0 + 12 < 2 ^ 32 →
  (∀ r s', pass_left (inr (l0 ++ found_ref attribute found hint)) r → Q r s') →
  wp (add_found (attrs_mem l0 []) attribute found hint) s Q.
Proof.
  intros Hl Hi Hs HQ. pose proof (found_ref_ok attribute found hint l0 Hi Hl Hs) as [Ho _].
  assert (G : ∀ v, wp (add_attribute (attrs_mem l0 []) attribute (le_bytes 4 v)) s
    (λ r s', pass_left (inr (l0 ++ [mk_pa attribute (le_bytes 4 v)])) r)).
  { intros v. assert (Hv : attrs_ok (l0 ++ [mk_pa attribute (le_bytes 4 v)]))
      by (apply attrs_ok_snoc; [done|constructor; [done|]|]; unfold pa_size; simpl; lia).
    apply (wp_add_attribute l0 [] (mk_pa attribute (le_bytes 4 v)) s); [done|..].
    - intros s' tail'. left. split; [done|]. by exists l0, tail'.
    - intros s'. by right. }
  unfold add_found, found_ref in *.
  destruct (negb (found =? PKCS11_UNDEFINED_ID)); [|destruct (negb (hint =? PKCS11_UNDEFINED_ID))].
  1,2: eapply wp_mono; [apply G|intros; by apply HQ].
  st_step. apply HQ. right. by rewrite app_nil_r in *.
Qed.

Lemma wp_sanitize_class_and_type m src l ch th s (Q : Z * list Z → ta_heap → Prop) c t :
  in_template m src l → class_ref l PKCS11_UNDEFINED_ID PKCS11_UNDEFINED_ID = Some (c, t) →
  (∀ r s', pass_left (inr (found_ref PKCS11_CKA_CLASS c ch ++ found_ref PKCS11_CKA_KEY_TYPE t th)) r → Q r s') →
  wp (sanitize_class_and_type (attrs_mem [] []) m src (8 + psize l) ch th) s Q.
Proof.
  intros Ht E HQ. unfold sanitize_class_and_type. st_step. eapply wp_mono.
  { change 8 with (8 + psize []) at 2. apply (class_loop_spec m src l s Ht l); [done|by eapply it_fuel]. }
  intros r s1 [-> Er]. unfold PKCS11_CKO_UNDEFINED_ID in Er. rewrite E in Er. subst r. st_step.
  assert (O0 : attrs_ok []) by by repeat constructor.
  apply wp_add_found; [done|done|done|]. simpl app.
  destruct (found_ref_ok PKCS11_CKA_CLASS c ch [] ltac:(done) O0 ltac:(done)) as [O1 S1].
  intros [rc b] s2 [[Er W]|[_ [= -> ->]]]; simpl in *.
  { subst rc. simpl. st_step. apply HQ. by left. }
  st_step. apply wp_add_found; [done|done|change (psize []) with 0 in *; lia|].
  intros [rc b] s3 [[Er W]|[O2 [= -> ->]]]; simpl in *; [subst rc; simpl|]; st_step; apply HQ; [by left|by right].
Qed.

(** ** Boolean attributes *)

(** The two bit strings stand for what has been seen. *)
Record bits_stand (seen boolprops : bitstr) (g : gmap Z bool) : Prop := {
  bs_len : length seen = 8%nat ∧ length boolprops = 8%nat;
  bs_bytes : bytes_ok seen ∧ bytes_ok boolprops;
  bs_at : ∀ id, pkcs11_attr_is_boolean id = true →
    bit_at seen (pkcs11_attr2boolprop_shift id) = bool_decide (is_Some (g !! id)) ∧
    bit_at boolprops (pkcs11_attr2boolprop_shift id) = default false (g !! id);
}.

Lemma bits_stand_empty : bits_stand (replicate 8 0) (replicate 8 0) ∅.
Proof.
  assert (Z0 : ∀ i, bit_at (replicate 8 0) i = false).
  { intros i. unfold bit_at, byte_of. destruct (replicate 8 0 !! _) as [b|] eqn:E; simpl; [|apply Z.testbit_0_l].
    apply lookup_replicate in E as [-> _]. apply Z.testbit_0_l. }
  constructor; [done|by split; apply Forall_replicate|].
  intros id _. rewrite !Z0, lookup_empty. done.
Qed.

Lemma capacity_8 b : length b = 8%nat → capacity b = 64.
Proof. intros E. unfold capacity. by rewrite E. Qed.

Lemma wp_bit_set name idx s (Q : bitstr → ta_heap → Prop) :
  length name = 8%nat → bytes_ok name → 0 ≤ idx < 22 →
  (∀ name', length name' = 8%nat → bytes_ok name' →
     (∀ i, 0 ≤ i → bit_at name' i = (i =? idx) || bit_at name i) → Q name' s) →
  wp (run (bit_set name idx)) s Q.
Proof.
  intros L B I HQ. destruct (bit_set_updates name idx B) as (n' & E & L' & B' & A); [rewrite capacity_8 by done; lia|].
  eapply wp_run; [exact E|]. apply HQ; [congruence|done|done].
Qed.

(** The bit strings after an attribute. *)
Lemma bits_stand_next seen boolprops seen' boolprops' g id v :
  bits_stand seen boolprops g → pkcs11_attr_is_boolean id = true →
  default v (g !! id) = v →
  length seen' = 8%nat → bytes_ok seen' → length boolprops' = 8%nat → bytes_ok boolprops' →
  (∀ i, 0 ≤ i → bit_at seen' i = (i =? pkcs11_attr2boolprop_shift id) || bit_at seen i) →
  (∀ i, 0 ≤ i → bit_at boolprops' i = (v && (i =? pkcs11_attr2boolprop_shift id)) || bit_at boolprops i) →
  bits_stand seen' boolprops' (<[id := v]> g).
Proof.
  intros [_ _ A] Hb Hv L1 B1 L2 B2 A1 A2. constructor; [done|done|]. intros j Hj.
  destruct (A j Hj) as [E1 E2]. pose proof (shift_bool j Hj) as [R _].
  rewrite A1, A2, E1, E2 by lia. destruct (decide (j = id)) as [->|N].
  - rewrite lookup_insert_eq, Z.eqb_refl. split; [done|]. simpl. destruct (g !! id) as [w|], v; simpl in *; subst; done.
  - rewrite lookup_insert_ne by congruence.
    destruct (Z.eqb_spec (pkcs11_attr2boolprop_shift j) (pkcs11_attr2boolprop_shift id)) as [E|_].
    + by apply shift_inj in E.
    + rewrite andb_false_r. done.
Qed.

Lemma boolprops_loop_spec m src l : in_template m src l → ∀ suf fuel pre l0 g seen boolprops s,
  l = pre ++ suf → (length suf < fuel)%nat → attrs_ok l0 → psize l0 + psize suf < 2 ^ 32 →
  bits_stand seen boolprops g →
  wp (boolprops_loop fuel (attrs_mem l0 []) m src (8 + psize l) (8 + psize pre) seen boolprops) s
    (λ r s', pass_left (match bool_ref g suf with inl rc => inl rc | inr lb => inr (l0 ++ lb) end) r).
Proof.
  intros Ht. induction suf as [|a suf IH]; intros [|fuel] pre l0 g seen boolprops s E Hf Hl Hs B; simpl in Hf; try lia;
    simpl boolprops_loop.
  { subst l. rewrite app_nil_r, Z.eqb_refl. st_step. right. simpl. by rewrite app_nil_r. }
  pose proof (it_next _ _ _ _ E) as (E1 & Hp & Hq & E2). pose proof (pa_size_nonneg a). rewrite psize_cons in Hs.
  assert (W0 : well_formed (attrs_mem l0 [])) by by exists l0, [].
  destruct (Z.eqb_spec (8 + psize pre) (8 + psize l)); [lia|]. st_step.
  eapply wp_read_next; [done|done|]. cbv iota beta zeta. simpl bool_ref.
  destruct (pkcs11_attr_is_boolean (pa_id a)) eqn:Hb; simpl negb; cbv iota.
  2:{ unfold pkcs11_attr_is_boolean in Hb. apply Z.leb_gt in Hb.
      destruct (Z.ltb_spec (pkcs11_attr2boolprop_shift (pa_id a)) 0); [|lia].
      apply IH; [by rewrite <- app_assoc|lia|done|lia|done]. }
  pose proof (shift_bool _ Hb) as [R _]. set (idx := pkcs11_attr2boolprop_shift (pa_id a)) in *.
  destruct (Z.ltb_spec idx 0); [lia|]. unfold PKCS11_BOOLPROPS_MAX_COUNT.
  destruct (Z.leb_spec 64 idx); [lia|]. cbn [orb].
  destruct (Z.eqb_spec (pa_size a) 1) as [Es|]; cbn [negb]; [|st_step; by right].
  st_step. eapply wp_data_next; [done|done|done|].
  pose proof B as [[L1 L2] [B1 B2] A]. destruct (A _ Hb) as [A1 A2]. fold idx in A1, A2.
  st_step. eapply wp_run; [apply bit_test_ok; rewrite capacity_8 by done; lia|].
  st_step. eapply wp_run; [apply bit_test_ok; rewrite capacity_8 by done; lia|].
  rewrite A1, A2. set (v := negb (of_le (pa_data a) =? 0)).
  assert (Vs : ∀ (Q : bitstr → ta_heap → Prop) s,
    (∀ bp', length bp' = 8%nat → bytes_ok bp' →
       (∀ i, 0 ≤ i → bit_at bp' i = (v && (i =? idx)) || bit_at boolprops i) → Q bp' s) →
    wp (run (if v then bit_set boolprops idx else Done boolprops)) s Q).
  { intros Q s' HQ. destruct v; [apply wp_bit_set; [done|done|lia|done]|].
    eapply wp_run; [done|]. by apply HQ. }
  destruct (g !! pa_id a) as [w|] eqn:Eg.
  - rewrite bool_decide_true by done. simpl default. cbn [andb negb].
    destruct (eqb v w) eqn:Ev; cbn [negb]; [|st_step; by right]. apply eqb_prop in Ev.
    st_step. apply Vs. intros bp' L3 B3 A3. st_step. st_step. rc_step.
    st_step. apply wp_bit_set; [done|done|lia|]. intros sn' L4 B4 A4.
    replace g with (<[pa_id a := v]> g) by (apply insert_id; congruence).
    apply IH; [by rewrite <- app_assoc|lia|done|lia|].
    eapply bits_stand_next; [exact B|done|by rewrite Eg, Ev|done..].
  - rewrite bool_decide_false by (intros [? ?]; done). cbn [andb negb].
    st_step. apply Vs. intros bp' L3 B3 A3. st_step.
    set (x := mk_pa (pa_id a) [Z.b2z v]).
    assert (Hx : pattr_ok x) by (constructor; [apply (it_head _ _ _ _ _ _ Ht E)|done]).
    assert (Ho : attrs_ok (l0 ++ [x])) by (apply attrs_ok_snoc; [done|done|]; unfold pa_size, x; simpl; lia).
    apply (wp_add_attribute l0 [] x); [done|..].
    { intros s' tail'. rc_step. st_step. left. split; [done|]. by exists l0, tail'. }
    intros s'. rc_step. st_step. apply wp_bit_set; [done|done|lia|]. intros sn' L4 B4 A4.
    eapply wp_mono.
    { apply (IH fuel (pre ++ [a]) (l0 ++ [x]) (<[pa_id a := v]> g)); [by rewrite <- app_assoc|lia|done| |].
      - rewrite psize_app, psize_cons. change (psize []) with 0. unfold x, pa_size. simpl. lia.
      - eapply bits_stand_next; [exact B|done|by rewrite Eg|done..]. }
    intros r s1 P. destruct (bool_ref _ suf); [done|]. by rewrite <- app_assoc in P.
Qed.

End Passes.

#[local] Ltac Zify.zify_post_hook ::= Z.div_mod_to_equations.

Definition obj_well_formed (o : option (list Z)) : Prop :=
  match o with None => True | Some b => well_formed b end.

(** The result of [sanitize_client_object]: as the reference has it, or no memory. *)
Definition obj_left (want : san_result) (r : Z * option (list Z)) : Prop :=
  (r.1 = PKCS11_CKR_DEVICE_MEMORY ∧ obj_well_formed r.2) ∨
  match want with
  | SBad => False
  | SErr rc => r.1 = rc ∧ obj_well_formed r.2
  | SOk l => attrs_ok l ∧ r = (PKCS11_CKR_OK, Some (attrs_mem l []))
  end.

Definition unhinted (fuel : nat) (x : list Z) : san_result :=
  san_ref fuel x PKCS11_UNDEFINED_ID PKCS11_UNDEFINED_ID.

(** The last pass, onto the list [l0]. *)
Definition rest_of (l0 : list pattr) (r : san_result) : Z + list pattr :=
  match r with SBad => inl 0 | SErr rc => inl rc | SOk l => inr (l0 ++ l) end.

(** A refusal is not success. *)
Lemma bool_ref_err l : ∀ seen rc, bool_ref seen l = inl rc → rc ≠ 0.
Proof.
  induction l as [|a l IH]; intros seen rc E; simpl in E; [done|].
  destruct (pkcs11_attr_is_boolean (pa_id a)); simpl in E; [|by eapply IH].
  destruct (pa_size a =? 1); simpl in E; [|by simplify_eq].
  destruct (seen !! pa_id a) as [w|]; [destruct (eqb _ w); [by eapply IH|by simplify_eq]|].
  destruct (bool_ref _ l) as [|r'] eqn:E'; simplify_eq. by eapply IH.
Qed.

Lemma others_ref_err nested l : (∀ x rc, nested x = SErr rc → rc ≠ 0) →
  ∀ rc, others_ref nested l = SErr rc → rc ≠ 0.
Proof.
  intros N. induction l as [|a l IH]; intros rc E; simpl in E; [done|].
  destruct (handled (pa_id a)); [by apply IH|].
  destruct (if pkcs11_attr_has_indirect_attributes _ then _ else _) as [|rc'|here] eqn:Eh; [done| |].
  - simplify_eq. destruct (pkcs11_attr_has_indirect_attributes _).
    + destruct (nested _) eqn:En; simplify_eq. by eapply N.
    + destruct (valid_pkcs11_attribute_id _ _); by simplify_eq.
  - destruct (others_ref nested l); simplify_eq. by apply IH.
Qed.

Lemma san_ref_err fuel : ∀ x ch th rc, san_ref fuel x ch th = SErr rc → rc ≠ 0.
Proof.
  induction fuel as [|fuel IH]; intros x ch th rc E; [done|]. cbn [san_ref] in E. cbv zeta in E.
  destruct (length x <? 8)%nat; [by simplify_eq|]. destruct (length x <? _)%nat; [by simplify_eq|].
  destruct (parse_all _) as [l|]; [|done]. destruct (class_ref l _ _) as [[c t]|]; [|done].
  destruct (bool_ref ∅ l) as [rc'|lb] eqn:Eb; [simplify_eq; by eapply bool_ref_err|].
  destruct (others_ref _ l) eqn:Eo; simplify_eq. eapply others_ref_err; [|exact Eo]. intros y rc1 Ey. exact (IH _ _ _ _ Ey).
Qed.

Section Spec.
Context `{TaHeapLaws}.

Definition object_spec (fuel : nat) : Prop := ∀ f m P x R ch th s,
  m = P ++ x ++ R → Forall is_byte x → Z.of_nat (length x) + 32 ≤ 2 ^ 31 → (length x < fuel)%nat →
  san_ref f x ch th ≠ SBad →
  wp (sanitize_client_object fuel m (Z.of_nat (length P)) (Z.of_nat (length x)) ch th) s
    (λ r s', obj_left (san_ref f x ch th) r).

Definition loop_spec (fuel : nat) : Prop := ∀ f m src l pre suf l0 s,
  in_template m src l → l = pre ++ suf → psize suf < Z.of_nat fuel → psize suf + 32 ≤ 2 ^ 31 →
  Forall (λ a, Forall is_byte (pa_data a)) l → attrs_ok l0 → psize l0 + psize suf < 2 ^ 32 →
  others_ref (unhinted f) suf ≠ SBad →
  wp (sanitize_loop fuel (attrs_mem l0 []) m src (8 + psize l) (8 + psize pre)) s
    (λ r s', pass_left (rest_of l0 (others_ref (unhinted f) suf)) r).

(** The nested list added as a value. *)
Lemma wp_sanitize_indirect_attr fuel f m src l pre suf a l0 s : object_spec fuel →
  in_template m src l → l = pre ++ a :: suf → Forall is_byte (pa_data a) → pa_size a < Z.of_nat fuel →
  pa_size a + 32 ≤ 2 ^ 31 → attrs_ok l0 → psize l0 + 8 + pa_size a < 2 ^ 32 →
  pkcs11_attr_has_indirect_attributes (pa_id a) = true → unhinted f (pa_data a) ≠ SBad →
  wp (sanitize_indirect_attr (sanitize_client_object fuel m) (attrs_mem l0 []) (pa_id a) (pa_size a)
        (src + (8 + psize pre + 8))) s
    (λ r s', pass_left (match unhinted f (pa_data a) with
                        | SBad => inl 0 | SErr rc => inl rc
                        | SOk l2 => inr (l0 ++ [mk_pa (pa_id a) (obj_bytes l2)])
                        end) r).
Proof.
  intros IH Ht E Fb Hf Hs Hl Hs0 Hi Nb. unfold sanitize_indirect_attr. st_step. apply wp_assert; [done|].
  assert (W0 : well_formed (attrs_mem l0 [])) by by exists l0, [].
  pose proof (it_head _ _ _ _ _ _ Ht E) as Ha. destruct Ht as [(P & R & Em & LP) _ _].
  assert (Em' : m = (P ++ pbody pre ++ le_bytes 4 (pa_id a) ++ le_bytes 4 (pa_size a)) ++ pa_data a ++ pbody suf ++ R).
  { rewrite Em, E, pbody_app, pbody_cons. unfold pa_bytes. by rewrite <- !app_assoc. }
  replace (src + (8 + psize pre + 8)) with
    (Z.of_nat (length (P ++ pbody pre ++ le_bytes 4 (pa_id a) ++ le_bytes 4 (pa_size a))))
    by (rewrite !length_app, !le_bytes_length; unfold psize; lia).
  st_step. eapply wp_mono.
  { apply (IH f m _ _ _ PKCS11_CKO_UNDEFINED_ID PKCS11_UNDEFINED_ID s Em');
      [done|unfold pa_size in *; lia|unfold pa_size in *; lia|done]. }
  change (san_ref f (pa_data a) PKCS11_CKO_UNDEFINED_ID PKCS11_UNDEFINED_ID) with (unhinted f (pa_data a)).
  intros [rc o] s1 [[Er W]|L]; simpl in *; [subst rc; simpl; st_step; by left|].
  destruct (unhinted f (pa_data a)) as [|rc'|l2] eqn:Eu; [done| |].
  - destruct L as [-> W]. apply san_ref_err in Eu. apply Z.eqb_neq in Eu. rewrite Eu. st_step. by right.
  - destruct L as [O2 [= -> ->]]. rc_step. st_step. apply wp_attrs_size; [done|]. st_step.
    pose proof (san_ref_size _ _ _ _ _ Fb Eu) as S2. change (w12 PKCS11_UNDEFINED_ID) with 0 in S2.
    assert (Eo : attrs_mem l2 [] = [] ++ obj_bytes l2 ++ []) by (unfold attrs_mem, obj_bytes; by rewrite !app_nil_r).
    rewrite Eo. apply wp_rd_mid; [done|by rewrite length_obj_bytes|].
    assert (Sx : pa_size (mk_pa (pa_id a) (obj_bytes l2)) ≤ pa_size a)
      by (unfold pa_size; simpl pa_data; rewrite length_obj_bytes; lia).
    assert (attrs_ok (l0 ++ [mk_pa (pa_id a) (obj_bytes l2)])).
    { apply attrs_ok_snoc; [done|constructor; [apply Ha|destruct Ha; lia]|lia]. }
    apply (wp_add_attribute l0 [] (mk_pa (pa_id a) (obj_bytes l2))); [done|..].
    + intros s' tail'. left. split; [done|]. by exists l0, tail'.
    + intros s'. by right.
Qed.

Lemma loop_step fuel : object_spec fuel → loop_spec fuel → loop_spec (S fuel).
Proof.
  intros IHo IHl f m src l pre suf l0 s Ht E Hf Hb Fb Hl Hs Nb. simpl sanitize_loop.
  destruct suf as [|a suf].
  { subst l. rewrite app_nil_r, Z.eqb_refl. st_step. right. simpl. by rewrite app_nil_r. }
  pose proof (it_next _ _ _ _ E) as (E1 & Hp & Hq & E2). pose proof (pa_size_nonneg a).
  rewrite psize_cons in Hf, Hs, Hb. assert (W0 : well_formed (attrs_mem l0 [])) by by exists l0, [].
  pose proof (it_head _ _ _ _ _ _ Ht E) as Ha.
  destruct (Z.eqb_spec (8 + psize pre) (8 + psize l)); [lia|]. st_step.
  eapply wp_read_next; [done|done|]. cbv iota beta. simpl others_ref in Nb |- *. fold (is_ct (pa_id a)).
  unfold handled in *. fold (is_ct (pa_id a)) in *.
  assert (Next : ∀ l1 s1, attrs_ok l1 → psize l1 + psize suf < 2 ^ 32 → others_ref (unhinted f) suf ≠ SBad →
    wp (sanitize_loop fuel (attrs_mem l1 []) m src (8 + psize l) (8 + psize (pre ++ [a]))) s1
      (λ r s', pass_left (rest_of l1 (others_ref (unhinted f) suf)) r)).
  { intros l1 s1 ?? Nb'. apply (IHl f m src l (pre ++ [a]) suf l1 s1); [done|by rewrite <- app_assoc|lia|lia|done..]. }
  destruct (is_ct (pa_id a) || pkcs11_attr_is_boolean (pa_id a)); [apply Next; [done|lia|done]|].
  destruct (pkcs11_attr_has_indirect_attributes (pa_id a)) eqn:Hi.
  - assert (Fa : Forall is_byte (pa_data a)) by (subst l; apply Forall_app in Fb as [_ Fb]; by inversion Fb).
    st_step. eapply wp_mono; [apply (wp_sanitize_indirect_attr fuel f m src l pre suf a l0 s IHo Ht E Fa);
      [lia|lia|done|lia|done|by destruct (unhinted f (pa_data a))]|].
    intros [rc b] s1 [[Er W]|L]; simpl in *; [subst rc; simpl; st_step; by left|].
    destruct (unhinted f (pa_data a)) as [|rc'|l2] eqn:Eu; [done| |].
    + destruct L as [-> W]. apply san_ref_err in Eu. apply Z.eqb_neq in Eu. rewrite Eu. st_step. by right.
    + destruct L as [O2 [= -> ->]]. rc_step.
      pose proof (san_ref_size _ _ _ _ _ Fa Eu) as S2. change (w12 PKCS11_UNDEFINED_ID) with 0 in S2.
      eapply wp_mono; [apply Next; [done| |by destruct (others_ref _ suf)]|].
      * rewrite psize_app, psize_cons. change (psize []) with 0. unfold pa_size at 1. simpl pa_data.
        rewrite length_obj_bytes. unfold pa_size in *. lia.
      * intros r s2 L. destruct (others_ref _ suf); simpl in *; [done|done|]. by rewrite <- app_assoc in L.
  - destruct (valid_pkcs11_attribute_id (pa_id a) (pa_size a)); simpl negb; cbv iota; [|st_step; by right].
    st_step. eapply wp_data_next; [done|done|done|].
    assert (Ho : attrs_ok (l0 ++ [a])) by (apply attrs_ok_snoc; [done|done|lia]).
    st_step. apply (wp_add_attribute l0 [] a); [done|..].
    { intros s' tail'. rc_step. st_step. left. split; [done|]. by exists l0, tail'. }
    intros s'. rc_step. eapply wp_mono; [apply Next; [done| |by destruct (others_ref _ suf)]|].
    + rewrite psize_app, psize_cons. change (psize []) with 0. lia.
    + intros r s2 L. destruct (others_ref _ suf); simpl in *; [done|done|]. by rewrite <- app_assoc in L.
Qed.

(** The attributes of a template whose head is right. *)
Lemma template_split P x R n l :
  Forall is_byte x → n = of_le (take 4 x) → Z.of_nat (length x) + 32 ≤ 2 ^ 31 → (8 + Z.to_nat n ≤ length x)%nat →
  parse_all (take (Z.to_nat n) (drop 8 x)) = Some l →
  in_template (P ++ x ++ R) (Z.of_nat (length P)) l ∧ n = psize l ∧ Forall (λ a, Forall is_byte (pa_data a)) l.
Proof.
  intros F -> Hx Hn E. pose proof (of_le_4 x F ltac:(lia)) as Rn.
  apply parse_sound in E as (E & Fl & D); [|by apply Forall_take, Forall_drop].
  assert (En : of_le (take 4 x) = psize l) by (unfold psize; rewrite <- E, length_take, length_drop; lia).
  split_and!; [|done|done]. constructor; [|done|lia].
  exists (P ++ take 8 x), (drop (8 + Z.to_nat (of_le (take 4 x))) x ++ R). split.
  - rewrite <- E, <- app_assoc. f_equal. rewrite !app_assoc. f_equal. rewrite <- app_assoc, <- drop_drop, take_drop, take_drop. done.
  - rewrite length_app, length_take. lia.
Qed.

Lemma object_step fuel : loop_spec fuel → object_spec (S fuel).
Proof.
  intros IH [|f] m P x R ch th s Em Fx Hx Hf Nb; [done|]. cbn [san_ref] in *. cbv zeta in *. simpl sanitize_client_object.
  destruct (Nat.ltb_spec (length x) 8) as [L8|L8].
  { destruct (Z.ltb_spec (Z.of_nat (length x)) 8); [|lia]. st_step. by right. }
  destruct (Z.ltb_spec (Z.of_nat (length x)) 8); [lia|].
  assert (Em' : m = P ++ take 8 x ++ drop 8 x ++ R) by (by rewrite (app_assoc (take 8 x)), take_drop).
  st_step. rewrite Em' at 1. apply wp_rd_mid; [done|rewrite length_take; lia|].
  rewrite take_take. change (4 `min` 8)%nat with 4%nat. pose proof (of_le_4 x Fx ltac:(lia)) as Rn.
  destruct (Z.leb_spec (2 ^ 64) (8 + of_le (take 4 x))); [lia|]. cbn [orb].
  destruct (Nat.ltb_spec (length x) (8 + Z.to_nat (of_le (take 4 x)))).
  { destruct (Z.ltb_spec (Z.of_nat (length x)) (8 + of_le (take 4 x))); [|lia]. st_step. by right. }
  destruct (Z.ltb_spec (Z.of_nat (length x)) (8 + of_le (take 4 x))); [lia|].
  destruct (parse_all _) as [l|] eqn:Ep; [|done]. destruct (class_ref l _ _) as [[c t]|] eqn:Ec; [|done].
  destruct (template_split P x R _ l Fx eq_refl Hx ltac:(lia) Ep) as (Ht & En & D). rewrite <- Em in Ht. rewrite En in *.
  st_step. unfold init_attributes_head. st_step. eapply wp_mono; [apply ta_alloc_ok|]. intros [|] s0 _; st_step.
  2:{ cbv iota beta. st_step. by left. }
  cbv iota beta. st_step. change (replicate 8 0) with (attrs_mem [] []). eapply wp_sanitize_class_and_type; [done|done|].
  set (l0 := found_ref PKCS11_CKA_CLASS c ch ++ found_ref PKCS11_CKA_KEY_TYPE t th) in *.
  assert (S0 : psize l0 ≤ 24).
  { unfold l0. rewrite psize_app, !found_ref_size. pose proof (w12_bound ch). pose proof (w12_bound th).
    destruct (c =? _), (t =? _); lia. }
  pose proof (it_size _ _ _ Ht) as Sl.
  intros [rc b] s1 [[Er W]|[O1 [= -> ->]]]; simpl in *; [subst rc; simpl; st_step; by left|]. st_step.
  unfold sanitize_boolprops. eapply wp_mono.
  { change 8 with (8 + psize []) at 2. apply (boolprops_loop_spec m (Z.of_nat (length P)) l Ht l _ [] l0 ∅);
      [done|by eapply it_fuel|done|lia|apply bits_stand_empty]. }
  intros [rc b] s2 [[Er W]|L]; simpl in *; [subst rc; simpl; st_step; by left|].
  destruct (bool_ref ∅ l) as [rc'|lb] eqn:Eb.
  { destruct L as [-> W]. pose proof (bool_ref_err l _ _ Eb) as N. apply Z.eqb_neq in N. rewrite N. st_step. by right. }
  destruct L as [O2 [= -> ->]]. rc_step.
  pose proof (bool_ref_size l _ _ Eb) as Sb. pose proof (parts_sum l) as Sp.
  pose proof (part_nonneg is_ct l). pose proof (part_nonneg (λ id, negb (handled id)) l).
  st_step. eapply wp_mono.
  { change 8 with (8 + psize []) at 2. apply (IH f m _ l [] l (l0 ++ lb));
      [done|done|lia|lia|done|done|rewrite psize_app; lia|]. unfold unhinted. by destruct (others_ref _ l). }
  intros [rc b] s3 [[Er W]|L]; simpl in *; [subst rc; st_step; by left|].
  st_step. right. unfold unhinted in L. destruct (others_ref _ l) as [|rc'|lo]; [done|done|].
  destruct L as [O3 [= -> ->]]. subst l0. rewrite <- !app_assoc in *. done.
Qed.

Lemma sanitize_spec fuel : object_spec fuel ∧ loop_spec fuel.
Proof.
  induction fuel as [|fuel [IHo IHl]].
  - split; [intros f m P x R ch th s _ _ _ Hf; lia|]. intros f m src l pre suf l0 s Ht E Hf. pose proof (psize_count suf). lia.
  - split; [by apply object_step|by apply loop_step].
Qed.

End Spec.
