(* ===== verification/Pkcs11SanitizeMain.v ===== *)
(** The check of a client's template: enough fuel, the main theorem, and what the
    list that it builds looks like. *)
From S2P Require Import Prelude State Bytes Bitstring Pkcs11Attr Pkcs11AttrProofs Pkcs11AttrSpec.
From S2P Require Import Pkcs11Sanitize Pkcs11SanitizeRef Pkcs11SanitizeSpec.

#[local] Ltac Zify.zify_post_hook ::= Z.div_mod_to_equations.

(** ** Fuel *)

Lemma others_ref_ext n1 n2 l : (∀ a, a ∈ l → n1 (pa_data a) = n2 (pa_data a)) → others_ref n1 l = others_ref n2 l.
Proof.
  induction l as [|a l IH]; intros E; simpl; [done|].
  rewrite E by left. rewrite IH by (intros b Hb; apply E; by right). done.
Qed.

Lemma pa_size_le a l : a ∈ l → pa_size a ≤ psize l.
Proof.
  induction 1 as [a l|a b l _ IH]; rewrite psize_cons; [pose proof (psize_count l)|pose proof (pa_size_nonneg b)]; lia.
Qed.

Lemma san_ref_fuel f : ∀ g x ch th, Forall is_byte x → (length x < f)%nat → (length x < g)%nat →
  san_ref f x ch th = san_ref g x ch th.
Proof.
  induction f as [|f IH]; intros [|g] x ch th F Hf Hg; try lia. cbn [san_ref]. cbv zeta.
  destruct (Nat.ltb_spec (length x) 8); [done|]. destruct (Nat.ltb_spec (length x) (8 + Z.to_nat (of_le (take 4 x)))); [done|].
  destruct (parse_all _) as [l|] eqn:Ep; [|done]. destruct (class_ref l _ _) as [[c t]|]; [|done].
  destruct (bool_ref ∅ l); [done|].
  apply parse_sound in Ep as (Ep & _ & D); [|by apply Forall_take, Forall_drop].
  assert (Sl : psize l ≤ Z.of_nat (length x) - 8) by (unfold psize; rewrite <- Ep, length_take, length_drop; lia).
  erewrite (others_ref_ext _ _ l); [done|]. intros a Ha. simpl. pose proof (pa_size_le a l Ha) as Sa.
  rewrite Forall_forall in D. unfold pa_size in Sa. apply IH; [by apply D|lia|lia].
Qed.

Section Main.
Context `{TaHeapLaws}.

(** C8: [sanitize_client_object] on any bytes [x], wherever they lie in memory:
    unless the check of class and type refuses them, it ends, reads nothing
    outside the template, and builds the list of the reference, which parses the
    template and handles nested templates in the same way, or gives the error of
    the reference; or there is no memory. What it leaves is a well-formed list. *)
Theorem sanitize_client_object_correct fuel P x R class_hint type_hint s :
  Forall is_byte x → Z.of_nat (length x) + 32 ≤ 2 ^ 31 → (length x < fuel)%nat →
  template_ref x class_hint type_hint ≠ SBad →
  wp (sanitize_client_object fuel (P ++ x ++ R) (Z.of_nat (length P)) (Z.of_nat (length x))
        class_hint type_hint) s
    (λ r s', obj_left (template_ref x class_hint type_hint) r).
Proof.
  intros F Hx Hf Nb. unfold template_ref in *.
  destruct (sanitize_spec fuel) as [So _].
  apply (So (S (length x)) _ P x R class_hint type_hint s); [done|done|done|done|done].
Qed.

End Main.

(** ** The list built *)

(** Attributes of class, type, booleans and the rest. *)
Lemma found_with_id x attribute c h :
  with_id x (found_ref attribute c h) = if decide (x = attribute) then found_ref attribute c h else [].
Proof.
  unfold found_ref, with_id. destruct (negb _); [|destruct (negb _)]; case_decide;
    rewrite ?filter_cons, ?filter_nil; simpl; try case_decide; done.
Qed.

Lemma bool_ref_ids l : ∀ seen r, bool_ref seen l = inr r →
  NoDup (ids r) ∧ Forall (λ a, pkcs11_attr_is_boolean (pa_id a) = true ∧ seen !! pa_id a = None ∧
                     (pa_data a = [0] ∨ pa_data a = [1])) r.
Proof.
  induction l as [|a l IH]; intros seen r E; simpl in E; [simplify_eq; split; constructor|].
  destruct (pkcs11_attr_is_boolean (pa_id a)) eqn:Hb; simpl in E; [|by apply IH].
  destruct (pa_size a =? 1); simpl in E; [|done].
  destruct (seen !! pa_id a) as [w|] eqn:Es; [destruct (eqb _ w); [by apply IH|done]|].
  destruct (bool_ref _ l) as [|r'] eqn:E'; simplify_eq. apply IH in E' as [N F]. split.
  - simpl. apply NoDup_cons. split; [|done]. unfold ids. rewrite list_elem_of_fmap. intros (b & Eb & Hb').
    rewrite Forall_forall in F. destruct (F b Hb') as (_ & Nb & _). rewrite <- Eb, lookup_insert_eq in Nb. done.
  - constructor; [split_and!; [done|done|]|].
    + simpl. destruct (negb _); [by right|by left].
    + eapply Forall_impl; [exact F|]. simpl. intros b (? & Nb & ?). split_and!; [done| |done].
      by apply lookup_insert_None in Nb as [? _].
Qed.

Lemma others_ref_ids nested l : ∀ r, others_ref nested l = SOk r →
  Forall (λ a, handled (pa_id a) = false ∧
    (pkcs11_attr_has_indirect_attributes (pa_id a) = true ∨ valid_pkcs11_attribute_id (pa_id a) (pa_size a) = true)) r.
Proof.
  induction l as [|a l IH]; intros r E; simpl in E; [simplify_eq; constructor|].
  destruct (handled (pa_id a)) eqn:Hh; [by apply IH|].
  destruct (pkcs11_attr_has_indirect_attributes (pa_id a)) eqn:Hi.
  - destruct (nested (pa_data a)) as [| |l2]; [done|done|]. destruct (others_ref nested l) as [| |r']; simplify_eq.
    constructor; [|by apply IH]. split; [done|by left].
  - destruct (valid_pkcs11_attribute_id _ _) eqn:Hv; [|done]. destruct (others_ref nested l) as [| |r']; simplify_eq.
    constructor; [|by apply IH]. split; [done|by right].
Qed.

(** The types of attributes in the PKCS#11 specification, by their numbers: what
    [CK_BBOOL], [CK_ULONG] and [CK_DATE] stand for has one, four and, in the TA,
    four bytes; strings, big integers, arrays and templates have any number. *)
Inductive value_type := CK_BBOOL | CK_ULONG | CK_DATE | CK_BYTES.

Definition bool_ids : list Z :=
  [0x1; 0x2; 0x86; 0x103; 0x104; 0x105; 0x106; 0x107; 0x108; 0x109; 0x10A; 0x10B; 0x10C; 0x162; 0x163;
   0x164; 0x165; 0x170; 0x171; 0x172; 0x202; 0x210].
Definition ulong_ids : list Z := [0x0; 0x80; 0x87; 0x88; 0x8C; 0x100; 0x121; 0x161; 0x166; 0x500].
Definition date_ids : list Z := [0x110; 0x111].

(** The last two are of the TA: the hidden point of a key, and no attribute. *)
Definition bytes_ids : list Z :=
  [0x3; 0x10; 0x11; 0x12; 0x81; 0x82; 0x89; 0x8A; 0x8B; 0x90; 0x101; 0x102; 0x120; 0x122; 0x123; 0x124;
   0x125; 0x126; 0x127; 0x128; 0x129; 0x180; 0x181; 0x40000211; 0x40000212; 0x40000213; 0x40000600;
   0x80010000; 0xFFFFFFFF].

Definition pkcs11_type (id : Z) : option value_type :=
  if bool_decide (id ∈ bool_ids) then Some CK_BBOOL else
  if bool_decide (id ∈ ulong_ids) then Some CK_ULONG else
  if bool_decide (id ∈ date_ids) then Some CK_DATE else
  if bool_decide (id ∈ bytes_ids) then Some CK_BYTES else None.

(** The attribute is known and has a value of its type. *)
Definition well_typed (a : pattr) : Prop :=
  match pkcs11_type (pa_id a) with
  | Some CK_BBOOL => pa_data a = [0] ∨ pa_data a = [1]
  | Some CK_ULONG | Some CK_DATE => pa_size a = 4
  | Some CK_BYTES => True
  | None => False
  end.

(** There is one class and one type at most, a boolean is given once, and all
    attributes are well-typed. *)
Definition clean (l : list pattr) : Prop :=
  (length (with_id 0x0 l) ≤ 1)%nat ∧ (length (with_id 0x100 l) ≤ 1)%nat ∧
  (∀ id, pkcs11_type id = Some CK_BBOOL → (length (with_id id l) ≤ 1)%nat) ∧
  Forall well_typed l.

Lemma bool_ids_bpa : bool_ids = bpa.
Proof. reflexivity. Qed.

Lemma is_boolean_type id : pkcs11_attr_is_boolean id = true ↔ pkcs11_type id = Some CK_BBOOL.
Proof.
  unfold pkcs11_type. rewrite bool_ids_bpa. split.
  - intros B. destruct (shift_bool id B) as [_ L]. rewrite bool_decide_eq_true_2; [done|].
    by eapply list_elem_of_lookup_2.
  - case_bool_decide as B; [intros _|by repeat case_bool_decide].
    assert (F : Forall (λ id, pkcs11_attr_is_boolean id = true) bpa)
      by (repeat (apply Forall_cons; split; [vm_compute; reflexivity|]); constructor).
    rewrite Forall_forall in F. by apply F.
Qed.

(** The table of the TA says the same as the types. *)
Definition size_of_type (t : option value_type) : option Z :=
  match t with
  | Some CK_BBOOL => Some 1
  | Some CK_ULONG | Some CK_DATE => Some 4
  | Some CK_BYTES => Some 0
  | None => None
  end.

Lemma attr_ids_types : Forall (λ x, size_of_type (pkcs11_type x.1) = Some x.2) attr_ids.
Proof. unfold attr_ids. repeat (apply Forall_cons; split; [vm_compute; reflexivity|]). constructor. Qed.

Lemma valid_id_in id size l : valid_id_loop l id size = true → ∃ s, (id, s) ∈ l ∧ (s = 0 ∨ size = s).
Proof.
  induction l as [|[i s] l IH]; [done|]. cbn [valid_id_loop]. destruct (Z.eqb_spec id i) as [->|].
  - intros V. exists s. split; [by left|].
    apply orb_true_iff in V as [V|V]; apply Z.eqb_eq in V; auto.
  - intros (s' & Hs & V)%IH. exists s'. split; [by right|done].
Qed.

Lemma valid_well_typed a :
  valid_pkcs11_attribute_id (pa_id a) (pa_size a) = true → pkcs11_attr_is_boolean (pa_id a) = false →
  well_typed a.
Proof.
  intros (s & Hs & V)%valid_id_in B. pose proof attr_ids_types as T. rewrite Forall_forall in T.
  specialize (T _ Hs). simpl in T. unfold well_typed. pose proof (is_boolean_type (pa_id a)) as [_ Bt].
  destruct (pkcs11_type (pa_id a)) as [[]|]; simplify_eq/=; [by rewrite Bt in B|lia|lia|done].
Qed.

Lemma indirect_well_typed a : pkcs11_attr_has_indirect_attributes (pa_id a) = true → well_typed a.
Proof.
  unfold pkcs11_attr_has_indirect_attributes, well_typed. intros I.
  apply orb_true_iff in I as [[I|I]%orb_true_iff|I]; apply Z.eqb_eq in I; by rewrite I.
Qed.

Lemma with_id_ne id l (P : pattr → Prop) : Forall P l → (∀ a, P a → pa_id a ≠ id) → with_id id l = [].
Proof. intros F N. apply with_id_none. eapply Forall_impl; [exact F|exact N]. Qed.

Lemma with_id_unique id l : NoDup (ids l) →
  with_id id l = [] ∨ ∃ a, a ∈ l ∧ pa_id a = id ∧ with_id id l = [a].
Proof.
  intros N. destruct (find_id id l) as [a|] eqn:Ef; [right|left; unfold find_id in Ef; by destruct (with_id id l)].
  exists a. destruct (find_id_some _ _ _ Ef) as [Ha Ei]. split_and!; [done|done|].
  pose proof (drop_id_split id l) as D. rewrite Ef in D. destruct D as (pre & post & -> & _ & _ & Fp).
  unfold ids in N. rewrite fmap_app, fmap_cons in N. apply NoDup_app in N as (_ & _ & N).
  apply NoDup_cons in N as [N _]. rewrite Ei in N. apply not_in_ids in N.
  rewrite with_id_app, (with_id_none _ pre) by done. unfold with_id. rewrite filter_cons, decide_True by done.
  fold (with_id id post). by rewrite with_id_none.
Qed.

Lemma found_length attribute c h : (length (found_ref attribute c h) ≤ 1)%nat.
Proof. unfold found_ref. destruct (negb _); [|destruct (negb _)]; simpl; lia. Qed.

Lemma found_well_typed attribute c h :
  size_of_type (pkcs11_type attribute) = Some 4 → Forall well_typed (found_ref attribute c h).
Proof.
  intros V. assert (W : ∀ v, well_typed (mk_pa attribute (le_bytes 4 v))).
  { intros v. unfold well_typed. simpl pa_id. by destruct (pkcs11_type attribute) as [[]|]. }
  unfold found_ref. destruct (negb _); [|destruct (negb _)]; repeat constructor; apply W.
Qed.

(** The list of the reference is clean. *)
Lemma template_ref_clean x class_hint type_hint l :
  template_ref x class_hint type_hint = SOk l → clean l.
Proof.
  intros E. unfold template_ref in E. cbn [san_ref] in E. cbv zeta in E.
  destruct (length x <? 8)%nat; [done|]. destruct (length x <? _)%nat; [done|].
  destruct (parse_all _) as [la|]; [|done]. destruct (class_ref la _ _) as [[c t]|]; [|done].
  destruct (bool_ref ∅ la) as [|lb] eqn:Eb; [done|]. destruct (others_ref _ la) as [| |lo] eqn:Eo; [done|done|].
  injection E as <-. apply bool_ref_ids in Eb as [Nb Fb]. apply others_ref_ids in Eo.
  assert (Ct : ∀ id, is_ct id = true → with_id id lb = [] ∧ with_id id lo = []).
  { intros id Hc. split; eapply with_id_ne; try eassumption; simpl.
    - intros a (B & _) <-. pose proof (ct_not_bool _ Hc). congruence.
    - intros a (Hh & _) <-. unfold handled in Hh. fold (is_ct (pa_id a)) in Hh. by rewrite Hc in Hh. }
  unfold clean. split_and!.
  - change (with_id 0x0) with (with_id PKCS11_CKA_CLASS).
    rewrite !with_id_app, !found_with_id. destruct (Ct PKCS11_CKA_CLASS eq_refl) as [-> ->].
    simpl. rewrite !app_nil_r. apply found_length.
  - change (with_id 0x100) with (with_id PKCS11_CKA_KEY_TYPE).
    rewrite !with_id_app, !found_with_id. destruct (Ct PKCS11_CKA_KEY_TYPE eq_refl) as [-> ->].
    simpl. rewrite !app_nil_r. apply found_length.
  - intros id B%is_boolean_type. rewrite !with_id_app, !found_with_id.
    rewrite !decide_False by (intros ->; discriminate B). simpl.
    assert (with_id id lo = []) as ->.
    { eapply with_id_ne; [exact Eo|]. intros a (Hh & _) <-. unfold handled in Hh. by rewrite B, orb_true_r in Hh. }
    rewrite app_nil_r. destruct (with_id_unique id lb Nb) as [->|(a & _ & _ & ->)]; simpl; lia.
  - rewrite !Forall_app. split_and!; [by apply found_well_typed..| |].
    + eapply Forall_impl; [exact Fb|]. simpl. intros a (B & _ & D). unfold well_typed.
      by rewrite (proj1 (is_boolean_type _) B).
    + eapply Forall_impl; [exact Eo|]. simpl. intros a (Hh & [D|D]); [by apply indirect_well_typed|].
      apply valid_well_typed; [done|]. unfold handled in Hh. by apply orb_false_iff in Hh as [_ ?].
Qed.

(** An error of the reference is not a success. *)
Lemma bool_ref_error l : ∀ seen rc, bool_ref seen l = inl rc → rc ≠ PKCS11_CKR_OK.
Proof.
  induction l as [|a l IH]; intros seen rc E; simpl in E; [done|].
  destruct (negb (pkcs11_attr_is_boolean _)); [by eapply IH|].
  destruct (negb (pa_size a =? 1)); [by simplify_eq|].
  destruct (seen !! pa_id a) as [w|]; [destruct (eqb _ w); [by eapply IH|by simplify_eq]|].
  destruct (bool_ref _ l) eqn:E'; simplify_eq. by eapply IH.
Qed.

Lemma others_ref_error nested l : (∀ x rc, nested x = SErr rc → rc ≠ PKCS11_CKR_OK) →
  ∀ rc, others_ref nested l = SErr rc → rc ≠ PKCS11_CKR_OK.
Proof.
  intros N. induction l as [|a l IH]; intros rc E; simpl in E; [done|].
  destruct (handled (pa_id a)); [by apply IH|].
  destruct (pkcs11_attr_has_indirect_attributes (pa_id a)).
  - destruct (nested (pa_data a)) eqn:En; simplify_eq; [by eapply N|].
    destruct (others_ref nested l); simplify_eq. by apply IH.
  - destruct (valid_pkcs11_attribute_id _ _); simplify_eq; [|done].
    destruct (others_ref nested l); simplify_eq. by apply IH.
Qed.

Lemma san_ref_error fuel : ∀ x ch th rc, san_ref fuel x ch th = SErr rc → rc ≠ PKCS11_CKR_OK.
Proof.
  induction fuel as [|fuel IH]; intros x ch th rc E; [done|]. cbn [san_ref] in E. cbv zeta in E.
  destruct (length x <? 8)%nat; [by simplify_eq|]. destruct (length x <? _)%nat; [by simplify_eq|].
  destruct (parse_all _) as [la|]; [|done]. destruct (class_ref la _ _) as [[c t]|]; [|done].
  destruct (bool_ref ∅ la) as [|lb] eqn:Eb; [simplify_eq; by eapply bool_ref_error|].
  destruct (others_ref _ la) as [| |lo] eqn:Eo; simplify_eq.
  eapply others_ref_error; [|exact Eo]. intros y rc0 Ey. exact (IH _ _ _ _ Ey).
Qed.

(** C13: what [sanitize_client_object] builds from any bytes that a client gives
    and that its passes do not refuse as unparsable: when it succeeds, the
    object is a list of attributes with one class and one key type at most;
    every attribute is one of the PKCS#11 specification - by its number, not by
    the tables of the TA - with a value of the size of its type; a boolean is
    given at most once and is 0 or 1; and the list is no longer than the template
    but for a class and a type that were given as hints. *)
Theorem sanitized_list_clean `{TaHeapLaws} fuel P x R class_hint type_hint s :
  Forall is_byte x → Z.of_nat (length x) + 32 ≤ 2 ^ 31 → (length x < fuel)%nat →
  template_ref x class_hint type_hint ≠ SBad →
  wp (sanitize_client_object fuel (P ++ x ++ R) (Z.of_nat (length P)) (Z.of_nat (length x))
        class_hint type_hint) s
    (λ r s', r.1 = PKCS11_CKR_OK → ∃ l, r.2 = Some (attrs_mem l []) ∧ attrs_ok l ∧ clean l ∧
       8 + psize l ≤ Z.of_nat (length x) + w12 class_hint + w12 type_hint).
Proof.
  intros F Hx Hf Nb. destruct (sanitize_spec fuel) as [So _]. unfold template_ref in Nb.
  eapply wp_mono; [apply (So (S (length x)) _ P x R class_hint type_hint s); done|].
  intros [rc o] s' L E. simpl in E. subst rc. unfold obj_left in L.
  destruct L as [[L _]|L]; [done|].
  destruct (san_ref (S (length x)) x class_hint type_hint) as [|rc|l] eqn:Er; [done| |].
  - destruct L as [L _]. simpl in L. subst rc. by destruct (san_ref_error _ _ _ _ _ Er).
  - destruct L as [Ok [= ->]]. exists l. split; [done|]. split; [done|].
    split; [by eapply template_ref_clean|by eapply san_ref_size].
Qed.
