(* ===== verification/Pkcs11Example.v ===== *)
(** Attribute lists of the PKCS#11 TA on concrete inputs: a heap, witnesses, and
    templates that the code does not handle as it should. *)
From S2P Require Import Prelude State Bytes Bitstring Pkcs11Attr Pkcs11AttrProofs Pkcs11AttrSpec.
From S2P Require Import Pkcs11Sanitize Pkcs11SanitizeRef Pkcs11SanitizeSpec Pkcs11SanitizeMain.

(** A heap in which the first so many allocations succeed, of less than 4 GiB. *)
Definition few : TaHeap := {|
  ta_heap := nat;
  ta_alloc := λ size n, Some (Done (negb (Nat.eqb n 0) && (size <? 2 ^ 32), Nat.pred n));
|}.
#[global] Existing Instance few.

#[global] Instance few_laws : TaHeapLaws.
Proof. constructor. intros n s. by eexists _, _. Qed.

(** The result of a run, without the heap. *)
Definition result_of {A} (r : option (outcome (A * nat))) : option (outcome A) :=
  match r with
  | Some (Done (a, _)) => Some (Done a)
  | Some (Panicked c) => Some (Panicked c)
  | Some Undef => Some Undef
  | None => None
  end.

(** A secret key with a label, and changes to it. *)
Definition key_attrs : list pattr := [
  mk_pa PKCS11_CKA_CLASS [4; 0; 0; 0];
  mk_pa PKCS11_CKA_KEY_TYPE [31; 0; 0; 0];
  mk_pa PKCS11_CKA_TOKEN [1];
  mk_pa PKCS11_CKA_LABEL [97; 98; 99]].

Definition key_changes : list pattr := [
  mk_pa PKCS11_CKA_LABEL [97];
  mk_pa PKCS11_CKA_ID [1; 2];
  mk_pa PKCS11_CKA_LABEL [98; 99]].

Ltac concrete_attrs :=
  constructor; [|vm_compute; reflexivity];
  repeat (apply Forall_cons; split; [constructor; [split|]; vm_compute; solve [reflexivity|intros E; discriminate E]|]);
  apply Forall_nil; exact I.

Lemma key_attrs_ok : attrs_ok key_attrs.
Proof. concrete_attrs. Qed.

Lemma key_changes_ok : attrs_ok key_changes.
Proof. concrete_attrs. Qed.

Lemma key_attrs_nodup : NoDup (ids key_attrs).
Proof. apply (bool_decide_unpack _). vm_compute. exact I. Qed.

Lemma modify_attributes_list_correct_witness :
  wp (modify_attributes_list (attrs_mem key_attrs [0]) (attrs_mem key_changes [])) 100%nat (λ r s',
    (r.1 = PKCS11_CKR_OK ∧ ∃ l' tail', r.2 = attrs_mem l' tail' ∧ NoDup (ids l') ∧
       ∀ x, find_id x l' = from_option Some (find_id x key_attrs) (last (with_id x key_changes))) ∨
    (r.1 = PKCS11_CKR_DEVICE_MEMORY ∧ ∃ l' tail', attrs_ok l' ∧ r.2 = attrs_mem l' tail')).
Proof.
  apply modify_attributes_list_correct;
    [exact key_attrs_ok|exact key_changes_ok|vm_compute; reflexivity|exact key_attrs_nodup].
Defined.

Lemma attributes_match_reference_correct_witness :
  wp (attributes_match_reference (attrs_mem key_attrs [0]) (attrs_mem (drop 2 key_attrs) [])) 0%nat
    (λ r s', s' = 0%nat ∧ r = true).
Proof.
  apply (@attributes_match_reference_correct few key_attrs [0] (drop 2 key_attrs) [] 0%nat); [exact key_attrs_ok|].
  concrete_attrs.
Defined.

Lemma attributes_match_add_reference_correct_witness :
  wp (attributes_match_add_reference (attrs_mem key_attrs [0]) (attrs_mem (drop 1 key_changes) [])) 5%nat
    (λ r s', left_as (PKCS11_CKR_TEMPLATE_INCONSISTENT, key_attrs ++ [mk_pa PKCS11_CKA_ID [1; 2]]) r).
Proof.
  apply (@attributes_match_add_reference_correct few few_laws key_attrs [0] (drop 1 key_changes) [] 5%nat);
    [exact key_attrs_ok|concrete_attrs|vm_compute; reflexivity].
Defined.

Lemma get_attribute_correct_witness :
  wp (get_attribute (attrs_mem key_attrs []) PKCS11_CKA_LABEL (Some 2)) 0%nat
    (λ r s', s' = 0%nat ∧ r = (PKCS11_CKR_BUFFER_TOO_SMALL, None, 3)).
Proof. apply (@get_attribute_correct few key_attrs [] PKCS11_CKA_LABEL (Some 2) 0%nat). exact key_attrs_ok. Defined.

(** The whole run: the label of the changes is the last one. *)
Example modify_run :
  result_of (modify_attributes_list (attrs_mem key_attrs [0]) (attrs_mem key_changes []) 100%nat) =
  Some (Done (PKCS11_CKR_OK, attrs_mem (take 3 key_attrs ++ drop 1 key_changes) [])).
Proof. vm_compute. reflexivity. Qed.

(** ** Templates *)

(** A template of a client: size, count, attributes; a nested one in it. *)
Definition template (l : list pattr) : list Z := obj_bytes l.

Definition key_template : list Z :=
  template [
    mk_pa PKCS11_CKA_TOKEN [7];
    mk_pa PKCS11_CKA_LABEL [97; 98; 99];
    mk_pa PKCS11_CKA_CLASS [4; 0; 0; 0];
    mk_pa PKCS11_CKA_WRAP_TEMPLATE (template [mk_pa PKCS11_CKA_ENCRYPT [1]; mk_pa PKCS11_CKA_LABEL [1; 2; 3; 4]]);
    mk_pa PKCS11_CKA_TOKEN [1]].

Lemma bytes_of (x : list Z) : forallb (λ b, (0 <=? b) && (b <? 256)) x = true → Forall is_byte x.
Proof.
  intros F. rewrite forallb_forall in F. apply Forall_forall. intros b Hb. apply list_elem_of_In in Hb.
  specialize (F b Hb). unfold is_byte. breflect. lia.
Qed.

Lemma sanitize_client_object_correct_witness :
  wp (sanitize_client_object 200 ([5; 6] ++ key_template ++ [7]) 2 (Z.of_nat (length key_template)) 2 31) 9%nat
    (λ r s', obj_left (SOk [
      mk_pa PKCS11_CKA_CLASS [4; 0; 0; 0];
      mk_pa PKCS11_CKA_KEY_TYPE [31; 0; 0; 0];
      mk_pa PKCS11_CKA_TOKEN [1];
      mk_pa PKCS11_CKA_LABEL [97; 98; 99];
      mk_pa PKCS11_CKA_WRAP_TEMPLATE (template [mk_pa PKCS11_CKA_ENCRYPT [1]; mk_pa PKCS11_CKA_LABEL [1; 2; 3; 4]])]) r).
Proof.
  assert (E : template_ref key_template 2 31 = SOk [
      mk_pa PKCS11_CKA_CLASS [4; 0; 0; 0];
      mk_pa PKCS11_CKA_KEY_TYPE [31; 0; 0; 0];
      mk_pa PKCS11_CKA_TOKEN [1];
      mk_pa PKCS11_CKA_LABEL [97; 98; 99];
      mk_pa PKCS11_CKA_WRAP_TEMPLATE (template [mk_pa PKCS11_CKA_ENCRYPT [1]; mk_pa PKCS11_CKA_LABEL [1; 2; 3; 4]])])
    by (vm_compute; reflexivity).
  rewrite <- E.
  apply (@sanitize_client_object_correct few few_laws 200 [5; 6] key_template [7] 2 31 9%nat).
  - apply bytes_of. vm_compute. reflexivity.
  - vm_compute. intros C. discriminate C.
  - apply Nat.ltb_lt. vm_compute. reflexivity.
  - rewrite E. intros C. discriminate C.
Defined.

Lemma sanitized_list_clean_witness :
  wp (sanitize_client_object 200 ([5; 6] ++ key_template ++ [7]) 2 (Z.of_nat (length key_template)) 2 31) 9%nat
    (λ r s', r.1 = PKCS11_CKR_OK → ∃ l, r.2 = Some (attrs_mem l []) ∧ attrs_ok l ∧ clean l ∧
       8 + psize l ≤ Z.of_nat (length key_template) + w12 2 + w12 31).
Proof.
  apply (@sanitized_list_clean few few_laws 200 [5; 6] key_template [7] 2 31 9%nat).
  - apply bytes_of. vm_compute. reflexivity.
  - vm_compute. intros C. discriminate C.
  - apply Nat.ltb_lt. vm_compute. reflexivity.
  - intros C. vm_compute in C. discriminate C.
Defined.

(** ** What goes wrong *)

(** A template that ends within the head of an attribute is refused, but the trace
    of the refusal reads past its end. *)
Lemma malformed_template_overread :
  let x := [4; 0; 0; 0; 1; 0; 0; 0; 3; 0; 0; 0] in
  result_of (sanitize_client_object 50 x 0 12 PKCS11_UNDEFINED_ID PKCS11_UNDEFINED_ID 100%nat) = Some Undef.
Proof. vm_compute. reflexivity. Qed.

(** So it does for one with a class of a single byte at its end, although every
    attribute of it lies in the template. *)
Lemma short_class_overread :
  let x := template [mk_pa PKCS11_CKA_CLASS [4]] in
  result_of (sanitize_client_object 50 x 0 17 PKCS11_UNDEFINED_ID PKCS11_UNDEFINED_ID 100%nat) = Some Undef.
Proof. vm_compute. reflexivity. Qed.

(** The type of a mechanism becomes the type of a key: the object has no mechanism
    type. *)
Lemma mechanism_type_lost :
  let l := [mk_pa PKCS11_CKA_CLASS [7; 0; 0; 0]; mk_pa PKCS11_CKA_MECHANISM_TYPE [130; 16; 0; 0]] in
  let l' := [mk_pa PKCS11_CKA_CLASS [7; 0; 0; 0]; mk_pa PKCS11_CKA_KEY_TYPE [130; 16; 0; 0]] in
  result_of (sanitize_client_object 50 (template l) 0 32 PKCS11_UNDEFINED_ID PKCS11_UNDEFINED_ID 100%nat) =
    Some (Done (PKCS11_CKR_OK, Some (attrs_mem l' []))) ∧
  result_of (get_mechanism_type (attrs_mem l' []) 0%nat) = Some (Done PKCS11_CKM_UNDEFINED_ID).
Proof. split; vm_compute; reflexivity. Qed.

(** A list with an empty value does not match itself. *)
Lemma empty_value_never_matches :
  let m := attrs_mem [mk_pa PKCS11_CKA_LABEL []] [] in
  result_of (attributes_match_reference m m 0%nat) = Some (Done false) ∧
  result_of (attributes_match_add_reference m m 0%nat) = Some (Done (PKCS11_CKR_TEMPLATE_INCONSISTENT, m)).
Proof. split; vm_compute; reflexivity. Qed.

(** A value of five bytes gives another error than one of three. *)
Lemma get_u32_attribute_errors :
  result_of (get_u32_attribute (attrs_mem [mk_pa PKCS11_CKA_VALUE_LEN [1; 2; 3; 4; 5]] []) PKCS11_CKA_VALUE_LEN 0 0%nat) =
    Some (Done (PKCS11_CKR_BUFFER_TOO_SMALL, 0)) ∧
  result_of (get_u32_attribute (attrs_mem [mk_pa PKCS11_CKA_VALUE_LEN [1; 2; 3]] []) PKCS11_CKA_VALUE_LEN 0 0%nat) =
    Some (Done (PKCS11_CKR_GENERAL_ERROR, 197121)).
Proof. split; vm_compute; reflexivity. Qed.

(** When there is no memory for the new value the old one is gone. *)
Lemma set_attribute_loses :
  ∃ tail, result_of (set_attribute (attrs_mem key_attrs []) PKCS11_CKA_LABEL [98] 0%nat) =
    Some (Done (PKCS11_CKR_DEVICE_MEMORY, attrs_mem (take 3 key_attrs) tail)).
Proof. eexists. vm_compute. reflexivity. Qed.
