(* ===== verification/Pkcs11Serial.v ===== *)
(** ta/pkcs11/src/serializer.c: reading the arguments of a command from the
    client's buffer [m], which begins at the address [start]. *)
From S2P Require Import Prelude State Bytes TransferList Pkcs11Attr Pkcs11AttrProofs Pkcs11SanitizeRef.

(** [struct serialargs]; [next] is an address. *)
Record serialargs := mk_args { sa_start : Z; sa_next : Z; sa_size : Z }.

Section Serial.
Context `{TaHeap}.

Definition serialargs_init (in_ size : Z) : serialargs := mk_args in_ in_ size.

(** The result, [*out], 0 for NULL, and the arguments afterwards. *)
Definition serialargs_get_ptr (args : serialargs) (size : Z) : Z * Z * serialargs :=
  match ADD_OVERFLOW (sa_next args) size with
  | None => (PKCS11_CKR_ARGUMENTS_BAD, 0, args)
  | Some next_end =>
      if size =? 0 then (PKCS11_CKR_OK, 0, args) else
      if sa_start args + sa_size args <? next_end then (PKCS11_CKR_ARGUMENTS_BAD, 0, args) else
      (PKCS11_CKR_OK, sa_next args, mk_args (sa_start args) (sa_next args + size) (sa_size args))
  end.

(** The bytes at an address of the buffer; none of NULL. *)
Definition copy_from (m : list Z) (args : serialargs) (src size : Z) : PM (list Z) :=
  if size =? 0 then mret [] else rd (src - sa_start args) size m.

(** The result and what is copied to [out]. *)
Definition serialargs_get (m : list Z) (args : serialargs) (size : Z) : PM (Z * list Z * serialargs) :=
  let '(rc, src, args) := serialargs_get_ptr args size in
  if negb (rc =? 0) then mret (rc, [], args) else
  l ← copy_from m args src size;
  mret (rc, l, args).

(** [*out] is [None] for NULL. *)
Definition alloc_and_get (m : list Z) (args : serialargs) (orig_next : Z) (buf0 : list Z) (size : Z)
  : PM (Z * option (list Z) * serialargs) :=
  match ADD_OVERFLOW (Z.of_nat (length buf0)) size with
  | None => mret (PKCS11_CKR_ARGUMENTS_BAD, None, args)
  | Some sz =>
      if sz =? 0 then mret (PKCS11_CKR_OK, None, args) else
      let '(rc, src, args) := serialargs_get_ptr args size in
      if negb (rc =? 0) then mret (rc, None, args) else
      ok ← ta_alloc sz;
      if negb ok then mret (PKCS11_CKR_DEVICE_MEMORY, None, mk_args (sa_start args) orig_next (sa_size args)) else
      l ← copy_from m args src size;
      mret (PKCS11_CKR_OK, Some (buf0 ++ l), args)
  end.

Definition serialargs_alloc_and_get (m : list Z) (args : serialargs) (size : Z) : PM (Z * option (list Z) * serialargs) :=
  alloc_and_get m args (sa_next args) [] size.

(** The size of the data is the second field of an attribute's head, the first
    of an object's. *)
Definition serialargs_alloc_get_one_attribute (m : list Z) (args : serialargs)
  : PM (Z * option (list Z) * serialargs) :=
  let orig_next := sa_next args in
  '(rc, head, args) ← serialargs_get m args 8;
  if negb (rc =? 0) then mret (rc, None, args) else
  alloc_and_get m args orig_next head (of_le (drop 4 head)).

Definition serialargs_alloc_get_attributes (m : list Z) (args : serialargs)
  : PM (Z * option (list Z) * serialargs) :=
  let orig_next := sa_next args in
  '(rc, attr, args) ← serialargs_get m args 8;
  if negb (rc =? 0) then mret (rc, None, args) else
  alloc_and_get m args orig_next attr (of_le (take 4 attr)).

Definition serialargs_remaining_bytes (args : serialargs) : bool :=
  sa_next args <? sa_start args + sa_size args.

End Serial.

(** ** What is read *)

Lemma slice_split pos a b (m : list Z) : 0 ≤ pos → 0 ≤ a → 0 ≤ b → slice pos (a + b) m = slice pos a m ++ slice (pos + a) b m.
Proof.
  intros. unfold slice. rewrite !Z2Nat.inj_add, <- drop_drop by lia. generalize (drop (Z.to_nat pos) m). intros l.
  rewrite <- (take_drop (Z.to_nat a) (take _ l)), take_take, skipn_firstn_comm.
  f_equal; f_equal; lia.
Qed.

(** [args] reads a buffer that lies in memory, from position [pos] on. *)
Record reads (m : list Z) (args : serialargs) (pos : Z) : Prop := {
  rs_start : 0 < sa_start args;
  rs_size : sa_size args = Z.of_nat (length m);
  rs_next : sa_next args = sa_start args + pos;
  rs_pos : 0 ≤ pos ≤ sa_size args;
  rs_top : sa_start args + sa_size args < 2 ^ 64;
}.

Lemma reads_init m start :
  0 < start → start + Z.of_nat (length m) < 2 ^ 64 → reads m (serialargs_init start (Z.of_nat (length m))) 0.
Proof. intros. constructor; simpl; lia. Qed.

Lemma reads_next m args pos n : reads m args pos → 0 ≤ n → pos + n ≤ Z.of_nat (length m) →
  reads m (mk_args (sa_start args) (sa_next args + n) (sa_size args)) (pos + n).
Proof. intros [] ??. constructor; simpl; lia. Qed.

Section Rules.
Context `{TaHeapLaws}.

Lemma get_ptr_spec m args pos n : reads m args pos → 0 ≤ n < 2 ^ 64 →
  serialargs_get_ptr args n =
    if pos + n <=? Z.of_nat (length m)
    then (PKCS11_CKR_OK, if n =? 0 then 0 else sa_start args + pos, mk_args (sa_start args) (sa_next args + n) (sa_size args))
    else (PKCS11_CKR_ARGUMENTS_BAD, 0, args).
Proof.
  intros [] Hn. unfold serialargs_get_ptr, ADD_OVERFLOW.
  destruct (Z.leb_spec (pos + n) (Z.of_nat (length m))).
  - destruct (Z.ltb_spec (sa_next args + n) (2 ^ 64)); [|lia].
    destruct (Z.eqb_spec n 0) as [->|]; [destruct args; simpl in *; by rewrite Z.add_0_r|].
    destruct (Z.ltb_spec (sa_start args + sa_size args) (sa_next args + n)); [lia|]. by rewrite rs_next0.
  - destruct (Z.ltb_spec (sa_next args + n) (2 ^ 64)); [|done].
    destruct (Z.eqb_spec n 0); [lia|].
    destruct (Z.ltb_spec (sa_start args + sa_size args) (sa_next args + n)); [done|lia].
Qed.

Lemma wp_copy_from m args pos n s (Q : list Z → ta_heap → Prop) :
  0 ≤ pos → 0 ≤ n → pos + n ≤ Z.of_nat (length m) → Q (slice pos n m) s →
  wp (copy_from m args (if n =? 0 then 0 else sa_start args + pos) n) s Q.
Proof.
  intros ??? HQ. unfold copy_from. destruct (Z.eqb_spec n 0) as [->|].
  - st_step. unfold slice in HQ. simpl in HQ. done.
  - replace (sa_start args + pos - sa_start args) with pos by lia. apply wp_rd; done || lia.
Qed.

(** A field: it is there, or the arguments are too short and nothing is read. *)
Lemma wp_serialargs_get m args pos n s (Q : Z * list Z * serialargs → ta_heap → Prop) :
  reads m args pos → 0 ≤ n < 2 ^ 64 →
  (if pos + n <=? Z.of_nat (length m)
   then ∀ args', args' = mk_args (sa_start args) (sa_next args + n) (sa_size args) →
          reads m args' (pos + n) → Q (PKCS11_CKR_OK, slice pos n m, args') s
   else Q (PKCS11_CKR_ARGUMENTS_BAD, [], args) s) →
  wp (serialargs_get m args n) s Q.
Proof.
  intros R Hn HQ. unfold serialargs_get. rewrite (get_ptr_spec m args pos n R Hn).
  destruct (Z.leb_spec (pos + n) (Z.of_nat (length m))); [|by apply wp_ret].
  cbn [Z.eqb negb PKCS11_CKR_OK]. apply wp_bind.
  apply (wp_copy_from m (mk_args (sa_start args) (sa_next args + n) (sa_size args)) pos n); [by destruct R as [? ? ? [? ?] ?]|lia|done|].
  apply wp_ret, HQ; [done|]. apply reads_next; [done|lia|done].
Qed.

(** A head and as many bytes as it asks for, of [buf0] and the buffer. *)
Lemma wp_alloc_and_get m args pos orig_next buf0 n s (Q : Z * option (list Z) * serialargs → ta_heap → Prop) :
  reads m args pos → 0 ≤ n < 2 ^ 32 → 0 < Z.of_nat (length buf0) < 2 ^ 32 →
  (if pos + n <=? Z.of_nat (length m)
   then (∀ args' s', reads m args' (pos + n) → Q (PKCS11_CKR_OK, Some (buf0 ++ slice pos n m), args') s') ∧
        (∀ s', Q (PKCS11_CKR_DEVICE_MEMORY, None, mk_args (sa_start args) orig_next (sa_size args)) s')
   else Q (PKCS11_CKR_ARGUMENTS_BAD, None, args) s) →
  wp (alloc_and_get m args orig_next buf0 n) s Q.
Proof.
  intros R Hn Hb HQ. unfold alloc_and_get, ADD_OVERFLOW at 1.
  destruct (Z.ltb_spec (Z.of_nat (length buf0) + n) (2 ^ 64)); [|lia].
  destruct (Z.eqb_spec (Z.of_nat (length buf0) + n) 0); [lia|].
  rewrite (get_ptr_spec m args pos n R ltac:(lia)).
  destruct (Z.leb_spec (pos + n) (Z.of_nat (length m))); [|by apply wp_ret].
  destruct HQ as [HOk HF]. cbn [Z.eqb negb PKCS11_CKR_OK].
  apply wp_bind. eapply wp_mono; [apply ta_alloc_ok|]. intros [|] s' _; cbn [negb].
  - apply wp_bind.
    apply (wp_copy_from m (mk_args (sa_start args) (sa_next args + n) (sa_size args)) pos n); [by destruct R as [? ? ? [? ?] ?]|lia|done|].
    apply wp_ret, HOk. apply reads_next; [done|lia|done].
  - apply wp_ret. apply HF.
Qed.

(** C24: [serialargs_alloc_get_attributes] on any bytes reads nothing outside the
    buffer. It copies a template whole, as many bytes as its head says, if they
    are there, and stands behind it then; short of memory it stands where it
    began; otherwise the arguments are bad and there is no template. *)
Theorem serialargs_alloc_get_attributes_correct m args pos s :
  Forall is_byte m → reads m args pos →
  wp (serialargs_alloc_get_attributes m args) s (λ '(rc, out, args') s',
    let n := of_le (slice pos 4 m) in
    (rc = PKCS11_CKR_OK ∧ pos + 8 + n ≤ Z.of_nat (length m) ∧ out = Some (slice pos (8 + n) m) ∧
       reads m args' (pos + 8 + n)) ∨
    (rc = PKCS11_CKR_DEVICE_MEMORY ∧ out = None ∧ args' = args) ∨
    (rc = PKCS11_CKR_ARGUMENTS_BAD ∧ out = None ∧ Z.of_nat (length m) < pos + 8 + n)).
Proof.
  intros F R. pose proof R as [? Rs ? [Rp _] ?]. unfold serialargs_alloc_get_attributes. apply wp_bind.
  apply (wp_serialargs_get m args pos 8); [done|lia|].
  assert (Hn : 0 ≤ of_le (slice pos 4 m)).
  { apply of_le_range. unfold slice. by apply Forall_take, Forall_drop. }
  destruct (Z.leb_spec (pos + 8) (Z.of_nat (length m))).
  2:{ apply wp_ret. right; right. split_and!; [done|done|lia]. }
  intros args' Ea R'. cbn [Z.eqb negb PKCS11_CKR_OK].
  assert (E4 : take 4 (slice pos 8 m) = slice pos 4 m) by (unfold slice; by rewrite take_take).
  rewrite E4. assert (L8 : Z.of_nat (length (slice pos 8 m)) = 8) by (rewrite length_slice; lia).
  assert (H4 : of_le (slice pos 4 m) < 2 ^ 32).
  { rewrite <- E4. apply of_le_4; [|lia]. unfold slice. by apply Forall_take, Forall_drop. }
  apply (wp_alloc_and_get m args' (pos + 8)); [done|lia|lia|].
  destruct (Z.leb_spec (pos + 8 + of_le (slice pos 4 m)) (Z.of_nat (length m))).
  - split.
    + intros a2 s' R2. left. split_and!; [done|done| |done]. f_equal. symmetry. apply slice_split; lia.
    + intros s'. right; left. split_and!; [done|done|]. rewrite Ea. by destruct args.
  - right; right. split_and!; [done|done|lia].
Qed.

End Rules.
