(* ===== verification/Pkcs11Pin.v ===== *)
(** PINs of a token of the PKCS#11 TA: the functions of
    ta/pkcs11/src/pkcs11_token.c that check and set a PIN, with those of
    persistent_token.c that they call. The state is the persistent data of one
    token, which is in memory and in a file, and the heap of the TA; file,
    hash, random numbers and the identity of the client are the class [TokenApi]. *)
From S2P Require Import Prelude State Bytes Pkcs11Attr.

(** ** Constants *)

Definition PKCS11_CKR_ENCRYPTED_DATA_INVALID : Z := 64.
Definition PKCS11_CKR_SIGNATURE_INVALID : Z := 192.
Definition PKCS11_CKR_PIN_INCORRECT : Z := 160.
Definition PKCS11_CKR_PIN_INVALID : Z := 161.
Definition PKCS11_CKR_PIN_LEN_RANGE : Z := 162.
Definition PKCS11_CKR_PIN_LOCKED : Z := 164.
Definition PKCS11_CKR_SESSION_EXISTS : Z := 182.
Definition PKCS11_CKR_SESSION_READ_ONLY : Z := 181.
Definition PKCS11_CKR_TOKEN_WRITE_PROTECTED : Z := 226.
Definition PKCS11_CKR_USER_NOT_LOGGED_IN : Z := 257.
Definition PKCS11_CKR_USER_PIN_NOT_INITIALIZED : Z := 258.

Definition PKCS11_CKFT_WRITE_PROTECTED : Z := 2 ^ 1.
Definition PKCS11_CKFT_USER_PIN_INITIALIZED : Z := 2 ^ 3.
Definition PKCS11_CKFT_PROTECTED_AUTHENTICATION_PATH : Z := 2 ^ 8.
Definition PKCS11_CKFT_TOKEN_INITIALIZED : Z := 2 ^ 10.
Definition PKCS11_CKFT_USER_PIN_COUNT_LOW : Z := 2 ^ 16.
Definition PKCS11_CKFT_USER_PIN_FINAL_TRY : Z := 2 ^ 17.
Definition PKCS11_CKFT_USER_PIN_LOCKED : Z := 2 ^ 18.
Definition PKCS11_CKFT_USER_PIN_TO_BE_CHANGED : Z := 2 ^ 19.
Definition PKCS11_CKFT_SO_PIN_COUNT_LOW : Z := 2 ^ 20.
Definition PKCS11_CKFT_SO_PIN_FINAL_TRY : Z := 2 ^ 21.
Definition PKCS11_CKFT_SO_PIN_LOCKED : Z := 2 ^ 22.
Definition PKCS11_CKFT_SO_PIN_TO_BE_CHANGED : Z := 2 ^ 23.

Definition PKCS11_CKU_SO : Z := 0.
Definition PKCS11_CKU_USER : Z := 1.

Definition PKCS11_TOKEN_PIN_SIZE_MAX : Z := 128.
Definition PKCS11_TOKEN_PIN_SIZE_MIN : Z := 4.
Definition PKCS11_TOKEN_SO_PIN_COUNT_MAX : Z := 7.
Definition PKCS11_TOKEN_USER_PIN_COUNT_MAX : Z := 7.
Definition MAX_HASH_SIZE : Z := 64.

Definition TEE_LOGIN_PUBLIC : Z := 0.
Definition TEE_LOGIN_USER : Z := 1.
Definition TEE_LOGIN_GROUP : Z := 2.

(** The strings as bytes. *)
Definition PKCS11_AUTH_TEE_IDENTITY_PUBLIC : list Z := [112; 117; 98; 108; 105; 99].
Definition PKCS11_AUTH_TEE_IDENTITY_USER : list Z := [117; 115; 101; 114; 58].
Definition PKCS11_AUTH_TEE_IDENTITY_GROUP : list Z := [103; 114; 111; 117; 112; 58].

Definition tee2pkcs_error (res : Z) : Z :=
  if res =? TEE_SUCCESS then PKCS11_CKR_OK else
  if res =? TEE_ERROR_BAD_PARAMETERS then PKCS11_CKR_ARGUMENTS_BAD else
  if res =? TEE_ERROR_CIPHERTEXT_INVALID then PKCS11_CKR_ENCRYPTED_DATA_INVALID else
  if res =? TEE_ERROR_OUT_OF_MEMORY then PKCS11_CKR_DEVICE_MEMORY else
  if res =? TEE_ERROR_SHORT_BUFFER then PKCS11_CKR_BUFFER_TOO_SMALL else
  if (res =? TEE_ERROR_MAC_INVALID) || (res =? TEE_ERROR_SIGNATURE_INVALID) then PKCS11_CKR_SIGNATURE_INVALID else
  PKCS11_CKR_GENERAL_ERROR.

(** ** Data *)

(** The union of the hash and the identity are the bytes of the hash. *)
Record token_persistent_main := mk_main {
  version : Z;
  label : list Z;
  flags : Z;
  so_pin_count : Z;
  so_pin_salt : Z;
  so_pin_hash : list Z;
  user_pin_count : Z;
  user_pin_salt : Z;
  user_pin_hash : list Z;
}.

Definition with_flags (f : Z → Z) (d : token_persistent_main) : token_persistent_main :=
  mk_main (version d) (label d) (f (flags d)) (so_pin_count d) (so_pin_salt d) (so_pin_hash d)
    (user_pin_count d) (user_pin_salt d) (user_pin_hash d).

Definition with_label (l : list Z) (d : token_persistent_main) : token_persistent_main :=
  mk_main (version d) l (flags d) (so_pin_count d) (so_pin_salt d) (so_pin_hash d)
    (user_pin_count d) (user_pin_salt d) (user_pin_hash d).

(** The fields of one of the two users. *)
Inductive pin_user := SO | USER.

#[global] Instance pin_user_eq_dec : EqDecision pin_user.
Proof. solve_decision. Defined.

Definition cku (u : pin_user) : Z := match u with SO => PKCS11_CKU_SO | USER => PKCS11_CKU_USER end.

Definition pin_count (u : pin_user) (d : token_persistent_main) : Z :=
  match u with SO => so_pin_count d | USER => user_pin_count d end.
Definition pin_salt (u : pin_user) (d : token_persistent_main) : Z :=
  match u with SO => so_pin_salt d | USER => user_pin_salt d end.
Definition pin_hash (u : pin_user) (d : token_persistent_main) : list Z :=
  match u with SO => so_pin_hash d | USER => user_pin_hash d end.

Definition set_pin_fields (u : pin_user) (count salt : Z) (hash : list Z) (d : token_persistent_main)
  : token_persistent_main :=
  match u with
  | SO => mk_main (version d) (label d) (flags d) count salt hash (user_pin_count d) (user_pin_salt d) (user_pin_hash d)
  | USER => mk_main (version d) (label d) (flags d) (so_pin_count d) (so_pin_salt d) (so_pin_hash d) count salt hash
  end.

Definition set_count (u : pin_user) (c : Z) (d : token_persistent_main) : token_persistent_main :=
  set_pin_fields u c (pin_salt u d) (pin_hash u d) d.

Definition COUNT_MAX (u : pin_user) : Z :=
  match u with SO => PKCS11_TOKEN_SO_PIN_COUNT_MAX | USER => PKCS11_TOKEN_USER_PIN_COUNT_MAX end.
Definition COUNT_LOW (u : pin_user) : Z :=
  match u with SO => PKCS11_CKFT_SO_PIN_COUNT_LOW | USER => PKCS11_CKFT_USER_PIN_COUNT_LOW end.
Definition FINAL_TRY (u : pin_user) : Z :=
  match u with SO => PKCS11_CKFT_SO_PIN_FINAL_TRY | USER => PKCS11_CKFT_USER_PIN_FINAL_TRY end.
Definition LOCKED (u : pin_user) : Z :=
  match u with SO => PKCS11_CKFT_SO_PIN_LOCKED | USER => PKCS11_CKFT_USER_PIN_LOCKED end.
Definition TO_BE_CHANGED (u : pin_user) : Z :=
  match u with SO => PKCS11_CKFT_SO_PIN_TO_BE_CHANGED | USER => PKCS11_CKFT_USER_PIN_TO_BE_CHANGED end.

(** The four flags of a PIN. *)
Definition pin_flags (u : pin_user) : Z :=
  Z.lor (COUNT_LOW u) (Z.lor (FINAL_TRY u) (Z.lor (LOCKED u) (TO_BE_CHANGED u))).

Definition set_flags (m : Z) (d : token_persistent_main) : token_persistent_main := with_flags (λ f, Z.lor f m) d.
Definition clear_flags (m : Z) (d : token_persistent_main) : token_persistent_main :=
  with_flags (λ f, Z.land f (Z.lnot m)) d.

(** ** What the TA calls *)

(** The database file of a token is opened and written; a digest of bytes is
    allocated and computed; a random number; the identity of the client, its
    login and the 16 bytes of its uuid; [tee_uuid_from_str]. *)
Class TokenApi `{TaHeap} := {
  auth_tee_identity : bool;
  open_db_file : nat → St ta_heap Z;
  write_db_main : nat → token_persistent_main → St ta_heap Z;
  alloc_sha256 : St ta_heap Z;
  final_sha256 : list Z → St ta_heap (Z * list Z);
  random_u32 : St ta_heap Z;
  client_identity : St ta_heap (Z * (Z * list Z));
  uuid_from_str : list Z → Z * list Z;
}.

Section Pin.
Context `{TokenApi}.

Definition PinM : Type → Type := St (token_persistent_main * ta_heap).

Definition ta_call {A} (m : St ta_heap A) : PinM A := zoom snd (λ h s, (s.1, h)) m.

Definition db : PinM token_persistent_main := gets fst.

Definition change (f : token_persistent_main → token_persistent_main) : PinM unit := modify (λ s, (f s.1, s.2)).

(** ** persistent_token.c *)

Definition update_persistent_db (token : nat) : PinM unit :=
  res ← ta_call (open_db_file token);
  if negb (res =? 0) then panic else
  d ← db;
  res ← ta_call (write_db_main token d);
  if negb (res =? 0) then panic else mret tt.

(** The result and the hash. *)
Definition do_hash (user : Z) (pin : list Z) (salt : Z) : PinM (Z * list Z) :=
  res ← ta_call alloc_sha256;
  if negb (res =? 0) then mret (tee2pkcs_error res, []) else
  '(res, hash) ← ta_call (final_sha256 (le_bytes 4 user ++ le_bytes 4 salt ++ pin));
  if negb (res =? 0) then mret (PKCS11_CKR_GENERAL_ERROR, []) else
  mret (PKCS11_CKR_OK, hash ++ replicate (Z.to_nat (MAX_HASH_SIZE - Z.of_nat (length hash))) 0).

(** The result and, if it is [PKCS11_CKR_OK], salt and hash. *)
Definition hash_pin (user : Z) (pin : list Z) : PinM (Z * Z * list Z) :=
  s ← ta_call random_u32;
  let s := if s =? 0 then 1 else s in
  '(rc, hash) ← do_hash user pin s;
  mret (rc, s, hash).

Definition verify_pin (user : Z) (pin : list Z) (salt : Z) (hash : list Z) : PinM Z :=
  '(rc, tmp_hash) ← do_hash user pin salt;
  if negb (rc =? 0) then mret rc else
  mret (if bool_decide (tmp_hash = hash) then PKCS11_CKR_OK else PKCS11_CKR_PIN_INCORRECT).

(** [TEE_Identity] and its place in the union. *)
Definition identity_bytes (identity : Z * list Z) : list Z := le_bytes 4 identity.1 ++ identity.2.

Definition sizeof_identity : Z := 20.

Definition store_identity (identity : Z * list Z) (hash : list Z) : list Z := put_bytes 0 (identity_bytes identity) hash.

Definition setup_so_identity_auth_from_client : PinM Z :=
  '(res, identity) ← ta_call client_identity;
  if negb (res =? 0) then mret PKCS11_CKR_PIN_INVALID else
  _ ← change (λ d, set_pin_fields SO (so_pin_count d) (so_pin_salt d) (store_identity identity (so_pin_hash d)) d);
  _ ← change (set_flags PKCS11_CKFT_PROTECTED_AUTHENTICATION_PATH);
  _ ← change (λ d, set_pin_fields SO (so_pin_count d) 0 (so_pin_hash d) d);
  mret PKCS11_CKR_OK.

(** A C string of these bytes; what follows the first colon. *)
Fixpoint cstring (l : list Z) : list Z :=
  match l with [] => [] | c :: l => if c =? 0 then [] else c :: cstring l end.

Fixpoint after_colon (l : list Z) : option (list Z) :=
  match l with [] => None | c :: l => if c =? 58 then Some l else after_colon l end.

Definition starts_with (p l : list Z) : bool := bool_decide (take (length p) l = p).

(** The error, or the identity that an ACL string names. *)
Definition parse_acl (pin : list Z) : Z + Z * list Z :=
  let acl_string := cstring pin in
  let login :=
    if decide (acl_string = PKCS11_AUTH_TEE_IDENTITY_PUBLIC) then Some TEE_LOGIN_PUBLIC
    else if starts_with PKCS11_AUTH_TEE_IDENTITY_USER acl_string then Some TEE_LOGIN_USER
    else if starts_with PKCS11_AUTH_TEE_IDENTITY_GROUP acl_string then Some TEE_LOGIN_GROUP
    else None in
  match login with
  | None => inl PKCS11_CKR_PIN_INVALID
  | Some login =>
      if login =? TEE_LOGIN_PUBLIC then inr (login, replicate 16 0) else
      match after_colon acl_string with
      | None => inl PKCS11_CKR_PIN_INVALID
      | Some uuid_str =>
          let '(res, uuid) := uuid_from_str uuid_str in
          if negb (res =? 0) then inl PKCS11_CKR_PIN_INVALID else inr (login, uuid)
      end
  end.

(** [None] is the PIN that is NULL. *)
Definition setup_identity_auth_from_pin (user : pin_user) (pin : option (list Z)) : PinM Z :=
  d ← db;
  _ ← st_assert (has_flag (flags d) PKCS11_CKFT_PROTECTED_AUTHENTICATION_PATH);
  r ← (match pin with
       | None =>
           '(res, identity) ← ta_call client_identity;
           mret (if negb (res =? 0) then inl PKCS11_CKR_PIN_INVALID else inr identity)
       | Some pin =>
           ok ← ta_call (ta_alloc (Z.of_nat (length pin) + 1));
           mret (if negb ok then inl PKCS11_CKR_DEVICE_MEMORY else parse_acl pin)
       end);
  match r with
  | inl rc => mret rc
  | inr identity =>
      _ ← change (λ d, set_pin_fields user 0 0 (store_identity identity (pin_hash user d)) d);
      _ ← change (clear_flags (pin_flags user));
      _ ← change (set_flags (match user with SO => 0 | USER => PKCS11_CKFT_USER_PIN_INITIALIZED end));
      mret PKCS11_CKR_OK
  end.

Definition verify_identity_auth (user : pin_user) : PinM Z :=
  d ← db;
  _ ← st_assert (has_flag (flags d) PKCS11_CKFT_PROTECTED_AUTHENTICATION_PATH);
  '(res, identity) ← ta_call client_identity;
  if negb (res =? 0) then mret PKCS11_CKR_PIN_INVALID else
  mret (if bool_decide (take (Z.to_nat sizeof_identity) (pin_hash user d) = identity_bytes identity)
        then PKCS11_CKR_OK else PKCS11_CKR_PIN_INCORRECT).

(** ** Checking *)

(** What is recorded before the PIN is compared. *)
Definition preset (u : pin_user) (d : token_persistent_main) : token_persistent_main :=
  let d := set_count u (u32 (pin_count u d + 1)) (set_flags (COUNT_LOW u) d) in
  if pin_count u d =? COUNT_MAX u - 1 then set_flags (FINAL_TRY u) d else
  if pin_count u d =? COUNT_MAX u then set_flags (LOCKED u) d else d.

(** And after it was right, or could not be compared. *)
Definition settle (u : pin_user) (rc : Z) (d : token_persistent_main) : token_persistent_main :=
  let d := set_count u (if negb (rc =? 0) then u32 (pin_count u d - 1) else 0) d in
  let d := clear_flags (LOCKED u) d in
  if pin_count u d <? COUNT_MAX u - 1 then
    let d := clear_flags (FINAL_TRY u) d in
    if pin_count u d =? 0 then clear_flags (COUNT_LOW u) d else d
  else d.

(** The part that is the same in [check_so_pin] and [check_user_pin]. *)
Definition check_pin (token : nat) (u : pin_user) (pin : list Z) : PinM Z :=
  d ← db;
  if has_flag (flags d) (LOCKED u) then mret PKCS11_CKR_PIN_LOCKED else
  _ ← change (preset u);
  _ ← update_persistent_db token;
  d ← db;
  rc ← verify_pin (cku u) pin (pin_salt u d) (pin_hash u d);
  if rc =? PKCS11_CKR_PIN_INCORRECT then
    mret (if has_flag (flags d) (LOCKED u) then PKCS11_CKR_PIN_LOCKED else PKCS11_CKR_PIN_INCORRECT)
  else
  _ ← change (settle u rc);
  _ ← update_persistent_db token;
  mret rc.

Definition use_identity (d : token_persistent_main) : bool :=
  auth_tee_identity && has_flag (flags d) PKCS11_CKFT_PROTECTED_AUTHENTICATION_PATH.

Definition check_so_pin (token : nat) (pin : list Z) : PinM Z :=
  d ← db;
  _ ← st_assert (has_flag (flags d) PKCS11_CKFT_TOKEN_INITIALIZED);
  if use_identity d then verify_identity_auth SO else
  check_pin token SO pin.

Definition check_user_pin (token : nat) (pin : list Z) : PinM Z :=
  d ← db;
  if negb (has_flag (flags d) PKCS11_CKFT_USER_PIN_INITIALIZED) then mret PKCS11_CKR_USER_PIN_NOT_INITIALIZED else
  if use_identity d then verify_identity_auth USER else
  _ ← st_assert (negb (user_pin_salt d =? 0));
  check_pin token USER pin.

(** ** Setting *)

(** The end of [set_pin]. *)
Definition update_db (token : nat) (flags_clear flags_set : Z) : PinM Z :=
  _ ← change (λ d, set_flags flags_set (clear_flags flags_clear d));
  _ ← update_persistent_db token;
  mret PKCS11_CKR_OK.

(** The length, the hash and the flags of a new PIN. *)
Definition set_new_hash (token : nat) (u : pin_user) (pin : list Z) (flags_clear : Z) : PinM Z :=
  let n := Z.of_nat (length pin) in
  if (n <? PKCS11_TOKEN_PIN_SIZE_MIN) || (PKCS11_TOKEN_PIN_SIZE_MAX <? n) then mret PKCS11_CKR_PIN_LEN_RANGE else
  '(rc, salt, hash) ← hash_pin (cku u) pin;
  if negb (rc =? 0) then mret rc else
  _ ← change (set_pin_fields u 0 salt hash);
  update_db token (Z.lor flags_clear (pin_flags u))
    (match u with SO => 0 | USER => PKCS11_CKFT_USER_PIN_INITIALIZED end).

(** [read_write] tells whether the session is; the PIN is [None] for NULL. *)
Definition set_pin (token : nat) (read_write : bool) (new_pin : option (list Z)) (u : pin_user) : PinM Z :=
  d ← db;
  if has_flag (flags d) PKCS11_CKFT_WRITE_PROTECTED then mret PKCS11_CKR_TOKEN_WRITE_PROTECTED else
  if negb read_write then mret PKCS11_CKR_SESSION_READ_ONLY else
  let pin := default [] new_pin in
  if use_identity d then
    rc ← setup_identity_auth_from_pin u new_pin;
    d ← db;
    if rc =? PKCS11_CKR_OK then update_db token 0 0 else
    if (rc =? PKCS11_CKR_PIN_INVALID) && negb (has_flag (flags d) PKCS11_CKFT_USER_PIN_INITIALIZED)
    then set_new_hash token u pin PKCS11_CKFT_PROTECTED_AUTHENTICATION_PATH
    else mret rc
  else
  if bool_decide (u = SO) && bool_decide (new_pin = None) && auth_tee_identity &&
     negb (has_flag (flags d) PKCS11_CKFT_USER_PIN_INITIALIZED)
  then
    _ ← change (set_flags PKCS11_CKFT_PROTECTED_AUTHENTICATION_PATH);
    rc ← setup_identity_auth_from_pin SO None;
    if negb (rc =? 0) then
      _ ← change (clear_flags PKCS11_CKFT_PROTECTED_AUTHENTICATION_PATH); mret rc
    else update_db token 0 0
  else set_new_hash token u pin 0.

(** ** Initializing *)

(** A wrong PIN of the SO. *)
Definition note_wrong (d : token_persistent_main) : token_persistent_main :=
  let d := set_count SO (u32 (pin_count SO d + 1)) (set_flags PKCS11_CKFT_SO_PIN_COUNT_LOW d) in
  let d := if pin_count SO d =? PKCS11_TOKEN_SO_PIN_COUNT_MAX - 1 then set_flags PKCS11_CKFT_SO_PIN_FINAL_TRY d else d in
  if pin_count SO d =? PKCS11_TOKEN_SO_PIN_COUNT_MAX then set_flags PKCS11_CKFT_SO_PIN_LOCKED d else d.

(** From the label [inited] on. *)
Definition inited (label : list Z) (d : token_persistent_main) : token_persistent_main :=
  let d := clear_flags (pin_flags SO) d in
  let d := set_count SO 0 d in
  let d := with_label label d in
  let d := set_flags PKCS11_CKFT_TOKEN_INITIALIZED d in
  let d := set_pin_fields USER (pin_count USER d) 0 (pin_hash USER d) d in
  clear_flags (Z.lor PKCS11_CKFT_USER_PIN_INITIALIZED (pin_flags USER)) d.

(** The SO of a token that is initialized. *)
Definition so_authenticate (token : nat) (pin : list Z) : PinM Z :=
  d ← db;
  if use_identity d then verify_identity_auth SO else
  rc ← verify_pin PKCS11_CKU_SO pin (so_pin_salt d) (so_pin_hash d);
  if negb (rc =? PKCS11_CKR_PIN_INCORRECT) then mret rc else
  _ ← change note_wrong;
  _ ← update_persistent_db token;
  mret PKCS11_CKR_PIN_INCORRECT.

(** And of one that is not yet. *)
Definition so_setup (pin : option (list Z)) : PinM Z :=
  if auth_tee_identity && bool_decide (pin = None) then setup_so_identity_auth_from_client else
  let pin := default [] pin in
  let n := Z.of_nat (length pin) in
  if (n <? PKCS11_TOKEN_PIN_SIZE_MIN) || (PKCS11_TOKEN_PIN_SIZE_MAX <? n) then mret PKCS11_CKR_ARGUMENTS_BAD else
  '(rc, salt, hash) ← hash_pin PKCS11_CKU_SO pin;
  if negb (rc =? 0) then mret rc else
  _ ← change (λ d, set_pin_fields SO (pin_count SO d) salt hash d);
  mret PKCS11_CKR_OK.

(** [entry_ck_token_initialize] on a token, up to the removal of its objects;
    [session_open] tells whether a client has a session with it. *)
Definition token_initialize (token : nat) (session_open : bool) (pin : option (list Z)) (label : list Z) : PinM Z :=
  d ← db;
  if has_flag (flags d) PKCS11_CKFT_SO_PIN_LOCKED then mret PKCS11_CKR_PIN_LOCKED else
  if session_open then mret PKCS11_CKR_SESSION_EXISTS else
  rc ← (if has_flag (flags d) PKCS11_CKFT_TOKEN_INITIALIZED then so_authenticate token (default [] pin) else so_setup pin);
  if negb (rc =? 0) then mret rc else
  _ ← change (inited label);
  _ ← update_persistent_db token;
  mret PKCS11_CKR_OK.

(** ** The requests of a session *)

(** [entry_ck_set_pin] and [entry_ck_init_pin], after their arguments have been
    read; the session is the SO's or not, and read-write or not. *)
Definition change_pin (token : nat) (is_so read_write : bool) (old_pin : list Z) (new_pin : option (list Z)) : PinM Z :=
  if negb read_write then mret PKCS11_CKR_SESSION_READ_ONLY else
  d ← db;
  if is_so then
    if negb (has_flag (flags d) PKCS11_CKFT_TOKEN_INITIALIZED) then mret PKCS11_CKR_GENERAL_ERROR else
    rc ← check_so_pin token old_pin;
    if negb (rc =? 0) then mret rc else set_pin token read_write new_pin SO
  else
    if negb (has_flag (flags d) PKCS11_CKFT_USER_PIN_INITIALIZED) then mret PKCS11_CKR_GENERAL_ERROR else
    rc ← check_user_pin token old_pin;
    if negb (rc =? 0) then mret rc else set_pin token read_write new_pin USER.

Definition init_pin (token : nat) (is_so read_write : bool) (pin : option (list Z)) : PinM Z :=
  if negb is_so then mret PKCS11_CKR_USER_NOT_LOGGED_IN else
  d ← db;
  _ ← st_assert (has_flag (flags d) PKCS11_CKFT_TOKEN_INITIALIZED);
  set_pin token read_write pin USER.

End Pin.
