(* ===== verification/Pkcs11PinSpec.v ===== *)
(** The PINs of a token: flags and counter, and what the token promises. A wrong
    PIN can be tried a limited number of times, the state of counters and flags
    stays consistent, and the PIN that was set is the one that is accepted. *)
From S2P Require Import Prelude State Bytes Pkcs11Attr Pkcs11Pin.

(** ** Flags *)

Lemma has_flag_bit f k : 0 ≤ k → has_flag f (2 ^ k) = Z.testbit f k.
Proof.
  intros Hk. unfold has_flag. apply eq_true_iff_eq. rewrite negb_true_iff, Z.eqb_neq. split.
  - intros N. apply not_false_is_true. intros T. apply N. apply Z.bits_inj'. intros i Hi.
    rewrite Z.land_spec, Z.pow2_bits_eqb, Z.bits_0 by done.
    destruct (Z.eqb_spec k i) as [<-|]; [by rewrite T|apply andb_false_r].
  - intros T E. assert (B : Z.testbit (Z.land f (2 ^ k)) k = true)
      by (by rewrite Z.land_spec, T, Z.pow2_bits_true). by rewrite E, Z.bits_0 in B.
Qed.

(** The number of a flag, and whether a mask has it. *)
Record flag_at (m k : Z) : Prop := { fl_eq : m = 2 ^ k; fl_pos : 0 ≤ k }.

Lemma has_set f m q k : flag_at q k → has_flag (Z.lor f m) q = has_flag f q || has_flag m q.
Proof. intros [-> H]. by rewrite !has_flag_bit, Z.lor_spec. Qed.

Lemma has_clear f m q k : flag_at q k → has_flag (Z.land f (Z.lnot m)) q = has_flag f q && negb (has_flag m q).
Proof. intros [-> H]. by rewrite !has_flag_bit, Z.land_spec, Z.lnot_spec. Qed.

Lemma low_at u : flag_at (COUNT_LOW u) (match u with SO => 20 | USER => 16 end).
Proof. by destruct u. Qed.
Lemma final_at u : flag_at (FINAL_TRY u) (match u with SO => 21 | USER => 17 end).
Proof. by destruct u. Qed.
Lemma locked_at u : flag_at (LOCKED u) (match u with SO => 22 | USER => 18 end).
Proof. by destruct u. Qed.

Create Rewrite HintDb pin.
#[global] Hint Rewrite (λ f m u, has_set f m _ _ (low_at u)) (λ f m u, has_set f m _ _ (final_at u))
  (λ f m u, has_set f m _ _ (locked_at u)) (λ f m u, has_clear f m _ _ (low_at u))
  (λ f m u, has_clear f m _ _ (final_at u)) (λ f m u, has_clear f m _ _ (locked_at u)) : pin.

(** The flags of one PIN among each other. *)
Lemma own_flags u :
  (has_flag (COUNT_LOW u) (COUNT_LOW u) = true ∧ has_flag (COUNT_LOW u) (FINAL_TRY u) = false ∧
   has_flag (COUNT_LOW u) (LOCKED u) = false) ∧
  (has_flag (FINAL_TRY u) (COUNT_LOW u) = false ∧ has_flag (FINAL_TRY u) (FINAL_TRY u) = true ∧
   has_flag (FINAL_TRY u) (LOCKED u) = false) ∧
  (has_flag (LOCKED u) (COUNT_LOW u) = false ∧ has_flag (LOCKED u) (FINAL_TRY u) = false ∧
   has_flag (LOCKED u) (LOCKED u) = true) ∧
  (has_flag (pin_flags u) (COUNT_LOW u) = true ∧ has_flag (pin_flags u) (FINAL_TRY u) = true ∧
   has_flag (pin_flags u) (LOCKED u) = true).
Proof. by destruct u. Qed.

Lemma flags_set m d : flags (set_flags m d) = Z.lor (flags d) m.
Proof. done. Qed.

Lemma flags_clear m d : flags (clear_flags m d) = Z.land (flags d) (Z.lnot m).
Proof. done. Qed.

Lemma flags_fields u c s h d : flags (set_pin_fields u c s h d) = flags d.
Proof. by destruct u. Qed.

Lemma count_fields u c s h d : pin_count u (set_pin_fields u c s h d) = c.
Proof. by destruct u. Qed.

Lemma count_set_flags u m d : pin_count u (set_flags m d) = pin_count u d.
Proof. by destruct u. Qed.

Lemma count_clear_flags u m d : pin_count u (clear_flags m d) = pin_count u d.
Proof. by destruct u. Qed.

Lemma salt_fields u c s h d : pin_salt u (set_pin_fields u c s h d) = s.
Proof. by destruct u. Qed.

Lemma hash_fields u c s h d : pin_hash u (set_pin_fields u c s h d) = h.
Proof. by destruct u. Qed.

Lemma salt_set_flags u m d : pin_salt u (set_flags m d) = pin_salt u d.
Proof. by destruct u. Qed.

Lemma salt_clear_flags u m d : pin_salt u (clear_flags m d) = pin_salt u d.
Proof. by destruct u. Qed.

Lemma hash_set_flags u m d : pin_hash u (set_flags m d) = pin_hash u d.
Proof. by destruct u. Qed.

Lemma hash_clear_flags u m d : pin_hash u (clear_flags m d) = pin_hash u d.
Proof. by destruct u. Qed.

#[global] Hint Rewrite flags_set flags_clear flags_fields count_fields salt_fields hash_fields
  count_set_flags count_clear_flags salt_set_flags salt_clear_flags hash_set_flags hash_clear_flags : pin.

(** ** The counter *)

Definition COUNT_LIMIT : Z := 7.

(** Counter and flags fit. *)
Record pin_ok (u : pin_user) (d : token_persistent_main) : Prop := {
  po_count : 0 ≤ pin_count u d ≤ COUNT_LIMIT;
  po_locked : has_flag (flags d) (LOCKED u) = (pin_count u d =? COUNT_LIMIT);
  po_final : has_flag (flags d) (FINAL_TRY u) = (COUNT_LIMIT - 1 <=? pin_count u d);
  po_low : has_flag (flags d) (COUNT_LOW u) = (0 <? pin_count u d);
}.

Lemma limit_eq u : COUNT_MAX u = COUNT_LIMIT.
Proof. by destruct u. Qed.

(** Goals about counter and flags after some changes. *)
Ltac pin_goals u :=
  let O := fresh in
  pose proof (own_flags u) as O;
  destruct O as ((?O1&?O2&?O3)&(?O4&?O5&?O6)&(?O7&?O8&?O9)&(?O10&?O11&?O12));
  autorewrite with pin; unfold COUNT_LIMIT in *;
  repeat match goal with E : has_flag _ _ = _ |- _ => rewrite E; clear E end;
  cbn [orb andb negb]; rewrite ?orb_false_r, ?orb_true_r, ?andb_true_r, ?andb_false_r;
  try done; try lia.

Lemma preset_spec u d : pin_ok u d → pin_count u d < COUNT_LIMIT →
  pin_ok u (preset u d) ∧ pin_count u (preset u d) = pin_count u d + 1.
Proof.
  intros [C L F W] Lt. unfold preset. cbv zeta. rewrite limit_eq. unfold set_count. autorewrite with pin.
  rewrite u32_id by (unfold COUNT_LIMIT in *; lia). unfold COUNT_LIMIT in *.
  destruct (Z.eqb_spec (pin_count u d + 1) (7 - 1)) as [E|N]; [|destruct (Z.eqb_spec (pin_count u d + 1) 7) as [E|N2]].
  all: split_and!; [constructor|]; pin_goals u.
Qed.

Lemma settle_spec u rc d : pin_ok u d → 0 < pin_count u d →
  pin_ok u (settle u rc d) ∧ pin_count u (settle u rc d) = (if rc =? 0 then 0 else pin_count u d - 1).
Proof.
  intros [C L F W] Lt. unfold settle. cbv zeta. rewrite limit_eq. unfold set_count. autorewrite with pin.
  rewrite u32_id by (unfold COUNT_LIMIT in *; lia). unfold COUNT_LIMIT in *.
  destruct (Z.eqb_spec rc 0) as [->|N]; cbn [negb].
  - change (0 <? 7 - 1) with true. change (0 =? 0) with true. cbv iota.
    split_and!; [constructor|]; pin_goals u.
  - destruct (Z.ltb_spec (pin_count u d - 1) (7 - 1)) as [E|E];
      [destruct (Z.eqb_spec (pin_count u d - 1) 0)|].
    all: split_and!; [constructor|]; pin_goals u.
Qed.

(** ** What stays *)

Definition other (u : pin_user) : pin_user := match u with SO => USER | USER => SO end.

(** The counter and the flags of [u] may differ, nothing else. *)
Record frame (u : pin_user) (d d' : token_persistent_main) : Prop := {
  fr_salt : ∀ v, pin_salt v d' = pin_salt v d;
  fr_hash : ∀ v, pin_hash v d' = pin_hash v d;
  fr_count : pin_count (other u) d' = pin_count (other u) d;
  fr_label : label d' = label d;
  fr_flags : ∀ k, 0 ≤ k → Z.testbit (pin_flags u) k = false → Z.testbit (flags d') k = Z.testbit (flags d) k;
}.

#[global] Instance frame_refl u : Reflexive (frame u).
Proof. intros d. by constructor. Qed.

#[global] Instance frame_trans u : Transitive (frame u).
Proof.
  intros d1 d2 d3 [A B C D E] [A' B' C' D' E']. constructor; intros.
  - by rewrite A'. - by rewrite B'. - by rewrite C'. - by rewrite D'. - rewrite E', E; done.
Qed.

Lemma frame_set u m d : Z.land m (Z.lnot (pin_flags u)) = 0 → frame u d (set_flags m d).
Proof.
  intros M. constructor; try done; try (by intros []); try (by destruct u). intros k Hk T. rewrite flags_set, Z.lor_spec.
  assert (Z.testbit (Z.land m (Z.lnot (pin_flags u))) k = false) as B by (by rewrite M, Z.bits_0).
  rewrite Z.land_spec, Z.lnot_spec, T in B by done. destruct (Z.testbit m k); [done|by rewrite orb_false_r].
Qed.

Lemma frame_clear u m d : Z.land m (Z.lnot (pin_flags u)) = 0 → frame u d (clear_flags m d).
Proof.
  intros M. constructor; try done; try (by intros []); try (by destruct u). intros k Hk T.
  rewrite flags_clear, Z.land_spec, Z.lnot_spec by done.
  assert (Z.testbit (Z.land m (Z.lnot (pin_flags u))) k = false) as B by (by rewrite M, Z.bits_0).
  rewrite Z.land_spec, Z.lnot_spec, T in B by done. destruct (Z.testbit m k); [done|by rewrite andb_true_r].
Qed.

Lemma frame_count u c d : frame u d (set_count u c d).
Proof. constructor; unfold set_count; [intros v; by destruct u, v..|by destruct u|by destruct u|by destruct u]. Qed.

Lemma frame_preset u d : frame u d (preset u d).
Proof.
  unfold preset. cbv zeta.
  assert (frame u d (set_count u (u32 (pin_count u (set_flags (COUNT_LOW u) d) + 1)) (set_flags (COUNT_LOW u) d))).
  { etransitivity; [apply (frame_set u (COUNT_LOW u)); by destruct u|apply frame_count]. }
  case_match; [|case_match]; [etransitivity; [eassumption|apply frame_set; by destruct u]..|done].
Qed.

Lemma frame_settle u rc d : frame u d (settle u rc d).
Proof.
  unfold settle. cbv zeta. set (c := if negb _ then _ else _).
  assert (frame u d (clear_flags (LOCKED u) (set_count u c d))) as F.
  { etransitivity; [apply frame_count|apply frame_clear; by destruct u]. }
  revert F. generalize (clear_flags (LOCKED u) (set_count u c d)). intros d' F.
  case_match; [|done]. case_match; repeat (etransitivity; [|apply frame_clear; by destruct u]); done.
Qed.

(** A flag that is none of [u]'s. *)
Lemma frame_flag u d d' q k : frame u d d' → flag_at q k → Z.testbit (pin_flags u) k = false →
  has_flag (flags d') q = has_flag (flags d) q.
Proof. intros F [-> H] T. rewrite !has_flag_bit by done. by apply F. Qed.

Lemma frame_other u d d' : frame u d d' → pin_ok (other u) d → pin_ok (other u) d'.
Proof.
  intros F [C L Fi W]. pose proof (fr_count _ _ _ F) as E.
  constructor; rewrite E; [done| | |];
    [rewrite <-L; eapply frame_flag; [exact F|apply locked_at|by destruct u]
    |rewrite <-Fi; eapply frame_flag; [exact F|apply final_at|by destruct u]
    |rewrite <-W; eapply frame_flag; [exact F|apply low_at|by destruct u]].
Qed.

(** ** Checking *)

(** What the TA calls returns; a digest is a function of the bytes. *)
Class TokenApiLaws `{TokenApi} := {
  sha256 : list Z → list Z;
  open_db_file_returns : ∀ token h, wp (open_db_file token) h (λ _ _, True);
  write_db_main_returns : ∀ token d h, wp (write_db_main token d) h (λ _ _, True);
  alloc_sha256_returns : ∀ h, wp alloc_sha256 h (λ _ _, True);
  final_sha256_is : ∀ l h, wp (final_sha256 l) h (λ r _, r.1 = 0 → r.2 = sha256 l);
  random_u32_returns : ∀ h, wp random_u32 h (λ _ _, True);
  client_identity_returns : ∀ h, wp client_identity h (λ _ _, True);
}.

(** One step, also through the data of the token. *)
Ltac t_step :=
  cbn [negb]; cbv beta iota;
  lazymatch goal with
  | |- pwp db _ _ => apply pwp_gets; cbn [fst snd]
  | |- pwp (change _) _ _ => apply pwp_modify; cbn [fst snd]
  | |- _ => p_step
  end; cbv beta.

Section Checking.
Context `{TokenApiLaws} `{!TaHeapLaws}.

Lemma pwp_call {A} (m : St ta_heap A) d h (P : A → Prop) (Q : A → token_persistent_main * ta_heap → Prop) :
  wp m h (λ a _, P a) → (∀ a h', P a → Q a (d, h')) → pwp (ta_call m) (d, h) Q.
Proof.
  intros W HQ. apply pwp_zoom, pwp_of_wp. cbn. destruct W as (a & h' & E & Pa). exists a, h'. auto.
Qed.

(** The hash of a PIN. *)
Definition pin_digest (user : Z) (pin : list Z) (salt : Z) : list Z :=
  let hash := sha256 (le_bytes 4 user ++ le_bytes 4 salt ++ pin) in
  hash ++ replicate (Z.to_nat (MAX_HASH_SIZE - Z.of_nat (length hash))) 0.

Definition right_pin (u : pin_user) (pin : list Z) (d : token_persistent_main) : Prop :=
  pin_digest (cku u) pin (pin_salt u d) = pin_hash u d.

(** Why a hash was not computed: no error of these is about the PIN. *)
Definition other_error (rc : Z) : Prop :=
  rc ≠ PKCS11_CKR_OK ∧ rc ≠ PKCS11_CKR_PIN_INCORRECT ∧ rc ≠ PKCS11_CKR_PIN_LOCKED.

Lemma tee2pkcs_other res : res ≠ 0 → other_error (tee2pkcs_error res).
Proof.
  intros N. unfold tee2pkcs_error. replace (res =? TEE_SUCCESS) with false by (symmetry; by apply Z.eqb_neq).
  repeat case_match; by split_and!.
Qed.

Lemma update_persistent_db_spec token d h (Q : unit → token_persistent_main * ta_heap → Prop) :
  (∀ h', Q tt (d, h')) → pwp (update_persistent_db token) (d, h) Q.
Proof.
  intros HQ. unfold update_persistent_db. t_step. eapply pwp_call; [apply open_db_file_returns|]. intros res h1 _.
  destruct (negb (res =? 0)); [t_step|]. do 3 t_step.
  eapply pwp_call; [apply write_db_main_returns|]. intros res2 h2 _.
  destruct (negb (res2 =? 0)); t_step. apply HQ.
Qed.

Lemma do_hash_spec user pin salt d h (Q : Z * list Z → token_persistent_main * ta_heap → Prop) :
  (∀ h', Q (PKCS11_CKR_OK, pin_digest user pin salt) (d, h')) →
  (∀ rc h', other_error rc → Q (rc, []) (d, h')) →
  pwp (do_hash user pin salt) (d, h) Q.
Proof.
  intros HQ HE. unfold do_hash. t_step. eapply pwp_call; [apply alloc_sha256_returns|]. intros res h1 _.
  destruct (Z.eqb_spec res 0) as [->|N]; cbn [negb]; [|t_step; by apply HE, tee2pkcs_other].
  t_step. eapply pwp_call; [apply final_sha256_is|]. intros [res2 hash] h2 E. cbn in E.
  destruct (Z.eqb_spec res2 0) as [->|N]; cbn [negb]; t_step.
  - rewrite E by done. apply HQ.
  - by apply HE.
Qed.

Lemma verify_pin_spec u pin d h (Q : Z → token_persistent_main * ta_heap → Prop) :
  (∀ h', right_pin u pin d → Q PKCS11_CKR_OK (d, h')) →
  (∀ h', ¬ right_pin u pin d → Q PKCS11_CKR_PIN_INCORRECT (d, h')) →
  (∀ rc h', other_error rc → Q rc (d, h')) →
  pwp (verify_pin (cku u) pin (pin_salt u d) (pin_hash u d)) (d, h) Q.
Proof.
  intros HR HW HE. unfold verify_pin. t_step. apply do_hash_spec.
  - intros h'. cbv beta iota. change (PKCS11_CKR_OK =? 0) with true. t_step. case_bool_decide as R; auto.
  - intros rc h' (N & O). cbv beta iota. replace (rc =? 0) with false by (symmetry; by apply Z.eqb_neq). t_step. by apply HE.
Qed.

(** What the check of a PIN may do. *)
Inductive checked (u : pin_user) (pin : list Z) (d d' : token_persistent_main) : Z → Prop :=
  | checked_locked :
      pin_count u d = COUNT_LIMIT → d' = d → checked u pin d d' PKCS11_CKR_PIN_LOCKED
  | checked_right :
      pin_count u d < COUNT_LIMIT → right_pin u pin d → pin_count u d' = 0 → checked u pin d d' PKCS11_CKR_OK
  | checked_wrong :
      pin_count u d < COUNT_LIMIT → ¬ right_pin u pin d → pin_count u d' = pin_count u d + 1 →
      checked u pin d d'
        (if pin_count u d' =? COUNT_LIMIT then PKCS11_CKR_PIN_LOCKED else PKCS11_CKR_PIN_INCORRECT)
  | checked_error rc :
      pin_count u d < COUNT_LIMIT → other_error rc → pin_count u d' = pin_count u d → checked u pin d d' rc.

Lemma check_pin_spec token u pin d h : pin_ok u d →
  pwp (check_pin token u pin) (d, h) (λ rc s', pin_ok u s'.1 ∧ frame u d s'.1 ∧ checked u pin d s'.1 rc).
Proof.
  intros K. unfold check_pin. do 2 t_step. cbn [fst]. rewrite (po_locked _ _ K).
  destruct (Z.eqb_spec (pin_count u d) COUNT_LIMIT) as [E|N].
  { t_step. cbn. split_and!; [done|done|by apply checked_locked]. }
  assert (pin_count u d < COUNT_LIMIT) as Lt by (pose proof (po_count _ _ K); lia).
  destruct (preset_spec u d K Lt) as (K1 & C1). pose proof (frame_preset u d) as F1.
  t_step. t_step. cbn [fst snd]. t_step. apply update_persistent_db_spec. intros h1. do 2 t_step. cbn [fst].
  assert (∀ p, right_pin u p (preset u d) ↔ right_pin u p d) as R.
  { intros p. unfold right_pin. by rewrite (fr_salt _ _ _ F1), (fr_hash _ _ _ F1). }
  t_step. apply verify_pin_spec; [intros h2 X|intros h2 X|intros rc h2 (E1 & E2 & E3)].
  - change (PKCS11_CKR_OK =? PKCS11_CKR_PIN_INCORRECT) with false. cbv iota.
    destruct (settle_spec u PKCS11_CKR_OK (preset u d) K1 ltac:(pose proof (po_count _ _ K); lia)) as (K2 & C2).
    do 2 t_step. cbn [fst snd]. t_step. apply update_persistent_db_spec. intros h3. t_step. cbn [fst].
    split_and!; [done|by etransitivity; [|apply frame_settle]|]. apply checked_right; [done|by apply R|done].
  - rewrite Z.eqb_refl. t_step. cbn [fst]. split_and!; [done|done|].
    rewrite (po_locked _ _ K1). apply checked_wrong; [done|by rewrite <-R|done].
  - replace (rc =? PKCS11_CKR_PIN_INCORRECT) with false by (symmetry; by apply Z.eqb_neq).
    destruct (settle_spec u rc (preset u d) K1 ltac:(pose proof (po_count _ _ K); lia)) as (K2 & C2).
    do 2 t_step. cbn [fst snd]. t_step. apply update_persistent_db_spec. intros h3. t_step. cbn [fst].
    split_and!; [done|by etransitivity; [|apply frame_settle]|]. apply checked_error; [done|by split_and!|].
    rewrite C2, C1. replace (rc =? 0) with false by (symmetry; by apply Z.eqb_neq). lia.
Qed.

End Checking.

Section Spec.
Context `{TokenApiLaws} `{!TaHeapLaws}.

Definition check_of (u : pin_user) (token : nat) (pin : list Z) : PinM Z :=
  match u with SO => check_so_pin token pin | USER => check_user_pin token pin end.

(** The token works with PINs and has one for [u]. *)
Record ready (u : pin_user) (d : token_persistent_main) : Prop := {
  rd_mode : use_identity d = false;
  rd_init : has_flag (flags d) (match u with SO => PKCS11_CKFT_TOKEN_INITIALIZED | USER => PKCS11_CKFT_USER_PIN_INITIALIZED end) = true;
  rd_salt : u = USER → pin_salt u d ≠ 0;
}.

Lemma mode_at : flag_at PKCS11_CKFT_PROTECTED_AUTHENTICATION_PATH 8.
Proof. done. Qed.

Lemma init_at u :
  flag_at (match u with SO => PKCS11_CKFT_TOKEN_INITIALIZED | USER => PKCS11_CKFT_USER_PIN_INITIALIZED end)
    (match u with SO => 10 | USER => 3 end).
Proof. by destruct u. Qed.

Lemma frame_mode v d d' : frame v d d' → use_identity d' = use_identity d.
Proof.
  intros F. unfold use_identity. f_equal. eapply frame_flag; [exact F|apply mode_at|by destruct v].
Qed.

Lemma frame_ready u v d d' : frame v d d' → ready u d → ready u d'.
Proof.
  intros F [M I S]. constructor.
  - rewrite <-M. by eapply frame_mode.
  - rewrite <-I. eapply frame_flag; [exact F|apply init_at|by destruct u, v].
  - by rewrite (fr_salt _ _ _ F).
Qed.

Lemma check_of_spec u token pin d h : ready u d → pin_ok u d →
  pwp (check_of u token pin) (d, h) (λ rc s', pin_ok u s'.1 ∧ frame u d s'.1 ∧ checked u pin d s'.1 rc).
Proof.
  intros [M I S] K. destruct u; cbn [check_of].
  - unfold check_so_pin. do 2 t_step. t_step. apply pwp_assert. intros _. rewrite M. by apply check_pin_spec.
  - unfold check_user_pin. do 2 t_step. rewrite I, M. t_step. apply pwp_assert. intros _.
    by apply check_pin_spec.
Qed.

(** ** Guesses *)

Fixpoint attempts (u : pin_user) (token : nat) (pins : list (list Z)) : PinM (list Z) :=
  match pins with
  | [] => mret []
  | pin :: pins => rc ← check_of u token pin; rcs ← attempts u token pins; mret (rc :: rcs)
  end.

(** The results of the attempts, of a PIN with a counter. *)
Inductive guessed (right : list Z → Prop) : Z → list (list Z) → list Z → Prop :=
  | guessed_nil c : guessed right c [] []
  | guessed_locked pin pins rcs :
      guessed right COUNT_LIMIT pins rcs → guessed right COUNT_LIMIT (pin :: pins) (PKCS11_CKR_PIN_LOCKED :: rcs)
  | guessed_right c pin pins rcs :
      c < COUNT_LIMIT → right pin → guessed right 0 pins rcs → guessed right c (pin :: pins) (PKCS11_CKR_OK :: rcs)
  | guessed_wrong c pin pins rcs :
      c + 1 < COUNT_LIMIT → ¬ right pin → guessed right (c + 1) pins rcs →
      guessed right c (pin :: pins) (PKCS11_CKR_PIN_INCORRECT :: rcs)
  | guessed_last pin pins rcs :
      ¬ right pin → guessed right COUNT_LIMIT pins rcs →
      guessed right (COUNT_LIMIT - 1) (pin :: pins) (PKCS11_CKR_PIN_LOCKED :: rcs)
  | guessed_error c pin pins rc rcs :
      c < COUNT_LIMIT → other_error rc → guessed right c pins rcs → guessed right c (pin :: pins) (rc :: rcs).

Lemma attempts_guessed u token pins : ∀ d h, ready u d → pin_ok u d →
  pwp (attempts u token pins) (d, h) (λ rcs s',
    pin_ok u s'.1 ∧ frame u d s'.1 ∧ guessed (λ pin, right_pin u pin d) (pin_count u d) pins rcs).
Proof.
  induction pins as [|pin pins IH]; intros d h R K; cbn [attempts].
  { t_step. cbn [fst]. split_and!; [done|done|constructor]. }
  t_step. eapply pwp_mono; [by apply check_of_spec|]. intros rc [d1 h1] (K1 & F1 & Ch). cbn [fst] in *.
  t_step. eapply pwp_mono; [apply IH; [by eapply frame_ready|done]|]. intros rcs [d2 h2] (K2 & F2 & G).
  cbn [fst] in *. t_step. cbn [fst]. split_and!; [done|by etransitivity|].
  assert (guessed (λ p, right_pin u p d) (pin_count u d1) pins rcs) as G'.
  { revert G. unfold right_pin. by rewrite (fr_salt _ _ _ F1), (fr_hash _ _ _ F1). }
  destruct Ch as [E ->|L Ri E|L W E|rc L O E].
  - rewrite E in *. by constructor.
  - rewrite E in *. by apply guessed_right.
  - rewrite E in *. destruct (Z.eqb_spec (pin_count u d + 1) COUNT_LIMIT) as [E2|N].
    + replace (pin_count u d) with (COUNT_LIMIT - 1) by lia. apply guessed_last; [done|]. by rewrite <-E2.
    + apply guessed_wrong; [lia|done|done].
  - rewrite E in *. by apply guessed_error.
Qed.

Definition wrong (rcs : list Z) : nat := length (filter (λ rc, rc = PKCS11_CKR_PIN_INCORRECT) rcs).

Lemma guessed_bound right c pins rcs : guessed right c pins rcs → c ≤ COUNT_LIMIT →
  (PKCS11_CKR_OK ∉ rcs → Z.of_nat (wrong rcs) + c ≤ Z.max c (COUNT_LIMIT - 1)).
Proof.
  unfold wrong. induction 1; intros Hc Hno; [cbn; lia|..];
    apply not_elem_of_cons in Hno as [Hn1 Hno]; rewrite filter_cons.
  - rewrite decide_False by done. specialize (IHguessed Hc Hno). lia.
  - done.
  - rewrite decide_True by done. cbn [length]. specialize (IHguessed ltac:(lia) Hno). lia.
  - rewrite decide_False by done. specialize (IHguessed ltac:(done) Hno). unfold COUNT_LIMIT in *. lia.
  - match goal with O : other_error _ |- _ => destruct O as (? & ? & ?) end. rewrite decide_False by done. auto.
Qed.

Lemma guessed_stuck right pins rcs c : guessed right c pins rcs → c = COUNT_LIMIT →
  Forall (λ rc, rc = PKCS11_CKR_PIN_LOCKED) rcs.
Proof.
  induction 1; intros E; constructor; try (by subst; auto); try (unfold COUNT_LIMIT in *; lia).
Qed.

(** ** Setting *)

(** A mask has none of the three flags that follow the counter. *)
Definition none_of (v : pin_user) (m : Z) : bool :=
  negb (has_flag m (COUNT_LOW v) || has_flag m (FINAL_TRY v) || has_flag m (LOCKED v)).

Lemma none_of_flags v m : none_of v m = true →
  has_flag m (COUNT_LOW v) = false ∧ has_flag m (FINAL_TRY v) = false ∧ has_flag m (LOCKED v) = false.
Proof. unfold none_of. rewrite negb_true_iff, !orb_false_iff. tauto. Qed.

Lemma ok_set v m d : none_of v m = true → pin_ok v d → pin_ok v (set_flags m d).
Proof.
  intros (A & B & C)%none_of_flags []. constructor; autorewrite with pin; rewrite ?A, ?B, ?C, ?orb_false_r; done.
Qed.

Lemma ok_clear v m d : none_of v m = true → pin_ok v d → pin_ok v (clear_flags m d).
Proof.
  intros (A & B & C)%none_of_flags []. constructor; autorewrite with pin; rewrite ?A, ?B, ?C, ?andb_true_r; done.
Qed.

Lemma ok_fields u c s hs d : pin_ok (other u) d → pin_ok (other u) (set_pin_fields u c s hs d).
Proof. intros []. by destruct u; constructor. Qed.

Lemma ok_reset u s hs m d : pin_ok u (clear_flags (Z.lor m (pin_flags u)) (set_pin_fields u 0 s hs d)).
Proof. constructor; pin_goals u. Qed.

(** The PIN of the user counts once there is one. *)
Record pins_ok (d : token_persistent_main) : Prop := {
  ps_so : pin_ok SO d;
  ps_user : has_flag (flags d) PKCS11_CKFT_USER_PIN_INITIALIZED = true → pin_ok USER d;
}.

(** Changes of flags that no PIN has. *)
Lemma pins_ok_set m d : none_of SO m = true → none_of USER m = true →
  has_flag m PKCS11_CKFT_USER_PIN_INITIALIZED = false → pins_ok d → pins_ok (set_flags m d).
Proof.
  intros A B C [S U]. constructor; [by apply ok_set|]. rewrite flags_set, (has_set _ _ _ _ (init_at USER)), C, orb_false_r.
  intros I. by apply ok_set, U.
Qed.

Lemma pins_ok_clear m d : none_of SO m = true → none_of USER m = true → pins_ok d → pins_ok (clear_flags m d).
Proof.
  intros A B [S U]. constructor; [by apply ok_clear|]. rewrite flags_clear, (has_clear _ _ _ _ (init_at USER)).
  intros [I _]%andb_true_iff. by apply ok_clear, U.
Qed.

(** What a new PIN or identity writes. *)
Definition renewed (u : pin_user) (salt : Z) (hash : list Z) (flags_clear flags_set : Z) (d : token_persistent_main)
  : token_persistent_main :=
  set_flags flags_set (clear_flags (Z.lor flags_clear (pin_flags u)) (set_pin_fields u 0 salt hash d)).

Definition initialized_flag (u : pin_user) : Z := match u with SO => 0 | USER => PKCS11_CKFT_USER_PIN_INITIALIZED end.

(** With the PIN of the SO the user's may have got inconsistent: it is gone. *)
Lemma renewed_ok u s hs fc d : fc = 0 ∨ fc = PKCS11_CKFT_PROTECTED_AUTHENTICATION_PATH →
  pins_ok d → pins_ok (renewed u s hs fc (initialized_flag u) d).
Proof.
  intros Hf [S U]. unfold renewed.
  assert (∀ v, v ≠ u → none_of v (Z.lor fc (pin_flags u)) = true) as N by (by destruct Hf as [->| ->], u, v).
  destruct u; cbn [initialized_flag].
  - apply pins_ok_set; [done..|]. constructor; [apply ok_reset|]. rewrite flags_clear, flags_fields, (has_clear _ _ _ _ (init_at USER)).
    intros [I _]%andb_true_iff. apply ok_clear; [by apply N|]. by apply (ok_fields SO), U.
  - constructor; [|intros _; apply ok_set; [done|apply ok_reset]].
    apply ok_set, ok_clear; [done|by apply N|]. by apply (ok_fields USER).
Qed.

Lemma setup_identity_spec u pin d h : pins_ok d →
  pwp (setup_identity_auth_from_pin u pin) (d, h) (λ rc s', pins_ok s'.1 ∧ (rc ≠ PKCS11_CKR_OK → s'.1 = d)).
Proof.
  intros K. unfold setup_identity_auth_from_pin. do 3 t_step. apply pwp_assert. intros _. t_step.
  apply (pwp_mono _ _ (λ _ s', s'.1 = d)).
  { destruct pin as [pin|]; t_step; (eapply pwp_call; [first [apply client_identity_returns|apply ta_alloc_ok]|]).
    - intros ok h' _. by t_step.
    - intros [res id] h' _. by t_step. }
  intros r [d' h'] E. cbn [fst] in E. subst d'. destruct r as [rc|id]; [by t_step|].
  do 6 t_step. t_step. cbn [fst]. split; [|done].
  by apply (renewed_ok u 0 (store_identity id (pin_hash u d)) 0 d); [left|].
Qed.

Lemma update_db_spec token fc fs d h :
  pwp (update_db token fc fs) (d, h) (λ rc s', rc = PKCS11_CKR_OK ∧ s'.1 = set_flags fs (clear_flags fc d)).
Proof.
  unfold update_db. do 2 t_step. t_step. apply update_persistent_db_spec. intros h'. by t_step.
Qed.

(** The token data after a new PIN, and its salt. *)
Definition new_pin_data (u : pin_user) (pin : list Z) (salt fc : Z) (d : token_persistent_main) : token_persistent_main :=
  renewed u salt (pin_digest (cku u) pin salt) fc (initialized_flag u) d.

Lemma set_new_hash_spec token u pin fc d h :
  pwp (set_new_hash token u pin fc) (d, h) (λ rc s',
    (rc = PKCS11_CKR_OK ∧ PKCS11_TOKEN_PIN_SIZE_MIN ≤ Z.of_nat (length pin) ≤ PKCS11_TOKEN_PIN_SIZE_MAX ∧
     ∃ salt, salt ≠ 0 ∧ s'.1 = new_pin_data u pin salt fc d) ∨
    (rc ≠ PKCS11_CKR_OK ∧ s'.1 = d)).
Proof.
  unfold set_new_hash. cbv zeta. destruct (_ || _) eqn:L; [t_step; by right|].
  apply orb_false_iff in L as [L1%Z.ltb_ge L2%Z.ltb_ge]. t_step. unfold hash_pin. t_step.
  eapply pwp_call; [apply random_u32_returns|]. intros s0 h1 _. cbv zeta. t_step.
  set (s := if s0 =? 0 then 1 else s0). assert (s ≠ 0) as Ns by (subst s; case_match; lia).
  apply do_hash_spec.
  - intros h2. t_step. change (PKCS11_CKR_OK =? 0) with true. do 2 t_step.
    eapply pwp_mono; [apply update_db_spec|]. intros rc s' [-> E]. left. split_and!; [done|lia|lia|].
    exists s. by rewrite E.
  - intros rc h2 (N & _). t_step. replace (rc =? 0) with false by (symmetry; by apply Z.eqb_neq). t_step. by right.
Qed.

Lemma set_new_hash_ok token u pin fc d h : fc = 0 ∨ fc = PKCS11_CKFT_PROTECTED_AUTHENTICATION_PATH → pins_ok d →
  pwp (set_new_hash token u pin fc) (d, h) (λ _ s', pins_ok s'.1).
Proof.
  intros Hf K. eapply pwp_mono; [apply set_new_hash_spec|].
  intros rc s' [(_ & _ & salt & _ & ->)|[_ ->]]; [by apply renewed_ok|done].
Qed.

Lemma update_db_ok token d h : pins_ok d → pwp (update_db token 0 0) (d, h) (λ _ s', pins_ok s'.1).
Proof.
  intros K. eapply pwp_mono; [apply update_db_spec|]. intros rc s' [_ ->].
  by apply pins_ok_set; [..|apply pins_ok_clear].
Qed.

Lemma set_pin_ok token rw new u d h : pins_ok d → pwp (set_pin token rw new u) (d, h) (λ _ s', pins_ok s'.1).
Proof.
  intros K. unfold set_pin. do 2 t_step. destruct (has_flag (flags d) PKCS11_CKFT_WRITE_PROTECTED); [by t_step|].
  destruct rw; cbn [negb]; [|by t_step]. cbv zeta. destruct (use_identity d) eqn:M.
  - t_step. eapply pwp_mono; [by apply setup_identity_spec|]. intros rc [d1 h1] [K1 E1]. cbn [fst] in *.
    do 2 t_step. case_match; [by apply update_db_ok|]. case_match; [apply set_new_hash_ok; auto|by t_step].
  - destruct (_ && _); [|apply set_new_hash_ok; auto]. do 3 t_step.
    eapply pwp_mono; [apply setup_identity_spec; by apply pins_ok_set|]. intros rc [d1 h1] [K1 _]. cbn [fst] in *.
    destruct (negb (rc =? 0)); [|by apply update_db_ok]. do 2 t_step. t_step. cbn [fst]. by apply pins_ok_clear.
Qed.

(** C9: A client that guesses: from a token in any consistent state, a sequence
    of checks of arbitrary PINs either panics (the file could not be written) or
    ends with results such that: if none was right, the PIN was found incorrect
    at most as often as the counter still allows before the last try; once the
    counter is at its limit every further result, of whatever PIN, is
    [PKCS11_CKR_PIN_LOCKED]; and the results are those of a counter machine in
    which only a right PIN resets the counter. Counter and flags stay consistent,
    salts, hashes, the other user's PIN and all other flags are left alone. *)
Theorem pin_guesses_bounded u token pins d h :
  ready u d → pin_ok u d →
  pwp (attempts u token pins) (d, h) (λ rcs s',
    pin_ok u s'.1 ∧ frame u d s'.1 ∧
    guessed (λ pin, right_pin u pin d) (pin_count u d) pins rcs ∧
    (PKCS11_CKR_OK ∉ rcs →
       Z.of_nat (wrong rcs) + pin_count u d ≤ Z.max (pin_count u d) (COUNT_LIMIT - 1)) ∧
    (pin_count u d = COUNT_LIMIT → Forall (λ rc, rc = PKCS11_CKR_PIN_LOCKED) rcs)).
Proof.
  intros R K. eapply pwp_mono; [by apply attempts_guessed|]. intros rcs s' (K' & F & G).
  split_and!; [done|done|done| |].
  - apply (guessed_bound _ _ _ _ G), (po_count _ _ K).
  - by apply (guessed_stuck _ _ _ _ G).
Qed.

(** ** Sequences of requests *)

(** What clients may do with the PINs of a token, in any order. *)
Inductive pin_call :=
  | InitToken (session_open : bool) (pin : option (list Z)) (label : list Z)
  | InitPin (is_so read_write : bool) (pin : option (list Z))
  | SetPin (is_so read_write : bool) (old_pin : list Z) (new_pin : option (list Z))
  | Login (u : pin_user) (pin : list Z).

Definition run_call (token : nat) (c : pin_call) : PinM Z :=
  match c with
  | InitToken session_open pin label => token_initialize token session_open pin label
  | InitPin is_so rw pin => init_pin token is_so rw pin
  | SetPin is_so rw old_pin new_pin => change_pin token is_so rw old_pin new_pin
  | Login u pin => check_of u token pin
  end.

Fixpoint run_calls (token : nat) (cs : list pin_call) : PinM (list Z) :=
  match cs with
  | [] => mret []
  | c :: cs => rc ← run_call token c; rcs ← run_calls token cs; mret (rc :: rcs)
  end.

Lemma verify_identity_kept u d h : pwp (verify_identity_auth u) (d, h) (λ _ s', s'.1 = d).
Proof.
  unfold verify_identity_auth. do 3 t_step. apply pwp_assert. intros _. t_step.
  eapply pwp_call; [apply client_identity_returns|]. intros [res id] h' _.
  by destruct (negb (res =? 0)); t_step.
Qed.

Lemma frame_pins_ok u d d' : frame u d d' → pin_ok u d' → (u = USER → has_flag (flags d) PKCS11_CKFT_USER_PIN_INITIALIZED = true) →
  pins_ok d → pins_ok d'.
Proof.
  intros F K I [S U]. destruct u; constructor; [done| | |done].
  - rewrite (frame_flag _ _ _ _ _ F (init_at USER)) by done. intros J. by eapply (frame_other SO), U.
  - by eapply (frame_other USER).
Qed.

Lemma check_pin_kept token u pin d h :
  (u = USER → has_flag (flags d) PKCS11_CKFT_USER_PIN_INITIALIZED = true) → pins_ok d →
  pwp (check_pin token u pin) (d, h) (λ _ s', pins_ok s'.1).
Proof.
  intros I K. eapply pwp_mono; [apply check_pin_spec; destruct u; apply K; by apply I|].
  intros rc s' (K' & F & _). by eapply frame_pins_ok.
Qed.

Lemma check_of_kept u token pin d h : pins_ok d → pwp (check_of u token pin) (d, h) (λ _ s', pins_ok s'.1).
Proof.
  intros K. destruct u; cbn [check_of]; unfold check_so_pin, check_user_pin; do 2 t_step.
  - t_step. apply pwp_assert. intros _. case_match; [|by apply check_pin_kept].
    eapply pwp_mono; [apply verify_identity_kept|]. by intros rc s' ->.
  - destruct (has_flag _ _) eqn:I; cbn [negb]; [|by t_step]. case_match.
    + eapply pwp_mono; [apply verify_identity_kept|]. by intros rc s' ->.
    + t_step. apply pwp_assert. intros _. by apply check_pin_kept.
Qed.

Lemma change_pin_kept token is_so rw old new d h : pins_ok d →
  pwp (change_pin token is_so rw old new) (d, h) (λ _ s', pins_ok s'.1).
Proof.
  intros K. unfold change_pin. destruct rw; cbn [negb]; [|by t_step]. do 2 t_step.
  destruct is_so; (case_match; [by t_step|]); t_step;
    [apply (pwp_mono _ _ _ _ (check_of_kept SO token old d h K))|apply (pwp_mono _ _ _ _ (check_of_kept USER token old d h K))];
    (intros rc [d1 h1] K1; case_match; [by t_step|by apply set_pin_ok]).
Qed.

Lemma init_pin_kept token is_so rw pin d h : pins_ok d → pwp (init_pin token is_so rw pin) (d, h) (λ _ s', pins_ok s'.1).
Proof.
  intros K. unfold init_pin. destruct is_so; cbn [negb]; [|by t_step]. do 3 t_step. apply pwp_assert. intros _.
  by apply set_pin_ok.
Qed.

(** *** Initializing *)

Lemma note_wrong_spec d : pin_ok SO d → pin_count SO d < COUNT_LIMIT →
  pin_ok SO (note_wrong d) ∧ pin_count SO (note_wrong d) = pin_count SO d + 1 ∧ frame SO d (note_wrong d).
Proof.
  intros K Lt. assert (note_wrong d = preset SO d) as E; [|by rewrite E; pose proof (preset_spec SO d K Lt) as [? ?];
    split_and!; [..|apply frame_preset]].
  unfold note_wrong, preset. cbv zeta.
  change PKCS11_TOKEN_SO_PIN_COUNT_MAX with (COUNT_MAX SO). set (d1 := set_count SO _ _).
  destruct (Z.eqb_spec (pin_count SO d1) (COUNT_MAX SO - 1)) as [E|N]; [|done].
  rewrite count_set_flags, E. by change (COUNT_MAX SO - 1 =? COUNT_MAX SO) with false.
Qed.

(** What the SO proves or sets up, before the token is made anew. *)
Inductive so_result (pin : option (list Z)) (d d' : token_persistent_main) : Z → Prop :=
  | so_accepted : has_flag (flags d) PKCS11_CKFT_TOKEN_INITIALIZED = true →
      (use_identity d = false → right_pin SO (default [] pin) d) → d' = d → so_result pin d d' PKCS11_CKR_OK
  | so_created : has_flag (flags d) PKCS11_CKFT_TOKEN_INITIALIZED = false →
      pin_count SO d' = pin_count SO d → (∀ v, pin_ok v d → pin_ok v d') →
      (∀ p, pin = Some p → right_pin SO p d') → so_result pin d d' PKCS11_CKR_OK
  | so_wrong : has_flag (flags d) PKCS11_CKFT_TOKEN_INITIALIZED = true → use_identity d = false →
      ¬ right_pin SO (default [] pin) d → pin_ok SO d' → pin_count SO d' = pin_count SO d + 1 → frame SO d d' →
      so_result pin d d' PKCS11_CKR_PIN_INCORRECT
  | so_failed rc : rc ≠ PKCS11_CKR_OK →
      (rc = PKCS11_CKR_PIN_INCORRECT → use_identity d = true) → d' = d → so_result pin d d' rc.

Lemma so_authenticate_spec token pin d h : pin_ok SO d → pin_count SO d < COUNT_LIMIT →
  has_flag (flags d) PKCS11_CKFT_TOKEN_INITIALIZED = true →
  pwp (so_authenticate token (default [] pin)) (d, h) (λ rc s', so_result pin d s'.1 rc).
Proof.
  intros K Lt I. unfold so_authenticate. do 2 t_step. destruct (use_identity d) eqn:M.
  - unfold verify_identity_auth. do 3 t_step. apply pwp_assert. intros _. t_step.
    eapply pwp_call; [apply client_identity_returns|]. intros [res id] h' _.
    destruct (negb (res =? 0)); t_step; cbn [fst].
    + by apply so_failed.
    + case_bool_decide; [apply so_accepted; [done|by rewrite M|done]|by apply so_failed].
  - t_step. apply (verify_pin_spec SO).
    + intros h' R. change (PKCS11_CKR_OK =? PKCS11_CKR_PIN_INCORRECT) with false. t_step. by apply so_accepted.
    + intros h' W. rewrite Z.eqb_refl. destruct (note_wrong_spec d K Lt) as (K1 & C1 & F1).
      do 3 t_step. apply update_persistent_db_spec. intros h2. t_step. by apply so_wrong.
    + intros rc h' (N1 & N2 & _). replace (rc =? PKCS11_CKR_PIN_INCORRECT) with false by (symmetry; by apply Z.eqb_neq).
      t_step. by apply so_failed.
Qed.

Lemma so_setup_spec pin d h : has_flag (flags d) PKCS11_CKFT_TOKEN_INITIALIZED = false →
  pwp (so_setup pin) (d, h) (λ rc s', so_result pin d s'.1 rc).
Proof.
  intros I. unfold so_setup. destruct (auth_tee_identity && bool_decide (pin = None)) eqn:M.
  - apply andb_true_iff in M as [_ ->%bool_decide_eq_true]. unfold setup_so_identity_auth_from_client. t_step.
    eapply pwp_call; [apply client_identity_returns|]. intros [res id] h' _.
    destruct (negb (res =? 0)); [by t_step; apply so_failed|]. repeat t_step. cbn [fst].
    apply so_created; [done|done| |done]. intros v Kv. cbn [so_pin_count so_pin_hash set_flags with_flags set_pin_fields].
    assert (pin_ok v (set_flags PKCS11_CKFT_PROTECTED_AUTHENTICATION_PATH d)) as [A B C D] by (apply ok_set; by destruct v).
    by destruct v; constructor.
  - cbv zeta. destruct (_ || _); [by t_step; apply so_failed|]. unfold hash_pin. do 2 t_step.
    eapply pwp_call; [apply random_u32_returns|]. intros s0 h1 _. cbv zeta. t_step.
    set (s := if s0 =? 0 then 1 else s0). apply do_hash_spec.
    + intros h2. t_step. change (PKCS11_CKR_OK =? 0) with true. repeat t_step. cbn [fst].
      apply so_created; [done|done| |].
      * intros v []. by destruct v; constructor.
      * intros p ->. by unfold right_pin.
    + intros rc h2 (N & N2 & _). t_step. replace (rc =? 0) with false by (symmetry; by apply Z.eqb_neq). t_step.
      by apply so_failed.
Qed.

Lemma inited_spec label d d' : d' = inited label d →
  pin_ok SO d' ∧ pin_count SO d' = 0 ∧ (∀ p, right_pin SO p d' ↔ right_pin SO p d) ∧ d'.(Pkcs11Pin.label) = label ∧
  has_flag (flags d') PKCS11_CKFT_TOKEN_INITIALIZED = true ∧
  has_flag (flags d') PKCS11_CKFT_USER_PIN_INITIALIZED = false ∧ pin_salt USER d' = 0.
Proof.
  intros ->. unfold inited. cbv zeta. split_and!; [|done|done|done| | |done].
  - apply ok_clear; [done|]. apply (ok_fields USER), ok_set; [done|].
    assert (∀ d0, pin_ok SO d0 → pin_ok SO (with_label label d0)) as L by (by intros d0 []).
    apply L. destruct (ok_reset SO (so_pin_salt d) (so_pin_hash d) 0 d). by constructor.
  - rewrite flags_clear, (has_clear _ _ _ _ (init_at SO)), flags_fields, flags_set, (has_set _ _ _ _ (init_at SO)).
    by rewrite orb_true_r.
  - rewrite flags_clear, (has_clear _ _ _ _ (init_at USER)). apply andb_false_r.
Qed.

(** The token that [inited] leaves. *)
Record made_anew (label : list Z) (d' : token_persistent_main) : Prop := {
  ma_so : pin_ok SO d';
  ma_count : pin_count SO d' = 0;
  ma_label : d'.(Pkcs11Pin.label) = label;
  ma_init : has_flag (flags d') PKCS11_CKFT_TOKEN_INITIALIZED = true;
  ma_user : has_flag (flags d') PKCS11_CKFT_USER_PIN_INITIALIZED = false;
  ma_salt : pin_salt USER d' = 0;
}.

(** What initializing a token may do. *)
Inductive initialization (session_open : bool) (pin : option (list Z)) (label : list Z) (d d' : token_persistent_main) : Z → Prop :=
  | init_locked : pin_count SO d = COUNT_LIMIT → d' = d → initialization session_open pin label d d' PKCS11_CKR_PIN_LOCKED
  | init_session : pin_count SO d < COUNT_LIMIT → session_open = true → d' = d →
      initialization session_open pin label d d' PKCS11_CKR_SESSION_EXISTS
  | init_again : pin_count SO d < COUNT_LIMIT → session_open = false →
      has_flag (flags d) PKCS11_CKFT_TOKEN_INITIALIZED = true →
      (use_identity d = false → right_pin SO (default [] pin) d) →
      (∀ p, right_pin SO p d' ↔ right_pin SO p d) → made_anew label d' →
      initialization session_open pin label d d' PKCS11_CKR_OK
  | init_first : session_open = false → has_flag (flags d) PKCS11_CKFT_TOKEN_INITIALIZED = false →
      (∀ p, pin = Some p → right_pin SO p d') → made_anew label d' →
      initialization session_open pin label d d' PKCS11_CKR_OK
  | init_wrong : pin_count SO d < COUNT_LIMIT → session_open = false →
      has_flag (flags d) PKCS11_CKFT_TOKEN_INITIALIZED = true → use_identity d = false →
      ¬ right_pin SO (default [] pin) d → pin_count SO d' = pin_count SO d + 1 → frame SO d d' →
      initialization session_open pin label d d' PKCS11_CKR_PIN_INCORRECT
  | init_failed rc : rc ≠ PKCS11_CKR_OK → (rc = PKCS11_CKR_PIN_INCORRECT → use_identity d = true) → d' = d →
      initialization session_open pin label d d' rc.

Lemma made_anew_ok label d : made_anew label d → pins_ok d.
Proof. intros [K _ _ _ U _]. constructor; [done|]. by rewrite U. Qed.

Lemma token_initialize_spec token session_open pin label d h : pins_ok d →
  pwp (token_initialize token session_open pin label) (d, h) (λ rc s',
    pins_ok s'.1 ∧ initialization session_open pin label d s'.1 rc).
Proof.
  intros K. pose proof (ps_so _ K) as KS. unfold token_initialize. do 2 t_step.
  change PKCS11_CKFT_SO_PIN_LOCKED with (LOCKED SO). rewrite (po_locked SO d KS). destruct (Z.eqb_spec (pin_count SO d) COUNT_LIMIT) as [E|N].
  { t_step. split; [done|by apply init_locked]. }
  assert (pin_count SO d < COUNT_LIMIT) as Lt by (pose proof (po_count _ _ KS); lia).
  destruct session_open; [t_step; split; [done|by apply init_session]|]. t_step.
  apply (pwp_mono _ _ (λ rc s', so_result pin d s'.1 rc)).
  { case_match; [by apply so_authenticate_spec|by apply so_setup_spec]. }
  intros rc [d1 h1] R. cbn [fst] in R. destruct (Z.eqb_spec rc 0) as [->|Nz]; cbn [negb].
  - do 3 t_step. apply update_persistent_db_spec. intros h2. t_step. cbn [fst].
    destruct (inited_spec label d1 _ eq_refl) as (I1 & I2 & I3 & I4 & I5 & I6 & I7).
    assert (made_anew label (inited label d1)) as A by by constructor.
    split; [by eapply made_anew_ok|]. inversion R; subst; try done.
    + by apply init_again.
    + apply init_first; [done|done| |done]. intros p ->. apply I3. auto.
  - t_step. cbn [fst]. inversion R; subst; try done.
    + split; [by eapply frame_pins_ok|by apply init_wrong].
    + split; [done|by apply init_failed].
Qed.

(** C23: Initializing a token from any consistent state: a locked PIN and an
    open session refuse it; a token that is initialized already is made anew only
    for the SO, whose PIN stays, and a wrong PIN counts as one more failed try; a
    fresh token takes the PIN that is given, of which the check will then accept
    exactly those with its digest. A token that was made anew has the label, a
    zero counter, no flag of a failed try and no user PIN; every other result
    leaves the token alone. *)
Theorem token_initialize_correct token session_open pin label d h : pins_ok d →
  pwp (token_initialize token session_open pin label) (d, h) (λ rc s',
    initialization session_open pin label d s'.1 rc).
Proof. intros K. eapply pwp_mono; [by apply token_initialize_spec|]. by intros rc s' [_ I]. Qed.

Lemma token_initialize_kept token session_open pin label d h : pins_ok d →
  pwp (token_initialize token session_open pin label) (d, h) (λ _ s', pins_ok s'.1).
Proof. intros K. eapply pwp_mono; [by apply token_initialize_spec|]. by intros rc s' [I _]. Qed.

(** C10: The state of the PINs is an invariant of every sequence of requests that
    initialize the token, set a PIN or log in, by any session and in both modes of
    authentication, whatever they return: the counter of the SO, and that of the
    user once there is a user PIN, is between 0 and 7, the PIN is flagged as
    locked exactly at 7, as having its final try exactly from 6 on, and as having
    a low count exactly above 0. *)
Theorem pin_state_kept token cs d h : pins_ok d →
  pwp (run_calls token cs) (d, h) (λ _ s', pins_ok s'.1).
Proof.
  revert d h. induction cs as [|c cs IH]; intros d h K; cbn [run_calls]; [by t_step|]. t_step.
  apply (pwp_mono _ _ (λ _ s', pins_ok s'.1)).
  { destruct c; [by apply token_initialize_kept|by apply init_pin_kept|by apply change_pin_kept|by apply check_of_kept]. }
  intros rc [d1 h1] K1. t_step. eapply pwp_mono; [by apply IH|]. intros rcs s' K2. by t_step.
Qed.

(** ** Round trip *)

(** A new PIN, and if it was accepted a check. *)
Definition set_then_check (token : nat) (u : pin_user) (new_pin pin : list Z) : PinM (option Z) :=
  rc ← set_pin token true (Some new_pin) u;
  if rc =? PKCS11_CKR_OK then rc ← check_of u token pin; mret (Some rc) else mret None.

(** The digests of two PINs differ for every salt that is used. *)
Definition apart (u : pin_user) (p q : list Z) : Prop := ∀ salt, salt ≠ 0 → pin_digest (cku u) p salt ≠ pin_digest (cku u) q salt.

Lemma new_pin_ready u pin salt d : salt ≠ 0 → use_identity d = false →
  (u = SO → has_flag (flags d) PKCS11_CKFT_TOKEN_INITIALIZED = true) →
  ready u (new_pin_data u pin salt 0 d).
Proof.
  intros N M I. unfold new_pin_data, renewed. constructor.
  - rewrite <-M. unfold use_identity. f_equal. rewrite flags_set, flags_clear, flags_fields.
    rewrite (has_set _ _ _ _ mode_at), (has_clear _ _ _ _ mode_at). by destruct u; rewrite orb_false_r, andb_true_r.
  - rewrite flags_set, flags_clear, flags_fields, (has_set _ _ _ _ (init_at u)), (has_clear _ _ _ _ (init_at u)).
    destruct u; [by rewrite I|apply orb_true_r].
  - intros ->. by autorewrite with pin.
Qed.

Lemma new_pin_right u new pin salt fc d :
  right_pin u pin (new_pin_data u new salt fc d) ↔ pin_digest (cku u) pin salt = pin_digest (cku u) new salt.
Proof. unfold right_pin, new_pin_data, renewed. by autorewrite with pin. Qed.

(** C22: The PIN that was set is the one that is accepted, whatever the state of
    the counter was before: after a successful change the new PIN has a length
    of 4 to 128 bytes; if it is then checked it is neither incorrect nor locked
    (it is accepted, or the hash cannot be computed); and a PIN whose digest
    differs from that of the new one is not accepted. *)
Theorem set_pin_roundtrip token u new_pin pin d h :
  use_identity d = false → (u = SO → has_flag (flags d) PKCS11_CKFT_TOKEN_INITIALIZED = true) →
  pwp (set_then_check token u new_pin pin) (d, h) (λ r s', ∀ rc, r = Some rc →
    PKCS11_TOKEN_PIN_SIZE_MIN ≤ Z.of_nat (length new_pin) ≤ PKCS11_TOKEN_PIN_SIZE_MAX ∧
    (pin = new_pin → rc = PKCS11_CKR_OK ∨ other_error rc) ∧
    (apart u pin new_pin → rc ≠ PKCS11_CKR_OK) ∧
    rc ≠ PKCS11_CKR_PIN_LOCKED).
Proof.
  intros M I. unfold set_then_check. t_step. apply (pwp_mono _ _ (λ rc s',
    rc = PKCS11_CKR_OK → PKCS11_TOKEN_PIN_SIZE_MIN ≤ Z.of_nat (length new_pin) ≤ PKCS11_TOKEN_PIN_SIZE_MAX ∧
     ∃ salt, salt ≠ 0 ∧ s'.1 = new_pin_data u new_pin salt 0 d)).
  { unfold set_pin. do 2 t_step. case_match; [by t_step|]. cbv zeta. cbn [negb default]. rewrite M.
    replace (bool_decide (Some new_pin = None)) with false by done. rewrite andb_false_r.
    eapply pwp_mono; [apply set_new_hash_spec|]. intros rc s' [(E & L & X)|[E _]] E'; [by split|by destruct E]. }
  intros rc [d1 h1] P. destruct (Z.eqb_spec rc PKCS11_CKR_OK) as [->|N]; [|by t_step].
  destruct P as (L & salt & Ns & E); [done|]. cbn [fst] in E. subst d1. t_step.
  eapply pwp_mono; [apply check_of_spec; [by apply new_pin_ready|by apply ok_set, ok_reset; destruct u]|].
  intros rc [d2 h2] (_ & _ & Ch). cbn [fst] in Ch. t_step. intros rc' [= <-]. split; [done|].
  assert (pin_count u (new_pin_data u new_pin salt 0 d) = 0) as C0
    by (unfold new_pin_data, renewed; by autorewrite with pin).
  destruct Ch as [E _|_ R _|_ W E|rc _ O _]; rewrite ?C0 in *; [done|..].
  - apply new_pin_right in R. split_and!; [by left| |done]. intros A. by destruct (A salt Ns).
  - rewrite E. change (0 + 1 =? COUNT_LIMIT) with false. split_and!; [|done|done].
    intros ->. destruct W. by apply new_pin_right.
  - destruct O as (O1 & O2 & O3). split_and!; [by right|done|done].
Qed.

End Spec.
