(* ===== verification/Pkcs11Session.v ===== *)
(** Clients, sessions and objects of the PKCS#11 TA: ta/pkcs11/src/pkcs11_token.c
    (clients, sessions, login and logout), object.c (creating, finding and
    destroying objects) and what they call of persistent_token.c, pkcs11_token.h
    and pkcs11_attributes.c.

    Structures are kept by address, in one map for each type; an address that is
    not in its map is not allocated, or no longer, and to access it is undefined.
    The object that is being created is in no list, where the code has it in a
    temporary one. *)
From S2P Require Import Prelude State Bytes HandleDb Pkcs11Handle Pkcs11Attr Pkcs11Pin.

(** ** Constants *)

Definition PKCS11_CKR_SLOT_ID_INVALID : Z := 3.
Definition PKCS11_CKR_ACTION_PROHIBITED : Z := 27.
Definition PKCS11_CKR_KEY_FUNCTION_NOT_PERMITTED : Z := 104.
Definition PKCS11_CKR_OBJECT_HANDLE_INVALID : Z := 130.
Definition PKCS11_CKR_OPERATION_ACTIVE : Z := 144.
Definition PKCS11_CKR_OPERATION_NOT_INITIALIZED : Z := 145.
Definition PKCS11_CKR_SESSION_HANDLE_INVALID : Z := 179.
Definition PKCS11_CKR_SESSION_PARALLEL_NOT_SUPPORTED : Z := 180.
Definition PKCS11_CKR_SESSION_READ_ONLY_EXISTS : Z := 183.
Definition PKCS11_CKR_SESSION_READ_WRITE_SO_EXISTS : Z := 184.
Definition PKCS11_CKR_USER_ALREADY_LOGGED_IN : Z := 256.
Definition PKCS11_CKR_USER_TYPE_INVALID : Z := 259.
Definition PKCS11_CKR_USER_ANOTHER_ALREADY_LOGGED_IN : Z := 260.

Definition PKCS11_CKFSS_RW_SESSION : Z := 2 ^ 1.
Definition PKCS11_CKFSS_SERIAL_SESSION : Z := 2 ^ 2.

Definition PKCS11_CKS_RO_PUBLIC_SESSION : Z := 0.
Definition PKCS11_CKS_RO_USER_FUNCTIONS : Z := 1.
Definition PKCS11_CKS_RW_PUBLIC_SESSION : Z := 2.
Definition PKCS11_CKS_RW_USER_FUNCTIONS : Z := 3.
Definition PKCS11_CKS_RW_SO_FUNCTIONS : Z := 4.

Definition PKCS11_TOKEN_READ_ONLY : Z := 2.

Definition PKCS11_CKU_CONTEXT_SPECIFIC : Z := 2.

Definition PKCS11_CKO_DATA : Z := 0.
Definition PKCS11_CKO_CERTIFICATE : Z := 1.
Definition PKCS11_CKO_PUBLIC_KEY : Z := 2.
Definition PKCS11_CKO_PRIVATE_KEY : Z := 3.
Definition PKCS11_CKO_SECRET_KEY : Z := 4.

(** ** Data *)

(** The operation handles and the key handle of an object are left out: they
    are the crypto operations' and are freed with the structures. *)
Record active_processing := mk_processing { p_state : Z; p_always_authen : bool }.

Record pkcs11_find_objects := mk_find { f_handles : list Z; f_next : nat }.

Record pkcs11_session := mk_session {
  s_client : Z;
  s_token : nat;
  s_handle : Z;
  s_object_list : list Z;
  s_state : Z;
  s_processing : option active_processing;
  s_find_ctx : option pkcs11_find_objects;
}.

Record pkcs11_client := mk_client {
  session_list : list Z;
  session_handle_db : handle_db;
  object_handle_db : handle_db;
}.

(** [None] is NULL: attributes that are not loaded, an object of a session. *)
Record pkcs11_object := mk_object {
  o_attributes : option (list Z);
  o_token : option nat;
  o_uuid : option (list Z);
}.

Record ck_token := mk_token {
  t_state : Z;
  t_session_count : Z;
  t_rw_session_count : Z;
  t_object_list : list Z;
  t_db_main : token_persistent_main;
  t_db_objs : list (list Z);
}.

(** What the TA calls: [TEE_Malloc] of a structure, the rest of the database
    file, the files of persistent objects, a random UUID. *)
Class ObjectApi `{TaHeap} := {
  alloc_struct : St ta_heap bool;
  seek_db_objs : nat → St ta_heap Z;
  truncate_db_objs : nat → nat → St ta_heap Z;
  write_db_objs : nat → list (list Z) → St ta_heap Z;
  create_persistent : list Z → list Z → St ta_heap Z;
  open_persistent_meta : option (list Z) → St ta_heap Z;
  close_and_delete : St ta_heap unit;
  read_persistent : option (list Z) → St ta_heap (Z + list Z);
  random_uuid : St ta_heap (list Z);
}.

Record ta `{TaHeap} := mk_ta {
  ta_tokens : list ck_token;
  ta_client_list : list Z;
  ta_clients : gmap Z pkcs11_client;
  ta_sessions : gmap Z pkcs11_session;
  ta_objects : gmap Z pkcs11_object;
  ta_next : Z;
  ta_h : ta_heap;
}.

(** ** Changes of fields *)

Definition with_client_list (l : list Z) (c : pkcs11_client) : pkcs11_client :=
  mk_client l (session_handle_db c) (object_handle_db c).
Definition with_session_db (db : handle_db) (c : pkcs11_client) : pkcs11_client :=
  mk_client (session_list c) db (object_handle_db c).
Definition with_object_db (db : handle_db) (c : pkcs11_client) : pkcs11_client :=
  mk_client (session_list c) (session_handle_db c) db.

Definition with_objects (f : list Z → list Z) (x : pkcs11_session) : pkcs11_session :=
  mk_session (s_client x) (s_token x) (s_handle x) (f (s_object_list x)) (s_state x) (s_processing x) (s_find_ctx x).
Definition with_state (st : Z) (x : pkcs11_session) : pkcs11_session :=
  mk_session (s_client x) (s_token x) (s_handle x) (s_object_list x) st (s_processing x) (s_find_ctx x).
Definition with_processing (p : option active_processing) (x : pkcs11_session) : pkcs11_session :=
  mk_session (s_client x) (s_token x) (s_handle x) (s_object_list x) (s_state x) p (s_find_ctx x).
Definition with_find_ctx (c : option pkcs11_find_objects) (x : pkcs11_session) : pkcs11_session :=
  mk_session (s_client x) (s_token x) (s_handle x) (s_object_list x) (s_state x) (s_processing x) c.

Definition with_attributes (b : option (list Z)) (o : pkcs11_object) : pkcs11_object := mk_object b (o_token o) (o_uuid o).
Definition with_uuid (token : option nat) (u : option (list Z)) (o : pkcs11_object) : pkcs11_object :=
  mk_object (o_attributes o) token u.

Definition with_counts (f g : Z → Z) (t : ck_token) : ck_token :=
  mk_token (t_state t) (f (t_session_count t)) (g (t_rw_session_count t)) (t_object_list t) (t_db_main t) (t_db_objs t).
Definition with_token_objects (f : list Z → list Z) (t : ck_token) : ck_token :=
  mk_token (t_state t) (t_session_count t) (t_rw_session_count t) (f (t_object_list t)) (t_db_main t) (t_db_objs t).
Definition with_db_main (d : token_persistent_main) (t : ck_token) : ck_token :=
  mk_token (t_state t) (t_session_count t) (t_rw_session_count t) (t_object_list t) d (t_db_objs t).
Definition with_db_objs (l : list (list Z)) (t : ck_token) : ck_token :=
  mk_token (t_state t) (t_session_count t) (t_rw_session_count t) (t_object_list t) (t_db_main t) l.

Section State.
Context `{TaHeap}.

Definition set_tokens (l : list ck_token) (s : ta) : ta :=
  mk_ta _ l (ta_client_list s) (ta_clients s) (ta_sessions s) (ta_objects s) (ta_next s) (ta_h s).
Definition set_client_list (l : list Z) (s : ta) : ta :=
  mk_ta _ (ta_tokens s) l (ta_clients s) (ta_sessions s) (ta_objects s) (ta_next s) (ta_h s).
Definition set_clients (m : gmap Z pkcs11_client) (s : ta) : ta :=
  mk_ta _ (ta_tokens s) (ta_client_list s) m (ta_sessions s) (ta_objects s) (ta_next s) (ta_h s).
Definition set_sessions (m : gmap Z pkcs11_session) (s : ta) : ta :=
  mk_ta _ (ta_tokens s) (ta_client_list s) (ta_clients s) m (ta_objects s) (ta_next s) (ta_h s).
Definition set_objects (m : gmap Z pkcs11_object) (s : ta) : ta :=
  mk_ta _ (ta_tokens s) (ta_client_list s) (ta_clients s) (ta_sessions s) m (ta_next s) (ta_h s).
Definition set_next (n : Z) (s : ta) : ta :=
  mk_ta _ (ta_tokens s) (ta_client_list s) (ta_clients s) (ta_sessions s) (ta_objects s) n (ta_h s).
Definition set_h (h : ta_heap) (s : ta) : ta :=
  mk_ta _ (ta_tokens s) (ta_client_list s) (ta_clients s) (ta_sessions s) (ta_objects s) (ta_next s) h.

Definition SM : Type → Type := St ta.

Definition on_heap {A} (m : St ta_heap A) : SM A := zoom ta_h set_h m.

(** Reading and changing a structure that is allocated. *)
Definition deref {A} (o : ta → option A) : SM A := λ s,
  match o s with Some a => Some (Done (a, s)) | None => Some Undef end.

Definition client_at (a : Z) : SM pkcs11_client := deref (λ s, ta_clients s !! a).
Definition session_at (a : Z) : SM pkcs11_session := deref (λ s, ta_sessions s !! a).
Definition object_at (a : Z) : SM pkcs11_object := deref (λ s, ta_objects s !! a).
Definition token_at (t : nat) : SM ck_token := deref (λ s, ta_tokens s !! t).

Definition change_client (a : Z) (f : pkcs11_client → pkcs11_client) : SM unit :=
  c ← client_at a; modify (λ s, set_clients (<[a:=f c]> (ta_clients s)) s).
Definition change_session (a : Z) (f : pkcs11_session → pkcs11_session) : SM unit :=
  x ← session_at a; modify (λ s, set_sessions (<[a:=f x]> (ta_sessions s)) s).
Definition change_object (a : Z) (f : pkcs11_object → pkcs11_object) : SM unit :=
  o ← object_at a; modify (λ s, set_objects (<[a:=f o]> (ta_objects s)) s).
Definition change_token (t : nat) (f : ck_token → ck_token) : SM unit :=
  k ← token_at t; modify (λ s, set_tokens (<[t:=f k]> (ta_tokens s)) s).

(** The code of [Pkcs11Pin] on one token. *)
Definition on_db {A} (t : nat) (m : PinM A) : SM A :=
  k ← token_at t;
  zoom (λ s, (t_db_main k, ta_h s))
    (λ p s, set_h p.2 (set_tokens (<[t:=with_db_main p.1 k]> (ta_tokens s)) s)) m.

(** The addresses that are left. *)
Definition ADDRESS_END : Z := 2 ^ 63.

(** Loops over a list. *)
Fixpoint foreach {A} (l : list A) (f : A → SM unit) : SM unit :=
  match l with [] => mret tt | x :: l => _ ← f x; foreach l f end.

(** The first element for which the test holds. *)
Fixpoint find_first {A} (l : list A) (f : A → SM bool) : SM (option A) :=
  match l with
  | [] => mret None
  | x :: l => b ← f x; if b : bool then mret (Some x) else find_first l f
  end.

End State.

(** ** pkcs11_token.h: the state of a session *)

Definition pkcs11_session_is_read_write (x : pkcs11_session) : bool :=
  (s_state x =? PKCS11_CKS_RW_PUBLIC_SESSION) || (s_state x =? PKCS11_CKS_RW_USER_FUNCTIONS) ||
  (s_state x =? PKCS11_CKS_RW_SO_FUNCTIONS).

Definition pkcs11_session_is_public (x : pkcs11_session) : bool :=
  (s_state x =? PKCS11_CKS_RO_PUBLIC_SESSION) || (s_state x =? PKCS11_CKS_RW_PUBLIC_SESSION).

Definition pkcs11_session_is_user (x : pkcs11_session) : bool :=
  (s_state x =? PKCS11_CKS_RO_USER_FUNCTIONS) || (s_state x =? PKCS11_CKS_RW_USER_FUNCTIONS).

Definition pkcs11_session_is_so (x : pkcs11_session) : bool := s_state x =? PKCS11_CKS_RW_SO_FUNCTIONS.

Definition session_is_active (x : pkcs11_session) : bool := bool_decide (s_processing x ≠ None).

(** A random UUID that is not in use. *)
Fixpoint draw_uuid `{TaHeap} `{!ObjectApi} (fuel : nat) (used : list (list Z)) : St ta_heap (list Z) :=
  match fuel with
  | O => out_of_fuel
  | S fuel =>
      u ← random_uuid;
      if bool_decide (u ∈ used) then draw_uuid fuel used else mret u
  end.

Section Code.
Context `{TokenApi} `{!ObjectApi}.

(** [TEE_Malloc] of a structure: an address that was never used. *)
Definition new_address : SM (option Z) :=
  ok ← on_heap alloc_struct;
  n ← gets ta_next;
  if ok && (n <? ADDRESS_END) then _ ← modify (set_next (n + 1)); mret (Some n) else mret None.

(** [TEE_Free] of a structure. *)
Definition free_object (a : Z) : SM unit := modify (λ s, set_objects (delete a (ta_objects s)) s).
Definition free_session (a : Z) : SM unit := modify (λ s, set_sessions (delete a (ta_sessions s)) s).
Definition free_client (a : Z) : SM unit := modify (λ s, set_clients (delete a (ta_clients s)) s).

(** [LIST_REMOVE], from whatever list the object is in. *)
Definition without (a : Z) (l : list Z) : list Z := filter (λ x, x ≠ a) l.

Definition list_remove (a : Z) : SM unit := modify (λ s,
  set_tokens (with_token_objects (without a) <$> ta_tokens s)
    (set_sessions (with_objects (without a) <$> ta_sessions s) s)).

(** ** Attributes of objects *)

(** Attributes that are not loaded are a NULL pointer. *)
Definition attributes_of (o : pkcs11_object) : SM (list Z) :=
  match o_attributes o with Some b => mret b | None => undef end.

Definition object_bool (o : pkcs11_object) (id : Z) : SM bool :=
  b ← attributes_of o; on_heap (get_bool b id).

Definition object_is_private (b : list Z) : SM bool := on_heap (get_bool b PKCS11_CKA_PRIVATE).

Definition check_access_attrs_against_token (session : Z) (head : list Z) : SM Z :=
  class ← on_heap (get_class head);
  if negb ((class =? PKCS11_CKO_SECRET_KEY) || (class =? PKCS11_CKO_PRIVATE_KEY) || (class =? PKCS11_CKO_PUBLIC_KEY) ||
           (class =? PKCS11_CKO_DATA) || (class =? PKCS11_CKO_CERTIFICATE))
  then mret PKCS11_CKR_KEY_FUNCTION_NOT_PERMITTED else
  private ← object_is_private head;
  x ← session_at session;
  mret (if private && (pkcs11_session_is_public x || pkcs11_session_is_so x)
        then PKCS11_CKR_USER_NOT_LOGGED_IN else PKCS11_CKR_OK).

(** ** Handles *)

Definition pkcs11_handle2session (handle client : Z) : SM Z :=
  c ← client_at client; mret (handle_lookup (session_handle_db c) handle).

(** The client's database of the handles of objects. *)
Definition object_db (session : Z) : SM handle_db :=
  x ← session_at session; c ← client_at (s_client x); mret (object_handle_db c).

Definition set_object_db (session : Z) (db : handle_db) : SM unit :=
  x ← session_at session; change_client (s_client x) (with_object_db db).

Definition pkcs11_handle2object (handle session : Z) : SM Z :=
  db ← object_db session;
  let object := handle_lookup db handle in
  if object =? 0 then mret 0 else
  o ← object_at object;
  match o_token o with
  | None => mret object
  | Some t => x ← session_at session; mret (if bool_decide (t = s_token x) then object else 0)
  end.

Definition pkcs11_object2handle (obj session : Z) : SM Z :=
  db ← object_db session; mret (handle_lookup_handle db obj).

Definition put_object_handle (session handle : Z) : SM unit :=
  db ← object_db session; set_object_db session (handle_put handle db).2.

(** Room for one more handle: the array grows when it has no empty slot. *)
Definition handle_room (db : handle_db) : SM bool :=
  match find_empty (drop 1 (ptrs db)) 1 with
  | Some _ => mret true
  | None =>
      on_heap (ta_alloc (8 * (if max_ptrs db =? 0 then HANDLE_DB_INITIAL_MAX_PTRS else u32 (max_ptrs db * 2))))
  end.

(** [handle_get]; 0 is a failure. *)
Definition get_object_handle (session obj : Z) : SM Z :=
  db ← object_db session;
  ok ← handle_room db;
  let '(h, db) := handle_get ok obj db in
  _ ← set_object_db session db; mret h.

Definition token_invalidate_object_handles (obj : Z) : SM unit :=
  l ← gets ta_client_list;
  foreach l (λ client,
    c ← client_at client;
    let handle := handle_lookup_handle (object_handle_db c) obj in
    if handle =? 0 then mret tt else
    db ← run (handle_invalidate handle (object_handle_db c));
    change_client client (with_object_db db)).

(** ** persistent_token.c: the list of the persistent objects of a token *)

Definition get_persistent_obj_idx (k : ck_token) (uuid : option (list Z)) : option nat :=
  match uuid with None => None | Some u => fst <$> list_find (eq u) (t_db_objs k) end.

Definition create_object_uuid (token : nat) (obj : Z) : SM Z :=
  o ← object_at obj;
  _ ← st_assert (bool_decide (o_uuid o = None));
  ok ← on_heap (ta_alloc 16);
  if negb ok then mret PKCS11_CKR_DEVICE_MEMORY else
  k ← token_at token;
  u ← on_heap (draw_uuid (S (length (t_db_objs k))) (t_db_objs k));
  _ ← change_object obj (with_uuid (Some token) (Some u));
  mret PKCS11_CKR_OK.

Definition destroy_object_uuid (token : nat) (obj : Z) : SM unit :=
  o ← object_at obj;
  k ← token_at token;
  _ ← st_assert (bool_decide (get_persistent_obj_idx k (o_uuid o) = None));
  change_object obj (with_uuid (o_token o) None).

(** The sizes of the buffer are those of the list that is written. *)
Definition unregister_persistent_object (token : nat) (uuid : option (list Z)) : SM Z :=
  match uuid with
  | None => mret PKCS11_CKR_OK
  | Some _ =>
      k ← token_at token;
      match get_persistent_obj_idx k uuid with
      | None => mret PKCS11_RV_NOT_FOUND
      | Some idx =>
          ok ← on_heap (ta_alloc (4 + (Z.of_nat (length (t_db_objs k)) - 1) * 16));
          if negb ok then mret PKCS11_CKR_DEVICE_MEMORY else
          res ← on_heap (open_db_file token);
          if negb (res =? 0) then mret (tee2pkcs_error res) else
          res ← on_heap (seek_db_objs token);
          if negb (res =? 0) then mret (tee2pkcs_error res) else
          let ptr := take idx (t_db_objs k) ++ drop (S idx) (t_db_objs k) in
          res ← on_heap (write_db_objs token ptr);
          _ ← change_token token (with_db_objs ptr);
          mret (tee2pkcs_error res)
      end
  end.

Definition register_persistent_object (token : nat) (uuid : list Z) : SM Z :=
  k ← token_at token;
  if bool_decide (uuid ∈ t_db_objs k) then panic else
  let count := length (t_db_objs k) in
  ok ← on_heap (ta_alloc (4 + (Z.of_nat count + 1) * 16));
  if negb ok then mret PKCS11_CKR_DEVICE_MEMORY else
  res ← on_heap (open_db_file token);
  if negb (res =? 0) then mret (tee2pkcs_error res) else
  res ← on_heap (truncate_db_objs token (S count));
  if negb (res =? 0) then mret (tee2pkcs_error res) else
  res ← on_heap (seek_db_objs token);
  if negb (res =? 0) then mret (tee2pkcs_error res) else
  res ← on_heap (write_db_objs token (t_db_objs k ++ [uuid]));
  if negb (res =? 0) then mret (tee2pkcs_error res) else
  _ ← change_token token (with_db_objs (t_db_objs k ++ [uuid]));
  mret PKCS11_CKR_OK.

Definition load_persistent_object_attributes (obj : Z) : SM Z :=
  o ← object_at obj;
  match o_attributes o with
  | Some _ => mret PKCS11_CKR_OK
  | None =>
      r ← on_heap (read_persistent (o_uuid o));
      match r with
      | inl rc => mret rc
      | inr b => _ ← change_object obj (with_attributes (Some b)); mret PKCS11_CKR_OK
      end
  end.

Definition release_persistent_object_attributes (obj : Z) : SM unit := change_object obj (with_attributes None).

(** ** object.c: destroying and creating *)

Definition cleanup_volatile_obj_ref (obj : Z) : SM unit :=
  _ ← object_at obj;
  _ ← list_remove obj;
  free_object obj.

Definition cleanup_persistent_object (obj : Z) (token : nat) : SM unit :=
  o ← object_at obj;
  res ← on_heap (open_persistent_meta (o_uuid o));
  _ ← (if res =? 0 then on_heap close_and_delete else mret tt);
  _ ← destroy_object_uuid token obj;
  cleanup_volatile_obj_ref obj.

Definition try_unregister (token : nat) (uuid : option (list Z)) : SM unit :=
  rc ← unregister_persistent_object token uuid;
  if rc =? 0 then mret tt else
  rc ← unregister_persistent_object token uuid;
  if rc =? 0 then mret tt else panic.

Definition destroy_object (session obj : Z) (session_only : bool) : SM unit :=
  if session_only then
    h ← pkcs11_object2handle obj session;
    _ ← put_object_handle session h;
    cleanup_volatile_obj_ref obj
  else
    o ← object_at obj;
    token ← object_bool o PKCS11_CKA_TOKEN;
    if token : bool then
      _ ← st_assert (bool_decide (o_uuid o ≠ None));
      x ← session_at session;
      _ ← try_unregister (s_token x) (o_uuid o);
      h ← pkcs11_object2handle obj session;
      _ ← put_object_handle session h;
      _ ← cleanup_persistent_object obj (s_token x);
      token_invalidate_object_handles obj
    else
      h ← pkcs11_object2handle obj session;
      _ ← put_object_handle session h;
      cleanup_volatile_obj_ref obj.

(** The error path of [create_object]. *)
Definition create_object_err (session obj : Z) (head : list Z) (obj_handle rc : Z) : SM (Z * Z) :=
  _ ← change_object obj (with_attributes None);
  _ ← put_object_handle session obj_handle;
  token ← on_heap (get_bool head PKCS11_CKA_TOKEN);
  x ← session_at session;
  _ ← (if token : bool then cleanup_persistent_object obj (s_token x) else cleanup_volatile_obj_ref obj);
  mret (rc, 0).

(** The result and the handle. *)
Definition create_object (session : Z) (head : list Z) : SM (Z * Z) :=
  a ← new_address;
  match a with
  | None => mret (PKCS11_CKR_DEVICE_MEMORY, 0)
  | Some obj =>
      _ ← modify (λ s, set_objects (<[obj:=mk_object (Some head) None None]> (ta_objects s)) s);
      obj_handle ← get_object_handle session obj;
      if obj_handle =? 0 then create_object_err session obj head obj_handle PKCS11_CKR_DEVICE_MEMORY else
      token ← on_heap (get_bool head PKCS11_CKA_TOKEN);
      x ← session_at session;
      if token : bool then
        rc ← create_object_uuid (s_token x) obj;
        if negb (rc =? 0) then create_object_err session obj head obj_handle rc else
        o ← object_at obj;
        let uuid := default [] (o_uuid o) in
        res ← on_heap (create_persistent uuid head);
        if negb (res =? 0) then create_object_err session obj head obj_handle (tee2pkcs_error res) else
        rc ← register_persistent_object (s_token x) uuid;
        if negb (rc =? 0) then create_object_err session obj head obj_handle rc else
        _ ← change_token (s_token x) (with_token_objects (cons obj));
        mret (PKCS11_CKR_OK, obj_handle)
      else
        _ ← change_session session (with_objects (cons obj));
        mret (PKCS11_CKR_OK, obj_handle)
  end.

(** [a && b], where [b] is only looked at when [a] holds. *)
Definition both (a b : SM bool) : SM bool := x ← a; if x : bool then b else mret false.

Definition check_attrs_misc_integrity (head : list Z) : SM Z :=
  bad ← both (on_heap (get_bool head PKCS11_CKA_NEVER_EXTRACTABLE)) (on_heap (get_bool head PKCS11_CKA_EXTRACTABLE));
  if bad : bool then mret PKCS11_CKR_TEMPLATE_INCONSISTENT else
  bad ← both (on_heap (get_bool head PKCS11_CKA_ALWAYS_SENSITIVE))
             (s ← on_heap (get_bool head PKCS11_CKA_SENSITIVE); mret (negb s));
  mret (if bad : bool then PKCS11_CKR_TEMPLATE_INCONSISTENT else PKCS11_CKR_OK).

Definition check_created_attrs_against_token (session : Z) (head : list Z) : SM Z :=
  rc ← check_attrs_misc_integrity head;
  if negb (rc =? 0) then mret rc else
  bad ← both (on_heap (get_bool head PKCS11_CKA_TRUSTED)) (x ← session_at session; mret (negb (pkcs11_session_is_so x)));
  if bad : bool then mret PKCS11_CKR_KEY_FUNCTION_NOT_PERMITTED else
  bad ← both (on_heap (get_bool head PKCS11_CKA_TOKEN)) (x ← session_at session; mret (negb (pkcs11_session_is_read_write x)));
  mret (if bad : bool then PKCS11_CKR_SESSION_READ_ONLY else PKCS11_CKR_OK).

(** [entry_create_object] with the attributes that were made of the template and
    checked against the processing. *)
Definition entry_create_object (client session_handle : Z) (head : list Z) : SM (Z * Z) :=
  session ← pkcs11_handle2session session_handle client;
  if session =? 0 then mret (PKCS11_CKR_SESSION_HANDLE_INVALID, 0) else
  rc ← check_created_attrs_against_token session head;
  if negb (rc =? 0) then mret (rc, 0) else
  rc ← check_access_attrs_against_token session head;
  if negb (rc =? 0) then mret (rc, 0) else
  create_object session head.

(** The handler, after its arguments have been read. *)
Definition entry_destroy_object (client session_handle object_handle : Z) : SM Z :=
  session ← pkcs11_handle2session session_handle client;
  if session =? 0 then mret PKCS11_CKR_SESSION_HANDLE_INVALID else
  object ← pkcs11_handle2object object_handle session;
  if object =? 0 then mret PKCS11_CKR_OBJECT_HANDLE_INVALID else
  o ← object_at object;
  x ← session_at session;
  token ← object_bool o PKCS11_CKA_TOKEN;
  if token && negb (pkcs11_session_is_read_write x) then mret PKCS11_CKR_SESSION_READ_ONLY else
  b ← attributes_of o;
  rc ← check_access_attrs_against_token session b;
  if negb (rc =? 0) then mret PKCS11_CKR_USER_NOT_LOGGED_IN else
  destroyable ← object_bool o PKCS11_CKA_DESTROYABLE;
  if negb destroyable then mret PKCS11_CKR_ACTION_PROHIBITED else
  _ ← destroy_object session object false;
  mret rc.

(** ** object.c: searching *)

(** The session objects of a session that match. *)
Fixpoint find_session_objects (session : Z) (req_attrs : list Z) (objs : list Z) (found : list Z) : SM (Z * list Z) :=
  match objs with
  | [] => mret (PKCS11_CKR_OK, found)
  | obj :: objs =>
      o ← object_at obj;
      if bool_decide (o_token o ≠ None) then find_session_objects session req_attrs objs found else
      b ← attributes_of o;
      m ← on_heap (attributes_match_reference b req_attrs);
      if negb m then find_session_objects session req_attrs objs found else
      h ← pkcs11_object2handle obj session;
      ok ← on_heap (ta_alloc ((Z.of_nat (length found) + 1) * 4));
      if negb ok then mret (PKCS11_CKR_DEVICE_MEMORY, found) else
      find_session_objects session req_attrs objs (found ++ [h])
  end.

(** Of all sessions of the client. *)
Fixpoint find_in_sessions (session : Z) (req_attrs : list Z) (sessions : list Z) (found : list Z) : SM (Z * list Z) :=
  match sessions with
  | [] => mret (PKCS11_CKR_OK, found)
  | sess :: sessions =>
      x ← session_at sess;
      '(rc, found) ← find_session_objects session req_attrs (s_object_list x) found;
      if negb (rc =? 0) then mret (rc, found) else
      find_in_sessions session req_attrs sessions found
  end.

(** The objects of the token that match and may be accessed, which are loaded
    for it and released again if they do not. *)
Fixpoint find_token_objects (session : Z) (req_attrs : list Z) (objs : list Z) (found : list Z) : SM (Z * list Z) :=
  match objs with
  | [] => mret (PKCS11_CKR_OK, found)
  | obj :: objs =>
      o ← object_at obj;
      let new_load := bool_decide (o_attributes o = None) in
      rc ← load_persistent_object_attributes obj;
      if negb (rc =? 0) then mret (PKCS11_CKR_GENERAL_ERROR, found) else
      o ← object_at obj;
      b ← attributes_of o;
      rc ← check_access_attrs_against_token session b;
      m ← (if negb (rc =? 0) then mret false else on_heap (attributes_match_reference b req_attrs));
      if negb m then
        _ ← (if new_load then release_persistent_object_attributes obj else mret tt);
        find_token_objects session req_attrs objs found
      else
      h ← pkcs11_object2handle obj session;
      h ← (if h =? 0 then get_object_handle session obj else mret h);
      if h =? 0 then mret (PKCS11_CKR_DEVICE_MEMORY, found) else
      ok ← on_heap (ta_alloc ((Z.of_nat (length found) + 1) * 4));
      if negb ok then mret (PKCS11_CKR_DEVICE_MEMORY, found) else
      find_token_objects session req_attrs objs (found ++ [h])
  end.

Definition release_session_find_obj_context (session : Z) : SM unit := change_session session (with_find_ctx None).

(** [entry_find_objects_init] with the attributes that [sanitize_client_object]
    made of the template. *)
Definition entry_find_objects_init (client session_handle : Z) (req_attrs : list Z) : SM Z :=
  session ← pkcs11_handle2session session_handle client;
  if session =? 0 then mret PKCS11_CKR_SESSION_HANDLE_INVALID else
  x ← session_at session;
  if session_is_active x then mret PKCS11_CKR_OPERATION_ACTIVE else
  if bool_decide (s_find_ctx x ≠ None) then mret PKCS11_CKR_FUNCTION_FAILED else
  ok ← on_heap alloc_struct;
  if negb ok then mret PKCS11_CKR_DEVICE_MEMORY else
  class ← on_heap (get_class req_attrs);
  if negb ((class =? PKCS11_CKO_UNDEFINED_ID) || (class =? PKCS11_CKO_SECRET_KEY) || (class =? PKCS11_CKO_PUBLIC_KEY) ||
           (class =? PKCS11_CKO_PRIVATE_KEY) || (class =? PKCS11_CKO_DATA) || (class =? PKCS11_CKO_CERTIFICATE))
  then mret PKCS11_CKR_ARGUMENTS_BAD else
  c ← client_at (s_client x);
  '(rc, found) ← find_in_sessions session req_attrs (session_list c) [];
  if negb (rc =? 0) then mret rc else
  k ← token_at (s_token x);
  '(rc, found) ← find_token_objects session req_attrs (t_object_list k) found;
  if negb (rc =? 0) then mret rc else
  _ ← change_session session (with_find_ctx (Some (mk_find found 0)));
  mret PKCS11_CKR_OK.

(** The handles that are given out, [out_count] at most. *)
Definition entry_find_objects (client session_handle : Z) (out_count : nat) : SM (Z * list Z) :=
  session ← pkcs11_handle2session session_handle client;
  if session =? 0 then mret (PKCS11_CKR_SESSION_HANDLE_INVALID, []) else
  x ← session_at session;
  match s_find_ctx x with
  | None => mret (PKCS11_CKR_OPERATION_NOT_INITIALIZED, [])
  | Some ctx =>
      let count := Nat.min (length (f_handles ctx) - f_next ctx) out_count in
      _ ← change_session session (with_find_ctx (Some (mk_find (f_handles ctx) (f_next ctx + count))));
      mret (PKCS11_CKR_OK, take count (drop (f_next ctx) (f_handles ctx)))
  end.

Definition entry_find_objects_final (client session_handle : Z) : SM Z :=
  session ← pkcs11_handle2session session_handle client;
  if session =? 0 then mret PKCS11_CKR_SESSION_HANDLE_INVALID else
  x ← session_at session;
  if bool_decide (s_find_ctx x = None) then mret PKCS11_CKR_OPERATION_NOT_INITIALIZED else
  _ ← release_session_find_obj_context session;
  mret PKCS11_CKR_OK.

(** ** pkcs11_token.c: clients and sessions *)

(** The client, if it is one that is registered. *)
Definition tee_session2client (tee_session : Z) : SM Z :=
  l ← gets ta_client_list; mret (if bool_decide (tee_session ∈ l) then tee_session else 0).

(** The handles of the operations are freed with it. *)
Definition release_active_processing (session : Z) : SM unit := change_session session (with_processing None).

Definition register_client : SM Z :=
  a ← new_address;
  match a with
  | None => mret 0
  | Some client =>
      _ ← modify (λ s, set_clients (<[client:=mk_client [] handle_db_init handle_db_init]> (ta_clients s)) s);
      _ ← modify (λ s, set_client_list (client :: ta_client_list s) s);
      mret client
  end.

(** Read-write or read-only, in the state of login of the client. *)
Definition set_session_state (client session : Z) (readonly : bool) : SM unit :=
  c ← client_at client;
  x ← session_at session;
  first ← find_first (session_list c) (λ sess,
    _ ← st_assert (negb (sess =? session));
    y ← session_at sess; mret (bool_decide (s_token y = s_token x)));
  let public := if readonly then PKCS11_CKS_RO_PUBLIC_SESSION else PKCS11_CKS_RW_PUBLIC_SESSION in
  match first with
  | None => change_session session (with_state public)
  | Some sess =>
      y ← session_at sess;
      if pkcs11_session_is_public y then change_session session (with_state public) else
      if pkcs11_session_is_user y then
        change_session session (with_state (if readonly then PKCS11_CKS_RO_USER_FUNCTIONS else PKCS11_CKS_RW_USER_FUNCTIONS)) else
      if pkcs11_session_is_so y then
        if readonly then panic else change_session session (with_state PKCS11_CKS_RW_SO_FUNCTIONS)
      else panic
  end.

(** The result and the handle. *)
Definition entry_ck_open_session (client : Z) (token_id : nat) (flags : Z) : SM (Z * Z) :=
  tokens ← gets ta_tokens;
  match tokens !! token_id with
  | None => mret (PKCS11_CKR_SLOT_ID_INVALID, 0)
  | Some token =>
      if negb (has_flag flags PKCS11_CKFSS_SERIAL_SESSION) then mret (PKCS11_CKR_SESSION_PARALLEL_NOT_SUPPORTED, 0) else
      if has_flag flags (Z.lnot (Z.lor PKCS11_CKFSS_RW_SESSION PKCS11_CKFSS_SERIAL_SESSION))
      then mret (PKCS11_CKR_ARGUMENTS_BAD, 0) else
      let readonly := negb (has_flag flags PKCS11_CKFSS_RW_SESSION) in
      if negb readonly && (t_state token =? PKCS11_TOKEN_READ_ONLY) then mret (PKCS11_CKR_TOKEN_WRITE_PROTECTED, 0) else
      c ← client_at client;
      so ← (if readonly
            then find_first (session_list c) (λ sess, y ← session_at sess; mret (pkcs11_session_is_so y))
            else mret None);
      if bool_decide (so ≠ None) then mret (PKCS11_CKR_SESSION_READ_WRITE_SO_EXISTS, 0) else
      a ← new_address;
      match a with
      | None => mret (PKCS11_CKR_DEVICE_MEMORY, 0)
      | Some session =>
          ok ← handle_room (session_handle_db c);
          let '(handle, db) := handle_get ok session (session_handle_db c) in
          _ ← change_client client (with_session_db db);
          if handle =? 0 then mret (PKCS11_CKR_DEVICE_MEMORY, 0) else
          _ ← modify (λ s, set_sessions
                (<[session:=mk_session client token_id handle [] PKCS11_CKS_RO_PUBLIC_SESSION None None]> (ta_sessions s)) s);
          _ ← set_session_state client session readonly;
          _ ← change_client client (λ c, with_client_list (session :: session_list c) c);
          _ ← change_token token_id (with_counts (λ n, u32 (n + 1)) (λ n, if readonly then n else u32 (n + 1)));
          mret (PKCS11_CKR_OK, handle)
      end
  end.

(** The objects of a session, while there are any. *)
Fixpoint destroy_session_objects (fuel : nat) (session : Z) : SM unit :=
  match fuel with
  | O => out_of_fuel
  | S fuel =>
      x ← session_at session;
      match s_object_list x with
      | [] => mret tt
      | obj :: _ => _ ← destroy_object session obj true; destroy_session_objects fuel session
      end
  end.

Definition close_ck_session (session : Z) : SM unit :=
  _ ← release_active_processing session;
  _ ← release_session_find_obj_context session;
  x ← session_at session;
  _ ← destroy_session_objects (S (length (s_object_list x))) session;
  x ← session_at session;
  _ ← change_client (s_client x) (λ c, with_client_list (without session (session_list c)) c);
  _ ← change_client (s_client x) (λ c, with_session_db (handle_put (s_handle x) (session_handle_db c)).2 c);
  _ ← change_token (s_token x) (with_counts (λ n, u32 (n - 1))
        (λ n, if pkcs11_session_is_read_write x then u32 (n - 1) else n));
  free_session session.

Definition entry_ck_close_session (client session_handle : Z) : SM Z :=
  session ← pkcs11_handle2session session_handle client;
  if session =? 0 then mret PKCS11_CKR_SESSION_HANDLE_INVALID else
  _ ← close_ck_session session;
  mret PKCS11_CKR_OK.

Definition entry_ck_close_all_sessions (client : Z) (token_id : nat) : SM Z :=
  tokens ← gets ta_tokens;
  match tokens !! token_id with
  | None => mret PKCS11_CKR_SLOT_ID_INVALID
  | Some _ =>
      c ← client_at client;
      _ ← foreach (session_list c) (λ session,
            x ← session_at session;
            if bool_decide (s_token x = token_id) then close_ck_session session else mret tt);
      mret PKCS11_CKR_OK
  end.

Definition unregister_client (client : Z) : SM unit :=
  if client =? 0 then mret tt else
  c ← client_at client;
  _ ← foreach (session_list c) close_ck_session;
  _ ← modify (λ s, set_client_list (without client (ta_client_list s)) s);
  free_client client.

(** Slot, state and flags. *)
Definition entry_ck_session_info (client session_handle : Z) : SM (Z * option (nat * Z * Z)) :=
  session ← pkcs11_handle2session session_handle client;
  if session =? 0 then mret (PKCS11_CKR_SESSION_HANDLE_INVALID, None) else
  x ← session_at session;
  mret (PKCS11_CKR_OK, Some (s_token x, s_state x,
    if pkcs11_session_is_read_write x then Z.lor PKCS11_CKFSS_SERIAL_SESSION PKCS11_CKFSS_RW_SESSION
    else PKCS11_CKFSS_SERIAL_SESSION)).

(** ** Login and logout *)

Definition session_login_user (session : Z) : SM unit :=
  x ← session_at session;
  c ← client_at (s_client x);
  foreach (session_list c) (λ sess,
    y ← session_at sess;
    if bool_decide (s_token y ≠ s_token x) then mret tt else
    change_session sess (with_state
      (if pkcs11_session_is_read_write y then PKCS11_CKS_RW_USER_FUNCTIONS else PKCS11_CKS_RO_USER_FUNCTIONS))).

Definition session_login_so (session : Z) : SM unit :=
  x ← session_at session;
  c ← client_at (s_client x);
  foreach (session_list c) (λ sess,
    y ← session_at sess;
    if bool_decide (s_token y ≠ s_token x) then mret tt else
    if pkcs11_session_is_read_write y then change_session sess (with_state PKCS11_CKS_RW_SO_FUNCTIONS) else panic).

(** One session of the loop of [session_logout]. *)
Definition logout_session (session sess : Z) : SM unit :=
  x ← session_at session;
  y ← session_at sess;
  if bool_decide (s_token y ≠ s_token x) then mret tt else
  _ ← release_active_processing session;
  _ ← foreach (s_object_list y) (λ obj,
        o ← object_at obj;
        private ← object_bool o PKCS11_CKA_PRIVATE;
        if private : bool then destroy_object sess obj true else mret tt);
  k ← token_at (s_token x);
  _ ← foreach (t_object_list k) (λ obj,
        h ← pkcs11_object2handle obj session;
        if h =? 0 then mret tt else
        o ← object_at obj;
        private ← object_bool o PKCS11_CKA_PRIVATE;
        if private : bool then put_object_handle sess h else mret tt);
  _ ← release_session_find_obj_context session;
  y ← session_at sess;
  change_session sess (with_state
    (if pkcs11_session_is_read_write y then PKCS11_CKS_RW_PUBLIC_SESSION else PKCS11_CKS_RO_PUBLIC_SESSION)).

Definition session_logout (session : Z) : SM unit :=
  x ← session_at session;
  c ← client_at (s_client x);
  foreach (session_list c) (logout_session session).

Definition entry_ck_login (client session_handle user_type : Z) (pin : list Z) : SM Z :=
  session ← pkcs11_handle2session session_handle client;
  if session =? 0 then mret PKCS11_CKR_SESSION_HANDLE_INVALID else
  x ← session_at session;
  if user_type =? PKCS11_CKU_SO then
    if pkcs11_session_is_so x then mret PKCS11_CKR_USER_ALREADY_LOGGED_IN else
    if pkcs11_session_is_user x then mret PKCS11_CKR_USER_ANOTHER_ALREADY_LOGGED_IN else
    c ← client_at client;
    ro ← find_first (session_list c) (λ sess,
      y ← session_at sess; mret (bool_decide (s_token y = s_token x) && negb (pkcs11_session_is_read_write y)));
    if bool_decide (ro ≠ None) then mret PKCS11_CKR_SESSION_READ_ONLY_EXISTS else
    rc ← on_db (s_token x) (check_so_pin (s_token x) pin);
    _ ← (if rc =? 0 then session_login_so session else mret tt);
    mret rc
  else if user_type =? PKCS11_CKU_USER then
    if pkcs11_session_is_so x then mret PKCS11_CKR_USER_ANOTHER_ALREADY_LOGGED_IN else
    if pkcs11_session_is_user x then mret PKCS11_CKR_USER_ALREADY_LOGGED_IN else
    rc ← on_db (s_token x) (check_user_pin (s_token x) pin);
    _ ← (if rc =? 0 then session_login_user session else mret tt);
    mret rc
  else if user_type =? PKCS11_CKU_CONTEXT_SPECIFIC then mret PKCS11_CKR_OPERATION_NOT_INITIALIZED
  else mret PKCS11_CKR_USER_TYPE_INVALID.

Definition entry_ck_logout (client session_handle : Z) : SM Z :=
  session ← pkcs11_handle2session session_handle client;
  if session =? 0 then mret PKCS11_CKR_SESSION_HANDLE_INVALID else
  x ← session_at session;
  if pkcs11_session_is_public x then mret PKCS11_CKR_USER_NOT_LOGGED_IN else
  _ ← session_logout session;
  mret PKCS11_CKR_OK.

(** ** The requests on PINs, and initializing a token *)

Definition entry_ck_set_pin (client session_handle : Z) (old_pin : list Z) (new_pin : option (list Z)) : SM Z :=
  session ← pkcs11_handle2session session_handle client;
  if session =? 0 then mret PKCS11_CKR_SESSION_HANDLE_INVALID else
  x ← session_at session;
  on_db (s_token x) (change_pin (s_token x) (pkcs11_session_is_so x) (pkcs11_session_is_read_write x) old_pin new_pin).

Definition entry_ck_init_pin (client session_handle : Z) (pin : option (list Z)) : SM Z :=
  session ← pkcs11_handle2session session_handle client;
  if session =? 0 then mret PKCS11_CKR_SESSION_HANDLE_INVALID else
  x ← session_at session;
  on_db (s_token x) (init_pin (s_token x) (pkcs11_session_is_so x) (pkcs11_session_is_read_write x) pin).

(** The persistent objects of a token, while there are any. *)
Fixpoint remove_token_objects (fuel : nat) (token : nat) : SM unit :=
  match fuel with
  | O => out_of_fuel
  | S fuel =>
      k ← token_at token;
      match t_object_list k with
      | [] => mret tt
      | obj :: _ =>
          o ← object_at obj;
          _ ← try_unregister token (o_uuid o);
          _ ← cleanup_persistent_object obj token;
          remove_token_objects fuel token
      end
  end.

(** Whether a client has a session with the token. *)
Definition session_exists (token : nat) : SM bool :=
  l ← gets ta_client_list;
  r ← find_first l (λ client,
    c ← client_at client;
    r ← find_first (session_list c) (λ sess, y ← session_at sess; mret (bool_decide (s_token y = token)));
    mret (bool_decide (r ≠ None)));
  mret (bool_decide (r ≠ None)).

Definition entry_ck_token_initialize (token_id : nat) (pin : option (list Z)) (label : list Z) : SM Z :=
  tokens ← gets ta_tokens;
  match tokens !! token_id with
  | None => mret PKCS11_CKR_SLOT_ID_INVALID
  | Some token =>
      open ← session_exists token_id;
      rc ← on_db token_id (token_initialize token_id open pin label);
      if negb (rc =? 0) then mret rc else
      _ ← remove_token_objects (S (length (t_object_list token))) token_id;
      mret rc
  end.

(** [set_processing_state]; the functions are the states they lead to. *)
Definition set_processing_state (session state : Z) (objs : list Z) : SM Z :=
  x ← session_at session;
  if bool_decide (s_processing x ≠ None) then mret PKCS11_CKR_OPERATION_ACTIVE else
  ok ← on_heap alloc_struct;
  if negb ok then mret PKCS11_CKR_DEVICE_MEMORY else
  r ← find_first objs (λ obj, o ← object_at obj; object_bool o PKCS11_CKA_ALWAYS_AUTHENTICATE);
  _ ← change_session session (with_processing (Some (mk_processing state (bool_decide (r ≠ None)))));
  mret PKCS11_CKR_OK.

End Code.
