(* ===== verification/Pkcs11SessionProofs.v ===== *)
(** Clients and sessions of the PKCS#11 TA: the invariant that ties together the
    lists, the handles, the counters of the tokens and the states of login, and
    what opening, closing, login and logout do to it. *)
From S2P Require Import Prelude State Bytes HandleDb Pkcs11Handle Pkcs11Attr Pkcs11Pin Pkcs11PinSpec Pkcs11Session.

(** ** The part of the state that is about sessions *)

(** Of a session: client, token, handle and state. *)
Record skel_session := mk_ss { k_client : Z; k_token : nat; k_handle : Z; k_state : Z }.

(** Of a client: its list and its handles. *)
Record skel_client := mk_sc { k_list : list Z; k_db : handle_db }.

Record skel := mk_skel {
  k_tokens : list (Z * Z);
  k_client_list : list Z;
  k_clients : gmap Z skel_client;
  k_sessions : gmap Z skel_session;
}.

Definition ss_of (x : pkcs11_session) : skel_session := mk_ss (s_client x) (s_token x) (s_handle x) (s_state x).
Definition sc_of (c : pkcs11_client) : skel_client := mk_sc (session_list c) (session_handle_db c).
Definition counts_of (k : ck_token) : Z * Z := (t_session_count k, t_rw_session_count k).

Definition skel_of `{TaHeap} (s : ta) : skel :=
  mk_skel (counts_of <$> ta_tokens s) (ta_client_list s) (sc_of <$> ta_clients s) (ss_of <$> ta_sessions s).

(** ** The state of login *)

Definition is_rw (st : Z) : bool :=
  (st =? PKCS11_CKS_RW_PUBLIC_SESSION) || (st =? PKCS11_CKS_RW_USER_FUNCTIONS) || (st =? PKCS11_CKS_RW_SO_FUNCTIONS).
Definition is_user (st : Z) : bool := (st =? PKCS11_CKS_RO_USER_FUNCTIONS) || (st =? PKCS11_CKS_RW_USER_FUNCTIONS).
Definition is_so (st : Z) : bool := st =? PKCS11_CKS_RW_SO_FUNCTIONS.
Definition is_public (st : Z) : bool := (st =? PKCS11_CKS_RO_PUBLIC_SESSION) || (st =? PKCS11_CKS_RW_PUBLIC_SESSION).

(** Who is logged in. *)
Inductive who := Public | User | So.

#[global] Instance who_eq_dec : EqDecision who.
Proof. solve_decision. Defined.

Definition who_of (st : Z) : who := if is_so st then So else if is_user st then User else Public.

(** The state for who is logged in; there is no read-only one for the SO. *)
Definition state_of (w : who) (rw : bool) : Z :=
  match w with
  | Public => if rw then PKCS11_CKS_RW_PUBLIC_SESSION else PKCS11_CKS_RO_PUBLIC_SESSION
  | User => if rw then PKCS11_CKS_RW_USER_FUNCTIONS else PKCS11_CKS_RO_USER_FUNCTIONS
  | So => PKCS11_CKS_RW_SO_FUNCTIONS
  end.

Definition state_ok (st : Z) : Prop := st = state_of (who_of st) (is_rw st).

Lemma state_of_ok w rw : (w = So → rw = true) →
  state_ok (state_of w rw) ∧ who_of (state_of w rw) = w ∧ is_rw (state_of w rw) = rw.
Proof. intros Hw. destruct w, rw; try (by split_and!); by specialize (Hw eq_refl). Qed.

Lemma so_rw st : who_of st = So → is_rw st = true.
Proof.
  unfold who_of, is_so. destruct (Z.eqb_spec st PKCS11_CKS_RW_SO_FUNCTIONS) as [->|]; [done|]. by destruct (is_user st).
Qed.

Lemma who_so st : is_so st = bool_decide (who_of st = So).
Proof. unfold who_of. by destruct (is_so st); [|destruct (is_user st)]. Qed.

Lemma who_user st : state_ok st → is_user st = bool_decide (who_of st = User).
Proof. intros ->. by destruct (who_of st), (is_rw st). Qed.

Lemma who_public st : state_ok st → is_public st = bool_decide (who_of st = Public).
Proof. intros ->. by destruct (who_of st), (is_rw st). Qed.

(** ** The invariant *)

(** The sessions with a token, and the read-write ones among them. *)
Definition with_token (t : nat) (m : gmap Z skel_session) : gmap Z skel_session := filter (λ p, k_token p.2 = t) m.
Definition rw_with_token (t : nat) (m : gmap Z skel_session) : gmap Z skel_session :=
  filter (λ p, k_token p.2 = t ∧ is_rw (k_state p.2) = true) m.

Definition addr_ok (next a : Z) : Prop := 0 < a < next.

Record skel_ok (next : Z) (k : skel) : Prop := {
  sk_next : 0 < next ≤ ADDRESS_END;
  sk_list : ∀ c, c ∈ k_client_list k ↔ is_Some (k_clients k !! c);
  sk_nodup : NoDup (k_client_list k);
  sk_addr : ∀ c cl, k_clients k !! c = Some cl → addr_ok next c;
  sk_saddr : ∀ a x, k_sessions k !! a = Some x → addr_ok next a;
  sk_sessions : ∀ c cl, k_clients k !! c = Some cl →
    NoDup (k_list cl) ∧ ∀ a, a ∈ k_list cl ↔ ∃ x, k_sessions k !! a = Some x ∧ k_client x = c;
  sk_client : ∀ a x, k_sessions k !! a = Some x → is_Some (k_clients k !! k_client x);
  sk_handle : ∀ a x, k_sessions k !! a = Some x → k_handle x ≠ 0;
  sk_cap : ∀ c cl, k_clients k !! c = Some cl → max_ptrs (k_db cl) < 2 ^ 29;
  sk_db : ∀ c cl, k_clients k !! c = Some cl → ∀ h a, h ≠ 0 →
    slots (k_db cl) h = Some a ↔ ∃ x, k_sessions k !! a = Some x ∧ k_client x = c ∧ k_handle x = h;
  sk_token : ∀ a x, k_sessions k !! a = Some x → (k_token x < length (k_tokens k))%nat;
  sk_counts : ∀ t n, k_tokens k !! t = Some n →
    n = (u32 (Z.of_nat (size (with_token t (k_sessions k)))), u32 (Z.of_nat (size (rw_with_token t (k_sessions k)))));
  sk_state : ∀ a x, k_sessions k !! a = Some x → state_ok (k_state x);
}.

(** The sessions of a client with a token agree on who is logged in. *)
Definition login_ok (k : skel) : Prop := ∀ a b x y, k_sessions k !! a = Some x → k_sessions k !! b = Some y →
  k_client x = k_client y → k_token x = k_token y → who_of (k_state x) = who_of (k_state y).

(** Addresses that are not used yet may be skipped. *)
Lemma skel_ok_next n n' k : skel_ok n k → n ≤ n' ≤ ADDRESS_END → skel_ok n' k.
Proof.
  intros [] L. constructor; try done; [lia| |].
  - intros c cl E. destruct (sk_addr0 _ _ E). split; lia.
  - intros a x E. destruct (sk_saddr0 _ _ E). split; lia.
Qed.

(** *** Opening *)

Definition open_skel (a : Z) (x : skel_session) (db : handle_db) (k : skel) : skel :=
  mk_skel
    (alter (λ n, (u32 (n.1 + 1), if is_rw (k_state x) then u32 (n.2 + 1) else n.2)) (k_token x) (k_tokens k))
    (k_client_list k)
    (alter (λ cl, mk_sc (a :: k_list cl) db) (k_client x) (k_clients k))
    (<[a:=x]> (k_sessions k)).

Lemma size_with_token a x m t : m !! a = None →
  size (with_token t (<[a:=x]> m)) = ((if decide (k_token x = t) then 1 else 0) + size (with_token t m))%nat.
Proof.
  intros N. unfold with_token. case_decide as E.
  - rewrite map_filter_insert_True by done. rewrite map_size_insert_None; [done|]. apply map_lookup_filter_None. by left.
  - rewrite map_filter_insert_False by done. by rewrite delete_id.
Qed.

Lemma size_rw_with_token a x m t : m !! a = None →
  size (rw_with_token t (<[a:=x]> m)) =
  ((if decide (k_token x = t ∧ is_rw (k_state x) = true) then 1 else 0) + size (rw_with_token t m))%nat.
Proof.
  intros N. unfold rw_with_token. case_decide as E.
  - rewrite map_filter_insert_True by done. rewrite map_size_insert_None; [done|]. apply map_lookup_filter_None. by left.
  - rewrite map_filter_insert_False by done. by rewrite delete_id.
Qed.

Lemma u32_succ n : u32 (u32 n + 1) = u32 (1 + n).
Proof. unfold u32. rewrite Z.add_mod_idemp_l by done. f_equal. lia. Qed.

Lemma lookup_alter_spec {A} (f : A → A) (i j : nat) (l : list A) :
  alter f i l !! j = (λ x, if decide (i = j) then f x else x) <$> l !! j.
Proof.
  destruct (decide (i = j)) as [->|N]; [by rewrite list_lookup_alter_eq|].
  rewrite list_lookup_alter_ne by done. by destruct (l !! j).
Qed.

Lemma lookup_alter_map {A} (f : A → A) (i j : Z) (m : gmap Z A) :
  alter f i m !! j = (λ x, if decide (i = j) then f x else x) <$> m !! j.
Proof.
  destruct (decide (i = j)) as [->|N]; [by rewrite lookup_alter_eq|].
  rewrite lookup_alter_ne by done. by destruct (m !! j).
Qed.

Record fresh_handle (h a : Z) (db db' : handle_db) : Prop := {
  fh_nonzero : h ≠ 0;
  fh_old : slots db h = None;
  fh_new : slots db' h = Some a;
  fh_rest : ∀ h', h' ≠ h → slots db' h' = slots db h';
  fh_cap : max_ptrs db' < 2 ^ 29;
}.

Lemma open_skel_ok n x db k cl : skel_ok n k → n < ADDRESS_END →
  k_clients k !! k_client x = Some cl → fresh_handle (k_handle x) n (k_db cl) db →
  (k_token x < length (k_tokens k))%nat → state_ok (k_state x) →
  skel_ok (n + 1) (open_skel n x db k).
Proof.
  intros [] Hn Ec [F0 Fo Fn Fr Fc] Ht St.
  assert (k_sessions k !! n = None) as Nn.
  { destruct (k_sessions k !! n) eqn:E; [|done]. destruct (sk_saddr0 _ _ E). lia. }
  constructor; cbn [open_skel k_tokens k_client_list k_clients k_sessions]; try done.
  - lia.
  - intros c. rewrite sk_list0, lookup_alter_map. by rewrite fmap_is_Some.
  - intros c cl' E. rewrite lookup_alter_map in E. apply fmap_Some in E as (c0 & E & _).
    destruct (sk_addr0 _ _ E). split; lia.
  - intros b y. rewrite lookup_insert_Some. intros [[<- _]|[_ E]]; [split; lia|].
    destruct (sk_saddr0 _ _ E). split; lia.
  - intros c cl' E. rewrite lookup_alter_map in E. apply fmap_Some in E as (c0 & E & ->).
    destruct (sk_sessions0 _ _ E) as [Nd Im].
    assert (∀ b, (∃ y, <[n:=x]> (k_sessions k) !! b = Some y ∧ k_client y = c) ↔ (b = n ∧ k_client x = c) ∨ b ∈ k_list c0) as Eq.
    { intros b. rewrite Im. setoid_rewrite lookup_insert_Some. naive_solver. }
    split.
    + case_decide; [|done]. cbn. apply NoDup_cons. split; [|done]. rewrite Im. intros (y & Ey & _). congruence.
    + intros b. rewrite Eq. case_decide as D; cbn; [rewrite elem_of_cons|]; naive_solver.
  - intros b y. rewrite lookup_insert_Some, lookup_alter_map, fmap_is_Some.
    intros [[_ <-]|[_ E]]; [by rewrite Ec|by eapply sk_client0].
  - intros b y. rewrite lookup_insert_Some. intros [[_ <-]|[_ E]]; [done|by eapply sk_handle0].
  - intros c cl' E. rewrite lookup_alter_map in E. apply fmap_Some in E as (c0 & E & ->).
    case_decide; [done|by eapply sk_cap0].
  - intros c cl' E h b Nh. rewrite lookup_alter_map in E. apply fmap_Some in E as (c0 & E & ->).
    setoid_rewrite lookup_insert_Some. specialize (sk_db0 _ _ E h b Nh). case_decide as D; cbn.
    + subst c. rewrite Ec in E. simplify_eq. destruct (decide (h = k_handle x)) as [->|Nx].
      * rewrite Fn. split; [intros [= <-]; by (exists x; split_and!; [left|..])|]. intros (y & [[-> _]|[Nb Ey]] & Cy & Hy); [done|].
        assert (slots (k_db c0) (k_handle x) = Some b) as Sb by (apply sk_db0; by exists y). congruence.
      * rewrite Fr by done. rewrite sk_db0. naive_solver congruence.
    + rewrite sk_db0. naive_solver.
  - intros b y. rewrite length_alter, lookup_insert_Some. intros [[_ <-]|[_ E]]; [done|by eapply sk_token0].
  - intros t m E. rewrite lookup_alter_spec in E. apply fmap_Some in E as (m0 & E & ->).
    rewrite (sk_counts0 _ _ E). rewrite size_with_token, size_rw_with_token by done. case_decide as D.
    + cbn. rewrite u32_succ. f_equal; [f_equal; lia|]. destruct (is_rw (k_state x)).
      * rewrite decide_True by done. rewrite u32_succ. f_equal. lia.
      * rewrite decide_False by naive_solver. done.
    + rewrite decide_False by naive_solver. done.
  - intros b y. rewrite lookup_insert_Some. intros [[_ <-]|[_ E]]; [done|by eapply sk_state0].
Qed.

Lemma open_login_ok n x db k : login_ok k →
  (∀ b y, k_sessions k !! b = Some y → k_client y = k_client x → k_token y = k_token x →
     who_of (k_state y) = who_of (k_state x)) →
  login_ok (open_skel n x db k).
Proof.
  intros L Lg b1 b2 y1 y2. cbn. rewrite !lookup_insert_Some. intros [[_ <-]|[_ E1]] [[_ <-]|[_ E2]] C T; [done|..].
  - symmetry. by eapply Lg.
  - by eapply Lg.
  - by eapply L.
Qed.

(** *** Closing *)

Definition close_skel (a : Z) (x : skel_session) (db : handle_db) (k : skel) : skel :=
  mk_skel
    (alter (λ n, (u32 (n.1 - 1), if is_rw (k_state x) then u32 (n.2 - 1) else n.2)) (k_token x) (k_tokens k))
    (k_client_list k)
    (alter (λ cl, mk_sc (without a (k_list cl)) db) (k_client x) (k_clients k))
    (delete a (k_sessions k)).

Lemma u32_pred n : u32 (u32 (1 + n) - 1) = u32 n.
Proof. unfold u32. rewrite Zminus_mod_idemp_l. f_equal. lia. Qed.

Record dropped_handle (h : Z) (db db' : handle_db) : Prop := {
  dh_gone : slots db' h = None;
  dh_rest : ∀ h', h' ≠ h → slots db' h' = slots db h';
  dh_cap : max_ptrs db' < 2 ^ 29;
}.

Lemma elem_of_without a b l : b ∈ without a l ↔ b ≠ a ∧ b ∈ l.
Proof. unfold without. by rewrite list_elem_of_filter. Qed.

Lemma NoDup_without a l : NoDup l → NoDup (without a l).
Proof. apply NoDup_filter. Qed.

Lemma close_skel_ok n a x db k cl : skel_ok n k → k_sessions k !! a = Some x →
  k_clients k !! k_client x = Some cl → dropped_handle (k_handle x) (k_db cl) db →
  skel_ok n (close_skel a x db k).
Proof.
  intros [] Ex Ec [Fn Fr Fc].
  assert (Ins : k_sessions k = <[a:=x]> (delete a (k_sessions k))) by by rewrite insert_delete_id.
  constructor; cbn [close_skel k_tokens k_client_list k_clients k_sessions]; try done.
  - intros c. rewrite sk_list0, lookup_alter_map. by rewrite fmap_is_Some.
  - intros c cl' E. rewrite lookup_alter_map in E. apply fmap_Some in E as (c0 & E & _). by eapply sk_addr0.
  - intros b y [_ E]%lookup_delete_Some. by eapply sk_saddr0.
  - intros c cl' E. rewrite lookup_alter_map in E. apply fmap_Some in E as (c0 & E & ->).
    destruct (sk_sessions0 _ _ E) as [Nd Im]. setoid_rewrite lookup_delete_Some. split.
    + case_decide; [by apply NoDup_without|done].
    + intros b. case_decide as D; cbn; rewrite ?elem_of_without, Im; naive_solver.
  - intros b y [_ E]%lookup_delete_Some. rewrite lookup_alter_map, fmap_is_Some. by eapply sk_client0.
  - intros b y [_ E]%lookup_delete_Some. by eapply sk_handle0.
  - intros c cl' E. rewrite lookup_alter_map in E. apply fmap_Some in E as (c0 & E & ->).
    case_decide; [done|by eapply sk_cap0].
  - intros c cl' E h b Nh. rewrite lookup_alter_map in E. apply fmap_Some in E as (c0 & E & ->).
    setoid_rewrite lookup_delete_Some. pose proof (sk_db0 _ _ E) as Db. case_decide as D; cbn.
    + subst c. rewrite Ec in E. simplify_eq. destruct (decide (h = k_handle x)) as [->|Nx].
      * rewrite Fn. split; [done|]. intros (y & [Nb Ey] & Cy & Hy).
        assert (slots (k_db c0) (k_handle x) = Some b) as S1 by (apply Db; [done|by exists y]).
        assert (slots (k_db c0) (k_handle x) = Some a) as S2 by (apply Db; [done|by exists x]). congruence.
      * rewrite Fr, Db by done. split; [|naive_solver].
        intros (y & Ey & Cy & Hy). exists y. split_and!; [|done..]. intros ->. congruence.
    + rewrite Db by done. split; [|naive_solver].
      intros (y & Ey & Cy & Hy). exists y. split_and!; [|done..]. intros ->. congruence.
  - intros b y [_ E]%lookup_delete_Some. rewrite length_alter. by eapply sk_token0.
  - intros t m E. rewrite lookup_alter_spec in E. apply fmap_Some in E as (m0 & E & ->).
    rewrite (sk_counts0 _ _ E). rewrite Ins, !delete_insert_eq.
    assert (delete a (k_sessions k) !! a = None) by apply lookup_delete_eq.
    assert (delete a (delete a (k_sessions k)) = delete a (k_sessions k)) as -> by by rewrite delete_id.
    rewrite size_with_token, size_rw_with_token by done. case_decide as D.
    + cbn [fst snd]. rewrite Nat2Z.inj_add. change (Z.of_nat 1) with 1. rewrite u32_pred. f_equal.
      destruct (is_rw (k_state x)).
      * rewrite decide_True by done. rewrite Nat2Z.inj_add. change (Z.of_nat 1) with 1. by rewrite u32_pred.
      * rewrite decide_False by naive_solver. done.
    + rewrite decide_False by naive_solver. done.
  - intros b y [_ E]%lookup_delete_Some. by eapply sk_state0.
Qed.

Lemma close_login_ok a x db k : login_ok k → login_ok (close_skel a x db k).
Proof. intros L b1 b2 y1 y2. cbn. rewrite !lookup_delete_Some. intros [_ E1] [_ E2]. by eapply L. Qed.

(** *** Login and logout *)

(** All sessions of a client with a token change to [w]. *)
Definition relog (c : Z) (t : nat) (w : who) (x : skel_session) : skel_session :=
  if decide (k_client x = c ∧ k_token x = t)
  then mk_ss (k_client x) (k_token x) (k_handle x) (state_of w (is_rw (k_state x))) else x.

Definition relog_skel (c : Z) (t : nat) (w : who) (k : skel) : skel :=
  mk_skel (k_tokens k) (k_client_list k) (k_clients k) (relog c t w <$> k_sessions k).

Lemma relog_fields c t w x :
  k_client (relog c t w x) = k_client x ∧ k_token (relog c t w x) = k_token x ∧ k_handle (relog c t w x) = k_handle x.
Proof. unfold relog. by case_decide. Qed.

(** Another state of one session, with the same kind of access. *)
Definition set_state (st : Z) (x : skel_session) : skel_session := mk_ss (k_client x) (k_token x) (k_handle x) st.

Definition state_skel (a : Z) (st : Z) (k : skel) : skel :=
  mk_skel (k_tokens k) (k_client_list k) (k_clients k) (alter (set_state st) a (k_sessions k)).

Lemma size_filter_alter (P : Z * skel_session → Prop) `{∀ p, Decision (P p)} f a (m : gmap Z skel_session) :
  (∀ x, m !! a = Some x → P (a, f x) ↔ P (a, x)) → size (filter P (alter f a m)) = size (filter P m).
Proof.
  intros E. rewrite <-(map_size_fmap (λ _, tt) (filter P (alter f a m))), <-(map_size_fmap (λ _, tt) (filter P m)). f_equal.
  apply map_eq. intros b. apply option_eq. intros []. rewrite !lookup_fmap, !fmap_Some.
  setoid_rewrite map_lookup_filter_Some. setoid_rewrite lookup_alter_map. split.
  - intros (y & [(x & Ex & ->)%fmap_Some Py] & _). exists x. split; [split; [done|]|done]. case_decide as D; [|done]. subst b. by apply E.
  - intros (x & [Ex Px] & _). exists (if decide (a = b) then f x else x). rewrite Ex. split; [split; [done|]|done].
    case_decide as D; [|done]. subst b. by apply E.
Qed.

Lemma state_skel_ok n a x st k : skel_ok n k → k_sessions k !! a = Some x → state_ok st → is_rw st = is_rw (k_state x) →
  skel_ok n (state_skel a st k).
Proof.
  intros [] Ex St Rw.
  assert (Sess : ∀ b y, alter (set_state st) a (k_sessions k) !! b = Some y →
    ∃ z, k_sessions k !! b = Some z ∧ k_client y = k_client z ∧ k_token y = k_token z ∧ k_handle y = k_handle z ∧
      (k_state y = k_state z ∨ k_state y = st)).
  { intros b y. rewrite lookup_alter_map, fmap_Some. intros (z & Ez & ->). exists z. case_decide; split_and!; auto. }
  assert (Back : ∀ b z, k_sessions k !! b = Some z →
    ∃ y, alter (set_state st) a (k_sessions k) !! b = Some y ∧ k_client y = k_client z ∧ k_handle y = k_handle z).
  { intros b z Ez. rewrite lookup_alter_map, Ez. eexists. split; [done|]. by case_decide. }
  constructor; cbn [state_skel k_tokens k_client_list k_clients k_sessions]; try done.
  - intros b y (z & Ez & _)%Sess. by eapply sk_saddr0.
  - intros c cl E. destruct (sk_sessions0 _ _ E) as [Nd Im]. split; [done|]. intros b. rewrite Im. split.
    + intros (z & Ez & Cz). destruct (Back _ _ Ez) as (y & Ey & Cy & _). exists y. split; [done|congruence].
    + intros (y & (z & Ez & C' & _)%Sess & Cy). exists z. split; [done|congruence].
  - intros b y (z & Ez & C' & _)%Sess. rewrite C'. by eapply sk_client0.
  - intros b y (z & Ez & _ & _ & H' & _)%Sess. rewrite H'. by eapply sk_handle0.
  - intros c cl E h b Nh. rewrite (sk_db0 _ _ E) by done. split.
    + intros (z & Ez & Cz & Hz). destruct (Back _ _ Ez) as (y & Ey & Cy & Hy). exists y. split_and!; [done|congruence..].
    + intros (y & (z & Ez & C' & _ & H' & _)%Sess & Cy & Hy). exists z. split_and!; [done|congruence..].
  - intros b y (z & Ez & _ & T' & _)%Sess. rewrite T'. by eapply sk_token0.
  - intros t m E. rewrite (sk_counts0 _ _ E). unfold with_token, rw_with_token. rewrite !size_filter_alter; [done|..].
    + intros y Ey. cbn. assert (y = x) as -> by congruence. by rewrite Rw.
    + done.
  - intros b y (z & Ez & _ & _ & _ & [->| ->])%Sess; [by eapply sk_state0|done].
Qed.

Lemma relog_login_ok c t w k : login_ok k →
  (w = So → ∀ a x, k_sessions k !! a = Some x → k_client x = c → k_token x = t → is_rw (k_state x) = true) →
  login_ok (relog_skel c t w k).
Proof.
  intros L Hso.
  assert (St : ∀ a x, k_sessions k !! a = Some x → who_of (k_state (relog c t w x)) =
    if decide (k_client x = c ∧ k_token x = t) then w else who_of (k_state x)).
  { intros a x E. unfold relog. case_decide as D; [|done]. apply state_of_ok. intros ->. by eapply Hso; [..|apply D|apply D]. }
  intros a b y1 y2. cbn. rewrite !lookup_fmap, !fmap_Some. intros (x1 & E1 & ->) (x2 & E2 & ->).
  destruct (relog_fields c t w x1) as (-> & -> & _), (relog_fields c t w x2) as (-> & -> & _). intros C T.
  rewrite (St _ _ E1), (St _ _ E2), C, T. case_decide; [done|]. by eapply L.
Qed.

(** *** Clients *)

Definition new_client_skel (c : Z) (k : skel) : skel :=
  mk_skel (k_tokens k) (c :: k_client_list k) (<[c:=mk_sc [] handle_db_init]> (k_clients k)) (k_sessions k).

Lemma new_client_skel_ok n k : skel_ok n k → n < ADDRESS_END → skel_ok (n + 1) (new_client_skel n k).
Proof.
  intros [] Hn.
  assert (k_clients k !! n = None) as Nn.
  { destruct (k_clients k !! n) eqn:E; [|done]. destruct (sk_addr0 _ _ E). lia. }
  assert (∀ a x, k_sessions k !! a = Some x → k_client x ≠ n) as Nc.
  { intros a x E C. destruct (sk_client0 _ _ E) as [cl E2]. congruence. }
  constructor; cbn [new_client_skel k_tokens k_client_list k_clients k_sessions]; try done.
  - lia.
  - intros c. rewrite elem_of_cons, sk_list0, lookup_insert_is_Some. destruct (decide (n = c)); naive_solver.
  - apply NoDup_cons. split; [|done]. rewrite sk_list0, Nn. by intros [? ?].
  - intros c cl. rewrite lookup_insert_Some. intros [[<- _]|[_ E]]; [split; lia|]. destruct (sk_addr0 _ _ E). split; lia.
  - intros a x E. destruct (sk_saddr0 _ _ E). split; lia.
  - intros c cl. rewrite lookup_insert_Some. intros [[<- <-]|[_ E]]; [|by eapply sk_sessions0]. split; [constructor|].
    intros a. cbn. rewrite elem_of_nil. split; [done|]. intros (x & E & C). by eapply Nc.
  - intros a x E. rewrite lookup_insert_is_Some. destruct (decide (n = k_client x)); [by left|right]. split; [done|]. by eapply sk_client0.
  - intros c cl. rewrite lookup_insert_Some. intros [[_ <-]|[_ E]]; [done|by eapply sk_cap0].
  - intros c cl. rewrite lookup_insert_Some. intros [[<- <-]|[_ E]]; [|by eapply sk_db0]. intros h a Nh. cbn. split.
    + unfold slots, handle_db_init, max_ptrs. cbn. case_decide; [lia|done].
    + intros (x & E & C & _). by destruct (Nc _ _ E).
Qed.

Definition drop_client_skel (c : Z) (k : skel) : skel :=
  mk_skel (k_tokens k) (without c (k_client_list k)) (delete c (k_clients k)) (k_sessions k).

Lemma drop_client_skel_ok n c k : skel_ok n k → (∀ a x, k_sessions k !! a = Some x → k_client x ≠ c) →
  skel_ok n (drop_client_skel c k).
Proof.
  intros [] Nc. constructor; cbn [drop_client_skel k_tokens k_client_list k_clients k_sessions]; try done.
  - intros c'. rewrite elem_of_without, sk_list0, lookup_delete_is_Some. naive_solver.
  - by apply NoDup_without.
  - intros c' cl [_ E]%lookup_delete_Some. by eapply sk_addr0.
  - intros c' cl [_ E]%lookup_delete_Some. by eapply sk_sessions0.
  - intros a x E. rewrite lookup_delete_is_Some. split; [|by eapply sk_client0]. intros E2. by apply (Nc a x).
  - intros c' cl [_ E]%lookup_delete_Some. by eapply sk_cap0.
  - intros c' cl [_ E]%lookup_delete_Some. by eapply sk_db0.
Qed.

(** ** Handles *)

(** The memory of the TA is less than 4 GiB. *)
Class SmallHeap `{TaHeap} := { ta_alloc_limit : ∀ n h, 2 ^ 32 ≤ n → wp (ta_alloc n) h (λ ok _, ok = false) }.

Lemma length_handle_get ok p db h db' : handle_get ok p db = (h, db') →
  ptrs db' = ptrs db ∨ length (ptrs db') = length (ptrs db) ∨
  (find_empty (drop 1 (ptrs db)) 1 = None ∧ ok = true ∧
   max_ptrs db' = Z.max (max_ptrs db) (if max_ptrs db =? 0 then HANDLE_DB_INITIAL_MAX_PTRS else u32 (max_ptrs db * 2))).
Proof.
  unfold handle_get. case_match; [intros [= <- <-]; by left|]. case_match.
  - intros [= <- <-]. right; left. cbn [ptrs]. by rewrite length_insert.
  - case_match; [intros [= <- <-]; by left|]. intros [= <- <-]. right; right. split_and!; [done|by destruct ok|].
    unfold max_ptrs. cbn [ptrs]. rewrite length_insert, length_app, length_replicate. lia.
Qed.

Lemma put_dropped h db : h ≠ 0 → max_ptrs db < 2 ^ 29 → dropped_handle h db (handle_put h db).2.
Proof.
  intros Nh C. destruct (handle_put h db) as [r db'] eqn:E.
  destruct (ta_put_ok h db r db') as (_ & G & R); [unfold cap; lia|done|done|]. constructor; [done|done|].
  unfold handle_put in E. case_match; simplify_eq; [done|]. unfold max_ptrs. cbn. by rewrite length_insert.
Qed.

Lemma lookup_slots db h a : max_ptrs db < 2 ^ 29 → handle_lookup db h = a → a ≠ 0 →
  h ≠ 0 ∧ slots db h = Some a ∧ a ≠ INVALID_HANDLE_PTR.
Proof.
  intros C E Na. unfold handle_lookup in E. destruct (handle_is_valid db h) eqn:V; cbn [negb] in E; [|by subst].
  unfold handle_is_valid in V. rewrite !andb_true_iff, negb_true_iff, Z.eqb_neq, Z.leb_le, Z.ltb_lt in V.
  destruct V as [[Nh L] U]. split; [done|]. destruct (Z.eqb_spec (default 0 (ptrs db !! Z.to_nat h)) INVALID_HANDLE_PTR); [by subst|].
  destruct (ptrs db !! Z.to_nat h) as [p|] eqn:P; cbn in *; [|by subst]. subst. split; [|done]. by apply slots_lookup.
Qed.

Lemma lookup_slots_back db h a : max_ptrs db < 2 ^ 29 → h ≠ 0 → a ≠ INVALID_HANDLE_PTR → slots db h = Some a → handle_lookup db h = a.
Proof.
  intros C Nh Na S. pose proof S as (_ & _ & N0)%slots_lookup. apply ta_lookup_ok; [unfold cap; lia|done|done|done].
Qed.

Lemma addr_storable n a : addr_ok n a → n ≤ ADDRESS_END → storable a.
Proof. intros [A B] L. unfold storable, INVALID_HANDLE_PTR, ADDRESS_END in *. lia. Qed.

Lemma find_handle db a : storable a →
  let h := handle_lookup_handle db a in
  if decide (h = 0) then ∀ h', h' ≠ 0 → slots db h' ≠ Some a else slots db h = Some a.
Proof. apply handle_lookup_handle_spec. Qed.
