(* ===== verification/Pkcs11ObjectProofs.v ===== *)
(** Objects of the PKCS#11 TA: the invariant that ties together the objects, the
    lists of sessions and tokens they are in, and the handles of the clients. *)
From S2P Require Import Prelude State Bytes HandleDb Pkcs11Handle Pkcs11Attr Pkcs11AttrProofs Pkcs11SanitizeSpec.
From S2P Require Import Pkcs11Pin Pkcs11PinSpec Pkcs11Session Pkcs11SessionProofs.

(** ** The part of the state that is about objects *)

Record oskel := mk_oskel {
  q_tokens : list (list Z);
  q_dbs : gmap Z handle_db;
  q_sessions : gmap Z (Z * list Z);
  q_objects : gmap Z pkcs11_object;
}.

Definition oskel_of `{TaHeap} (s : ta) : oskel :=
  mk_oskel (t_object_list <$> ta_tokens s) (object_handle_db <$> ta_clients s)
    ((λ x, (s_client x, s_object_list x)) <$> ta_sessions s) (ta_objects s).

(** The boolean attribute [id] is there and true. *)
Definition attr_true `{TaHeap} (id : Z) (b : list Z) : Prop := ∀ h, get_bool b id h = Some (Done (true, h)).

Section Objects.
Context `{TaHeap}.

(** The attributes are there, are a list, and tell whether the object is a token's. *)
Definition attributes_ok (token : option nat) (b : list Z) : Prop :=
  well_formed b ∧ (attr_true PKCS11_CKA_TOKEN b ↔ is_Some token).

Definition loaded (o : pkcs11_object) : Prop := ∃ b, o_attributes o = Some b ∧ attributes_ok (o_token o) b.

(** The object [e] is exempt: it is being made or destroyed and in no list; 0 if
    there is none. *)
Record obj_ok (e next : Z) (q : oskel) : Prop := {
  oo_addr : ∀ p o, q_objects q !! p = Some o → addr_ok next p;
  oo_next : 0 < next ≤ ADDRESS_END;
  oo_sess : ∀ a c l, q_sessions q !! a = Some (c, l) → NoDup l ∧
    ∀ p, p ∈ l → p ≠ e ∧ ∃ o, q_objects q !! p = Some o ∧ o_token o = None ∧ loaded o;
  oo_unique : ∀ a1 a2 x1 x2 p, q_sessions q !! a1 = Some x1 → q_sessions q !! a2 = Some x2 →
    p ∈ x1.2 → p ∈ x2.2 → a1 = a2;
  oo_tok : ∀ t l, q_tokens q !! t = Some l → NoDup l ∧
    ∀ p, p ∈ l → p ≠ e ∧ ∃ o, q_objects q !! p = Some o ∧ o_token o = Some t ∧ (o_attributes o = None ∨ loaded o);
  oo_home : ∀ p o, q_objects q !! p = Some o → p ≠ e →
    (o_token o = None ∧ ∃ a c l, q_sessions q !! a = Some (c, l) ∧ p ∈ l) ∨
    (∃ t l, o_token o = Some t ∧ q_tokens q !! t = Some l ∧ p ∈ l);
  oo_cap : ∀ c db, q_dbs q !! c = Some db → max_ptrs db < 2 ^ 29;
  oo_db : ∀ c db h p, q_dbs q !! c = Some db → h ≠ 0 → slots db h = Some p → p ≠ INVALID_HANDLE_PTR →
    p ≠ e →
    (∃ o, q_objects q !! p = Some o ∧ loaded o) ∧ ∀ a c' l, q_sessions q !! a = Some (c', l) → p ∈ l → c' = c;
  oo_once : ∀ c db h1 h2 p, q_dbs q !! c = Some db → h1 ≠ 0 → h2 ≠ 0 → slots db h1 = Some p → slots db h2 = Some p →
    p ≠ INVALID_HANDLE_PTR → h1 = h2;
}.

Lemma obj_ok_next e n n' q : obj_ok e n q → n ≤ n' ≤ ADDRESS_END → obj_ok e n' q.
Proof. intros [] L. constructor; try done; [|lia]. intros p o E. destruct (oo_addr0 _ _ E). split; lia. Qed.

(** ** Making and destroying *)

Definition put_object (p : Z) (o : pkcs11_object) (q : oskel) : oskel :=
  mk_oskel (q_tokens q) (q_dbs q) (q_sessions q) (<[p:=o]> (q_objects q)).

(** A structure at a new address. *)
Lemma obj_ok_new n o q : obj_ok 0 n q → n < ADDRESS_END → obj_ok n (n + 1) (put_object n o q).
Proof.
  intros [] L. assert (Nn : q_objects q !! n = None).
  { destruct (q_objects q !! n) eqn:E; [|done]. destruct (oo_addr0 _ _ E). lia. }
  assert (Keep : ∀ p o', q_objects q !! p = Some o' → p ≠ n ∧ <[n:=o]> (q_objects q) !! p = Some o').
  { intros p o' E. assert (p ≠ n) by (intros ->; congruence). by rewrite lookup_insert_ne. }
  constructor; cbn [put_object q_tokens q_dbs q_sessions q_objects]; try done.
  - intros p o'. rewrite lookup_insert_Some. intros [[<- _]|[_ E]]; [split; lia|]. destruct (oo_addr0 _ _ E). split; lia.
  - lia.
  - intros a c l E. destruct (oo_sess0 _ _ _ E) as [Nd Im]. split; [done|]. intros p Hp.
    destruct (Im p Hp) as (_ & o' & Eo & R). destruct (Keep _ _ Eo) as [Np E']. split; [done|]. by exists o'.
  - intros t l E. destruct (oo_tok0 _ _ E) as [Nd Im]. split; [done|]. intros p Hp.
    destruct (Im p Hp) as (_ & o' & Eo & R). destruct (Keep _ _ Eo) as [Np E']. split; [done|]. by exists o'.
  - intros p o' E Np. rewrite lookup_insert_ne in E by done. apply (oo_home0 _ _ E). destruct (oo_addr0 _ _ E). lia.
  - intros c db h p E Nh S Ni Np. rewrite lookup_insert_ne by done. apply (oo_db0 c db h p); try done.
    apply slots_lookup in S. naive_solver.
Qed.

(** The exempt object may change. *)
Lemma obj_ok_exempt e n o q : obj_ok e n q → is_Some (q_objects q !! e) → obj_ok e n (put_object e o q).
Proof.
  intros [] [o0 E0]. constructor; cbn [put_object q_tokens q_dbs q_sessions q_objects]; try done.
  - intros p o'. rewrite lookup_insert_Some. intros [[<- _]|[_ E]]; by eapply oo_addr0.
  - intros a c l E. destruct (oo_sess0 _ _ _ E) as [Nd Im]. split; [done|]. intros p Hp.
    destruct (Im p Hp) as (Np & R). split; [done|]. by rewrite lookup_insert_ne.
  - intros t l E. destruct (oo_tok0 _ _ E) as [Nd Im]. split; [done|]. intros p Hp.
    destruct (Im p Hp) as (Np & R). split; [done|]. by rewrite lookup_insert_ne.
  - intros p o' E Np. rewrite lookup_insert_ne in E by done. by apply oo_home0.
  - intros c db h p E Nh S Ni Np. rewrite lookup_insert_ne by done. by apply (oo_db0 c db h p).
Qed.

(** An object of a token is loaded, or released while nobody has a handle of it. *)
Lemma obj_ok_attributes n p o b q : obj_ok 0 n q → q_objects q !! p = Some o → is_Some (o_token o) →
  match b with
  | Some b => attributes_ok (o_token o) b
  | None => ∀ c db h, q_dbs q !! c = Some db → h ≠ 0 → slots db h ≠ Some p
  end →
  obj_ok 0 n (put_object p (with_attributes b o) q).
Proof.
  intros [] Eo [t0 Et] Hb. pose proof (oo_addr0 _ _ Eo) as [P0 _].
  assert (p ≠ INVALID_HANDLE_PTR) as Pi by (destruct (oo_addr0 _ _ Eo); unfold INVALID_HANDLE_PTR, ADDRESS_END in *; lia).
  constructor; cbn [put_object q_tokens q_dbs q_sessions q_objects]; try done.
  - intros p' o'. rewrite lookup_insert_Some. intros [[<- _]|[_ E]]; by eapply oo_addr0.
  - intros a c l E. destruct (oo_sess0 _ _ _ E) as [Nd Im]. split; [done|]. intros p' Hp.
    destruct (Im p' Hp) as (Np & o' & E' & R). split; [done|]. exists o'.
    rewrite lookup_insert_ne by (intros <-; destruct R; congruence). done.
  - intros t l E. destruct (oo_tok0 _ _ E) as [Nd Im]. split; [done|]. intros p' Hp.
    destruct (Im p' Hp) as (Np & o' & E' & T & R). split; [done|]. destruct (decide (p = p')) as [<-|N].
    + exists (with_attributes b o). rewrite lookup_insert_eq. simplify_eq. split_and!; [done|done|].
      destruct b as [b|]; [right; by exists b|by left].
    + exists o'. by rewrite lookup_insert_ne.
  - intros p' o'. rewrite lookup_insert_Some. intros [[<- <-]|[_ E]] Np; [|by apply oo_home0].
    by apply (oo_home0 _ _ Eo).
  - intros c db h p' E Nh S Ni Np. destruct (oo_db0 c db h p' E Nh S Ni Np) as [(o' & E' & R) Cl]. split; [|done].
    destruct (decide (p = p')) as [<-|N]; [|exists o'; by rewrite lookup_insert_ne].
    destruct b as [b|]; [|by destruct (Hb c db h E Nh)]. exists (with_attributes (Some b) o).
    rewrite lookup_insert_eq. split; [done|]. by exists b.
Qed.

Definition drop_object (p : Z) (q : oskel) : oskel :=
  mk_oskel (q_tokens q) (q_dbs q) (q_sessions q) (delete p (q_objects q)).

Definition unlist (p : Z) (q : oskel) : oskel :=
  mk_oskel (without p <$> q_tokens q) (q_dbs q) ((λ x, (x.1, without p x.2)) <$> q_sessions q) (q_objects q).

Lemma obj_ok_unlist e p n q : obj_ok e n q → e = 0 ∨ e = p → obj_ok p n (unlist p q).
Proof.
  intros [] He. constructor; cbn [unlist q_tokens q_dbs q_sessions q_objects]; try done.
  - intros a c l. rewrite lookup_fmap, fmap_Some. intros ([c' l'] & E & [= -> ->]).
    destruct (oo_sess0 _ _ _ E) as [Nd Im]. split; [by apply NoDup_without|]. intros p' [Np Hp]%elem_of_without.
    split; [done|]. by destruct (Im p' Hp).
  - intros a1 a2 x1 x2 p'. rewrite !lookup_fmap, !fmap_Some. intros (y1 & E1 & ->) (y2 & E2 & ->). cbn.
    rewrite !elem_of_without. intros [_ H1] [_ H2]. by eapply oo_unique0.
  - intros t l. rewrite list_lookup_fmap, fmap_Some. intros (l' & E & ->).
    destruct (oo_tok0 _ _ E) as [Nd Im]. split; [by apply NoDup_without|]. intros p' [Np Hp]%elem_of_without.
    split; [done|]. by destruct (Im p' Hp).
  - intros p' o E Np. destruct (oo_home0 p' o E) as [(T & a & c & l & E1 & Hp)|(t & l & T & E1 & Hp)].
    + destruct He as [->| ->]; [|done]. destruct (oo_addr0 _ _ E). lia.
    + left. split; [done|]. exists a, c, (without p l). rewrite lookup_fmap, E1. split; [done|]. by apply elem_of_without.
    + right. exists t, (without p l). rewrite list_lookup_fmap, E1. split_and!; [done|done|]. by apply elem_of_without.
  - intros c db h p' E Nh S Ni Np. assert (p' ≠ e) as Ne.
    { destruct He as [->| ->]; [|done]. apply slots_lookup in S. naive_solver. }
    destruct (oo_db0 c db h p' E Nh S Ni Ne) as [R Cl]. split; [done|]. intros a c' l.
    rewrite lookup_fmap, fmap_Some. intros ([c2 l2] & E2 & [= -> ->]) [_ Hp]%elem_of_without. by eapply Cl.
Qed.

(** Freeing the exempt object. *)
Lemma obj_ok_free p n q : obj_ok p n q → obj_ok p n (drop_object p q).
Proof.
  intros []. constructor; cbn [drop_object q_tokens q_dbs q_sessions q_objects]; try done.
  - intros p' o [_ E]%lookup_delete_Some. by eapply oo_addr0.
  - intros a c l E. destruct (oo_sess0 _ _ _ E) as [Nd Im]. split; [done|]. intros p' Hp.
    destruct (Im p' Hp) as (Np & R). split; [done|]. by rewrite lookup_delete_ne.
  - intros t l E. destruct (oo_tok0 _ _ E) as [Nd Im]. split; [done|]. intros p' Hp.
    destruct (Im p' Hp) as (Np & R). split; [done|]. by rewrite lookup_delete_ne.
  - intros p' o [_ E]%lookup_delete_Some Np. by apply oo_home0.
  - intros c db h p' E Nh S Ni Np. rewrite lookup_delete_ne by done. by apply (oo_db0 c db h p').
Qed.

(** An exempt object that is gone for good. *)
Lemma obj_ok_gone p n q : obj_ok p n q → q_objects q !! p = None →
  (∀ c db h, q_dbs q !! c = Some db → h ≠ 0 → slots db h ≠ Some p) → obj_ok 0 n q.
Proof.
  intros [] Gone No. assert (∀ p' o, q_objects q !! p' = Some o → p' ≠ 0) as N0.
  { intros p' o E. destruct (oo_addr0 _ _ E). lia. }
  constructor; try done.
  - intros a c l E. destruct (oo_sess0 _ _ _ E) as [Nd Im]. split; [done|]. intros p' Hp.
    destruct (Im p' Hp) as (_ & o & E' & R). split; [by eapply N0|by exists o].
  - intros t l E. destruct (oo_tok0 _ _ E) as [Nd Im]. split; [done|]. intros p' Hp.
    destruct (Im p' Hp) as (_ & o & E' & R). split; [by eapply N0|by exists o].
  - intros p' o E _. apply oo_home0; [done|]. intros ->. congruence.
  - intros c db h p' E Nh S Ni _. apply (oo_db0 c db h p'); try done. intros ->. by destruct (No c db h).
Qed.

(** ** Handles *)

Definition put_db (c : Z) (db : handle_db) (q : oskel) : oskel :=
  mk_oskel (q_tokens q) (<[c:=db]> (q_dbs q)) (q_sessions q) (q_objects q).

(** A handle less, or one that is invalid now. *)
Lemma obj_ok_drop_handle e n c db db' q : obj_ok e n q → q_dbs q !! c = Some db → max_ptrs db' < 2 ^ 29 →
  (∀ h, slots db' h = slots db h ∨ slots db' h = None ∨ slots db' h = Some INVALID_HANDLE_PTR) →
  obj_ok e n (put_db c db' q).
Proof.
  intros [] E C Sl.
  assert (Old : ∀ h p, slots db' h = Some p → p ≠ INVALID_HANDLE_PTR → slots db h = Some p).
  { intros h p S Ni. destruct (Sl h) as [<-|[X|X]]; congruence. }
  constructor; cbn [put_db q_tokens q_dbs q_sessions q_objects]; try done.
  - intros c' db0. rewrite lookup_insert_Some. intros [[_ <-]|[_ E0]]; [done|by eapply oo_cap0].
  - intros c' db0 h p. rewrite lookup_insert_Some. intros [[<- <-]|[_ E0]] Nh S Ni Np; [|by apply (oo_db0 c' db0 h p)].
    apply (oo_db0 c db h p); try done. by apply Old.
  - intros c' db0 h1 h2 p. rewrite lookup_insert_Some. intros [[<- <-]|[_ E0]] N1 N2 S1 S2 Ni; [|by eapply oo_once0].
    eapply (oo_once0 c db h1 h2 p); try done; by apply Old.
Qed.

(** A new handle for an object that had none. *)
Lemma obj_ok_new_handle e n c db h p db' q : obj_ok e n q → q_dbs q !! c = Some db → fresh_handle h p db db' →
  (∀ h', h' ≠ 0 → slots db h' ≠ Some p) →
  (p ≠ e → (∃ o, q_objects q !! p = Some o ∧ loaded o) ∧ ∀ a c' l, q_sessions q !! a = Some (c', l) → p ∈ l → c' = c) →
  obj_ok e n (put_db c db' q).
Proof.
  intros [] E [F0 Fo Fn Fr Fc] No Hp.
  constructor; cbn [put_db q_tokens q_dbs q_sessions q_objects]; try done.
  - intros c' db0. rewrite lookup_insert_Some. intros [[_ <-]|[_ E0]]; [done|by eapply oo_cap0].
  - intros c' db0 h' p'. rewrite lookup_insert_Some. intros [[<- <-]|[_ E0]] Nh S Ni Np; [|by apply (oo_db0 c' db0 h' p')].
    destruct (decide (h' = h)) as [->|N].
    + rewrite Fn in S. simplify_eq. by apply Hp.
    + rewrite Fr in S by done. by apply (oo_db0 c db h' p').
  - intros c' db0 h1 h2 p'. rewrite lookup_insert_Some. intros [[<- <-]|[_ E0]] N1 N2 S1 S2 Ni; [|by eapply oo_once0].
    destruct (decide (h1 = h)) as [->|D1], (decide (h2 = h)) as [->|D2]; [done|..].
    + rewrite Fn in S1. simplify_eq. rewrite Fr in S2 by done. by destruct (No h2).
    + rewrite Fn in S2. simplify_eq. rewrite Fr in S1 by done. by destruct (No h1).
    + rewrite Fr in S1, S2 by done. by eapply oo_once0.
Qed.

(** ** The home of a new object *)

Definition add_to_token (t : nat) (p : Z) (q : oskel) : oskel :=
  mk_oskel (alter (cons p) t (q_tokens q)) (q_dbs q) (q_sessions q) (q_objects q).
Definition add_to_session (a p : Z) (q : oskel) : oskel :=
  mk_oskel (q_tokens q) (q_dbs q) (alter (λ x, (x.1, p :: x.2)) a (q_sessions q)) (q_objects q).

Lemma obj_ok_zero e n q p : obj_ok e n q → is_Some (q_objects q !! p) → p ≠ 0.
Proof. intros [] [o E]. destruct (oo_addr0 _ _ E). lia. Qed.

Lemma obj_ok_to_token n t p o q : obj_ok p n q → q_objects q !! p = Some o → o_token o = Some t → loaded o →
  is_Some (q_tokens q !! t) → obj_ok 0 n (add_to_token t p q).
Proof.
  intros K Eo Et Lo [l0 El]. pose proof (λ p', obj_ok_zero _ _ _ p' K) as N0. destruct K.
  constructor; cbn [add_to_token q_tokens q_dbs q_sessions q_objects]; try done.
  - intros a c l E. destruct (oo_sess0 _ _ _ E) as [Nd Im]. split; [done|]. intros p' Hp.
    destruct (Im p' Hp) as (_ & o' & E' & R). split; [by apply N0; rewrite E'|by exists o'].
  - intros t' l. rewrite lookup_alter_spec, fmap_Some. intros (l' & E & ->).
    destruct (oo_tok0 _ _ E) as [Nd Im]. case_decide as D.
    + subst t'. split.
      * apply NoDup_cons. split; [|done]. intros Hp. by destruct (Im p Hp).
      * intros p' [->|Hp]%elem_of_cons; [split; [by apply N0; rewrite Eo|]; exists o; auto|].
        destruct (Im p' Hp) as (_ & o' & E' & R). split; [by apply N0; rewrite E'|by exists o'].
    + split; [done|]. intros p' Hp. destruct (Im p' Hp) as (_ & o' & E' & R). split; [by apply N0; rewrite E'|by exists o'].
  - intros p' o' E _. destruct (decide (p' = p)) as [->|Np].
    + right. exists t, (p :: l0). simplify_eq. rewrite lookup_alter_spec, El. cbn. rewrite decide_True by done.
      split_and!; [done|done|]. by left.
    + destruct (oo_home0 _ _ E Np) as [?|(t' & l & T & E1 & Hp)]; [by left|right].
      exists t', (if decide (t = t') then p :: l else l). rewrite lookup_alter_spec, E1. split_and!; [done|done|].
      case_decide; [by right|done].
  - intros c db h p' E Nh S Ni _. destruct (decide (p' = p)) as [->|Np]; [|by apply (oo_db0 c db h p')].
    split; [by exists o|]. intros a c' l E' Hp. by destruct (oo_sess0 _ _ _ E') as [_ Im]; destruct (Im p Hp).
Qed.

Lemma obj_ok_to_session n a p o c l q : obj_ok p n q → q_objects q !! p = Some o → o_token o = None → loaded o →
  q_sessions q !! a = Some (c, l) →
  (∀ c' db h, q_dbs q !! c' = Some db → h ≠ 0 → slots db h = Some p → c' = c) →
  obj_ok 0 n (add_to_session a p q).
Proof.
  intros K Eo Et Lo Ea Cl. pose proof (λ p', obj_ok_zero _ _ _ p' K) as N0. destruct K.
  assert (Nin : ∀ a' x, q_sessions q !! a' = Some x → p ∉ x.2).
  { intros a' [c' l'] E Hp. by destruct (oo_sess0 _ _ _ E) as [_ Im]; destruct (Im p Hp). }
  assert (Sess : ∀ a' x, alter (λ x, (x.1, p :: x.2)) a (q_sessions q) !! a' = Some x →
    ∃ x0, q_sessions q !! a' = Some x0 ∧ x.1 = x0.1 ∧ x.2 = if decide (a = a') then p :: x0.2 else x0.2).
  { intros a' x. rewrite lookup_alter_map, fmap_Some. intros (x0 & E & ->). exists x0. by case_decide. }
  constructor; cbn [add_to_session q_tokens q_dbs q_sessions q_objects]; try done.
  - intros a' c' l' ([c0 l1] & E & E1 & E2)%Sess. cbn in E1, E2. subst c' l'.
    destruct (oo_sess0 _ _ _ E) as [Nd Im]. case_decide as D.
    + split; [apply NoDup_cons; split; [by apply (Nin _ _ E)|done]|].
      intros p' [->|Hp]%elem_of_cons; [split; [by apply N0; rewrite Eo|]; by exists o|].
      destruct (Im p' Hp) as (_ & o' & E' & R). split; [by apply N0; rewrite E'|by exists o'].
    + split; [done|]. intros p' Hp. destruct (Im p' Hp) as (_ & o' & E' & R). split; [by apply N0; rewrite E'|by exists o'].
  - intros a1 a2 x1 x2 p' (y1 & E1 & _ & ->)%Sess (y2 & E2 & _ & ->)%Sess.
    pose proof (Nin _ _ E1). pose proof (Nin _ _ E2).
    repeat case_decide; subst; try done; rewrite ?elem_of_cons; intros Q1 Q2.
    + destruct Q1 as [->|Q1]; [done|]. by eapply oo_unique0.
    + destruct Q2 as [->|Q2]; [done|]. by eapply oo_unique0.
    + by eapply oo_unique0.
  - intros t l' E. destruct (oo_tok0 _ _ E) as [Nd Im]. split; [done|]. intros p' Hp.
    destruct (Im p' Hp) as (_ & o' & E' & R). split; [by apply N0; rewrite E'|by exists o'].
  - intros p' o' E _. destruct (decide (p' = p)) as [->|Np].
    + left. simplify_eq. split; [done|]. exists a, c, (p :: l). rewrite lookup_alter_eq, Ea. split; [done|]. by left.
    + destruct (oo_home0 _ _ E Np) as [(T & a' & c' & l' & E1 & Hp)|?]; [left|by right]. split; [done|].
      exists a', c', (if decide (a = a') then p :: l' else l'). rewrite lookup_alter_map, E1. cbn. case_decide; (split; [done|]); [by right|done].
  - intros c' db h p' E Nh S Ni _. destruct (decide (p' = p)) as [->|Np].
    + split; [by exists o|]. intros a' c2 l2 (x0 & E' & E1 & E2)%Sess Hp. cbn in *. subst l2.
      pose proof (Nin _ _ E'). case_decide as D; [|done]. subst a'. rewrite Ea in E'. injection E' as <-. cbn in E1. subst c2.
      symmetry. by eapply Cl.
    + destruct (oo_db0 c' db h p' E Nh S Ni Np) as [R Cl']. split; [done|].
      intros a' c2 l2 ([c0 l1] & E' & E1 & E2)%Sess Hp. cbn in *. subst. eapply (Cl' a' c0 l1 E').
      case_decide; [|done]. by apply elem_of_cons in Hp as [->|Hp].
Qed.

(** ** Sessions and clients *)

Definition put_session (a c : Z) (q : oskel) : oskel :=
  mk_oskel (q_tokens q) (q_dbs q) (<[a:=(c, [])]> (q_sessions q)) (q_objects q).
Definition drop_session (a : Z) (q : oskel) : oskel :=
  mk_oskel (q_tokens q) (q_dbs q) (delete a (q_sessions q)) (q_objects q).
Definition drop_db (c : Z) (q : oskel) : oskel :=
  mk_oskel (q_tokens q) (delete c (q_dbs q)) (q_sessions q) (q_objects q).

Lemma obj_ok_put_session e n a c q : obj_ok e n q → q_sessions q !! a = None → obj_ok e n (put_session a c q).
Proof.
  intros [] N. constructor; cbn [put_session q_tokens q_dbs q_sessions q_objects]; try done.
  - intros a' c' l. rewrite lookup_insert_Some. intros [[_ [= _ <-]]|[_ E]]; [|by eapply oo_sess0].
    split; [constructor|]. intros p Hp. by apply elem_of_nil in Hp.
  - intros a1 a2 x1 x2 p. rewrite !lookup_insert_Some. intros [[_ <-]|[_ E1]] [[_ <-]|[_ E2]] Q1 Q2;
      cbn in *; try (by apply elem_of_nil in Q1); try (by apply elem_of_nil in Q2). by eapply oo_unique0.
  - intros p o E Np. destruct (oo_home0 _ _ E Np) as [(T & a' & c' & l & E1 & Hp)|?]; [left|by right]. split; [done|].
    exists a', c', l. rewrite lookup_insert_ne; [done|]. intros ->. congruence.
  - intros c' db h p E Nh S Ni Np. destruct (oo_db0 c' db h p E Nh S Ni Np) as [R Cl]. split; [done|].
    intros a' c2 l. rewrite lookup_insert_Some. intros [[_ [= _ <-]]|[_ E']] Hp; [by apply elem_of_nil in Hp|by eapply Cl].
Qed.

Lemma obj_ok_drop_session e n a c q : obj_ok e n q → q_sessions q !! a = Some (c, []) → obj_ok e n (drop_session a q).
Proof.
  intros [] Ea. constructor; cbn [drop_session q_tokens q_dbs q_sessions q_objects]; try done.
  - intros a' c' l [_ E]%lookup_delete_Some. by eapply oo_sess0.
  - intros a1 a2 x1 x2 p [_ E1]%lookup_delete_Some [_ E2]%lookup_delete_Some. by eapply oo_unique0.
  - intros p o E Np. destruct (oo_home0 _ _ E Np) as [(T & a' & c' & l & E1 & Hp)|?]; [left|by right]. split; [done|].
    exists a', c', l. rewrite lookup_delete_ne; [done|]. intros <-. rewrite Ea in E1. simplify_eq. by apply elem_of_nil in Hp.
  - intros c' db h p E Nh S Ni Np. destruct (oo_db0 c' db h p E Nh S Ni Np) as [R Cl]. split; [done|].
    intros a' c2 l [_ E']%lookup_delete_Some. by eapply Cl.
Qed.

Lemma obj_ok_put_client e n c q : obj_ok e n q → obj_ok e n (put_db c handle_db_init q).
Proof.
  intros []. assert (∀ h, slots handle_db_init h = None) as No.
  { intros h. unfold slots, max_ptrs, handle_db_init. cbn. by case_decide; [lia|]. }
  constructor; cbn [put_db q_tokens q_dbs q_sessions q_objects]; try done.
  - intros c' db. rewrite lookup_insert_Some. intros [[_ <-]|[_ E]]; [done|by eapply oo_cap0].
  - intros c' db h p. rewrite lookup_insert_Some. intros [[_ <-]|[_ E]] Nh S; [by rewrite No in S|by apply (oo_db0 c' db h)].
  - intros c' db h1 h2 p. rewrite lookup_insert_Some. intros [[_ <-]|[_ E]] N1 N2 S1; [by rewrite No in S1|by eapply oo_once0].
Qed.

Lemma obj_ok_drop_client e n c q : obj_ok e n q → obj_ok e n (drop_db c q).
Proof.
  intros []. constructor; cbn [drop_db q_tokens q_dbs q_sessions q_objects]; try done.
  - intros c' db [_ E]%lookup_delete_Some. by eapply oo_cap0.
  - intros c' db h p [_ E]%lookup_delete_Some. by apply (oo_db0 c' db h).
  - intros c' db h1 h2 p [_ E]%lookup_delete_Some. by eapply oo_once0.
Qed.

End Objects.
