(* ===== verification/Pkcs11SessionSpec.v ===== *)
(** What requests do to the clients, sessions and objects of the PKCS#11 TA, and
    what any sequence of them keeps. *)
From S2P Require Import Prelude State Bytes HandleDb Pkcs11Handle Pkcs11Attr Pkcs11AttrProofs Pkcs11AttrSpec Pkcs11SanitizeSpec.
From S2P Require Import Pkcs11Pin Pkcs11PinSpec Pkcs11Session Pkcs11SessionProofs Pkcs11ObjectProofs.

(** ** A view of the state *)

Record view := mk_view { v_next : Z; v_skel : skel; v_obj : oskel; v_mains : list token_persistent_main }.

Definition view_of `{TaHeap} (s : ta) : view :=
  mk_view (ta_next s) (skel_of s) (oskel_of s) (t_db_main <$> ta_tokens s).

Record view_ok `{TaHeap} (e : Z) (v : view) : Prop := {
  vo_skel : skel_ok (v_next v) (v_skel v);
  vo_obj : obj_ok e (v_next v) (v_obj v);
  vo_pins : Forall pins_ok (v_mains v);
}.

Definition ta_inv `{TaHeap} (e : Z) (s : ta) : Prop := view_ok e (view_of s).

Definition in_obj (f : oskel → oskel) (v : view) : view := mk_view (v_next v) (v_skel v) (f (v_obj v)) (v_mains v).

Lemma fmap_same {A B} (g : A → B) (f : A → A) (m : gmap Z A) a x : m !! a = Some x → g (f x) = g x →
  g <$> <[a:=f x]> m = g <$> m.
Proof. intros E F. rewrite fmap_insert, F. apply insert_id. by rewrite lookup_fmap, E. Qed.

Lemma fmap_same_list {A B} (g : A → B) (f : A → A) (l : list A) (a : nat) x : l !! a = Some x → g (f x) = g x →
  g <$> <[a:=f x]> l = g <$> l.
Proof. intros E F. rewrite list_fmap_insert, F. apply list_insert_id. by rewrite list_lookup_fmap, E. Qed.

Lemma fmap_alter {A B} (g : A → B) (f : A → A) (f' : B → B) (m : gmap Z A) a x : m !! a = Some x → g (f x) = f' (g x) →
  g <$> <[a:=f x]> m = alter f' a (g <$> m).
Proof.
  intros E F. rewrite fmap_insert, F. apply map_eq. intros b. rewrite lookup_alter_map.
  case_decide as D; [subst b; by rewrite lookup_insert_eq, lookup_fmap, E|].
  rewrite lookup_insert_ne, lookup_fmap by done. by destruct (m !! b).
Qed.

Lemma fmap_alter_list {A B} (g : A → B) (f : A → A) (f' : B → B) (l : list A) (a : nat) x : l !! a = Some x → g (f x) = f' (g x) →
  g <$> <[a:=f x]> l = alter f' a (g <$> l).
Proof.
  intros E F. rewrite list_fmap_insert, F. apply list_eq. intros b. rewrite lookup_alter_spec.
  case_decide as D.
  - subst b. rewrite list_lookup_insert_eq, list_lookup_fmap, E; [done|]. rewrite length_fmap. by eapply lookup_lt_Some.
  - rewrite list_lookup_insert_ne, list_lookup_fmap by done. by destruct (l !! b).
Qed.

(** ** Rules *)

Section Rules.
Context `{TaHeap}.
Implicit Types s : ta.

Lemma set_h_id s : set_h (ta_h s) s = s.
Proof. by destruct s. Qed.

Lemma view_set_h h s : view_of (set_h h s) = view_of s.
Proof. done. Qed.

Lemma pwp_deref {A} (o : ta → option A) s a (Q : A → ta → Prop) : o s = Some a → Q a s → pwp (deref o) s Q.
Proof. intros E HQ. unfold pwp, deref. by rewrite E. Qed.

Lemma pwp_on_heap {A} (m : St ta_heap A) s (P : A → Prop) (Q : A → ta → Prop) :
  wp m (ta_h s) (λ a _, P a) → (∀ a h, P a → Q a (set_h h s)) → pwp (on_heap m) s Q.
Proof. intros W HQ. apply pwp_zoom, pwp_of_wp. destruct W as (a & h' & E & Pa). exists a, h'. auto. Qed.

Lemma view_session s a y : k_sessions (skel_of s) !! a = Some y →
  ∃ x, ta_sessions s !! a = Some x ∧ ss_of x = y ∧ q_sessions (oskel_of s) !! a = Some (s_client x, s_object_list x).
Proof.
  cbn. rewrite lookup_fmap, fmap_Some. intros (x & E & ->). exists x. split_and!; [done|done|].
  by rewrite lookup_fmap, E.
Qed.

Lemma view_client s c y : k_clients (skel_of s) !! c = Some y →
  ∃ x, ta_clients s !! c = Some x ∧ sc_of x = y ∧ q_dbs (oskel_of s) !! c = Some (object_handle_db x).
Proof.
  cbn. rewrite lookup_fmap, fmap_Some. intros (x & E & ->). exists x. split_and!; [done|done|].
  by rewrite lookup_fmap, E.
Qed.

Lemma session_in s a x : ta_sessions s !! a = Some x → k_sessions (skel_of s) !! a = Some (ss_of x).
Proof. intros E. cbn. by rewrite lookup_fmap, E. Qed.

Lemma session_objs_in s a x : ta_sessions s !! a = Some x →
  q_sessions (oskel_of s) !! a = Some (s_client x, s_object_list x).
Proof. intros E. cbn. by rewrite lookup_fmap, E. Qed.

Lemma client_in s a x : ta_clients s !! a = Some x → k_clients (skel_of s) !! a = Some (sc_of x).
Proof. intros E. cbn. by rewrite lookup_fmap, E. Qed.

Lemma db_in s a x : ta_clients s !! a = Some x → q_dbs (oskel_of s) !! a = Some (object_handle_db x).
Proof. intros E. cbn. by rewrite lookup_fmap, E. Qed.

Lemma token_in s t k : ta_tokens s !! t = Some k →
  k_tokens (skel_of s) !! t = Some (counts_of k) ∧ q_tokens (oskel_of s) !! t = Some (t_object_list k).
Proof. intros E. cbn. by rewrite !list_lookup_fmap, E. Qed.

(** The client of a session. *)
Lemma session_client e s a x : ta_inv e s → ta_sessions s !! a = Some x → is_Some (ta_clients s !! s_client x).
Proof.
  intros I E. destruct (sk_client _ _ (vo_skel _ _ I) a (ss_of x)) as [y Ey]; [by apply session_in|].
  apply view_client in Ey as (cl & ? & _). by exists cl.
Qed.

Lemma session_token e s a x : ta_inv e s → ta_sessions s !! a = Some x → is_Some (ta_tokens s !! s_token x).
Proof.
  intros I E. apply lookup_lt_is_Some. pose proof (sk_token _ _ (vo_skel _ _ I) a (ss_of x) (session_in _ _ _ E)) as L.
  cbn in L. by rewrite length_fmap in L.
Qed.

(** Changes of one structure, by their effect on the view. *)
Lemma pwp_change_session a f s x (Q : unit → ta → Prop) : ta_sessions s !! a = Some x →
  Q tt (set_sessions (<[a:=f x]> (ta_sessions s)) s) → pwp (change_session a f) s Q.
Proof. intros E HQ. unfold change_session. apply pwp_bind. by eapply pwp_deref. Qed.

Lemma pwp_change_client a f s x (Q : unit → ta → Prop) : ta_clients s !! a = Some x →
  Q tt (set_clients (<[a:=f x]> (ta_clients s)) s) → pwp (change_client a f) s Q.
Proof. intros E HQ. unfold change_client. apply pwp_bind. by eapply pwp_deref. Qed.

Lemma pwp_change_object a f s x (Q : unit → ta → Prop) : ta_objects s !! a = Some x →
  Q tt (set_objects (<[a:=f x]> (ta_objects s)) s) → pwp (change_object a f) s Q.
Proof. intros E HQ. unfold change_object. apply pwp_bind. by eapply pwp_deref. Qed.

Lemma pwp_change_token a f s x (Q : unit → ta → Prop) : ta_tokens s !! a = Some x →
  Q tt (set_tokens (<[a:=f x]> (ta_tokens s)) s) → pwp (change_token a f) s Q.
Proof. intros E HQ. unfold change_token. apply pwp_bind. by eapply pwp_deref. Qed.

Lemma view_session_same s a x f : ta_sessions s !! a = Some x → ss_of (f x) = ss_of x → s_object_list (f x) = s_object_list x →
  view_of (set_sessions (<[a:=f x]> (ta_sessions s)) s) = view_of s.
Proof.
  intros E S O. unfold view_of, skel_of, oskel_of. cbn. f_equal; f_equal; (eapply fmap_same; [done|]); [done|].
  rewrite O. by injection S as -> _ _ _.
Qed.

Lemma view_session_objects s a x f : ta_sessions s !! a = Some x →
  view_of (set_sessions (<[a:=with_objects f x]> (ta_sessions s)) s) =
  in_obj (λ q, mk_oskel (q_tokens q) (q_dbs q) (alter (λ y, (y.1, f y.2)) a (q_sessions q)) (q_objects q)) (view_of s).
Proof.
  intros E. unfold view_of, skel_of, oskel_of, in_obj. cbn. f_equal; f_equal.
  - by eapply fmap_same.
  - by eapply (fmap_alter _ (with_objects f)).
Qed.

Lemma view_client_db s c x db : ta_clients s !! c = Some x →
  view_of (set_clients (<[c:=with_object_db db x]> (ta_clients s)) s) = in_obj (put_db c db) (view_of s).
Proof.
  intros E. unfold view_of, skel_of, oskel_of, in_obj. cbn. f_equal; f_equal.
  - by eapply (fmap_same _ (with_object_db db)).
  - unfold put_db. cbn. by rewrite fmap_insert.
Qed.

Lemma view_client_same s c x f : ta_clients s !! c = Some x → sc_of (f x) = sc_of x → object_handle_db (f x) = object_handle_db x →
  view_of (set_clients (<[c:=f x]> (ta_clients s)) s) = view_of s.
Proof. intros E S O. unfold view_of, skel_of, oskel_of. cbn. f_equal; f_equal; by eapply fmap_same. Qed.

Lemma view_object s p o : view_of (set_objects (<[p:=o]> (ta_objects s)) s) = in_obj (put_object p o) (view_of s).
Proof. done. Qed.

Lemma view_token_same s t k f : ta_tokens s !! t = Some k → counts_of (f k) = counts_of k → t_object_list (f k) = t_object_list k →
  t_db_main (f k) = t_db_main k → view_of (set_tokens (<[t:=f k]> (ta_tokens s)) s) = view_of s.
Proof.
  intros E C O D. unfold view_of, skel_of, oskel_of. cbn. f_equal; [f_equal|f_equal|]; by eapply fmap_same_list.
Qed.

Lemma view_token_objects s t k f : ta_tokens s !! t = Some k →
  view_of (set_tokens (<[t:=with_token_objects f k]> (ta_tokens s)) s) =
  in_obj (λ q, mk_oskel (alter f t (q_tokens q)) (q_dbs q) (q_sessions q) (q_objects q)) (view_of s).
Proof.
  intros E. unfold view_of, skel_of, oskel_of, in_obj. cbn. f_equal; [f_equal|f_equal|].
  - by eapply (fmap_same_list _ (with_token_objects f)).
  - by eapply (fmap_alter_list _ (with_token_objects f)).
  - by eapply (fmap_same_list _ (with_token_objects f)).
Qed.

Lemma view_unlist s p : view_of (set_tokens (with_token_objects (without p) <$> ta_tokens s)
    (set_sessions (with_objects (without p) <$> ta_sessions s) s)) = in_obj (unlist p) (view_of s).
Proof.
  unfold view_of, skel_of, oskel_of, in_obj, unlist. cbn. rewrite <-!list_fmap_compose, <-!map_fmap_compose. done.
Qed.

End Rules.

(** ** Attributes *)

(** What the TA calls returns, what storage gives back is the attribute list of a
    token's object, and random UUIDs do not repeat: of one more than are in use
    one is new. *)
Class ObjectApiLaws `{TaHeap} `{!ObjectApi} := {
  alloc_struct_returns : ∀ h, wp alloc_struct h (λ _ _, True);
  seek_db_objs_returns : ∀ t h, wp (seek_db_objs t) h (λ _ _, True);
  truncate_db_objs_returns : ∀ t n h, wp (truncate_db_objs t n) h (λ _ _, True);
  write_db_objs_returns : ∀ t l h, wp (write_db_objs t l) h (λ _ _, True);
  create_persistent_returns : ∀ u b h, wp (create_persistent u b) h (λ _ _, True);
  open_persistent_meta_returns : ∀ u h, wp (open_persistent_meta u) h (λ _ _, True);
  close_and_delete_returns : ∀ h, wp close_and_delete h (λ _ _, True);
  read_persistent_is : ∀ u h, wp (read_persistent u) h (λ r _, match r with inl rc => rc ≠ 0 | inr b => well_formed b ∧ attr_true PKCS11_CKA_TOKEN b end);
  draw_uuid_is : ∀ used h, wp (draw_uuid (S (length used)) used) h (λ u _, u ∉ used);
}.

(** One step, through structures and the heap as well. *)
Ltac s_lookup := cbn; first [eassumption|by rewrite lookup_insert_eq].

Ltac s_step :=
  cbn [negb]; cbv beta iota;
  lazymatch goal with
  | |- pwp (deref _) _ _ => eapply pwp_deref; [s_lookup|]
  | |- pwp (client_at _) _ _ => eapply pwp_deref; [s_lookup|]
  | |- pwp (session_at _) _ _ => eapply pwp_deref; [s_lookup|]
  | |- pwp (object_at _) _ _ => eapply pwp_deref; [s_lookup|]
  | |- pwp (token_at _) _ _ => eapply pwp_deref; [s_lookup|]
  | |- _ => p_step
  end; cbv beta.

Section Objects.
Context `{TokenApiLaws} `{!TaHeapLaws} `{!SmallHeap} `{!ObjectApi} `{!ObjectApiLaws}.
Implicit Types s : ta.

Lemma pwp_get_bool b id s (Q : bool → ta → Prop) : well_formed b →
  (∀ r, (r = true ↔ attr_true id b) → Q r s) → pwp (on_heap (get_bool b id)) s Q.
Proof.
  intros (l & tail & Hl & ->) HQ.
  assert (∃ r, (∀ h, get_bool (attrs_mem l tail) id h = Some (Done (r, h))) ∨
               (∀ h, get_bool (attrs_mem l tail) id h = Some (Panicked 0))) as [r R].
  { assert (∀ h, get_attribute (attrs_mem l tail) id (Some 1) h = Some (Done (get_ref l id (Some 1), h))) as G.
    { intros h. assert (wp (get_attribute (attrs_mem l tail) id (Some 1)) h (λ r h', r = get_ref l id (Some 1) ∧ h' = h)) as W
        by by apply wp_get_attribute. destruct W as (? & ? & E & -> & ->). done. }
    destruct (get_ref l id (Some 1)) as [[rc v] size].
    assert (∀ h, get_bool (attrs_mem l tail) id h =
      (if rc =? PKCS11_RV_NOT_FOUND then mret false else
        _ ← st_assert (rc =? PKCS11_CKR_OK); mret (negb (of_le (default [] v) =? 0))) h) as B.
    { intros h. unfold get_bool, mbind at 1, st_mbind, st_bind at 1. by rewrite G. }
    destruct (rc =? PKCS11_RV_NOT_FOUND); [exists false; left; intros h; by rewrite B|].
    destruct (rc =? PKCS11_CKR_OK) eqn:Eo.
    - exists (negb (of_le (default [] v) =? 0)). left. intros h. by rewrite B.
    - exists false. right. intros h. by rewrite B. }
  unfold pwp, on_heap, zoom. destruct R as [R|R]; rewrite R; [|done]. rewrite set_h_id. apply HQ. split.
  - intros ->. exact R.
  - intros T. specialize (T (ta_h s)). rewrite R in T. by injection T.
Qed.

Lemma pwp_get_class b s (Q : Z → ta → Prop) : well_formed b → (∀ c, Q c s) → pwp (on_heap (get_class b)) s Q.
Proof.
  intros (l & tail & Hl & ->) HQ. unfold on_heap. apply pwp_zoom, pwp_of_wp. unfold get_class. st_step.
  apply wp_get_attribute; [done|]. destruct (get_ref l PKCS11_CKA_CLASS (Some 4)) as [[rc v] size]. st_step.
  rewrite set_h_id. apply HQ.
Qed.

Lemma pwp_match b r s (Q : bool → ta → Prop) : well_formed b → well_formed r → (∀ m, Q m s) →
  pwp (on_heap (attributes_match_reference b r)) s Q.
Proof.
  intros (l & tail & Hl & ->) (l' & tail' & Hl' & ->) HQ. unfold on_heap. apply pwp_zoom, pwp_of_wp.
  eapply wp_mono; [by apply wp_attributes_match_reference|]. intros m h [-> _]. rewrite set_h_id. apply HQ.
Qed.

Lemma pwp_object_bool o id s (Q : bool → ta → Prop) : loaded o →
  (∀ r, (r = true ↔ ∀ b, o_attributes o = Some b → attr_true id b) → Q r s) → pwp (object_bool o id) s Q.
Proof.
  intros (b & E & W & _) HQ. unfold object_bool, attributes_of. rewrite E. do 2 s_step. apply pwp_get_bool; [done|].
  intros r R. apply HQ. rewrite R. split; [intros T b' E'; by assert (b' = b) as -> by congruence|intros T; by apply T].
Qed.

(** ** Handles *)

Lemma pwp_object_db a s x c (Q : handle_db → ta → Prop) : ta_sessions s !! a = Some x →
  ta_clients s !! s_client x = Some c → Q (object_handle_db c) s → pwp (object_db a) s Q.
Proof. intros Ex Ec HQ. unfold object_db. do 5 s_step. done. Qed.

Lemma pwp_set_object_db a s x c db (Q : unit → ta → Prop) : ta_sessions s !! a = Some x →
  ta_clients s !! s_client x = Some c →
  Q tt (set_clients (<[s_client x:=with_object_db db c]> (ta_clients s)) s) → pwp (set_object_db a db) s Q.
Proof. intros Ex Ec HQ. unfold set_object_db. do 2 s_step. by eapply pwp_change_client. Qed.

Lemma pwp_object2handle a p s x c (Q : Z → ta → Prop) : ta_sessions s !! a = Some x →
  ta_clients s !! s_client x = Some c → Q (handle_lookup_handle (object_handle_db c) p) s → pwp (pkcs11_object2handle p a) s Q.
Proof. intros Ex Ec HQ. unfold pkcs11_object2handle. s_step. eapply pwp_object_db; [done..|]. by s_step. Qed.

Lemma pwp_put_object_handle a h s x c (Q : unit → ta → Prop) : ta_sessions s !! a = Some x →
  ta_clients s !! s_client x = Some c →
  Q tt (set_clients (<[s_client x:=with_object_db (handle_put h (object_handle_db c)).2 c]> (ta_clients s)) s) →
  pwp (put_object_handle a h) s Q.
Proof.
  intros Ex Ec HQ. unfold put_object_handle. s_step. eapply pwp_object_db; [done..|]. by eapply pwp_set_object_db.
Qed.

(** Room in a database, and a handle from it. *)
Lemma pwp_handle_room db s (Q : bool → ta → Prop) : max_ptrs db < 2 ^ 29 →
  (∀ ok h, (ok = true → find_empty (drop 1 (ptrs db)) 1 = None → max_ptrs db < 2 ^ 28) → Q ok (set_h h s)) →
  pwp (handle_room db) s Q.
Proof.
  intros C HQ. unfold handle_room. destruct (find_empty (drop 1 (ptrs db)) 1) eqn:F.
  - s_step. rewrite <-(set_h_id s). by apply HQ.
  - assert (0 ≤ max_ptrs db) by (unfold max_ptrs; lia). set (n := 8 * _).
    destruct (Z.leb_spec (2 ^ 32) n) as [L|L].
    + apply (pwp_on_heap _ _ (λ ok, ok = false)); [by apply ta_alloc_limit|]. intros ok h ->. by apply HQ.
    + apply (pwp_on_heap _ _ (λ _, True)); [apply ta_alloc_ok|]. intros ok h _. apply HQ. intros _ _.
      unfold n in L. destruct (Z.eqb_spec (max_ptrs db) 0); [lia|]. rewrite u32_id in L by lia. lia.
Qed.

Lemma got_handle n db a ok h db' : max_ptrs db < 2 ^ 29 → addr_ok n a → n ≤ ADDRESS_END →
  (ok = true → find_empty (drop 1 (ptrs db)) 1 = None → max_ptrs db < 2 ^ 28) →
  handle_get ok a db = (h, db') → (h = 0 ∧ db' = db) ∨ fresh_handle h a db db'.
Proof.
  intros C Ha Hn Room E. pose proof (addr_storable _ _ Ha Hn) as St. assert (cap db) by (unfold cap; lia).
  destruct (decide (h = 0)) as [->|Nh]; [left; by destruct (ta_get_fail ok a db db')|right].
  destruct (ta_get_ok ok a db h db') as (So & Sn & Sr); [done..|]. constructor; try done.
  destruct (length_handle_get _ _ _ _ _ E) as [L|[L|(F & -> & L)]].
  - unfold max_ptrs in *. by rewrite L.
  - unfold max_ptrs in *. by rewrite L.
  - specialize (Room eq_refl F). rewrite L. case_match eqn:Z0; [unfold HANDLE_DB_INITIAL_MAX_PTRS; lia|].
    rewrite u32_id by (unfold max_ptrs in *; lia). lia.
Qed.

(** ** Destroying *)

Lemma cleanup_volatile_spec p s (Q : unit → ta → Prop) : is_Some (ta_objects s !! p) →
  (∀ s', view_of s' = in_obj (λ q, drop_object p (unlist p q)) (view_of s) → Q tt s') →
  pwp (cleanup_volatile_obj_ref p) s Q.
Proof.
  intros [o E] HQ. unfold cleanup_volatile_obj_ref, list_remove, free_object. do 5 s_step. apply HQ.
  unfold view_of, skel_of, oskel_of, in_obj, drop_object, unlist. cbn.
  rewrite <-!list_fmap_compose, <-!map_fmap_compose. done.
Qed.

Lemma put_slots h db : max_ptrs db < 2 ^ 29 → ∀ h',
  slots (handle_put h db).2 h' = slots db h' ∨ slots (handle_put h db).2 h' = None ∨
  slots (handle_put h db).2 h' = Some INVALID_HANDLE_PTR.
Proof.
  intros C h'. destruct (decide (h = 0)) as [->|N]; [by left|]. destruct (put_dropped h db N C) as [G R _].
  destruct (decide (h' = h)) as [->|]; [auto|]. left. by apply R.
Qed.

Lemma max_put h db : max_ptrs db < 2 ^ 29 → max_ptrs (handle_put h db).2 < 2 ^ 29.
Proof. intros C. destruct (decide (h = 0)) as [->|N]; [done|]. by destruct (put_dropped h db N C). Qed.

(** No handle is left once the one that is found has been put back. *)
Lemma no_handle_left e n q c db p : obj_ok e n q → q_dbs q !! c = Some db → storable p →
  ∀ h, h ≠ 0 → slots (handle_put (handle_lookup_handle db p) db).2 h ≠ Some p.
Proof.
  intros K E St h Nh S. pose proof (oo_cap _ _ _ K _ _ E) as C. pose proof (find_handle db p St) as F. cbv zeta in F.
  destruct (put_slots (handle_lookup_handle db p) db C h) as [X|[X|X]]; rewrite S in X; [|done|injection X as ->; by destruct St].
  case_decide as D; [by destruct (F h Nh)|]. destruct (put_dropped _ db D C) as [G R _].
  assert (h = handle_lookup_handle db p) as -> by (eapply (oo_once _ _ _ K); [exact E|done|done|by symmetry|done|apply St]).
  congruence.
Qed.

Definition without_object (p c : Z) (db : handle_db) (q : oskel) : oskel := drop_object p (unlist p (put_db c db q)).

(** An object that only this client has a handle of. *)
Lemma obj_ok_destroyed n q c db p : obj_ok 0 n q → q_dbs q !! c = Some db → addr_ok n p →
  (∀ c' db' h, q_dbs q !! c' = Some db' → h ≠ 0 → slots db' h = Some p → c' = c) →
  obj_ok 0 n (without_object p c (handle_put (handle_lookup_handle db p) db).2 q).
Proof.
  intros K E Ha Only. pose proof (oo_cap _ _ _ K _ _ E) as C. pose proof (oo_next _ _ _ K) as [_ Hn].
  pose proof (addr_storable _ _ Ha Hn) as St.
  apply (obj_ok_gone p).
  - apply obj_ok_free, (obj_ok_unlist 0); [|by left]. apply (obj_ok_drop_handle 0 n c db); [done|done|by apply max_put|].
    intros h. by apply put_slots.
  - apply lookup_delete_eq.
  - intros c' db' h. cbn. rewrite lookup_insert_Some. intros [[<- <-]|[N E']] Nh.
    + by eapply no_handle_left.
    + intros S. apply N. symmetry. by eapply Only.
Qed.

Lemma destroy_volatile_spec a p s x (Q : unit → ta → Prop) : ta_inv 0 s → ta_sessions s !! a = Some x →
  is_Some (ta_objects s !! p) →
  (∀ c' db' h, q_dbs (oskel_of s) !! c' = Some db' → h ≠ 0 → slots db' h = Some p → c' = s_client x) →
  (∀ s' c, ta_clients s !! s_client x = Some c → ta_inv 0 s' →
     view_of s' = in_obj (without_object p (s_client x) (handle_put (handle_lookup_handle (object_handle_db c) p) (object_handle_db c)).2) (view_of s) → Q tt s') →
  pwp (h ← pkcs11_object2handle p a; _ ← put_object_handle a h; cleanup_volatile_obj_ref p) s Q.
Proof.
  intros I Ex [o Eo] Only HQ. destruct (session_client _ _ _ _ I Ex) as [c Ec].
  s_step. eapply pwp_object2handle; [done..|]. s_step. eapply pwp_put_object_handle; [done..|].
  apply cleanup_volatile_spec; [by exists o|]. intros s' V. rewrite (view_client_db _ _ _ _ Ec) in V.
  assert (view_of s' = in_obj (without_object p (s_client x) (handle_put (handle_lookup_handle (object_handle_db c) p) (object_handle_db c)).2) (view_of s)) as V'
    by exact V.
  eapply HQ; [exact Ec| |exact V']. unfold ta_inv. rewrite V'. destruct I as [K O P]. constructor; [done| |done]. cbn.
  apply obj_ok_destroyed; [done|by apply db_in|by eapply (oo_addr _ _ _ O)|done].
Qed.

(** The handles of a session's object are its client's. *)
Lemma session_object_handles s a x p : ta_inv 0 s → ta_sessions s !! a = Some x → p ∈ s_object_list x →
  is_Some (ta_objects s !! p) ∧
  ∀ c' db' h, q_dbs (oskel_of s) !! c' = Some db' → h ≠ 0 → slots db' h = Some p → c' = s_client x.
Proof.
  intros I Ex Hp. pose proof (vo_obj _ _ I) as O. cbn in O. pose proof (session_objs_in _ _ _ Ex) as Es.
  destruct (oo_sess _ _ _ O _ _ _ Es) as [_ Im]. destruct (Im p Hp) as (_ & o & Eo & _ & _). split; [by exists o|].
  intros c' db' h E Nh S. pose proof (oo_addr _ _ _ O _ _ Eo) as Ha.
  destruct (addr_storable _ _ Ha (proj2 (oo_next _ _ _ O))) as [N0 Ni].
  destruct (oo_db _ _ _ O _ _ _ _ E Nh S Ni N0) as [_ Cl]. symmetry. by eapply Cl.
Qed.

Lemma destroy_session_object_spec a a' p s x y (Q : unit → ta → Prop) : ta_inv 0 s →
  ta_sessions s !! a = Some x → ta_sessions s !! a' = Some y → s_client y = s_client x → p ∈ s_object_list y →
  (∀ s' c, ta_clients s !! s_client x = Some c → ta_inv 0 s' →
     view_of s' = in_obj (without_object p (s_client x) (handle_put (handle_lookup_handle (object_handle_db c) p) (object_handle_db c)).2) (view_of s) → Q tt s') →
  pwp (destroy_object a p true) s Q.
Proof.
  intros I Ex Ey C Hp HQ. destruct (session_object_handles _ _ _ _ I Ey Hp) as [Hs Only].
  apply destroy_volatile_spec with x; [done|done|done| |done]. intros. rewrite <-C. by eapply Only.
Qed.

(** *** Persistent objects *)

(** A call of the system that only returns. *)
Lemma pwp_sys {A} (m : St ta_heap A) s (Q : A → ta → Prop) :
  (∀ h, wp m h (λ _ _, True)) → (∀ a h, Q a (set_h h s)) → pwp (on_heap m) s Q.
Proof. intros W HQ. apply (pwp_on_heap _ _ (λ _, True)); [apply W|]. auto. Qed.

Lemma unregister_spec t u s (Q : Z → ta → Prop) : is_Some (ta_tokens s !! t) →
  (∀ rc s', view_of s' = view_of s → ta_objects s' = ta_objects s → Q rc s') →
  pwp (unregister_persistent_object t u) s Q.
Proof.
  intros [k Ek] HQ. unfold unregister_persistent_object. destruct u as [u|]; [|s_step; by apply HQ]. do 2 s_step.
  destruct (get_persistent_obj_idx k (Some u)) as [idx|]; [|s_step; by apply HQ].
  s_step. apply pwp_sys; [intros; apply ta_alloc_ok|]. intros ok h1. destruct (negb ok); [s_step; by apply HQ|].
  s_step. apply pwp_sys; [intros; apply open_db_file_returns|]. intros r1 h2. destruct (negb (r1 =? 0)); [s_step; by apply HQ|].
  s_step. apply pwp_sys; [intros; apply seek_db_objs_returns|]. intros r2 h3. destruct (negb (r2 =? 0)); [s_step; by apply HQ|].
  s_step. apply pwp_sys; [intros; apply write_db_objs_returns|]. intros r3 h4. s_step.
  eapply pwp_change_token; [exact Ek|]. s_step. apply HQ; [|done].
  by apply (view_token_same (set_h h4 (set_h h3 (set_h h2 (set_h h1 s)))) t k).
Qed.

Lemma same_tokens s s' t : view_of s' = view_of s → is_Some (ta_tokens s !! t) → is_Some (ta_tokens s' !! t).
Proof.
  intros V L%lookup_lt_is_Some. apply lookup_lt_is_Some.
  assert (length (v_mains (view_of s')) = length (v_mains (view_of s))) as E by by rewrite V.
  cbn in E. rewrite !length_fmap in E. lia.
Qed.

Lemma try_unregister_spec t u s (Q : unit → ta → Prop) : is_Some (ta_tokens s !! t) →
  (∀ s', view_of s' = view_of s → ta_objects s' = ta_objects s → Q tt s') →
  pwp (try_unregister t u) s Q.
Proof.
  intros Et HQ. unfold try_unregister. s_step. apply unregister_spec; [done|]. intros rc s1 V1 O1.
  destruct (rc =? 0); [s_step; by apply HQ|]. s_step. apply unregister_spec; [by eapply same_tokens|]. intros rc2 s2 V2 O2.
  destruct (rc2 =? 0); s_step. apply HQ; congruence.
Qed.

Lemma drop_put p o q : drop_object p (unlist p (put_object p o q)) = drop_object p (unlist p q).
Proof. unfold drop_object, unlist, put_object. cbn. by rewrite delete_insert_eq. Qed.

Lemma cleanup_persistent_spec p t s (Q : unit → ta → Prop) : is_Some (ta_objects s !! p) → is_Some (ta_tokens s !! t) →
  (∀ s', view_of s' = in_obj (λ q, drop_object p (unlist p q)) (view_of s) → Q tt s') →
  pwp (cleanup_persistent_object p t) s Q.
Proof.
  intros [o Eo] [k Ek] HQ. unfold cleanup_persistent_object. do 3 s_step.
  apply pwp_sys; [intros; apply open_persistent_meta_returns|]. intros res h1. s_step.
  assert (∀ h2, pwp (_ ← destroy_object_uuid t p; cleanup_volatile_obj_ref p) (set_h h2 s) Q) as Rest.
  { intros h2. s_step. unfold destroy_object_uuid. do 5 s_step. apply pwp_assert. intros _.
    eapply pwp_change_object; [exact Eo|]. apply cleanup_volatile_spec; [cbn; rewrite lookup_insert_eq; by eexists|].
    intros s' V. apply HQ. rewrite V, view_object, view_set_h. unfold in_obj. cbn. by rewrite drop_put. }
  destruct (res =? 0).
  - apply pwp_sys; [intros; apply close_and_delete_returns|]. intros ? h2. apply Rest.
  - s_step. apply Rest.
Qed.

(** ** Invalidating *)

Definition with_dbs (m : gmap Z handle_db) (q : oskel) : oskel := mk_oskel (q_tokens q) m (q_sessions q) (q_objects q).

Lemma pwp_foreach {A} (l : list A) (f : A → SM unit) (I : list A → ta → Prop) s (Q : unit → ta → Prop) :
  I l s → (∀ x l s, I (x :: l) s → pwp (f x) s (λ _ s', I l s')) → (∀ s, I [] s → Q tt s) → pwp (foreach l f) s Q.
Proof.
  intros Hl Hf HQ. revert s Hl. induction l as [|x l IH]; intros s Hl; cbn [foreach].
  - s_step. by apply HQ.
  - s_step. eapply pwp_mono; [by apply Hf|]. intros [] s' I'. by apply IH.
Qed.

Definition no_slot (p : Z) (db : handle_db) : Prop := ∀ h, h ≠ 0 → slots db h ≠ Some p.

(** What the loop has done when the clients [rest] are left. *)
Record invalidating (p n : Z) (v0 : view) (rest : list Z) (s : ta) : Prop := {
  iv_view : ∃ m, view_of s = in_obj (with_dbs m) v0;
  iv_ok : obj_ok p n (oskel_of s);
  iv_done : ∀ c db, q_dbs (oskel_of s) !! c = Some db → c ∉ rest → no_slot p db;
  iv_live : ∀ c, c ∈ rest → is_Some (ta_clients s !! c);
}.

Lemma invalidate_slots h db db' p : max_ptrs db < 2 ^ 29 → h ≠ 0 → slots db h = Some p → handle_invalidate h db = Done db' →
  max_ptrs db' < 2 ^ 29 ∧
  ∀ h', slots db' h' = slots db h' ∨ slots db' h' = None ∨ slots db' h' = Some INVALID_HANDLE_PTR.
Proof.
  intros C Nh S E. destruct (handle_invalidate_spec db h p Nh S) as (db2 & E2 & S2 & _ & R). rewrite E in E2.
  injection E2 as <-. split.
  - unfold handle_invalidate in E. repeat case_match; simplify_eq; [|done]. unfold max_ptrs. cbn [ptrs]. by rewrite length_insert.
  - intros h'. destruct (decide (h' = h)) as [->|N]; [auto|]. left. by apply R.
Qed.

Lemma invalidate_all_spec p n s (Q : unit → ta → Prop) : skel_ok (ta_next s) (skel_of s) → obj_ok p n (oskel_of s) → storable p →
  ta_objects s !! p = None →
  (∀ s' m, view_of s' = in_obj (with_dbs m) (view_of s) → obj_ok 0 n (oskel_of s') → Q tt s') →
  pwp (token_invalidate_object_handles p) s Q.
Proof.
  intros K O St Gone HQ. unfold token_invalidate_object_handles. do 2 s_step.
  assert (∀ c, c ∈ ta_client_list s ↔ is_Some (ta_clients s !! c)) as Cl.
  { intros c. pose proof (sk_list _ _ K c) as L. cbn in L. rewrite L, lookup_fmap. by rewrite fmap_is_Some. }
  apply (pwp_foreach _ _ (invalidating p n (view_of s))).
  - constructor; [by exists (q_dbs (oskel_of s))|done| |intros c; apply Cl].
    intros c db E N. destruct N. apply Cl. cbn in E. rewrite lookup_fmap in E. apply fmap_Some in E as (? & E & _). by eexists.
  - intros c rest s1 [[m Vm] O1 D1 L1]. destruct (L1 c) as [cl Ec]; [by left|]. s_step. s_step.
    pose proof (db_in _ _ _ Ec) as Eq. pose proof (oo_cap _ _ _ O1 _ _ Eq) as C.
    pose proof (find_handle (object_handle_db cl) p St) as F. cbv zeta in F.
    assert (∀ c', c' ∈ rest → is_Some (ta_clients s1 !! c')) as L2 by (intros c' ?; apply L1; by right).
    destruct (Z.eqb_spec (handle_lookup_handle (object_handle_db cl) p) 0) as [Z0|Nz].
    + rewrite decide_True in F by done. s_step. constructor; [by exists m|done| |done]. intros c' db E N.
      destruct (decide (c' = c)) as [->|Nc]; [rewrite Eq in E; by simplify_eq|]. apply (D1 c' db); [done|].
      by intros [->|?]%elem_of_cons.
    + rewrite decide_False in F by done. set (h := handle_lookup_handle _ _) in *.
      destruct (handle_invalidate_spec (object_handle_db cl) h p Nz F) as (db' & E' & S' & _ & R').
      destruct (invalidate_slots _ _ _ _ C Nz F E') as [C' Sl].
      s_step. unfold pwp at 1, run. rewrite E'. cbn. eapply pwp_change_client; [exact Ec|].
      assert (view_of (set_clients (<[c:=with_object_db db' cl]> (ta_clients s1)) s1) =
        in_obj (with_dbs (<[c:=db']> m)) (view_of s)) as V2.
      { rewrite (view_client_db _ _ _ _ Ec), Vm. done. }
      constructor.
      * by exists (<[c:=db']> m).
      * change (obj_ok p n (v_obj (view_of (set_clients (<[c:=with_object_db db' cl]> (ta_clients s1)) s1)))).
        rewrite (view_client_db _ _ _ _ Ec). by eapply obj_ok_drop_handle.
      * intros c' db E N. cbn in E. rewrite fmap_insert, lookup_insert_Some in E. destruct E as [[<- <-]|[Nc E]].
        -- intros h' Nh' S2. cbn [object_handle_db with_object_db] in S2. destruct (decide (h' = h)) as [->|Nhh].
           { rewrite S' in S2. injection S2 as <-. by destruct St. }
           rewrite R' in S2 by done. apply Nhh. eapply (oo_once _ _ _ O1); [exact Eq|done|done|done|done|apply St].
        -- apply (D1 c' db); [done|]. by intros [->|?]%elem_of_cons.
      * intros c' Hc. cbn. rewrite lookup_insert_is_Some. destruct (decide (c = c')); [by left|right]. split; [done|]. by apply L2.
  - intros s1 [[m Vm] O1 D1 _]. eapply HQ; [exact Vm|]. apply (obj_ok_gone p); [done| |].
    + assert (q_objects (v_obj (view_of s1)) = ta_objects s) as E by by rewrite Vm.
      cbn in E. cbn. by rewrite E.
    + intros c db h E Nh. apply (D1 c db); [done|apply not_elem_of_nil|done].
Qed.

(** ** Looking up handles *)

Lemma pwp_handle2session h c s (Q : Z → ta → Prop) : ta_inv 0 s → is_Some (ta_clients s !! c) → Q 0 s →
  (∀ a x, a ≠ 0 → ta_sessions s !! a = Some x → s_client x = c → s_handle x = h → Q a s) → pwp (pkcs11_handle2session h c) s Q.
Proof.
  intros I [cl Ec] HQ0 HQ. unfold pkcs11_handle2session. do 3 s_step. destruct (decide (handle_lookup (session_handle_db cl) h = 0)) as [->|N]; [done|].
  pose proof (vo_skel _ _ I) as K. pose proof (client_in _ _ _ Ec) as E.
  destruct (lookup_slots _ _ _ (sk_cap _ _ K _ _ E) eq_refl N) as (Nh & S & _).
  apply (sk_db _ _ K _ _ E) in S as (y & Ey & C & Hh); [|done]. apply view_session in Ey as (x & Ex & <- & _).
  by eapply HQ.
Qed.

(** The client of [x] has a handle of the object. *)
Definition has_handle s (x : pkcs11_session) (p : Z) : Prop :=
  ∃ c h, ta_clients s !! s_client x = Some c ∧ h ≠ 0 ∧ slots (object_handle_db c) h = Some p.

Lemma handle_object s x p : ta_inv 0 s → has_handle s x p → p ≠ INVALID_HANDLE_PTR →
  ∃ o, ta_objects s !! p = Some o ∧ loaded o ∧
    ∀ c' db' h, o_token o = None → q_dbs (oskel_of s) !! c' = Some db' → h ≠ 0 → slots db' h = Some p → c' = s_client x.
Proof.
  intros I (c & h & Ec & Nh & S) Ni. pose proof (vo_obj _ _ I) as O. pose proof (db_in _ _ _ Ec) as E.
  assert (p ≠ 0) as N0 by (apply slots_lookup in S; naive_solver).
  destruct (oo_db _ _ _ O _ _ _ _ E Nh S Ni N0) as [(o & Eo & L) Cl]. exists o. split_and!; [done|done|].
  intros c' db' h' T E' Nh' S'. destruct (oo_db _ _ _ O _ _ _ _ E' Nh' S' Ni N0) as [_ Cl'].
  destruct (oo_home _ _ _ O _ _ Eo N0) as [(_ & a & c2 & l & Es & Hp)|(t & l & T' & _)]; [|congruence].
  rewrite <-(Cl _ _ _ Es Hp). by rewrite (Cl' _ _ _ Es Hp).
Qed.

Lemma pwp_handle2object h a s x (Q : Z → ta → Prop) : ta_inv 0 s → ta_sessions s !! a = Some x → Q 0 s →
  (∀ p o, p ≠ 0 → ta_objects s !! p = Some o → loaded o → has_handle s x p →
     o_token o = None ∨ o_token o = Some (s_token x) → Q p s) →
  pwp (pkcs11_handle2object h a) s Q.
Proof.
  intros I Ex HQ0 HQ. destruct (session_client _ _ _ _ I Ex) as [c Ec]. unfold pkcs11_handle2object.
  s_step. eapply pwp_object_db; [done..|]. cbv zeta.
  destruct (Z.eqb_spec (handle_lookup (object_handle_db c) h) 0) as [_|N]; [by s_step|].
  destruct (lookup_slots _ _ _ (oo_cap _ _ _ (vo_obj _ _ I) _ _ (db_in _ _ _ Ec)) eq_refl N) as (Nh & S & Ni).
  set (p := handle_lookup _ _) in *. assert (has_handle s x p) as Hh by (by exists c, h).
  destruct (handle_object _ _ _ I Hh Ni) as (o & Eo & L & _). do 2 s_step. destruct (o_token o) as [t|] eqn:T.
  - do 3 s_step. case_bool_decide as D; [subst|done]. eapply HQ; [done|done|done|done|]. by right.
  - s_step. eapply HQ; [done|done|done|done|]. by left.
Qed.

(** ** Destroying an object by its handle *)

Lemma destroy_object_spec a p s x o (Q : unit → ta → Prop) : ta_inv 0 s → ta_sessions s !! a = Some x →
  ta_objects s !! p = Some o → loaded o → has_handle s x p → o_token o = None ∨ o_token o = Some (s_token x) →
  (∀ s', ta_inv 0 s' → skel_of s' = skel_of s → Q tt s') →
  pwp (destroy_object a p false) s Q.
Proof.
  intros I Ex Eo L Hh T HQ. pose proof (vo_obj _ _ I) as O. pose proof (vo_skel _ _ I) as K.
  pose proof (oo_addr _ _ _ O _ _ Eo) as Ha. pose proof (addr_storable _ _ Ha (proj2 (oo_next _ _ _ O))) as St.
  destruct (session_client _ _ _ _ I Ex) as [c Ec]. pose proof (session_token _ _ _ _ I Ex) as Et.
  unfold destroy_object. s_step. eapply pwp_deref; [exact Eo|]. s_step. apply pwp_object_bool; [done|]. intros tok Htok.
  destruct L as (b & Eb & W & Tok). destruct tok.
  - s_step. apply pwp_assert. intros _. do 2 s_step. s_step.
    apply try_unregister_spec; [done|]. intros s1 V1 O1.
    assert (∃ x1, ta_sessions s1 !! a = Some x1 ∧ s_client x1 = s_client x) as (x1 & Ex1 & C1).
    { destruct (view_session s1 a (ss_of x)) as (x1 & E1 & E2 & _).
      - change (k_sessions (v_skel (view_of s1)) !! a = Some (ss_of x)). rewrite V1. by apply session_in.
      - exists x1. split; [done|]. by injection E2. }
    assert (∃ c1, ta_clients s1 !! s_client x1 = Some c1 ∧ q_dbs (oskel_of s1) !! s_client x1 = Some (object_handle_db c1)) as (c1 & Ec1 & Ed1).
    { rewrite C1. destruct (view_client s1 (s_client x) (sc_of c)) as (c1 & E1 & _ & E2); [|by exists c1].
      change (k_clients (v_skel (view_of s1)) !! s_client x = Some (sc_of c)). rewrite V1. by apply client_in. }
    assert (I1 : ta_inv 0 s1) by (unfold ta_inv; by rewrite V1).
    s_step. eapply pwp_object2handle; [done..|]. s_step. eapply pwp_put_object_handle; [done..|]. s_step.
    set (db' := (handle_put _ _).2). apply cleanup_persistent_spec; [cbn; rewrite O1; by eexists|cbn; by eapply (same_tokens s s1)|].
    intros s2 V2. rewrite (view_client_db _ _ _ _ Ec1) in V2.
    assert (obj_ok p (ta_next s) (oskel_of s2)) as O2.
    { change (obj_ok p (ta_next s) (v_obj (view_of s2))). rewrite V2. apply obj_ok_free, (obj_ok_unlist 0); [|by left].
      pose proof (vo_obj _ _ I1) as O1'. eapply (obj_ok_drop_handle 0 _ _ (object_handle_db c1)); [change (obj_ok 0 (v_next (view_of s)) (v_obj (view_of s1))); rewrite <-V1; exact O1'|done| |].
      - apply max_put. by eapply (oo_cap _ _ _ O1').
      - intros h. apply put_slots. by eapply (oo_cap _ _ _ O1'). }
    assert (K2 : skel_of s2 = skel_of s).
    { change (v_skel (view_of s2) = v_skel (view_of s)). by rewrite V2, V1. }
    assert (N2 : ta_next s2 = ta_next s).
    { change (v_next (view_of s2) = v_next (view_of s)). by rewrite V2, V1. }
    assert (D2 : t_db_main <$> ta_tokens s2 = t_db_main <$> ta_tokens s).
    { change (v_mains (view_of s2) = v_mains (view_of s)). by rewrite V2, V1. }
    eapply (invalidate_all_spec p (ta_next s)); [by rewrite K2, N2|done|done| |].
    + change (q_objects (v_obj (view_of s2)) !! p = None). rewrite V2. apply lookup_delete_eq.
    + intros s3 m V3 O3. apply HQ.
      * unfold ta_inv. constructor.
        -- rewrite V3. cbn. by rewrite K2, N2.
        -- assert (v_next (view_of s3) = ta_next s) as -> by (rewrite V3; exact N2). exact O3.
        -- rewrite V3. cbn. rewrite D2. apply I.
      * change (v_skel (view_of s3) = v_skel (view_of s)). rewrite V3. exact K2.
  - assert (o_token o = None) as Tn.
    { destruct (o_token o) as [t|]; [|done]. assert (false = true); [|done]. apply Htok.
      intros b' Eb'. assert (b' = b) as -> by congruence. by apply Tok. }
    eapply destroy_volatile_spec; [done|done|by exists o| |].
    + intros c' db' h E Nh S. destruct (handle_object _ _ _ I Hh (proj2 St)) as (o' & Eo' & _ & Only).
      assert (o' = o) as -> by congruence. by eapply Only.
    + intros s' c' _ I' V'. apply HQ; [done|].
      change (v_skel (view_of s') = v_skel (view_of s)). by rewrite V'.
Qed.

(** ** Creating *)

(** What requests on objects do: sessions and clients stay. *)
Record kept s s' : Prop := { kp_inv : ta_inv 0 s'; kp_skel : skel_of s' = skel_of s }.

Lemma kept_view s0 s v : ta_inv 0 s → view_of s = v → v_skel v = skel_of s0 → kept s0 s.
Proof. intros I V K. constructor; [done|]. change (v_skel (view_of s) = skel_of s0). by rewrite V. Qed.

(** The object [p] is being made for the session [a]: all its handles are [h] of
    the client [c]. *)
Record making (p a c : Z) (t : nat) (h : Z) s0 s : Prop := {
  mg_inv : ta_inv p s;
  mg_skel : skel_of s = skel_of s0;
  mg_live : is_Some (ta_objects s !! p);
  mg_session : ∃ x, ta_sessions s !! a = Some x ∧ s_client x = c ∧ s_token x = t;
  mg_handles : ∀ c' db h', q_dbs (oskel_of s) !! c' = Some db → h' ≠ 0 → slots db h' = Some p → c' = c ∧ h' = h;
}.

Lemma making_set_h p a c t h s0 s hh : making p a c t h s0 s → making p a c t h s0 (set_h hh s).
Proof. by intros []. Qed.

Lemma making_object p a c t h s0 s o : making p a c t h s0 s → making p a c t h s0 (set_objects (<[p:=o]> (ta_objects s)) s).
Proof.
  intros [I K L X Hs]. constructor; try done.
  - destruct I as [K' O P]. constructor; [done| |done]. exact (obj_ok_exempt p _ o _ O L).
  - cbn. rewrite lookup_insert_eq. by eexists.
Qed.

Lemma making_storable p a c t h s0 s : making p a c t h s0 s → storable p.
Proof.
  intros [I _ [o Eo] _ _]. pose proof (vo_obj _ _ I) as O. eapply addr_storable; [by eapply (oo_addr _ _ _ O)|apply (oo_next _ _ _ O)].
Qed.

Lemma create_object_err_spec p a c t h s0 s head rc (Q : Z * Z → ta → Prop) : making p a c t h s0 s → well_formed head → rc ≠ 0 →
  (∀ s', kept s0 s' → Q (rc, 0) s') →
  pwp (create_object_err a p head h rc) s Q.
Proof.
  intros M W Nrc HQ. pose proof (making_storable _ _ _ _ _ _ _ M) as St. unfold create_object_err.
  destruct (mg_live _ _ _ _ _ _ _ M) as [o Eo]. s_step. eapply pwp_change_object; [exact Eo|].
  apply (making_object _ _ _ _ _ _ _ (with_attributes None o)) in M. revert M. set (s1 := set_objects _ s). intros M.
  destruct M as [I K L (x & Ex & Cx & Tx) Hs]. pose proof (vo_skel _ _ I) as K1. pose proof (vo_obj _ _ I) as O1.
  assert (∃ cl, ta_clients s1 !! s_client x = Some cl) as [cl Ec] by (by eapply session_client).
  pose proof (session_token _ _ _ _ I Ex) as Et. pose proof (db_in _ _ _ Ec) as Ed. pose proof (oo_cap _ _ _ O1 _ _ Ed) as C.
  s_step. eapply pwp_put_object_handle; [done..|]. set (db' := (handle_put _ _).2). set (s2 := set_clients _ s1).
  assert (V2 : view_of s2 = in_obj (put_db (s_client x) db') (view_of s1)) by by apply view_client_db.
  s_step. apply pwp_get_bool; [done|]. intros tok _. do 2 s_step. s_step.
  assert (∀ s', view_of s' = in_obj (λ q, drop_object p (unlist p q)) (view_of s2) → Q (rc, 0) s') as Fin.
  { intros s' V'. apply HQ. rewrite V2 in V'. assert (ta_inv 0 s') as I'.
    - unfold ta_inv. rewrite V'. constructor; [apply I| |apply I]. apply (obj_ok_gone p).
      + apply obj_ok_free, (obj_ok_unlist p); [|by right].
        eapply obj_ok_drop_handle; [apply I|done|by apply max_put|by apply put_slots].
      + apply lookup_delete_eq.
      + intros c' db h' E' Nh S. cbn in E'. rewrite lookup_insert_Some in E'. destruct E' as [[<- <-]|[Nc E']].
        * destruct (put_slots h (object_handle_db cl) C h') as [X|[X|X]]; unfold db' in S; rewrite S in X; [|done|injection X as ->; by destruct St].
          destruct (Hs _ _ h' Ed Nh ltac:(by symmetry)) as [_ ->].
          destruct (put_dropped h (object_handle_db cl) Nh C) as [G _ _]. congruence.
        * destruct (Hs _ _ h' E' Nh S) as [-> _]. by rewrite Cx in Nc.
    - eapply kept_view; [done|exact V'|]. exact K. }
  destruct tok.
  - apply cleanup_persistent_spec; [done|done|]. intros s' V'. s_step. by apply Fin.
  - apply cleanup_volatile_spec; [done|]. intros s' V'. s_step. by apply Fin.
Qed.

(** The object is in the list of its session or its token. *)
Lemma made_in_session p a c t h s0 s o head : making p a c t h s0 s → ta_objects s !! p = Some o →
  o_token o = None → o_attributes o = Some head → well_formed head → ¬ attr_true PKCS11_CKA_TOKEN head →
  ∃ x, ta_sessions s !! a = Some x ∧ kept s0 (set_sessions (<[a:=with_objects (cons p) x]> (ta_sessions s)) s).
Proof.
  intros [I K L (x & Ex & Cx & Tx) Hs] Eo T A W Nt. exists x. split; [done|].
  pose proof (view_session_objects s a x (cons p) Ex) as V.
  eapply kept_view; [|exact V|exact K]. unfold ta_inv. rewrite V. constructor; [apply I| |apply I].
  eapply (obj_ok_to_session _ a p o); [apply I|done|done| |by apply session_objs_in|].
  - exists head. rewrite T. split; [done|]. split; [done|]. split; [done|by intros [? ?]].
  - intros c' db h' E Nh S. rewrite Cx. by destruct (Hs _ _ _ E Nh S).
Qed.

Lemma made_in_token p a c t h s0 s o k head : making p a c t h s0 s → ta_objects s !! p = Some o →
  o_token o = Some t → o_attributes o = Some head → well_formed head → attr_true PKCS11_CKA_TOKEN head →
  ta_tokens s !! t = Some k →
  kept s0 (set_tokens (<[t:=with_token_objects (cons p) k]> (ta_tokens s)) s).
Proof.
  intros [I K L X Hs] Eo T A W Tr Ek. pose proof (view_token_objects s t k (cons p) Ek) as V.
  eapply kept_view; [|exact V|exact K]. unfold ta_inv. rewrite V. constructor; [apply I| |apply I].
  eapply obj_ok_to_token; [apply I|done|done| |].
  - exists head. rewrite T. split; [done|]. split; [done|]. split; [by intros _; eexists|done].
  - destruct (token_in s t k Ek) as [_ E]. by eexists.
Qed.

Lemma making_view p a c t h s0 s s' : view_of s' = view_of s → making p a c t h s0 s → making p a c t h s0 s'.
Proof.
  intros V [I K L (x & Ex & Cx & Tx) Hs].
  assert (oskel_of s' = oskel_of s) as O by (change (v_obj (view_of s') = v_obj (view_of s)); by rewrite V).
  assert (skel_of s' = skel_of s) as Sk by (change (v_skel (view_of s') = v_skel (view_of s)); by rewrite V).
  constructor.
  - unfold ta_inv. by rewrite V.
  - by rewrite Sk.
  - change (is_Some (q_objects (oskel_of s') !! p)). by rewrite O.
  - destruct (view_session s' a (ss_of x)) as (x' & Ex' & S' & _); [rewrite Sk; by apply session_in|].
    exists x'. injection S' as C1 T1 _ _. split_and!; [done|congruence|congruence].
  - by rewrite O.
Qed.

Lemma register_spec t u s (Q : Z → ta → Prop) : is_Some (ta_tokens s !! t) →
  (∀ rc s', view_of s' = view_of s → (rc = 0 → True) → Q rc s') →
  pwp (register_persistent_object t u) s Q.
Proof.
  intros [k Ek] HQ. unfold register_persistent_object. do 2 s_step. case_bool_decide; [s_step|]. cbv zeta.
  s_step. apply pwp_sys; [intros; apply ta_alloc_ok|]. intros ok h1. destruct (negb ok); [s_step; by apply HQ|].
  s_step. apply pwp_sys; [intros; apply open_db_file_returns|]. intros r1 h2. destruct (negb (r1 =? 0)); [s_step; by apply HQ|].
  s_step. apply pwp_sys; [intros; apply truncate_db_objs_returns|]. intros r2 h3. destruct (negb (r2 =? 0)); [s_step; by apply HQ|].
  s_step. apply pwp_sys; [intros; apply seek_db_objs_returns|]. intros r3 h4. destruct (negb (r3 =? 0)); [s_step; by apply HQ|].
  s_step. apply pwp_sys; [intros; apply write_db_objs_returns|]. intros r4 h5. destruct (negb (r4 =? 0)); [s_step; by apply HQ|].
  s_step. eapply pwp_change_token; [exact Ek|]. s_step. apply HQ; [|done].
  by apply (view_token_same (set_h h5 (set_h h4 (set_h h3 (set_h h2 (set_h h1 s))))) t k).
Qed.

Lemma pwp_new_address s (Q : option Z → ta → Prop) :
  (∀ h, Q None (set_h h s)) → (∀ h, ta_next s < ADDRESS_END → Q (Some (ta_next s)) (set_next (ta_next s + 1) (set_h h s))) →
  pwp new_address s Q.
Proof.
  intros HN HS. unfold new_address. s_step. apply pwp_sys; [intros; apply alloc_struct_returns|]. intros ok h. do 2 s_step. cbn.
  destruct (ok && (ta_next s <? ADDRESS_END)) eqn:E; [|by s_step]. apply andb_true_iff in E as [_ L%Z.ltb_lt].
  do 3 s_step. by apply HS.
Qed.

(** No handle stands for an address that was not used yet. *)
Lemma no_handle_of_fresh s c db h : ta_inv 0 s → q_dbs (oskel_of s) !! c = Some db → h ≠ 0 → slots db h ≠ Some (ta_next s).
Proof.
  intros I E Nh S. pose proof (vo_obj _ _ I) as O. pose proof (oo_next _ _ _ O) as L. cbn in L.
  destruct (oo_db _ _ _ O _ _ _ _ E Nh S) as [(o & Eo & _) _]; [unfold INVALID_HANDLE_PTR, ADDRESS_END in *; lia|lia|].
  destruct (oo_addr _ _ _ O _ _ Eo) as [_ B]. cbn in B. lia.
Qed.

(** The new object, still without a handle or with its first one. *)
Lemma making_start s h0 a x cl head : ta_inv 0 s → ta_sessions s !! a = Some x → ta_clients s !! s_client x = Some cl →
  ta_next s < ADDRESS_END →
  let p := ta_next s in
  let s1 := set_objects (<[p:=mk_object (Some head) None None]> (ta_objects s)) (set_next (p + 1) (set_h h0 s)) in
  (∀ h1, making p a (s_client x) (s_token x) 0 s (set_h h1 s1)) ∧
  ∀ h1 h db', fresh_handle h p (object_handle_db cl) db' →
    making p a (s_client x) (s_token x) h s
      (set_clients (<[s_client x:=with_object_db db' cl]> (ta_clients s)) (set_h h1 s1)).
Proof.
  intros I Ex Ec Lt p s1. pose proof (vo_obj _ _ I) as O. pose proof (vo_skel _ _ I) as K.
  assert (I1 : ∀ h1, ta_inv p (set_h h1 s1)).
  { intros h1. constructor; [apply (skel_ok_next _ _ _ K); cbn; lia|exact (obj_ok_new _ _ _ O Lt)|apply I]. }
  split.
  - intros h1. constructor; [apply I1|done|cbn; rewrite lookup_insert_eq; by eexists|by exists x|].
    intros c' db h' E Nh S. by destruct (no_handle_of_fresh s c' db h' I E Nh).
  - intros h1 h db' F. set (s2 := set_clients _ _).
    assert (V : view_of s2 = in_obj (put_db (s_client x) db') (view_of (set_h h1 s1))).
    { exact (view_client_db (set_h h1 s1) (s_client x) cl db' Ec). }
    constructor.
    + unfold ta_inv. rewrite V. constructor; [apply I1| |apply I1]. eapply obj_ok_new_handle; [apply I1|by apply db_in|exact F| |done].
      intros h' Nh S. eapply no_handle_of_fresh; [exact I|by apply db_in|exact Nh|exact S].
    + change (v_skel (view_of s2) = skel_of s). by rewrite V.
    + cbn. rewrite lookup_insert_eq. by eexists.
    + by exists x.
    + intros c' db2 h' E Nh S. assert (E2 : q_dbs (v_obj (view_of s2)) !! c' = Some db2) by exact E. rewrite V in E2.
      cbn in E2. rewrite lookup_insert_Some in E2. destruct E2 as [[<- <-]|[Nc E2]].
      * split; [done|]. destruct (decide (h' = h)) as [|N]; [done|]. rewrite (fh_rest _ _ _ _ F) in S by done.
        destruct (no_handle_of_fresh s (s_client x) (object_handle_db cl) h' I); [by apply db_in|done|done].
      * by destruct (no_handle_of_fresh s c' db2 h' I E2 Nh).
Qed.

Lemma create_object_spec a s x head (Q : Z * Z → ta → Prop) : ta_inv 0 s → ta_sessions s !! a = Some x → well_formed head →
  (∀ r s', kept s s' → Q r s') → pwp (create_object a head) s Q.
Proof.
  intros I Ex W HQ. destruct (session_client _ _ _ _ I Ex) as [cl Ec]. pose proof (session_token _ _ _ _ I Ex) as [k0 Ek0].
  unfold create_object. s_step. apply pwp_new_address; [intros h0; s_step; by apply HQ|]. intros h0 Lt. cbv beta iota.
  destruct (making_start s h0 a x cl head I Ex Ec Lt) as [M0 M1]. set (p := ta_next s) in *.
  do 2 s_step. s_step. set (s1 := set_objects _ _) in *. unfold get_object_handle.
  s_step. eapply pwp_object_db; [exact Ex|exact Ec|]. s_step. pose proof (vo_obj _ _ I) as O.
  pose proof (oo_cap _ _ _ O _ _ (db_in _ _ _ Ec)) as C. pose proof (oo_next _ _ _ O) as Ln. cbn in Ln.
  apply pwp_handle_room; [done|]. intros ok h1 Room. destruct (handle_get ok p (object_handle_db cl)) as [h db'] eqn:G.
  s_step. eapply pwp_set_object_db; [exact Ex|exact Ec|]. s_step.
  assert (h = 0 ∧ db' = object_handle_db cl ∨ fresh_handle h p (object_handle_db cl) db') as Hg.
  { eapply (got_handle (p + 1)); [done|split; unfold p; cbn; lia|unfold p; lia|done|done]. }
  set (s2 := set_clients _ _).
  assert (making p a (s_client x) (s_token x) h s s2) as M.
  { destruct Hg as [[-> ->]|F]; [|by apply M1]. apply (making_view _ _ _ _ _ _ (set_h h1 s1)); [|apply M0].
    unfold s2, view_of, skel_of, oskel_of. cbn. f_equal; f_equal; by eapply (fmap_same _ (with_object_db (object_handle_db cl))). }
  assert (Err : ∀ s' rc, rc ≠ 0 → making p a (s_client x) (s_token x) h s s' → pwp (create_object_err a p head h rc) s' Q).
  { intros s' rc Nrc M'. eapply create_object_err_spec; [done|done|done|]. intros s3 K3. by apply HQ. }
  destruct (h =? 0); [by apply Err|]. s_step. apply pwp_get_bool; [done|]. intros tok Htok. do 2 s_step.
  destruct tok.
  - s_step. unfold create_object_uuid. do 3 s_step.
    apply pwp_assert. intros _. s_step. apply pwp_sys; [intros; apply ta_alloc_ok|]. intros ok2 h2.
    destruct (negb ok2); [s_step; apply Err; [done|by apply making_set_h]|].
    do 3 s_step. eapply pwp_on_heap; [apply draw_uuid_is|]. intros u h3 _. s_step.
    eapply pwp_change_object; [cbn; by rewrite lookup_insert_eq|]. s_step. change (PKCS11_CKR_OK =? 0) with true. cbn [negb].
    apply (making_object _ _ _ _ _ _ _ (with_uuid (Some (s_token x)) (Some u) (mk_object (Some head) None None))) in M.
    apply (making_set_h _ _ _ _ _ _ _ h3) in M. revert M. set (s4 := set_h h3 _). intros M.
    change (set_objects _ _) with s4. do 2 s_step. cbv zeta. s_step.
    apply pwp_sys; [intros; apply create_persistent_returns|]. intros res h4.
    destruct (Z.eqb_spec res 0) as [->|Nr]; cbn [negb]; [|apply Err; [by apply tee2pkcs_other|by apply making_set_h]].
    s_step. apply register_spec; [by eexists|]. intros rc s5 V5 _. rewrite view_set_h in V5.
    apply (making_view _ _ _ _ _ _ _ _ V5) in M.
    destruct (Z.eqb_spec rc 0) as [->|Nr]; cbn [negb]; [|by apply Err].
    assert (is_Some (ta_tokens s5 !! s_token x)) as [k5 Ek5] by (eapply (same_tokens s4); [done|by eexists]).
    s_step. eapply pwp_change_token; [exact Ek5|]. s_step. apply HQ.
    eapply (made_in_token _ _ _ _ _ _ _ (mk_object (Some head) (Some (s_token x)) (Some u)));
      [exact M| |done|done|done|by apply Htok|done].
    change (q_objects (v_obj (view_of s5)) !! p = Some (mk_object (Some head) (Some (s_token x)) (Some u))).
    rewrite V5. cbn. by rewrite lookup_insert_eq.
  - s_step. destruct (made_in_session _ _ _ _ _ _ _ (mk_object (Some head) None None) head M) as (x' & Ex' & Kp);
      [cbn; by rewrite lookup_insert_eq|done|done|done|by intros T; apply Htok in T|].
    eapply pwp_change_session; [exact Ex'|]. s_step. by apply HQ.
Qed.

End Objects.
