(* ===== verification/Pkcs11Requests.v ===== *)
(** The requests on sessions and objects of the PKCS#11 TA: that they keep the
    invariant of [Pkcs11SessionSpec], and what login and logout do to the sessions
    and objects of a client. *)
From S2P Require Import Prelude State Bytes HandleDb Pkcs11Handle Pkcs11Attr Pkcs11AttrProofs Pkcs11AttrSpec Pkcs11SanitizeSpec.
From S2P Require Import Pkcs11Pin Pkcs11PinSpec Pkcs11Session Pkcs11SessionProofs Pkcs11ObjectProofs Pkcs11SessionSpec.

Section Requests.
Context `{TokenApiLaws} `{!TaHeapLaws} `{!SmallHeap} `{!ObjectApi} `{!ObjectApiLaws}.
Implicit Types s : ta.

Lemma kept_refl s : ta_inv 0 s → kept s s.
Proof. by split. Qed.

Lemma kept_trans s1 s2 s3 : kept s1 s2 → kept s2 s3 → kept s1 s3.
Proof. intros [_ K1] [I K2]. split; [done|congruence]. Qed.

(** ** Access *)

Lemma session_state e s a x : ta_inv e s → ta_sessions s !! a = Some x → state_ok (s_state x).
Proof. intros I Ex. exact (sk_state _ _ (vo_skel _ _ I) a _ (session_in _ _ _ Ex)). Qed.

(** Private objects are for the user. *)
Lemma check_access_spec e a b s x (Q : Z → ta → Prop) : ta_inv e s → well_formed b → ta_sessions s !! a = Some x →
  (∀ rc, (rc = 0 → attr_true PKCS11_CKA_PRIVATE b → who_of (s_state x) = User) → Q rc s) →
  pwp (check_access_attrs_against_token a b) s Q.
Proof.
  intros I W Ex HQ. pose proof (session_state _ _ _ _ I Ex) as St. unfold check_access_attrs_against_token. s_step. apply pwp_get_class; [done|]. intros cl.
  case_match; [s_step; by apply HQ|]. s_step. unfold object_is_private. apply pwp_get_bool; [done|]. intros p Hp.
  do 3 s_step. apply HQ. intros Z0 T. apply Hp in T as ->.
  change (pkcs11_session_is_public x) with (is_public (s_state x)) in Z0.
  change (pkcs11_session_is_so x) with (is_so (s_state x)) in Z0.
  rewrite (who_public _ St), who_so in Z0. by destruct (who_of (s_state x)).
Qed.

(** ** Destroying an object *)

Lemma entry_destroy_object_spec c h oh s (Q : Z → ta → Prop) : ta_inv 0 s → is_Some (ta_clients s !! c) →
  (∀ rc s', kept s s' → Q rc s') → pwp (entry_destroy_object c h oh) s Q.
Proof.
  intros I Ec HQ. pose proof (HQ PKCS11_CKR_SESSION_HANDLE_INVALID s (kept_refl s I)) as Keep.
  unfold entry_destroy_object. s_step. apply pwp_handle2session; [done|done|change (0 =? 0) with true; by s_step|]. intros a x Na Ex Cx Hx.
  rewrite (proj2 (Z.eqb_neq _ _) Na). s_step. eapply pwp_handle2object; [done|exact Ex|change (0 =? 0) with true; s_step; apply HQ; by apply kept_refl|].
  intros p o Np Eo L Hh T. rewrite (proj2 (Z.eqb_neq _ _) Np). do 4 s_step. s_step. apply pwp_object_bool; [done|]. intros tok _.
  case_match; [s_step; apply HQ; by apply kept_refl|]. pose proof L as (b & Eb & W & _). unfold attributes_of. rewrite Eb.
  do 3 s_step. eapply check_access_spec; [done|done|exact Ex|]. intros rc _. destruct (negb (rc =? 0)); [s_step; apply HQ; by apply kept_refl|].
  s_step. apply pwp_object_bool; [done|]. intros d _. destruct (negb d); [s_step; apply HQ; by apply kept_refl|].
  s_step. eapply destroy_object_spec; [done..|]. intros s' I' K'. s_step. apply HQ. by split.
Qed.

(** ** Searching *)

(** What a search does: attributes come and go, handles come. *)
Record finding s s' : Prop := {
  fd_kept : kept s s';
  fd_tokens : q_tokens (oskel_of s') = q_tokens (oskel_of s);
}.

Lemma finding_refl s : ta_inv 0 s → finding s s.
Proof. intros I. split; [by apply kept_refl|done]. Qed.

Lemma finding_trans s1 s2 s3 : finding s1 s2 → finding s2 s3 → finding s1 s3.
Proof. intros [K1 T1] [K2 T2]. split; [by eapply kept_trans|congruence]. Qed.

Lemma finding_set_h s s' h : finding s s' → finding s (set_h h s').
Proof. by intros [[I K] T]. Qed.

Lemma finding_from_h s s' h : finding (set_h h s) s' → finding s s'.
Proof. by intros [[I K] T]. Qed.

(** The session is still there. *)
Lemma kept_session s s' a x : kept s s' → ta_sessions s !! a = Some x →
  ∃ x', ta_sessions s' !! a = Some x' ∧ ss_of x' = ss_of x.
Proof.
  intros [_ K] Ex. destruct (view_session s' a (ss_of x)) as (x' & E1 & E2 & _); [|by exists x'].
  rewrite K. by apply session_in.
Qed.

Lemma token_object s t l p : ta_inv 0 s → q_tokens (oskel_of s) !! t = Some l → p ∈ l →
  ∃ o, ta_objects s !! p = Some o ∧ o_token o = Some t ∧ (o_attributes o = None ∨ loaded o).
Proof.
  intros I E Hp. destruct (oo_tok _ _ _ (vo_obj _ _ I) _ _ E) as [_ Im]. by destruct (Im p Hp) as (_ & ?).
Qed.

Lemma change_attributes_spec p o b s (Q : unit → ta → Prop) : ta_inv 0 s → ta_objects s !! p = Some o → is_Some (o_token o) →
  match b with
  | Some b => attributes_ok (o_token o) b
  | None => ∀ c db h, q_dbs (oskel_of s) !! c = Some db → h ≠ 0 → slots db h ≠ Some p
  end →
  (∀ s', finding s s' → q_dbs (oskel_of s') = q_dbs (oskel_of s) → ta_objects s' !! p = Some (with_attributes b o) → Q tt s') →
  pwp (change_object p (with_attributes b)) s Q.
Proof.
  intros I Eo T Hb HQ. eapply pwp_change_object; [exact Eo|]. apply HQ; [|done|apply lookup_insert_eq].
  split; [|done]. split; [|done]. unfold ta_inv. rewrite view_object. constructor; [apply I| |apply I].
  exact (obj_ok_attributes _ _ _ _ _ (vo_obj _ _ I) Eo T Hb).
Qed.

Lemma load_spec p t o s (Q : Z → ta → Prop) : ta_inv 0 s → ta_objects s !! p = Some o → o_token o = Some t →
  o_attributes o = None ∨ loaded o →
  (∀ rc s', finding s s' → q_dbs (oskel_of s') = q_dbs (oskel_of s) →
     (rc = 0 → ∃ o', ta_objects s' !! p = Some o' ∧ o_token o' = Some t ∧ loaded o') → Q rc s') →
  pwp (load_persistent_object_attributes p) s Q.
Proof.
  intros I Eo T L HQ. unfold load_persistent_object_attributes. do 2 s_step. destruct (o_attributes o) as [b|] eqn:Eb.
  - s_step. apply HQ; [by apply finding_refl|done|]. intros _. exists o. destruct L as [?|L]; [congruence|done].
  - s_step. eapply pwp_on_heap; [apply read_persistent_is|]. intros [rc|b] h; cbv beta iota.
    + intros Nr. s_step. by apply HQ; [apply finding_set_h, finding_refl|done|].
    + intros [W Tr]. assert (attributes_ok (o_token o) b) as A.
      { split; [done|]. rewrite T. split; [by eexists|done]. }
      s_step. eapply change_attributes_spec; [exact I|exact Eo|by eexists|exact A|]. intros s' F D E. s_step. apply HQ; [by eapply finding_from_h|done|].
      intros _. exists (with_attributes (Some b) o). split_and!; [done|done|]. by exists b.
Qed.

Lemma get_object_handle_spec a p t o s x (Q : Z → ta → Prop) : ta_inv 0 s → ta_sessions s !! a = Some x → ta_objects s !! p = Some o →
  o_token o = Some t → loaded o →
  (∀ c, ta_clients s !! s_client x = Some c → no_slot p (object_handle_db c)) →
  (∀ h s', finding s s' → Q h s') → pwp (get_object_handle a p) s Q.
Proof.
  intros I Ex Eo T L No HQ. destruct (session_client _ _ _ _ I Ex) as [c Ec]. pose proof (vo_obj _ _ I) as O.
  pose proof (oo_cap _ _ _ O _ _ (db_in _ _ _ Ec)) as C. unfold get_object_handle. s_step.
  eapply pwp_object_db; [exact Ex|exact Ec|]. s_step. apply pwp_handle_room; [done|]. intros ok h1 Room.
  destruct (handle_get ok p (object_handle_db c)) as [h db'] eqn:G. s_step.
  eapply pwp_set_object_db; [exact Ex|exact Ec|]. s_step. apply HQ. set (s1 := set_clients _ _).
  assert (V : view_of s1 = in_obj (put_db (s_client x) db') (view_of s)).
  { exact (view_client_db (set_h h1 s) (s_client x) c db' Ec). }
  split; [|change (q_tokens (v_obj (view_of s1)) = q_tokens (oskel_of s)); by rewrite V].
  eapply kept_view; [|exact V|done]. unfold ta_inv. rewrite V. constructor; [apply I| |apply I]. cbn [in_obj v_obj v_next].
  pose proof (oo_next _ _ _ O) as Ln.
  destruct (got_handle (ta_next s) (object_handle_db c) p ok h db') as [[_ ->]|F]; [done|by eapply (oo_addr _ _ _ O)|apply Ln|done|done| |].
  - eapply obj_ok_drop_handle; [done|by apply db_in|done|]. auto.
  - eapply obj_ok_new_handle; [done|by apply db_in|exact F|by apply No|]. intros Np. split; [by exists o|].
    intros a' c' l Es Hp. destruct (oo_sess _ _ _ O _ _ _ Es) as [_ Im]. destruct (Im p Hp) as (_ & o' & Eo' & To & _).
    assert (o' = o) as -> by (cbn in Eo'; congruence). congruence.
Qed.

(** An object that is not loaded has no handle. *)
Lemma not_loaded_no_handle s p o : ta_inv 0 s → ta_objects s !! p = Some o → o_attributes o = None →
  ∀ c db h, q_dbs (oskel_of s) !! c = Some db → h ≠ 0 → slots db h ≠ Some p.
Proof.
  intros I Eo A c db h E Nh S. pose proof (vo_obj _ _ I) as O. pose proof (oo_addr _ _ _ O _ _ Eo) as Ha.
  destruct (addr_storable _ _ Ha (proj2 (oo_next _ _ _ O))) as [N0 Ni].
  destruct (oo_db _ _ _ O _ _ _ _ E Nh S Ni N0) as [(o' & Eo' & b & Eb & _) _].
  assert (o' = o) as -> by (cbn in Eo'; congruence). congruence.
Qed.

Lemma handle_zero s p o a x c : ta_inv 0 s → ta_objects s !! p = Some o → ta_sessions s !! a = Some x →
  ta_clients s !! s_client x = Some c → handle_lookup_handle (object_handle_db c) p = 0 → no_slot p (object_handle_db c).
Proof.
  intros I Eo Ex Ec Z0. pose proof (vo_obj _ _ I) as O.
  pose proof (find_handle (object_handle_db c) p) as F. cbv zeta in F. rewrite Z0 in F. rewrite decide_True in F by done.
  refine (F _). eapply addr_storable; [by eapply (oo_addr _ _ _ O)|apply (oo_next _ _ _ O)].
Qed.

Lemma find_token_objects_spec a x t req objs l : ∀ found s (Q : Z * list Z → ta → Prop), ta_inv 0 s → ta_sessions s !! a = Some x →
  well_formed req → q_tokens (oskel_of s) !! t = Some l → (∀ p, p ∈ objs → p ∈ l) →
  (∀ r s', finding s s' → Q r s') → pwp (find_token_objects a req objs found) s Q.
Proof.
  revert x. induction objs as [|p objs IH]; intros x found s Q I Ex W Et Sub HQ; cbn [find_token_objects].
  { s_step. by apply HQ, finding_refl. }
  destruct (token_object s t l p I Et) as (o & Eo & T & L); [apply Sub; by left|].
  assert (Next : ∀ s' found', finding s s' → pwp (find_token_objects a req objs found') s' Q).
  { intros s' found' F. destruct (kept_session _ _ _ _ (fd_kept _ _ F) Ex) as (x' & Ex' & _).
    eapply IH; [apply F|exact Ex'|done|by rewrite (fd_tokens _ _ F)|intros p' Hp; apply Sub; by right|].
    intros r s2 F2. apply HQ. by eapply finding_trans. }
  do 2 s_step. cbv zeta. s_step. eapply load_spec; [exact I|exact Eo|exact T|exact L|]. intros rc s1 F1 D1 L1.
  destruct (Z.eqb_spec rc 0) as [->|Nr]; [|cbn [negb]; s_step; by apply HQ].
  destruct (L1 eq_refl) as (o1 & Eo1 & T1 & Lo). pose proof (kp_inv _ _ (fd_kept _ _ F1)) as I1.
  destruct (kept_session _ _ _ _ (fd_kept _ _ F1) Ex) as (x1 & Ex1 & Sx1). pose proof Lo as (b & Eb & Wb & _).
  do 3 s_step. unfold attributes_of at 1. rewrite Eb. do 2 s_step. eapply check_access_spec; [exact I1|done|exact Ex1|]. intros rc _. s_step.
  assert (∀ m, pwp
    (if negb m
     then _ ← (if bool_decide (o_attributes o = None) then release_persistent_object_attributes p else mret tt);
          find_token_objects a req objs found
     else
      h ← pkcs11_object2handle p a;
      h ← (if h =? 0 then get_object_handle a p else mret h);
      if h =? 0 then mret (PKCS11_CKR_DEVICE_MEMORY, found) else
      ok ← on_heap (ta_alloc ((Z.of_nat (length found) + 1) * 4));
      if negb ok then mret (PKCS11_CKR_DEVICE_MEMORY, found) else
      find_token_objects a req objs (found ++ [h])) s1 Q) as Rest.
  { intros m. destruct m; cbn [negb].
    - destruct (session_client _ _ _ _ I1 Ex1) as [c Ec]. s_step. eapply pwp_object2handle; [exact Ex1|exact Ec|]. s_step.
      assert (∀ h s2, finding s1 s2 → pwp
        (if h =? 0 then mret (PKCS11_CKR_DEVICE_MEMORY, found) else
         ok ← on_heap (ta_alloc ((Z.of_nat (length found) + 1) * 4));
         if negb ok then mret (PKCS11_CKR_DEVICE_MEMORY, found) else
         find_token_objects a req objs (found ++ [h])) s2 Q) as Got.
      { intros h s2 F2. pose proof (finding_trans _ _ _ F1 F2) as F. destruct (h =? 0); [s_step; by apply HQ|].
        s_step. apply pwp_sys; [intros; apply ta_alloc_ok|]. intros ok h2. pose proof (finding_set_h _ _ h2 F) as F'.
        destruct (negb ok); [s_step; by apply HQ|]. by apply Next. }
      destruct (Z.eqb_spec (handle_lookup_handle (object_handle_db c) p) 0) as [Z0|Nz].
      + eapply get_object_handle_spec; [exact I1|exact Ex1|exact Eo1|exact T1|done| |exact Got].
        intros c' Ec'. assert (c' = c) as -> by congruence. by eapply handle_zero.
      + s_step. by apply Got, finding_refl.
    - s_step. case_bool_decide as Nl; [|s_step; by apply Next].
      eapply change_attributes_spec; [exact I1|exact Eo1|by eexists| |].
      + intros c db h E Nh. rewrite D1 in E. exact (not_loaded_no_handle s p o I Eo Nl c db h E Nh).
      + intros s2 F2 _ _. apply Next. by eapply finding_trans. }
  destruct (negb (rc =? 0)); [s_step; apply Rest|]. apply pwp_match; [done|done|]. apply Rest.
Qed.

Lemma find_session_objects_spec a a' x y req objs : ∀ found s (Q : Z * list Z → ta → Prop), ta_inv 0 s →
  ta_sessions s !! a = Some x → ta_sessions s !! a' = Some y → well_formed req → (∀ p, p ∈ objs → p ∈ s_object_list y) →
  (∀ r h, Q r (set_h h s)) → pwp (find_session_objects a req objs found) s Q.
Proof.
  induction objs as [|p objs IH]; intros found s Q I Ex Ey W Sub HQ; cbn [find_session_objects].
  { s_step. rewrite <-(set_h_id s). apply HQ. }
  destruct (oo_sess _ _ _ (vo_obj _ _ I) _ _ _ (session_objs_in _ _ _ Ey)) as [_ Im].
  destruct (Im p) as (_ & o & Eo & T & b & Eb & Wb & _); [apply Sub; by left|]. cbn in Eo.
  assert (Next : ∀ h found', pwp (find_session_objects a req objs found') (set_h h s) Q).
  { intros h found'. apply IH; [done|done|done|done|intros p' Hp; apply Sub; by right|]. intros r h'. apply HQ. }
  assert (Here : ∀ found', pwp (find_session_objects a req objs found') s Q) by (intros; rewrite <-(set_h_id s); apply Next).
  do 2 s_step. rewrite bool_decide_eq_false_2 by (intros N; by apply N). s_step. unfold attributes_of. rewrite Eb. do 2 s_step.
  apply pwp_match; [done|done|]. intros m. destruct m; cbn [negb]; [|apply Here].
  destruct (session_client _ _ _ _ I Ex) as [c Ec]. s_step. eapply pwp_object2handle; [exact Ex|exact Ec|]. s_step.
  apply pwp_sys; [intros; apply ta_alloc_ok|]. intros ok h. destruct (negb ok); [s_step; apply HQ|]. apply Next.
Qed.

Lemma find_in_sessions_spec a x req sessions : ∀ found s (Q : Z * list Z → ta → Prop), ta_inv 0 s →
  ta_sessions s !! a = Some x → well_formed req → (∀ a', a' ∈ sessions → is_Some (ta_sessions s !! a')) →
  (∀ r h, Q r (set_h h s)) → pwp (find_in_sessions a req sessions found) s Q.
Proof.
  induction sessions as [|a' sessions IH]; intros found s Q I Ex W Sub HQ; cbn [find_in_sessions].
  { s_step. rewrite <-(set_h_id s). apply HQ. }
  destruct (Sub a') as [y Ey]; [by left|]. do 2 s_step. s_step.
  eapply find_session_objects_spec; [exact I|exact Ex|exact Ey|done|done|]. intros [rc found'] h. cbv beta iota.
  destruct (negb (rc =? 0)); [s_step; apply HQ|]. apply IH; [done|done|done| |].
  - intros b Hb. apply Sub. by right.
  - intros r h'. apply HQ.
Qed.

(** The sessions of a client. *)
Lemma client_sessions e s c cl : ta_inv e s → ta_clients s !! c = Some cl →
  NoDup (session_list cl) ∧ ∀ a, a ∈ session_list cl ↔ ∃ x, ta_sessions s !! a = Some x ∧ s_client x = c.
Proof.
  intros I Ec. destruct (sk_sessions _ _ (vo_skel _ _ I) c _ (client_in _ _ _ Ec)) as [Nd Im]. split; [done|].
  intros a. rewrite (Im a). cbn. split.
  - intros (y & Ey & Cy). rewrite lookup_fmap in Ey. apply fmap_Some in Ey as (x & Ex & ->). by exists x.
  - intros (x & Ex & Cx). exists (ss_of x). by rewrite lookup_fmap, Ex.
Qed.

Lemma client_session e s c cl a : ta_inv e s → ta_clients s !! c = Some cl → a ∈ session_list cl →
  ∃ x, ta_sessions s !! a = Some x ∧ s_client x = c.
Proof. intros I Ec. by apply (proj2 (client_sessions _ _ _ _ I Ec)). Qed.

(** Changes of a session that are not about its state of login or its objects. *)
Lemma change_session_same a f s x (Q : unit → ta → Prop) : ta_sessions s !! a = Some x →
  (∀ x, ss_of (f x) = ss_of x ∧ s_object_list (f x) = s_object_list x) →
  (∀ s', view_of s' = view_of s → Q tt s') → pwp (change_session a f) s Q.
Proof.
  intros Ex Hf HQ. eapply pwp_change_session; [exact Ex|]. apply HQ. destruct (Hf x). by apply view_session_same.
Qed.

Lemma kept_same s s' : ta_inv 0 s → view_of s' = view_of s → kept s s'.
Proof. intros I V. split; [unfold ta_inv; by rewrite V|]. change (v_skel (view_of s') = v_skel (view_of s)). by rewrite V. Qed.

Lemma entry_find_objects_init_spec c h req s (Q : Z → ta → Prop) : ta_inv 0 s → is_Some (ta_clients s !! c) → well_formed req →
  (∀ rc s', kept s s' → Q rc s') → pwp (entry_find_objects_init c h req) s Q.
Proof.
  intros I Hc W HQ. assert (Same : ∀ rc hh, Q rc (set_h hh s)) by (intros; by apply HQ, kept_same).
  assert (Here : ∀ rc, Q rc s) by (intros; by apply HQ, kept_same).
  unfold entry_find_objects_init. s_step. apply pwp_handle2session; [done|done|change (0 =? 0) with true; by s_step|]. intros a x Na Ex Cx Hx.
  rewrite (proj2 (Z.eqb_neq _ _) Na). do 2 s_step. destruct (session_is_active x); [by s_step|]. case_bool_decide; [by s_step|].
  s_step. apply pwp_sys; [intros; apply alloc_struct_returns|]. intros ok h1. destruct (negb ok); [by s_step|].
  s_step. apply pwp_get_class; [done|]. intros cl. case_match; [by s_step|].
  destruct (session_client _ _ _ _ I Ex) as [cc Ecc]. do 2 s_step. s_step.
  eapply find_in_sessions_spec; [done|exact Ex|done| |].
  { intros b Hb. destruct (client_session _ _ _ _ _ I Ecc Hb) as (y & Ey & _). by exists y. }
  intros [rc found] h2. cbv beta iota. destruct (negb (rc =? 0)); [s_step; apply Same|].
  destruct (session_token _ _ _ _ I Ex) as [k Ek]. do 2 s_step. s_step.
  eapply (find_token_objects_spec a x (s_token x) req _ (t_object_list k)); [exact I|exact Ex|done|exact (proj2 (token_in _ _ _ Ek))|done|].
  intros [rc2 found2] s2 F2. cbv beta iota. assert (kept s s2) as K2 by (destruct F2 as [[? ?] _]; by split).
  destruct (negb (rc2 =? 0)); [s_step; by apply HQ|].
  destruct (kept_session _ _ _ _ K2 Ex) as (x2 & Ex2 & _). s_step. eapply change_session_same; [exact Ex2|done|].
  intros s3 V3. s_step. apply HQ. eapply kept_trans; [exact K2|]. apply kept_same; [apply K2|done].
Qed.

Lemma entry_find_objects_spec c h n s (Q : Z * list Z → ta → Prop) : ta_inv 0 s → is_Some (ta_clients s !! c) →
  (∀ r s', kept s s' → Q r s') → pwp (entry_find_objects c h n) s Q.
Proof.
  intros I Hc HQ. assert (Here : ∀ r, Q r s) by (intros; by apply HQ, kept_same).
  unfold entry_find_objects. s_step. apply pwp_handle2session; [done|done|change (0 =? 0) with true; by s_step|]. intros a x Na Ex Cx Hx.
  rewrite (proj2 (Z.eqb_neq _ _) Na). do 2 s_step. destruct (s_find_ctx x) as [ctx|]; [|by s_step]. cbv zeta.
  s_step. eapply change_session_same; [exact Ex|done|]. intros s3 V3. s_step. by apply HQ, kept_same.
Qed.

Lemma entry_find_objects_final_spec c h s (Q : Z → ta → Prop) : ta_inv 0 s → is_Some (ta_clients s !! c) →
  (∀ r s', kept s s' → Q r s') → pwp (entry_find_objects_final c h) s Q.
Proof.
  intros I Hc HQ. assert (Here : ∀ r, Q r s) by (intros; by apply HQ, kept_same).
  unfold entry_find_objects_final. s_step. apply pwp_handle2session; [done|done|change (0 =? 0) with true; by s_step|]. intros a x Na Ex Cx Hx.
  rewrite (proj2 (Z.eqb_neq _ _) Na). do 2 s_step. case_bool_decide; [by s_step|]. s_step. unfold release_session_find_obj_context.
  eapply change_session_same; [exact Ex|done|]. intros s3 V3. s_step. by apply HQ, kept_same.
Qed.

(** ** Creating an object *)

Lemma pwp_both (a b : SM bool) s (Q : bool → ta → Prop) :
  (∀ R : bool → ta → Prop, (∀ r, R r s) → pwp a s R) → (∀ R : bool → ta → Prop, (∀ r, R r s) → pwp b s R) → (∀ r, Q r s) → pwp (both a b) s Q.
Proof. intros Ha Hb HQ. unfold both. s_step. apply Ha. intros []; [by apply Hb|by s_step]. Qed.

Lemma pwp_any_bool b id s (R : bool → ta → Prop) : well_formed b → (∀ r, R r s) → pwp (on_heap (get_bool b id)) s R.
Proof. intros W HR. by apply pwp_get_bool. Qed.

Lemma check_created_spec a head s x (Q : Z → ta → Prop) : well_formed head → ta_sessions s !! a = Some x →
  (∀ rc, Q rc s) → pwp (check_created_attrs_against_token a head) s Q.
Proof.
  intros W Ex HQ. assert (∀ f, ∀ R : bool → ta → Prop, (∀ r, R r s) → pwp (x ← session_at a; mret (f x)) s R) as Sess by (intros; by do 3 s_step).
  unfold check_created_attrs_against_token. s_step.
  assert (∀ R : Z → ta → Prop, (∀ rc, R rc s) → pwp (check_attrs_misc_integrity head) s R) as Misc.
  { intros R HR. unfold check_attrs_misc_integrity. s_step. apply pwp_both; [intros; by apply pwp_any_bool..|]. intros [|]; [by s_step|].
    s_step. apply pwp_both; [intros; by apply pwp_any_bool| |by intros; s_step]. intros R' HR'. s_step. apply pwp_any_bool; [done|]. intros r. by s_step. }
  apply Misc. intros rc. destruct (negb (rc =? 0)); [by s_step|]. s_step.
  apply pwp_both; [intros; by apply pwp_any_bool|apply Sess|]. intros [|]; [by s_step|]. s_step.
  apply pwp_both; [intros; by apply pwp_any_bool|apply Sess|]. intros r. by s_step.
Qed.

Lemma entry_create_object_spec c h head s (Q : Z * Z → ta → Prop) : ta_inv 0 s → is_Some (ta_clients s !! c) → well_formed head →
  (∀ r s', kept s s' → Q r s') → pwp (entry_create_object c h head) s Q.
Proof.
  intros I Hc W HQ. assert (Here : ∀ r, Q r s) by (intros; by apply HQ, kept_refl).
  unfold entry_create_object. s_step. apply pwp_handle2session; [done|done|change (0 =? 0) with true; by s_step|]. intros a x Na Ex Cx Hx.
  rewrite (proj2 (Z.eqb_neq _ _) Na). s_step. eapply check_created_spec; [done|exact Ex|]. intros rc. destruct (negb (rc =? 0)); [by s_step|].
  s_step. eapply check_access_spec; [done|done|exact Ex|]. intros rc2 _. destruct (negb (rc2 =? 0)); [by s_step|].
  by eapply create_object_spec.
Qed.

(** ** Initializing a token *)

(** The files of the objects of the token are removed while nobody has a handle. *)
Definition unused (t : nat) s : Prop := ∀ l p c db, q_tokens (oskel_of s) !! t = Some l → p ∈ l →
  q_dbs (oskel_of s) !! c = Some db → no_slot p db.

Lemma remove_token_objects_spec t fuel : ∀ s k (Q : unit → ta → Prop), ta_inv 0 s → unused t s → ta_tokens s !! t = Some k →
  (length (t_object_list k) < fuel)%nat →
  (∀ s' k', kept s s' → ta_tokens s' !! t = Some k' → t_object_list k' = [] → Q tt s') →
  pwp (remove_token_objects fuel t) s Q.
Proof.
  induction fuel as [|fuel IH]; intros s k Q I Un Ek Lt HQ; [lia|]. cbn [remove_token_objects]. do 2 s_step.
  destruct (t_object_list k) as [|p l] eqn:El; [s_step; apply (HQ s k); [by apply kept_refl|done..]|].
  destruct (token_in _ _ _ Ek) as [_ Et]. rewrite El in Et. assert (p ∈ p :: l) as Hp by by left.
  destruct (token_object s t _ p I Et Hp) as (o & Eo & T & Lo). do 3 s_step.
  apply try_unregister_spec; [by eexists|]. intros s1 V1 O1. s_step. pose proof (kept_same _ _ I V1) as K1.
  apply cleanup_persistent_spec; [rewrite O1; by eexists|eapply same_tokens; [exact V1|by eexists]|]. intros s2 V2. rewrite V1 in V2.
  assert (O2 : oskel_of s2 = drop_object p (unlist p (oskel_of s))).
  { change (v_obj (view_of s2) = drop_object p (unlist p (oskel_of s))). by rewrite V2. }
  assert (kept s s2) as K2.
  { eapply kept_view; [|exact V2|done]. unfold ta_inv. rewrite V2. constructor; [apply I| |apply I]. apply (obj_ok_gone p).
    - apply obj_ok_free, (obj_ok_unlist 0); [apply I|by left].
    - apply lookup_delete_eq.
    - intros c db h E Nh. exact (Un _ _ _ _ Et Hp E h Nh). }
  assert (is_Some (ta_tokens s2 !! t)) as [k2 Ek2].
  { apply lookup_lt_is_Some. assert (length (v_mains (view_of s2)) = length (v_mains (view_of s))) as L by by rewrite V2.
    cbn in L. rewrite !length_fmap in L. rewrite L. by eapply lookup_lt_Some. }
  assert (t_object_list k2 = without p (p :: l)) as El2.
  { destruct (token_in _ _ _ Ek2) as [_ E]. rewrite O2 in E. cbn in E. rewrite !list_lookup_fmap, Ek in E. cbn in E. rewrite El in E. by injection E. }
  assert (∀ p', p' ∈ t_object_list k2 → p' ∈ p :: l) as Sub by (rewrite El2; by intros p' [_ ?]%elem_of_without).
  eapply IH; [apply K2| |exact Ek2| |].
  - intros l2 p' c db E2 Hp' Ed. destruct (token_in _ _ _ Ek2) as [_ E]. rewrite E in E2. injection E2 as <-.
    rewrite O2 in Ed. by eapply Un; [exact Et|apply Sub|exact Ed].
  - rewrite El2. unfold without. rewrite filter_cons_False by (intros N; by apply N). cbn in Lt.
    pose proof (length_filter (λ x, x ≠ p) l). lia.
  - intros s3 k3 K3 E3 N3. apply (HQ s3 k3); [by eapply kept_trans|done..].
Qed.

End Requests.
