(* ===== verification/Pkcs11Login.v ===== *)
(** Clients, sessions, login and logout of the PKCS#11 TA, and sequences of
    requests: what stays true of the whole state, and what logging in and out
    does to the sessions and objects of a client. *)
From S2P Require Import Prelude State Bytes HandleDb Pkcs11Handle Pkcs11Attr Pkcs11AttrProofs Pkcs11AttrSpec Pkcs11SanitizeSpec.
From S2P Require Import Pkcs11Pin Pkcs11PinSpec Pkcs11Session Pkcs11SessionProofs Pkcs11ObjectProofs Pkcs11SessionSpec Pkcs11Requests.

Section Requests.
Context `{TokenApiLaws} `{!TaHeapLaws} `{!SmallHeap} `{!ObjectApi} `{!ObjectApiLaws}.
Implicit Types s : ta.

(** ** Clients *)

Record sound s : Prop := { so_inv : ta_inv 0 s; so_login : login_ok (skel_of s) }.

Lemma sound_kept s s' : sound s → kept s s' → sound s'.
Proof. intros [_ L] [I K]. split; [done|by rewrite K]. Qed.

Lemma sound_view s s' : sound s → view_of s' = view_of s → sound s'.
Proof. intros S V. eapply sound_kept; [done|]. by apply kept_same; [apply S|]. Qed.

Lemma skel_of_view s v : view_of s = v → skel_of s = v_skel v.
Proof. by intros <-. Qed.

Lemma register_client_spec s (Q : Z → ta → Prop) : sound s → (∀ h, Q 0 (set_h h s)) →
  (∀ s', sound s' → is_Some (ta_clients s' !! ta_next s) → Q (ta_next s) s') → pwp register_client s Q.
Proof.
  intros [I L] HQ0 HQ. unfold register_client. s_step. apply pwp_new_address; [intros h; by s_step|]. intros h Lt. cbv beta iota.
  do 5 s_step. set (s' := set_client_list _ _).
  assert (V : view_of s' = mk_view (ta_next s + 1) (new_client_skel (ta_next s) (skel_of s))
    (put_db (ta_next s) handle_db_init (oskel_of s)) (t_db_main <$> ta_tokens s)).
  { unfold view_of, skel_of, oskel_of, new_client_skel, put_db. cbn. by rewrite !fmap_insert. }
  apply HQ; [|cbn; rewrite lookup_insert_eq; by eexists]. split.
  - unfold ta_inv. rewrite V. constructor; [by apply new_client_skel_ok; [apply I|]| |apply I]. cbn.
    apply (obj_ok_next _ (ta_next s)); [apply obj_ok_put_client, I|cbn; lia].
  - rewrite (skel_of_view _ _ V). exact L.
Qed.

(** The handle of a session finds it. *)
Lemma pwp_handle2session_at a x s (Q : Z → ta → Prop) : ta_inv 0 s → ta_sessions s !! a = Some x → Q a s →
  pwp (pkcs11_handle2session (s_handle x) (s_client x)) s Q.
Proof.
  intros I Ex HQ. destruct (session_client _ _ _ _ I Ex) as [cl Ec]. pose proof (vo_skel _ _ I) as K.
  pose proof (client_in _ _ _ Ec) as E. pose proof (session_in _ _ _ Ex) as E2. pose proof (sk_handle _ _ K _ _ E2) as Nh.
  assert (slots (session_handle_db cl) (s_handle x) = Some a) as Sl by (apply (sk_db _ _ K _ _ E); [done|by exists (ss_of x)]).
  destruct (addr_storable _ _ (sk_saddr _ _ K _ _ E2) (proj2 (sk_next _ _ K))) as [_ Ni].
  unfold pkcs11_handle2session. do 3 s_step. by rewrite (lookup_slots_back _ _ a (sk_cap _ _ K _ _ E)).
Qed.

(** Two sessions of a client have different handles. *)
Lemma session_handle_unique s a b x y : ta_inv 0 s → k_sessions (skel_of s) !! a = Some x → k_sessions (skel_of s) !! b = Some y →
  k_client x = k_client y → k_handle x = k_handle y → a = b.
Proof.
  intros I Ex Ey C Hh. pose proof (vo_skel _ _ I) as K. destruct (sk_client _ _ K _ _ Ex) as [cl Ec].
  pose proof (sk_handle _ _ K _ _ Ex) as Nh.
  assert (slots (k_db cl) (k_handle x) = Some a) as S1 by (apply (sk_db _ _ K _ _ Ec); [done|by exists x]).
  assert (slots (k_db cl) (k_handle x) = Some b) as S2 by (apply (sk_db _ _ K _ _ Ec); [done|by exists y]). congruence.
Qed.

(** A handle that no session of the client has finds nothing. *)
Lemma no_session_handle s c cl h : ta_inv 0 s → ta_clients s !! c = Some cl →
  (∀ a x, k_sessions (skel_of s) !! a = Some x → k_client x = c → k_handle x ≠ h) → handle_lookup (session_handle_db cl) h = 0.
Proof.
  intros I Ec No. destruct (decide (handle_lookup (session_handle_db cl) h = 0)) as [|N]; [done|].
  pose proof (vo_skel _ _ I) as K. pose proof (client_in _ _ _ Ec) as E.
  destruct (lookup_slots _ _ _ (sk_cap _ _ K _ _ E) eq_refl N) as (Nh & Sl & _).
  apply (sk_db _ _ K _ _ E) in Sl as (y & Ey & C & Hh); [|done]. by destruct (No _ _ Ey C).
Qed.

(** ** Opening a session *)

Lemma pwp_find_first {A} (l : list A) (f : A → SM bool) (g : A → bool) s (Q : option A → ta → Prop) :
  (∀ a (R : bool → ta → Prop), a ∈ l → R (g a) s → pwp (f a) s R) →
  (∀ r, match r with Some a => a ∈ l ∧ g a = true | None => ∀ a, a ∈ l → g a = false end → Q r s) →
  pwp (find_first l f) s Q.
Proof.
  revert Q. induction l as [|a l IH]; intros Q Hf HQ; cbn [find_first].
  { s_step. apply HQ. intros a Ha. by apply elem_of_nil in Ha. }
  s_step. apply Hf; [by left|]. destruct (g a) eqn:G.
  - s_step. apply HQ. split; [by left|done].
  - apply IH; [intros; apply Hf; [by right|done]|]. intros [b|] R; apply HQ.
    + destruct R. split; [by right|done].
    + intros b [->|Hb]%elem_of_cons; [done|by apply R].
Qed.

(** A test of the sessions in a list. *)
Lemma pwp_find_session s c cl (f : Z → SM bool) (g : pkcs11_session → bool) (Q : option Z → ta → Prop) e :
  ta_inv e s → ta_clients s !! c = Some cl →
  (∀ a y (R : bool → ta → Prop), ta_sessions s !! a = Some y → R (g y) s → pwp (f a) s R) →
  (∀ r, match r with
        | Some a => ∃ y, ta_sessions s !! a = Some y ∧ s_client y = c ∧ g y = true
        | None => ∀ a y, ta_sessions s !! a = Some y → s_client y = c → g y = false
        end → Q r s) →
  pwp (find_first (session_list cl) f) s Q.
Proof.
  intros I Ec Hf HQ. destruct (client_sessions _ _ _ _ I Ec) as [_ Im].
  apply (pwp_find_first _ _ (λ a, match ta_sessions s !! a with Some y => g y | None => false end)).
  - intros a R Ha HR. apply Im in Ha as (y & Ey & _). rewrite Ey in HR. by eapply Hf.
  - intros [a|] Hr; apply HQ.
    + destruct Hr as [(y & Ey & Cy)%Im Gy]. rewrite Ey in Gy. by exists y.
    + intros a y Ey Cy. specialize (Hr a). rewrite Ey in Hr. apply Hr, Im. by exists y.
Qed.

(** The state of a new session is that of the others of its client and token. *)
Lemma set_session_state_spec s c cl n x ro (Q : unit → ta → Prop) :
  ta_clients s !! c = Some cl → ta_sessions s !! n = Some x → n ∉ session_list cl →
  (∀ a, a ∈ session_list cl → ∃ y, ta_sessions s !! a = Some y ∧ state_ok (s_state y)) →
  (∀ a b y z, a ∈ session_list cl → b ∈ session_list cl → ta_sessions s !! a = Some y → ta_sessions s !! b = Some z →
     s_token y = s_token z → who_of (s_state y) = who_of (s_state z)) →
  (∀ st, state_ok st → is_rw st = negb ro →
     (∀ a y, a ∈ session_list cl → ta_sessions s !! a = Some y → s_token y = s_token x → who_of (s_state y) = who_of st) →
     Q tt (set_sessions (<[n:=with_state st x]> (ta_sessions s)) s)) →
  pwp (set_session_state c n ro) s Q.
Proof.
  intros Ec Ex Nn Hs Lg HQ. unfold set_session_state. do 2 s_step. do 2 s_step. s_step.
  apply (pwp_find_first _ _ (λ a, match ta_sessions s !! a with Some y => bool_decide (s_token y = s_token x) | None => false end)).
  { intros a R Ha HR. destruct (Hs a Ha) as (y & Ey & _). rewrite Ey in HR. s_step. apply pwp_assert. intros _. do 3 s_step. done. }
  assert (Go : ∀ w, (w = So → negb ro = true) →
    (∀ a y, a ∈ session_list cl → ta_sessions s !! a = Some y → s_token y = s_token x → who_of (s_state y) = w) →
    pwp (change_session n (with_state (state_of w (negb ro)))) s Q).
  { intros w Hw Hl. destruct (state_of_ok w (negb ro) Hw) as (S1 & S2 & S3). eapply pwp_change_session; [exact Ex|].
    apply HQ; [done|done|]. intros a y Ha Ey T. rewrite S2. by eapply Hl. }
  intros [a|] Hr; cbv beta iota zeta.
  - destruct Hr as [Ha Ta]. destruct (Hs a Ha) as (y & Ey & St). rewrite Ey in Ta. apply bool_decide_eq_true in Ta. do 2 s_step.
    change (pkcs11_session_is_public y) with (is_public (s_state y)).
    change (pkcs11_session_is_user y) with (is_user (s_state y)).
    change (pkcs11_session_is_so y) with (is_so (s_state y)).
    rewrite (who_public _ St), (who_user _ St), who_so.
    assert (∀ b z, b ∈ session_list cl → ta_sessions s !! b = Some z → s_token z = s_token x → who_of (s_state z) = who_of (s_state y)) as Same.
    { intros b z Hb Ez Tz. eapply Lg; [exact Hb|exact Ha|done|done|congruence]. }
    destruct (who_of (s_state y)) eqn:Wy.
    + specialize (Go Public). destruct ro; apply Go; done.
    + specialize (Go User). destruct ro; apply Go; done.
    + destruct ro; [by apply (pwp_panic s)|by apply (Go So)].
  - specialize (Go Public). destruct ro; (apply Go; [done|]); intros b z Hb Ez Tz; specialize (Hr b Hb); rewrite Ez in Hr;
      by apply bool_decide_eq_false in Hr.
Qed.

(** Addresses that are skipped. *)
Lemma kept_next s h : ta_inv 0 s → ta_next s < ADDRESS_END → kept s (set_next (ta_next s + 1) (set_h h s)).
Proof.
  intros [K O P] Lt. split; [|done]. pose proof (sk_next _ _ K) as Ln. cbn in Ln. constructor; [| |exact P].
  - eapply skel_ok_next; [exact K|cbn; lia].
  - eapply obj_ok_next; [exact O|cbn; lia].
Qed.

Lemma kept_next_h s h h' : kept s (set_next (ta_next s + 1) (set_h h s)) → kept s (set_h h' (set_next (ta_next s + 1) (set_h h s))).
Proof. by intros [I K]. Qed.

(** The result of opening is as in [open_skel]. *)
Lemma opened_view s0 s c cl n (t : nat) h st db k (ro : bool) : skel_of s0 = skel_of s → oskel_of s0 = oskel_of s →
  t_db_main <$> ta_tokens s0 = t_db_main <$> ta_tokens s →
  ta_clients s0 !! c = Some cl → ta_tokens s0 !! t = Some k → is_rw st = negb ro →
  view_of (mk_ta _ (<[t:=with_counts (λ n, u32 (n + 1)) (λ n, if ro then n else u32 (n + 1)) k]> (ta_tokens s0))
    (ta_client_list s0)
    (<[c:=with_client_list (n :: session_list cl) (with_session_db db cl)]> (ta_clients s0))
    (<[n:=mk_session c t h [] st None None]> (ta_sessions s0)) (ta_objects s0) (n + 1) (ta_h s0)) =
  mk_view (n + 1) (open_skel n (mk_ss c t h st) db (skel_of s)) (put_session n c (oskel_of s)) (t_db_main <$> ta_tokens s).
Proof.
  intros <- <- <- Ec Ek Rw. unfold view_of, skel_of, oskel_of, open_skel, put_session. cbn. f_equal; [f_equal|f_equal|].
  - eapply fmap_alter_list; [done|]. unfold counts_of. cbn. rewrite Rw. by destruct ro.
  - by eapply (fmap_alter sc_of (λ x, with_client_list (n :: session_list x) (with_session_db db x))).
  - by rewrite fmap_insert.
  - by eapply (fmap_same_list t_object_list (with_counts _ _)).
  - by eapply (fmap_same object_handle_db (λ x, with_client_list _ (with_session_db _ x))).
  - by rewrite fmap_insert.
  - by eapply (fmap_same_list t_db_main (with_counts _ _)).
Qed.

(** What [entry_ck_open_session] does once nothing speaks against it. *)
Definition open_rest (c : Z) (t : nat) (ro : bool) (cl : pkcs11_client) : SM (Z * Z) :=
  a ← new_address;
  match a with
  | None => mret (PKCS11_CKR_DEVICE_MEMORY, 0)
  | Some session =>
      ok ← handle_room (session_handle_db cl);
      let '(handle, db) := handle_get ok session (session_handle_db cl) in
      _ ← change_client c (with_session_db db);
      if handle =? 0 then mret (PKCS11_CKR_DEVICE_MEMORY, 0) else
      _ ← modify (λ s, set_sessions
            (<[session:=mk_session c t handle [] PKCS11_CKS_RO_PUBLIC_SESSION None None]> (ta_sessions s)) s);
      _ ← set_session_state c session ro;
      _ ← change_client c (λ c, with_client_list (session :: session_list c) c);
      _ ← change_token t (with_counts (λ n, u32 (n + 1)) (λ n, if ro then n else u32 (n + 1)));
      mret (PKCS11_CKR_OK, handle)
  end.

(** A session [st] more. *)
Definition opened (c : Z) (t : nat) (h st : Z) s s' : Prop :=
  sound s' ∧ ∃ db, skel_of s' = open_skel (ta_next s) (mk_ss c t h st) db (skel_of s).

Lemma open_rest_spec c (t : nat) ro cl k s (Q : Z * Z → ta → Prop) : sound s → ta_clients s !! c = Some cl → ta_tokens s !! t = Some k →
  (∀ rc s', rc ≠ 0 → kept s s' → Q (rc, 0) s') →
  (∀ s' h st, h ≠ 0 → is_rw st = negb ro → opened c t h st s s' → Q (0, h) s') →
  pwp (open_rest c t ro cl) s Q.
Proof.
  intros [I L] Ec Ek HQ0 HQ. unfold open_rest. s_step. apply pwp_new_address.
  { intros h. s_step. apply HQ0; [done|by apply kept_same]. }
  intros h0 Lt. cbv beta iota. set (n := ta_next s) in *. pose proof (kept_next s h0 I Lt) as K0. pose proof (vo_skel _ _ I) as Sk.
  pose proof (sk_next _ _ Sk) as Ln. cbn in Ln. pose proof (sk_cap _ _ Sk _ _ (client_in _ _ _ Ec)) as C.
  s_step. apply pwp_handle_room; [exact C|]. intros ok h1 Room.
  destruct (handle_get ok n (session_handle_db cl)) as [h db] eqn:G. s_step. eapply pwp_change_client; [exact Ec|].
  destruct (got_handle (n + 1) (session_handle_db cl) n ok h db) as [[-> ->]|F]; [exact C|split; unfold n; lia|unfold n; lia|done|done| |].
  { change (0 =? 0) with true. s_step. apply HQ0; [done|]. eapply kept_trans; [exact K0|]. apply kept_same; [apply K0|].
    by apply (view_client_same (set_h h1 (set_next (n + 1) (set_h h0 s))) c cl (with_session_db (session_handle_db cl))). }
  rewrite (proj2 (Z.eqb_neq _ _) (fh_nonzero _ _ _ _ F)). do 3 s_step.
  destruct (client_sessions _ _ _ _ I Ec) as [_ Im].
  assert (Nn : ta_sessions s !! n = None).
  { destruct (ta_sessions s !! n) as [y|] eqn:E; [|done]. destruct (sk_saddr _ _ Sk _ _ (session_in _ _ _ E)) as [_ B]. cbn in B. unfold n in B. lia. }
  assert (Nl : ∀ a, a ∈ session_list cl → a ≠ n ∧ ∃ y, ta_sessions s !! a = Some y ∧ s_client y = c).
  { intros a (y & Ey & Cy)%Im. split; [intros ->; congruence|by exists y]. }
  eapply set_session_state_spec; [cbn; by rewrite lookup_insert_eq|cbn; by rewrite lookup_insert_eq|..].
  - cbn. intros Hn. by destruct (Nl n Hn).
  - cbn. intros a Ha. destruct (Nl a Ha) as (Na & y & Ey & _). exists y. rewrite lookup_insert_ne by done.
    split; [done|]. by eapply session_state.
  - cbn. intros a b y z Ha Hb. destruct (Nl a Ha) as (Na & y' & Ey & Cy), (Nl b Hb) as (Nb & z' & Ez & Cz).
    rewrite !lookup_insert_ne by done. intros E1 E2 T. assert (y' = y) as -> by congruence. assert (z' = z) as -> by congruence.
    apply (L a b (ss_of y) (ss_of z)); [by apply session_in|by apply session_in|cbn; congruence|done].
  - cbn. intros st St Rw Lg. s_step. eapply pwp_change_client; [cbn; by rewrite lookup_insert_eq|]. s_step.
    eapply pwp_change_token; [exact Ek|]. s_step. set (sf := set_tokens _ _).
    assert (V : view_of sf = mk_view (n + 1) (open_skel n (mk_ss c t h st) db (skel_of s)) (put_session n c (oskel_of s)) (t_db_main <$> ta_tokens s)).
    { rewrite <-(opened_view s s c cl n t h st db k ro); try done. unfold sf, view_of, skel_of, oskel_of. cbn. by rewrite !insert_insert_eq. }
    apply (HQ sf h st); [apply F|done|]. split; [split|exists db; by rewrite (skel_of_view _ _ V)].
    + unfold ta_inv. rewrite V. constructor; [|cbn|apply I].
      * apply (open_skel_ok _ _ _ _ (sc_of cl)); [exact Sk|exact Lt|by apply client_in|exact F| |exact St].
        cbn. rewrite length_fmap. by eapply lookup_lt_Some.
      * apply obj_ok_put_session; [eapply obj_ok_next; [apply I|cbn; unfold n; lia]|]. cbn. by rewrite lookup_fmap, Nn.
    + rewrite (skel_of_view _ _ V). apply open_login_ok; [exact L|]. intros b y Eb Cb Tb.
      apply view_session in Eb as (y' & Ey & <- & _). cbn in Cb, Tb. apply (Lg b y'); [|by rewrite lookup_insert_ne by (intros ->; congruence)|done].
      apply Im. by exists y'.
Qed.

Lemma entry_ck_open_session_spec c (t : nat) fl s (Q : Z * Z → ta → Prop) : sound s → is_Some (ta_clients s !! c) →
  (∀ rc s', rc ≠ 0 → kept s s' → Q (rc, 0) s') →
  (∀ s' h st, h ≠ 0 → is_rw st = has_flag fl PKCS11_CKFSS_RW_SESSION → opened c t h st s s' → Q (0, h) s') →
  pwp (entry_ck_open_session c t fl) s Q.
Proof.
  intros S [cl Ec] HQ0 HQ. assert (Here : ∀ rc, rc ≠ 0 → Q (rc, 0) s) by (intros; apply HQ0; [done|apply kept_refl, S]).
  unfold entry_ck_open_session. do 2 s_step. destruct (ta_tokens s !! t) as [k|] eqn:Ek; [|s_step; by apply Here].
  destruct (negb (has_flag fl PKCS11_CKFSS_SERIAL_SESSION)); [s_step; by apply Here|].
  case_match; [s_step; by apply Here|]. cbv zeta. set (ro := negb (has_flag fl PKCS11_CKFSS_RW_SESSION)).
  destruct (negb ro && _); [s_step; by apply Here|].
  assert (pwp (open_rest c t ro cl) s Q) as Go.
  { eapply open_rest_spec; [done..|]. intros s' h st Nh Rw. apply HQ; [done|]. rewrite Rw. unfold ro. by destruct (has_flag _ _). }
  do 3 s_step. destruct ro; [|s_step; exact Go]. eapply (pwp_find_session s c cl _ pkcs11_session_is_so); [apply S|done| |].
  - intros a y R Ey HR. do 3 s_step. done.
  - intros so _. case_bool_decide; [s_step; by apply Here|]. exact Go.
Qed.


(** ** Closing a session *)

Lemma session_by_view s a y : k_sessions (skel_of s) !! a = Some y → ∃ x, ta_sessions s !! a = Some x ∧ ss_of x = y.
Proof. intros E. apply view_session in E as (x & Ex & Sx & _). by exists x. Qed.

Lemma length_without a l : (length (without a l) ≤ length l)%nat.
Proof. unfold without. apply length_filter. Qed.

Lemma destroy_session_objects_spec a fuel : ∀ s x (Q : unit → ta → Prop), ta_inv 0 s → ta_sessions s !! a = Some x →
  (length (s_object_list x) < fuel)%nat →
  (∀ s' x', kept s s' → ta_sessions s' !! a = Some x' → ss_of x' = ss_of x → s_object_list x' = [] → Q tt s') →
  pwp (destroy_session_objects fuel a) s Q.
Proof.
  induction fuel as [|fuel IH]; intros s x Q I Ex Lt HQ; [lia|]. cbn [destroy_session_objects]. do 2 s_step.
  destruct (s_object_list x) as [|p l] eqn:El; [s_step; apply (HQ s x); [by apply kept_refl|done..]|].
  s_step. eapply destroy_session_object_spec; [exact I|exact Ex|exact Ex|done|rewrite El; by left|].
  intros s1 cl _ I1 V1. assert (kept s s1) as K1 by (split; [done|by rewrite (skel_of_view _ _ V1)]).
  destruct (kept_session _ _ _ _ K1 Ex) as (x1 & Ex1 & Sx1).
  assert (s_object_list x1 = without p (p :: l)) as El1.
  { pose proof (session_objs_in _ _ _ Ex1) as E. change (q_sessions (v_obj (view_of s1)) !! a = Some (s_client x1, s_object_list x1)) in E.
    rewrite V1 in E. cbn in E. rewrite !lookup_fmap, Ex in E. cbn in E. rewrite El in E. by injection E. }
  eapply IH; [exact I1|exact Ex1| |].
  - rewrite El1. unfold without. rewrite filter_cons_False by (intros N; by apply N). cbn in Lt. pose proof (length_without p l). unfold without in *. lia.
  - intros s2 x2 K2 Ex2 Sx2 El2. apply (HQ s2 x2); [by eapply kept_trans|done|congruence|done].
Qed.

Lemma closed_view s a x c k db : ta_sessions s !! a = Some x → ta_clients s !! s_client x = Some c → ta_tokens s !! s_token x = Some k →
  view_of (mk_ta _ (<[s_token x:=with_counts (λ n, u32 (n - 1)) (λ n, if pkcs11_session_is_read_write x then u32 (n - 1) else n) k]> (ta_tokens s))
    (ta_client_list s)
    (<[s_client x:=with_session_db db (with_client_list (without a (session_list c)) c)]> (ta_clients s))
    (delete a (ta_sessions s)) (ta_objects s) (ta_next s) (ta_h s)) =
  mk_view (ta_next s) (close_skel a (ss_of x) db (skel_of s)) (drop_session a (oskel_of s)) (t_db_main <$> ta_tokens s).
Proof.
  intros Ex Ec Ek. unfold view_of, skel_of, oskel_of, close_skel, drop_session. cbn. f_equal; [f_equal|f_equal|].
  - eapply fmap_alter_list; [done|]. done.
  - by eapply (fmap_alter sc_of (λ y, with_session_db db (with_client_list (without a (session_list y)) y))).
  - by rewrite fmap_delete.
  - by eapply (fmap_same_list t_object_list (with_counts _ _)).
  - by eapply (fmap_same object_handle_db (λ y, with_session_db _ (with_client_list _ y))).
  - by rewrite fmap_delete.
  - by eapply (fmap_same_list t_db_main (with_counts _ _)).
Qed.

(** The session is gone, and nothing else of the kind. *)
Definition closed (a : Z) (x : skel_session) s s' : Prop :=
  sound s' ∧ ∃ db, skel_of s' = close_skel a x db (skel_of s).

Lemma close_ck_session_spec a x s (Q : unit → ta → Prop) : sound s → ta_sessions s !! a = Some x →
  (∀ s', closed a (ss_of x) s s' → Q tt s') → pwp (close_ck_session a) s Q.
Proof.
  intros [I L] Ex HQ. unfold close_ck_session, release_active_processing, release_session_find_obj_context.
  s_step. eapply change_session_same; [exact Ex|done|]. intros s1 V1. pose proof (kept_same _ _ I V1) as K1.
  destruct (kept_session _ _ _ _ K1 Ex) as (x1 & Ex1 & Sx1).
  s_step. eapply change_session_same; [exact Ex1|done|]. intros s2 V2. pose proof (kept_same _ _ (kp_inv _ _ K1) V2) as K2.
  destruct (kept_session _ _ _ _ K2 Ex1) as (x2 & Ex2 & Sx2). do 2 s_step. s_step.
  eapply destroy_session_objects_spec; [apply K2|exact Ex2|lia|]. intros s3 x3 K3 Ex3 Sx3 El.
  pose proof (kept_trans _ _ _ (kept_trans _ _ _ K1 K2) K3) as K. pose proof (kp_inv _ _ K3) as I3. pose proof (vo_skel _ _ I3) as Sk3.
  assert (ss_of x3 = ss_of x) as Sx by congruence. rewrite <-Sx in HQ. clear dependent s1 s2.
  destruct (session_client _ _ _ _ I3 Ex3) as [c Ec]. destruct (session_token _ _ _ _ I3 Ex3) as [k Ek]. do 3 s_step.
  eapply pwp_change_client; [exact Ec|]. s_step. eapply pwp_change_client; [cbn; by rewrite lookup_insert_eq|].
  s_step. eapply pwp_change_token; [exact Ek|]. unfold free_session. s_step. cbn [session_handle_db with_client_list].
  set (db := (handle_put _ _).2). set (sf := set_sessions _ _).
  assert (V : view_of sf = mk_view (ta_next s3) (close_skel a (ss_of x3) db (skel_of s3)) (drop_session a (oskel_of s3)) (t_db_main <$> ta_tokens s3)).
  { rewrite <-(closed_view s3 a x3 c k db) by done. unfold sf, view_of, skel_of, oskel_of. cbn. by rewrite !insert_insert_eq. }
  apply HQ. split; [|exists db; rewrite (skel_of_view _ _ V); by rewrite <-(kp_skel _ _ K)]. split.
  - unfold ta_inv. rewrite V. constructor; [|cbn|apply I3].
    + apply (close_skel_ok _ _ _ _ _ (sc_of c)); [exact Sk3|by apply session_in|by apply client_in|].
      apply put_dropped; [exact (sk_handle _ _ Sk3 _ _ (session_in _ _ _ Ex3))|exact (sk_cap _ _ Sk3 _ _ (client_in _ _ _ Ec))].
    + apply (obj_ok_drop_session _ _ _ (s_client x3)); [apply I3|]. rewrite (session_objs_in _ _ _ Ex3). by rewrite El.
  - rewrite (skel_of_view _ _ V). apply close_login_ok. by rewrite (kp_skel _ _ K).
Qed.

Lemma entry_ck_close_session_spec c h s (Q : Z → ta → Prop) : sound s → is_Some (ta_clients s !! c) →
  Q PKCS11_CKR_SESSION_HANDLE_INVALID s →
  (∀ a x s', k_sessions (skel_of s) !! a = Some x → k_client x = c → k_handle x = h → closed a x s s' → Q PKCS11_CKR_OK s') →
  pwp (entry_ck_close_session c h) s Q.
Proof.
  intros S Ec HQ0 HQ. unfold entry_ck_close_session. s_step. apply pwp_handle2session; [apply S|done|change (0 =? 0) with true; by s_step|].
  intros a x Na Ex Cx Hx. rewrite (proj2 (Z.eqb_neq _ _) Na). s_step. eapply close_ck_session_spec; [done|exact Ex|].
  intros s' C'. s_step. apply (HQ a (ss_of x)); [by apply session_in|done..].
Qed.

(** The sessions that [P] says are closed, the others are as before. *)
Record closed_all (P : Z → skel_session → bool) s s' : Prop := {
  ca_sound : sound s';
  ca_sessions : ∀ a x, k_sessions (skel_of s') !! a = Some x ↔ k_sessions (skel_of s) !! a = Some x ∧ P a x = false;
  ca_clients : ∀ c, is_Some (ta_clients s' !! c) ↔ is_Some (ta_clients s !! c);
}.

Lemma close_list_spec l (f : Z → SM unit) (P : skel_session → bool) s (Q : unit → ta → Prop) : sound s → NoDup l →
  (∀ a, a ∈ l → is_Some (ta_sessions s !! a)) →
  (∀ a x s1 (R : unit → ta → Prop), sound s1 → ta_sessions s1 !! a = Some x →
     (∀ s2, (if P (ss_of x) then closed a (ss_of x) s1 s2 else s2 = s1) → R tt s2) → pwp (f a) s1 R) →
  (∀ s', closed_all (λ a x, bool_decide (a ∈ l) && P x) s s' → Q tt s') →
  pwp (foreach l f) s Q.
Proof.
  intros S Nd Hl Hf HQ.
  apply (pwp_foreach _ _ (λ rest s1, ∃ done, l = done ++ rest ∧ closed_all (λ a x, bool_decide (a ∈ done) && P x) s s1)).
  - exists []. split; [done|]. split; [done| |done]. intros a x. rewrite bool_decide_eq_false_2 by apply not_elem_of_nil. naive_solver.
  - intros a rest s1 (dn & -> & C). apply NoDup_app in Nd as (_ & Dis & [Nr _]%NoDup_cons).
    assert (a ∉ dn) as Na by (intros Ha; apply (Dis a Ha); by left).
    destruct (Hl a) as [x0 Ex0]; [apply elem_of_app; right; by left|].
    assert (k_sessions (skel_of s1) !! a = Some (ss_of x0)) as E1.
    { apply (ca_sessions _ _ _ C). split; [by apply session_in|]. by rewrite bool_decide_eq_false_2. }
    apply session_by_view in E1 as (x & Ex & Sx). eapply Hf; [apply C|exact Ex|]. intros s2 Hs2.
    exists (dn ++ [a]). split; [by rewrite <-app_assoc|]. rewrite Sx in Hs2.
    assert (bool_decide (a ∈ dn ++ [a]) = true) as Ba by (apply bool_decide_eq_true, elem_of_app; right; by left).
    assert (∀ b, b ≠ a → bool_decide (b ∈ dn ++ [a]) = bool_decide (b ∈ dn)) as Bb.
    { intros b Nb. apply bool_decide_ext. rewrite elem_of_app, list_elem_of_singleton. naive_solver. }
    destruct (P (ss_of x0)) eqn:Px.
    + destruct Hs2 as [S2 [db K2]]. split; [done| |].
      * intros b y. rewrite K2. cbn [close_skel k_sessions]. rewrite lookup_delete_Some. destruct (decide (b = a)) as [->|Nb].
        -- rewrite Ba. split; [naive_solver|]. intros [Ey Py]. rewrite (session_in _ _ _ Ex0) in Ey. injection Ey as <-. by rewrite Px in Py.
        -- rewrite (Bb b Nb), <-(ca_sessions _ _ _ C). naive_solver.
      * intros c. rewrite <-(ca_clients _ _ _ C). assert (k_clients (skel_of s2) = k_clients (close_skel a (ss_of x0) db (skel_of s1))) as Kc by by rewrite K2.
        cbn in Kc. apply (f_equal (λ m, m !! c)) in Kc. rewrite lookup_alter_map, !lookup_fmap in Kc.
        destruct (ta_clients s2 !! c), (ta_clients s1 !! c); try done; by rewrite !is_Some_alt.
    + subst s2. split; [apply C| |apply C]. intros b y. rewrite (ca_sessions _ _ _ C). destruct (decide (b = a)) as [->|Nb].
      * rewrite Ba, bool_decide_eq_false_2 by done. split; intros [Ey _]; (split; [done|]); [|done].
        rewrite (session_in _ _ _ Ex0) in Ey. injection Ey as <-. done.
      * by rewrite (Bb b Nb).
  - intros s1 (dn & -> & C). rewrite app_nil_r in HQ. by apply HQ.
Qed.

Lemma closed_all_ext P P' s s' : closed_all P s s' → (∀ a x, k_sessions (skel_of s) !! a = Some x → P a x = P' a x) → closed_all P' s s'.
Proof.
  intros [S K C] E. split; [done| |done]. intros a x. rewrite K. split; intros [Ex Px]; (split; [done|]); [rewrite <-E|rewrite E]; done.
Qed.

Lemma in_client_list s c cl a x : ta_inv 0 s → ta_clients s !! c = Some cl → k_sessions (skel_of s) !! a = Some x →
  bool_decide (a ∈ session_list cl) = bool_decide (k_client x = c).
Proof.
  intros I Ec Ex. apply bool_decide_ext. rewrite (proj2 (client_sessions _ _ _ _ I Ec)).
  apply session_by_view in Ex as (y & Ey & <-). split; [intros (z & Ez & <-); by assert (z = y) as -> by congruence|].
  intros <-. by exists y.
Qed.

Definition of_client (c : Z) (x : skel_session) : bool := bool_decide (k_client x = c).
Definition of_token (t : nat) (x : skel_session) : bool := bool_decide (k_token x = t).

Lemma entry_ck_close_all_sessions_spec c t s (Q : Z → ta → Prop) : sound s → is_Some (ta_clients s !! c) →
  (ta_tokens s !! t = None → Q PKCS11_CKR_SLOT_ID_INVALID s) →
  (∀ s', closed_all (λ _ x, of_client c x && of_token t x) s s' → Q PKCS11_CKR_OK s') →
  pwp (entry_ck_close_all_sessions c t) s Q.
Proof.
  intros S [cl Ec] HQ0 HQ. destruct (client_sessions _ _ _ _ (so_inv _ S) Ec) as [Nd Im].
  unfold entry_ck_close_all_sessions. do 2 s_step. destruct (ta_tokens s !! t) as [k|]; [|s_step; by apply HQ0]. do 3 s_step.
  apply (close_list_spec _ _ (of_token t)); [done|done|intros a (x & Ex & _)%Im; by exists x| |].
  - intros a x s1 R S1 Ex1 HR. do 2 s_step. unfold of_token in HR. cbn in HR. case_bool_decide.
    + by eapply close_ck_session_spec.
    + s_step. by apply HR.
  - intros s' C. s_step. apply HQ. eapply closed_all_ext; [exact C|]. intros a x Ex.
    cbv beta. by rewrite (in_client_list _ _ _ _ _ (so_inv _ S) Ec Ex).
Qed.

Lemma unregister_client_spec c s (Q : unit → ta → Prop) : sound s → is_Some (ta_clients s !! c) →
  (∀ s', sound s' → (∀ a x, k_sessions (skel_of s') !! a = Some x ↔ k_sessions (skel_of s) !! a = Some x ∧ k_client x ≠ c) →
     (∀ c', is_Some (ta_clients s' !! c') ↔ is_Some (ta_clients s !! c') ∧ c' ≠ c) → Q tt s') →
  pwp (unregister_client c) s Q.
Proof.
  intros S [cl Ec] HQ. destruct (client_sessions _ _ _ _ (so_inv _ S) Ec) as [Nd Im]. unfold unregister_client.
  assert (c ≠ 0) as Nc by (destruct (sk_addr _ _ (vo_skel _ _ (so_inv _ S)) _ _ (client_in _ _ _ Ec)); lia).
  rewrite (proj2 (Z.eqb_neq _ _) Nc). do 3 s_step.
  apply (close_list_spec _ _ (λ _, true)); [done|done|intros a (x & Ex & _)%Im; by exists x| |].
  - intros a x s1 R S1 Ex1 HR. by eapply close_ck_session_spec.
  - intros s1 C. apply (closed_all_ext _ (λ _ x, of_client c x)) in C.
    2:{ intros a x Ex. cbv beta. by rewrite (in_client_list _ _ _ _ _ (so_inv _ S) Ec Ex), andb_true_r. }
    destruct C as [[I1 L1] K1 C1]. unfold free_client. do 3 s_step. set (sf := set_clients _ _).
    assert (V : view_of sf = mk_view (ta_next s1) (drop_client_skel c (skel_of s1)) (drop_db c (oskel_of s1)) (t_db_main <$> ta_tokens s1)).
    { unfold sf, view_of, skel_of, oskel_of, drop_client_skel, drop_db. cbn. by rewrite !fmap_delete. }
    assert (∀ a x, k_sessions (skel_of s1) !! a = Some x → k_client x ≠ c) as No.
    { intros a x Ex. apply K1 in Ex as [_ Ox]. by apply bool_decide_eq_false in Ox. }
    apply HQ.
    + split; [|by rewrite (skel_of_view _ _ V)]. unfold ta_inv. rewrite V. constructor; [|apply obj_ok_drop_client, I1|apply I1].
      apply drop_client_skel_ok; [apply I1|exact No].
    + intros a x. rewrite (skel_of_view _ _ V). cbn [v_skel drop_client_skel k_sessions]. rewrite K1. unfold of_client.
      by rewrite bool_decide_eq_false.
    + intros c'. cbn. rewrite lookup_delete_is_Some, C1. naive_solver.
Qed.

(** ** Login *)

Lemma view_state s a x st : ta_sessions s !! a = Some x →
  view_of (set_sessions (<[a:=with_state st x]> (ta_sessions s)) s) =
  mk_view (ta_next s) (state_skel a st (skel_of s)) (oskel_of s) (t_db_main <$> ta_tokens s).
Proof.
  intros Ex. unfold view_of, skel_of, oskel_of, state_skel. cbn. f_equal; f_equal.
  - by eapply (fmap_alter ss_of (with_state st)).
  - by eapply (fmap_same (λ x, (s_client x, s_object_list x)) (with_state st)).
Qed.

(** The state of one session for [w], if it is with the token [t]. *)
Definition relog_one (t : nat) (w : who) (a : Z) (x : skel_session) (k : skel) : skel :=
  if decide (k_token x = t) then state_skel a (state_of w (is_rw (k_state x))) k else k.

(** The sessions in [d] are done. *)
Record relogged (c : Z) (t : nat) (w : who) (d : list Z) s0 s : Prop := {
  rg_tokens : k_tokens (skel_of s) = k_tokens (skel_of s0);
  rg_list : k_client_list (skel_of s) = k_client_list (skel_of s0);
  rg_clients : k_clients (skel_of s) = k_clients (skel_of s0);
  rg_sessions : ∀ a, k_sessions (skel_of s) !! a =
    (λ x, if decide (a ∈ d) then relog c t w x else x) <$> k_sessions (skel_of s0) !! a;
}.

Lemma relogged_start c t w s : relogged c t w [] s s.
Proof.
  split; try done. intros a. destruct (k_sessions (skel_of s) !! a); [|done]. cbn. rewrite decide_False; [done|]. apply not_elem_of_nil.
Qed.

Lemma relogged_step c t w d s0 s s' a x : relogged c t w d s0 s → a ∉ d → k_sessions (skel_of s) !! a = Some x → k_client x = c →
  skel_of s' = relog_one t w a x (skel_of s) → relogged c t w (d ++ [a]) s0 s'.
Proof.
  intros [T L C Sn] Na Ex Cx K. unfold relog_one in K. split; [by case_decide; rewrite K..|].
  assert (E0 : k_sessions (skel_of s0) !! a = Some x).
  { rewrite Sn in Ex. destruct (k_sessions (skel_of s0) !! a) as [y|]; [|done]. cbn in Ex. by rewrite decide_False in Ex. }
  intros b. destruct (decide (b = a)) as [->|Nb].
  - rewrite E0. cbn [fmap option_fmap option_map]. rewrite decide_True by (apply elem_of_app; right; by left). unfold relog.
    case_decide as D; rewrite K.
    + cbn [state_skel k_sessions]. rewrite lookup_alter_eq, Ex. cbn. by rewrite decide_True.
    + rewrite Ex. by rewrite decide_False by naive_solver.
  - assert (k_sessions (skel_of s') !! b = k_sessions (skel_of s) !! b) as ->.
    { case_decide; rewrite K; [|done]. cbn [state_skel k_sessions]. by rewrite lookup_alter_ne. }
    rewrite Sn. destruct (k_sessions (skel_of s0) !! b); [|done]. cbn. f_equal. apply decide_ext.
    rewrite elem_of_app, list_elem_of_singleton. naive_solver.
Qed.

Lemma relogged_all c t w cl s0 s : ta_inv 0 s0 → ta_clients s0 !! c = Some cl → relogged c t w (session_list cl) s0 s →
  skel_of s = relog_skel c t w (skel_of s0).
Proof.
  intros I Ec [T L C Sn]. assert (k_sessions (skel_of s) = relog c t w <$> k_sessions (skel_of s0)) as K.
  { apply map_eq. intros a. rewrite Sn, lookup_fmap. destruct (k_sessions (skel_of s0) !! a) as [x|] eqn:Ex; [|done]. cbn. f_equal.
    pose proof (in_client_list _ _ _ _ _ I Ec Ex) as E. unfold relog.
    destruct (decide (a ∈ session_list cl)) as [Ha|Ha]; [done|]. rewrite bool_decide_eq_false_2 in E by done.
    symmetry in E. apply bool_decide_eq_false in E. by rewrite decide_False by naive_solver. }
  unfold relog_skel. rewrite <-K, <-T, <-L, <-C. by destruct (skel_of s).
Qed.

Lemma relog_list_spec (J : list Z → ta → Prop) l (f : Z → SM unit) c t w s (Q : unit → ta → Prop) : NoDup l →
  (∀ a, a ∈ l → ∃ x, ta_sessions s !! a = Some x ∧ s_client x = c) → J [] s →
  (∀ a d x s1 (R : unit → ta → Prop), a ∈ l → a ∉ d → J d s1 → relogged c t w d s s1 → ta_sessions s1 !! a = Some x → s_client x = c →
     (∀ s2, J (d ++ [a]) s2 → skel_of s2 = relog_one t w a (ss_of x) (skel_of s1) → R tt s2) → pwp (f a) s1 R) →
  (∀ s', J l s' → relogged c t w l s s' → Q tt s') →
  pwp (foreach l f) s Q.
Proof.
  intros Nd Hl J0 Hf HQ.
  apply (pwp_foreach _ _ (λ rest s1, ∃ d, l = d ++ rest ∧ J d s1 ∧ relogged c t w d s s1)).
  - exists []. split_and!; [done..|apply relogged_start].
  - intros a rest s1 (d & -> & Jd & G). apply NoDup_app in Nd as (_ & Dis & _).
    assert (a ∉ d) as Na by (intros Ha; apply (Dis a Ha); by left).
    assert (a ∈ d ++ a :: rest) as Ha by (apply elem_of_app; right; by left). destruct (Hl a Ha) as (x0 & Ex0 & Cx0).
    assert (k_sessions (skel_of s1) !! a = Some (ss_of x0)) as E1.
    { rewrite (rg_sessions _ _ _ _ _ _ G), (session_in _ _ _ Ex0). cbn. by rewrite decide_False. }
    apply session_by_view in E1 as (x & Ex & Sx). eapply Hf; [done|done|done|done|exact Ex| |].
    + injection Sx as -> _ _ _. done.
    + intros s2 J2 K2. exists (d ++ [a]). split_and!; [by rewrite <-app_assoc|done|].
      eapply relogged_step; [done|done|by apply session_in| |done]. by rewrite Sx.
  - intros s1 (d & E & J1 & G). rewrite app_nil_r in E. subst d. by apply HQ.
Qed.

(** Code on the PINs of a token. *)
Lemma on_db_spec {A} (t : nat) (m : PinM A) k s (Q : A → ta → Prop) : ta_inv 0 s → ta_tokens s !! t = Some k →
  (∀ d h, pins_ok d → pwp m (d, h) (λ _ p, pins_ok p.1)) →
  (∀ r s', kept s s' → ta_sessions s' = ta_sessions s → oskel_of s' = oskel_of s → Q r s') → pwp (on_db t m) s Q.
Proof.
  intros I Ek Hm HQ. assert (pins_ok (t_db_main k)) as Pk.
  { pose proof (vo_pins _ _ I) as P. cbn in P. rewrite Forall_fmap in P. by eapply (Forall_lookup_1 _ _ _ _ P). }
  unfold on_db. do 2 s_step. apply pwp_zoom. eapply pwp_mono; [by apply Hm|]. intros r [d h] Pd. cbn in Pd. cbn [fst snd].
  set (s' := set_h _ _).
  assert (V : view_of s' = mk_view (ta_next s) (skel_of s) (oskel_of s) (<[t:=d]> (t_db_main <$> ta_tokens s))).
  { unfold s', view_of, skel_of, oskel_of. cbn. f_equal; [f_equal|f_equal|].
    - by eapply (fmap_same_list counts_of (with_db_main d)).
    - by eapply (fmap_same_list t_object_list (with_db_main d)).
    - by rewrite list_fmap_insert. }
  apply HQ; [|done|change (v_obj (view_of s') = oskel_of s); by rewrite V].
  eapply kept_view; [|exact V|done]. unfold ta_inv. rewrite V. constructor; [apply I|apply I|]. cbn.
  apply Forall_insert; [apply I|done].
Qed.

(** All sessions of the client of [x] with its token are [w]'s. *)
Definition logged (w : who) (c : Z) (t : nat) s s' : Prop := sound s' ∧ skel_of s' = relog_skel c t w (skel_of s).

Lemma login_step t w a x s (R : unit → ta → Prop) : ta_inv 0 s → ta_sessions s !! a = Some x → s_token x = t →
  (w = So → is_rw (s_state x) = true) →
  (∀ s2, ta_inv 0 s2 → skel_of s2 = relog_one t w a (ss_of x) (skel_of s) → R tt s2) →
  pwp (change_session a (with_state (state_of w (is_rw (s_state x))))) s R.
Proof.
  intros I Ex T Hw HR. eapply pwp_change_session; [exact Ex|]. pose proof (view_state s a x (state_of w (is_rw (s_state x))) Ex) as V.
  destruct (state_of_ok w (is_rw (s_state x)) Hw) as (S1 & S2 & S3).
  apply HR; [|rewrite (skel_of_view _ _ V); unfold relog_one; by rewrite decide_True].
  unfold ta_inv. rewrite V. constructor; [|apply I|apply I].
  eapply state_skel_ok; [apply I|by apply session_in|done|done].
Qed.

Lemma session_login_spec (so : bool) a x s (Q : unit → ta → Prop) : sound s → ta_sessions s !! a = Some x →
  (∀ s', logged (if so then So else User) (s_client x) (s_token x) s s' → Q tt s') →
  pwp (if so then session_login_so a else session_login_user a) s Q.
Proof.
  intros [I L] Ex HQ. destruct (session_client _ _ _ _ I Ex) as [cl Ec]. destruct (client_sessions _ _ _ _ I Ec) as [Nd Im].
  set (w := if so then So else User) in *.
  assert (Go : ∀ f : Z → SM unit,
    (∀ b y s1 (R : unit → ta → Prop), ta_inv 0 s1 → ta_sessions s1 !! b = Some y →
       (s_token y ≠ s_token x → R tt s1) →
       (s_token y = s_token x → (w = So → is_rw (s_state y) = true) →
          pwp (change_session b (with_state (state_of w (is_rw (s_state y))))) s1 R) → pwp (f b) s1 R) →
    pwp (foreach (session_list cl) f) s Q).
  { intros f Hf. apply (relog_list_spec (λ d s1, ta_inv 0 s1 ∧
      (w = So → ∀ b y, b ∈ d → k_sessions (skel_of s) !! b = Some y → k_token y = s_token x → is_rw (k_state y) = true)) _ _ (s_client x) (s_token x) w);
      [done|by intros b Hb; apply Im in Hb|..].
    - split; [done|]. intros _ b y Hb. by apply elem_of_nil in Hb.
    - intros b d y s1 R Hb Nb [I1 Rw] G Ey Cy HR.
      assert (k_sessions (skel_of s) !! b = Some (ss_of y)) as E0.
      { pose proof (rg_sessions _ _ _ _ _ _ G b) as E. rewrite (session_in _ _ _ Ey) in E.
        destruct (k_sessions (skel_of s) !! b); [|done]. cbn in E. by rewrite decide_False in E. }
      assert (Rw' : (w = So → s_token y = s_token x → is_rw (s_state y) = true) → w = So →
        ∀ b' z, b' ∈ d ++ [b] → k_sessions (skel_of s) !! b' = Some z → k_token z = s_token x → is_rw (k_state z) = true).
      { intros Hy W b' z [Hb'|Hb'%list_elem_of_singleton]%elem_of_app Ez Tz; [by eapply Rw|subst b']. rewrite E0 in Ez. injection Ez as <-. by apply Hy. }
      apply Hf with y; [done|done| |].
      + intros Nt. apply HR; [split; [done|by apply Rw']|]. unfold relog_one. by rewrite decide_False.
      + intros T Hw. apply (login_step (s_token x)); [done|done|done|done|]. intros s2 I2 K2. apply HR; [split; [done|]|done].
        apply Rw'. auto.
    - intros s' [I' Rw] G. apply HQ. pose proof (relogged_all _ _ _ _ _ _ I Ec G) as K. split; [|exact K]. split; [done|].
      rewrite K. apply relog_login_ok; [done|]. intros W b y Ey Cy Ty. apply (Rw W b y); [|done|done].
      apply Im. apply session_by_view in Ey as (z & Ez & <-). by exists z. }
  destruct so; [unfold session_login_so|unfold session_login_user]; do 4 s_step; apply Go; intros b y s1 R I1 Ey HN HT; do 2 s_step;
    case_bool_decide as D; try (s_step; by apply HN).
  - change (pkcs11_session_is_read_write y) with (is_rw (s_state y)). specialize (HT D).
    destruct (is_rw (s_state y)); [by apply HT|by apply (pwp_panic s1)].
  - by apply HT.
Qed.

Lemma logged_kept w c t s s1 s2 : kept s s1 → logged w c t s1 s2 → logged w c t s s2.
Proof. intros [_ K] [S K2]. split; [done|by rewrite K2, K]. Qed.

(** The check of the PIN, and login when it was right. *)
Lemma pin_login_spec (so : bool) a x pin s (Q : Z → ta → Prop) : sound s → ta_sessions s !! a = Some x →
  (∀ rc s', rc ≠ 0 → kept s s' → Q rc s') →
  (∀ s', logged (if so then So else User) (s_client x) (s_token x) s s' → Q PKCS11_CKR_OK s') →
  pwp (rc ← on_db (s_token x) (check_of (if so then SO else USER) (s_token x) pin);
       _ ← (if rc =? 0 then if so then session_login_so a else session_login_user a else mret tt); mret rc) s Q.
Proof.
  intros S Ex HQ0 HQ. destruct (session_token _ _ _ _ (so_inv _ S) Ex) as [k Ek]. s_step.
  eapply on_db_spec; [apply S|exact Ek|intros d h; apply check_of_kept|]. intros rc s1 K1 Es1 _. s_step.
  destruct (Z.eqb_spec rc 0) as [->|Nr]; [|do 2 s_step; by apply HQ0].
  eapply session_login_spec; [by eapply sound_kept|by rewrite Es1|]. intros s2 L2. s_step. apply HQ. by eapply logged_kept.
Qed.

Lemma entry_ck_login_spec c h ut pin s (Q : Z → ta → Prop) : sound s → is_Some (ta_clients s !! c) →
  (∀ rc s', rc ≠ 0 → kept s s' → Q rc s') →
  (∀ a x s', k_sessions (skel_of s) !! a = Some x → k_client x = c → k_handle x = h → who_of (k_state x) = Public →
     ut = PKCS11_CKU_SO ∨ ut = PKCS11_CKU_USER →
     logged (if ut =? PKCS11_CKU_SO then So else User) c (k_token x) s s' → Q PKCS11_CKR_OK s') →
  pwp (entry_ck_login c h ut pin) s Q.
Proof.
  intros S Hc HQ0 HQ. assert (Here : ∀ rc, rc ≠ 0 → Q rc s) by (intros; apply HQ0; [done|apply kept_refl, S]).
  unfold entry_ck_login. s_step. apply pwp_handle2session; [apply S|done|change (0 =? 0) with true; s_step; by apply Here|].
  intros a x Na Ex Cx Hx. rewrite (proj2 (Z.eqb_neq _ _) Na). pose proof (session_state _ _ _ _ (so_inv _ S) Ex) as St.
  do 2 s_step. change (pkcs11_session_is_so x) with (is_so (s_state x)). change (pkcs11_session_is_user x) with (is_user (s_state x)).
  rewrite who_so, (who_user _ St). specialize (HQ a (ss_of x)). specialize (λ s', HQ s' (session_in _ _ _ Ex) Cx Hx). cbn in HQ.
  destruct (Z.eqb_spec ut PKCS11_CKU_SO) as [->|Nso]; [|destruct (Z.eqb_spec ut PKCS11_CKU_USER) as [->|Nu]].
  - case_bool_decide as W1; [s_step; by apply Here|]. case_bool_decide as W2; [s_step; by apply Here|].
    assert (who_of (s_state x) = Public) as W by (by destruct (who_of (s_state x))). destruct Hc as [cl Ec]. do 2 s_step. s_step.
    eapply (pwp_find_session s c cl _ (λ y, bool_decide (s_token y = s_token x) && negb (pkcs11_session_is_read_write y)));
      [apply S|done|intros b y R Ey HR; by do 3 s_step|]. intros ro _.
    case_bool_decide; [s_step; by apply Here|].
    apply (pin_login_spec true a x pin s); [done|done|done|]. intros s' L'. apply HQ; [done|by left|by rewrite <-Cx].
  - case_bool_decide as W1; [s_step; by apply Here|]. case_bool_decide as W2; [s_step; by apply Here|].
    assert (who_of (s_state x) = Public) as W by (by destruct (who_of (s_state x))).
    apply (pin_login_spec false a x pin s); [done|done|done|]. intros s' L'. apply HQ; [done|by right|by rewrite <-Cx].
  - destruct (ut =? _); s_step; by apply Here.
Qed.

(** ** Logout *)

(** Objects and handles only go. *)
Record shrinks (q q' : oskel) : Prop := {
  sh_tokens : q_tokens q' = q_tokens q;
  sh_dbs : ∀ c db', q_dbs q' !! c = Some db' → ∃ db, q_dbs q !! c = Some db ∧
    ∀ h p, slots db' h = Some p → p ≠ INVALID_HANDLE_PTR → slots db h = Some p;
  sh_sessions : ∀ a c l', q_sessions q' !! a = Some (c, l') → ∃ l, q_sessions q !! a = Some (c, l) ∧ ∀ p, p ∈ l' → p ∈ l;
  sh_objects : q_objects q' ⊆ q_objects q;
}.

#[local] Instance shrinks_preorder : PreOrder shrinks.
Proof.
  split.
  - intros q. split; [done|intros c db E; by exists db|intros a c l E; by exists l|done].
  - intros q1 q2 q3 [T1 D1 S1 O1] [T2 D2 S2 O2]. split; [congruence| | |by etrans].
    + intros c db3 E3. destruct (D2 _ _ E3) as (db2 & E2 & H32). destruct (D1 _ _ E2) as (db1 & E1 & H21).
      exists db1. split; [done|]. intros h p Sl Ni. apply H21; [by apply H32|done].
    + intros a c l3 E3. destruct (S2 _ _ _ E3) as (l2 & E2 & H32). destruct (S1 _ _ _ E2) as (l1 & E1 & H21).
      exists l1. split; [done|]. intros p Hp. by apply H21, H32.
Qed.

Lemma shrinks_view s s' : view_of s' = view_of s → shrinks (oskel_of s) (oskel_of s').
Proof. intros V. change (shrinks (v_obj (view_of s)) (v_obj (view_of s'))). by rewrite V. Qed.

Lemma shrinks_put_handle q c db h : q_dbs q !! c = Some db → max_ptrs db < 2 ^ 29 → shrinks q (put_db c (handle_put h db).2 q).
Proof.
  intros E C. split; [done| |intros a c' l El; by exists l|done]. intros c' db'. cbn. rewrite lookup_insert_Some.
  intros [[<- <-]|[_ E']]; [|by exists db']. exists db. split; [done|]. intros h' p Sl Ni.
  destruct (put_slots h db C h') as [X|[X|X]]; congruence.
Qed.

Lemma without_id p l : p ∉ l → without p l = l.
Proof.
  induction l as [|p' l IH]; intros Np; [done|]. apply not_elem_of_cons in Np as [N Np]. unfold without.
  rewrite filter_cons_True by congruence. f_equal. by apply IH.
Qed.

Lemma shrinks_drop q p : (∀ l, l ∈ q_tokens q → p ∉ l) → shrinks q (drop_object p (unlist p q)).
Proof.
  intros Np. split; [|intros c db E; by exists db| |apply delete_subseteq].
  - cbn. apply list_eq. intros t. rewrite list_lookup_fmap. destruct (q_tokens q !! t) as [l|] eqn:E; [|done]. cbn. f_equal.
    apply without_id, Np. by eapply list_elem_of_lookup_2.
  - intros a c l'. cbn. rewrite lookup_fmap, fmap_Some. intros ([c0 l] & E & [= -> ->]). exists l. split; [done|].
    intros p' Hp. by apply elem_of_without in Hp as [_ ?].
Qed.

(** The object is private, as far as can be seen. *)
Definition private (q : oskel) (p : Z) : Prop :=
  ∃ o b, q_objects q !! p = Some o ∧ o_attributes o = Some b ∧ attr_true PKCS11_CKA_PRIVATE b.

(** The session has no private object, or the client no handle of a private object of the token. *)
Definition hides_session (a : Z) (q : oskel) : Prop := ∀ c l p, q_sessions q !! a = Some (c, l) → p ∈ l → ¬ private q p.
Definition hides_token (t : nat) (c : Z) (q : oskel) : Prop := ∀ l db p, q_tokens q !! t = Some l → q_dbs q !! c = Some db →
  p ∈ l → p ≠ INVALID_HANDLE_PTR → private q p → no_slot p db.

Lemma private_mono q q' p : shrinks q q' → private q' p → private q p.
Proof. intros [_ _ _ O] (o & b & E & R). exists o, b. split; [|done]. by eapply lookup_weaken. Qed.

Lemma hides_session_mono a q q' : shrinks q q' → hides_session a q → hides_session a q'.
Proof.
  intros Sh Hs c l' p E' Hp P. destruct (sh_sessions _ _ Sh _ _ _ E') as (l & E & Sub).
  apply (Hs c l p E (Sub p Hp)). by eapply private_mono.
Qed.

Lemma hides_token_mono t c q q' : shrinks q q' → hides_token t c q → hides_token t c q'.
Proof.
  intros Sh Ht l db' p El E' Hp Ni P h Nh Sl. rewrite (sh_tokens _ _ Sh) in El. destruct (sh_dbs _ _ Sh _ _ E') as (db & E & Sub).
  eapply (Ht l db p); [done|done|done|done|by eapply private_mono|exact Nh|by apply Sub].
Qed.

(** The objects of a session are in no list of a token. *)
Lemma session_object_no_token s a x p l : ta_inv 0 s → ta_sessions s !! a = Some x → p ∈ s_object_list x →
  l ∈ q_tokens (oskel_of s) → p ∉ l.
Proof.
  intros I Ex Hp [t El]%list_elem_of_lookup Hl. pose proof (vo_obj _ _ I) as O.
  destruct (oo_sess _ _ _ O _ _ _ (session_objs_in _ _ _ Ex)) as [_ Im]. destruct (Im p Hp) as (_ & o & Eo & T & _).
  destruct (token_object s t l p I El Hl) as (o' & Eo' & T' & _). cbn in Eo. congruence.
Qed.

(** What one loop of [logout_session] does. *)
Record logging_out s s' : Prop := { lo_kept : kept s s'; lo_shrinks : shrinks (oskel_of s) (oskel_of s') }.

Lemma logging_out_refl s : ta_inv 0 s → logging_out s s.
Proof. intros I. split; [by apply kept_refl|done]. Qed.

Lemma logging_out_trans s1 s2 s3 : logging_out s1 s2 → logging_out s2 s3 → logging_out s1 s3.
Proof. intros [K1 S1] [K2 S2]. split; [by eapply kept_trans|by etrans]. Qed.

Lemma logging_out_same s s' : ta_inv 0 s → view_of s' = view_of s → logging_out s s'.
Proof. intros I V. split; [by apply kept_same|by apply shrinks_view]. Qed.

Lemma session_objects_of s a x c l : ta_sessions s !! a = Some x → q_sessions (oskel_of s) !! a = Some (c, l) →
  c = s_client x ∧ l = s_object_list x.
Proof. intros Ex E. rewrite (session_objs_in _ _ _ Ex) in E. by injection E as <- <-. Qed.

(** The private objects of a session are destroyed. *)
Lemma destroy_private_spec b y s (Q : unit → ta → Prop) : ta_inv 0 s → ta_sessions s !! b = Some y →
  (∀ s', logging_out s s' → hides_session b (oskel_of s') → Q tt s') →
  pwp (foreach (s_object_list y) (λ obj, o ← object_at obj; private ← object_bool o PKCS11_CKA_PRIVATE;
         if private : bool then destroy_object b obj true else mret tt)) s Q.
Proof.
  intros I Ey HQ.
  apply (pwp_foreach _ _ (λ rest s1, logging_out s s1 ∧ NoDup rest ∧ ∃ y1, ta_sessions s1 !! b = Some y1 ∧
    (∀ p, p ∈ rest → p ∈ s_object_list y1) ∧ ∀ p, p ∈ s_object_list y1 → p ∈ rest ∨ ¬ private (oskel_of s1) p)).
  - split; [by apply logging_out_refl|]. destruct (oo_sess _ _ _ (vo_obj _ _ I) _ _ _ (session_objs_in _ _ _ Ey)) as [Nd _].
    split; [done|]. exists y. split_and!; auto.
  - intros p rest s1 (Lo & [Np Nd]%NoDup_cons & y1 & Ey1 & Sub & Cov). pose proof (kp_inv _ _ (lo_kept _ _ Lo)) as I1.
    assert (p ∈ s_object_list y1) as Hp by (apply Sub; by left).
    destruct (oo_sess _ _ _ (vo_obj _ _ I1) _ _ _ (session_objs_in _ _ _ Ey1)) as [_ Im].
    destruct (Im p Hp) as (_ & o & Eo & T & Ld). cbn in Eo. do 3 s_step. apply pwp_object_bool; [done|]. intros pr Hpr. destruct pr.
    + eapply destroy_session_object_spec; [exact I1|exact Ey1|exact Ey1|done|exact Hp|]. intros s2 cl Ecl I2 V2.
      set (db := (handle_put _ _).2) in V2.
      assert (kept s1 s2) as K2 by (split; [done|by rewrite (skel_of_view _ _ V2)]).
      assert (O2 : oskel_of s2 = without_object p (s_client y1) db (oskel_of s1)).
      { change (v_obj (view_of s2) = without_object p (s_client y1) db (oskel_of s1)). by rewrite V2. }
      assert (Sh : shrinks (oskel_of s1) (oskel_of s2)).
      { rewrite O2. etrans.
        - apply (shrinks_put_handle _ (s_client y1) (object_handle_db cl) (handle_lookup_handle (object_handle_db cl) p)); [by apply db_in|].
          exact (oo_cap _ _ _ (vo_obj _ _ I1) _ _ (db_in _ _ _ Ecl)).
        - apply shrinks_drop. intros l Hl. exact (session_object_no_token s1 b y1 p l I1 Ey1 Hp Hl). }
      destruct (kept_session _ _ _ _ K2 Ey1) as (y2 & Ey2 & _).
      assert (s_object_list y2 = without p (s_object_list y1)) as El2.
      { pose proof (session_objs_in _ _ _ Ey2) as E. rewrite O2 in E. cbn in E. rewrite !lookup_fmap, Ey1 in E. by injection E as _ <-. }
      split; [eapply logging_out_trans; [exact Lo|by split]|]. split; [done|]. exists y2. split; [done|]. rewrite El2. split.
      * intros p' Hp'. apply elem_of_without. split; [congruence|]. apply Sub. by right.
      * intros p' [N Hp']%elem_of_without. destruct (Cov p' Hp') as [[->|?]%elem_of_cons|P]; [done|by left|right].
        intros P'. apply P. by eapply private_mono.
    + s_step. split; [done|]. split; [done|]. exists y1. split; [done|]. split; [intros p' Hp'; apply Sub; by right|].
      intros p' Hp'. destruct (Cov p' Hp') as [[->|?]%elem_of_cons|P]; [|by left|by right]. right.
      intros (o' & b' & Eo' & Eb' & Tr). assert (false = true); [|done]. apply Hpr. cbn in Eo'.
      assert (o' = o) as -> by congruence. intros b2 Eb2. by assert (b2 = b') as -> by congruence.
  - intros s1 (Lo & _ & y1 & Ey1 & _ & Cov). apply HQ; [done|]. intros c l p E Hp.
    destruct (session_objects_of _ _ _ _ _ Ey1 E) as [_ ->]. by destruct (Cov p Hp) as [?%elem_of_nil|].
Qed.

(** The handles of private objects of the token are given back. *)
Lemma forget_private_spec a b x y t k s (Q : unit → ta → Prop) : ta_inv 0 s → ta_sessions s !! a = Some x → ta_sessions s !! b = Some y →
  s_client y = s_client x → ta_tokens s !! t = Some k →
  (∀ s', logging_out s s' → hides_token t (s_client x) (oskel_of s') → Q tt s') →
  pwp (foreach (t_object_list k) (λ obj, h ← pkcs11_object2handle obj a; if h =? 0 then mret tt else
         o ← object_at obj; private ← object_bool o PKCS11_CKA_PRIVATE;
         if private : bool then put_object_handle b h else mret tt)) s Q.
Proof.
  intros I Ex Ey C Ek HQ. destruct (token_in _ _ _ Ek) as [_ Etl].
  apply (pwp_foreach _ _ (λ rest s1, logging_out s s1 ∧ (∀ p, p ∈ rest → p ∈ t_object_list k) ∧
    ∀ db p, q_dbs (oskel_of s1) !! s_client x = Some db → p ∈ t_object_list k → p ∉ rest → private (oskel_of s1) p → no_slot p db)).
  - split_and!; [by apply logging_out_refl|done|]. intros db p _ Hp Np. done.
  - intros p rest s1 (Lo & Sub & Cov). pose proof (kp_inv _ _ (lo_kept _ _ Lo)) as I1.
    destruct (kept_session _ _ _ _ (lo_kept _ _ Lo) Ex) as (x1 & Ex1 & Sx). destruct (kept_session _ _ _ _ (lo_kept _ _ Lo) Ey) as (y1 & Ey1 & Sy).
    injection Sx as Cx Tx _ _. injection Sy as Cy Ty _ _. destruct (session_client _ _ _ _ I1 Ex1) as [c Ec].
    pose proof (db_in _ _ _ Ec) as Ed. pose proof (vo_obj _ _ I1) as O1. pose proof (oo_cap _ _ _ O1 _ _ Ed) as Cap.
    assert (p ∈ t_object_list k) as Hp by (apply Sub; by left).
    destruct (token_object s1 t (t_object_list k) p I1) as (o & Eo & T & Ld); [by rewrite (sh_tokens _ _ (lo_shrinks _ _ Lo))|done|].
    assert (St : storable p) by (eapply addr_storable; [by eapply (oo_addr _ _ _ O1)|apply (oo_next _ _ _ O1)]).
    pose proof (find_handle (object_handle_db c) p St) as F. cbv zeta in F.
    assert (Step : ∀ s2, logging_out s1 s2 → (∀ db, q_dbs (oskel_of s2) !! s_client x = Some db → private (oskel_of s2) p → no_slot p db) →
      logging_out s s2 ∧ (∀ p', p' ∈ rest → p' ∈ t_object_list k) ∧
      ∀ db p', q_dbs (oskel_of s2) !! s_client x = Some db → p' ∈ t_object_list k → p' ∉ rest → private (oskel_of s2) p' → no_slot p' db).
    { intros s2 Lo2 Here. split; [by eapply logging_out_trans|]. split; [intros p' Hp'; apply Sub; by right|].
      intros db p' Edb Hp' Np' P. destruct (decide (p' = p)) as [->|N]; [by apply Here|].
      destruct (sh_dbs _ _ (lo_shrinks _ _ Lo2) _ _ Edb) as (db1 & Edb1 & Sl). intros h' Nh' S'.
      eapply (Cov db1 p'); [done|done|by apply not_elem_of_cons|by eapply private_mono, P; apply Lo2|exact Nh'|].
      apply Sl; [done|]. destruct (token_object s1 t (t_object_list k) p' I1) as (o' & Eo' & _); [by rewrite (sh_tokens _ _ (lo_shrinks _ _ Lo))|done|].
      by destruct (addr_storable _ _ (oo_addr _ _ _ O1 _ _ Eo') (proj2 (oo_next _ _ _ O1))). }
    s_step. eapply pwp_object2handle; [exact Ex1|exact Ec|]. set (h := handle_lookup_handle _ _) in *.
    destruct (Z.eqb_spec h 0) as [Z0|Nz].
    + rewrite decide_True in F by done. s_step. apply Step; [by apply logging_out_refl|]. intros db Edb _.
      rewrite <-Cx, Ed in Edb. injection Edb as <-. exact F.
    + rewrite decide_False in F by done.
      destruct (oo_db _ _ _ O1 _ _ _ _ Ed Nz F (proj2 St)) as [(o' & Eo' & Lo') _]; [by destruct St|].
      assert (o' = o) as -> by (cbn in Eo'; congruence). do 3 s_step. apply pwp_object_bool; [done|]. intros pr Hpr. destruct pr.
      * eapply pwp_put_object_handle; [exact Ey1|by rewrite Cy, C, <-Cx|]. set (db' := (handle_put _ _).2). set (s2 := set_clients _ _).
        assert (Eqc : s_client y1 = s_client x1) by congruence.
        assert (V2 : view_of s2 = in_obj (put_db (s_client x1) db') (view_of s1)).
        { unfold s2. rewrite Eqc. by apply view_client_db. }
        assert (O2 : oskel_of s2 = put_db (s_client x1) db' (oskel_of s1)).
        { change (v_obj (view_of s2) = put_db (s_client x1) db' (oskel_of s1)). by rewrite V2. }
        apply Step.
        -- split.
           ++ split; [|by rewrite (skel_of_view _ _ V2)]. unfold ta_inv. rewrite V2. constructor; [apply I1| |apply I1].
              eapply obj_ok_drop_handle; [apply I1|done|by apply max_put|by apply put_slots].
           ++ rewrite O2. by apply shrinks_put_handle.
        -- intros db Edb _. rewrite O2, <-Cx in Edb. cbn in Edb. rewrite lookup_insert_eq in Edb. injection Edb as <-.
           intros h' Nh'. by eapply no_handle_left.
      * s_step. apply Step; [by apply logging_out_refl|]. intros db _ (o2 & b2 & Eo2 & Eb2 & Tr).
        assert (false = true); [|done]. apply Hpr. cbn in Eo2. assert (o2 = o) as -> by congruence.
        intros b3 Eb3. by assert (b3 = b2) as -> by congruence.
  - intros s1 (Lo & _ & Cov). apply HQ; [done|]. intros l db p El Edb Hp _ P.
    rewrite (sh_tokens _ _ (lo_shrinks _ _ Lo)), Etl in El. injection El as <-. eapply Cov; [done|done|apply not_elem_of_nil|done].
Qed.

(** What logging out one session of the client leaves. *)
Definition hidden (c : Z) (t : nat) (a : Z) s : Prop := hides_session a (oskel_of s) ∧ hides_token t c (oskel_of s).

Lemma hidden_mono c t a s s' : shrinks (oskel_of s) (oskel_of s') → hidden c t a s → hidden c t a s'.
Proof. intros Sh [H1' H2']. split; [by eapply hides_session_mono|by eapply hides_token_mono]. Qed.

Lemma logout_session_spec a b x y s (R : unit → ta → Prop) : ta_inv 0 s → ta_sessions s !! a = Some x → ta_sessions s !! b = Some y →
  s_client y = s_client x →
  (∀ s', ta_inv 0 s' → shrinks (oskel_of s) (oskel_of s') → (s_token y = s_token x → hidden (s_client x) (s_token x) b s') →
     skel_of s' = relog_one (s_token x) Public b (ss_of y) (skel_of s) → R tt s') →
  pwp (logout_session a b) s R.
Proof.
  intros I Ex Ey C HR. unfold logout_session, release_active_processing, release_session_find_obj_context. do 3 s_step. s_step.
  case_bool_decide as D.
  { s_step. apply HR; [done|done|done|]. unfold relog_one. by rewrite decide_False. }
  s_step. eapply change_session_same; [exact Ex|done|]. intros s1 V1. pose proof (logging_out_same _ _ I V1) as Lo1.
  pose proof (kp_inv _ _ (lo_kept _ _ Lo1)) as I1.
  destruct (kept_session _ _ _ _ (lo_kept _ _ Lo1) Ey) as (y1 & Ey1 & Sy1).
  assert (s_object_list y1 = s_object_list y) as <-.
  { pose proof (session_objs_in _ _ _ Ey1) as E. change (q_sessions (v_obj (view_of s1)) !! b = Some (s_client y1, s_object_list y1)) in E.
    rewrite V1 in E. cbn in E. rewrite lookup_fmap, Ey in E. by injection E as _ <-. }
  s_step. eapply destroy_private_spec; [exact I1|exact Ey1|]. intros s2 Lo2 Hs. pose proof (logging_out_trans _ _ _ Lo1 Lo2) as Lo12.
  pose proof (kp_inv _ _ (lo_kept _ _ Lo2)) as I2.
  destruct (kept_session _ _ _ _ (lo_kept _ _ Lo12) Ex) as (x2 & Ex2 & Sx2). destruct (kept_session _ _ _ _ (lo_kept _ _ Lo12) Ey) as (y2 & Ey2 & Sy2).
  injection Sx2 as Cx2 Tx2 _ _. assert (s_client y2 = s_client x2) as C2 by (injection Sy2 as ? _ _ _; congruence).
  destruct (session_token _ _ _ _ I2 Ex2) as [k Ek]. rewrite <-Tx2, <-Cx2 in *. do 3 s_step.
  eapply (forget_private_spec a b x2 y2 (s_token x2) k); [exact I2|exact Ex2|exact Ey2|exact C2|exact Ek|]. intros s3 Lo3 Ht.
  pose proof (logging_out_trans _ _ _ Lo12 Lo3) as Lo. pose proof (kp_inv _ _ (lo_kept _ _ Lo3)) as I3.
  destruct (kept_session _ _ _ _ (lo_kept _ _ Lo) Ex) as (x3 & Ex3 & _).
  s_step. eapply change_session_same; [exact Ex3|done|]. intros s4 V4. pose proof (logging_out_same _ _ I3 V4) as Lo4.
  pose proof (logging_out_trans _ _ _ Lo Lo4) as Lo5. pose proof (kp_inv _ _ (lo_kept _ _ Lo4)) as I4.
  destruct (kept_session _ _ _ _ (lo_kept _ _ Lo5) Ey) as (y4 & Ey4 & Sy4). do 2 s_step.
  change (if pkcs11_session_is_read_write y4 then PKCS11_CKS_RW_PUBLIC_SESSION else PKCS11_CKS_RO_PUBLIC_SESSION)
    with (state_of Public (is_rw (s_state y4))).
  assert (s_token y4 = s_token x2) as Ty4 by (injection Sy4 as _ ? _ _; congruence).
  eapply pwp_change_session; [exact Ey4|]. pose proof (view_state s4 b y4 (state_of Public (is_rw (s_state y4))) Ey4) as V5.
  set (s5 := set_sessions _ _) in *. destruct (state_of_ok Public (is_rw (s_state y4))) as (St & _ & Rw); [done|].
  assert (oskel_of s5 = oskel_of s4) as O5 by (change (v_obj (view_of s5) = oskel_of s4); by rewrite V5).
  apply HR.
  - unfold ta_inv. rewrite V5. constructor; [|apply I4|apply I4]. eapply state_skel_ok; [apply I4|by apply session_in|done|done].
  - rewrite O5. apply Lo5.
  - intros _. eapply (hidden_mono _ _ _ s4); [by rewrite O5|]. split.
    + eapply hides_session_mono; [|exact Hs]. eapply (lo_shrinks s2 s4), logging_out_trans; done.
    + eapply hides_token_mono; [|exact Ht]. apply Lo4.
  - rewrite (skel_of_view _ _ V5). cbn [v_skel]. rewrite (kp_skel _ _ (lo_kept _ _ Lo5)). unfold relog_one.
    rewrite decide_True by done. by rewrite <-Sy4.
Qed.

(** The client is logged out: no session of it with the token has a private
    object, and it has no handle of a private object of the token. *)
Record logged_out (c : Z) (t : nat) s s' : Prop := {
  lg_logged : logged Public c t s s';
  lg_objects : ∀ a x l p, k_sessions (skel_of s) !! a = Some x → k_client x = c → k_token x = t →
    q_sessions (oskel_of s') !! a = Some (c, l) → p ∈ l → ¬ private (oskel_of s') p;
  lg_handles : hides_token t c (oskel_of s');
  lg_shrinks : shrinks (oskel_of s) (oskel_of s');
}.

Lemma session_logout_spec a x s (Q : unit → ta → Prop) : sound s → ta_sessions s !! a = Some x →
  (∀ s', logged_out (s_client x) (s_token x) s s' → Q tt s') → pwp (session_logout a) s Q.
Proof.
  intros [I L] Ex HQ. destruct (session_client _ _ _ _ I Ex) as [cl Ec]. destruct (client_sessions _ _ _ _ I Ec) as [Nd Im].
  unfold session_logout. do 4 s_step.
  apply (relog_list_spec (λ d s1, ta_inv 0 s1 ∧ shrinks (oskel_of s) (oskel_of s1) ∧
    ∀ b y, b ∈ d → k_sessions (skel_of s) !! b = Some y → k_token y = s_token x → hidden (s_client x) (s_token x) b s1)
    _ _ (s_client x) (s_token x) Public); [done|by intros b Hb; apply Im in Hb|..].
  - split_and!; [done|done|]. intros b y Hb. by apply elem_of_nil in Hb.
  - intros b d y s1 R Hb Nb (I1 & Sh & Hid) G Ey Cy HR.
    assert (∃ x1, ta_sessions s1 !! a = Some x1 ∧ s_client x1 = s_client x ∧ s_token x1 = s_token x) as (x1 & Ex1 & Cx1 & Tx1).
    { pose proof (rg_sessions _ _ _ _ _ _ G a) as E. rewrite (session_in _ _ _ Ex) in E. cbn [fmap option_fmap option_map] in E.
      apply session_by_view in E as (x1 & E1 & Sx). exists x1. split; [done|].
      destruct (relog_fields (s_client x) (s_token x) Public (ss_of x)) as (F1 & F2 & _).
      change (k_client (ss_of x1) = s_client x ∧ k_token (ss_of x1) = s_token x). rewrite Sx. by case_decide. }
    assert (k_sessions (skel_of s) !! b = Some (ss_of y)) as E0.
    { pose proof (rg_sessions _ _ _ _ _ _ G b) as E. rewrite (session_in _ _ _ Ey) in E.
      destruct (k_sessions (skel_of s) !! b); [|done]. cbn in E. by rewrite decide_False in E. }
    rewrite <-Cx1, <-Tx1 in *. eapply logout_session_spec; [exact I1|exact Ex1|exact Ey|done|]. intros s2 I2 Sh2 Hb2 K2. apply HR; [|done].
    split_and!; [done|by etrans|]. intros b' z [Hb'|Hb'%list_elem_of_singleton]%elem_of_app Ez Tz.
    + eapply hidden_mono; [exact Sh2|]. by eapply Hid.
    + subst b'. rewrite E0 in Ez. injection Ez as <-. by apply Hb2.
  - intros s' (I' & Sh & Hid) G. pose proof (relogged_all _ _ _ _ _ _ I Ec G) as K. apply HQ.
    assert (a ∈ session_list cl) as Ha by (apply Im; by exists x).
    destruct (Hid a (ss_of x) Ha (session_in _ _ _ Ex) eq_refl) as [_ Ht]. split; [| |done|done].
    + split; [|exact K]. split; [done|]. rewrite K. by apply relog_login_ok.
    + intros b y l p Ey Cy Ty El Hp. assert (b ∈ session_list cl) as E.
      { apply session_by_view in Ey as (z & Ez & <-). apply Im. by exists z. }
      destruct (Hid b y E Ey Ty) as [Hs _]. by eapply Hs.
Qed.

Lemma entry_ck_logout_spec c h s (Q : Z → ta → Prop) : sound s → is_Some (ta_clients s !! c) →
  (∀ rc, rc ≠ 0 → Q rc s) →
  (∀ a x s', k_sessions (skel_of s) !! a = Some x → k_client x = c → k_handle x = h → logged_out c (k_token x) s s' → Q PKCS11_CKR_OK s') →
  pwp (entry_ck_logout c h) s Q.
Proof.
  intros S Hc HQ0 HQ. unfold entry_ck_logout. s_step.
  apply pwp_handle2session; [apply S|done|change (0 =? 0) with true; s_step; by apply HQ0|].
  intros a x Na Ex Cx Hx. rewrite (proj2 (Z.eqb_neq _ _) Na). do 2 s_step. destruct (pkcs11_session_is_public x); [s_step; by apply HQ0|].
  s_step. eapply session_logout_spec; [done|exact Ex|]. intros s' L'. s_step. subst c. by apply (HQ a (ss_of x)); [apply session_in|..].
Qed.

(** ** PINs and tokens *)

Lemma session_request_spec {A} c h (f : Z → pkcs11_session → SM A) (bad : A) s (Q : A → ta → Prop) : sound s → is_Some (ta_clients s !! c) →
  Q bad s → (∀ a x, ta_sessions s !! a = Some x → s_client x = c → s_handle x = h → pwp (f a x) s Q) →
  pwp (session ← pkcs11_handle2session h c; if session =? 0 then mret bad else x ← session_at session; f session x) s Q.
Proof.
  intros S Hc HQ0 HQ. s_step. apply pwp_handle2session; [apply S|done|change (0 =? 0) with true; by s_step|].
  intros a x Na Ex Cx Hx. rewrite (proj2 (Z.eqb_neq _ _) Na). do 2 s_step. by apply HQ.
Qed.

Lemma entry_ck_set_pin_spec c h old new s (Q : Z → ta → Prop) : sound s → is_Some (ta_clients s !! c) →
  (∀ rc s', kept s s' → Q rc s') → pwp (entry_ck_set_pin c h old new) s Q.
Proof.
  intros S Hc HQ. apply session_request_spec; [done|done|apply HQ, kept_refl, S|]. intros a x Ex _ _.
  destruct (session_token _ _ _ _ (so_inv _ S) Ex) as [k Ek]. eapply on_db_spec; [apply S|exact Ek|intros; by apply change_pin_kept|].
  intros r s' K _ _. by apply HQ.
Qed.

Lemma entry_ck_init_pin_spec c h pin s (Q : Z → ta → Prop) : sound s → is_Some (ta_clients s !! c) →
  (∀ rc s', kept s s' → Q rc s') → pwp (entry_ck_init_pin c h pin) s Q.
Proof.
  intros S Hc HQ. apply session_request_spec; [done|done|apply HQ, kept_refl, S|]. intros a x Ex _ _.
  destruct (session_token _ _ _ _ (so_inv _ S) Ex) as [k Ek]. eapply on_db_spec; [apply S|exact Ek|intros; by apply init_pin_kept|].
  intros r s' K _ _. by apply HQ.
Qed.

Lemma session_exists_spec t s (Q : bool → ta → Prop) : ta_inv 0 s → (∀ b, Q b s) → pwp (session_exists t) s Q.
Proof.
  intros I HQ. unfold session_exists. do 2 s_step.
  assert (∀ c, c ∈ ta_client_list s → is_Some (ta_clients s !! c)) as Cl.
  { intros c Hc. pose proof (proj1 (sk_list _ _ (vo_skel _ _ I) c) Hc) as [y Ey]. apply view_client in Ey as (cl & E & _). by exists cl. }
  s_step. apply (pwp_find_first _ _ (λ c, match ta_clients s !! c with
    | Some cl => existsb (λ a, match ta_sessions s !! a with Some y => bool_decide (s_token y = t) | None => false end) (session_list cl)
    | None => false end)).
  - intros c R Hc HR. destruct (Cl c Hc) as [cl Ec]. rewrite Ec in HR. do 3 s_step.
    eapply (pwp_find_session s c cl _ (λ y, bool_decide (s_token y = t))); [exact I|exact Ec|intros a y R' Ey HR'; by do 3 s_step|].
    intros r Hr. s_step. destruct (client_sessions _ _ _ _ I Ec) as [_ Im]. replace (bool_decide (r ≠ None)) with
      (existsb (λ a, match ta_sessions s !! a with Some y => bool_decide (s_token y = t) | None => false end) (session_list cl)); [done|].
    destruct r as [a|].
    + destruct Hr as (y & Ey & Cy & Ty). rewrite bool_decide_eq_true_2 by done. apply existsb_exists. exists a. rewrite Ey. split; [|done].
      apply list_elem_of_In, Im. by exists y.
    + rewrite bool_decide_eq_false_2 by (intros N; by apply N). apply not_true_is_false. intros (a & Ha & E)%existsb_exists.
      apply list_elem_of_In, Im in Ha as (y & Ey & Cy). rewrite Ey in E. by rewrite (Hr a y Ey Cy) in E.
  - intros r _. s_step. apply HQ.
Qed.

Lemma entry_ck_token_initialize_spec t pin label s (Q : Z → ta → Prop) : sound s → unused t s →
  (∀ rc s', kept s s' → Q rc s') → pwp (entry_ck_token_initialize t pin label) s Q.
Proof.
  intros S Un HQ. unfold entry_ck_token_initialize. do 2 s_step. destruct (ta_tokens s !! t) as [k|] eqn:Ek; [|s_step; apply HQ, kept_refl, S].
  s_step. apply session_exists_spec; [apply S|]. intros open. s_step.
  eapply on_db_spec; [apply S|exact Ek|intros; by apply token_initialize_kept|]. intros rc s1 K1 _ O1.
  destruct (negb (rc =? 0)); [s_step; by apply HQ|]. s_step.
  assert (∃ k1, ta_tokens s1 !! t = Some k1 ∧ t_object_list k1 = t_object_list k) as (k1 & Ek1 & El).
  { destruct (token_in _ _ _ Ek) as [_ E]. rewrite <-O1 in E. cbn in E. rewrite list_lookup_fmap in E. apply fmap_Some in E as (k1 & E1 & E2). by exists k1. }
  rewrite <-El. eapply remove_token_objects_spec; [apply K1| |exact Ek1|lia|].
  - unfold unused. by rewrite O1.
  - intros s2 k2 K2 _ _. s_step. apply HQ. by eapply kept_trans.
Qed.

End Requests.
