(* ===== verification/Pkcs11Serve.v ===== *)
(** Sequences of requests to the PKCS#11 TA from any number of clients, and the
    theorems about them: no request goes wrong, who is logged in is the same for
    all sessions of a client with a token, and what login, logout, opening and
    closing do. *)
From S2P Require Import Prelude State Bytes HandleDb Pkcs11Handle Pkcs11Attr Pkcs11AttrProofs Pkcs11AttrSpec Pkcs11SanitizeSpec.
From S2P Require Import Pkcs11Pin Pkcs11PinSpec Pkcs11Session Pkcs11SessionProofs Pkcs11ObjectProofs Pkcs11SessionSpec Pkcs11Requests Pkcs11Login.

(** ** Requests *)

(** The commands that are modelled, with their arguments: session handles, the
    attributes that were made of a template, PINs. *)
Inductive command :=
  | CMD_OPEN_SESSION (token : nat) (flags : Z)
  | CMD_CLOSE_SESSION (handle : Z)
  | CMD_CLOSE_ALL_SESSIONS (token : nat)
  | CMD_SESSION_INFO (handle : Z)
  | CMD_INIT_TOKEN (token : nat) (pin : option (list Z)) (label : list Z)
  | CMD_INIT_PIN (handle : Z) (pin : option (list Z))
  | CMD_SET_PIN (handle : Z) (old : list Z) (new : option (list Z))
  | CMD_LOGIN (handle user_type : Z) (pin : list Z)
  | CMD_LOGOUT (handle : Z)
  | CMD_CREATE_OBJECT (handle : Z) (attributes : list Z)
  | CMD_DESTROY_OBJECT (handle object : Z)
  | CMD_FIND_OBJECTS_INIT (handle : Z) (attributes : list Z)
  | CMD_FIND_OBJECTS (handle : Z) (count : nat)
  | CMD_FIND_OBJECTS_FINAL (handle : Z).

(** What the framework calls. *)
Inductive call :=
  | TA_OpenSession
  | TA_CloseSession (tee_session : Z)
  | TA_InvokeCommand (tee_session : Z) (cmd : command).

Section Serve.
Context `{TokenApi} `{!ObjectApi}.
Implicit Types s : ta.

(** The handler of the command, and its return value. *)
Definition entry (client : Z) (cmd : command) : SM Z :=
  match cmd with
  | CMD_OPEN_SESSION t fl => r ← entry_ck_open_session client t fl; mret r.1
  | CMD_CLOSE_SESSION h => entry_ck_close_session client h
  | CMD_CLOSE_ALL_SESSIONS t => entry_ck_close_all_sessions client t
  | CMD_SESSION_INFO h => r ← entry_ck_session_info client h; mret r.1
  | CMD_INIT_TOKEN t pin label => entry_ck_token_initialize t pin label
  | CMD_INIT_PIN h pin => entry_ck_init_pin client h pin
  | CMD_SET_PIN h old new => entry_ck_set_pin client h old new
  | CMD_LOGIN h u pin => entry_ck_login client h u pin
  | CMD_LOGOUT h => entry_ck_logout client h
  | CMD_CREATE_OBJECT h b => r ← entry_create_object client h b; mret r.1
  | CMD_DESTROY_OBJECT h oh => entry_destroy_object client h oh
  | CMD_FIND_OBJECTS_INIT h b => entry_find_objects_init client h b
  | CMD_FIND_OBJECTS h n => r ← entry_find_objects client h n; mret r.1
  | CMD_FIND_OBJECTS_FINAL h => entry_find_objects_final client h
  end.

Definition TA_OpenSessionEntryPoint : SM Z :=
  client ← register_client; mret (if client =? 0 then TEE_ERROR_OUT_OF_MEMORY else TEE_SUCCESS).

Definition TA_CloseSessionEntryPoint (tee_session : Z) : SM unit :=
  client ← tee_session2client tee_session; unregister_client client.

(** The result of the call; the return value of the handler goes to the client. *)
Definition TA_InvokeCommandEntryPoint (tee_session : Z) (cmd : command) : SM Z :=
  client ← tee_session2client tee_session;
  if client =? 0 then mret TEE_ERROR_SECURITY else
  rc ← entry client cmd;
  mret (if rc =? PKCS11_CKR_BUFFER_TOO_SMALL then TEE_ERROR_SHORT_BUFFER else TEE_SUCCESS).

Definition serve (c : call) : SM unit :=
  match c with
  | TA_OpenSession => _ ← TA_OpenSessionEntryPoint; mret tt
  | TA_CloseSession a => TA_CloseSessionEntryPoint a
  | TA_InvokeCommand a cmd => _ ← TA_InvokeCommandEntryPoint a cmd; mret tt
  end.

(** What the theorems assume of a call: attributes are an attribute list, as
    [sanitize_client_object] leaves it, and a token is initialized only while no
    client has handles of its objects. [entry_ck_token_initialize] does not check
    the latter, and what happens without it is [initialize_leaves_handles]: it
    bounds what is proved, it is not proved. *)
Definition allowed (c : call) s : Prop :=
  match c with
  | TA_InvokeCommand _ (CMD_INIT_TOKEN t _ _) => unused t s
  | TA_InvokeCommand _ (CMD_CREATE_OBJECT _ b) | TA_InvokeCommand _ (CMD_FIND_OBJECTS_INIT _ b) => well_formed b
  | _ => True
  end.

(** A call that is allowed is served. *)
Inductive ta_step : ta → ta → Prop :=
  | ta_step_serve c s s' : allowed c s → serve c s = Some (Done (tt, s')) → ta_step s s'.

End Serve.

Section Properties.
Context `{TokenApiLaws} `{!TaHeapLaws} `{!SmallHeap} `{!ObjectApi} `{!ObjectApiLaws}.
Implicit Types s : ta.

(** A session of the TA is a client that is registered, or is refused. *)
Lemma tee_session2client_spec a s (Q : Z → ta → Prop) : ta_inv 0 s → Q 0 s →
  (a ≠ 0 → is_Some (ta_clients s !! a) → Q a s) → pwp (tee_session2client a) s Q.
Proof.
  intros I HQ0 HQ. unfold tee_session2client. do 3 s_step. case_bool_decide as E; [|done].
  pose proof (proj1 (sk_list _ _ (vo_skel _ _ I) a) E) as [y Ey]. apply HQ.
  - destruct (sk_addr _ _ (vo_skel _ _ I) _ _ Ey). lia.
  - apply view_client in Ey as (cl & Ec & _). by exists cl.
Qed.

Lemma entry_sound c cmd s : sound s → is_Some (ta_clients s !! c) → allowed (TA_InvokeCommand c cmd) s →
  pwp (entry c cmd) s (λ _ s', sound s').
Proof.
  intros S Hc A. assert (Kept : ∀ s', kept s s' → sound s') by (intros s'; by apply sound_kept).
  destruct cmd; cbn [entry allowed] in *.
  - s_step. apply entry_ck_open_session_spec; [done|done|intros rc s' _ K; s_step; by apply Kept|].
    intros s' h st _ _ [S' _]. by s_step.
  - apply entry_ck_close_session_spec; [done|done|done|]. by intros a x s' _ _ _ [S' _].
  - apply entry_ck_close_all_sessions_spec; [done|done|done|]. by intros s' [S' _ _].
  - s_step. apply session_request_spec; [done|done|by s_step|]. intros a x _ _ _. by do 2 s_step.
  - apply entry_ck_token_initialize_spec; [done|done|auto].
  - apply entry_ck_init_pin_spec; [done|done|auto].
  - apply entry_ck_set_pin_spec; [done|done|auto].
  - apply entry_ck_login_spec; [done|done|auto|]. by intros a x s' _ _ _ _ _ [S' _].
  - apply entry_ck_logout_spec; [done|done|done|]. by intros a x s' _ _ _ [[S' _] _ _ _].
  - s_step. apply entry_create_object_spec; [apply S|done|done|]. intros r s' K. s_step. by apply Kept.
  - apply entry_destroy_object_spec; [apply S|done|auto].
  - apply entry_find_objects_init_spec; [apply S|done|done|auto].
  - s_step. apply entry_find_objects_spec; [apply S|done|]. intros r s' K. s_step. by apply Kept.
  - apply entry_find_objects_final_spec; [apply S|done|auto].
Qed.

Lemma serve_sound c s : sound s → allowed c s → pwp (serve c) s (λ _ s', sound s').
Proof.
  intros S A. destruct c as [|a|a cmd]; cbn [serve]; unfold TA_OpenSessionEntryPoint, TA_CloseSessionEntryPoint, TA_InvokeCommandEntryPoint.
  - do 2 s_step. apply register_client_spec; [done| |].
    + intros h. do 2 s_step. by apply (sound_view s).
    + intros s' S' _. by do 2 s_step.
  - s_step. apply tee_session2client_spec; [apply S|unfold unregister_client; change (0 =? 0) with true; by s_step|]. intros _ Hc. by apply unregister_client_spec.
  - do 2 s_step. apply tee_session2client_spec; [apply S|change (0 =? 0) with true; by do 2 s_step|]. intros Na Hc.
    rewrite (proj2 (Z.eqb_neq _ _) Na). s_step. eapply pwp_mono; [by apply entry_sound|]. intros rc s' S'. by do 2 s_step.
Qed.

Lemma steps_sound s s' : sound s → rtc ta_step s s' → sound s'.
Proof.
  intros S R. induction R as [|s1 s2 s3 [c sa sb A E] _ IH]; [done|]. apply IH.
  pose proof (serve_sound c sa S A) as P. unfold pwp in P. by rewrite E in P.
Qed.

(** ** What holds in every state *)

(** C6: after any sequence of calls - TEE sessions that are opened and closed
    and the 14 commands of [command] - from any clients, a call comes to an end
    or panics where the code does, without accessing a freed session, object or
    client or attributes that are not there, and leaves a state for which this
    holds again. The calls are those that are [allowed]: the attributes of an
    object or a search are a well-formed list, as [sanitize_client_object]
    leaves it, and a token is initialized only while no client has a handle of
    its objects. The TA does not check the last condition, and without it the
    theorem does not hold: see [initialize_leaves_handles]. *)
Theorem calls_never_go_wrong s0 s c : sound s0 → rtc ta_step s0 s → allowed c s → pwp (serve c) s (λ _ s', sound s').
Proof. intros S R A. apply serve_sound; [by eapply steps_sound|done]. Qed.

(** C11: the sessions that a client has with a token agree on who is logged in,
    and while the SO is, all of them are read-write. *)
Theorem sessions_agree s0 s a b x y : sound s0 → rtc ta_step s0 s → ta_sessions s !! a = Some x → ta_sessions s !! b = Some y →
  s_client x = s_client y → s_token x = s_token y →
  pkcs11_session_is_public x = pkcs11_session_is_public y ∧ pkcs11_session_is_user x = pkcs11_session_is_user y ∧
  pkcs11_session_is_so x = pkcs11_session_is_so y ∧
  (pkcs11_session_is_so x = true → pkcs11_session_is_read_write y = true).
Proof.
  intros S R Ex Ey C T. destruct (steps_sound _ _ S R) as [I L].
  pose proof (session_state _ _ _ _ I Ex) as Sx. pose proof (session_state _ _ _ _ I Ey) as Sy.
  pose proof (L a b (ss_of x) (ss_of y) (session_in _ _ _ Ex) (session_in _ _ _ Ey) C T) as W. cbn in W.
  change (is_public (s_state x) = is_public (s_state y) ∧ is_user (s_state x) = is_user (s_state y) ∧
    is_so (s_state x) = is_so (s_state y) ∧ (is_so (s_state x) = true → is_rw (s_state y) = true)).
  rewrite !who_public, !who_user, !who_so, W by done. split_and!; [done..|]. intros E%bool_decide_eq_true. by apply so_rw.
Qed.

(** The sessions with a token, and the read-write ones. *)
Definition sessions_of (t : nat) s : gmap Z pkcs11_session := filter (λ p, s_token p.2 = t) (ta_sessions s).
Definition rw_sessions_of (t : nat) s : gmap Z pkcs11_session :=
  filter (λ p, s_token p.2 = t ∧ pkcs11_session_is_read_write p.2 = true) (ta_sessions s).

Lemma size_filter_ss (P : Z * pkcs11_session → Prop) (P' : Z * skel_session → Prop) `{∀ p, Decision (P p)} `{∀ p, Decision (P' p)} s :
  (∀ a x, P (a, x) ↔ P' (a, ss_of x)) → size (filter P (ta_sessions s)) = size (filter P' (ss_of <$> ta_sessions s)).
Proof.
  intros E. rewrite <-(map_size_fmap ss_of (filter P (ta_sessions s))). f_equal. apply map_eq. intros a. apply option_eq. intros y.
  rewrite lookup_fmap, fmap_Some. setoid_rewrite map_lookup_filter_Some. rewrite lookup_fmap, fmap_Some. split.
  - intros (x & [Ex Px] & ->). split; [by exists x|by apply E].
  - intros [(x & Ex & ->) Py]. exists x. split; [split; [done|by apply E]|done].
Qed.

(** C20: the counters of a token are the numbers of its sessions and of its
    read-write sessions, in 32 bits. *)
Theorem session_counts_exact s0 s t k : sound s0 → rtc ta_step s0 s → ta_tokens s !! t = Some k →
  t_session_count k = u32 (Z.of_nat (size (sessions_of t s))) ∧
  t_rw_session_count k = u32 (Z.of_nat (size (rw_sessions_of t s))).
Proof.
  intros S R Ek. destruct (steps_sound _ _ S R) as [I _]. destruct (token_in _ _ _ Ek) as [Ec _].
  pose proof (sk_counts _ _ (vo_skel _ _ I) _ _ Ec) as E. injection E as E1 E2. unfold sessions_of, rw_sessions_of.
  rewrite E1, E2. split; (do 2 f_equal; symmetry; by apply size_filter_ss).
Qed.

(** ** Login and logout *)

(** C12: [entry_ck_login] succeeds for the SO or the user only, and only when
    nobody is logged in; then all sessions of the client with the token, and no
    others, become those of the SO or the user. When it fails no session changes. *)
Theorem login_correct c h ut pin s : sound s → is_Some (ta_clients s !! c) →
  pwp (entry_ck_login c h ut pin) s (λ rc s', sound s' ∧
    if rc =? PKCS11_CKR_OK then ∃ a x, ta_sessions s !! a = Some x ∧ s_client x = c ∧ s_handle x = h ∧
      pkcs11_session_is_public x = true ∧ (ut = PKCS11_CKU_SO ∨ ut = PKCS11_CKU_USER) ∧
      skel_of s' = relog_skel c (s_token x) (if ut =? PKCS11_CKU_SO then So else User) (skel_of s)
    else skel_of s' = skel_of s).
Proof.
  intros S Hc. apply entry_ck_login_spec; [done|done| |].
  - intros rc s' Nr K. change PKCS11_CKR_OK with 0. rewrite (proj2 (Z.eqb_neq _ _) Nr). split; [by eapply sound_kept|apply K].
  - intros a y s' Ey Cy Hy W U [S' K]. split; [done|]. change (PKCS11_CKR_OK =? PKCS11_CKR_OK) with true. cbv iota.
    apply session_by_view in Ey as (x & Ex & <-). exists a, x. split_and!; try done.
    pose proof (session_state _ _ _ _ (so_inv _ S) Ex) as St. change (is_public (s_state x) = true).
    rewrite who_public by done. by apply bool_decide_eq_true.
Qed.

(** C7: after [entry_ck_logout] all sessions of the client with the token are
    public, none of them has a private object, and the client has no handle of a
    private object of the token; other sessions keep their state. *)
Theorem logout_hides_private c h s : sound s → is_Some (ta_clients s !! c) →
  pwp (entry_ck_logout c h) s (λ rc s', sound s' ∧ (rc = PKCS11_CKR_OK → ∃ t,
    skel_of s' = relog_skel c t Public (skel_of s) ∧
    (∀ a x, ta_sessions s' !! a = Some x → s_client x = c → s_token x = t →
       pkcs11_session_is_public x = true ∧ ∀ p, p ∈ s_object_list x → ¬ private (oskel_of s') p) ∧
    ∀ k cl p, ta_tokens s' !! t = Some k → ta_clients s' !! c = Some cl → p ∈ t_object_list k → private (oskel_of s') p →
      handle_lookup_handle (object_handle_db cl) p = 0)).
Proof.
  intros S Hc. apply entry_ck_logout_spec; [done|done|by intros rc Nr; split|].
  intros a0 x0 s' Ex0 Cx0 Hx0 [[S' K] Lo Lh Sh]. split; [done|]. intros _. exists (k_token x0). pose proof (so_inv _ S') as I'. split_and!; [done| |].
  - intros a x Ex Cx Tx. pose proof (session_in _ _ _ Ex) as E. rewrite K in E. cbn [relog_skel k_sessions] in E.
    rewrite lookup_fmap, fmap_Some in E. destruct E as (y & Ey & Rx).
    destruct (relog_fields c (k_token x0) Public y) as (F1 & F2 & _). rewrite <-Rx in F1, F2. cbn in F1, F2. split.
    + pose proof (session_state _ _ _ _ I' Ex) as St. change (is_public (s_state x) = true). rewrite who_public by done.
      apply bool_decide_eq_true. unfold relog in Rx. rewrite decide_True in Rx by (split; congruence). injection Rx as _ _ _ ->. by destruct (is_rw (k_state y)).
    + intros p Hp. eapply (Lo a y); [done|congruence|congruence| |exact Hp]. rewrite <-Cx. by apply session_objs_in.
  - intros k cl p Ek Ec Hp P. destruct (token_in _ _ _ Ek) as [_ Et].
    destruct (token_object _ _ _ _ I' Et Hp) as (o & Eo & _). pose proof (vo_obj _ _ I') as O.
    assert (St : storable p) by (eapply addr_storable; [by eapply (oo_addr _ _ _ O)|apply (oo_next _ _ _ O)]).
    pose proof (Lh _ _ _ Et (db_in _ _ _ Ec) Hp (proj2 St) P) as No. pose proof (find_handle (object_handle_db cl) p St) as F. cbv zeta in F.
    case_decide as D; [done|]. by destruct (No _ D F).
Qed.

(** ** Opening and closing *)

(** A session is opened and closed again. *)
Definition open_then_close (c : Z) (t : nat) (fl : Z) : SM (option (Z * Z)) :=
  '(rc, h) ← entry_ck_open_session c t fl;
  if rc =? PKCS11_CKR_OK then rc ← entry_ck_close_session c h; mret (Some (h, rc)) else mret None.

(** C19: a session that was opened can be closed by its handle; then the sessions
    and the counters are those from before, and the handle stands for nothing. *)
Theorem open_close_roundtrip c t fl s : sound s → is_Some (ta_clients s !! c) →
  pwp (open_then_close c t fl) s (λ r s', sound s' ∧ k_sessions (skel_of s') = k_sessions (skel_of s) ∧
    k_tokens (skel_of s') = k_tokens (skel_of s) ∧
    match r with
    | Some (h, rc) => h ≠ 0 ∧ rc = PKCS11_CKR_OK ∧ ∀ cl, ta_clients s' !! c = Some cl → handle_lookup (session_handle_db cl) h = 0
    | None => True
    end).
Proof.
  intros S Hc. unfold open_then_close. s_step. apply entry_ck_open_session_spec; [done|done| |].
  - intros rc s' Nr K. cbv beta iota. change PKCS11_CKR_OK with 0. rewrite (proj2 (Z.eqb_neq _ _) Nr). s_step.
    split; [by eapply sound_kept|]. by rewrite (kp_skel _ _ K).
  - intros s1 h st Nh Rw [S1 [db K1]]. cbv beta iota. change (0 =? PKCS11_CKR_OK) with true. cbv iota. s_step.
    assert (k_sessions (skel_of s1) !! ta_next s = Some (mk_ss c t h st)) as E1 by (rewrite K1; apply lookup_insert_eq).
    apply session_by_view in E1 as (x & Ex & Sx). pose proof Sx as Fx. injection Fx as Cx Tx Hx _.
    unfold entry_ck_close_session. s_step. rewrite <-Cx, <-Hx. eapply pwp_handle2session_at; [apply S1|exact Ex|].
    pose proof (sk_saddr _ _ (vo_skel _ _ (so_inv _ S1)) _ _ (session_in _ _ _ Ex)) as [P0 _]. rewrite (proj2 (Z.eqb_neq (ta_next s) 0)) by lia.
    s_step. eapply close_ck_session_spec; [done|exact Ex|]. intros s2 [S2 [db2 K2]]. do 2 s_step. rewrite Sx in K2.
    assert (N : k_sessions (skel_of s) !! ta_next s = None).
    { destruct (k_sessions (skel_of s) !! ta_next s) as [y|] eqn:E; [|done].
      destruct (sk_saddr _ _ (vo_skel _ _ (so_inv _ S)) _ _ E) as [_ B]. cbn in B. lia. }
    assert (K : k_sessions (skel_of s2) = k_sessions (skel_of s)).
    { rewrite K2, K1. cbn [close_skel open_skel k_sessions]. by rewrite delete_insert_id. }
    split_and!; [done|done| |by rewrite Hx|done|].
    + pose proof (sk_counts _ _ (vo_skel _ _ (so_inv _ S2))) as N2. pose proof (sk_counts _ _ (vo_skel _ _ (so_inv _ S))) as N0.
      cbn [view_of v_skel] in N0, N2. rewrite K in N2. apply list_eq. intros i.
      assert (length (k_tokens (skel_of s2)) = length (k_tokens (skel_of s))) as Len.
      { rewrite K2, K1. cbn [close_skel open_skel k_tokens]. by rewrite !length_alter. }
      destruct (k_tokens (skel_of s2) !! i) as [n2|] eqn:E2.
      * destruct (lookup_lt_is_Some_2 (k_tokens (skel_of s)) i) as [n0 E0]; [rewrite <-Len; by eapply lookup_lt_Some|].
        rewrite E0. f_equal. by rewrite (N2 _ _ E2), (N0 _ _ E0).
      * symmetry. apply lookup_ge_None. rewrite <-Len. by apply lookup_ge_None.
    + intros cl Ec. rewrite Cx in Ec. rewrite Hx. eapply no_session_handle; [apply S2|exact Ec|]. intros a y Ey Cy Hy. rewrite K in Ey.
      assert (a ≠ ta_next s) as Na by (intros ->; congruence). apply Na.
      eapply (session_handle_unique s1); [apply S1| |by apply session_in|by rewrite Sx|by rewrite Sx].
      rewrite K1. cbn [open_skel k_sessions]. by rewrite lookup_insert_ne.
Qed.

End Properties.
