(* ===== verification/Pkcs11TokenExample.v ===== *)
(** Requests to the PKCS#11 TA on concrete inputs: witnesses for its messages,
    for the PINs of a token and for sessions and login; a change of a PIN that the
    code does not handle as its comment says; and two runs of clients that go
    wrong. *)
From S2P Require Import Prelude State Bytes HandleDb Pkcs11Handle Pkcs11Attr Pkcs11AttrProofs Pkcs11SanitizeSpec Pkcs11Serial Pkcs11Example.
From S2P Require Import Pkcs11Pin Pkcs11PinSpec Pkcs11Session Pkcs11SessionProofs Pkcs11ObjectProofs Pkcs11SessionSpec Pkcs11Requests Pkcs11Login Pkcs11Serve.

(** A TA whose files can be written; a digest is the bytes themselves, the
    client is user 7...7. *)
#[global] Instance plain : TokenApi := {|
  auth_tee_identity := true;
  open_db_file := λ _, mret 0;
  write_db_main := λ _ _, mret 0;
  alloc_sha256 := mret 0;
  final_sha256 := λ l, mret (0, l);
  random_u32 := mret 99;
  client_identity := mret (0, (TEE_LOGIN_USER, replicate 16 7));
  uuid_from_str := λ _, (TEE_ERROR_BAD_PARAMETERS, []);
|}.

#[global] Instance plain_laws : TokenApiLaws.
Proof. refine {| sha256 := id |}; intros; by eexists _, _. Defined.

(** A token with the PINs "7777" and "1234"; the user has failed four times. *)
Definition so_pin : list Z := [55; 55; 55; 55].
Definition user_pin : list Z := [49; 50; 51; 52].

Definition some_token : token_persistent_main := {|
  version := 1;
  label := [116; 111; 107];
  flags := Z.lor PKCS11_CKFT_TOKEN_INITIALIZED (Z.lor PKCS11_CKFT_USER_PIN_INITIALIZED PKCS11_CKFT_USER_PIN_COUNT_LOW);
  so_pin_count := 0;
  so_pin_salt := 98;
  so_pin_hash := pin_digest PKCS11_CKU_SO so_pin 98;
  user_pin_count := 4;
  user_pin_salt := 99;
  user_pin_hash := pin_digest PKCS11_CKU_USER user_pin 99;
|}.

Lemma some_token_user : pin_ok USER some_token.
Proof. constructor; [cbn; unfold COUNT_LIMIT; lia|vm_compute; reflexivity..]. Qed.

Lemma some_token_ok : pins_ok some_token.
Proof.
  constructor; [|intros _; exact some_token_user]. constructor; [cbn; unfold COUNT_LIMIT; lia|vm_compute; reflexivity..].
Qed.

Lemma some_token_ready : ready USER some_token.
Proof. constructor; [vm_compute; reflexivity|vm_compute; reflexivity|discriminate]. Qed.

(** Three wrong PINs, and the right one does not help any more. *)
Definition guesses : list (list Z) := [[1; 1; 1; 1]; [2]; []; user_pin].

Lemma pin_guesses_bounded_witness :
  pwp (attempts USER 0 guesses) (some_token, 9%nat) (λ rcs s',
    pin_ok USER s'.1 ∧ frame USER some_token s'.1 ∧
    guessed (λ pin, right_pin USER pin some_token) 4 guesses rcs ∧
    (PKCS11_CKR_OK ∉ rcs → Z.of_nat (wrong rcs) + 4 ≤ Z.max 4 (COUNT_LIMIT - 1)) ∧
    (4 = COUNT_LIMIT → Forall (λ rc, rc = PKCS11_CKR_PIN_LOCKED) rcs)).
Proof.
  apply (@pin_guesses_bounded few plain plain_laws USER 0 guesses some_token 9%nat);
    [exact some_token_ready|exact some_token_user].
Defined.

(** The results of a run. *)
Definition results {A} (m : PinM A) (d : token_persistent_main) : option (outcome A) :=
  match m (d, 9%nat) with
  | Some (Done (a, _)) => Some (Done a)
  | Some (Panicked c) => Some (Panicked c)
  | Some Undef => Some Undef
  | None => None
  end.

Example guesses_run : results (attempts USER 0 guesses) some_token =
  Some (Done [PKCS11_CKR_PIN_INCORRECT; PKCS11_CKR_PIN_INCORRECT; PKCS11_CKR_PIN_LOCKED; PKCS11_CKR_PIN_LOCKED]).
Proof. vm_compute. reflexivity. Qed.

Definition requests : list pin_call := [
  Login USER [0]; SetPin false true user_pin (Some so_pin); Login USER so_pin;
  InitToken false (Some [1]) []; InitToken false (Some so_pin) [100]; InitPin true true (Some user_pin)].

Lemma pin_state_kept_witness : pwp (run_calls 0 requests) (some_token, 9%nat) (λ _ s', pins_ok s'.1).
Proof.
  apply (@pin_state_kept few plain plain_laws few_laws 0 requests some_token 9%nat). exact some_token_ok.
Defined.

Example requests_run : results (run_calls 0 requests) some_token =
  Some (Done [PKCS11_CKR_PIN_INCORRECT; PKCS11_CKR_OK; PKCS11_CKR_OK; PKCS11_CKR_PIN_INCORRECT; PKCS11_CKR_OK; PKCS11_CKR_OK]).
Proof. vm_compute. reflexivity. Qed.

Lemma token_initialize_correct_witness :
  pwp (token_initialize 0 false (Some so_pin) [100]) (some_token, 9%nat) (λ rc s',
    initialization false (Some so_pin) [100] some_token s'.1 rc).
Proof.
  apply (@token_initialize_correct few plain plain_laws 0 false (Some so_pin) [100] some_token 9%nat).
  exact some_token_ok.
Defined.

Lemma set_pin_roundtrip_witness :
  pwp (set_then_check 0 USER so_pin user_pin) (some_token, 9%nat) (λ r s', ∀ rc, r = Some rc →
    PKCS11_TOKEN_PIN_SIZE_MIN ≤ Z.of_nat (length so_pin) ≤ PKCS11_TOKEN_PIN_SIZE_MAX ∧
    (user_pin = so_pin → rc = PKCS11_CKR_OK ∨ other_error rc) ∧
    (apart USER user_pin so_pin → rc ≠ PKCS11_CKR_OK) ∧
    rc ≠ PKCS11_CKR_PIN_LOCKED).
Proof.
  apply (@set_pin_roundtrip few plain plain_laws 0 USER so_pin user_pin some_token 9%nat);
    [vm_compute; reflexivity|discriminate].
Defined.

(** ** A PIN for the user of a token that works with identities *)

(** The SO is the client; there is no PIN of the user yet. *)
Definition identity_token : token_persistent_main := {|
  version := 1;
  label := [116; 111; 107];
  flags := Z.lor PKCS11_CKFT_TOKEN_INITIALIZED PKCS11_CKFT_PROTECTED_AUTHENTICATION_PATH;
  so_pin_count := 0;
  so_pin_salt := 0;
  so_pin_hash := store_identity (TEE_LOGIN_USER, replicate 16 7) (replicate 64 0);
  user_pin_count := 0;
  user_pin_salt := 0;
  user_pin_hash := replicate 64 0;
|}.

(** [set_pin] takes a PIN that is no identity for "a new SO PIN to switch the
    authentication mode", also when it is for the user: the mode changes, the
    SO's hash is still his identity, and the SO, whom the token knew before, is
    refused with whatever PIN. *)
Theorem init_pin_ends_identity :
  results (check_so_pin 0 []) identity_token = Some (Done PKCS11_CKR_OK) ∧
  results (rc ← init_pin 0 true true (Some user_pin); d ← db; mret (rc, use_identity d, pin_hash SO d)) identity_token =
    Some (Done (PKCS11_CKR_OK, false, so_pin_hash identity_token)) ∧
  ∀ pin, results (rc ← init_pin 0 true true (Some user_pin); rc2 ← check_so_pin 0 pin; mret (rc, rc2)) identity_token =
    Some (Done (PKCS11_CKR_OK, PKCS11_CKR_PIN_INCORRECT)).
Proof. split_and!; [vm_compute; reflexivity|vm_compute; reflexivity|intros pin; vm_compute; reflexivity]. Qed.

(** ** Messages *)

(** A message at address 4096: a session, a template with one attribute, and more. *)
Definition message : list Z := [1; 0; 0; 0; 9; 0; 0; 0; 1; 0; 0; 0; 3; 0; 0; 0; 1; 0; 0; 0; 97; 6; 6].

Lemma message_reads : reads message (mk_args 4096 4100 23) 4.
Proof. constructor; cbn; lia. Qed.

Lemma serialargs_alloc_get_attributes_correct_witness :
  wp (serialargs_alloc_get_attributes message (mk_args 4096 4100 23)) 9%nat (λ '(rc, out, args') s',
    let n := of_le (slice 4 4 message) in
    (rc = PKCS11_CKR_OK ∧ 4 + 8 + n ≤ Z.of_nat (length message) ∧ out = Some (slice 4 (8 + n) message) ∧
       reads message args' (4 + 8 + n)) ∨
    (rc = PKCS11_CKR_DEVICE_MEMORY ∧ out = None ∧ args' = mk_args 4096 4100 23) ∨
    (rc = PKCS11_CKR_ARGUMENTS_BAD ∧ out = None ∧ Z.of_nat (length message) < 4 + 8 + n)).
Proof.
  apply (@serialargs_alloc_get_attributes_correct few few_laws message (mk_args 4096 4100 23) 4 9%nat);
    [|exact message_reads].
  unfold message. repeat (apply Forall_cons; split; [unfold is_byte; lia|]). apply Forall_nil. exact I.
Defined.

(** The session and the template are read, two bytes remain. *)
Example message_run :
  (serialargs_alloc_get_attributes message (mk_args 4096 4100 23)) 9%nat =
  Some (Done (PKCS11_CKR_OK, Some (slice 4 17 message), mk_args 4096 4117 23, 8%nat)).
Proof. vm_compute. reflexivity. Qed.

(** ** Sessions and login *)

(** A private key that is kept in the token, and one of a session. *)
Definition private_key (token : Z) : list pattr := [
  mk_pa PKCS11_CKA_CLASS [3; 0; 0; 0];
  mk_pa PKCS11_CKA_TOKEN [token];
  mk_pa PKCS11_CKA_PRIVATE [1];
  mk_pa PKCS11_CKA_DESTROYABLE [1]].

Definition key_bytes (token : Z) : list Z := attrs_mem (private_key token) [].

Lemma key_bytes_ok : well_formed (key_bytes 0) ∧ well_formed (key_bytes 1).
Proof. split; (eexists _, []; split; [|reflexivity]; concrete_attrs). Qed.

(** Storage answers; the file of an object is the private key; UUIDs are numbers. *)
#[global] Instance plain_objects : ObjectApi := {|
  alloc_struct := ta_alloc 64;
  seek_db_objs := λ _, mret 0;
  truncate_db_objs := λ _ _, mret 0;
  write_db_objs := λ _ _, mret 0;
  create_persistent := λ _ _, mret 0;
  open_persistent_meta := λ _, mret 0;
  close_and_delete := mret tt;
  read_persistent := λ _, mret (inr (key_bytes 1));
  random_uuid := λ n, Some (Done ([Z.of_nat n], S n));
|}.

#[global] Instance few_small : SmallHeap.
Proof.
  constructor. intros n h L. eexists _, _. split; [reflexivity|]. cbn beta. rewrite (proj2 (Z.ltb_ge n (2 ^ 32))) by exact L. apply andb_false_r.
Qed.

(** The UUIDs in use that may still be drawn. *)
Definition may_come (n : nat) (u : list Z) : bool := match u with [z] => Z.of_nat n <=? z | _ => false end.

Lemma may_come_pred n u : may_come (S n) u = true → may_come n u = true.
Proof. destruct u as [|z [|? ?]]; try done. unfold may_come. rewrite !Z.leb_le. lia. Qed.

Lemma fewer_come n used : [Z.of_nat n] ∈ used →
  (length (filter (λ u, may_come (S n) u = true) used) < length (filter (λ u, may_come n u = true) used))%nat.
Proof.
  assert (Le : ∀ l, (length (filter (λ u, may_come (S n) u = true) l) ≤ length (filter (λ u, may_come n u = true) l))%nat).
  { induction l as [|u l IH]; [done|]. rewrite !filter_cons. pose proof (may_come_pred n u).
    repeat case_decide; cbn; first [lia|naive_solver]. }
  intros Hn. induction used as [|u l IH]; [by apply elem_of_nil in Hn|]. rewrite !filter_cons. specialize (Le l).
  apply elem_of_cons in Hn as [<-|Hn].
  - rewrite decide_False, decide_True; [cbn; lia|..]; unfold may_come; [apply Z.leb_refl|]. rewrite Z.leb_le. lia.
  - specialize (IH Hn). pose proof (may_come_pred n u). repeat case_decide; cbn; first [lia|naive_solver].
Qed.

Lemma draw_uuid_numbers fuel : ∀ used n, (length (filter (λ u, may_come n u = true) used) < fuel)%nat →
  wp (draw_uuid fuel used) n (λ u _, u ∉ used).
Proof.
  induction fuel as [|fuel IH]; intros used n Lt; [lia|]. cbn [draw_uuid]. st_step. exists [Z.of_nat n], (S n). split; [done|].
  case_bool_decide as D; [|by st_step]. apply IH. pose proof (fewer_come n used D). lia.
Qed.

#[global] Instance plain_object_laws : ObjectApiLaws.
Proof.
  constructor; try (intros; by eexists _, _).
  - intros u h. eexists _, _. split; [reflexivity|]. split; [apply key_bytes_ok|]. intros h'. vm_compute. reflexivity.
  - intros used h. apply draw_uuid_numbers. pose proof (length_filter (λ u, may_come h u = true) used). lia.
Qed.

(** A TA that has just started, with two tokens. *)
Definition start : ta := mk_ta few
  [mk_token 1 0 0 [] some_token []; mk_token 1 0 0 [] some_token []] [] ∅ ∅ ∅ 4096 100%nat.

Lemma start_sound : sound start.
Proof.
  assert (None_of : ∀ A B (f : A → B) (a : Z), (f <$> (∅ : gmap Z A)) !! a = None) by (intros; by rewrite lookup_fmap, lookup_empty).
  split; [constructor|].
  - constructor; cbn -[fmap lookup]; try (intros *; rewrite ?None_of, ?lookup_empty; done); try (unfold ADDRESS_END; lia); try constructor.
    + intros Hc. by apply elem_of_nil in Hc.
    + rewrite None_of. by intros [? ?].
    + intros t n E. by destruct t as [|[|t]]; cbn in E; simplify_eq.
  - constructor; cbn -[fmap lookup]; try (intros *; rewrite ?None_of, ?lookup_empty; done); try (unfold ADDRESS_END; lia).
    intros t l E. destruct t as [|[|t]]; cbn in E; simplify_eq; (split; [constructor|]); intros p Hp; by apply elem_of_nil in Hp.
  - repeat (apply Forall_cons; split; [exact some_token_ok|]). apply Forall_nil. exact I.
  - intros a b x y. cbn -[fmap lookup]. by rewrite None_of.
Qed.

(** Calls one after the other, and the state they lead to. *)
Fixpoint serve_all (l : list call) : SM unit :=
  match l with [] => mret tt | c :: l => _ ← serve c; serve_all l end.

Definition state_after (l : list call) (s : ta) : ta := match serve_all l s with Some (Done (_, s')) => s' | _ => s end.

(** A call that is allowed whatever the state. *)
Definition always (c : call) : Prop :=
  match c with
  | TA_InvokeCommand _ (CMD_INIT_TOKEN _ _ _) => False
  | TA_InvokeCommand _ (CMD_CREATE_OBJECT _ b) | TA_InvokeCommand _ (CMD_FIND_OBJECTS_INIT _ b) => well_formed b
  | _ => True
  end.

Lemma serve_all_steps l : Forall always l → ∀ s, match serve_all l s with Some (Done (_, s')) => rtc ta_step s s' | _ => True end.
Proof.
  induction 1 as [|c l A _ IH]; intros s; cbn [serve_all]; [apply rtc_refl|].
  unfold mbind at 1, st_mbind, st_bind. destruct (serve c s) as [[[[] s1]| |]|] eqn:E; try done. specialize (IH s1).
  destruct (serve_all l s1) as [[[[] s2]| |]|]; try done. eapply rtc_l; [|exact IH]. apply (ta_step_serve c); [|exact E].
  destruct c as [| |a []]; done.
Qed.

Lemma after_steps l s : Forall always l → rtc ta_step s (state_after l s).
Proof.
  intros A. pose proof (serve_all_steps l A s) as R. unfold state_after. by destruct (serve_all l s) as [[[[] s2]| |]|].
Qed.

Lemma is_some_true {A} (o : option A) : (match o with Some _ => true | None => false end) = true → is_Some o.
Proof. by destruct o. Qed.

(** A client opens two sessions with the first token, the user logs in, and
    makes a private key of the second session and one of the token. *)
Definition opening : list call := [TA_OpenSession; TA_InvokeCommand 4096 (CMD_OPEN_SESSION 0 6); TA_InvokeCommand 4096 (CMD_OPEN_SESSION 0 6)].
Definition working : list call := opening ++ [TA_InvokeCommand 4096 (CMD_LOGIN 1 PKCS11_CKU_USER user_pin);
  TA_InvokeCommand 4096 (CMD_CREATE_OBJECT 2 (key_bytes 0)); TA_InvokeCommand 4096 (CMD_CREATE_OBJECT 1 (key_bytes 1))].

Definition opened_state : ta := state_after opening start.
Definition working_state : ta := state_after working start.


Lemma opening_steps : rtc ta_step start opened_state.
Proof. apply after_steps. repeat constructor. Qed.

Lemma working_steps : rtc ta_step start working_state.
Proof. apply after_steps. repeat constructor; apply key_bytes_ok. Qed.

Lemma opened_sound : sound opened_state.
Proof. exact (steps_sound _ _ start_sound opening_steps). Qed.

Lemma working_sound : sound working_state.
Proof. exact (steps_sound _ _ start_sound working_steps). Qed.

(** The object with the handle 2 is destroyed. *)
Lemma calls_never_go_wrong_witness :
  pwp (serve (TA_InvokeCommand 4096 (CMD_DESTROY_OBJECT 1 2))) working_state (λ _ s', sound s').
Proof.
  apply (@calls_never_go_wrong few plain plain_laws few_laws few_small plain_objects plain_object_laws start working_state
    (TA_InvokeCommand 4096 (CMD_DESTROY_OBJECT 1 2))); [exact start_sound|exact working_steps|exact I].
Defined.

Definition session_1 : pkcs11_session := mk_session 4096 0 1 [] PKCS11_CKS_RW_USER_FUNCTIONS None None.
Definition session_2 : pkcs11_session := mk_session 4096 0 2 [4099] PKCS11_CKS_RW_USER_FUNCTIONS None None.

Lemma sessions_agree_witness :
  pkcs11_session_is_public session_1 = pkcs11_session_is_public session_2 ∧
  pkcs11_session_is_user session_1 = pkcs11_session_is_user session_2 ∧
  pkcs11_session_is_so session_1 = pkcs11_session_is_so session_2 ∧
  (pkcs11_session_is_so session_1 = true → pkcs11_session_is_read_write session_2 = true).
Proof.
  apply (@sessions_agree few plain plain_laws few_laws few_small plain_objects plain_object_laws start working_state 4097 4098);
    [exact start_sound|exact working_steps|vm_compute; reflexivity..].
Defined.

Definition token_0 : ck_token := default (mk_token 0 0 0 [] some_token []) (ta_tokens working_state !! 0%nat).

Lemma session_counts_exact_witness :
  t_session_count token_0 = u32 (Z.of_nat (size (sessions_of 0 working_state))) ∧
  t_rw_session_count token_0 = u32 (Z.of_nat (size (rw_sessions_of 0 working_state))).
Proof.
  apply (@session_counts_exact few plain plain_laws few_laws few_small plain_objects plain_object_laws start working_state 0 token_0);
    [exact start_sound|exact working_steps|vm_compute; reflexivity].
Defined.

Lemma login_correct_witness :
  pwp (entry_ck_login 4096 1 PKCS11_CKU_USER user_pin) opened_state (λ rc s', sound s' ∧
    if rc =? PKCS11_CKR_OK then ∃ a x, ta_sessions opened_state !! a = Some x ∧ s_client x = 4096 ∧ s_handle x = 1 ∧
      pkcs11_session_is_public x = true ∧ (PKCS11_CKU_USER = PKCS11_CKU_SO ∨ PKCS11_CKU_USER = PKCS11_CKU_USER) ∧
      skel_of s' = relog_skel 4096 (s_token x) (if PKCS11_CKU_USER =? PKCS11_CKU_SO then So else User) (skel_of opened_state)
    else skel_of s' = skel_of opened_state).
Proof.
  apply (@login_correct few plain plain_laws 4096 1 PKCS11_CKU_USER user_pin opened_state);
    [exact opened_sound|apply is_some_true; vm_compute; reflexivity].
Defined.

Lemma logout_hides_private_witness :
  pwp (entry_ck_logout 4096 1) working_state (λ rc s', sound s' ∧ (rc = PKCS11_CKR_OK → ∃ t,
    skel_of s' = relog_skel 4096 t Public (skel_of working_state) ∧
    (∀ a x, ta_sessions s' !! a = Some x → s_client x = 4096 → s_token x = t →
       pkcs11_session_is_public x = true ∧ ∀ p, p ∈ s_object_list x → ¬ private (oskel_of s') p) ∧
    ∀ k cl p, ta_tokens s' !! t = Some k → ta_clients s' !! 4096 = Some cl → p ∈ t_object_list k → private (oskel_of s') p →
      handle_lookup_handle (object_handle_db cl) p = 0)).
Proof.
  apply (@logout_hides_private few plain plain_objects 4096 1 working_state);
    [exact working_sound|apply is_some_true; vm_compute; reflexivity].
Defined.

Lemma open_close_roundtrip_witness :
  pwp (open_then_close 4096 1 4) working_state (λ r s', sound s' ∧ k_sessions (skel_of s') = k_sessions (skel_of working_state) ∧
    k_tokens (skel_of s') = k_tokens (skel_of working_state) ∧
    match r with
    | Some (h, rc) => h ≠ 0 ∧ rc = PKCS11_CKR_OK ∧ ∀ cl, ta_clients s' !! 4096 = Some cl → handle_lookup (session_handle_db cl) h = 0
    | None => True
    end).
Proof.
  apply (@open_close_roundtrip few plain few_laws few_small plain_objects plain_object_laws 4096 1 4 working_state);
    [exact working_sound|apply is_some_true; vm_compute; reflexivity].
Defined.

(** The result of a run, without the state. *)
Definition outcome_of {A} (m : SM A) (s : ta) : option (outcome A) :=
  match m s with
  | Some (Done (a, _)) => Some (Done a)
  | Some (Panicked c) => Some (Panicked c)
  | Some Undef => Some Undef
  | None => None
  end.

(** The private keys are gone for the client when it has logged out. *)
Example logout_run :
  outcome_of (rc ← entry_ck_logout 4096 1; rc' ← entry_destroy_object 4096 2 1; rc'' ← entry_destroy_object 4096 2 2; mret (rc, rc', rc''))
    working_state = Some (Done (PKCS11_CKR_OK, PKCS11_CKR_OBJECT_HANDLE_INVALID, PKCS11_CKR_OBJECT_HANDLE_INVALID)).
Proof. vm_compute. reflexivity. Qed.

(** [session_logout] releases the processing of the session it was asked for, once
    for each session, and not that of the others: here the second session logs
    out, and the first, a public one now, still has its operation with the private
    key. *)
Theorem logout_keeps_processing :
  outcome_of (rc ← set_processing_state 4097 1 [4100]; rc' ← entry_ck_logout 4096 2; x ← session_at 4097;
              mret (rc, rc', s_state x, bool_decide (s_processing x ≠ None))) working_state =
  Some (Done (PKCS11_CKR_OK, PKCS11_CKR_OK, PKCS11_CKS_RW_PUBLIC_SESSION, true)).
Proof. vm_compute. reflexivity. Qed.

(** A client keeps its handle of a token's object when it closes its sessions.
    Initializing the token frees the object and leaves the handle: using it then
    accesses freed memory. This is why [allowed] asks that nobody has one. *)
Theorem initialize_leaves_handles :
  outcome_of (rc ← entry_ck_close_all_sessions 4096 0; rc' ← entry_ck_token_initialize 0 (Some so_pin) [100];
              '(rc'', h) ← entry_ck_open_session 4096 0 6; mret (rc, rc', rc'', h)) working_state =
    Some (Done (PKCS11_CKR_OK, PKCS11_CKR_OK, PKCS11_CKR_OK, 1)) ∧
  outcome_of (_ ← entry_ck_close_all_sessions 4096 0; _ ← entry_ck_token_initialize 0 (Some so_pin) [100];
              '(_, h) ← entry_ck_open_session 4096 0 6; entry_destroy_object 4096 h 2) working_state = Some Undef.
Proof. split; vm_compute; reflexivity. Qed.
