(* ===== verification/Dirfile.v ===== *)
(** The directory of the REE file system, core/tee/fs_dirfile.c, and the file
    names core/tee/tee_fs_rpc.c makes of its file numbers. The directory is a
    file of fixed-size entries, in memory there is a bit string of the file
    numbers in use. The file is reached through [struct
    tee_fs_dirfile_operations], the class [DirfileOps], whose world [dworld]
    holds the open file and the allocator. *)
From S2P Require Import Prelude State Bytes Bitstring.
From Stdlib Require Import Ascii.

Definition TEE_OBJECT_ID_MAX_LEN : Z := 64.

Definition TEE_FS_HTREE_HASH_SIZE : Z := 32.

Definition OID_EMPTY_NAME : Z := 1.

(** ** The interface to the file

    The operations are code on the world; results are [TEE_Result] codes.
    [dop_read pos len] returns the bytes it read, as many as it reports;
    [dop_realloc] is [realloc] to a size. *)
Class DirfileOps := {
  dworld : Type;
  dop_open : bool → option (list Z) → Z → St dworld Z;
  dop_close : St dworld unit;
  dop_read : Z → Z → St dworld (Z * list Z);
  dop_write : Z → list Z → St dworld Z;
  dop_commit_writes : St dworld (Z * list Z * Z);
  dop_realloc : bitstr → Z → St dworld (option bitstr);
  dop_calloc : St dworld bool;
}.

(** ** Data *)

(** [struct dirfile_entry]; arrays are lists of bytes, [uuid] the 16 bytes of
    the [TEE_UUID]. *)
Record dirfile_entry := mk_dent {
  uuid : list Z;
  oid : list Z;
  oidlen : Z;
  hash : list Z;
  file_number : Z;
}.

Record tee_fs_dirfile_fileh := mk_fileh {
  fh_file_number : Z;
  fh_hash : list Z;
  fh_idx : Z;
}.

Definition zeros (n : Z) : list Z := replicate (Z.to_nat n) 0.

Definition zero_dent : dirfile_entry :=
  mk_dent (zeros 16) (zeros TEE_OBJECT_ID_MAX_LEN) 0 (zeros TEE_FS_HTREE_HASH_SIZE) 0.

Definition sizeof_dent : Z := 16 + TEE_OBJECT_ID_MAX_LEN + 4 + TEE_FS_HTREE_HASH_SIZE + 4.

(** The bytes of a [uint32_t], least significant first. *)
Definition le32 (z : Z) : list Z :=
  [u8 z; u8 (Z.shiftr z 8); u8 (Z.shiftr z 16); u8 (Z.shiftr z 24)].

Definition of_le32 (l : list Z) : Z :=
  match l with
  | [a; b; c; d] => a + Z.shiftl b 8 + Z.shiftl c 16 + Z.shiftl d 24
  | _ => 0
  end.

(** The layout of [struct dirfile_entry], which has no padding. *)
Definition encode (e : dirfile_entry) : list Z :=
  uuid e ++ oid e ++ le32 (oidlen e) ++ hash e ++ le32 (file_number e).

Definition decode (l : list Z) : dirfile_entry :=
  mk_dent (slice 0 16 l) (slice 16 64 l) (of_le32 (slice 80 4 l)) (slice 84 32 l)
    (of_le32 (slice 116 4 l)).

(** [!memcmp(a, b, n)]. *)
Definition memeq (a b : list Z) (n : Z) : outcome bool :=
  if (Z.of_nat (length a) <? n) || (Z.of_nat (length b) <? n) then Undef
  else Done (bool_decide (slice 0 n a = slice 0 n b)).

Definition is_free (dent : dirfile_entry) : outcome bool :=
  let b0 := default 0 (oid dent !! 0%nat) in
  if negb (oidlen dent =? 0) || (b0 =? 0) || (b0 =? OID_EMPTY_NAME)
  then Done ((oidlen dent =? 0) && (b0 =? 0))
  else Panicked 0.

Section Dirfile.
Context `{DirfileOps}.

(** [struct tee_fs_dirfile_dirh]; [fh] is the world with its open file. *)
Record tee_fs_dirfile_dirh := mk_dirh {
  fh : dworld;
  nbits : Z;
  files : bitstr;
  ndents : Z;
}.

Definition with_fh (w : dworld) (dirh : tee_fs_dirfile_dirh) : tee_fs_dirfile_dirh :=
  mk_dirh w (nbits dirh) (files dirh) (ndents dirh).

Definition with_files (f : bitstr) (dirh : tee_fs_dirfile_dirh) : tee_fs_dirfile_dirh :=
  mk_dirh (fh dirh) (nbits dirh) f (ndents dirh).

(** Code on a handle. *)
Abbreviation D := (St tee_fs_dirfile_dirh).

(** A call through [fops] or of the allocator. *)
Definition call {A} (f : St dworld A) : D A := λ dirh,
  match f (fh dirh) with
  | None => None
  | Some (Done (a, w)) => Some (Done (a, with_fh w dirh))
  | Some (Panicked c) => Some (Panicked c)
  | Some Undef => Some Undef
  end.

(** ** The bit string of file numbers *)

Definition maybe_grow_files (idx : Z) : D Z :=
  nb ← gets nbits;
  if idx <? nb then mret TEE_SUCCESS
  else if INT_MAX - 8 <? idx then undef
  else
    old ← gets files;
    p ← call (dop_realloc old (bitstr_size (idx + 1)));
    match p with
    | None => mret TEE_ERROR_OUT_OF_MEMORY
    | Some p =>
        f ← run (bit_nclear p nb idx);
        _ ← modify (λ dirh, mk_dirh (fh dirh) (idx + 1) f (ndents dirh));
        mret TEE_SUCCESS
    end.

Definition set_file (idx : Z) : D Z :=
  res ← maybe_grow_files idx;
  if res =? 0 then
    f ← gets files;
    f' ← run (bit_set f idx);
    _ ← modify (with_files f');
    mret res
  else mret res.

Definition clear_file (idx : Z) : D unit :=
  nb ← gets nbits;
  if idx <? nb then
    f ← gets files;
    f' ← run (bit_clear f idx);
    modify (with_files f')
  else mret tt.

Definition test_file (idx : Z) : D bool :=
  nb ← gets nbits;
  if idx <? nb then
    f ← gets files;
    run (bit_test f idx)
  else mret false.

(** ** Entries *)

(** The result and, when it is [TEE_SUCCESS], the entry. *)
Definition read_dent (idx : Z) : D (Z * dirfile_entry) :=
  '(res, data) ← call (dop_read (u64 (sizeof_dent * idx)) sizeof_dent);
  if negb (res =? 0) then mret (res, zero_dent)
  else if negb (Z.of_nat (length data) =? sizeof_dent)
  then mret (TEE_ERROR_ITEM_NOT_FOUND, zero_dent)
  else mret (TEE_SUCCESS, decode data).

Definition write_dent (n : Z) (dent : dirfile_entry) : D Z :=
  res ← call (dop_write (u64 (sizeof_dent * n)) (encode dent));
  nd ← gets ndents;
  _ ← (if (res =? 0) && (nd <=? n)
       then modify (λ dirh, mk_dirh (fh dirh) (nbits dirh) (files dirh) (u64 (n + 1)))
       else mret tt);
  mret res.

(** ** Opening and closing *)

(** The loop of [tee_fs_dirfile_open] from entry [n]: the result and the
    number of entries read. *)
Fixpoint open_loop (fuel : nat) (n : Z) : D (Z * Z) :=
  match fuel with
  | O => out_of_fuel
  | S fuel =>
      '(res, dent) ← read_dent (to_int n);
      if negb (res =? 0)
      then mret (if res =? TEE_ERROR_ITEM_NOT_FOUND then TEE_SUCCESS else res, n)
      else
      free ← run (is_free dent);
      if free : bool then open_loop fuel (n + 1) else
      dup ← test_file (to_int (file_number dent));
      if dup : bool then
        res ← write_dent n zero_dent;
        if negb (res =? 0) then mret (res, n) else open_loop fuel (n + 1)
      else
        res ← set_file (to_int (file_number dent));
        if negb (res =? TEE_SUCCESS) then mret (res, n) else open_loop fuel (n + 1)
  end.

Definition tee_fs_dirfile_close (dirh : tee_fs_dirfile_dirh) : St dworld unit :=
  λ _, dop_close (fh dirh).

(** Code on a handle that starts from the open file of the world and returns
    the handle. *)
Definition with_handle {A} (m : D A) : St dworld (A * tee_fs_dirfile_dirh) := λ w,
  match m (mk_dirh w 0 [] 0) with
  | None => None
  | Some (Done (a, dirh)) => Some (Done ((a, dirh), fh dirh))
  | Some (Panicked c) => Some (Panicked c)
  | Some Undef => Some Undef
  end.

(** The result and, when it is [TEE_SUCCESS], the handle. *)
Definition tee_fs_dirfile_open (fuel : nat) (create : bool) (hash : option (list Z))
    (min_counter : Z) : St dworld (Z * option tee_fs_dirfile_dirh) :=
  ok ← dop_calloc;
  if negb ok then mret (TEE_ERROR_OUT_OF_MEMORY, None) else
  res ← dop_open create hash min_counter;
  if negb (res =? 0) then _ ← dop_close; mret (res, None) else
  '((res, n), dirh) ← with_handle (open_loop fuel 0);
  if res =? 0 then mret (res, Some (mk_dirh (fh dirh) (nbits dirh) (files dirh) n))
  else _ ← tee_fs_dirfile_close dirh; mret (res, None).

Definition tee_fs_dirfile_commit_writes : D (Z * list Z * Z) := call dop_commit_writes.

(** ** File handles *)

(** The result and, on success, [dfh->file_number]. *)
Definition tee_fs_dirfile_get_tmp : D (Z * Z) :=
  nb ← gets nbits;
  f ← gets files;
  i ← (if negb (nb =? 0)
       then i ← run (bit_ffc f nb); mret (if i =? -1 then nb else i)
       else mret 0);
  res ← set_file i;
  mret (res, u32 i).

Fixpoint find_loop (fuel : nat) (uuid' oid' : list Z) (oidlen' n : Z)
  : D (Z * tee_fs_dirfile_fileh) :=
  match fuel with
  | O => out_of_fuel
  | S fuel =>
      '(res, dent) ← read_dent n;
      if negb (res =? 0) then mret (res, mk_fileh 0 [] (-1)) else
      free ← run (is_free dent);
      if free : bool then find_loop fuel uuid' oid' oidlen' (n + 1) else
      if negb (oidlen dent =? oidlen') then find_loop fuel uuid' oid' oidlen' (n + 1) else
      used ← test_file (to_int (file_number dent));
      _ ← st_assert used;
      same_uuid ← run (memeq (uuid dent) uuid' 16);
      same_oid ← (if same_uuid : bool then run (memeq (oid dent) oid' oidlen') else mret false);
      if same_oid : bool then mret (TEE_SUCCESS, mk_fileh (file_number dent) (hash dent) n)
      else find_loop fuel uuid' oid' oidlen' (n + 1)
  end.

Definition tee_fs_dirfile_find (fuel : nat) (uuid' oid' : list Z) (oidlen' : Z)
  : D (Z * tee_fs_dirfile_fileh) := find_loop fuel uuid' oid' oidlen' 0.

(** The result and [*idx]. *)
Fixpoint find_empty_loop (fuel : nat) (n : Z) : D (Z * Z) :=
  match fuel with
  | O => out_of_fuel
  | S fuel =>
      '(res, dent) ← read_dent n;
      if res =? TEE_ERROR_ITEM_NOT_FOUND then mret (TEE_SUCCESS, n) else
      if negb (res =? 0) then mret (res, -1) else
      free ← run (is_free dent);
      if free : bool then mret (TEE_SUCCESS, n) else find_empty_loop fuel (n + 1)
  end.

Definition find_empty_idx (fuel : nat) : D (Z * Z) := find_empty_loop fuel 0.

(** The entry that [tee_fs_dirfile_rename] writes. *)
Definition rename_dent (uuid' : list Z) (dfh : tee_fs_dirfile_fileh) (oid' : list Z)
    (oidlen' : Z) : outcome dirfile_entry :=
  if Z.of_nat (length oid') <? oidlen' then Undef else
  let o := if negb (oidlen' =? 0)
           then slice 0 oidlen' oid' ++ zeros (TEE_OBJECT_ID_MAX_LEN - oidlen')
           else OID_EMPTY_NAME :: zeros (TEE_OBJECT_ID_MAX_LEN - 1) in
  Done (mk_dent uuid' o (u32 oidlen') (fh_hash dfh) (fh_file_number dfh)).

(** Where [tee_fs_dirfile_rename] stores: the result and the index. *)
Definition rename_place (fuel : nat) (uuid' : list Z) (dfh : tee_fs_dirfile_fileh)
    (oid' : list Z) (oidlen' : Z) : D (Z * Z) :=
  if fh_idx dfh <? 0 then
    '(res, dfh2) ← tee_fs_dirfile_find fuel uuid' oid' oidlen';
    if negb (res =? 0) then
      if res =? TEE_ERROR_ITEM_NOT_FOUND then find_empty_idx fuel
      else mret (res, fh_idx dfh)
    else mret (TEE_SUCCESS, fh_idx dfh2)
  else mret (TEE_SUCCESS, fh_idx dfh).

(** The result and [*dfh]. *)
Definition tee_fs_dirfile_rename (fuel : nat) (uuid' : list Z) (dfh : tee_fs_dirfile_fileh)
    (oid' : list Z) (oidlen' : Z) : D (Z * tee_fs_dirfile_fileh) :=
  if TEE_OBJECT_ID_MAX_LEN <? oidlen' then mret (TEE_ERROR_BAD_PARAMETERS, dfh) else
  dent ← run (rename_dent uuid' dfh oid' oidlen');
  '(res, idx) ← rename_place fuel uuid' dfh oid' oidlen';
  if negb (res =? 0) then mret (res, dfh) else
  res ← write_dent (u64 idx) dent;
  mret (res, mk_fileh (fh_file_number dfh) (fh_hash dfh) idx).

Definition tee_fs_dirfile_remove (dfh : tee_fs_dirfile_fileh) : D Z :=
  '(res, dent) ← read_dent (fh_idx dfh);
  if negb (res =? 0) then mret res else
  free ← run (is_free dent);
  if free : bool then mret TEE_SUCCESS else
  _ ← st_assert (fh_file_number dfh =? file_number dent);
  used ← test_file (to_int (file_number dent));
  _ ← st_assert used;
  res ← write_dent (u64 (fh_idx dfh)) zero_dent;
  if res =? 0
  then _ ← clear_file (to_int (file_number dent)); mret res
  else mret res.

Definition tee_fs_dirfile_update_hash (dfh : tee_fs_dirfile_fileh) : D Z :=
  '(res, dent) ← read_dent (fh_idx dfh);
  if negb (res =? 0) then mret res else
  _ ← st_assert (file_number dent =? fh_file_number dfh);
  used ← test_file (to_int (file_number dent));
  _ ← st_assert used;
  write_dent (u64 (fh_idx dfh))
    (mk_dent (uuid dent) (oid dent) (oidlen dent) (fh_hash dfh) (file_number dent)).

(** ** Enumeration *)

(** The loop of [tee_fs_dirfile_get_next]: the next entry of the TA. *)
Fixpoint next_loop (fuel : nat) (uuid' : list Z) (i : Z) : D (Z * (Z * dirfile_entry)) :=
  match fuel with
  | O => out_of_fuel
  | S fuel =>
      '(res, dent) ← read_dent i;
      if negb (res =? 0) then mret (res, (i, dent)) else
      same_uuid ← run (memeq (uuid dent) uuid' 16);
      free ← (if same_uuid : bool then run (is_free dent) else mret true);
      if free : bool then next_loop fuel uuid' (i + 1) else mret (TEE_SUCCESS, (i, dent))
  end.

(** The result, [*idx], the bytes copied to [oid] and [*oidlen]. *)
Definition tee_fs_dirfile_get_next (fuel : nat) (uuid' : list Z) (idx oidlen' : Z)
  : D (Z * (Z * list Z * Z)) :=
  let i := if idx + 1 <? 0 then 0 else idx + 1 in
  '(res, (i, dent)) ← next_loop fuel uuid' i;
  if negb (res =? 0) then mret (res, (idx, [], oidlen')) else
  if oidlen' <? oidlen dent then mret (TEE_ERROR_SHORT_BUFFER, (idx, [], oidlen')) else
  if Z.of_nat (length (oid dent)) <? oidlen dent then undef else
  mret (TEE_SUCCESS, (i, slice 0 (oidlen dent) (oid dent), oidlen dent)).

End Dirfile.

(** ** File names *)

Definition hex_digit (d : Z) : ascii :=
  Ascii.ascii_of_nat (Z.to_nat (if d <? 10 then 48 + d else 87 + d)).

(** [PRIx32]: lower case, no leading zeros; eight rounds are enough. *)
Fixpoint hex (fuel : nat) (z : Z) : list ascii :=
  match fuel with
  | O => []
  | S fuel => if z <? 16 then [hex_digit z] else hex fuel (z / 16) ++ [hex_digit (z mod 16)]
  end.

Definition dirf_db : list ascii := String.list_ascii_of_string "dirf.db".

(** The result, [*fnlen] and the characters left in [fname], without the
    terminating NUL; NULL is [None]. *)
Definition tee_fs_dirfile_fileh_to_fname (dfh : option tee_fs_dirfile_fileh) (fnlen : Z)
  : Z * Z * list ascii :=
  let s := match dfh with Some dfh => hex 8 (fh_file_number dfh) | None => dirf_db end in
  let r := Z.of_nat (length s) in
  let out := take (Z.to_nat (fnlen - 1)) s in
  if fnlen <=? r then (TEE_ERROR_SHORT_BUFFER, r + 1, out) else (TEE_SUCCESS, r + 1, out).

Definition TEE_FS_NAME_MAX : Z := 350.

(** [create_filename] of tee_fs_rpc.c: the result and the name. *)
Definition create_filename (blen : Z) (dfh : option tee_fs_dirfile_fileh) : Z * list ascii :=
  if blen <=? 0 then (TEE_ERROR_SHORT_BUFFER, []) else
  if blen <=? 1 then (TEE_ERROR_SHORT_BUFFER, ["/"%char]) else
  let '(res, _, s) := tee_fs_dirfile_fileh_to_fname dfh (blen - 1) in (res, "/"%char :: s).
