(* ===== verification/DirfileProofs.v ===== *)
(** The contents of a directory file: encoding of entries, what the directory
    asks of the file it is kept in, the rules to reason about code on a
    directory handle; the invariant of a handle and what each function of
    core/tee/fs_dirfile.c does to it. *)
From S2P Require Import Prelude State Bytes Bitstring Dirfile.

(** ** Entries *)

Definition MAX_ENTS : Z := 2 ^ 24.

(** File numbers are converted to [int] and grow the bit string. *)
Definition FILE_NUMBER_MAX : Z := INT_MAX - 8.

Definition free_ent (e : dirfile_entry) : bool :=
  (oidlen e =? 0) && (default 0 (oid e !! 0%nat) =? 0).

(** Entries the directory writes: arrays of the size of the structure, a name
    no longer than its array and the mark of an empty name. *)
Record ent_ok (e : dirfile_entry) : Prop := {
  ok_uuid : length (uuid e) = 16%nat;
  ok_oid : length (oid e) = 64%nat;
  ok_hash : length (hash e) = 32%nat;
  ok_oidlen : 0 ≤ oidlen e ≤ TEE_OBJECT_ID_MAX_LEN;
  ok_empty : oidlen e = 0 → default 0 (oid e !! 0%nat) = 0 ∨ default 0 (oid e !! 0%nat) = 1;
  ok_number : 0 ≤ file_number e ≤ FILE_NUMBER_MAX;
}.

Definition encode_all (ents : list dirfile_entry) : list Z := concat (encode <$> ents).

(** An object of a TA: its uuid and its identifier. *)
Definition name : Type := list Z * list Z.

Definition ent_name (e : dirfile_entry) : name := (uuid e, slice 0 (oidlen e) (oid e)).

Definition has_name (k : name) (e : dirfile_entry) : Prop :=
  free_ent e = false ∧ ent_name e = k.

#[global] Instance has_name_dec k e : Decision (has_name k e).
Proof. unfold has_name. apply _. Defined.

(** The entry of index [i] replaced, or appended at the end of the file. *)
Definition store (i : nat) (e : dirfile_entry) (ents : list dirfile_entry) : list dirfile_entry :=
  if decide (i < length ents)%nat then <[i := e]> ents else ents ++ [e].

(** ** The file

    What the functions behind [fops] do on offsets that are positive as [int]:
    they succeed, or fail with a result that is not
    [TEE_ERROR_ITEM_NOT_FOUND], which the directory takes for the end of the
    file; committing and the allocator do not change the file. *)
Definition fails (res : Z) : Prop := res ≠ TEE_SUCCESS ∧ res ≠ TEE_ERROR_ITEM_NOT_FOUND.

Class DirfileLaws `{DirfileOps} := {
  contents : dworld → list Z → Prop;
  contents_inj : ∀ w c c', contents w c → contents w c' → c = c';
  read_ok : ∀ pos len w c,
    contents w c → 0 ≤ pos → 0 ≤ len → pos + len ≤ INT_MAX →
    wp (dop_read pos len) w (λ '(res, data) w',
      res = TEE_SUCCESS ∧ data = slice pos len c ∧ contents w' c ∨ fails res);
  write_ok : ∀ pos data w c,
    contents w c → 0 ≤ pos ≤ Z.of_nat (length c) →
    pos + Z.of_nat (length data) ≤ INT_MAX →
    wp (dop_write pos data) w (λ res w',
      res = TEE_SUCCESS ∧
        contents w' (take (Z.to_nat pos) c ++ data ++ drop (Z.to_nat pos + length data) c) ∨
      res ≠ TEE_SUCCESS);
  realloc_ok : ∀ f n w,
    wp (dop_realloc f n) w (λ r w',
      (∀ c, contents w c → contents w' c) ∧
      match r with
      | Some p =>
          Z.of_nat (length p) = n ∧ bytes_ok p ∧
          ∀ i, (i < length f)%nat → (i < length p)%nat → p !! i = f !! i
      | None => True
      end);
  commit_ok : ∀ w c, contents w c →
    wp dop_commit_writes w (λ '(res, _, _) w', res = TEE_SUCCESS → contents w' c);
  calloc_ok : ∀ w, wp dop_calloc w (λ _ _, True);
  close_ok : ∀ w, wp dop_close w (λ _ _, True);
}.

(** ** Lemmas on encodings *)

Lemma of_le32_le32 z : 0 ≤ z < 2 ^ 32 → of_le32 (le32 z) = z.
Proof.
  intros Hz. unfold of_le32, le32. rewrite !Z.shiftl_mul_pow2, !Z.shiftr_div_pow2 by lia.
  unfold u8. change (2 ^ 8) with 256. change (2 ^ 16) with (256 * 256).
  change (2 ^ 24) with (256 * 256 * 256). rewrite <- !Z.div_div by lia.
  pose proof (Z.div_mod z 256 ltac:(lia)). pose proof (Z.mod_pos_bound z 256 ltac:(lia)).
  set (a := z / 256) in *. pose proof (Z.div_mod a 256 ltac:(lia)).
  pose proof (Z.mod_pos_bound a 256 ltac:(lia)).
  set (b := a / 256) in *. pose proof (Z.div_mod b 256 ltac:(lia)).
  pose proof (Z.mod_pos_bound b 256 ltac:(lia)).
  set (c := b / 256) in *. rewrite (Z.mod_small c) by lia. lia.
Qed.

Lemma length_encode e : ent_ok e → length (encode e) = Z.to_nat sizeof_dent.
Proof.
  intros []. unfold encode. rewrite !length_app. rewrite ok_uuid0, ok_oid0, ok_hash0. reflexivity.
Qed.

Lemma decode_encode e : ent_ok e → decode (encode e) = e.
Proof.
  intros []. unfold decode, encode, FILE_NUMBER_MAX, INT_MAX, TEE_OBJECT_ID_MAX_LEN in *.
  destruct e as [u o ol h fn]; cbn [uuid oid oidlen hash file_number] in *.
  assert (L : ∀ z, length (le32 z) = 4%nat) by done.
  f_equal.
  - rewrite slice_app_l by lia. apply slice_all; lia.
  - rewrite slice_app_r, slice_app_l by lia. apply slice_all; lia.
  - rewrite !slice_app_r, slice_app_l by (rewrite ?L; lia).
    rewrite slice_all by (rewrite ?L; lia). apply of_le32_le32. lia.
  - rewrite !slice_app_r, slice_app_l by (rewrite ?L; lia). apply slice_all; rewrite ?L; lia.
  - rewrite !slice_app_r by (rewrite ?L; lia).
    rewrite slice_all by (rewrite ?L; lia). apply of_le32_le32. lia.
Qed.

Lemma length_encode_all ents :
  Forall ent_ok ents → Z.of_nat (length (encode_all ents)) = sizeof_dent * Z.of_nat (length ents).
Proof.
  unfold encode_all. induction 1 as [|e ents H _ IH]; [done|].
  rewrite fmap_cons. simpl concat. rewrite length_app, length_encode by done.
  change sizeof_dent with 120 in *. simpl length. lia.
Qed.

Lemma encode_all_app a b : encode_all (a ++ b) = encode_all a ++ encode_all b.
Proof. unfold encode_all. by rewrite fmap_app, concat_app. Qed.

Lemma ents_ok_lookup ents i e : Forall ent_ok ents → ents !! i = Some e → ent_ok e.
Proof. intros H E. by apply (Forall_lookup_1 _ _ _ _ H E). Qed.

(** An entry is read back from its place. *)
Lemma slice_encode_all ents (i : nat) :
  Forall ent_ok ents →
  slice (sizeof_dent * Z.of_nat i) sizeof_dent (encode_all ents) =
  match ents !! i with Some e => encode e | None => [] end.
Proof.
  intros H. pose proof (length_encode_all ents H) as L.
  destruct (ents !! i) as [e|] eqn:E.
  - rewrite <- (take_drop_middle ents i e E), encode_all_app.
    assert (Ht : Forall ent_ok (take i ents)) by by apply Forall_take.
    pose proof (length_encode_all _ Ht) as Lt. rewrite length_take in Lt.
    pose proof (lookup_lt_Some _ _ _ E).
    assert (Le : length (encode e) = 120%nat)
      by (rewrite length_encode by exact (ents_ok_lookup _ _ _ H E); done).
    change sizeof_dent with 120 in *. rewrite slice_app_r by lia.
    change (encode_all (e :: drop (S i) ents)) with (encode e ++ encode_all (drop (S i) ents)).
    rewrite Lt, Nat.min_l, Z.sub_diag by lia.
    rewrite slice_app_l by lia. apply slice_all; lia.
  - apply slice_past. apply lookup_ge_None in E. rewrite L. change sizeof_dent with 120. lia.
Qed.

(** Writing an entry at its place, or at the end. *)
Lemma write_encode_all ents (i : nat) e :
  Forall ent_ok ents → ent_ok e → (i ≤ length ents)%nat →
  let p := Z.to_nat (sizeof_dent * Z.of_nat i) in
  take p (encode_all ents) ++ encode e ++ drop (p + length (encode e)) (encode_all ents) =
  encode_all (store i e ents).
Proof.
  intros H He Hi p. pose proof (length_encode_all ents H) as L. unfold store.
  rewrite length_encode by done. change sizeof_dent with 120 in *.
  case_decide as D.
  - destruct (lookup_lt_is_Some_2 ents i D) as [e0 E0].
    assert (Ht : Forall ent_ok (take i ents)) by by apply Forall_take.
    pose proof (length_encode_all _ Ht) as Lt. rewrite length_take in Lt.
    change sizeof_dent with 120 in *.
    assert (E1 : encode_all ents =
      encode_all (take i ents) ++ encode e0 ++ encode_all (drop (S i) ents)).
    { rewrite <- (take_drop_middle ents i e0 E0) at 1. by rewrite encode_all_app. }
    assert (ent_ok e0) by exact (ents_ok_lookup _ _ _ H E0).
    rewrite E1, insert_take_drop by done.
    rewrite encode_all_app.
    change (encode_all (e :: drop (S i) ents)) with (encode e ++ encode_all (drop (S i) ents)).
    rewrite take_app_length' by (unfold p; lia). do 2 f_equal.
    rewrite (app_assoc (encode_all _)).
    rewrite drop_app_length'; [done|]. rewrite length_app, length_encode by done.
    change (Z.to_nat sizeof_dent) with 120%nat. unfold p; simpl; lia.
  - assert (i = length ents) as -> by lia. rewrite encode_all_app.
    rewrite take_ge by (unfold p; lia). rewrite drop_ge by (unfold p; lia). done.
Qed.

(** ** Stepping through code on a handle *)

Lemma wp_call `{DirfileOps} {A} (f : St dworld A) dirh (Q : A → _ → Prop) :
  wp f (fh dirh) (λ a w, Q a (with_fh w dirh)) → wp (call f) dirh Q.
Proof. intros (a & w & E & HQ). unfold wp, call. rewrite E. eauto. Qed.

Ltac d_step := first [apply wp_call | st_step].

Section Proofs.
Context `{DirfileLaws}.

(** A number whose bit is set is in use: it belongs to an entry or was given
    out by [tee_fs_dirfile_get_tmp]. *)
Definition in_use (d : tee_fs_dirfile_dirh) (n : Z) : Prop :=
  0 ≤ n < nbits d ∧ bit_at (files d) n = true.

#[global] Instance in_use_dec d n : Decision (in_use d n).
Proof. unfold in_use. apply _. Defined.

(** The file holds the entries [ents] and the bit string is well formed. *)
Record dir_base (d : tee_fs_dirfile_dirh) (ents : list dirfile_entry) : Prop := {
  b_contents : contents (fh d) (encode_all ents);
  b_ents : Forall ent_ok ents;
  b_len : Z.of_nat (length ents) ≤ MAX_ENTS;
  b_bytes : bytes_ok (files d);
  b_nbits : 0 ≤ nbits d ≤ capacity (files d);
  b_nmax : nbits d ≤ FILE_NUMBER_MAX + 1;
}.

(** The numbers of the entries are in use, each by one entry. *)
Record dir_cover (d : tee_fs_dirfile_dirh) (ents : list dirfile_entry) : Prop := {
  c_used : ∀ i e, ents !! i = Some e → free_ent e = false → in_use d (file_number e);
  c_distinct : ∀ i j e e', ents !! i = Some e → ents !! j = Some e' →
    free_ent e = false → free_ent e' = false → file_number e = file_number e' → i = j;
}.

Record dir_inv (d : tee_fs_dirfile_dirh) (ents : list dirfile_entry) : Prop := {
  i_base : dir_base d ents;
  i_cover : dir_cover d ents;
  i_ndents : ndents d = Z.of_nat (length ents);
}.

(** Another world with the same file. *)
Definition same_dir (d d' : tee_fs_dirfile_dirh) : Prop :=
  ∃ w, d' = with_fh w d ∧ ∀ c, contents (fh d) c → contents w c.

Lemma same_dir_refl d : same_dir d d.
Proof. exists (fh d). split; [by destruct d|done]. Qed.

Lemma same_dir_trans d1 d2 d3 : same_dir d1 d2 → same_dir d2 d3 → same_dir d1 d3.
Proof. intros (w1 & -> & E1) (w2 & -> & E2). exists w2. simpl in E2. split; [done|auto]. Qed.

Lemma same_dir_inv d d' ents : same_dir d d' → dir_inv d ents → dir_inv d' ents.
Proof. intros (w & -> & E) [[] [] ?]. split; [split|split|]; simpl; try done. by apply E. Qed.

Lemma same_dir_base d d' ents : same_dir d d' → dir_base d ents → dir_base d' ents.
Proof. intros (w & -> & E) []. split; simpl; try done. by apply E. Qed.

Lemma same_dir_in_use d d' n : same_dir d d' → in_use d' n ↔ in_use d n.
Proof. by intros (w & -> & E). Qed.

Lemma cover_in_use d d' ents :
  (∀ n, in_use d n → in_use d' n) → dir_cover d ents → dir_cover d' ents.
Proof. intros Hu []. split; eauto. Qed.

(** ** The bit string *)

Lemma test_file_ok d ents n :
  dir_base d ents → 0 ≤ n →
  wp (test_file n) d (λ b d', d' = d ∧ b = bool_decide (in_use d n)).
Proof.
  intros [] Hn. unfold test_file. do 2 d_step.
  destruct (Z.ltb_spec n (nbits d)).
  - do 2 d_step. eapply wp_run; [apply bit_test_ok; lia|]. split; [done|].
    case_bool_decide as U; [apply U|]. apply not_true_is_false. intros T. apply U. split; [lia|done].
  - d_step. split; [done|]. symmetry. apply bool_decide_eq_false_2. intros [? _]. lia.
Qed.

(** The size [bitstr_size] asks for is enough, and little more. *)
Lemma bitstr_size_bounds n : 0 ≤ n → n ≤ 8 * bitstr_size n < n + 8.
Proof.
  intros. unfold bitstr_size. rewrite Z.shiftr_div_pow2 by lia. change (2 ^ 3) with 8.
  pose proof (Z.div_mod (n + 7) 8). pose proof (Z.mod_pos_bound (n + 7) 8). lia.
Qed.

(** Bytes kept by [realloc] keep their bits. *)
Lemma kept_bits (f p : bitstr) i :
  0 ≤ i < capacity f → i < capacity p →
  (∀ k, (k < length f)%nat → (k < length p)%nat → p !! k = f !! k) → bit_at p i = bit_at f i.
Proof.
  intros Hf Hp E. pose proof (div8_in f i Hf). pose proof (div8_in p i ltac:(lia)).
  unfold bit_at, byte_of. by rewrite E by lia.
Qed.

Lemma maybe_grow_files_ok d ents idx :
  dir_base d ents → 0 ≤ idx ≤ FILE_NUMBER_MAX →
  wp (maybe_grow_files idx) d (λ res d',
    dir_base d' ents ∧ ndents d' = ndents d ∧ (∀ n, in_use d' n ↔ in_use d n) ∧
    (res = TEE_SUCCESS ∧ idx < nbits d' ∨ res = TEE_ERROR_OUT_OF_MEMORY)).
Proof.
  intros B Hidx. pose proof B as []. unfold maybe_grow_files. do 2 d_step.
  destruct (Z.ltb_spec idx (nbits d)).
  { d_step. split_and!; auto. }
  destruct (Z.ltb_spec (INT_MAX - 8) idx); [unfold FILE_NUMBER_MAX in *; lia|].
  do 4 d_step. eapply wp_mono; [apply realloc_ok|]. intros a w [Ec Ep].
  destruct a as [p|].
  2: { d_step. split_and!; auto. split; simpl; auto. }
  destruct Ep as (Lp & Op & Kp). pose proof (bitstr_size_bounds (idx + 1) ltac:(lia)).
  assert (Cp : idx < capacity p) by (unfold capacity; lia).
  destruct (bit_nclear_updates p (nbits d) idx Op ltac:(lia) Cp) as (f' & E & L & O & U).
  d_step. eapply wp_run; [exact E|]. do 3 d_step.
  assert (U' : ∀ i, 0 ≤ i → bit_at f' i = (i <? nbits d) && bit_at (files d) i || (idx <? i) && bit_at p i).
  { intros i Hi. rewrite U by done.
    destruct (Z.leb_spec (nbits d) i), (Z.leb_spec i idx), (Z.ltb_spec i (nbits d)),
      (Z.ltb_spec idx i); simpl; rewrite ?andb_false_r, ?orb_false_r; try done; try lia.
    apply kept_bits; [lia|lia|done]. }
  split_and!; simpl; [|done| |left; lia].
  - split; simpl; try done; [by apply Ec| |unfold FILE_NUMBER_MAX in *; lia].
    unfold capacity in *. lia.
  - intros n. unfold in_use. simpl. split.
    + intros [? T]. rewrite U' in T by lia. destruct (Z.ltb_spec idx n); [lia|].
      simpl in T. rewrite orb_false_r in T. apply andb_true_iff in T as [T1 T2].
      apply Z.ltb_lt in T1. split; [lia|done].
    + intros [? T]. split; [lia|]. rewrite U', T by lia.
      by destruct (Z.ltb_spec n (nbits d)); [|lia].
Qed.

Lemma set_file_ok d ents n :
  dir_base d ents → 0 ≤ n ≤ FILE_NUMBER_MAX →
  wp (set_file n) d (λ res d',
    dir_base d' ents ∧ ndents d' = ndents d ∧
    (res = TEE_SUCCESS ∧ (∀ m, in_use d' m ↔ m = n ∨ in_use d m) ∨
     res = TEE_ERROR_OUT_OF_MEMORY ∧ ∀ m, in_use d' m ↔ in_use d m)).
Proof.
  intros B Hn. unfold set_file. d_step.
  eapply wp_mono; [by apply (maybe_grow_files_ok d ents)|].
  intros res d1 (B1 & N1 & U1 & [[-> Hlt]| ->]); simpl.
  - pose proof B1 as []. do 2 d_step.
    destruct (bit_set_updates (files d1) n ltac:(done) ltac:(lia)) as (f & E & L & O & U).
    d_step. eapply wp_run; [exact E|]. do 3 d_step. split_and!; [|done|left; split; [done|]].
    + split; simpl; try done. unfold capacity in *. by rewrite L.
    + intros m. rewrite <- U1. unfold in_use. simpl. split.
      * intros [? T]. rewrite U in T by lia. apply orb_true_iff in T as [T|T]; [|auto].
        left. by apply Z.eqb_eq.
      * intros [-> |[? T]]; (split; [lia|]); rewrite U by lia;
          [by rewrite Z.eqb_refl|by rewrite T, orb_true_r].
  - d_step. auto.
Qed.

Lemma clear_file_ok d ents n :
  dir_base d ents → 0 ≤ n →
  wp (clear_file n) d (λ _ d',
    dir_base d' ents ∧ ndents d' = ndents d ∧ ∀ m, in_use d' m ↔ m ≠ n ∧ in_use d m).
Proof.
  intros B Hn. pose proof B as []. unfold clear_file. do 2 d_step.
  destruct (Z.ltb_spec n (nbits d)).
  - do 2 d_step.
    destruct (bit_clear_updates (files d) n ltac:(done) ltac:(lia)) as (f & E & L & O & U).
    d_step. eapply wp_run; [exact E|]. d_step. split_and!; [|done|].
    + split; simpl; try done. unfold capacity in *. by rewrite L.
    + intros m. unfold in_use. simpl. split.
      * intros [? T]. rewrite U in T by lia. apply andb_true_iff in T as [T1 T2].
        apply negb_true_iff, Z.eqb_neq in T1. auto.
      * intros (Hm & ? & T). split; [lia|]. rewrite U, T by lia.
        by destruct (Z.eqb_spec m n).
  - d_step. split_and!; [done|done|]. intros m. unfold in_use. intuition lia.
Qed.

(** ** Entries *)

Lemma is_free_ok e : ent_ok e → is_free e = Done (free_ent e).
Proof.
  intros [_ _ _ _ He _]. unfold is_free, free_ent, OID_EMPTY_NAME.
  destruct (Z.eqb_spec (oidlen e) 0) as [E|N]; [|done].
  by destruct (He E) as [-> | ->].
Qed.

Lemma zero_dent_ok : ent_ok zero_dent.
Proof.
  split; try done; unfold zero_dent, FILE_NUMBER_MAX, TEE_OBJECT_ID_MAX_LEN, INT_MAX; simpl; lia || auto.
Qed.

Lemma u64_pos i : 0 ≤ i ≤ MAX_ENTS → u64 (sizeof_dent * i) = sizeof_dent * i.
Proof. intros. unfold MAX_ENTS in *. change sizeof_dent with 120. apply u64_id. lia. Qed.

(** [read_dent] returns the entry, finds the end of the file or fails. *)
Lemma read_dent_ok d ents i :
  dir_base d ents → 0 ≤ i ≤ MAX_ENTS →
  wp (read_dent i) d (λ '(res, e) d',
    res = TEE_SUCCESS ∧ ents !! Z.to_nat i = Some e ∧ ent_ok e ∧ same_dir d d' ∨
    res = TEE_ERROR_ITEM_NOT_FOUND ∧ ents !! Z.to_nat i = None ∧ same_dir d d' ∨
    fails res).
Proof.
  intros [] Hi. unfold read_dent. rewrite u64_pos by done. do 2 d_step.
  eapply wp_mono.
  { apply read_ok; [done|change sizeof_dent with 120; lia|done
      |change sizeof_dent with 120; unfold MAX_ENTS, INT_MAX in *; lia]. }
  intros [res data] w [(-> & -> & Ec)|[N1 N2]].
  - simpl.
    assert (S : same_dir d (with_fh w d)).
    { exists w. split; [done|]. intros c Hc. by rewrite (contents_inj _ _ _ Hc b_contents0). }
    replace (sizeof_dent * i) with (sizeof_dent * Z.of_nat (Z.to_nat i)) by (f_equal; lia).
    rewrite slice_encode_all by done.
    destruct (ents !! Z.to_nat i) as [e|] eqn:Ee.
    + assert (He : ent_ok e) by exact (ents_ok_lookup _ _ _ b_ents0 Ee).
      rewrite (length_encode e He), Z2Nat.id by done. simpl. d_step. left.
      rewrite decode_encode by done. auto.
    + simpl. d_step. auto.
  - destruct (Z.eqb_spec res 0); [done|]. d_step. right. by right.
Qed.

Lemma length_store i e ents :
  length (store i e ents) = if decide (i < length ents)%nat then length ents else S (length ents).
Proof. unfold store. case_decide; [apply length_insert|]. rewrite length_app. simpl. lia. Qed.

Lemma lookup_store i j e ents : (i ≤ length ents)%nat →
  store i e ents !! j = if decide (j = i) then Some e else ents !! j.
Proof.
  intros Hi. unfold store. repeat case_decide; subst.
  - by rewrite list_lookup_insert_eq.
  - by rewrite list_lookup_insert_ne.
  - assert (i = length ents) as -> by lia. by rewrite lookup_app_r, Nat.sub_diag by lia.
  - destruct (decide (j < length ents)%nat); [by rewrite lookup_app_l|].
    rewrite !lookup_ge_None_2; [done|lia|]. rewrite length_app. simpl. lia.
Qed.

Lemma Forall_store i e ents : Forall ent_ok ents → ent_ok e → Forall ent_ok (store i e ents).
Proof.
  intros. unfold store. case_decide; [by apply Forall_insert|]. apply Forall_app; auto.
Qed.

(** [write_dent] stores the entry or fails. *)
Lemma write_dent_ok d ents i e :
  dir_base d ents → ent_ok e → 0 ≤ i ≤ Z.of_nat (length ents) → i < MAX_ENTS →
  wp (write_dent i e) d (λ res d',
    res = TEE_SUCCESS ∧ dir_base d' (store (Z.to_nat i) e ents) ∧
    ndents d' = (if ndents d <=? i then i + 1 else ndents d) ∧
    (∀ n, in_use d' n ↔ in_use d n) ∨
    res ≠ TEE_SUCCESS).
Proof.
  intros B He Hi Hm. pose proof B as []. unfold write_dent. rewrite u64_pos by lia.
  pose proof (length_encode_all ents b_ents0) as L.
  assert (Le : length (encode e) = 120%nat) by (rewrite length_encode; done).
  do 2 d_step. eapply wp_mono.
  { apply write_ok; [done|change sizeof_dent with 120 in *; lia
     |unfold MAX_ENTS, INT_MAX in *; rewrite Le; change sizeof_dent with 120; lia]. }
  intros res w [[-> E]|N]; do 2 d_step; simpl.
  2: { destruct (Z.eqb_spec res 0); [done|]. cbn [andb]. repeat d_step. by right. }
  replace (sizeof_dent * i) with (sizeof_dent * Z.of_nat (Z.to_nat i)) in E by (f_equal; lia).
  rewrite write_encode_all in E by (done || lia).
  pose proof (length_store (Z.to_nat i) e ents) as Ls.
  assert (B' : ∀ n', dir_base (mk_dirh w (nbits d) (files d) n') (store (Z.to_nat i) e ents)).
  { intros n'. split; simpl; try done; [by apply Forall_store|].
    rewrite Ls. case_decide; lia. }
  destruct (Z.leb_spec (ndents d) i); repeat d_step; left;
    (split_and!; [done|apply B'| |done]); simpl; [|done].
  apply u64_id. unfold MAX_ENTS in *. lia.
Qed.

Lemma ndents_store d i e ents :
  ndents d = Z.of_nat (length ents) → 0 ≤ i ≤ Z.of_nat (length ents) →
  (if ndents d <=? i then i + 1 else ndents d) = Z.of_nat (length (store (Z.to_nat i) e ents)).
Proof. intros -> Hi. rewrite length_store. case_decide; case_match; breflect; lia. Qed.

(** ** Searching *)

Definition first_named (k : name) (ents : list dirfile_entry) (i : nat) (e : dirfile_entry) : Prop :=
  ents !! i = Some e ∧ has_name k e ∧
  ∀ j e', (j < i)%nat → ents !! j = Some e' → ¬ has_name k e'.

Definition no_name (k : name) (ents : list dirfile_entry) : Prop :=
  ∀ j e, ents !! j = Some e → ¬ has_name k e.

(** What [tee_fs_dirfile_find] answers. *)
Definition found (k : name) (ents : list dirfile_entry) (d : tee_fs_dirfile_dirh)
    (r : Z * tee_fs_dirfile_fileh) (d' : tee_fs_dirfile_dirh) : Prop :=
  r.1 = TEE_SUCCESS ∧ same_dir d d' ∧
    (∃ i e, first_named k ents i e ∧
       r.2 = mk_fileh (file_number e) (hash e) (Z.of_nat i)) ∨
  r.1 = TEE_ERROR_ITEM_NOT_FOUND ∧ same_dir d d' ∧ no_name k ents ∧ fh_idx r.2 = -1 ∨
  fails r.1.

Lemma memeq_ok a b n :
  n ≤ Z.of_nat (length a) → n ≤ Z.of_nat (length b) →
  memeq a b n = Done (bool_decide (slice 0 n a = slice 0 n b)).
Proof.
  intros. unfold memeq. destruct (Z.ltb_spec (Z.of_nat (length a)) n); [lia|].
  by destruct (Z.ltb_spec (Z.of_nat (length b)) n); [lia|].
Qed.

Lemma same_uuid_ok (a b : list Z) :
  length a = 16%nat → length b = 16%nat → memeq a b 16 = Done (bool_decide (a = b)).
Proof. intros. rewrite memeq_ok by lia. by rewrite !slice_all by lia. Qed.

(** The comparison of names. *)
Lemma ent_name_iff e uuid' oid' oidlen' :
  ent_ok e → oidlen' ≤ Z.of_nat (length oid') → oidlen e = oidlen' →
  ent_name e = (uuid', slice 0 oidlen' oid') ↔
  uuid e = uuid' ∧ slice 0 oidlen' (oid e) = slice 0 oidlen' oid'.
Proof.
  intros _ _ <-. unfold ent_name. split; [by intros [= ? ?]|]. intros [? ?]. by f_equal.
Qed.

Lemma name_oidlen e uuid' oid' oidlen' :
  ent_ok e → 0 ≤ oidlen' ≤ Z.of_nat (length oid') →
  ent_name e = (uuid', slice 0 oidlen' oid') → oidlen e = oidlen'.
Proof.
  intros [] Hl [= _ E]. apply (f_equal length) in E.
  unfold TEE_OBJECT_ID_MAX_LEN in *.
  rewrite !length_slice in E by lia. lia.
Qed.

(** An entry whose number is in use passes the test of the bit string. *)
Lemma test_used d' ents i e (Q : bool → tee_fs_dirfile_dirh → Prop) :
  dir_inv d' ents → ents !! i = Some e → free_ent e = false →
  Q true d' → wp (test_file (to_int (file_number e))) d' Q.
Proof.
  intros [B [Cu _] _] E F HQ. pose proof (ents_ok_lookup _ _ _ (b_ents _ _ B) E) as [].
  unfold FILE_NUMBER_MAX, INT_MAX in *. rewrite to_int_small by lia.
  eapply wp_mono; [apply (test_file_ok _ ents); [done|lia]|].
  intros b d2 [-> ->]. by rewrite bool_decide_eq_true_2 by eauto.
Qed.

Lemma find_loop_ok fuel : ∀ d ents uuid' oid' oidlen' n,
  dir_inv d ents → length uuid' = 16%nat → 0 ≤ oidlen' ≤ Z.of_nat (length oid') →
  0 ≤ n ≤ Z.of_nat (length ents) → Z.of_nat (length ents) - n < Z.of_nat fuel →
  (∀ j e, (Z.of_nat j < n) → ents !! j = Some e → ¬ has_name (uuid', slice 0 oidlen' oid') e) →
  wp (find_loop fuel uuid' oid' oidlen' n) d (found (uuid', slice 0 oidlen' oid') ents d).
Proof.
  induction fuel as [|fuel IH]; intros d ents u o ol n I Hu Hol Hn Hf Hno; [lia|].
  cbn [find_loop]. d_step. pose proof (b_len _ _ (i_base _ _ I)).
  eapply wp_mono; [apply (read_dent_ok d ents n); [apply I|lia]|].
  intros [res e] d1 [(-> & E & Ok & S)|[(-> & E & S)|F]]; simpl.
  2: { d_step. right. left. split_and!; [done|done| |done]. intros j e' Hj.
       apply (Hno j); [|done]. apply lookup_ge_None in E. apply lookup_lt_Some in Hj. lia. }
  2: { destruct F as [F1 F2]. destruct (Z.eqb_spec res 0); [done|]. d_step. right. by right. }
  assert (I1 : dir_inv d1 ents) by by eapply same_dir_inv.
  pose proof (lookup_lt_Some _ _ _ E).
  assert (Next : ¬ has_name (u, slice 0 ol o) e →
    wp (find_loop fuel u o ol (n + 1)) d1 (found (u, slice 0 ol o) ents d)).
  { intros Hne. eapply wp_mono.
    - apply IH; [done|done|done|lia|lia|]. intros j e' Hj He'.
      destruct (decide (Z.of_nat j < n)); [by apply (Hno j)|].
      assert (j = Z.to_nat n) as -> by lia. congruence.
    - unfold found. intros r d2 [(?&S2&?)|[(?&S2&?&?)|?]]; [left|right; left|by right; right];
        (split_and!; [done|by eapply same_dir_trans|done..]). }
  d_step. eapply wp_run; [by apply is_free_ok|].
  destruct (free_ent e) eqn:Fr; [apply Next; intros [? _]; congruence|].
  destruct (Z.eqb_spec (oidlen e) ol) as [El|Nl]; simpl.
  2: { apply Next. intros [_ ?]. apply Nl. by eapply name_oidlen. }
  d_step. eapply test_used; [done|done|done|]. d_step. apply wp_assert; [done|]. cbv beta.
  pose proof Ok as []. unfold TEE_OBJECT_ID_MAX_LEN in *.
  d_step. eapply wp_run; [by apply same_uuid_ok|].
  case_bool_decide as Eu; d_step.
  - eapply wp_run; [apply memeq_ok; lia|]. case_bool_decide as Eo.
    + d_step. left. split_and!; [done|done|]. exists (Z.to_nat n), e.
      rewrite Z2Nat.id by lia. split; [|done]. split_and!; [done| |].
      * split; [done|]. apply (ent_name_iff e u o ol); [done|lia|done|done].
      * intros j e' Hj. apply Hno. lia.
    + apply Next. intros [_ En]. apply ent_name_iff in En; [|done|lia|done]. tauto.
  - d_step. apply Next. intros [_ En]. apply ent_name_iff in En; [|done|lia|done]. tauto.
Qed.

Lemma find_ok fuel d ents uuid' oid' oidlen' :
  dir_inv d ents → length uuid' = 16%nat → 0 ≤ oidlen' ≤ Z.of_nat (length oid') →
  (length ents < fuel)%nat →
  wp (tee_fs_dirfile_find fuel uuid' oid' oidlen') d (found (uuid', slice 0 oidlen' oid') ents d).
Proof. intros. apply find_loop_ok; [done|done|done|lia|lia|]. intros. lia. Qed.

(** [find_empty_idx] finds a free entry or the end of the file. *)
Lemma find_empty_loop_ok fuel : ∀ d ents n,
  dir_inv d ents → 0 ≤ n ≤ Z.of_nat (length ents) →
  Z.of_nat (length ents) - n < Z.of_nat fuel →
  wp (find_empty_loop fuel n) d (λ '(res, i) d',
    res = TEE_SUCCESS ∧ same_dir d d' ∧ 0 ≤ i ≤ Z.of_nat (length ents) ∧
      (∀ e, ents !! Z.to_nat i = Some e → free_ent e = true) ∨
    fails res).
Proof.
  induction fuel as [|fuel IH]; intros d ents n I Hn Hf; [lia|].
  cbn [find_empty_loop]. d_step. pose proof (b_len _ _ (i_base _ _ I)).
  eapply wp_mono; [apply (read_dent_ok d ents n); [apply I|lia]|].
  intros [res e] d1 [(-> & E & Ok & S)|[(-> & E & S)|F]]; simpl.
  - d_step. eapply wp_run; [by apply is_free_ok|]. pose proof (lookup_lt_Some _ _ _ E).
    destruct (free_ent e) eqn:Fr.
    + d_step. left. split_and!; [done|done|lia|lia|]. congruence.
    + eapply wp_mono; [apply (IH d1 ents); [by eapply same_dir_inv|lia|lia]|].
      intros [r i] d2 [(?&S2&?)|?]; [left|by right].
      split; [done|]. split; [by eapply same_dir_trans|done].
  - d_step. left. split_and!; [done|done|lia|lia|]. congruence.
  - destruct F as [F1 F2]. destruct (Z.eqb_spec res TEE_ERROR_ITEM_NOT_FOUND); [done|].
    destruct (Z.eqb_spec res 0); [done|]. simpl. d_step. by right.
Qed.

Lemma find_empty_ok fuel d ents :
  dir_inv d ents → (length ents < fuel)%nat →
  wp (find_empty_idx fuel) d (λ '(res, i) d',
    res = TEE_SUCCESS ∧ same_dir d d' ∧ 0 ≤ i ≤ Z.of_nat (length ents) ∧
      (∀ e, ents !! Z.to_nat i = Some e → free_ent e = true) ∨
    fails res).
Proof. intros. apply find_empty_loop_ok; [done|lia|lia]. Qed.

(** ** Changing entries *)

(** Storing an entry keeps the invariant when its number is its own. *)
Lemma inv_store d d' ents i e :
  dir_inv d ents → (i ≤ length ents)%nat →
  dir_base d' (store i e ents) → ndents d' = Z.of_nat (length (store i e ents)) →
  (∀ j e', j ≠ i → ents !! j = Some e' → free_ent e' = false → in_use d' (file_number e')) →
  (free_ent e = false → in_use d' (file_number e) ∧
     ∀ j e', ents !! j = Some e' → free_ent e' = false → file_number e' = file_number e → j = i) →
  dir_inv d' (store i e ents).
Proof.
  intros [B [Cu Cd] Nd] Hi B' Nd' Hu He. split; [done| |done]. split.
  - intros j e'. rewrite lookup_store by done. case_decide as D; [|by eauto].
    intros [= <-] F. by destruct (He F).
  - intros j k ej ek. rewrite !lookup_store by done. repeat case_decide; subst; try done.
    + intros [= <-] Ek F1 F2 E. destruct (He F1) as [_ Own]. symmetry. by apply (Own k ek).
    + intros Ej [= <-] F1 F2 E. destruct (He F2) as [_ Own]. by apply (Own j ej).
    + apply Cd.
Qed.

(** A handle that may be stored: its number is reserved, and no entry but
    the one it replaces has it. *)
Record fileh_ok (d : tee_fs_dirfile_dirh) (ents : list dirfile_entry)
    (dfh : tee_fs_dirfile_fileh) : Prop := {
  fo_hash : length (fh_hash dfh) = 32%nat;
  fo_use : in_use d (fh_file_number dfh);
  fo_idx : fh_idx dfh ≤ Z.of_nat (length ents);
  fo_own : ∀ j e, ents !! j = Some e → free_ent e = false →
    file_number e = fh_file_number dfh → 0 ≤ fh_idx dfh ∧ j = Z.to_nat (fh_idx dfh);
}.

(** The entry of [tee_fs_dirfile_rename]. *)
Lemma rename_dent_ok uuid' dfh oid' oidlen' :
  length uuid' = 16%nat → length (fh_hash dfh) = 32%nat →
  0 ≤ fh_file_number dfh ≤ FILE_NUMBER_MAX →
  0 ≤ oidlen' ≤ Z.of_nat (length oid') → oidlen' ≤ TEE_OBJECT_ID_MAX_LEN →
  ∃ e, rename_dent uuid' dfh oid' oidlen' = Done e ∧ ent_ok e ∧ free_ent e = false ∧
    ent_name e = (uuid', slice 0 oidlen' oid') ∧
    file_number e = fh_file_number dfh ∧ hash e = fh_hash dfh.
Proof.
  intros Hu Hh Hn Ho Hm. unfold rename_dent, TEE_OBJECT_ID_MAX_LEN in *.
  destruct (Z.ltb_spec (Z.of_nat (length oid')) oidlen'); [lia|].
  rewrite u32_id by lia. unfold OID_EMPTY_NAME.
  destruct (Z.eqb_spec oidlen' 0) as [->|Hne]; eexists; (split; [reflexivity|]).
  - split_and!; try done. split; simpl; auto; unfold TEE_OBJECT_ID_MAX_LEN; lia.
  - assert (L : length (slice 0 oidlen' oid') = Z.to_nat oidlen') by (apply length_slice; lia).
    split_and!; try done; unfold free_ent, ent_name; simpl.
    + split; simpl; try done; [|unfold TEE_OBJECT_ID_MAX_LEN; lia].
      unfold zeros. rewrite length_app, length_replicate, L. lia.
    + by destruct (Z.eqb_spec oidlen' 0).
    + f_equal. rewrite slice_app_l by lia. apply slice_all; lia.
Qed.

(** The places for the object [k]: that of the handle, or that of the object
    of this name, or a free one. *)
Definition place (k : name) (ents : list dirfile_entry) (dfh : tee_fs_dirfile_fileh) (i : nat)
    : Prop :=
  0 ≤ fh_idx dfh ∧ Z.of_nat i = fh_idx dfh ∨
  fh_idx dfh < 0 ∧ (∃ e0, first_named k ents i e0) ∨
  fh_idx dfh < 0 ∧ no_name k ents ∧ ∀ e0, ents !! i = Some e0 → free_ent e0 = true.

Lemma rename_place_ok fuel d ents uuid' dfh oid' oidlen' :
  dir_inv d ents → (length ents < fuel)%nat → length uuid' = 16%nat →
  0 ≤ oidlen' ≤ Z.of_nat (length oid') → fh_idx dfh ≤ Z.of_nat (length ents) →
  wp (rename_place fuel uuid' dfh oid' oidlen') d (λ '(res, i) d1,
    res = TEE_SUCCESS ∧ same_dir d d1 ∧ 0 ≤ i ≤ Z.of_nat (length ents) ∧
      place (uuid', slice 0 oidlen' oid') ents dfh (Z.to_nat i) ∨
    fails res).
Proof.
  intros I Hf Hu Hol Fi. unfold rename_place.
  destruct (Z.ltb_spec (fh_idx dfh) 0) as [Neg|Pos].
  - d_step. eapply wp_mono; [by apply (find_ok fuel d ents)|].
    intros [res r] d1 [(?&S&i&e0&F&?)|[(?&S&N&_)|F]]; simpl in *; subst.
    + simpl. d_step. left. destruct F as (F & ? & ?). pose proof (lookup_lt_Some _ _ _ F).
      split_and!; [done|done|simpl; lia|simpl; lia|]. right. left. split; [done|].
      exists e0. simpl. by rewrite Nat2Z.id.
    + eapply wp_mono; [apply (find_empty_ok fuel d1 ents); [by eapply same_dir_inv|done]|].
      intros [r1 i] d2 [(?&S2&?&?)|?]; [left|by right].
      split_and!; [done|by eapply same_dir_trans|lia|lia|]. right. right. auto.
    + destruct F as [F1 F2]. destruct (Z.eqb_spec res 0); [done|].
      destruct (Z.eqb_spec res TEE_ERROR_ITEM_NOT_FOUND); [done|]. d_step. by right.
  - d_step. left. split_and!; [done|apply same_dir_refl|lia|lia|]. left. split; lia.
Qed.

(** [tee_fs_dirfile_rename] stores the entry of the object in a place for it. *)
Lemma rename_ok fuel d ents uuid' dfh oid' oidlen' :
  let k := (uuid', slice 0 oidlen' oid') in
  dir_inv d ents → Z.of_nat (length ents) < MAX_ENTS → (length ents < fuel)%nat →
  length uuid' = 16%nat → 0 ≤ oidlen' ≤ Z.of_nat (length oid') →
  oidlen' ≤ TEE_OBJECT_ID_MAX_LEN → fileh_ok d ents dfh →
  wp (tee_fs_dirfile_rename fuel uuid' dfh oid' oidlen') d (λ '(res, dfh') d',
    res = TEE_SUCCESS ∧
    (∃ i e, dfh' = mk_fileh (fh_file_number dfh) (fh_hash dfh) (Z.of_nat i) ∧
       dir_inv d' (store i e ents) ∧ (∀ n, in_use d' n ↔ in_use d n) ∧ (i ≤ length ents)%nat ∧
       free_ent e = false ∧ ent_name e = k ∧
       file_number e = fh_file_number dfh ∧ hash e = fh_hash dfh ∧ place k ents dfh i) ∨
    res ≠ TEE_SUCCESS).
Proof.
  intros k I Hm Hf Hu Hol Hmax [Fh Fu Fi Fo]. unfold tee_fs_dirfile_rename.
  destruct (Z.ltb_spec TEE_OBJECT_ID_MAX_LEN oidlen'); [lia|].
  pose proof (b_nmax _ _ (i_base _ _ I)).
  destruct (rename_dent_ok uuid' dfh oid' oidlen') as (e & E & Ok & Fr & Nm & Nu & Ha);
    [done|done|destruct Fu; lia|done|done|].
  d_step. eapply wp_run; [exact E|]. d_step.
  eapply wp_mono; [by apply (rename_place_ok fuel d ents)|].
  intros [res i] d1 [(-> & S & Hi & Where)|[F1 F2]]; simpl.
  2: { destruct (Z.eqb_spec res 0); [done|]. d_step. by right. }
  rewrite u64_id by (unfold MAX_ENTS in *; lia). d_step.
  pose proof (same_dir_inv _ _ _ S I) as I1.
  eapply wp_mono; [apply (write_dent_ok d1 ents i e); [apply I1|done|lia|lia]|].
  intros res d2 [(-> & B2 & N2 & U2)|N]; d_step; [left|by right]. split; [done|].
  rewrite (ndents_store d1 i e ents (i_ndents _ _ I1)) in N2 by lia.
  assert (U : ∀ n, in_use d2 n ↔ in_use d n)
    by (intros n; rewrite U2; by apply same_dir_in_use).
  exists (Z.to_nat i), e. rewrite Z2Nat.id by lia. split_and!; try done; [|lia].
  apply (inv_store d); [done|lia|done|done| |].
  - intros j e' _ Ej F. apply U. by eapply I.
  - intros _. rewrite Nu. split; [by apply U|]. intros j e' Ej F En.
    destruct (Fo j e' Ej F En) as [P ->]. destruct Where as [[_ Ei]|[[? _]|[? _]]]; lia.
Qed.

(** [tee_fs_dirfile_remove] frees the entry and its number. *)
Lemma remove_ok d ents dfh e :
  dir_inv d ents → Z.of_nat (length ents) < MAX_ENTS → 0 ≤ fh_idx dfh →
  ents !! Z.to_nat (fh_idx dfh) = Some e → free_ent e = false →
  file_number e = fh_file_number dfh →
  wp (tee_fs_dirfile_remove dfh) d (λ res d',
    res = TEE_SUCCESS ∧ dir_inv d' (store (Z.to_nat (fh_idx dfh)) zero_dent ents) ∧
      (∀ n, in_use d' n ↔ n ≠ file_number e ∧ in_use d n) ∨
    res ≠ TEE_SUCCESS).
Proof.
  intros I Hm Hi E Fr En. unfold tee_fs_dirfile_remove. pose proof (lookup_lt_Some _ _ _ E).
  d_step. eapply wp_mono; [apply (read_dent_ok d ents); [apply I|lia]|].
  intros [res e'] d1 [(-> & E' & Ok & S)|[(-> & E' & S)|[F1 F2]]]; simpl.
  2: congruence.
  2: { destruct (Z.eqb_spec res 0); [done|]. d_step. by right. }
  assert (e' = e) as -> by congruence. pose proof (same_dir_inv _ _ _ S I) as I1.
  d_step. eapply wp_run; [by apply is_free_ok|]. rewrite Fr.
  d_step. apply wp_assert; [by apply Z.eqb_eq|].
  d_step. eapply test_used; [done|done|done|]. d_step. apply wp_assert; [done|].
  rewrite u64_id by (unfold MAX_ENTS in *; lia). d_step.
  eapply wp_mono; [apply (write_dent_ok d1 ents); [apply I1|apply zero_dent_ok|lia|lia]|].
  intros res d2 [(-> & B2 & N2 & U2)|N].
  2: { destruct (Z.eqb_spec res 0); [done|]. d_step. by right. }
  rewrite (ndents_store d1 _ zero_dent ents (i_ndents _ _ I1)) in N2 by lia.
  pose proof (ok_number _ Ok) as Rn. unfold FILE_NUMBER_MAX, INT_MAX in Rn.
  rewrite to_int_small by lia. simpl. d_step.
  eapply wp_mono; [by apply (clear_file_ok d2); [|lia]|].
  intros _ d3 (B3 & N3 & U3). d_step. left. split; [done|].
  assert (U : ∀ n, in_use d3 n ↔ n ≠ file_number e ∧ in_use d n).
  { intros n. rewrite U3, U2. by rewrite (same_dir_in_use _ _ _ S). }
  split; [|done]. apply (inv_store d); [done|lia|done|congruence| |done].
  intros j e' Hj Ej F'. apply U. split; [|by eapply I].
  intros En'. apply Hj. by eapply (c_distinct _ _ (i_cover _ _ I)).
Qed.

Lemma free_ent_hash e h :
  free_ent (mk_dent (uuid e) (oid e) (oidlen e) h (file_number e)) = free_ent e.
Proof. done. Qed.

(** [tee_fs_dirfile_update_hash] changes the hash of the entry. *)
Lemma update_hash_ok d ents dfh e :
  dir_inv d ents → Z.of_nat (length ents) < MAX_ENTS → 0 ≤ fh_idx dfh →
  length (fh_hash dfh) = 32%nat →
  ents !! Z.to_nat (fh_idx dfh) = Some e → free_ent e = false →
  file_number e = fh_file_number dfh →
  wp (tee_fs_dirfile_update_hash dfh) d (λ res d',
    res = TEE_SUCCESS ∧
      dir_inv d' (store (Z.to_nat (fh_idx dfh))
        (mk_dent (uuid e) (oid e) (oidlen e) (fh_hash dfh) (file_number e)) ents) ∧
      (∀ n, in_use d' n ↔ in_use d n) ∨
    res ≠ TEE_SUCCESS).
Proof.
  intros I Hm Hi Hh E Fr En. unfold tee_fs_dirfile_update_hash. pose proof (lookup_lt_Some _ _ _ E).
  d_step. eapply wp_mono; [apply (read_dent_ok d ents); [apply I|lia]|].
  intros [res e'] d1 [(-> & E' & Ok & S)|[(-> & E' & S)|[F1 F2]]]; simpl.
  2: congruence.
  2: { destruct (Z.eqb_spec res 0); [done|]. d_step. by right. }
  assert (e' = e) as -> by congruence. pose proof (same_dir_inv _ _ _ S I) as I1.
  d_step. apply wp_assert; [by apply Z.eqb_eq|].
  d_step. eapply test_used; [done|done|done|]. d_step. apply wp_assert; [done|].
  rewrite u64_id by (unfold MAX_ENTS in *; lia).
  eapply wp_mono; [apply (write_dent_ok d1 ents); [apply I1| |lia|lia]|].
  { destruct Ok. by split. }
  intros res d2 [(-> & B2 & N2 & U2)|N]; [left|by right]. split; [done|].
  rewrite (ndents_store d1 _ (mk_dent (uuid e) (oid e) (oidlen e) (fh_hash dfh) (file_number e))
    ents (i_ndents _ _ I1)) in N2 by lia.
  assert (U : ∀ n, in_use d2 n ↔ in_use d n)
    by (intros n; rewrite U2; by apply same_dir_in_use).
  split; [|done]. apply (inv_store d); [done|lia|done|done| |].
  - intros j e' _ Ej F. apply U. by eapply I.
  - intros _. split; [apply U; by eapply (c_used _ _ (i_cover _ _ I) _ e)|].
    intros j e' Ej F En'. by apply (c_distinct _ _ (i_cover _ _ I) _ _ e' e).
Qed.

(** [tee_fs_dirfile_get_tmp] reserves a number that was not in use. *)
Lemma get_tmp_ok d ents :
  dir_inv d ents → nbits d ≤ FILE_NUMBER_MAX →
  wp tee_fs_dirfile_get_tmp d (λ '(res, n) d',
    dir_inv d' ents ∧
    (res = TEE_SUCCESS ∧ 0 ≤ n ∧ ¬ in_use d n ∧ (∀ m, in_use d' m ↔ m = n ∨ in_use d m) ∨
     res = TEE_ERROR_OUT_OF_MEMORY ∧ ∀ m, in_use d' m ↔ in_use d m)).
Proof.
  intros I Hn. pose proof (i_base _ _ I) as B. pose proof B as []. unfold tee_fs_dirfile_get_tmp.
  do 4 d_step. d_step.
  eapply wp_mono with (P := λ i d1, d1 = d ∧ 0 ≤ i ≤ nbits d ∧ ¬ in_use d i).
  { destruct (Z.eqb_spec (nbits d) 0) as [Z0|NZ]; simpl.
    - d_step. split_and!; [done|lia|lia|]. intros [? _]. lia.
    - destruct (bit_ffc_finds (files d) (nbits d) b_bytes0 ltac:(lia))
        as [(E & A)|(i & E & R & F & _)]; d_step; (eapply wp_run; [exact E|]); d_step.
      + simpl. split_and!; [done|lia|lia|]. intros [? _]. lia.
      + destruct (Z.eqb_spec i (-1)); [lia|]. split_and!; [done|lia|lia|]. intros [_ ?]. congruence. }
  intros i d1 (-> & Hi & Hu). d_step.
  eapply wp_mono; [by apply (set_file_ok d ents); [|lia]|].
  intros res d2 (B2 & N2 & U2). d_step.
  rewrite u32_id by (unfold FILE_NUMBER_MAX, INT_MAX in *; lia). split.
  - split; [done| |rewrite N2; apply I]. eapply cover_in_use; [|apply I].
    intros n ?. destruct U2 as [[_ U2]|[_ U2]]; apply U2; auto.
  - destruct U2 as [[-> U2]|[-> U2]]; [left|right]; auto with lia.
Qed.

End Proofs.
