(* ===== verification/DirfileOpen.v ===== *)
(** Opening a directory: [tee_fs_dirfile_open] builds the bit string from the
    entries of the file and frees entries whose number an earlier entry has. *)
From S2P Require Import Prelude State Bytes Bitstring Dirfile DirfileProofs.

(** The entries after opening: of those with the same number the first one is
    kept. *)
Fixpoint dedup (seen : list Z) (ents : list dirfile_entry) : list dirfile_entry :=
  match ents with
  | [] => []
  | e :: ents =>
      if free_ent e then e :: dedup seen ents
      else if bool_decide (file_number e ∈ seen) then zero_dent :: dedup seen ents
      else e :: dedup (file_number e :: seen) ents
  end.

(** Some entry of the list has the number. *)
Definition owned (ents : list dirfile_entry) (m : Z) : Prop :=
  ∃ e, e ∈ ents ∧ free_ent e = false ∧ file_number e = m.

Lemma length_dedup seen ents : length (dedup seen ents) = length ents.
Proof.
  revert seen; induction ents as [|e ents IH]; intros seen; [done|].
  simpl. repeat case_match; simpl; by rewrite IH.
Qed.

(** Without duplicates nothing changes. *)
Lemma dedup_distinct seen ents :
  NoDup (file_number <$> filter (λ e, free_ent e = false) ents) →
  (∀ e, e ∈ ents → free_ent e = false → file_number e ∉ seen) → dedup seen ents = ents.
Proof.
  revert seen; induction ents as [|e ents IH]; intros seen Hd Hs; [done|]. simpl.
  rewrite filter_cons in Hd. destruct (free_ent e) eqn:F; simpl in Hd.
  - rewrite IH; [done|done|]. intros e' He'. apply Hs. by right.
  - rewrite bool_decide_eq_false_2 by (apply Hs; [by left|done]).
    apply NoDup_cons in Hd as [Hn Hd]. rewrite IH; [done|done|].
    intros e' He' F' Hin. apply elem_of_cons in Hin as [E|Hin].
    + apply Hn. rewrite <- E. apply list_elem_of_fmap. exists e'. split; [done|].
      by apply list_elem_of_filter.
    + by eapply Hs; [right|..].
Qed.

Section Open.
Context `{DirfileLaws}.

Lemma store_middle pre e e' l : store (length pre) e' (pre ++ e :: l) = pre ++ e' :: l.
Proof.
  unfold store. rewrite decide_True by (rewrite length_app; simpl; lia).
  rewrite insert_app_r_alt, Nat.sub_diag by lia. done.
Qed.

Lemma owned_app a b m : owned (a ++ b) m ↔ owned a m ∨ owned b m.
Proof. unfold owned. setoid_rewrite elem_of_app. naive_solver. Qed.

Lemma owned_free e m : free_ent e = true → ¬ owned [e] m.
Proof. intros F (e' & He & F' & _). apply list_elem_of_singleton in He. congruence. Qed.

Lemma owned_one e m : free_ent e = false → owned [e] m ↔ m = file_number e.
Proof.
  intros F. split.
  - intros (e' & He & _ & <-). apply list_elem_of_singleton in He. congruence.
  - intros ->. exists e. by rewrite list_elem_of_singleton.
Qed.

(** Covering one more entry. *)
Lemma cover_snoc d d' pre e :
  dir_cover d pre → (∀ m, in_use d m → in_use d' m) →
  (free_ent e = false → in_use d' (file_number e) ∧ ¬ owned pre (file_number e)) →
  dir_cover d' (pre ++ [e]).
Proof.
  intros [Cu Cd] Hu He.
  assert (L : ∀ i e', (pre ++ [e]) !! i = Some e' →
    pre !! i = Some e' ∨ (i = length pre ∧ e' = e)).
  { intros i e'. rewrite lookup_app_Some. intros [?|[Hi E]]; [by left|right].
    apply list_lookup_singleton_Some in E as [? ->]. split; [lia|done]. }
  split.
  - intros i e' E F. destruct (L i e' E) as [?|[_ ->]]; [eauto|]. by apply He.
  - intros i j ei ej Ei Ej Fi Fj En.
    destruct (L i ei Ei) as [Pi|[-> ->]], (L j ej Ej) as [Pj|[-> ->]]; [by eauto| | |done];
      exfalso; [destruct (He Fj) as [_ No]|destruct (He Fi) as [_ No]]; apply No;
      [exists ei|exists ej]; (split; [by eapply list_elem_of_lookup_2|auto]).
Qed.

(** The state of the loop after the entries [pre]. *)
Definition opening (d : tee_fs_dirfile_dirh) (pre rest : list dirfile_entry) (seen : list Z) : Prop :=
  dir_base d (pre ++ rest) ∧ dir_cover d pre ∧
  (∀ m, in_use d m ↔ owned pre m) ∧ (∀ m, m ∈ seen ↔ owned pre m).

Lemma opening_step d d' pre e rest seen seen' :
  opening d pre (e :: rest) seen → dir_base d' (pre ++ e :: rest) →
  (∀ m, in_use d' m ↔ owned [e] m ∨ in_use d m) →
  (∀ m, m ∈ seen' ↔ owned [e] m ∨ m ∈ seen) →
  (free_ent e = false → ¬ owned pre (file_number e)) →
  opening d' (pre ++ [e]) rest seen'.
Proof.
  intros (B & C & U & S) B' U' S' Hn. split_and!.
  - by rewrite <- app_assoc.
  - apply (cover_snoc d); [done|by intros m Hm; apply U'; right|].
    intros F. split; [|by apply Hn]. apply U'. left. by apply owned_one.
  - intros m. rewrite U', U, owned_app. tauto.
  - intros m. rewrite S', S, owned_app. tauto.
Qed.

(** A free entry, read or just written, owns no number. *)
Lemma opening_free d d' pre e e' rest seen :
  opening d pre (e :: rest) seen → dir_base d' (pre ++ e' :: rest) → free_ent e' = true →
  (∀ m, in_use d' m ↔ in_use d m) → opening d' (pre ++ [e']) rest seen.
Proof.
  intros (B & C & U & S) B' F U'. split_and!.
  - by rewrite <- app_assoc.
  - apply (cover_snoc d); [done|by intros m; rewrite U'|congruence].
  - intros m. rewrite U', U, owned_app. pose proof (owned_free e' m F). tauto.
  - intros m. rewrite S, owned_app. pose proof (owned_free e' m F). tauto.
Qed.

(** What the loop leaves behind: the entries [ents] and the numbers they own. *)
Definition opened (ents : list dirfile_entry) (r : Z * Z) (d : tee_fs_dirfile_dirh) : Prop :=
  r.1 = TEE_SUCCESS ∧ r.2 = Z.of_nat (length ents) ∧ dir_base d ents ∧ dir_cover d ents ∧
    (∀ m, in_use d m ↔ owned ents m) ∨
  r.1 ≠ TEE_SUCCESS.

Lemma opening_end d d' pre seen :
  opening d pre [] seen → same_dir d d' →
  opened pre (TEE_SUCCESS, Z.of_nat (length pre)) d'.
Proof.
  intros (B & C & U & _) S. rewrite app_nil_r in B. left.
  split_and!; [done|done|by eapply same_dir_base| |].
  - eapply cover_in_use; [|done]. intros n. by rewrite (same_dir_in_use _ _ _ S).
  - intros m. by rewrite (same_dir_in_use _ _ _ S).
Qed.

Lemma open_loop_ok fuel : ∀ d pre rest seen,
  opening d pre rest seen → Z.of_nat (length (pre ++ rest)) < MAX_ENTS →
  (length rest < fuel)%nat →
  wp (open_loop fuel (Z.of_nat (length pre))) d (opened (pre ++ dedup seen rest)).
Proof.
  induction fuel as [|fuel IH]; intros d pre rest seen O Hm Hf; [lia|].
  pose proof O as (B & C & U & Sn). cbn [open_loop]. rewrite length_app in Hm.
  rewrite to_int_small by (unfold MAX_ENTS in Hm; lia). d_step.
  eapply wp_mono; [apply (read_dent_ok d (pre ++ rest)); [done|lia]|].
  rewrite Nat2Z.id, lookup_app_r, Nat.sub_diag by lia.
  intros [res e] d1 [(-> & E & Ok & S)|[(-> & E & S)|[F1 F2]]];
    destruct rest as [|e0 rest]; try discriminate E; simpl.
  2: { d_step. rewrite app_nil_r. by eapply opening_end. }
  2, 3: destruct (Z.eqb_spec res 0); [done|];
        destruct (Z.eqb_spec res TEE_ERROR_ITEM_NOT_FOUND); [done|]; d_step; by right.
  injection E as ->. pose proof (same_dir_base _ _ _ S B) as B1.
  assert (Next : ∀ d2 e' seen', opening d2 (pre ++ [e']) rest seen' →
    wp (open_loop fuel (Z.of_nat (length pre) + 1)) d2 (opened (pre ++ e' :: dedup seen' rest))).
  { intros d2 e' seen' O'. replace (Z.of_nat (length pre) + 1) with (Z.of_nat (length (pre ++ [e'])))
      by (rewrite length_app; simpl; lia).
    eapply wp_mono; [apply (IH d2 (pre ++ [e']) rest seen'); [done| |simpl in Hf; lia]|].
    - rewrite !length_app in *. simpl in *. lia.
    - intros r d3. by rewrite <- app_assoc. }
  pose proof (ok_number _ Ok) as Rn. unfold FILE_NUMBER_MAX, INT_MAX in Rn.
  d_step. eapply wp_run; [by apply is_free_ok|]. destruct (free_ent e) eqn:F.
  { apply Next. eapply opening_free; [done|done|done|]. intros m. by apply same_dir_in_use. }
  rewrite to_int_small by lia. d_step.
  eapply wp_mono; [by apply (test_file_ok d1 _ _ B1); lia|]. intros used d2 [-> ->].
  assert (Hin : file_number e ∈ seen ↔ in_use d1 (file_number e))
    by (rewrite (same_dir_in_use _ _ _ S), Sn, U; done).
  rewrite (bool_decide_ext _ _ Hin). case_bool_decide as Use; d_step.
  - eapply wp_mono; [apply (write_dent_ok d1 (pre ++ e :: rest)); [done|apply zero_dent_ok| |lia]|].
    { rewrite length_app. lia. }
    intros res d3 [(-> & B3 & N3 & U3)|N].
    2: { destruct (Z.eqb_spec res 0); [done|]. d_step. by right. }
    rewrite Nat2Z.id, store_middle in B3. simpl. apply Next.
    eapply opening_free; [done|done|done|]. intros m. by rewrite U3, (same_dir_in_use _ _ _ S).
  - eapply wp_mono; [apply (set_file_ok d1 _ _ B1); unfold FILE_NUMBER_MAX, INT_MAX; lia|].
    intros res d3 (B3 & N3 & [[-> U3]|[-> U3]]); simpl; [|d_step; by right].
    apply Next. eapply opening_step; [done|done| | |].
    + intros m. rewrite U3, (same_dir_in_use _ _ _ S), owned_one by done. tauto.
    + intros m. rewrite elem_of_cons, owned_one by done. tauto.
    + intros _ No. apply Use. by rewrite (same_dir_in_use _ _ _ S), U.
Qed.

Lemma wp_with_handle {A} (m : St tee_fs_dirfile_dirh A) w (Q : A * tee_fs_dirfile_dirh → dworld → Prop) :
  wp m (mk_dirh w 0 [] 0) (λ a d, Q (a, d) (fh d)) → wp (with_handle m) w Q.
Proof. intros (a & d & E & HQ). unfold wp, with_handle. rewrite E. eauto. Qed.

(** C34: Opening a directory file of valid entries ends, without undefined
    behaviour and whatever the entries are; on success the handle satisfies the
    invariant, the entries are those of the file but for the ones whose number
    an earlier entry has, which are freed, and exactly the numbers of the
    remaining entries are in use. *)
Theorem dirfile_open_correct fuel create h min_counter w ents :
  (∀ w0, wp (dop_open create h min_counter) w0
     (λ res w1, res = TEE_SUCCESS → contents w1 (encode_all ents))) →
  Forall ent_ok ents → Z.of_nat (length ents) < MAX_ENTS → (length ents < fuel)%nat →
  wp (tee_fs_dirfile_open fuel create h min_counter) w (λ '(res, r) w',
    res = TEE_SUCCESS ∧
      (∃ d, r = Some d ∧ fh d = w' ∧ dir_inv d (dedup [] ents) ∧
         ∀ m, in_use d m ↔ owned (dedup [] ents) m) ∨
    res ≠ TEE_SUCCESS ∧ r = None).
Proof.
  intros Ho Hok Hm Hf. unfold tee_fs_dirfile_open. st_step.
  eapply wp_mono; [apply calloc_ok|]. intros ok w0 _. destruct ok; st_step; [|by right].
  eapply wp_mono; [apply Ho|]. intros res w1 Ew. destruct (Z.eqb_spec res 0) as [->|N].
  2: { st_step. eapply wp_mono; [apply close_ok|]. intros _ w2 _. st_step. by right. }
  specialize (Ew eq_refl).
  assert (O : opening (mk_dirh w1 0 [] 0) [] ents []).
  { assert (U : ∀ m, in_use (mk_dirh w1 0 [] 0) m ↔ False).
    { intros m. unfold in_use. simpl. lia. }
    assert (N : ∀ m, owned [] m ↔ False).
    { intros m. split; [|done]. intros (e & He & _). by apply elem_of_nil in He. }
    split_and!; [split; simpl; [done|done|lia|by apply Forall_nil|unfold capacity; simpl; lia
      |unfold FILE_NUMBER_MAX, INT_MAX; lia]|..].
    - split; intros i; intros; simplify_eq.
    - intros m. by rewrite U, N.
    - intros m. by rewrite N, elem_of_nil. }
  simpl. st_step. apply wp_with_handle.
  eapply wp_mono; [exact (open_loop_ok fuel _ [] ents [] O Hm Hf)|].
  intros [res n] d [(E & Hn & B & C & U)|N]; simpl in *.
  - rewrite E. simpl. st_step. left. split; [done|]. eexists. split_and!; [done|done| |done].
    split; [by destruct B; split|by destruct C; split|done].
  - destruct (Z.eqb_spec res 0); [done|]. st_step.
    destruct (close_ok (fh d)) as (u & w3 & E3 & _). exists u, w3. split; [exact E3|].
    st_step. by right.
Qed.

End Open.
