(* ===== verification/DirfileNext.v ===== *)
(** Enumeration of the objects of a TA, [tee_fs_dirfile_get_next], and the
    names of the files that hold them, [tee_fs_dirfile_fileh_to_fname]. *)
From S2P Require Import Prelude State Bytes Bitstring Dirfile DirfileProofs.
From Stdlib Require Import Ascii.

(** ** Enumeration *)

(** The entry is an object of the TA. *)
Definition belongs (uuid' : list Z) (e : dirfile_entry) : Prop :=
  free_ent e = false ∧ uuid e = uuid'.

#[global] Instance belongs_dec u e : Decision (belongs u e).
Proof. unfold belongs. apply _. Defined.

(** The object of the TA at [j] is the first one from [i] on. *)
Definition next_object (uuid' : list Z) (ents : list dirfile_entry) (i j : nat) (e : dirfile_entry)
  : Prop :=
  ents !! j = Some e ∧ belongs uuid' e ∧ (i ≤ j)%nat ∧
  ∀ k e', (i ≤ k < j)%nat → ents !! k = Some e' → ¬ belongs uuid' e'.

Definition no_object_from (uuid' : list Z) (ents : list dirfile_entry) (i : nat) : Prop :=
  ∀ k e', (i ≤ k)%nat → ents !! k = Some e' → ¬ belongs uuid' e'.

Section Next.
Context `{DirfileLaws}.

Lemma next_loop_ok fuel : ∀ d ents uuid' i,
  dir_base d ents → length uuid' = 16%nat → (i ≤ length ents)%nat →
  (length ents - i < fuel)%nat →
  wp (next_loop fuel uuid' (Z.of_nat i)) d (λ '(res, (j, e)) d',
    res = TEE_SUCCESS ∧ same_dir d d' ∧ (∃ n, j = Z.of_nat n ∧ next_object uuid' ents i n e) ∨
    res = TEE_ERROR_ITEM_NOT_FOUND ∧ same_dir d d' ∧ no_object_from uuid' ents i ∨
    fails res).
Proof.
  induction fuel as [|fuel IH]; intros d ents u i B Hu Hi Hf; [lia|].
  cbn [next_loop]. d_step. pose proof (b_len _ _ B).
  eapply wp_mono; [apply (read_dent_ok d ents); [done|lia]|]. rewrite Nat2Z.id.
  intros [res e] d1 [(-> & E & Ok & Sd)|[(-> & E & Sd)|F]]; simpl.
  2: { d_step. right. left. split_and!; [done|done|]. intros k e' Hk Ek.
       apply lookup_ge_None in E. apply lookup_lt_Some in Ek. lia. }
  2: { destruct F as [F1 F2]. destruct (Z.eqb_spec res 0); [done|]. d_step. right. by right. }
  pose proof (lookup_lt_Some _ _ _ E).
  assert (Next : ¬ belongs u e →
    wp (next_loop fuel u (Z.of_nat i + 1)) d1 (λ '(res, (j, e)) d',
      res = TEE_SUCCESS ∧ same_dir d d' ∧ (∃ n, j = Z.of_nat n ∧ next_object u ents i n e) ∨
      res = TEE_ERROR_ITEM_NOT_FOUND ∧ same_dir d d' ∧ no_object_from u ents i ∨ fails res)).
  { intros Nb. replace (Z.of_nat i + 1) with (Z.of_nat (S i)) by lia.
    assert (Skip : ∀ k e', (i ≤ k)%nat → ents !! k = Some e' → ¬ (S i ≤ k)%nat → ¬ belongs u e').
    { intros k e' ? Ek ?. assert (k = i) as -> by lia. congruence. }
    eapply wp_mono; [apply (IH d1 ents u (S i)); [by eapply same_dir_base|done|lia|lia]|].
    intros [r [j e']] d2 [(-> & S2 & n & -> & En & Bn & Hn & Mn)|[(-> & S2 & No)|Fl]]; [left|right; left|by right; right].
    - split_and!; [done|by eapply same_dir_trans|]. exists n. split; [done|].
      split_and!; [done|done|lia|]. intros k e0 Hk Ek.
      destruct (decide (S i ≤ k)%nat); [apply (Mn k e0); [lia|done]|apply (Skip k e0); [lia|done|done]].
    - split_and!; [done|by eapply same_dir_trans|]. intros k e0 Hk Ek.
      destruct (decide (S i ≤ k)%nat); [apply (No k e0); [lia|done]|apply (Skip k e0); [lia|done|done]]. }
  d_step. eapply wp_run; [apply same_uuid_ok; [by destruct Ok|done]|].
  case_bool_decide as Eu; d_step; [eapply wp_run; [by apply is_free_ok|]; destruct (free_ent e) eqn:Fr|].
  - apply Next. intros [? _]. congruence.
  - d_step. left. split_and!; [done|done|]. exists i. split; [done|].
    split_and!; [done|done|lia|]. intros. lia.
  - d_step. apply Next. by intros [_ ?].
Qed.

(** [tee_fs_dirfile_get_next] goes through the objects of a TA in the
    order of the directory: it returns the first object after the index it is
    given, with its identifier, says [TEE_ERROR_ITEM_NOT_FOUND] exactly when
    there is none, and [TEE_ERROR_SHORT_BUFFER] exactly when the identifier
    does not fit; the directory does not change. The only other results are
    errors of the file. *)
Theorem dirfile_get_next_correct fuel d ents uuid' (i : nat) oidlen' :
  dir_inv d ents → length uuid' = 16%nat → (i ≤ length ents)%nat → (length ents < fuel)%nat →
  ∃ res idx' oid' len' d',
    tee_fs_dirfile_get_next fuel uuid' (Z.of_nat i - 1) oidlen' d =
      Some (Done ((res, (idx', oid', len')), d')) ∧
    ((∃ j e, next_object uuid' ents i j e ∧ dir_inv d' ents ∧
        (oidlen e ≤ oidlen' ∧ res = TEE_SUCCESS ∧ idx' = Z.of_nat j ∧
           oid' = (ent_name e).2 ∧ len' = oidlen e ∨
         oidlen' < oidlen e ∧ res = TEE_ERROR_SHORT_BUFFER ∧ idx' = Z.of_nat i - 1)) ∨
     no_object_from uuid' ents i ∧ dir_inv d' ents ∧ res = TEE_ERROR_ITEM_NOT_FOUND ∨
     fails res).
Proof.
  intros I Hu Hi Hf.
  enough (W : wp (tee_fs_dirfile_get_next fuel uuid' (Z.of_nat i - 1) oidlen') d
    (λ '(res, (idx', oid', len')) d',
      (∃ j e, next_object uuid' ents i j e ∧ dir_inv d' ents ∧
        (oidlen e ≤ oidlen' ∧ res = TEE_SUCCESS ∧ idx' = Z.of_nat j ∧
           oid' = (ent_name e).2 ∧ len' = oidlen e ∨
         oidlen' < oidlen e ∧ res = TEE_ERROR_SHORT_BUFFER ∧ idx' = Z.of_nat i - 1)) ∨
      no_object_from uuid' ents i ∧ dir_inv d' ents ∧ res = TEE_ERROR_ITEM_NOT_FOUND ∨
      fails res)).
  { destruct W as ((res & (idx' & oid') & len') & d' & E & Q). by exists res, idx', oid', len', d'. }
  unfold tee_fs_dirfile_get_next. destruct (Z.ltb_spec (Z.of_nat i - 1 + 1) 0); [lia|].
  replace (Z.of_nat i - 1 + 1) with (Z.of_nat i) by lia. d_step.
  eapply wp_mono; [apply (next_loop_ok fuel d ents); [apply I|done|done|lia]|].
  intros [res [j e]] d1 [(-> & S & n & -> & N)|[(-> & S & No)|F]]; simpl.
  - pose proof N as (E & _). pose proof (ents_ok_lookup _ _ _ (b_ents _ _ (i_base _ _ I)) E) as Ok.
    destruct (Z.ltb_spec oidlen' (oidlen e)).
    + d_step. left. exists n, e. split_and!; [done|by eapply same_dir_inv|]. auto.
    + destruct Ok as [_ Ho _ Hl _ _]. unfold TEE_OBJECT_ID_MAX_LEN in Hl. rewrite Ho.
      destruct (Z.ltb_spec (Z.of_nat 64) (oidlen e)); [lia|].
      d_step. left. exists n, e. split_and!; [done|by eapply same_dir_inv|]. left. by split_and!.
  - d_step. right. left. split_and!; [done|by eapply same_dir_inv|done].
  - destruct F as [F1 F2]. destruct (Z.eqb_spec res 0); [done|]. d_step. right. by right.
Qed.

End Next.

(** ** File names *)

Definition hex_value (c : ascii) : Z :=
  let n := Z.of_nat (Ascii.nat_of_ascii c) in if n <? 58 then n - 48 else n - 87.

Definition is_hex (c : ascii) : bool :=
  let n := Z.of_nat (Ascii.nat_of_ascii c) in
  (48 <=? n) && (n <=? 57) || (97 <=? n) && (n <=? 102).

(** The number a string of digits stands for. *)
Definition hex_parse (s : list ascii) : Z := foldl (λ a c, a * 16 + hex_value c) 0 s.

Lemma hex_digit_ok d : 0 ≤ d < 16 → is_hex (hex_digit d) = true ∧ hex_value (hex_digit d) = d.
Proof.
  intros Hd. assert (H : d ∈ seqZ 0 16) by (apply elem_of_seqZ; lia).
  clear Hd. revert d H.
  apply (proj1 (Forall_forall (λ d, is_hex (hex_digit d) = true ∧ hex_value (hex_digit d) = d) _)).
  repeat constructor.
Qed.

Lemma hex_ok fuel : ∀ z, 0 ≤ z < 16 ^ Z.of_nat fuel → (0 < fuel)%nat →
  hex_parse (hex fuel z) = z ∧ forallb is_hex (hex fuel z) = true ∧
  (0 < length (hex fuel z) ≤ fuel)%nat.
Proof.
  induction fuel as [|fuel IH]; intros z Hz Hf; [lia|]. cbn [hex].
  destruct (Z.ltb_spec z 16).
  - destruct (hex_digit_ok z ltac:(lia)) as [H1 H2]. split_and!; simpl; [|by rewrite H1|lia|lia].
    unfold hex_parse. simpl. lia.
  - pose proof (Z.div_mod z 16). pose proof (Z.mod_pos_bound z 16).
    rewrite Nat2Z.inj_succ, Z.pow_succ_r in Hz by lia.
    assert (0 < fuel)%nat by (destruct fuel; [simpl in Hz; lia|lia]).
    destruct (IH (z / 16)) as (P & F & L);
      [split; [apply Z.div_pos; lia|apply Z.div_lt_upper_bound; lia]|done|].
    destruct (hex_digit_ok (z mod 16) ltac:(lia)) as [H1' H2'].
    split_and!; [|by rewrite forallb_app, F; simpl; rewrite H1'|rewrite length_app; simpl; lia..].
    unfold hex_parse in *. rewrite foldl_app, P. simpl. rewrite H2'. lia.
Qed.

(** The name of a file identifies it: the name of a file number is its
    value in hexadecimal digits, at most eight of them, so that two files have
    different names and none has that of the directory, and the call succeeds
    exactly when the name and its NUL fit the buffer; otherwise it asks for the
    size that is needed. *)
Theorem fileh_to_fname_correct dfh fnlen :
  0 ≤ fh_file_number dfh < 2 ^ 32 →
  let s := hex 8 (fh_file_number dfh) in
  let '(res, len, fname) := tee_fs_dirfile_fileh_to_fname (Some dfh) fnlen in
  hex_parse s = fh_file_number dfh ∧ s ≠ dirf_db ∧
  len = Z.of_nat (length s) + 1 ∧ 2 ≤ len ≤ 9 ∧
  (len ≤ fnlen ∧ res = TEE_SUCCESS ∧ fname = s ∨
   fnlen < len ∧ res = TEE_ERROR_SHORT_BUFFER).
Proof.
  intros Hn s. unfold tee_fs_dirfile_fileh_to_fname. fold s.
  destruct (hex_ok 8 (fh_file_number dfh)) as (P & F & L); [simpl; lia|lia|]. fold s in P, F, L.
  assert (N : s ≠ dirf_db) by (intros E; rewrite E in F; done).
  destruct (Z.leb_spec fnlen (Z.of_nat (length s))); (split_and!; [done|done|done|lia|lia|]).
  - right. split; [lia|done].
  - left. split_and!; [lia|done|]. apply take_ge. lia.
Qed.

Lemma fileh_to_fname_correct_witness :
  tee_fs_dirfile_fileh_to_fname (Some (mk_fileh 0x1f [] 0)) 350 =
    (TEE_SUCCESS, 3, String.list_ascii_of_string "1f") ∧
  hex_parse (hex 8 0x1f) = 0x1f.
Proof.
  split; [reflexivity|].
  exact (proj1 (fileh_to_fname_correct (mk_fileh 0x1f [] 0) 350 ltac:(simpl; lia))).
Defined.
