(* ===== verification/DirfileExample.v ===== *)
(** A concrete file for the examples on directories: the world is the bytes of
    the open file, and every operation succeeds. *)
From S2P Require Import Prelude State Bytes Bitstring Dirfile DirfileProofs DirfileOpen DirfileNext.

#[local] Ltac Zify.zify_post_hook ::= Z.div_mod_to_equations.

(** Two objects of a TA, one of them twice, and a free entry. *)
Definition ta : list Z := replicate 16 7.

Definition object (o : Z) (n : Z) : dirfile_entry :=
  mk_dent ta (o :: zeros 63) 1 (zeros 32) n.

Definition some_ents : list dirfile_entry := [object 65 3; zero_dent; object 66 3; object 67 9].

(** What the file holds. *)
Definition disk : list Z := encode_all some_ents.

(** The bit string of [n] bytes that keeps what [f] holds. *)
Definition resized (f : bitstr) (n : Z) : bitstr :=
  take (Z.to_nat n) (f ++ replicate (Z.to_nat n - length f) 0).

#[global] Instance mem_file : DirfileOps := {|
  dworld := list Z;
  dop_open := λ _ _ _ _, Some (Done (TEE_SUCCESS, disk));
  dop_close := st_ret tt;
  dop_read := λ pos len w, Some (Done ((TEE_SUCCESS, slice pos len w), w));
  dop_write := λ pos data w,
    Some (Done (TEE_SUCCESS, take (Z.to_nat pos) w ++ data ++ drop (Z.to_nat pos + length data) w));
  dop_commit_writes := st_ret (TEE_SUCCESS, zeros TEE_FS_HTREE_HASH_SIZE, 1);
  dop_realloc := λ f n, st_ret (if bool_decide (bytes_ok f) && (0 <=? n) then Some (resized f n) else None);
  dop_calloc := st_ret true;
|}.

Lemma bytes_ok_resized f n : bytes_ok f → bytes_ok (resized f n).
Proof.
  intros H. unfold resized, bytes_ok in *. apply Forall_take, Forall_app. split; [done|].
  apply Forall_replicate. lia.
Qed.

Lemma lookup_resized f n i : (i < length f)%nat → (i < Z.to_nat n)%nat → resized f n !! i = f !! i.
Proof. intros. unfold resized. rewrite lookup_take_lt by done. by apply lookup_app_l. Qed.

#[global] Instance mem_file_laws : DirfileLaws.
Proof.
  refine {| contents := λ (w : @dworld mem_file) c, w = c |}; simpl.
  - congruence.
  - intros pos len w c -> *. eexists _, _. split; [done|]. by left.
  - intros pos data w c -> *. eexists _, _. split; [done|]. by left.
  - intros f n w. apply wp_ret. split; [done|]. case_bool_decide as B; [|done].
    destruct (Z.leb_spec 0 n); [|done]. simpl.
    assert (L : length (resized f n) = Z.to_nat n).
    { unfold resized. rewrite length_take, length_app, length_replicate. lia. }
    split_and!; [lia|by apply bytes_ok_resized|]. intros i Hf Hi. apply lookup_resized; lia.
  - intros w c Hc. by apply wp_ret.
  - intros w. by apply wp_ret.
  - intros w. by apply wp_ret.
Defined.

Lemma object_ok o n : 0 ≤ n ≤ FILE_NUMBER_MAX → ent_ok (object o n).
Proof. intros Hn. by split. Qed.

Lemma some_ents_ok : Forall ent_ok some_ents.
Proof.
  assert (N : ∀ o n, 0 ≤ n ≤ 10 → ent_ok (object o n))
    by (intros; apply object_ok; unfold FILE_NUMBER_MAX, INT_MAX; lia).
  apply Forall_lookup_2. intros [|[|[|[|i]]]] e; intros [= <-]; try (apply N; lia).
  apply zero_dent_ok.
Qed.

Lemma dirfile_open_correct_witness :
  dedup [] some_ents = [object 65 3; zero_dent; zero_dent; object 67 9] ∧
  wp (tee_fs_dirfile_open 10 false None 0) [] (λ '(res, r) w',
    res = TEE_SUCCESS ∧
      (∃ d, r = Some d ∧ fh d = w' ∧ dir_inv d (dedup [] some_ents) ∧
         ∀ m, in_use d m ↔ owned (dedup [] some_ents) m) ∨
    res ≠ TEE_SUCCESS ∧ r = None).
Proof.
  split; [vm_compute; reflexivity|].
  apply (dirfile_open_correct 10 false None 0 _ some_ents);
    [|apply some_ents_ok|simpl; unfold MAX_ENTS; lia|simpl; lia].
  intros w0. by eexists _, _.
Defined.

(** The directory of the object of number 3 alone. *)
Definition one_dir : tee_fs_dirfile_dirh := mk_dirh (encode_all [object 65 3]) 4 [8] 1.

Lemma one_dir_inv : dir_inv one_dir [object 65 3].
Proof.
  assert (Ok : ent_ok (object 65 3)) by (apply object_ok; unfold FILE_NUMBER_MAX, INT_MAX; lia).
  split; [split|split|done]; simpl.
  - done.
  - by apply Forall_singleton.
  - unfold MAX_ENTS. lia.
  - apply Forall_singleton. lia.
  - unfold capacity. simpl. lia.
  - unfold FILE_NUMBER_MAX, INT_MAX. lia.
  - intros [|i] e; [|done]. intros [= <-] _. split; [simpl; lia|done].
  - intros [|i] [|j] e e'; done.
Qed.

Lemma dirfile_get_next_correct_witness :
  dir_inv one_dir [object 65 3] ∧
  tee_fs_dirfile_get_next 5 ta (-1) 64 one_dir =
    Some (Done ((TEE_SUCCESS, (0, [65], 1)), one_dir)) ∧
  ∃ res idx' oid' len' d',
    tee_fs_dirfile_get_next 5 ta (Z.of_nat 0 - 1) 64 one_dir =
      Some (Done ((res, (idx', oid', len')), d')) ∧
    ((∃ j e, next_object ta [object 65 3] 0 j e ∧ dir_inv d' [object 65 3] ∧
        (oidlen e ≤ 64 ∧ res = TEE_SUCCESS ∧ idx' = Z.of_nat j ∧
           oid' = (ent_name e).2 ∧ len' = oidlen e ∨
         64 < oidlen e ∧ res = TEE_ERROR_SHORT_BUFFER ∧ idx' = Z.of_nat 0 - 1)) ∨
     no_object_from ta [object 65 3] 0 ∧ dir_inv d' [object 65 3] ∧ res = TEE_ERROR_ITEM_NOT_FOUND ∨
     fails res).
Proof.
  split; [apply one_dir_inv|]. split; [vm_compute; reflexivity|].
  apply (dirfile_get_next_correct 5 one_dir [object 65 3] ta 0 64);
    [apply one_dir_inv|reflexivity|simpl; lia|simpl; lia].
Defined.
