(* ===== verification/FsRpc.v ===== *)
(** Requests to the normal world for files, core/tee/tee_fs_rpc.c: what a
    request consists of and what is taken from its answer. The call of the
    normal world and the shared memory are the class [RpcEnv]. *)
From S2P Require Import Prelude State Bytes Dirfile.
From Stdlib Require Import Ascii.

Definition OPTEE_RPC_CMD_FS : Z := 2.

Definition OPTEE_RPC_FS_OPEN : Z := 0.

Definition OPTEE_RPC_FS_CREATE : Z := 1.

Definition OPTEE_RPC_FS_CLOSE : Z := 2.

Definition OPTEE_RPC_FS_READ : Z := 3.

Definition OPTEE_RPC_FS_WRITE : Z := 4.

Definition OPTEE_RPC_FS_TRUNCATE : Z := 5.

Definition OPTEE_RPC_FS_REMOVE : Z := 6.

(** [struct thread_param], as the functions below use it: values to the normal
    world and from it, and shared memory. Of a buffer for output the size is
    given, and after the call the bytes that the normal world left, as many as
    it says. *)
Inductive thread_param :=
| VALUE_IN (a b c : Z)
| VALUE_OUT (a b c : Z)
| MEMREF_IN (data : list Z)
| MEMREF_OUT (size : Z) (data : list Z).

(** [struct tee_fs_rpc_operation]. *)
Record tee_fs_rpc_operation := mk_op { op_id : Z; op_params : list thread_param }.

(** [thread_rpc_cmd] returns a result and the parameters afterwards;
    [thread_rpc_shm_cache_alloc] whether there is shared memory of a size. *)
Class RpcEnv := {
  rworld : Type;
  thread_rpc_cmd : Z → list thread_param → St rworld (Z * list thread_param);
  thread_rpc_shm_cache_alloc : Z → St rworld bool;
}.

Section FsRpc.
Context `{RpcEnv}.

Definition operation_commit (op : tee_fs_rpc_operation) : St rworld (Z * list thread_param) :=
  thread_rpc_cmd (op_id op) (op_params op).

(** The characters of a name and the terminating NUL. *)
Definition name_bytes (name : list ascii) : list Z :=
  ((λ c, Z.of_nat (nat_of_ascii c)) <$> name) ++ [0].

(** Shared memory with the name of a file. *)
Definition name_param (dfh : option tee_fs_dirfile_fileh) : St rworld (Z * thread_param) :=
  va ← thread_rpc_shm_cache_alloc TEE_FS_NAME_MAX;
  if negb va then mret (TEE_ERROR_OUT_OF_MEMORY, MEMREF_IN []) else
  let '(res, name) := create_filename TEE_FS_NAME_MAX dfh in
  mret (res, MEMREF_IN (name_bytes name)).

(** The result and, when it is [TEE_SUCCESS], [*fd]. *)
Definition operation_open_dfh (id cmd : Z) (dfh : option tee_fs_dirfile_fileh) : St rworld (Z * Z) :=
  '(res, name) ← name_param dfh;
  if negb (res =? TEE_SUCCESS) then mret (res, -1) else
  '(res, params) ← operation_commit (mk_op id [VALUE_IN cmd 0 0; name; VALUE_OUT 0 0 0]);
  mret (res, match params !! 2%nat with Some (VALUE_OUT a _ _) => to_int a | _ => 0 end).

Definition tee_fs_rpc_open_dfh (id : Z) (dfh : option tee_fs_dirfile_fileh) : St rworld (Z * Z) :=
  operation_open_dfh id OPTEE_RPC_FS_OPEN dfh.

Definition tee_fs_rpc_create_dfh (id : Z) (dfh : option tee_fs_dirfile_fileh) : St rworld (Z * Z) :=
  operation_open_dfh id OPTEE_RPC_FS_CREATE dfh.

Definition tee_fs_rpc_close (id fd : Z) : St rworld Z :=
  '(res, _) ← operation_commit (mk_op id [VALUE_IN OPTEE_RPC_FS_CLOSE fd 0]); mret res.

(** A [tee_fs_off_t] is signed. *)
Definition negative (offset : Z) : bool := 2 ^ 63 <=? u64 offset.

(** The operations that [tee_fs_rpc_read_init] and [tee_fs_rpc_write_init]
    prepare; the latter writes what the caller stores in the shared memory. *)
Definition read_op (id fd offset data_len : Z) : tee_fs_rpc_operation :=
  mk_op id [VALUE_IN OPTEE_RPC_FS_READ fd offset; MEMREF_OUT data_len []].

Definition write_op (id fd offset : Z) (data : list Z) : tee_fs_rpc_operation :=
  mk_op id [VALUE_IN OPTEE_RPC_FS_WRITE fd offset; MEMREF_IN data].

Definition tee_fs_rpc_read_init (offset data_len : Z) : St rworld Z :=
  if negative offset then mret TEE_ERROR_BAD_PARAMETERS else
  va ← thread_rpc_shm_cache_alloc data_len;
  mret (if va : bool then TEE_SUCCESS else TEE_ERROR_OUT_OF_MEMORY).

(** The result and the bytes read, [*data_len] of them. *)
Definition tee_fs_rpc_read_final (op : tee_fs_rpc_operation) : St rworld (Z * list Z) :=
  '(res, params) ← operation_commit op;
  mret (res, match params !! 1%nat with Some (MEMREF_OUT _ data) => data | _ => [] end).

Definition tee_fs_rpc_write_init (offset data_len : Z) : St rworld Z :=
  if negative offset then mret TEE_ERROR_BAD_PARAMETERS else
  va ← thread_rpc_shm_cache_alloc data_len;
  mret (if va : bool then TEE_SUCCESS else TEE_ERROR_OUT_OF_MEMORY).

Definition tee_fs_rpc_write_final (op : tee_fs_rpc_operation) : St rworld Z :=
  '(res, _) ← operation_commit op; mret res.

Definition tee_fs_rpc_truncate (id fd len : Z) : St rworld Z :=
  '(res, _) ← operation_commit (mk_op id [VALUE_IN OPTEE_RPC_FS_TRUNCATE fd len]); mret res.

Definition tee_fs_rpc_remove_dfh (id : Z) (dfh : option tee_fs_dirfile_fileh) : St rworld Z :=
  '(res, name) ← name_param dfh;
  if negb (res =? TEE_SUCCESS) then mret res else
  '(res, _) ← operation_commit (mk_op id [VALUE_IN OPTEE_RPC_FS_REMOVE 0 0; name]); mret res.

End FsRpc.
