(* ===== verification/ReeFile.v ===== *)
(** Files of the REE file system, core/tee/tee_ree_fs.c: reading, writing and
    truncating a file through the blocks of its hash tree, and the place of the
    parts of a hash tree in the file of the normal world. The hash tree
    (core/tee/fs_htree.c), the calls of the normal world, the pool of
    temporary blocks and the accesses of user memory are the class [HtreeOps]. *)
From S2P Require Import Prelude State Bytes.

Definition BLOCK_SHIFT : Z := 12.

Definition BLOCK_SIZE : Z := Z.shiftl 1 BLOCK_SHIFT.

(** ** The hash tree and what is below

    [htree] is an open tree. An operation of the tree that fails closes it and
    leaves a NULL pointer, hence [option htree]. *)
Class HtreeOps := {
  hworld : Type;
  htree : Type;
  ht_length : htree → Z;
  ht_set_length : Z → htree → htree;
  ht_read_block : Z → htree → St hworld (Z * list Z * option htree);
  ht_write_block : Z → list Z → htree → St hworld (Z * option htree);
  ht_truncate : Z → htree → St hworld (Z * option htree);
  rpc_truncate : Z → St hworld Z;
  pool_alloc : St hworld bool;
  copy_from_user : Z → Z → St hworld (Z * list Z);
  copy_to_user : Z → list Z → St hworld Z;
}.

(** ** The layout of a file *)

Inductive tee_fs_htree_type :=
  TEE_FS_HTREE_TYPE_HEAD | TEE_FS_HTREE_TYPE_NODE | TEE_FS_HTREE_TYPE_BLOCK.

(** [sizeof(struct tee_fs_htree_node_image)]: hash, iv, tag, flags. *)
Definition sizeof_node_image : Z := 32 + 16 + 16 + 2.

(** [sizeof(struct tee_fs_htree_image)]: iv, tag, enc_fek, imeta, counter. *)
Definition sizeof_image : Z := 16 + 16 + 16 + 16 + 4.

(** [*offs] and [*size]; every type of the enumeration is handled. *)
Definition get_offs_size (ty : tee_fs_htree_type) (idx vers : Z) : outcome (Z * Z) :=
  let node_size := sizeof_node_image in
  let block_nodes := BLOCK_SIZE / (node_size * 2) in
  if negb ((vers =? 0) || (vers =? 1)) then Panicked 0 else
  Done
    match ty with
    | TEE_FS_HTREE_TYPE_HEAD => (sizeof_image * vers, sizeof_image)
    | TEE_FS_HTREE_TYPE_NODE =>
        let pbn := u64 (1 + u64 (idx / block_nodes * block_nodes * 2)) in
        (u64 (pbn * BLOCK_SIZE + 2 * node_size * (idx mod block_nodes) + node_size * vers),
         node_size)
    | TEE_FS_HTREE_TYPE_BLOCK =>
        let bidx := u64 (2 * idx + vers) in
        let pbn := u64 (2 + bidx + bidx / (block_nodes * 2 - 1)) in
        (u64 (pbn * BLOCK_SIZE), BLOCK_SIZE)
    end.

(** ** An open file *)

Section ReeFile.
Context `{HtreeOps}.

(** What the functions on one file work on: [fdp->ht], the world, and the
    number of temporary blocks that are allocated from the pool, each of which
    holds the lock of the pool. *)
Record fd_env := mk_env {
  ht : option htree;
  hw : hworld;
  tmp_blocks : Z;
}.

Abbreviation F := (St fd_env).

(** A call that works on the world alone, and one that may close the tree. *)
Definition on_world {A} (m : St hworld A) : F A := λ f,
  match m (hw f) with
  | None => None
  | Some (Done (a, w)) => Some (Done (a, mk_env (ht f) w (tmp_blocks f)))
  | Some (Panicked c) => Some (Panicked c)
  | Some Undef => Some Undef
  end.

Definition set_ht (t : option htree) (f : fd_env) : fd_env := mk_env t (hw f) (tmp_blocks f).

Definition pos_to_block_num (position : Z) : Z := Z.shiftr (to_int position) BLOCK_SHIFT.

Definition get_tmp_block : F bool :=
  ok ← on_world pool_alloc;
  _ ← (if ok : bool then modify (λ f, mk_env (ht f) (hw f) (tmp_blocks f + 1)) else mret tt);
  mret ok.

Definition put_tmp_block : F unit :=
  modify (λ f, mk_env (ht f) (hw f) (tmp_blocks f - 1)).

(** [tee_fs_htree_get_meta(fdp->ht)->length]. *)
Definition meta_length : F Z :=
  t ← gets ht;
  match t with Some t => mret (ht_length t) | None => undef end.

(** [meta->length = len; tee_fs_htree_meta_set_dirty(fdp->ht)]. *)
Definition set_meta_length (len : Z) : F unit :=
  t ← gets ht;
  match t with
  | Some t => modify (set_ht (Some (ht_set_length len t)))
  | None => undef
  end.

Definition read_block (block_num : Z) : F (Z * list Z) :=
  t ← gets ht;
  match t with
  | None => mret (TEE_ERROR_CORRUPT_OBJECT, [])
  | Some t =>
      '(res, b, t') ← on_world (ht_read_block block_num t);
      _ ← modify (set_ht t');
      mret (res, b)
  end.

Definition write_block (block_num : Z) (block : list Z) : F Z :=
  t ← gets ht;
  match t with
  | None => mret TEE_ERROR_CORRUPT_OBJECT
  | Some t =>
      '(res, t') ← on_world (ht_write_block block_num block t);
      _ ← modify (set_ht t');
      mret res
  end.

Definition truncate (block_num : Z) : F Z :=
  t ← gets ht;
  match t with
  | None => mret TEE_ERROR_CORRUPT_OBJECT
  | Some t =>
      '(res, t') ← on_world (ht_truncate block_num t);
      _ ← modify (set_ht t');
      mret res
  end.

(** [buf_core], [buf_user], or neither. *)
Inductive buffer :=
| CoreBuf (data : list Z)
| UserBuf (addr : Z)
| NoBuf.

Definition bytes (n : Z) : list Z := replicate (Z.to_nat n) 0.

(** The next [n] bytes of the source. *)
Definition fetch (src : buffer) (n : Z) : F (Z * list Z) :=
  match src with
  | CoreBuf data =>
      if Z.of_nat (length data) <? n then undef
      else mret (TEE_SUCCESS, take (Z.to_nat n) data)
  | UserBuf addr => on_world (copy_from_user addr n)
  | NoBuf => mret (TEE_SUCCESS, bytes n)
  end.

Definition advance (b : buffer) (n : Z) : buffer :=
  match b with
  | CoreBuf data => CoreBuf (drop (Z.to_nat n) data)
  | UserBuf addr => UserBuf (addr + n)
  | NoBuf => NoBuf
  end.

(** [memcpy(block + offset, data, size)]. *)
Definition splice (offset : Z) (data block : list Z) : list Z :=
  take (Z.to_nat offset) block ++ data ++ drop (Z.to_nat offset + length data) block.

(** How much of a block is accessed. *)
Definition chunk (pos remain : Z) : Z :=
  let offset := pos mod BLOCK_SIZE in
  let size := Z.min remain BLOCK_SIZE in
  if BLOCK_SIZE <? size + offset then BLOCK_SIZE - offset else size.

(** The loop of [out_of_place_write], [n] blocks from [blk]: whether the
    function returns at once, the result and [pos]. *)
Fixpoint write_loop (n : nat) (blk pos : Z) (src : buffer) (remain : Z) : F (bool * Z * Z) :=
  match n with
  | O => mret (false, TEE_SUCCESS, pos)
  | S n =>
      let offset := pos mod BLOCK_SIZE in
      let size_to_write := chunk pos remain in
      len ← meta_length;
      '(res, block) ←
        (if u64 (blk * BLOCK_SIZE) <? ROUNDUP len BLOCK_SIZE then read_block blk
         else mret (TEE_SUCCESS, bytes BLOCK_SIZE));
      if negb (res =? TEE_SUCCESS) then mret (false, res, pos) else
      '(res, data) ← fetch src size_to_write;
      if negb (res =? 0) then mret (true, res, pos) else
      res ← write_block blk (splice offset data block);
      if negb (res =? TEE_SUCCESS) then mret (false, res, pos) else
      write_loop n (u64 (blk + 1)) (u64 (pos + size_to_write)) (advance src size_to_write)
        (u64 (remain - size_to_write))
  end.

Definition out_of_place_write (pos : Z) (src : buffer) (len : Z) : F Z :=
  let start_block_num := u64 (pos_to_block_num pos) in
  let end_block_num := u64 (pos_to_block_num (u64 (pos + len - 1))) in
  if len =? 0 then mret TEE_ERROR_BAD_PARAMETERS else
  ok ← get_tmp_block;
  if negb ok then mret TEE_ERROR_OUT_OF_MEMORY else
  if end_block_num <? start_block_num then undef else
  '(early, res, pos') ←
    write_loop (Z.to_nat (end_block_num + 1 - start_block_num)) start_block_num pos src len;
  if early : bool then mret res else
  _ ← (if res =? TEE_SUCCESS then
         len0 ← meta_length;
         if len0 <? pos' then set_meta_length pos' else mret tt
       else mret tt);
  _ ← put_tmp_block;
  mret res.

Definition ree_fs_ftruncate_internal (new_file_len : Z) : F Z :=
  len ← meta_length;
  if len <? u64 new_file_len then
    out_of_place_write len NoBuf (u64 (new_file_len - len))
  else
    '(offs, sz) ← run (get_offs_size TEE_FS_HTREE_TYPE_BLOCK
                         (ROUNDUP new_file_len BLOCK_SIZE / BLOCK_SIZE) 1);
    res ← truncate (new_file_len / BLOCK_SIZE);
    if negb (res =? TEE_SUCCESS) then mret res else
    res ← on_world (rpc_truncate (u64 (offs + sz)));
    if negb (res =? TEE_SUCCESS) then mret res else
    _ ← set_meta_length new_file_len;
    mret TEE_SUCCESS.

(** A block of data for the destination: a buffer of the core receives it,
    one of the user through [copy_to_user]. *)
Definition deliver (dst : buffer) (data : list Z) : F Z :=
  match dst with
  | UserBuf addr => on_world (copy_to_user addr data)
  | _ => mret TEE_SUCCESS
  end.

(** The loop of [ree_fs_read_primitive], [n] blocks from [blk]: the result and
    the bytes delivered. *)
Fixpoint read_loop (n : nat) (blk pos : Z) (dst : buffer) (remain : Z) (acc : list Z)
  : F (Z * list Z) :=
  match n with
  | O => mret (TEE_SUCCESS, acc)
  | S n =>
      let offset := pos mod BLOCK_SIZE in
      let size_to_read := chunk pos remain in
      '(res, block) ← read_block (u64 blk);
      if negb (res =? TEE_SUCCESS) then mret (res, acc) else
      let data := take (Z.to_nat size_to_read) (drop (Z.to_nat offset) block) in
      res ← deliver dst data;
      if negb (res =? 0) then mret (res, acc) else
      read_loop n (blk + 1) (u64 (pos + size_to_read)) (advance dst size_to_read)
        (u64 (remain - size_to_read)) (acc ++ data)
  end.

(** The result, the bytes delivered and [*len]; the destination is a buffer
    of [len] bytes. *)
Definition ree_fs_read_primitive (pos : Z) (dst : buffer) (len : Z) : F (Z * list Z * Z) :=
  remain ←
    (if u64 (pos + len) <? len then mret 0
     else
       flen ← meta_length;
       mret (if flen <? pos then 0
             else if flen <? pos + len then flen - pos else len));
  if remain =? 0 then mret (TEE_SUCCESS, [], remain) else
  let start_block_num := pos_to_block_num pos in
  let end_block_num := pos_to_block_num (u64 (pos + remain - 1)) in
  ok ← get_tmp_block;
  if negb ok then mret (TEE_ERROR_OUT_OF_MEMORY, [], remain) else
  '(res, data) ←
    read_loop (Z.to_nat (end_block_num + 1 - start_block_num)) start_block_num pos dst remain [];
  _ ← put_tmp_block;
  mret (res, data, remain).

Definition ree_fs_write_primitive (pos : Z) (src : buffer) (len : Z) : F Z :=
  if len =? 0 then mret TEE_SUCCESS else
  file_size ← meta_length;
  if u64 (pos + len) <? len then mret TEE_ERROR_BAD_PARAMETERS else
  res ← (if file_size <? pos then ree_fs_ftruncate_internal pos else mret TEE_SUCCESS);
  if negb (res =? TEE_SUCCESS) then mret res else
  out_of_place_write pos src len.

End ReeFile.
