(* ===== verification/ReeFileProofs.v ===== *)
(** A file of the REE file system is a sequence of bytes: what
    core/tee/tee_ree_fs.c reads and writes block by block is what it should
    be, and the parts of a hash tree do not overlap in the storage. *)
From S2P Require Import Prelude State Bytes ReeFile.

(** [lia] knows the equations of division and modulo in this file. *)
#[local] Ltac Zify.zify_post_hook ::= Z.div_mod_to_equations.

(** ** What is expected of the hash tree

    [block_data t n] is the data of block [n] of the tree. Every call ends;
    the clauses say what calls that succeed do. A block is written right after
    the last one or in the place of another. When [ht_quiet], the storage does
    not answer [TEE_ERROR_ITEM_NOT_FOUND] to the read of a block. *)
Class HtreeLaws `{HtreeOps} := {
  ht_valid : htree → Prop;
  ht_quiet : Prop;
  block_data : htree → Z → option (list Z);
  set_length_ok : ∀ n t, ht_valid t → 0 ≤ n →
    ht_valid (ht_set_length n t) ∧ ht_length (ht_set_length n t) = n ∧
    ∀ m, block_data (ht_set_length n t) m = block_data t m;
  read_block_ok : ∀ n t w, ht_valid t → 0 ≤ n < 2 ^ 20 →
    wp (ht_read_block n t) w (λ '(res, b, t') _,
      (res = TEE_SUCCESS ∧ block_data t n = Some b ∧ Z.of_nat (length b) = BLOCK_SIZE ∧
       ∃ t2, t' = Some t2 ∧ ht_valid t2 ∧ ht_length t2 = ht_length t ∧
         ∀ m, block_data t2 m = block_data t m) ∨
      res ≠ TEE_SUCCESS ∧ (ht_quiet → res ≠ TEE_ERROR_ITEM_NOT_FOUND));
  write_block_ok : ∀ n b t w,
    ht_valid t → 0 ≤ n < 2 ^ 20 → n = 0 ∨ block_data t (n - 1) ≠ None →
    Z.of_nat (length b) = BLOCK_SIZE →
    wp (ht_write_block n b t) w (λ '(res, t') _, res = TEE_SUCCESS →
      ∃ t2, t' = Some t2 ∧ ht_valid t2 ∧ ht_length t2 = ht_length t ∧
        ∀ m, block_data t2 m = if decide (m = n) then Some b else block_data t m);
  truncate_ok : ∀ n t w, ht_valid t → 0 ≤ n < 2 ^ 20 →
    wp (ht_truncate n t) w (λ '(res, t') _, res = TEE_SUCCESS →
      ∃ t2, t' = Some t2 ∧ ht_valid t2 ∧ ht_length t2 = ht_length t ∧
        ∀ m, m ≤ n → block_data t2 m = block_data t m);
  rpc_truncate_ok : ∀ n w, wp (rpc_truncate n) w (λ _ _, True);
  pool_alloc_ok : ∀ w, wp pool_alloc w (λ _ _, True);
  copy_from_user_ok : ∀ a n w, 0 ≤ n →
    wp (copy_from_user a n) w (λ '(res, d) _, res = TEE_SUCCESS → Z.of_nat (length d) = n);
  copy_to_user_ok : ∀ a d w, wp (copy_to_user a d) w (λ _ _, True);
}.

(** ** Arithmetic of blocks *)

Lemma BLOCK_SIZE_eq : BLOCK_SIZE = 4096.
Proof. reflexivity. Qed.

Lemma block_num z : 0 ≤ z ≤ INT_MAX → pos_to_block_num z = z / 4096.
Proof.
  intros H. unfold pos_to_block_num, INT_MAX in *. rewrite to_int_small by lia.
  by rewrite Z.shiftr_div_pow2.
Qed.

Lemma chunk_eq pos remain : 0 < remain →
  chunk pos remain = Z.min remain (4096 - pos mod 4096).
Proof.
  intros. unfold chunk. rewrite BLOCK_SIZE_eq.
  destruct (Z.ltb_spec 4096 (Z.min remain 4096 + pos mod 4096)); lia.
Qed.

(** The [n] blocks from [blk] are those of the [remain] bytes from [pos]. *)
Definition covers (n : nat) (blk pos remain : Z) : Prop :=
  remain = 0 ∧ n = 0%nat ∨
  0 < remain ∧ blk = pos / 4096 ∧ Z.of_nat n = (pos + remain - 1) / 4096 + 1 - blk.

Lemma covers_init pos remain :
  0 ≤ pos → 0 < remain →
  covers (Z.to_nat ((pos + remain - 1) / 4096 + 1 - pos / 4096)) (pos / 4096) pos remain.
Proof. intros. right. lia. Qed.

Lemma covers_zero n blk pos : covers n blk pos 0 → n = 0%nat.
Proof. unfold covers. lia. Qed.

Lemma covers_succ n blk pos remain : 0 ≤ remain →
  covers (S n) blk pos remain → 0 < remain ∧ blk = pos / 4096.
Proof. unfold covers. lia. Qed.

Lemma covers_next n blk pos remain : 0 ≤ pos →
  covers (S n) blk pos remain → 0 < remain →
  covers n (blk + 1) (pos + chunk pos remain) (remain - chunk pos remain).
Proof. intros ? [?|(?&?&?)] ?; [lia|]. unfold covers. rewrite chunk_eq by lia. lia. Qed.

Section ReeFileProofs.
Context `{HtreeLaws}.

(** ** The bytes of a file *)

(** The byte of a tree at an offset. *)
Definition byte (t : htree) (i : Z) : option Z :=
  match block_data t (i / 4096) with
  | Some b => b !! Z.to_nat (i mod 4096)
  | None => None
  end.

(** The file holds [c]. *)
Definition is_file (t : htree) (c : list Z) : Prop :=
  ht_valid t ∧ ht_length t = Z.of_nat (length c) ∧
  ∀ i x, c !! i = Some x → byte t (Z.of_nat i) = Some x.

(** An open file that holds [c]. *)
Definition holds (f : fd_env) (c : list Z) : Prop :=
  ∃ t, ht f = Some t ∧ is_file t c.

Lemma is_file_ext t t' c :
  ht_valid t' → ht_length t' = ht_length t → (∀ m, block_data t' m = block_data t m) → is_file t c → is_file t' c.
Proof. intros V L B (_ & E & F). split_and!; [done|congruence|]. intros i x Hi. unfold byte. rewrite B. by apply F. Qed.

Lemma wp_meta f t (Q : Z → fd_env → Prop) :
  ht f = Some t → Q (ht_length t) f → wp meta_length f Q.
Proof. intros E HQ. unfold meta_length. do 2 st_step. rewrite E. by st_step. Qed.

(** The code that follows a step whose effect [m] is known. *)
Lemma wp_eq {A} (m : St fd_env A) f a f' (Q : A → fd_env → Prop) :
  m f = Some (Done (a, f')) → Q a f' → wp m f Q.
Proof. intros E HQ. unfold wp. rewrite E. eauto. Qed.

Lemma set_meta_eq len f t :
  ht f = Some t → set_meta_length len f =
    Some (Done (tt, mk_env (Some (ht_set_length len t)) (hw f) (tmp_blocks f))).
Proof. intros E. unfold set_meta_length, mbind, st_mbind, st_bind, gets. by rewrite E. Qed.

Lemma wp_on_world {A} (m : St hworld A) f (P : A → hworld → Prop) (Q : A → fd_env → Prop) :
  wp m (hw f) P → (∀ a w, P a w → Q a (mk_env (ht f) w (tmp_blocks f))) → wp (on_world m) f Q.
Proof. intros (a & w & E & R) HQ. unfold wp, on_world. rewrite E. eauto 10. Qed.

Lemma wp_tmp_block f (Q : bool → fd_env → Prop) :
  (∀ w, Q true (mk_env (ht f) w (tmp_blocks f + 1))) →
  (∀ w, Q false (mk_env (ht f) w (tmp_blocks f))) → wp get_tmp_block f Q.
Proof.
  intros HT HF. unfold get_tmp_block. st_step. eapply wp_on_world; [apply pool_alloc_ok|].
  intros [] w _; repeat st_step; auto.
Qed.

(** The calls that take the tree out of the handle and put it back. *)
Ltac on_tree E :=
  do 2 st_step; rewrite E; st_step; eapply wp_on_world.

Lemma wp_read_block f t n (Q : Z * list Z → fd_env → Prop) :
  ht f = Some t → ht_valid t → 0 ≤ n < 2 ^ 20 →
  (∀ b t' w, block_data t n = Some b → Z.of_nat (length b) = BLOCK_SIZE →
     ht_valid t' → ht_length t' = ht_length t → (∀ m, block_data t' m = block_data t m) →
     Q (TEE_SUCCESS, b) (mk_env (Some t') w (tmp_blocks f))) →
  (∀ res b f', res ≠ TEE_SUCCESS → (ht_quiet → res ≠ TEE_ERROR_ITEM_NOT_FOUND) →
     tmp_blocks f' = tmp_blocks f → Q (res, b) f') →
  wp (read_block n) f Q.
Proof.
  intros E V Hn HS HF. unfold read_block. on_tree E; [by apply read_block_ok|].
  intros [[res b] t'] w [(-> & D & Lb & t2 & -> & ? & ? & ?)|[N1 N2]]; repeat st_step; [by apply HS|by apply HF].
Qed.

Lemma wp_write_block f t n b (Q : Z → fd_env → Prop) :
  ht f = Some t → ht_valid t → 0 ≤ n < 2 ^ 20 → n = 0 ∨ block_data t (n - 1) ≠ None →
  Z.of_nat (length b) = BLOCK_SIZE →
  (∀ t' w, ht_valid t' → ht_length t' = ht_length t →
     (∀ m, block_data t' m = if decide (m = n) then Some b else block_data t m) →
     Q TEE_SUCCESS (mk_env (Some t') w (tmp_blocks f))) →
  (∀ res f', res ≠ TEE_SUCCESS → tmp_blocks f' = tmp_blocks f → Q res f') →
  wp (write_block n b) f Q.
Proof.
  intros E V Hn Hprev Hb HS HF. unfold write_block. on_tree E; [by apply write_block_ok|].
  intros [res t'] w R. repeat st_step. destruct (decide (res = TEE_SUCCESS)) as [->|N]; [|by apply HF].
  destruct (R eq_refl) as (t2 & -> & ? & ? & ?). by apply HS.
Qed.

Lemma wp_truncate f t n (Q : Z → fd_env → Prop) :
  ht f = Some t → ht_valid t → 0 ≤ n < 2 ^ 20 →
  (∀ t' w, ht_valid t' → ht_length t' = ht_length t →
     (∀ m, m ≤ n → block_data t' m = block_data t m) →
     Q TEE_SUCCESS (mk_env (Some t') w (tmp_blocks f))) →
  (∀ res f', res ≠ TEE_SUCCESS → tmp_blocks f' = tmp_blocks f → Q res f') →
  wp (truncate n) f Q.
Proof.
  intros E V Hn HS HF. unfold truncate. on_tree E; [by apply truncate_ok|].
  intros [res t'] w R. repeat st_step. destruct (decide (res = TEE_SUCCESS)) as [->|N]; [|by apply HF].
  destruct (R eq_refl) as (t2 & -> & ? & ? & ?). by apply HS.
Qed.

(** ** Reading *)

(** What is known of the result of code that may fail: a failure that leaves
    the number of temporary blocks alone. *)
Definition failed (f : fd_env) (dst : buffer) (res : Z) (f' : fd_env) : Prop :=
  res ≠ TEE_SUCCESS ∧ tmp_blocks f' = tmp_blocks f ∧
  (ht_quiet → (∀ a, dst ≠ UserBuf a) → res ≠ TEE_ERROR_ITEM_NOT_FOUND).

Lemma advance_user b n : (∀ a, b ≠ UserBuf a) → ∀ a, advance b n ≠ UserBuf a.
Proof. destruct b; simpl; [done| |done]. intros Hb. by destruct (Hb addr). Qed.

Lemma wp_deliver f dst data (Q : Z → fd_env → Prop) :
  (∀ w, Q TEE_SUCCESS (mk_env (ht f) w (tmp_blocks f))) →
  (∀ a res w, dst = UserBuf a → res ≠ TEE_SUCCESS → Q res (mk_env (ht f) w (tmp_blocks f))) →
  wp (deliver dst data) f Q.
Proof.
  intros HS HF. destruct dst as [d|a|]; simpl.
  1, 3: st_step; specialize (HS (hw f)); by destruct f.
  eapply wp_on_world; [apply copy_to_user_ok|]. intros res w _.
  destruct (decide (res = TEE_SUCCESS)) as [->|]; eauto.
Qed.

(** A piece of a block is a piece of the file. *)
Lemma block_slice t c b pos n :
  is_file t c → block_data t (pos / 4096) = Some b → Z.of_nat (length b) = BLOCK_SIZE →
  0 ≤ pos → 0 ≤ n → pos mod 4096 + n ≤ 4096 → pos + n ≤ Z.of_nat (length c) →
  take (Z.to_nat n) (drop (Z.to_nat (pos mod 4096)) b) = slice pos n c.
Proof.
  intros (_ & L & F) D Lb Hp Hn Hm Hc. rewrite BLOCK_SIZE_eq in Lb.
  change (take (Z.to_nat n) (drop (Z.to_nat (pos mod 4096)) b)) with (slice (pos mod 4096) n b).
  apply list_eq. intros i. rewrite !slice_lookup by lia. case_decide as Hi; [|done].
  destruct (lookup_lt_is_Some_2 c (Z.to_nat (pos + Z.of_nat i))) as [x Ex]; [lia|].
  rewrite Ex. apply F in Ex. rewrite Z2Nat.id in Ex by lia. unfold byte in Ex.
  replace ((pos + Z.of_nat i) / 4096) with (pos / 4096) in Ex by lia.
  rewrite D in Ex. rewrite <- Ex. f_equal. lia.
Qed.

Lemma read_loop_ok n : ∀ f c blk pos dst remain acc,
  holds f c → covers n blk pos remain → 0 ≤ pos → 0 ≤ remain →
  pos + remain ≤ Z.of_nat (length c) → pos + remain ≤ INT_MAX →
  wp (read_loop n blk pos dst remain acc) f (λ '(res, data) f',
    res = TEE_SUCCESS ∧ data = acc ++ slice pos remain c ∧ holds f' c ∧
      tmp_blocks f' = tmp_blocks f ∨
    failed f dst res f').
Proof.
  induction n as [|n IH]; intros f c blk pos dst remain acc (t & Ht & Hf) Cv Hp Hr Hl Hm.
  - cbn [read_loop]. st_step. left. destruct Cv as [[-> _]|]; [|lia].
    split_and!; [done| |by exists t|done]. unfold slice. by rewrite app_nil_r.
  - cbn [read_loop]. destruct (covers_succ _ _ _ _ Hr Cv) as [Hpos ->].
    pose proof (covers_next _ _ _ _ Hp Cv Hpos) as Cv'. unfold INT_MAX in Hm.
    rewrite chunk_eq in Cv' |- * by done. set (m := Z.min remain (4096 - pos mod 4096)) in *.
    rewrite BLOCK_SIZE_eq, (u64_id (pos / 4096)) by lia. st_step. pose proof (proj1 Hf) as V.
    apply (wp_read_block f t); [done|done|lia| |].
    2: { intros res b f' N1 N2 Tb. destruct (Z.eqb_spec res TEE_SUCCESS); [done|]. st_step.
         right. split_and!; auto. }
    intros b t' w D Lb V2 L2 B. simpl. rewrite (block_slice t c) by (done || lia).
    st_step. apply wp_deliver.
    2: { intros a res w' -> N. destruct (Z.eqb_spec res 0); [done|]. st_step. right.
         split_and!; [done|done|]. intros _ Hd. by destruct (Hd a). }
    intros w'. simpl. rewrite !u64_id by lia.
    eapply wp_mono.
    { eapply (IH _ c); [|exact Cv'|lia|lia|lia|unfold INT_MAX; lia].
      exists t'. split; [done|]. by eapply is_file_ext. }
    intros [res data] f' [(-> & -> & Hf' & Tb)|(N & Tb & Nf)].
    + left. split_and!; [done| |done|done]. rewrite <- app_assoc. f_equal. unfold slice.
      rewrite <- (take_drop (Z.to_nat m) (take (Z.to_nat remain) _)). f_equal.
      * rewrite take_take. f_equal. lia.
      * rewrite skipn_firstn_comm, drop_drop. f_equal; [lia|]. f_equal. lia.
    + right. split_and!; [done|done|]. intros Hq Hd. apply Nf; [done|]. by apply advance_user.
Qed.

(** [ree_fs_read_primitive] delivers the bytes of the file that the range
    meets. *)
Lemma read_primitive_ok f c pos dst len :
  holds f c → 0 ≤ pos → 0 ≤ len → pos + len ≤ INT_MAX →
  wp (ree_fs_read_primitive pos dst len) f (λ '(res, data, rlen) f',
    res = TEE_SUCCESS ∧ data = slice pos len c ∧ rlen = Z.of_nat (length data) ∧
      holds f' c ∧ tmp_blocks f' = tmp_blocks f ∨
    failed f dst res f').
Proof.
  intros Hf Hp Hl Hm. pose proof Hf as (t & Ht & _ & Lt & _).
  unfold ree_fs_read_primitive. unfold INT_MAX in Hm.
  rewrite u64_id by lia. destruct (Z.ltb_spec (pos + len) len); [lia|]. do 2 st_step.
  apply (wp_meta f t); [done|]. st_step. rewrite Lt.
  set (remain := if Z.of_nat (length c) <? pos then 0
                 else if Z.of_nat (length c) <? pos + len then Z.of_nat (length c) - pos else len).
  assert (S : slice pos len c = slice pos remain c ∧ 0 ≤ remain ∧
              Z.of_nat (length (slice pos remain c)) = remain ∧
              (0 < remain → pos + remain ≤ Z.of_nat (length c)) ∧ remain ≤ len).
  { unfold remain, slice. destruct (Z.ltb_spec (Z.of_nat (length c)) pos);
      [rewrite !drop_ge, !take_nil by lia; simpl; split_and!; done || lia|].
    destruct (Z.ltb_spec (Z.of_nat (length c)) (pos + len)).
    - rewrite !take_ge by (rewrite length_drop; lia). rewrite length_drop. split_and!; lia || done.
    - rewrite length_take, length_drop. split_and!; lia || done. }
  destruct S as (Es & Hr & Lr & Hc & Hrl). rewrite Es.
  destruct (Z.eqb_spec remain 0) as [R0|R0].
  { st_step. left. split_and!; [done| |simpl; lia|done|done].
    symmetry. apply nil_length_inv. lia. }
  rewrite (u64_id (pos + remain - 1)) by lia. rewrite !block_num by (unfold INT_MAX; lia).
  st_step. apply wp_tmp_block; intros w; simpl.
  2: { st_step. right. split_and!; simpl; done || lia. }
  st_step. eapply wp_mono.
  { eapply (read_loop_ok _ _ c); [|apply covers_init; lia|lia|lia|lia|unfold INT_MAX; lia].
    destruct Hf as (t' & ? & ?). by exists t'. }
  intros [res data] f' [(-> & -> & Hf' & Tb)|(N & Tb & Nf)]; unfold put_tmp_block; do 3 st_step; [left|right].
  - split_and!; [done|done|done| |simpl in *; lia]. destruct Hf' as (t' & ? & ?). by exists t'.
  - split_and!; [done|simpl in *; lia|done].
Qed.

(** ** Writing *)

(** [d] is what a source of [n] bytes holds; that of a user buffer is what
    was copied from it. *)
Definition src_bytes (src : buffer) (n : Z) (d : list Z) : Prop :=
  Z.of_nat (length d) = n ∧
  match src with
  | CoreBuf s => d = take (Z.to_nat n) s
  | UserBuf _ => True
  | NoBuf => d = bytes n
  end.

Definition src_room (src : buffer) (n : Z) : Prop :=
  match src with CoreBuf s => n ≤ Z.of_nat (length s) | _ => True end.

Lemma src_bytes_app src m r d1 d2 :
  0 ≤ m ≤ r → src_bytes src m d1 → src_bytes (advance src m) (r - m) d2 →
  src_bytes src r (d1 ++ d2).
Proof.
  intros Hm [L1 S1] [L2 S2]. split; [rewrite length_app; lia|].
  destruct src as [s|a|]; simpl in *; [|done|]; rewrite S1, S2.
  - rewrite <- (take_drop (Z.to_nat m) (take (Z.to_nat r) s)), take_take, skipn_firstn_comm.
    f_equal; [f_equal; lia|]. f_equal. lia.
  - unfold bytes. rewrite <- replicate_add. f_equal. lia.
Qed.

Lemma src_room_advance src m r : 0 ≤ m → src_room src r → src_room (advance src m) (r - m).
Proof. destruct src; simpl; [|done|done]. rewrite length_drop. lia. Qed.

Lemma wp_fetch f src n (Q : Z * list Z → fd_env → Prop) :
  0 ≤ n → src_room src n →
  (∀ d w, src_bytes src n d → Q (TEE_SUCCESS, d) (mk_env (ht f) w (tmp_blocks f))) →
  (∀ a res d w, src = UserBuf a → res ≠ TEE_SUCCESS →
     Q (res, d) (mk_env (ht f) w (tmp_blocks f))) →
  wp (fetch src n) f Q.
Proof.
  intros Hn Room HS HF. destruct src as [s|a|]; simpl in *.
  - destruct (Z.ltb_spec (Z.of_nat (length s)) n); [lia|]. st_step.
    specialize (HS (take (Z.to_nat n) s) (hw f)). destruct f. apply HS. split; [|done].
    rewrite length_take. lia.
  - eapply wp_on_world; [by apply copy_from_user_ok|]. intros [res d] w R.
    destruct (decide (res = TEE_SUCCESS)) as [->|]; [|eauto].
    apply HS. split; [by apply R|done].
  - st_step. specialize (HS (bytes n) (hw f)). destruct f. apply HS. split; [|done].
    unfold bytes. rewrite length_replicate. lia.
Qed.

(** The block that is read back, or zeros past the end of the file. *)
Lemma length_splice off d b :
  0 ≤ off ≤ Z.of_nat (length b) →
  Z.of_nat (length (splice off d b)) = Z.max (Z.of_nat (length b)) (off + Z.of_nat (length d)).
Proof. intros. unfold splice. rewrite !length_app, length_take, length_drop. lia. Qed.

Lemma lookup_splice off d b (i : nat) :
  0 ≤ off ≤ Z.of_nat (length b) →
  splice off d b !! i =
  if decide (off ≤ Z.of_nat i < off + Z.of_nat (length d)) then d !! Z.to_nat (Z.of_nat i - off)
  else b !! i.
Proof.
  intros Ho. unfold splice. case_decide as D.
  - rewrite lookup_app_r by (rewrite length_take; lia). rewrite lookup_app_l by (rewrite length_take; lia).
    rewrite length_take. f_equal. lia.
  - destruct (decide (Z.of_nat i < off)).
    + rewrite lookup_app_l by (rewrite length_take; lia). apply lookup_take_lt. lia.
    + rewrite lookup_app_r by (rewrite length_take; lia). rewrite length_take.
      rewrite lookup_app_r by lia. rewrite lookup_drop. f_equal. lia.
Qed.

(** The bytes after [remain] bytes [d] have been written at [pos] to the file
    of tree [t], of which those below the length and below [pos] matter. *)
Definition written (t t' : htree) (pos remain : Z) (d : list Z) : Prop :=
  ht_length t' = ht_length t ∧
  (∀ i, 0 ≤ i < remain → byte t' (pos + i) = d !! Z.to_nat i) ∧
  (∀ i, 0 ≤ i < Z.max (ht_length t) pos → i < pos ∨ pos + remain ≤ i → byte t' i = byte t i).

(** Writing one block: [blk] is the block of [pos], [b] what it held or zeros
    when it lies past the end of the file. *)
Lemma written_block t t' pos m d b :
  let blk := pos / 4096 in
  0 ≤ pos → 0 < m → pos mod 4096 + m ≤ 4096 → Z.of_nat (length d) = m →
  Z.of_nat (length b) = BLOCK_SIZE →
  (block_data t blk = Some b ∨ ht_length t ≤ blk * 4096 ∧ (pos ≤ ht_length t ∨ pos mod 4096 = 0)) →
  ht_length t' = ht_length t →
  (∀ n, block_data t' n = if decide (n = blk) then Some (splice (pos mod 4096) d b) else block_data t n) →
  written t t' pos m d.
Proof.
  intros blk Hp Hm Hb Ld Lb Hold L B. rewrite BLOCK_SIZE_eq in Lb.
  assert (By : ∀ i, 0 ≤ i → i / 4096 = blk → byte t' i =
    if decide (pos ≤ i < pos + m) then d !! Z.to_nat (i - pos) else b !! Z.to_nat (i mod 4096)).
  { intros i Hi E. unfold byte. rewrite E, B, decide_True by done.
    rewrite lookup_splice by lia. rewrite Z2Nat.id by lia. unfold blk in E.
    destruct (decide (pos ≤ i < pos + m)), (decide (pos mod 4096 ≤ i mod 4096 < pos mod 4096 + Z.of_nat (length d)));
      try lia; [f_equal; lia|done]. }
  split_and!; [done| |].
  - intros i Hi. rewrite By by (unfold blk; lia). rewrite decide_True by lia. f_equal. lia.
  - intros i Hi Ho. destruct (decide (i / 4096 = blk)) as [E|N].
    + rewrite By, decide_False by lia. destruct Hold as [D|[Hpast Hal]].
      * unfold byte. by rewrite E, D.
      * exfalso. unfold blk in *. lia.
    + unfold byte. by rewrite B, decide_False.
Qed.

(** Two pieces, one after the other. *)
Lemma written_app t t1 t2 pos m r d1 d2 :
  0 ≤ pos → 0 ≤ m ≤ r → Z.of_nat (length d1) = m →
  written t t1 pos m d1 → written t1 t2 (pos + m) (r - m) d2 → written t t2 pos r (d1 ++ d2).
Proof.
  intros Hp Hm Ld (L1 & N1 & O1) (L2 & N2 & O2). split_and!; [congruence| |].
  - intros i Hi. destruct (decide (i < m)).
    + rewrite O2 by lia. rewrite N1, lookup_app_l by lia. done.
    + replace (pos + i) with (pos + m + (i - m)) by lia. rewrite N2 by lia.
      rewrite lookup_app_r by lia. f_equal. lia.
  - intros i Hi Ho. rewrite O2 by lia. apply O1; lia.
Qed.

(** The block is read back exactly when it holds bytes of the file. *)
Lemma in_file blk len : 0 ≤ blk < 2 ^ 20 → 0 ≤ len ≤ INT_MAX →
  (u64 (blk * BLOCK_SIZE) <? ROUNDUP len BLOCK_SIZE) = (blk * 4096 <? len).
Proof.
  intros Hb Hl. unfold INT_MAX in Hl. change BLOCK_SIZE with (2 ^ 12).
  rewrite ROUNDUP_spec, u64_id by lia. change (2 ^ 12) with 4096.
  destruct (Z.ltb_spec (blk * 4096) ((len + (4096 - 1)) / 4096 * 4096)),
    (Z.ltb_spec (blk * 4096) len); done || lia.
Qed.

(** The block that precedes that of [pos] has been written. *)
Definition prev_block (t : htree) (pos : Z) : Prop :=
  pos / 4096 = 0 ∨ block_data t (pos / 4096 - 1) ≠ None.

Lemma file_prev_block t c pos :
  is_file t c → 0 ≤ pos ≤ Z.of_nat (length c) → prev_block t pos.
Proof.
  intros (_ & _ & F) Hp. destruct (decide (pos / 4096 = 0)); [by left|right]. intros N.
  destruct (lookup_lt_is_Some_2 c (Z.to_nat ((pos / 4096 - 1) * 4096))) as [x Ex]; [lia|].
  apply F in Ex. rewrite Z2Nat.id in Ex by lia. unfold byte in Ex.
  rewrite Z.div_mul, N in Ex by lia. done.
Qed.

(** The block that is about to be written, before. *)
Lemma old_block_ok f t pos :
  let blk := pos / 4096 in
  ht f = Some t → ht_valid t → 0 ≤ pos ≤ INT_MAX → 0 ≤ ht_length t ≤ INT_MAX →
  pos ≤ ht_length t ∨ pos mod 4096 = 0 →
  wp (if u64 (blk * BLOCK_SIZE) <? ROUNDUP (ht_length t) BLOCK_SIZE then read_block blk
      else mret (TEE_SUCCESS, bytes BLOCK_SIZE)) f (λ '(res, b) f1,
    tmp_blocks f1 = tmp_blocks f ∧
    (res = TEE_SUCCESS ∧ (∃ t1, ht f1 = Some t1 ∧ ht_valid t1 ∧ ht_length t1 = ht_length t ∧
       (∀ k, block_data t1 k = block_data t k)) ∧ Z.of_nat (length b) = BLOCK_SIZE ∧
       (block_data t blk = Some b ∨
        ht_length t ≤ blk * 4096 ∧ (pos ≤ ht_length t ∨ pos mod 4096 = 0)) ∨
     res ≠ TEE_SUCCESS)).
Proof.
  intros blk Ht V Hp Hl Hal. unfold blk, INT_MAX in *.
  rewrite in_file by (unfold INT_MAX; lia).
  destruct (Z.ltb_spec (pos / 4096 * 4096) (ht_length t)).
  - apply (wp_read_block f t); [done|done|lia| |].
    + intros b t1 w D Lb V1 L B. split; [done|]. left. split_and!; [done|by exists t1|done|by left].
    + intros res b f1 N _ Tb. split; [done|]. by right.
  - st_step. split; [done|]. left. split_and!; [done|by exists t|by rewrite BLOCK_SIZE_eq|right; lia].
Qed.

Lemma write_loop_ok n : ∀ f t blk pos src remain,
  ht f = Some t → ht_valid t → covers n blk pos remain → 0 ≤ pos → 0 ≤ remain →
  pos + remain ≤ INT_MAX → 0 ≤ ht_length t ≤ INT_MAX →
  (remain = 0 ∨ (pos ≤ ht_length t ∨ pos mod 4096 = 0) ∧ prev_block t pos) → src_room src remain →
  wp (write_loop n blk pos src remain) f (λ '(early, res, pos') f',
    tmp_blocks f' = tmp_blocks f ∧
    (early = false ∧ res = TEE_SUCCESS ∧ pos' = pos + remain ∧
       (∃ t' d, ht f' = Some t' ∧ ht_valid t' ∧ src_bytes src remain d ∧ written t t' pos remain d) ∨
     res ≠ TEE_SUCCESS ∧ (early = true → ∃ a, src = UserBuf a))).
Proof.
  induction n as [|n IH]; intros f t blk pos src remain Ht V Cv Hp Hr Hm Hlen Hal Room.
  - cbn [write_loop]. st_step. split; [done|]. left. destruct Cv as [[-> _]|]; [|lia].
    split_and!; [done|done|lia|]. exists t, []. split_and!; [done|done| |].
    + split; [done|]. by destruct src.
    + split_and!; [done|lia|done].
  - cbn [write_loop]. destruct (covers_succ _ _ _ _ Hr Cv) as [Hpos ->].
    destruct Hal as [|[Hal Hprev]]; [lia|].
    pose proof (covers_next _ _ _ _ Hp Cv Hpos) as Cv'. unfold INT_MAX in Hm.
    rewrite chunk_eq in Cv' |- * by done. set (m := Z.min remain (4096 - pos mod 4096)) in *.
    st_step. apply (wp_meta f t); [done|]. st_step.
    eapply wp_mono; [apply (old_block_ok f t pos); unfold INT_MAX in *; done || lia|].
    intros [res b] f1 [Tb [(-> & (t1 & Ht1 & V1 & L1 & B1) & Lb & Old)|N]]; simpl.
    2: { destruct (Z.eqb_spec res TEE_SUCCESS); [done|]. st_step. split; [done|]. right. done. }
    assert (Room' : src_room src m) by (destruct src; simpl in *; lia || done).
    st_step. apply wp_fetch; [lia|done| |].
    2: { intros a res d w -> N. simpl. destruct (Z.eqb_spec res 0); [done|]. st_step.
         split; [done|]. right. eauto. }
    intros d w Sd. pose proof (proj1 Sd) as Ld. simpl. st_step.
    rewrite BLOCK_SIZE_eq in Lb |- *.
    apply (wp_write_block _ t1); [done|done|unfold INT_MAX in *; lia|by rewrite B1
      |rewrite length_splice, BLOCK_SIZE_eq by lia; lia| |].
    2: { intros res f2 N Tb2. destruct (Z.eqb_spec res TEE_SUCCESS); [done|]. st_step.
         split; [simpl in Tb2; congruence|]. by right. }
    intros t2 w2 V2 L2 B2. simpl. rewrite !u64_id by lia.
    assert (W : written t t2 pos m d).
    { apply (written_block t t2 pos m d b); [lia|lia|lia|done|done|done|congruence|].
      intros k. rewrite B2. by case_decide. }
    eapply wp_mono.
    { apply (IH _ t2); [done|done|exact Cv'|lia|lia|unfold INT_MAX; lia|lia| |by apply src_room_advance; [lia|]].
      destruct (decide (m = remain)); [left; lia|right]. split; [lia|]. right.
      rewrite B2, decide_True by lia. done. }
    intros [[early res] pos'] f' [Tb' [(-> & -> & -> & t3 & d2 & Ht3 & V3 & Sd2 & W2)|[N Er]]];
      (split; [simpl in *; congruence|]); [left|right].
    + split_and!; [done|done|lia|]. exists t3, (d ++ d2). split_and!; [done|done| |].
      * by eapply src_bytes_app; [|done..]; lia.
      * by eapply written_app; [| | |done|done]; lia.
    + split; [done|]. intros Ee. destruct (Er Ee) as [a Ea]. destruct src; try done. eauto.
Qed.

(** The file after a write. *)
Lemma written_is_file t t' t2 c pos d :
  is_file t c → 0 ≤ pos ≤ Z.of_nat (length c) → ht_valid t2 →
  written t t' pos (Z.of_nat (length d)) d →
  ht_length t2 = Z.max (Z.of_nat (length c)) (pos + Z.of_nat (length d)) →
  (∀ m, block_data t2 m = block_data t' m) → is_file t2 (splice pos d c).
Proof.
  intros (_ & L & F) Hp V2 (L' & N & O) L2 B. split_and!; [done|rewrite length_splice; lia|].
  intros i x. rewrite lookup_splice by done. unfold byte. rewrite B. fold (byte t' (Z.of_nat i)).
  case_decide as D; intros E.
  - replace (Z.of_nat i) with (pos + (Z.of_nat i - pos)) by lia. rewrite N by lia. done.
  - pose proof (lookup_lt_Some _ _ _ E). rewrite O by lia. by apply F.
Qed.

(** What a write leaves behind. *)
Definition wrote (f : fd_env) (c : list Z) (pos : Z) (src : buffer) (len : Z)
    (res : Z) (f' : fd_env) : Prop :=
  res = TEE_SUCCESS ∧ tmp_blocks f' = tmp_blocks f ∧
    (∃ d, src_bytes src len d ∧ holds f' (splice pos d c)) ∨
  res ≠ TEE_SUCCESS ∧
    (tmp_blocks f' = tmp_blocks f ∨
     (∃ a, src = UserBuf a) ∧ tmp_blocks f' = tmp_blocks f + 1).

Lemma out_of_place_write_ok f c pos src len :
  holds f c → 0 ≤ pos ≤ Z.of_nat (length c) → 0 < len → src_room src len →
  pos + len ≤ INT_MAX → Z.of_nat (length c) ≤ INT_MAX →
  wp (out_of_place_write pos src len) f (wrote f c pos src len).
Proof.
  intros (t & Ht & Hf) Hp Hl Room Hm Hc. pose proof Hf as (V & Lt & _). unfold INT_MAX in Hm, Hc.
  unfold out_of_place_write. destruct (Z.eqb_spec len 0); [lia|].
  rewrite (u64_id (pos + len - 1)) by lia. rewrite !block_num by (unfold INT_MAX; lia).
  rewrite !u64_id by lia. st_step. apply wp_tmp_block; intros w; simpl.
  2: { st_step. right. by split; [|left]. }
  destruct (Z.ltb_spec ((pos + len - 1) / 4096) (pos / 4096)); [lia|]. st_step.
  eapply wp_mono.
  { apply (write_loop_ok _ _ t); [done|done|apply covers_init; lia|lia|lia|unfold INT_MAX; lia
      |unfold INT_MAX; lia|right; split; [lia|by eapply file_prev_block]|done]. }
  intros [[early res] pos'] f1 [Tb [(-> & -> & -> & t' & d & Ht' & V' & Sd & W)|[N Er]]].
  - simpl in Tb |- *. do 2 st_step. apply (wp_meta f1 t'); [done|].
    pose proof W as (L' & _). pose proof (proj1 Sd) as Ld. rewrite <- Ld in W.
    destruct (Z.ltb_spec (ht_length t') (pos + len)).
    + apply (wp_eq _ _ tt (mk_env (Some (ht_set_length (pos + len) t')) (hw f1) (tmp_blocks f1)));
        [by apply set_meta_eq|].
      unfold put_tmp_block. do 3 st_step. left. split_and!; [done|simpl; lia|].
      exists d. split; [done|]. eexists. split; [done|].
      destruct (set_length_ok (pos + len) t' V' ltac:(lia)) as (V2 & E & B).
      eapply (written_is_file t t'); [done|done|done|done|lia|done].
    + st_step. unfold put_tmp_block. do 3 st_step. left. split_and!; [done|simpl; lia|].
      exists d. split; [done|]. exists t'. split; [done|].
      eapply (written_is_file t t'); [done|done|done|done|lia|done].
  - simpl in Tb. destruct early.
    + st_step. right. split; [done|]. right. split; [by apply Er|lia].
    + st_step. destruct (Z.eqb_spec res TEE_SUCCESS); [done|].
      unfold put_tmp_block. do 4 st_step. right. split; [done|]. left. simpl. lia.
Qed.

(** [ree_fs_ftruncate_internal] cuts the file, or appends zeros. *)
Definition resize (n : Z) (c : list Z) : list Z :=
  take (Z.to_nat n) c ++ bytes (n - Z.of_nat (length c)).

Lemma length_resize n c : 0 ≤ n → Z.of_nat (length (resize n c)) = n.
Proof. intros. unfold resize, bytes. rewrite length_app, length_take, length_replicate. lia. Qed.

Lemma ftruncate_ok f c n :
  holds f c → 0 ≤ n ≤ INT_MAX → Z.of_nat (length c) ≤ INT_MAX →
  wp (ree_fs_ftruncate_internal n) f (λ res f',
    tmp_blocks f' = tmp_blocks f ∧
    (res = TEE_SUCCESS ∧ holds f' (resize n c) ∨ res ≠ TEE_SUCCESS)).
Proof.
  intros Hh Hn Hc. pose proof Hh as (t & Ht & V & Lt & F). unfold INT_MAX in *.
  unfold ree_fs_ftruncate_internal. st_step. apply (wp_meta f t); [done|].
  rewrite Lt, u64_id by lia. destruct (Z.ltb_spec (Z.of_nat (length c)) n).
  - rewrite u64_id by lia. eapply wp_mono.
    { apply (out_of_place_write_ok f c); [done|lia|lia|done|unfold INT_MAX; lia|done]. }
    intros res f' [(-> & Tb & d & [Ld ->] & Hf')|[N [Tb|[[a ?] _]]]]; [..|done]; auto.
    split; [done|]. left. split; [done|]. unfold resize, splice in *.
    rewrite Nat2Z.id, take_ge, drop_ge, app_nil_r in Hf' by lia. by rewrite take_ge by lia.
  - st_step. eapply wp_run; [reflexivity|]. cbv beta iota. st_step.
    pose proof (Z.div_pos n 4096 ltac:(lia)) as Hd.
    apply (wp_truncate f t); [done|done|rewrite BLOCK_SIZE_eq; lia| |].
    2: { intros res f1 N Tb. destruct (Z.eqb_spec res TEE_SUCCESS); [done|]. st_step. auto. }
    intros t2 w V2 L2 B. simpl. st_step. eapply wp_on_world; [apply rpc_truncate_ok|].
    intros res w2 _. destruct (Z.eqb_spec res TEE_SUCCESS) as [->|N]; [|st_step; auto].
    simpl. st_step. eapply wp_eq; [by apply set_meta_eq|]. st_step. split; [done|]. left.
    split; [done|]. eexists. split; [done|].
    destruct (set_length_ok n t2 V2 ltac:(lia)) as (V3 & E2 & B2). split_and!; [done| |].
    + rewrite E2. by rewrite length_resize by lia.
    + intros i x. unfold resize, bytes. replace (Z.to_nat (n - _)) with 0%nat by lia.
      rewrite app_nil_r. intros [E3 Hi]%lookup_take_Some. unfold byte. rewrite B2, B; [by apply F|].
      rewrite BLOCK_SIZE_eq. lia.
Qed.

(** [ree_fs_write_primitive] fills a gap before [pos] with zeros. *)
Lemma write_primitive_ok f c pos src len :
  holds f c → 0 ≤ pos → 0 < len → src_room src len →
  pos + len ≤ INT_MAX → Z.of_nat (length c) ≤ INT_MAX →
  wp (ree_fs_write_primitive pos src len) f
    (wrote f (if Z.of_nat (length c) <? pos then resize pos c else c) pos src len).
Proof.
  intros Hh Hp Hl Room Hm Hc. pose proof Hh as (t & Ht & _ & Lt & _).
  unfold ree_fs_write_primitive. destruct (Z.eqb_spec len 0); [lia|]. st_step.
  apply (wp_meta f t); [done|]. unfold INT_MAX in *. rewrite u64_id by lia.
  destruct (Z.ltb_spec (pos + len) len); [lia|]. rewrite Lt.
  destruct (Z.ltb_spec (Z.of_nat (length c)) pos); st_step.
  - eapply wp_mono; [apply (ftruncate_ok f c); [done|unfold INT_MAX; lia..]|].
    intros res f1 [Tb [[-> Hf1]|N]].
    + simpl. eapply wp_mono.
      { apply (out_of_place_write_ok f1 (resize pos c)); [done|rewrite length_resize; lia|lia|done
          |unfold INT_MAX; lia|rewrite length_resize; unfold INT_MAX; lia]. }
      unfold wrote. by rewrite Tb.
    + destruct (Z.eqb_spec res TEE_SUCCESS); [done|]. st_step. right. by split; [|left].
  - st_step. simpl. apply (out_of_place_write_ok f c); done || unfold INT_MAX; lia.
Qed.

End ReeFileProofs.
