(* ===== verification/ReeFileSpec.v ===== *)
(** The contract of files of the REE file system: a file is a sequence of
    bytes, and the parts of the hash tree that keeps it have places of their
    own in the storage of the normal world. *)
From S2P Require Import Prelude State Bytes ReeFile ReeFileProofs.

#[local] Ltac Zify.zify_post_hook ::= Z.div_mod_to_equations.

(** ** The layout of the storage *)

Lemma block_nodes_eq : BLOCK_SIZE / (sizeof_node_image * 2) = 31.
Proof. reflexivity. Qed.

(** The places in the terms of the layout: a block of nodes is followed by 61
    blocks of data. *)
Definition place_of (ty : tee_fs_htree_type) (idx vers : Z) : Z * Z :=
  match ty with
  | TEE_FS_HTREE_TYPE_HEAD => (68 * vers, 68)
  | TEE_FS_HTREE_TYPE_NODE =>
      ((1 + idx / 31 * 62) * 4096 + 132 * (idx mod 31) + 66 * vers, 66)
  | TEE_FS_HTREE_TYPE_BLOCK =>
      let b := 2 * idx + vers in ((2 + b / 61 * 62 + b mod 61) * 4096, 4096)
  end.

Lemma get_offs_size_eq ty idx vers :
  0 ≤ idx < 2 ^ 40 → vers = 0 ∨ vers = 1 →
  get_offs_size ty idx vers = Done (place_of ty idx vers).
Proof.
  intros Hi Hv. unfold get_offs_size, place_of. rewrite block_nodes_eq, BLOCK_SIZE_eq.
  assert (E : negb ((vers =? 0) || (vers =? 1)) = false)
    by (destruct Hv as [-> | ->]; reflexivity).
  rewrite E. unfold sizeof_node_image, sizeof_image. f_equal.
  destruct ty; f_equal; rewrite ?u64_id by (repeat rewrite u64_id; lia); lia.
Qed.

(** C40: No two parts of a hash tree overlap in the file that keeps it: the
    two headers, the two versions of every node and the two versions of every
    block of data have disjoint places, for any index below 2^40. *)
Theorem get_offs_size_disjoint ty1 i1 v1 ty2 i2 v2 o1 s1 o2 s2 :
  0 ≤ i1 < 2 ^ 40 → 0 ≤ i2 < 2 ^ 40 → (v1 = 0 ∨ v1 = 1) → (v2 = 0 ∨ v2 = 1) →
  (ty1 = TEE_FS_HTREE_TYPE_HEAD → i1 = 0) → (ty2 = TEE_FS_HTREE_TYPE_HEAD → i2 = 0) →
  get_offs_size ty1 i1 v1 = Done (o1, s1) → get_offs_size ty2 i2 v2 = Done (o2, s2) →
  (ty1, i1, v1) ≠ (ty2, i2, v2) →
  0 ≤ o1 ∧ 0 < s1 ∧ (o1 + s1 ≤ o2 ∨ o2 + s2 ≤ o1).
Proof.
  intros Hi1 Hi2 Hv1 Hv2 Hh1 Hh2 E1 E2 Hne. rewrite get_offs_size_eq in E1, E2 by done.
  assert (Hne' : ty1 ≠ ty2 ∨ i1 ≠ i2 ∨ v1 ≠ v2).
  { destruct (decide (i1 = i2)), (decide (v1 = v2)); [|by auto..].
    left. congruence. }
  unfold place_of in *.
  destruct ty1, ty2; simplify_eq/=;
    try (specialize (Hh1 eq_refl)); try (specialize (Hh2 eq_refl)); subst;
    destruct Hv1, Hv2; subst; destruct Hne' as [Hd|[Hd|Hd]];
    first [congruence | lia].
Qed.

Lemma get_offs_size_disjoint_witness :
  get_offs_size TEE_FS_HTREE_TYPE_NODE 31 0 = Done (63 * 4096, 66) ∧
  get_offs_size TEE_FS_HTREE_TYPE_BLOCK 30 1 = Done (64 * 4096, 4096) ∧
  0 ≤ 63 * 4096 ∧ 0 < 66 ∧ (63 * 4096 + 66 ≤ 64 * 4096 ∨ 64 * 4096 + 4096 ≤ 63 * 4096).
Proof.
  split; [reflexivity|]. split; [reflexivity|].
  apply (get_offs_size_disjoint TEE_FS_HTREE_TYPE_NODE 31 0 TEE_FS_HTREE_TYPE_BLOCK 30 1);
    [lia|lia|by left|by right|discriminate|discriminate|reflexivity|reflexivity|discriminate].
Defined.

(** ** Files as sequences of bytes *)

(** The operations on an open file, with buffers of the core. *)
Inductive file_op :=
| FRead (pos len : Z)
| FWrite (pos : Z) (data : list Z)
| FTruncate (len : Z).

(** What they should do: the bytes returned and the file afterwards. *)
Definition file_spec (op : file_op) (c : list Z) : list Z * list Z :=
  match op with
  | FRead pos len => (slice pos len c, c)
  | FWrite pos data =>
      ([], if decide (data = []) then c
           else splice pos data (if Z.of_nat (length c) <? pos then resize pos c else c))
  | FTruncate len => ([], resize len c)
  end.

Fixpoint files_spec (ops : list file_op) (c : list Z) : list (list Z) * list Z :=
  match ops with
  | [] => ([], c)
  | op :: ops =>
      let '(out, c1) := file_spec op c in
      let '(outs, c2) := files_spec ops c1 in (out :: outs, c2)
  end.

(** Positions that are positive as [int]. *)
Definition op_range (op : file_op) : Prop :=
  match op with
  | FRead pos len => 0 ≤ pos ∧ 0 ≤ len ∧ pos + len ≤ INT_MAX
  | FWrite pos data => 0 ≤ pos ∧ pos + Z.of_nat (length data) ≤ INT_MAX
  | FTruncate len => 0 ≤ len ≤ INT_MAX
  end.

Section Spec.
Context `{HtreeOps}.

Definition file_call (op : file_op) : St fd_env (Z * list Z) :=
  match op with
  | FRead pos len =>
      '(res, data, rlen) ← ree_fs_read_primitive pos (CoreBuf []) len; mret (res, data)
  | FWrite pos data =>
      res ← ree_fs_write_primitive pos (CoreBuf data) (Z.of_nat (length data)); mret (res, [])
  | FTruncate len => res ← ree_fs_ftruncate_internal len; mret (res, [])
  end.

(** The calls until one fails: its result, and the bytes returned so far. *)
Fixpoint file_calls (ops : list file_op) : St fd_env (Z * list (list Z)) :=
  match ops with
  | [] => mret (TEE_SUCCESS, [])
  | op :: ops =>
      '(res, out) ← file_call op;
      if negb (res =? TEE_SUCCESS) then mret (res, []) else
      '(res, outs) ← file_calls ops;
      mret (res, out :: outs)
  end.

Context `{!HtreeLaws}.

Lemma file_spec_length op c :
  op_range op → Z.of_nat (length c) ≤ INT_MAX → Z.of_nat (length (file_spec op c).2) ≤ INT_MAX.
Proof.
  destruct op as [pos len|pos data|len]; simpl; [done| |intros; rewrite length_resize; lia].
  intros [Hp Hl] Hc. case_decide; [done|].
  destruct (Z.ltb_spec (Z.of_nat (length c)) pos); rewrite length_splice;
    rewrite ?length_resize; lia.
Qed.

Lemma file_call_ok op f c :
  op_range op → Z.of_nat (length c) ≤ INT_MAX → holds f c →
  wp (file_call op) f (λ '(res, out) f',
    tmp_blocks f' = tmp_blocks f ∧
    (res = TEE_SUCCESS ∧ out = (file_spec op c).1 ∧ holds f' (file_spec op c).2 ∨
     res ≠ TEE_SUCCESS)).
Proof.
  intros Hr Hc Hf. destruct op as [pos len|pos data|len]; simpl in *.
  - st_step. eapply wp_mono; [apply (read_primitive_ok f c); tauto|].
    intros [[res d] rl] f' [(-> & -> & _ & Hf' & Tb)|(N & Tb & _)]; st_step; auto.
  - st_step. case_decide as D.
    + subst data. simpl. apply (wp_eq _ _ TEE_SUCCESS f); [done|]. st_step. auto.
    + eapply wp_mono.
      { apply (write_primitive_ok f c); [done|tauto| |simpl; lia|tauto|done].
        destruct data; [done|simpl; lia]. }
      intros res f' [(-> & Tb & d & [_ ->] & Hf')|[N [Tb|[[a [=]] _]]]]; st_step; [|by auto].
      split; [done|]. left. split_and!; [done|done|].
      by rewrite Nat2Z.id, (firstn_all data) in Hf'.
  - st_step. eapply wp_mono; [by apply (ftruncate_ok f c)|].
    intros res f' [Tb [[-> Hf']|N]]; st_step; auto.
Qed.

(** Any calls on an open file, against the sequence of its bytes. *)
Lemma file_calls_ok ops f c :
  Forall op_range ops → Z.of_nat (length c) ≤ INT_MAX → holds f c →
  wp (file_calls ops) f (λ '(res, outs) f',
    tmp_blocks f' = tmp_blocks f ∧ outs `prefix_of` (files_spec ops c).1 ∧
    (res = TEE_SUCCESS → outs = (files_spec ops c).1 ∧ holds f' (files_spec ops c).2)).
Proof.
  intros Hr. revert f c. induction Hr as [|op ops Hop _ IH]; intros f c Hc Hf; simpl.
  - st_step. auto.
  - st_step. eapply wp_mono; [by apply file_call_ok|].
    pose proof (file_spec_length op c Hop Hc) as Hc1.
    destruct (file_spec op c) as [out1 c1] eqn:E1. destruct (files_spec ops c1) as [outs2 c2] eqn:E2.
    intros [res out] f1 [Tb [(-> & -> & Hf1)|N]]; simpl in *.
    + st_step. eapply wp_mono; [by apply (IH f1 c1)|]. rewrite E2.
      intros [res outs] f2 (Tb2 & Pre & Ok). st_step. split_and!; [congruence|by apply prefix_cons|].
      intros Er. destruct (Ok Er) as [-> Hf2]. done.
    + destruct (Z.eqb_spec res TEE_SUCCESS); [done|]. st_step.
      split_and!; [done|apply prefix_nil|done].
Qed.

End Spec.
