(* ===== verification/ReeExample.v ===== *)
(** A concrete hash tree for the examples on files of the REE file system: the
    blocks are a finite map, the world says whether storage answers, and the
    user address 0 is not mapped. With it two flaws of
    core/tee/tee_ree_fs.c on error paths are shown on runs. *)
From S2P Require Import Prelude State Bytes ReeFile ReeFileProofs ReeFileSpec.

#[global] Instance map_htree : HtreeOps := {|
  hworld := bool;
  htree := Z * gmap Z (list Z);
  ht_length := fst;
  ht_set_length := λ n t, (n, t.2);
  ht_read_block := λ n t, gets (λ w : bool,
    if w then
      match t.2 !! n with
      | Some b => if Z.of_nat (length b) =? BLOCK_SIZE
                  then (TEE_SUCCESS, b, Some t) else (TEE_ERROR_CORRUPT_OBJECT, [], None)
      | None => (TEE_ERROR_GENERIC, [], None)
      end
    else (TEE_ERROR_OUT_OF_MEMORY, [], None));
  ht_write_block := λ n b t, gets (λ w : bool,
    if w then (TEE_SUCCESS, Some (t.1, <[n := b]> t.2)) else (TEE_ERROR_OUT_OF_MEMORY, None));
  ht_truncate := λ n t, gets (λ _, (TEE_SUCCESS, Some (t.1, filter (λ p, p.1 ≤ n) t.2)));
  rpc_truncate := λ n, gets (λ _, TEE_SUCCESS);
  pool_alloc := gets (λ _, true);
  copy_from_user := λ a n, gets (λ _,
    if a =? 0 then (TEE_ERROR_ACCESS_DENIED, []) else (TEE_SUCCESS, replicate (Z.to_nat n) 7));
  copy_to_user := λ a d, gets (λ _, if a =? 0 then TEE_ERROR_ACCESS_DENIED else TEE_SUCCESS);
|}.

Definition map_data (t : Z * gmap Z (list Z)) (n : Z) : option (list Z) := t.2 !! n.

#[global] Instance map_htree_laws : HtreeLaws.
Proof.
  refine {| ht_valid := λ _, True; ht_quiet := True; block_data := map_data |}; unfold map_data; simpl; intros;
    try by apply wp_gets.
  - done.
  - apply wp_gets. destruct w; [|by right]. destruct (t.2 !! n) as [b|]; [|by right].
    destruct (Z.eqb_spec (Z.of_nat (length b)) BLOCK_SIZE); [left|by right].
    split_and!; [done|done|done|]. by exists t.
  - apply wp_gets. destruct w; [|done]. intros _. eexists. split_and!; [done|done|done|].
    intros m. simpl. case_decide; [subst; apply lookup_insert_eq|by apply lookup_insert_ne].
  - apply wp_gets. intros _. eexists. split_and!; [done|done|done|].
    intros m Hm. simpl. rewrite map_lookup_filter. destruct (t.2 !! m); simpl; [|done].
    by case_guard.
  - apply wp_gets. destruct (a =? 0); [done|]. intros _. rewrite length_replicate. lia.
Defined.

(** An empty file. *)
Definition empty_file : fd_env := mk_env (Some (0, ∅)) true 0.

(** When the data of a write cannot be copied from the user,
    [out_of_place_write] returns without giving its temporary block back, so
    the pool of the temporary blocks and the mutex that protects it stay taken:
    the call fails, and one block more is allocated than before. *)
Theorem write_user_fault_keeps_block :
  ∃ f', ree_fs_write_primitive 0 (UserBuf 0) 16 empty_file =
          Some (Done (TEE_ERROR_ACCESS_DENIED, f')) ∧
    tmp_blocks f' = tmp_blocks empty_file + 1.
Proof. eexists. split; vm_compute; reflexivity. Qed.

(** A file of four bytes whose storage does not answer. *)
Definition stuck_file : fd_env := mk_env (Some (4, ∅)) false 0.

(** A file whose storage failed once must not be used again: the failure
    of a block closes the hash tree and leaves a NULL pointer in the handle,
    and the next read of the same handle follows it. *)
Theorem read_after_failure_undefined :
  ∃ f1, ht stuck_file ≠ None ∧
    ree_fs_read_primitive 0 (CoreBuf []) 4 stuck_file =
      Some (Done ((TEE_ERROR_OUT_OF_MEMORY, [], 4), f1)) ∧
    ht f1 = None ∧ ree_fs_read_primitive 0 (CoreBuf []) 4 f1 = Some Undef.
Proof.
  exists (@mk_env map_htree None false 0). split_and!; [done|vm_compute; reflexivity..].
Qed.
