(* ===== verification/Htree.v ===== *)
(** The hash tree that protects a file of the REE file system,
    core/tee/fs_htree.c: a binary tree of nodes kept in memory and, in two
    versions of every node and block, in storage of the normal world. The
    cryptography, the random numbers, the allocator and the storage are the
    class [HtreeEnv]. *)
From S2P Require Import Prelude State Bytes ReeFile.

Definition TEE_FS_HTREE_IV_SIZE : Z := 16.

Definition TEE_FS_HTREE_FEK_SIZE : Z := 16.

Definition TEE_FS_HTREE_TAG_SIZE : Z := 16.

Definition TEE_FS_HTREE_HASH_SIZE : Z := 32.

Definition HTREE_NODE_COMMITTED_BLOCK : Z := Z.shiftl 1 0.

Definition HTREE_NODE_COMMITTED_CHILD (n : Z) : Z := Z.shiftl 1 (1 + n).

(** ** Data *)

(** [struct tee_fs_htree_node_image]. *)
Record node_image := mk_image {
  n_hash : list Z;
  n_iv : list Z;
  n_tag : list Z;
  n_flags : Z;
}.

(** [struct tee_fs_htree_imeta], with the length of [struct tee_fs_htree_meta]. *)
Record tee_fs_htree_imeta := mk_imeta {
  m_length : Z;
  max_node_id : Z;
}.

(** [struct tee_fs_htree_image]. *)
Record htree_image := mk_head {
  h_iv : list Z;
  h_tag : list Z;
  h_enc_fek : list Z;
  h_imeta : list Z;
  h_counter : Z;
}.

(** [struct htree_node] without its links. *)
Record htree_node := mk_node {
  id : Z;
  dirty : bool;
  block_updated : bool;
  node : node_image;
}.

(** The nodes and their children, [Nil] is a NULL pointer. A pointer to a node
    is its [id]: no two nodes of a tree have the same. *)
Inductive tree :=
| Nil
| Node (n : htree_node) (child0 child1 : tree).

(** [struct tee_fs_htree]. *)
Record tee_fs_htree := mk_htree {
  root : tree;
  head : htree_image;
  fek : list Z;
  imeta : tee_fs_htree_imeta;
  ht_dirty : bool;
  ht_uuid : option (list Z);
}.

Definition zero_image : node_image :=
  mk_image (bytes TEE_FS_HTREE_HASH_SIZE) (bytes TEE_FS_HTREE_IV_SIZE)
    (bytes TEE_FS_HTREE_TAG_SIZE) 0.

Definition zero_head (counter : Z) : htree_image :=
  mk_head (bytes 16) (bytes 16) (bytes 16) (bytes 16) counter.

(** *** The bytes of the structures, little endian *)

(** The part of a node that [calc_node_hash] hashes: what follows [hash]. *)
Definition ndata (i : node_image) : list Z := n_iv i ++ n_tag i ++ le_bytes 2 (n_flags i).

Definition image_bytes (i : node_image) : list Z := n_hash i ++ ndata i.

Definition image_of (l : list Z) : node_image :=
  mk_image (slice 0 32 l) (slice 32 16 l) (slice 48 16 l) (of_le (slice 64 2 l)).

Definition head_bytes (h : htree_image) : list Z :=
  h_iv h ++ h_tag h ++ h_enc_fek h ++ h_imeta h ++ le_bytes 4 (h_counter h).

Definition head_of (l : list Z) : htree_image :=
  mk_head (slice 0 16 l) (slice 16 16 l) (slice 32 16 l) (slice 48 16 l) (of_le (slice 64 4 l)).

Definition meta_bytes (m : tee_fs_htree_imeta) : list Z := le_bytes 8 (m_length m).

(** With four bytes of padding. *)
Definition imeta_bytes (m : tee_fs_htree_imeta) : list Z :=
  meta_bytes m ++ le_bytes 4 (max_node_id m) ++ bytes 4.

Definition imeta_of (l : list Z) : tee_fs_htree_imeta :=
  mk_imeta (of_le (slice 0 8 l)) (of_le (slice 8 4 l)).

(** ** What is below

    [status] is the result of a call of the crypto layer or of the allocator
    that has no other result; [sha256] and the authenticated encryption are
    functions, and [None] is a call of the cipher that fails. [rpc_read_final] returns the bytes read, [rpc_write_final]
    stores the bytes, for the element announced to the [_init] call. *)
Class HtreeEnv := {
  eworld : Type;
  status : St eworld Z;
  crypto_rng_read : Z → St eworld (Z * list Z);
  sha256 : list Z → list Z;
  authenc_enc : list Z → list Z → list Z → list Z → option (list Z * list Z);
  authenc_dec : list Z → list Z → list Z → list Z → list Z → option (list Z);
  fek_encrypt : option (list Z) → list Z → list Z;
  fek_decrypt : option (list Z) → list Z → list Z;
  rpc_read_init : tee_fs_htree_type → Z → Z → St eworld Z;
  rpc_read_final : tee_fs_htree_type → Z → Z → St eworld (Z * list Z);
  rpc_write_init : tee_fs_htree_type → Z → Z → St eworld Z;
  rpc_write_final : tee_fs_htree_type → Z → Z → list Z → St eworld Z;
}.

(** ** Trees *)

(** Dereferencing a pointer, and an update through it. *)
Fixpoint node_at (t : tree) (i : Z) : option htree_node :=
  match t with
  | Nil => None
  | Node n l r =>
      if id n =? i then Some n
      else match node_at l i with Some n' => Some n' | None => node_at r i end
  end.

Fixpoint upd_node (i : Z) (f : htree_node → htree_node) (t : tree) : tree :=
  match t with
  | Nil => Nil
  | Node n l r => Node (if id n =? i then f n else n) (upd_node i f l) (upd_node i f r)
  end.

Definition is_nil (t : tree) : bool := match t with Nil => true | _ => false end.

(** [node->child[b]] of the node [i], as a pointer. *)
Fixpoint child_is_null (t : tree) (i : Z) (b : Z) : bool :=
  match t with
  | Nil => true
  | Node n l r =>
      if id n =? i then (if b =? 0 then is_nil l else is_nil r)
      else child_is_null l i b && child_is_null r i b
  end.

(** [node->child[b] = c] of the node [i]. *)
Fixpoint set_child (i b : Z) (c : tree) (t : tree) : tree :=
  match t with
  | Nil => Nil
  | Node n l r =>
      if id n =? i then (if b =? 0 then Node n c r else Node n l c)
      else Node n (set_child i b c l) (set_child i b c r)
  end.

(** [node_id_to_level]: 32 less the leading zeros of an [unsigned int]. *)
Definition node_id_to_level (node_id : Z) : outcome Z :=
  if (node_id =? 0) || (UINT32_MAX <=? node_id) then Panicked 0
  else Done (Z.log2 (u32 node_id) + 1).

(** The loop of [find_closest_node] below a node, for the [k] lower bits of
    [node_id]; the [id] of the node it stops at. *)
Fixpoint closest (k : nat) (node_id : Z) (t : tree) : Z :=
  match t with
  | Nil => 0
  | Node n l r =>
      match k with
      | O => id n
      | S k =>
          let child := if Z.testbit node_id (Z.of_nat k) then r else l in
          if is_nil child then id n else closest k node_id child
      end
  end.

Definition find_closest_node (t : tree) (node_id : Z) : outcome Z :=
  level ← node_id_to_level node_id;
  Done (closest (Z.to_nat (level - 1)) node_id t).

(** [None] is the NULL pointer. *)
Definition find_node (t : tree) (node_id : Z) : outcome (option Z) :=
  nd ← find_closest_node t node_id;
  Done (if nd =? node_id then Some nd else None).

Definition new_node (n : Z) : htree_node := mk_node n false false zero_image.

Definition with_root (t : tree) (ht : tee_fs_htree) : tee_fs_htree :=
  mk_htree t (head ht) (fek ht) (imeta ht) (ht_dirty ht) (ht_uuid ht).

Definition with_head (h : htree_image) (ht : tee_fs_htree) : tee_fs_htree :=
  mk_htree (root ht) h (fek ht) (imeta ht) (ht_dirty ht) (ht_uuid ht).

Definition with_imeta (m : tee_fs_htree_imeta) (ht : tee_fs_htree) : tee_fs_htree :=
  mk_htree (root ht) (head ht) (fek ht) m (ht_dirty ht) (ht_uuid ht).

Definition with_fek (k : list Z) (ht : tee_fs_htree) : tee_fs_htree :=
  mk_htree (root ht) (head ht) k (imeta ht) (ht_dirty ht) (ht_uuid ht).

Definition with_dirty (d : bool) (ht : tee_fs_htree) : tee_fs_htree :=
  mk_htree (root ht) (head ht) (fek ht) (imeta ht) d (ht_uuid ht).

Section Htree.
Context `{HtreeEnv}.

(** Code that returns a [TEE_Result]: [inl res] is a return with an error,
    [inr a] success with [a]. *)
Definition E (A : Type) : Type := St eworld (Z + A).

Definition e_ret {A} (a : A) : E A := mret (inr a).

Definition throw {A} (res : Z) : E A := mret (inl res).

Definition e_bind {A B} (m : E A) (f : A → E B) : E B :=
  r ← m; match r with inl res => mret (inl res) | inr a => f a end.

#[local] Instance E_mret : MRet E := @e_ret.
#[local] Instance E_mbind : MBind E := λ A B f m, e_bind m f.

(** A call whose only result is a [TEE_Result], and one with data. *)
Definition try (m : St eworld Z) : E unit :=
  st_bind m (λ res, st_ret (if res =? TEE_SUCCESS then inr tt else inl res)).

Definition try_data {A} (m : St eworld (Z * A)) : E A :=
  st_bind m (λ r, st_ret (if r.1 =? TEE_SUCCESS then inr r.2 else inl r.1)).

(** [calloc]: any failure is reported as [TEE_ERROR_OUT_OF_MEMORY]. *)
Definition calloc : E unit :=
  st_bind status (λ res, st_ret (if res =? TEE_SUCCESS then inr tt else inl TEE_ERROR_OUT_OF_MEMORY)).

Definition pure {A} (o : outcome A) : E A :=
  st_bind (run o) (λ a, st_ret (inr a)).

(** ** Storage *)

Definition rpc_read (ty : tee_fs_htree_type) (idx vers dlen : Z) : E (list Z) :=
  _ ← try (rpc_read_init ty idx vers);
  data ← try_data (rpc_read_final ty idx vers);
  if negb (Z.of_nat (length data) =? dlen) then throw TEE_ERROR_CORRUPT_OBJECT
  else mret data.

Definition rpc_read_head (vers : Z) : E htree_image :=
  data ← rpc_read TEE_FS_HTREE_TYPE_HEAD 0 vers sizeof_image; mret (head_of data).

Definition rpc_read_node (node_id vers : Z) : E node_image :=
  data ← rpc_read TEE_FS_HTREE_TYPE_NODE (node_id - 1) vers sizeof_node_image;
  mret (image_of data).

Definition rpc_write (ty : tee_fs_htree_type) (idx vers : Z) (data : list Z) : E unit :=
  _ ← try (rpc_write_init ty idx vers);
  try (rpc_write_final ty idx vers data).

Definition rpc_write_head (vers : Z) (h : htree_image) : E unit :=
  rpc_write TEE_FS_HTREE_TYPE_HEAD 0 vers (head_bytes h).

Definition rpc_write_node (node_id vers : Z) (i : node_image) : E unit :=
  rpc_write TEE_FS_HTREE_TYPE_NODE (node_id - 1) vers (image_bytes i).

(** ** Nodes *)

(** The loop of [get_node], [k] ids from [n]; [nd] is the local [node]. *)
Fixpoint add_nodes (k : nat) (n : Z) (t : tree) (nd : Z) : E (tree * Z) :=
  match k with
  | O => mret (t, nd)
  | S k =>
      nd ← pure (find_closest_node t n);
      if nd =? n then add_nodes k (n + 1) t nd else
      _ ← pure (if Z.shiftr n 1 =? nd then Done tt else Panicked 0);
      _ ← pure (if child_is_null t nd (Z.land n 1) then Done tt else Panicked 0);
      _ ← calloc;
      add_nodes k (n + 1) (set_child nd (Z.land n 1) (Node (new_node n) Nil Nil) t) n
  end.

(** The tree and the node. *)
Definition get_node (ht : tee_fs_htree) (create : bool) (node_id : Z) : E (tee_fs_htree * Z) :=
  nd ← pure (find_closest_node (root ht) node_id);
  if nd =? node_id then mret (ht, nd) else
  if negb create then throw TEE_ERROR_GENERIC else
  '(t, nd) ← add_nodes (Z.to_nat (node_id - nd)) (nd + 1) (root ht) nd;
  let m := imeta ht in
  let m' := if max_node_id m <? nd then mk_imeta (m_length m) (u32 nd) else m in
  mret (with_imeta m' (with_root t ht), nd).

Definition get_block_node (ht : tee_fs_htree) (create : bool) (block_num : Z)
  : E (tee_fs_htree * Z) := get_node ht create (u64 (block_num + 1)).

(** The image of a node; a pointer to no node is undefined. *)
Definition image_at (t : tree) (nd : Z) : E htree_node :=
  pure (match node_at t nd with Some n => Done n | None => Undef end).

(** ** Hashes *)

(** [calc_node_hash]: every call of the hash may fail. *)
Definition calc_node_hash (i : node_image) (meta : option tee_fs_htree_imeta)
    (child0 child1 : tree) : E (list Z) :=
  _ ← try status;
  _ ← try status;
  _ ← (if meta is Some _ then try status else mret tt);
  _ ← (if is_nil child0 then mret tt else try status);
  _ ← (if is_nil child1 then mret tt else try status);
  _ ← try status;
  let child_hash c := match c with Nil => [] | Node n _ _ => n_hash (node n) end in
  mret (sha256 (ndata i ++ (match meta with Some m => meta_bytes m | None => [] end) ++
                child_hash child0 ++ child_hash child1)).

(** ** Authenticated encryption *)

(** The key, the iv and the additional data of a context. *)
Record authenc_ctx := mk_ctx { c_key : list Z; c_iv : list Z; c_aad : list Z }.

(** [authenc_init] for a node ([Some iv]) or the head ([None]); when
    encrypting, the iv is drawn first: the iv used and the context. *)
Definition authenc_init (encrypt : bool) (ht : tee_fs_htree) (ni : option (list Z))
  : E (list Z * authenc_ctx) :=
  iv ← (if encrypt then try_data (crypto_rng_read TEE_FS_HTREE_IV_SIZE)
        else mret (match ni with Some iv => iv | None => h_iv (head ht) end));
  _ ← try status;
  _ ← try status;
  head_aad ←
    (match ni with
     | Some _ => mret []
     | None =>
         _ ← try status;
         _ ← try status;
         let root_hash := match root ht with Nil => [] | Node n _ _ => n_hash (node n) end in
         mret (take (Z.to_nat TEE_FS_HTREE_FEK_SIZE) root_hash ++ le_bytes 4 (h_counter (head ht)))
     end);
  _ ← try status;
  _ ← try status;
  mret (iv, mk_ctx (fek ht) iv (head_aad ++ h_enc_fek (head ht) ++ iv)).

Definition authenc_decrypt_final (ctx : authenc_ctx) (tag crypt : list Z) : E (list Z) :=
  r ← st_bind status (λ res, st_ret (inr res));
  if negb (r =? TEE_SUCCESS)
  then throw (if r =? TEE_ERROR_MAC_INVALID then TEE_ERROR_CORRUPT_OBJECT else r)
  else match authenc_dec (c_key ctx) (c_iv ctx) (c_aad ctx) crypt tag with
       | None => throw TEE_ERROR_CORRUPT_OBJECT
       | Some plain =>
           if negb (Z.of_nat (length plain) =? Z.of_nat (length crypt))
           then throw TEE_ERROR_GENERIC else mret plain
       end.

(** The encrypted bytes and the tag. *)
Definition authenc_encrypt_final (ctx : authenc_ctx) (plain : list Z) : E (list Z * list Z) :=
  _ ← try status;
  match authenc_enc (c_key ctx) (c_iv ctx) (c_aad ctx) plain with
  | None => throw TEE_ERROR_GENERIC
  | Some (crypt, tag) =>
      if negb (Z.of_nat (length crypt) =? Z.of_nat (length plain)) ||
         negb (Z.of_nat (length tag) =? TEE_FS_HTREE_TAG_SIZE)
      then throw TEE_ERROR_GENERIC else mret (crypt, tag)
  end.

(** ** Opening *)

(** C tests bit 0 of both counters; -1 is a corrupt pair of headers. *)
Definition get_idx_from_counter (counter0 counter1 : Z) : Z :=
  if negb (Z.testbit counter0 0) then
    if negb (Z.testbit counter1 0) then 0
    else if counter1 <? counter0 then 0 else 1
  else if Z.testbit counter1 0 then 1 else -1.

(** The loop over the versions of the root when its hash is given. *)
Fixpoint find_root_version (fuel : nat) (hash : list Z) (idx : Z) : E (Z * node_image * htree_image) :=
  match fuel with
  | O => λ _, None
  | S fuel =>
      img ← rpc_read_node 1 idx;
      if bool_decide (n_hash img = hash)
      then h ← rpc_read_head idx; mret (idx, img, h)
      else if negb (idx =? 0) then throw TEE_ERROR_CORRUPT_OBJECT
      else find_root_version fuel hash (idx + 1)
  end.

(** The version, the root node and the head. *)
Definition init_head_from_data (hash : option (list Z)) (min_counter : Z)
  : E (node_image * htree_image) :=
  '(idx, img, h) ←
    (match hash with
     | Some hash => find_root_version 2 hash 0
     | None =>
         h0 ← rpc_read_head 0;
         h1 ← rpc_read_head 1;
         let idx := get_idx_from_counter (h_counter h0) (h_counter h1) in
         if idx <? 0 then throw TEE_ERROR_SECURITY else
         img ← rpc_read_node 1 idx;
         mret (idx, img, if idx =? 0 then h0 else h1)
     end);
  if h_counter h <? min_counter then throw TEE_ERROR_SECURITY else mret (img, h).

(** The loop of [init_tree_from_data], [k] ids from [node_id]. *)
Fixpoint read_tree (k : nat) (node_id : Z) (ht : tee_fs_htree) : E tee_fs_htree :=
  match k with
  | O => mret ht
  | S k =>
      p ← pure (find_node (root ht) (Z.shiftr node_id 1));
      match p with
      | None => throw TEE_ERROR_GENERIC
      | Some p =>
          n ← image_at (root ht) p;
          let committed_version :=
            Z.b2z (has_flag (n_flags (node n)) (HTREE_NODE_COMMITTED_CHILD (Z.land node_id 1))) in
          img ← rpc_read_node node_id committed_version;
          '(ht, nc) ← get_node ht true node_id;
          read_tree k (node_id + 1)
            (with_root (upd_node nc (λ n, mk_node (id n) (dirty n) (block_updated n) img) (root ht)) ht)
      end
  end.

Definition init_tree_from_data (ht : tee_fs_htree) : E tee_fs_htree :=
  read_tree (Z.to_nat (max_node_id (imeta ht) - 1)) 2 ht.

Definition verify_root (ht : tee_fs_htree) : E tee_fs_htree :=
  _ ← try status;
  let ht := with_fek (fek_decrypt (ht_uuid ht) (h_enc_fek (head ht))) ht in
  '(_, ctx) ← authenc_init false ht None;
  plain ← authenc_decrypt_final ctx (h_tag (head ht)) (h_imeta (head ht));
  mret (with_imeta (imeta_of plain) ht).

(** [verify_node] on every node, children first. *)
Fixpoint verify_nodes (meta : option tee_fs_htree_imeta) (t : tree) : E unit :=
  match t with
  | Nil => mret tt
  | Node n l r =>
      _ ← verify_nodes None l;
      _ ← verify_nodes None r;
      digest ← calc_node_hash (node n) meta l r;
      if bool_decide (digest = n_hash (node n)) then mret tt else throw TEE_ERROR_CORRUPT_OBJECT
  end.

Definition verify_tree (ht : tee_fs_htree) : E unit :=
  _ ← try status;
  verify_nodes (Some (imeta ht)) (root ht).

(** The nodes of a fresh tree: the root alone, dirty, with its hash. *)
Definition init_root_node (ht : tee_fs_htree) : E tee_fs_htree :=
  _ ← try status;
  digest ← calc_node_hash zero_image (Some (imeta ht)) Nil Nil;
  let i := mk_image digest (n_iv zero_image) (n_tag zero_image) (n_flags zero_image) in
  mret (with_root (Node (mk_node 1 true false i) Nil Nil) ht).

(** ** Committing *)

(** [htree_sync_node_to_storage] on every node, children first. [parent] is
    the flags of the parent and whether it is dirty, or the counter and the
    metadata for the root; the result is the subtree and what became of the
    parent. *)
Inductive sync_parent :=
| SyncRoot (counter : Z) (meta : tee_fs_htree_imeta)
| SyncChild (flags : Z) (is_dirty : bool).

Definition flags_of (p : sync_parent) (n : htree_node) : htree_node :=
  match p with
  | SyncChild f d => mk_node (id n) d (block_updated n)
      (mk_image (n_hash (node n)) (n_iv (node n)) (n_tag (node n)) f)
  | SyncRoot _ _ => n
  end.

Definition set_hash (h : list Z) (i : node_image) : node_image :=
  mk_image h (n_iv i) (n_tag i) (n_flags i).

Fixpoint sync_nodes (t : tree) (p : sync_parent) : E (tree * sync_parent) :=
  match t with
  | Nil => mret (Nil, p)
  | Node n l r =>
      '(l, pl) ← sync_nodes l (SyncChild (n_flags (node n)) (dirty n));
      let n := flags_of pl n in
      '(r, pr) ← sync_nodes r (SyncChild (n_flags (node n)) (dirty n));
      let n := flags_of pr n in
      _ ← pure (if implb (block_updated n) (dirty n) then Done tt else Panicked 0);
      if negb (dirty n) then mret (Node n l r, p) else
      let '(p, vers, meta) :=
        match p with
        | SyncChild flags _ =>
            let f := HTREE_NODE_COMMITTED_CHILD (Z.land (id n) 1) in
            let flags := Z.lxor flags f in
            (SyncChild flags true, Z.b2z (has_flag flags f), None)
        | SyncRoot counter meta => (p, Z.b2z (negb (Z.testbit counter 0)), Some meta)
        end in
      digest ← calc_node_hash (node n) meta l r;
      let n := mk_node (id n) false false (set_hash digest (node n)) in
      _ ← rpc_write_node (id n) vers (node n);
      mret (Node n l r, p)
  end.

Definition update_root (ht : tee_fs_htree) : E tee_fs_htree :=
  let h := head ht in
  let ht := with_head (mk_head (h_iv h) (h_tag h) (h_enc_fek h) (h_imeta h) (u32 (h_counter h + 1))) ht in
  '(iv, ctx) ← authenc_init true ht None;
  '(crypt, tag) ← authenc_encrypt_final ctx (imeta_bytes (imeta ht));
  mret (with_head (mk_head iv tag (h_enc_fek h) crypt (h_counter (head ht))) ht).

Definition sync_tree (ht : tee_fs_htree) : E (tee_fs_htree * (list Z * Z)) :=
  '(t, _) ← sync_nodes (root ht) (SyncRoot (h_counter (head ht)) (imeta ht));
  ht ← update_root (with_root t ht);
  _ ← rpc_write_head (Z.land (h_counter (head ht)) 1) (head ht);
  let root_hash := match root ht with Nil => [] | Node n _ _ => n_hash (node n) end in
  mret (with_dirty false ht, (root_hash, h_counter (head ht))).

(** Every function with a [struct tee_fs_htree **] closes the tree when it
    fails: [None] is the NULL it leaves behind. The result, [*hash] and
    [*counter] when they are written, and the tree. *)
Definition tee_fs_htree_sync_to_storage (ht_arg : option tee_fs_htree)
  : St eworld (Z * option (list Z * Z) * option tee_fs_htree) :=
  match ht_arg with
  | None => st_ret (TEE_ERROR_CORRUPT_OBJECT, None, None)
  | Some ht =>
      if negb (ht_dirty ht) then st_ret (TEE_SUCCESS, None, Some ht) else
      st_bind status (λ res,
        if negb (res =? TEE_SUCCESS) then st_ret (res, None, Some ht) else
        st_bind (sync_tree ht) (λ r, st_ret
          match r with
          | inl res => (res, None, None)
          | inr (ht, out) => (TEE_SUCCESS, Some out, Some ht)
          end))
  end.

(** The structure after [calloc]. *)
Definition empty_htree (uuid : option (list Z)) : tee_fs_htree :=
  mk_htree (Node (mk_node 0 false false zero_image) Nil Nil) (zero_head 0)
    (bytes TEE_FS_HTREE_FEK_SIZE) (mk_imeta 0 0) false uuid.

(** [tee_fs_htree_open] with [create]: the tree and [*hash] when it is
    written. *)
Definition open_new (min_counter : Z) (ht : tee_fs_htree) : E (tee_fs_htree * option (list Z)) :=
  fek ← try_data (crypto_rng_read TEE_FS_HTREE_FEK_SIZE);
  _ ← try status;
  let ht := with_fek fek ht in
  let ht := with_head (mk_head (h_iv (head ht)) (h_tag (head ht)) (fek_encrypt (ht_uuid ht) fek)
                         (h_imeta (head ht)) (h_counter (head ht))) ht in
  ht ← init_root_node ht;
  '(ht, out) ← st_bind (tee_fs_htree_sync_to_storage (Some (with_dirty true ht)))
    (λ '(res, out, ht'), st_ret
       match ht' with
       | Some ht' => if res =? TEE_SUCCESS then inr (ht', out) else inl res
       | None => inl res
       end);
  _ ← rpc_write_head 0 (zero_head min_counter);
  mret (ht, option_map fst out).

Definition open_existing (hash : option (list Z)) (min_counter : Z) (ht : tee_fs_htree)
  : E tee_fs_htree :=
  '(img, h) ← init_head_from_data hash min_counter;
  let ht := with_head h (with_root (Node (mk_node 1 false false img) Nil Nil) ht) in
  ht ← verify_root ht;
  ht ← init_tree_from_data ht;
  _ ← verify_tree ht;
  mret ht.

(** The result, [*hash] when it is written, and the tree. *)
Definition tee_fs_htree_open (create : bool) (hash : option (list Z)) (min_counter : Z)
    (uuid : option (list Z)) : St eworld (Z * option (list Z) * option tee_fs_htree) :=
  st_bind status (λ res,
    if negb (res =? TEE_SUCCESS) then st_ret (TEE_ERROR_OUT_OF_MEMORY, None, None) else
    st_bind
      (if create then open_new min_counter (empty_htree uuid)
       else ht ← open_existing hash min_counter (empty_htree uuid); mret (ht, None))
      (λ r, st_ret
         match r with
         | inl res => (res, None, None)
         | inr (ht, out) => (TEE_SUCCESS, out, Some ht)
         end)).

(** ** Metadata *)

Definition tee_fs_htree_get_meta (ht : tee_fs_htree) : Z := m_length (imeta ht).

Definition mark_root (t : tree) : tree :=
  match t with
  | Nil => Nil
  | Node n l r => Node (mk_node (id n) true (block_updated n) (node n)) l r
  end.

(** [meta->length = len] and [tee_fs_htree_meta_set_dirty]. *)
Definition tee_fs_htree_meta_set_dirty (len : Z) (ht : tee_fs_htree) : tee_fs_htree :=
  with_dirty true (with_root (mark_root (root ht))
    (with_imeta (mk_imeta len (max_node_id (imeta ht))) ht)).

(** ** Blocks *)

Definition write_block (ht : tee_fs_htree) (block_num : Z) (block : list Z) : E tee_fs_htree :=
  '(ht, nd) ← get_block_node ht true block_num;
  n ← image_at (root ht) nd;
  let i := node n in
  let flags := if block_updated n then n_flags i
               else Z.lxor (n_flags i) HTREE_NODE_COMMITTED_BLOCK in
  let block_vers := Z.b2z (has_flag flags HTREE_NODE_COMMITTED_BLOCK) in
  _ ← try (rpc_write_init TEE_FS_HTREE_TYPE_BLOCK block_num block_vers);
  '(iv, ctx) ← authenc_init true ht (Some (n_iv i));
  '(enc_block, tag) ← authenc_encrypt_final ctx block;
  _ ← try (rpc_write_final TEE_FS_HTREE_TYPE_BLOCK block_num block_vers enc_block);
  mret (with_dirty true
    (with_root (upd_node nd (λ n, mk_node (id n) true true (mk_image (n_hash i) iv tag flags)) (root ht)) ht)).

Definition read_block (ht : tee_fs_htree) (block_num : Z) : E (tee_fs_htree * list Z) :=
  '(ht, nd) ← get_block_node ht false block_num;
  n ← image_at (root ht) nd;
  let i := node n in
  let block_vers := Z.b2z (has_flag (n_flags i) HTREE_NODE_COMMITTED_BLOCK) in
  _ ← try (rpc_read_init TEE_FS_HTREE_TYPE_BLOCK block_num block_vers);
  enc_block ← try_data (rpc_read_final TEE_FS_HTREE_TYPE_BLOCK block_num block_vers);
  if negb (Z.of_nat (length enc_block) =? BLOCK_SIZE) then throw TEE_ERROR_CORRUPT_OBJECT else
  '(_, ctx) ← authenc_init false ht (Some (n_iv i));
  block ← authenc_decrypt_final ctx (n_tag i) enc_block;
  mret (ht, block).

Definition tee_fs_htree_write_block (ht_arg : option tee_fs_htree) (block_num : Z) (block : list Z)
  : St eworld (Z * option tee_fs_htree) :=
  match ht_arg with
  | None => st_ret (TEE_ERROR_CORRUPT_OBJECT, None)
  | Some ht =>
      st_bind (write_block ht block_num block) (λ r, st_ret
        match r with inl res => (res, None) | inr ht => (TEE_SUCCESS, Some ht) end)
  end.

Definition tee_fs_htree_read_block (ht_arg : option tee_fs_htree) (block_num : Z)
  : St eworld (Z * list Z * option tee_fs_htree) :=
  match ht_arg with
  | None => st_ret (TEE_ERROR_CORRUPT_OBJECT, [], None)
  | Some ht =>
      st_bind (read_block ht block_num) (λ r, st_ret
        match r with inl res => (res, [], None) | inr (ht, b) => (TEE_SUCCESS, b, Some ht) end)
  end.

(** Removing the node with the greatest id. *)
Definition remove_last (ht : tee_fs_htree) : outcome tee_fs_htree :=
  let m := max_node_id (imeta ht) in
  nd ← find_closest_node (root ht) m;
  if negb (nd =? m) then Panicked 0 else
  if negb (child_is_null (root ht) nd 0 && child_is_null (root ht) nd 1) then Panicked 0 else
  if nd =? 1 then Panicked 0 else
  Done (with_dirty true (with_imeta (mk_imeta (m_length (imeta ht)) (m - 1))
          (with_root (set_child (Z.shiftr nd 1) (Z.land nd 1) Nil (root ht)) ht))).

(** The loop of [tee_fs_htree_truncate], [k] nodes to remove. *)
Fixpoint remove_nodes (k : nat) (ht : tee_fs_htree) : outcome tee_fs_htree :=
  match k with
  | O => Done ht
  | S k => ht ← remove_last ht; remove_nodes k ht
  end.

Definition tee_fs_htree_truncate (ht_arg : option tee_fs_htree) (block_num : Z)
  : St eworld (Z * option tee_fs_htree) :=
  match ht_arg with
  | None => st_ret (TEE_ERROR_CORRUPT_OBJECT, None)
  | Some ht =>
      let node_id := u64 (block_num + 1) in
      st_bind (run (remove_nodes (Z.to_nat (max_node_id (imeta ht) - node_id)) ht))
        (λ ht, st_ret (TEE_SUCCESS, Some ht))
  end.

End Htree.
