(* ===== verification/HtreeRules.v ===== *)
(** The shape of a hash tree: the nodes [1 .. m] in the positions that their
    binary digits say. Searching, adding and removing nodes keep it, and no
    assertion on the shape fails. Then what the hash tree asks of the
    cryptography, the allocator and the storage of the normal world, and rules
    to show that code on a hash tree ends, with what it leaves in the storage. *)
From S2P Require Import Prelude State Bytes ReeFile Htree.

#[local] Ltac Zify.zify_post_hook ::= Z.div_mod_to_equations.

(** [t] is the part below position [cur] of a tree with the nodes [1 .. m]. *)
Fixpoint shape (m cur : Z) (t : tree) : Prop :=
  match t with
  | Nil => m < cur
  | Node n l r => id n = cur ∧ cur ≤ m ∧ shape m (2 * cur) l ∧ shape m (2 * cur + 1) r
  end.

(** Position [i] is [cur] or below it. *)
Definition below (cur i : Z) : Prop := ∃ k : nat, i / 2 ^ Z.of_nat k = cur.

Lemma below_refl i : below i i.
Proof. exists 0%nat. apply Z.div_1_r. Qed.

Lemma div_pow_succ i (k : nat) : i / 2 ^ Z.of_nat (S k) = i / 2 ^ Z.of_nat k / 2.
Proof.
  rewrite Nat2Z.inj_succ, Z.pow_succ_r, (Z.mul_comm 2) by lia.
  rewrite <- Z.div_div by lia. done.
Qed.

Lemma below_child cur i b : b = 0 ∨ b = 1 → below (2 * cur + b) i → below cur i.
Proof. intros Hb [k E]. exists (S k). rewrite div_pow_succ, E. lia. Qed.

Lemma below_down cur i b : b = 0 ∨ b = 1 → below cur i → below cur (2 * i + b).
Proof.
  intros Hb [k E]. exists (S k). rewrite Nat2Z.inj_succ, Z.pow_succ_r by lia.
  rewrite <- Z.div_div by lia. rewrite <- E. f_equal. lia.
Qed.

Lemma below_cases cur i : 0 < cur → below cur i → i = cur ∨ below (2 * cur) i ∨ below (2 * cur + 1) i.
Proof.
  intros Hc [[|k] E]; [left; by rewrite Z.div_1_r in E|right].
  rewrite div_pow_succ in E.
  destruct (decide (i / 2 ^ Z.of_nat k = 2 * cur)); [left|right]; exists k; lia.
Qed.

Lemma below_le cur i : 0 < cur → below cur i → cur ≤ i.
Proof.
  intros Hc [k E]. pose proof (pow2_pos (Z.of_nat k) ltac:(lia)) as P.
  destruct (decide (0 ≤ i)).
  - rewrite <- E. apply Z.div_le_upper_bound; [lia|]. nia.
  - pose proof (Z.div_lt_upper_bound i (2 ^ Z.of_nat k) 0 P). lia.
Qed.

Lemma div_pow_le x (k : nat) : 0 ≤ x → x / 2 ^ Z.of_nat k ≤ x.
Proof.
  intros. pose proof (pow2_pos (Z.of_nat k) ltac:(lia)).
  apply Z.div_le_upper_bound; [lia|]. nia.
Qed.

(** Nothing is below both children. *)
Lemma below_disjoint cur i : 0 < cur → below (2 * cur) i → ¬ below (2 * cur + 1) i.
Proof.
  intros Hc [a Ea] [b Eb].
  assert (D : ∀ (x y : nat) u v, (x ≤ y)%nat → i / 2 ^ Z.of_nat x = u → i / 2 ^ Z.of_nat y = v →
    0 ≤ u → v = u ∨ v ≤ u / 2).
  { intros x y u v Hxy <- <- Hu. destruct (decide (x = y)) as [->|]; [by left|right].
    replace y with (S (x + (y - x - 1)))%nat by lia. rewrite div_pow_succ.
    apply Z.div_le_mono; [lia|]. rewrite Nat2Z.inj_add, Z.pow_add_r, <- Z.div_div by
      (try lia; apply pow2_pos; lia). by apply div_pow_le. }
  destruct (decide (a ≤ b)%nat).
  - destruct (D a b _ _ ltac:(lia) Ea Eb ltac:(lia)); lia.
  - destruct (D b a _ _ ltac:(lia) Eb Ea ltac:(lia)); lia.
Qed.

(** ** Nodes of a tree *)

Lemma node_at_below m cur t i n :
  0 < cur → shape m cur t → node_at t i = Some n → id n = i ∧ i ≤ m ∧ below cur i.
Proof.
  revert cur; induction t as [|n' l IHl r IHr]; intros cur Hc; simpl; [done|].
  intros (E & Hm & Sl & Sr). destruct (Z.eqb_spec (id n') i) as [Ei|N].
  - intros [= <-]. split_and!; [done|lia|]. assert (i = cur) as -> by lia. apply below_refl.
  - destruct (node_at l i) as [nl|] eqn:El.
    + intros [= <-]. destruct (IHl (2 * cur) ltac:(lia) Sl eq_refl) as (? & ? & B).
      split_and!; [done|done|]. apply (below_child cur i 0); [by left|]. by rewrite Z.add_0_r.
    + intros Er. destruct (IHr (2 * cur + 1) ltac:(lia) Sr Er) as (? & ? & B).
      split_and!; [done|done|]. apply (below_child cur i 1); [by right|done].
Qed.

Lemma node_at_exists m cur t i :
  0 < cur → shape m cur t → below cur i → i ≤ m → is_Some (node_at t i).
Proof.
  revert cur; induction t as [|n l IHl r IHr]; intros cur Hc; simpl.
  - intros Hm B Hi. pose proof (below_le cur i Hc B). lia.
  - intros (E & Hm & Sl & Sr) B Hi. destruct (Z.eqb_spec (id n) i); [done|].
    destruct (below_cases cur i Hc B) as [->|[B'|B']]; [done| |].
    + destruct (IHl (2 * cur) ltac:(lia) Sl B' Hi) as [x ->]. done.
    + destruct (node_at l i); [done|]. by apply (IHr (2 * cur + 1)); [lia|..].
Qed.

Lemma node_at_none m cur t i : 0 < cur → shape m cur t → m < i → node_at t i = None.
Proof.
  intros Hc S Hi. destruct (node_at t i) as [n|] eqn:E; [|done].
  destruct (node_at_below m cur t i n Hc S E) as (_ & ? & _). lia.
Qed.

Lemma below_one i : 0 < i → below 1 i.
Proof.
  intros Hi. exists (Z.to_nat (Z.log2 i)). rewrite Z2Nat.id by apply Z.log2_nonneg.
  pose proof (Z.log2_spec i Hi) as [L U]. rewrite Z.pow_succ_r in U by apply Z.log2_nonneg.
  pose proof (pow2_pos (Z.log2 i) (Z.log2_nonneg i)).
  symmetry. apply (Z.div_unique_pos _ _ _ (i - 2 ^ Z.log2 i)); lia.
Qed.

(** ** Searching *)

(** The search for a position below [cur] that exists ends there; the search
    for the first one that does not ends at its parent. *)
Lemma closest_shape m t : ∀ cur k i,
  0 < cur → shape m cur t → t ≠ Nil → i / 2 ^ Z.of_nat k = cur →
  (i ≤ m → closest k i t = i) ∧ (i = m + 1 → k ≠ 0%nat → closest k i t = i / 2).
Proof.
  induction t as [|n l IHl r IHr]; intros cur k i Hc S Hn E; [done|].
  destruct S as (En & Hm & Sl & Sr). destruct k as [|k]; cbn [closest].
  { rewrite Z.div_1_r in E. split; [lia|done]. }
  set (c := i / 2 ^ Z.of_nat k). rewrite div_pow_succ in E. fold c in E.
  assert (Hbit : Z.testbit i (Z.of_nat k) = Z.odd c).
  { unfold c. rewrite <- Z.shiftr_div_pow2, <- Z.bit0_odd, Z.shiftr_spec by lia. done. }
  rewrite Hbit.
  assert (Hi : 0 ≤ i).
  { destruct (decide (0 ≤ i)); [done|]. pose proof (pow2_pos (Z.of_nat k) ltac:(lia)).
    pose proof (Z.div_lt_upper_bound i (2 ^ Z.of_nat k) 0). unfold c in E. lia. }
  pose proof (div_pow_le i k Hi) as Hci. fold c in Hci.
  assert (Step : ∀ b (child : tree), c = 2 * cur + b → shape m c child →
    (∀ k' i', 0 < c → child ≠ Nil → i' / 2 ^ Z.of_nat k' = c →
      (i' ≤ m → closest k' i' child = i') ∧ (i' = m + 1 → k' ≠ 0%nat → closest k' i' child = i' / 2)) →
    (i ≤ m → (if is_nil child then id n else closest k i child) = i) ∧
    (i = m + 1 → (if is_nil child then id n else closest k i child) = i / 2)).
  { intros b child Eb Sc IH. destruct child as [|nc lc rc]; simpl is_nil; cbv iota.
    - simpl in Sc. split; [lia|]. intros ->. assert (c = m + 1) by lia. lia.
    - destruct (IH k i ltac:(lia) ltac:(done) eq_refl) as [A B]. split; [done|].
      intros Ei. apply B; [done|]. intros ->. unfold c in *. simpl in Sc. rewrite Z.div_1_r in Sc. lia. }
  destruct (Z.odd c) eqn:Od.
  - assert (c = 2 * cur + 1) by (rewrite Zodd_mod in Od; apply Z.eqb_eq in Od; lia).
    destruct (Step 1 r) as [A B]; [done|congruence| |split; auto].
    intros k' i' ? ? ?. by apply (IHr c); [|congruence|..].
  - assert (c = 2 * cur + 0).
    { rewrite <- Z.negb_even in Od. apply negb_false_iff in Od.
      rewrite Zeven_mod in Od. apply Z.eqb_eq in Od. lia. }
    destruct (Step 0 l) as [A B]; [done|by rewrite H, Z.add_0_r| |split; auto].
    intros k' i' ? ? ?. by apply (IHl c); [|rewrite H, Z.add_0_r|..].
Qed.

(** A tree with the nodes [1 .. m]. *)
Definition whole (m : Z) (t : tree) : Prop := 1 ≤ m < UINT32_MAX - 1 ∧ shape m 1 t.

Lemma whole_node m t i : whole m t → 1 ≤ i ≤ m → is_Some (node_at t i).
Proof. intros [? S] Hi. apply (node_at_exists m 1); [lia|done|apply below_one; lia|lia]. Qed.

Lemma whole_none m t i : whole m t → m < i → node_at t i = None.
Proof. intros [? S] Hi. by apply (node_at_none m 1). Qed.

Lemma whole_id m t i n : whole m t → node_at t i = Some n → id n = i ∧ i ≤ m.
Proof. intros [? S] E. by destruct (node_at_below m 1 t i n) as (? & ? & ?). Qed.

Lemma find_closest_whole m t i :
  whole m t → 1 ≤ i ≤ m + 1 →
  find_closest_node t i = Done (if decide (i ≤ m) then i else i / 2).
Proof.
  intros [Hm S] Hi. unfold UINT32_MAX in Hm. unfold find_closest_node, node_id_to_level.
  destruct (Z.eqb_spec i 0); [lia|]. unfold UINT32_MAX.
  destruct (Z.leb_spec (2 ^ 32 - 1) i); [lia|]. simpl. f_equal.
  rewrite u32_id by lia. pose proof (Z.log2_nonneg i).
  assert (Hn : t ≠ Nil) by (intros ->; simpl in S; lia).
  destruct (closest_shape m t 1 (Z.to_nat (Z.log2 i + 1 - 1)) i) as [A B]; [lia|done|done| |].
  { rewrite Z2Nat.id by lia. replace (Z.log2 i + 1 - 1) with (Z.log2 i) by lia.
    pose proof (Z.log2_spec i ltac:(lia)) as [L U]. rewrite Z.pow_succ_r in U by done.
    symmetry. apply (Z.div_unique_pos _ _ _ (i - 2 ^ Z.log2 i)); lia. }
  case_decide; [auto|]. apply B; [lia|]. intros E0.
  pose proof (Z.log2_pos i ltac:(lia)). lia.
Qed.

(** The search always ends at a node of the tree. *)
Lemma closest_in m t : ∀ cur k i,
  0 < cur → shape m cur t → t ≠ Nil → 0 < closest k i t ≤ m.
Proof.
  induction t as [|n l IHl r IHr]; intros cur k i Hc S Hn; [done|].
  destruct S as (E & Hm & Sl & Sr). destruct k as [|k]; cbn [closest]; [lia|].
  destruct (Z.testbit i (Z.of_nat k)); [destruct r|destruct l]; cbn [is_nil]; try lia.
  - by apply (IHr (2 * cur + 1)); [lia|..].
  - by apply (IHl (2 * cur)); [lia|..].
Qed.

Lemma find_closest_any m t i :
  whole m t → 1 ≤ i < UINT32_MAX → ∃ nd, find_closest_node t i = Done nd ∧ 1 ≤ nd ≤ m.
Proof.
  intros [Hm S] Hi. unfold find_closest_node, node_id_to_level, UINT32_MAX in *.
  destruct (Z.eqb_spec i 0); [lia|]. destruct (Z.leb_spec (2 ^ 32 - 1) i); [lia|]. simpl.
  eexists. split; [done|]. assert (Hn : t ≠ Nil) by (intros ->; simpl in S; lia).
  pose proof (closest_in m t 1 (Z.to_nat (Z.log2 (u32 i) + 1 - 1)) i ltac:(lia) S Hn). lia.
Qed.

(** ** Updating a node *)

Definition keeps_id (f : htree_node → htree_node) : Prop := ∀ n, id (f n) = id n.

Lemma shape_upd m f i t : ∀ cur, keeps_id f → shape m cur (upd_node i f t) ↔ shape m cur t.
Proof.
  induction t as [|n l IHl r IHr]; intros cur K; simpl; [done|].
  rewrite IHl, IHr by done. destruct (id n =? i); [by rewrite K|done].
Qed.

Lemma whole_upd m f i t : keeps_id f → whole m t → whole m (upd_node i f t).
Proof. intros K [? S]. split; [done|]. by apply shape_upd. Qed.

Lemma node_at_upd f i t j : keeps_id f →
  node_at (upd_node i f t) j = if decide (j = i) then f <$> node_at t j else node_at t j.
Proof.
  intros K. induction t as [|n l IHl r IHr]; simpl; [by case_decide|].
  rewrite IHl, IHr. destruct (Z.eqb_spec (id n) i) as [Ei|Ni].
  - rewrite K. destruct (Z.eqb_spec (id n) j) as [Ej|Nj].
    + rewrite decide_True by congruence. done.
    + case_decide; [congruence|]. done.
  - destruct (Z.eqb_spec (id n) j) as [Ej|Nj].
    + rewrite decide_False by congruence. done.
    + case_decide; [|done]. by destruct (node_at l j).
Qed.

(** ** Adding the next node *)

Lemma node_at_add p b c t i :
  child_is_null t p b = true → i ≠ id c →
  node_at (set_child p b (Node c Nil Nil) t) i = node_at t i.
Proof.
  intros Hc Hi. induction t as [|n l IHl r IHr]; simpl in *; [done|].
  destruct (Z.eqb_spec (id n) p).
  - destruct (b =? 0); simpl; [destruct l|destruct r]; try done; simpl;
      destruct (Z.eqb_spec (id c) i); try done; by destruct (node_at l i).
  - apply andb_true_iff in Hc as [Hl Hr]. simpl. by rewrite IHl, IHr.
Qed.

Lemma set_child_absent p b c t : node_at t p = None → set_child p b c t = t.
Proof.
  induction t as [|n l IHl r IHr]; simpl; [done|].
  destruct (Z.eqb_spec (id n) p); [done|]. destruct (node_at l p); [done|].
  intros. by rewrite IHl, IHr.
Qed.

Lemma node_at_add_new p b c t n :
  node_at t p = Some n → node_at t (id c) = None →
  node_at (set_child p b (Node c Nil Nil) t) (id c) = Some c.
Proof.
  induction t as [|n' l IHl r IHr]; simpl; [done|].
  destruct (Z.eqb_spec (id n') (id c)); [done|].
  destruct (node_at l (id c)) eqn:El; [done|]. intros Hp Hr.
  destruct (Z.eqb_spec (id n') p).
  - destruct (b =? 0); simpl; rewrite ?El; (destruct (Z.eqb_spec (id n') (id c)); [done|]);
      by rewrite Z.eqb_refl.
  - simpl. destruct (Z.eqb_spec (id n') (id c)); [done|].
    destruct (node_at l p) eqn:Ep; [by rewrite IHl|].
    rewrite (set_child_absent p b _ l), El by done. by apply IHr.
Qed.

(** The children of the last node and the place of the next one. *)
Lemma shape_child_null m t : ∀ cur p b,
  0 < cur → shape m cur t → (b = 0 ∨ b = 1) → m < 2 * p + b → child_is_null t p b = true.
Proof.
  induction t as [|n l IHl r IHr]; intros cur p b Hc S Hb Hm; [done|]. simpl.
  destruct S as (E & Hcm & Sl & Sr). destruct (Z.eqb_spec (id n) p) as [Ep|].
  - destruct Hb as [-> | ->]; simpl; [destruct l|destruct r]; simpl in *; done || lia.
  - by rewrite (IHl (2 * cur)), (IHr (2 * cur + 1)) by (done || lia).
Qed.

Lemma shape_add m c t : ∀ cur,
  id c = m + 1 → 0 < cur → shape m cur t → t ≠ Nil → 1 ≤ m →
  shape (m + 1) cur (set_child ((m + 1) / 2) (Z.land (m + 1) 1) (Node c Nil Nil) t).
Proof.
  intros cur Ec. revert cur.
  assert (Hb : Z.land (m + 1) 1 = (m + 1) mod 2) by by rewrite (Z.land_ones _ 1). rewrite Hb.
  induction t as [|n l IHl r IHr]; intros cur Hc S Hn Hm; [done|].
  destruct S as (E & Hcm & Sl & Sr). simpl.
  assert (Keep : ∀ cur' t', 2 ≤ cur' → shape m cur' t' → cur' = m → shape (m + 1) cur' t').
  { intros cur' [|n' l' r'] ? S' ->; simpl in *; [lia|]. destruct S' as (? & ? & Sl' & Sr').
    split_and!; [done|lia| |]; [destruct l'|destruct r']; simpl in *; lia. }
  assert (Sub : ∀ cur' t', shape m cur' t' → 0 < cur' → cur' ≠ m + 1 →
    (t' ≠ Nil → shape (m + 1) cur' (set_child ((m + 1) / 2) ((m + 1) mod 2) (Node c Nil Nil) t')) →
    shape (m + 1) cur' (set_child ((m + 1) / 2) ((m + 1) mod 2) (Node c Nil Nil) t')).
  { intros cur' [|n' l' r'] S' ? ? IH; [simpl in *; lia|by apply IH]. }
  destruct (Z.eqb_spec (id n) ((m + 1) / 2)) as [Ep|Np].
  - destruct (Z.eqb_spec ((m + 1) mod 2) 0).
    + split_and!; [done|lia|simpl; split_and!; [lia|lia|lia|lia]|].
      destruct r; simpl in *; lia.
    + split_and!; [done|lia| |simpl; split_and!; lia]. apply Keep; [lia|done|lia].
  - split_and!; [done|lia| |]; apply Sub; try done; try lia; intros; [apply IHl|apply IHr]; done || lia.
Qed.

Lemma whole_add m c t :
  whole m t → id c = m + 1 → m + 1 < UINT32_MAX - 1 →
  let t' := set_child ((m + 1) / 2) (Z.land (m + 1) 1) (Node c Nil Nil) t in
  whole (m + 1) t' ∧ ∀ i, node_at t' i = if decide (i = m + 1) then Some c else node_at t i.
Proof.
  intros W Ec Hm t'. pose proof W as [Hm1 S].
  assert (Hn : t ≠ Nil) by (intros ->; simpl in S; lia).
  assert (Hb : Z.land (m + 1) 1 = (m + 1) mod 2) by by rewrite (Z.land_ones _ 1).
  split.
  - split; [lia|]. by apply shape_add; [|lia|..|lia].
  - intros i. unfold t'. case_decide as D.
    + subst i. destruct (whole_node m t ((m + 1) / 2) W ltac:(lia)) as [np Ep].
      pose proof (node_at_add_new _ (Z.land (m + 1) 1) c t np Ep) as N. rewrite Ec in N.
      apply N. apply (whole_none m); [done|lia].
    + apply node_at_add; [|by rewrite Ec]. apply (shape_child_null m t 1); [lia|done|lia|].
      rewrite Hb. lia.
Qed.

(** ** Removing the last node *)

Lemma shape_remove m t : ∀ cur, 0 < cur → shape m cur t → 2 ≤ m → cur ≠ m →
  shape (m - 1) cur (set_child (m / 2) (Z.land m 1) Nil t) ∧
  ∀ i, node_at (set_child (m / 2) (Z.land m 1) Nil t) i = if decide (i = m) then None else node_at t i.
Proof.
  assert (Hb : Z.land m 1 = m mod 2) by by rewrite (Z.land_ones _ 1). rewrite Hb.
  induction t as [|n l IHl r IHr]; intros cur Hc S Hm Hne; simpl.
  { split; [simpl in S; lia|]. intros i. by case_decide. }
  destruct S as (E & Hcm & Sl & Sr). destruct (Z.eqb_spec (id n) (m / 2)) as [Ep|Np].
  - destruct (Z.eqb_spec (m mod 2) 0); (split; [split_and!; [done|lia|..]|]).
    + simpl. lia.
    + destruct r; simpl in *; lia.
    + intros i. simpl. destruct l as [|nl ll lr]; [simpl in Sl; lia|]. simpl in Sl.
      destruct Sl as (El & _ & Sll & Slr). destruct ll; [|simpl in Sll; lia].
      destruct lr; [|simpl in Slr; lia]. simpl.
      destruct (Z.eqb_spec (id n) i); [case_decide; [lia|done]|].
      destruct (Z.eqb_spec (id nl) i); case_decide; try lia; [|done].
      destruct r; [done|simpl in Sr; lia].
    + destruct l as [|nl ll lr]; [simpl in *; lia|]. simpl in Sl. destruct Sl as (El & _ & Sll & Slr).
      split_and!; [done|lia| |]; [destruct ll|destruct lr]; simpl in *; lia.
    + simpl. lia.
    + intros i. simpl. destruct r as [|nr rl rr]; [simpl in Sr; lia|]. simpl in Sr.
      destruct Sr as (Er & _ & Srl & Srr). destruct rl; [|simpl in Srl; lia].
      destruct rr; [|simpl in Srr; lia]. simpl.
      destruct (Z.eqb_spec (id n) i); [case_decide; [lia|done]|].
      case_decide as D.
      * subst i. destruct (node_at l m) as [x|] eqn:Ex; [|done].
        destruct (node_at_below m (2 * cur) l m x ltac:(lia) Sl Ex) as (_ & _ & B).
        exfalso. apply (below_disjoint cur m Hc B). exists 0%nat. rewrite Z.div_1_r. lia.
      * destruct (node_at l i); [done|]. destruct (Z.eqb_spec (id nr) i); [lia|done].
  - assert (2 * cur ≠ m ∧ 2 * cur + 1 ≠ m) by lia.
    destruct (IHl (2 * cur)) as [Sl' Nl]; [lia|done|done|lia|].
    destruct (IHr (2 * cur + 1)) as [Sr' Nr]; [lia|done|done|lia|].
    split; [split_and!; [done|lia|done|done]|]. intros i. simpl. rewrite Nl, Nr.
    destruct (Z.eqb_spec (id n) i); [case_decide; [lia|done]|]. by case_decide.
Qed.

Lemma whole_remove m t :
  whole m t → 2 ≤ m →
  let t' := set_child (m / 2) (Z.land m 1) Nil t in
  whole (m - 1) t' ∧ ∀ i, node_at t' i = if decide (i = m) then None else node_at t i.
Proof.
  intros [? S] Hm. destruct (shape_remove m t 1) as [S' N]; [lia|done|done|lia|].
  split; [split; [lia|done]|done].
Qed.

#[local] Ltac Zify.zify_post_hook ::= Z.div_mod_to_equations.

(** The versions of an element. *)
Definition vers_ok (v : Z) : Prop := v = 0 ∨ v = 1.

Lemma vers_ok_b2z b : vers_ok (Z.b2z b).
Proof. destruct b; [by right|by left]. Qed.

Lemma vers_ok_land z : vers_ok (Z.land z 1).
Proof.
  unfold vers_ok. pose proof (Z.land_ones z 1 ltac:(lia)) as E. change (Z.ones 1) with 1 in E.
  change (2 ^ 1) with 2 in E. rewrite E. lia.
Qed.

Create HintDb vers.
#[export] Hint Resolve vers_ok_b2z vers_ok_land : vers.

(** ** Laws

    [cell w ty idx vers] is what the storage of [w] holds for an element. A
    write changes no other element, and nothing else changes any; reads may
    answer anything, and any call may fail. When [quiet], the storage never
    answers [TEE_ERROR_ITEM_NOT_FOUND], which the directory of the REE file
    system takes for the end of its entries; the cipher, the allocator and the
    random numbers never do. When [faithful], what is written is stored and
    read back. *)
Class HtreeStoreLaws `{HtreeEnv} := {
  cell : eworld → tee_fs_htree_type → Z → Z → option (list Z);
  faithful : Prop;
  quiet : Prop;
  status_ok : ∀ w, wp status w (λ res w', res ≠ TEE_ERROR_ITEM_NOT_FOUND ∧ cell w' = cell w);
  rng_ok : ∀ n w, wp (crypto_rng_read n) w (λ '(res, d) w',
    res ≠ TEE_ERROR_ITEM_NOT_FOUND ∧ cell w' = cell w ∧
    (res = TEE_SUCCESS → 0 ≤ n → Z.of_nat (length d) = n));
  read_init_ok : ∀ ty i v w, vers_ok v → wp (rpc_read_init ty i v) w (λ res w',
    (quiet → res ≠ TEE_ERROR_ITEM_NOT_FOUND) ∧ cell w' = cell w);
  read_final_ok : ∀ ty i v w, vers_ok v → wp (rpc_read_final ty i v) w (λ '(res, d) w',
    (quiet → res ≠ TEE_ERROR_ITEM_NOT_FOUND) ∧ cell w' = cell w ∧
    (faithful → res = TEE_SUCCESS → cell w ty i v = Some d));
  write_init_ok : ∀ ty i v w, vers_ok v → wp (rpc_write_init ty i v) w (λ res w',
    (quiet → res ≠ TEE_ERROR_ITEM_NOT_FOUND) ∧ cell w' = cell w);
  write_final_ok : ∀ ty i v d w, vers_ok v → wp (rpc_write_final ty i v d) w (λ res w',
    (quiet → res ≠ TEE_ERROR_ITEM_NOT_FOUND) ∧
    (∀ ty' i' v', (ty', i', v') ≠ (ty, i, v) → cell w' ty' i' v' = cell w ty' i' v') ∧
    (faithful → res = TEE_SUCCESS → cell w' ty i v = Some d));
}.

(** [plain] is what a run of the cipher means: under one key, iv and additional
    data a tag stands for one message. Tags have 16 bytes, so this is no
    property of AES-GCM for all messages there are, but of the runs in which no
    tag is forged or repeated for another message: a call of the cipher that
    would break it counts as one that fails. [run_enc] and [run_dec] below
    make such functions of any cipher and any log of messages, and are the
    cipher on the messages of a log without forgery. *)
Class CipherLaws `{HtreeEnv} := {
  plain : list Z → list Z → list Z → list Z → list Z;
  enc_plain : ∀ k iv aad p c t, authenc_enc k iv aad p = Some (c, t) → plain k iv aad t = p;
  dec_plain : ∀ k iv aad c t p, authenc_dec k iv aad c t = Some p → plain k iv aad t = p;
}.

Class HtreeEnvLaws `{HtreeEnv} := {
  #[global] store_laws :: HtreeStoreLaws;
  #[global] cipher_laws :: CipherLaws;
}.

(** *** The cipher of a run

    The messages that were sealed or accepted, as key, iv, additional data, tag
    and plain text, and the plain text a log gives for a tag. *)
Definition message : Type := list Z * list Z * list Z * list Z * list Z.

Definition book (log : list message) (k iv aad t : list Z) : list Z :=
  match list_find (λ m : message, m.1 = (k, iv, aad, t)) log with
  | Some (_, m) => m.2
  | None => []
  end.

(** No tag was used for two messages. *)
Definition no_forgery (log : list message) : Prop :=
  ∀ m m', m ∈ log → m' ∈ log → m.1 = m'.1 → m.2 = m'.2.

Lemma book_ok log k iv aad t p :
  no_forgery log → (k, iv, aad, t, p) ∈ log → book log k iv aad t = p.
Proof.
  intros NF I. unfold book.
  destruct (list_find_elem_of (λ m : message, m.1 = (k, iv, aad, t)) log _ I eq_refl) as [[i m] L].
  rewrite L. apply list_find_Some in L as (Em & Ek & _).
  apply (NF m (k, iv, aad, t, p)); [by eapply list_elem_of_lookup_2|done|done].
Qed.

Section Cipher.
Context (enc : list Z → list Z → list Z → list Z → list Z * list Z).
Context (dec : list Z → list Z → list Z → list Z → list Z → option (list Z)).
Context (log : list message).

Definition run_enc (k iv aad p : list Z) : option (list Z * list Z) :=
  let '(c, t) := enc k iv aad p in
  if bool_decide (book log k iv aad t = p) then Some (c, t) else None.

Definition run_dec (k iv aad c t : list Z) : option (list Z) :=
  p ← dec k iv aad c t; if bool_decide (book log k iv aad t = p) then Some p else None.

(** They have the laws of the class, *)
Lemma run_enc_plain k iv aad p c t : run_enc k iv aad p = Some (c, t) → book log k iv aad t = p.
Proof. unfold run_enc. destruct (enc _ _ _ _). case_bool_decide; by intros [= -> ->]. Qed.

Lemma run_dec_plain k iv aad c t p : run_dec k iv aad c t = Some p → book log k iv aad t = p.
Proof.
  unfold run_dec. destruct (dec _ _ _ _ _); [|done]. cbn. case_bool_decide; by intros [= ->].
Qed.

(** and are the cipher on the messages of the log. *)
Lemma run_enc_same k iv aad p c t :
  no_forgery log → (k, iv, aad, t, p) ∈ log → enc k iv aad p = (c, t) →
  run_enc k iv aad p = Some (c, t).
Proof. intros NF I E. unfold run_enc. rewrite E, bool_decide_eq_true_2; [done|by apply book_ok]. Qed.

Lemma run_dec_same k iv aad c t :
  no_forgery log → (∀ p, dec k iv aad c t = Some p → (k, iv, aad, t, p) ∈ log) →
  run_dec k iv aad c t = dec k iv aad c t.
Proof.
  intros NF I. unfold run_dec. destruct (dec _ _ _ _ _) as [p|]; [|done]. cbn.
  rewrite bool_decide_eq_true_2; [done|]. apply book_ok; auto.
Qed.

End Cipher.

(** ** Code that returns a [TEE_Result]

    [K] are elements of the storage that are not to be touched. *)
Section Rules.
Context `{HtreeStoreLaws} (K : tee_fs_htree_type → Z → Z → Prop).

Definition keeps (w w' : eworld) : Prop := ∀ ty i v, K ty i v → cell w' ty i v = cell w ty i v.

Lemma stays_eq w w' : cell w' = cell w → keeps w w'.
Proof. intros E ty i v _. by rewrite E. Qed.

Lemma stays_trans w1 w2 w3 : keeps w1 w2 → keeps w2 w3 → keeps w1 w3.
Proof. intros A B ty i v k. by rewrite B, A. Qed.

(** [m] ends, keeps [K], and either fails or returns a value with [Q]. *)
Definition ends {A} (m : E A) (w : eworld) (Q : A → eworld → Prop) : Prop :=
  wp m w (λ r w', keeps w w' ∧
    match r with
    | inl res => res ≠ TEE_SUCCESS ∧ (quiet → res ≠ TEE_ERROR_ITEM_NOT_FOUND)
    | inr a => Q a w'
    end).

Lemma ends_ret {A} (a : A) w (Q : A → eworld → Prop) : Q a w → ends (e_ret a) w Q.
Proof. intros. apply wp_ret. split; [by apply stays_eq|done]. Qed.

Lemma ends_throw {A} res w (Q : A → eworld → Prop) :
  res ≠ TEE_SUCCESS → res ≠ TEE_ERROR_ITEM_NOT_FOUND → ends (throw res) w Q.
Proof. intros. apply wp_ret. split; [by apply stays_eq|done]. Qed.

Lemma ends_bind {A B} (m : E A) (f : A → E B) w (Q : B → eworld → Prop) :
  ends m w (λ a w', ends (f a) w' Q) → ends (e_bind m f) w Q.
Proof.
  intros W. apply wp_bind. eapply wp_mono; [exact W|]. intros [res|a] w' [Kp R].
  - by apply wp_ret.
  - eapply wp_mono; [exact R|]. intros r w2 [K2 R2]. split; [by eapply stays_trans|done].
Qed.

Lemma ends_mono {A} (m : E A) w (P Q : A → eworld → Prop) :
  ends m w P → (∀ a w', keeps w w' → P a w' → Q a w') → ends m w Q.
Proof. intros W PQ. eapply wp_mono; [exact W|]. intros [res|a] w' [? ?]; auto. Qed.

(** What a call did, as an equation. *)
Lemma ends_run {A} (m : E A) w (P : A → eworld → Prop) :
  ends m w P → ends m w (λ a w', m w = Some (Done (inr a, w')) ∧ P a w').
Proof. intros ([res|a] & w' & Er & Kp & R); eexists _, w'; (split; [exact Er|]); by split. Qed.

(** The same code keeps something else, too. *)
Lemma ends_conj K2 {A} (m : E A) w (P Q : A → eworld → Prop) :
  ends m w P →
  wp m w (λ r w', (∀ ty i v, K2 ty i v → cell w' ty i v = cell w ty i v) ∧
    match r with
    | inl res => res ≠ TEE_SUCCESS ∧ (quiet → res ≠ TEE_ERROR_ITEM_NOT_FOUND)
    | inr a => Q a w'
    end) →
  ends m w (λ a w', P a w' ∧ Q a w' ∧ ∀ ty i v, K2 ty i v → cell w' ty i v = cell w ty i v).
Proof.
  intros W1 W2. eapply wp_mono; [apply wp_conj; [exact W1|exact W2]|].
  intros [res|a] w' [[? ?] [? ?]]; auto.
Qed.

(** Calls. *)
Lemma ends_try m w (Q : unit → eworld → Prop) :
  wp m w (λ res w', (quiet → res ≠ TEE_ERROR_ITEM_NOT_FOUND) ∧ keeps w w' ∧ (res = TEE_SUCCESS → Q tt w')) →
  ends (try m) w Q.
Proof.
  intros W. apply wp_bind. eapply wp_mono; [exact W|]. intros res w' (N & Kp & HQ).
  apply wp_ret. split; [done|]. destruct (Z.eqb_spec res TEE_SUCCESS) as [->|]; auto.
Qed.

Lemma ends_try_data {A} (m : St eworld (Z * A)) w (Q : A → eworld → Prop) :
  wp m w (λ r w', (quiet → r.1 ≠ TEE_ERROR_ITEM_NOT_FOUND) ∧ keeps w w' ∧ (r.1 = TEE_SUCCESS → Q r.2 w')) →
  ends (try_data m) w Q.
Proof.
  intros W. apply wp_bind. eapply wp_mono; [exact W|]. intros r w' (N & Kp & HQ).
  apply wp_ret. split; [done|]. destruct (Z.eqb_spec r.1 TEE_SUCCESS) as [E|]; auto.
Qed.

Lemma ends_pure {A} (o : outcome A) a w (Q : A → eworld → Prop) :
  o = Done a → Q a w → ends (pure o) w Q.
Proof.
  intros -> HQ. apply wp_bind. eapply wp_run; [done|]. apply wp_ret.
  split; [by apply stays_eq|done].
Qed.

Lemma ends_status w (Q : unit → eworld → Prop) :
  (∀ w', cell w' = cell w → Q tt w') → ends (try status) w Q.
Proof.
  intros HQ. apply ends_try. eapply wp_mono; [apply status_ok|]. intros res w' [N C].
  split_and!; [done|by apply stays_eq|auto].
Qed.

Lemma ends_calloc w (Q : unit → eworld → Prop) :
  (∀ w', cell w' = cell w → Q tt w') → ends calloc w Q.
Proof.
  intros HQ. apply wp_bind. eapply wp_mono; [apply status_ok|]. intros res w' [N C].
  apply wp_ret. split; [by apply stays_eq|]. destruct (res =? TEE_SUCCESS); auto.
Qed.

Lemma ends_read_init ty i v w (Q : unit → eworld → Prop) :
  vers_ok v → (∀ w', cell w' = cell w → Q tt w') → ends (try (rpc_read_init ty i v)) w Q.
Proof.
  intros Hv HQ. apply ends_try. eapply wp_mono; [by apply read_init_ok|]. intros res w' [N C].
  split_and!; [done|by apply stays_eq|auto].
Qed.

Lemma ends_write_init ty i v w (Q : unit → eworld → Prop) :
  vers_ok v → (∀ w', cell w' = cell w → Q tt w') → ends (try (rpc_write_init ty i v)) w Q.
Proof.
  intros Hv HQ. apply ends_try. eapply wp_mono; [by apply write_init_ok|]. intros res w' [N C].
  split_and!; [done|by apply stays_eq|auto].
Qed.

Lemma ends_read_final ty i v w (Q : list Z → eworld → Prop) :
  vers_ok v → (∀ d w', cell w' = cell w → (faithful → cell w ty i v = Some d) → Q d w') →
  ends (try_data (rpc_read_final ty i v)) w Q.
Proof.
  intros Hv HQ. apply ends_try_data. eapply wp_mono; [by apply read_final_ok|].
  intros [res d] w' (N & C & R). split_and!; [done|by apply stays_eq|auto].
Qed.

(** A write that does not touch [K]. *)
Lemma ends_write_final ty i v d w (Q : unit → eworld → Prop) :
  vers_ok v → ¬ K ty i v →
  (∀ w', (∀ ty' i' v', (ty', i', v') ≠ (ty, i, v) → cell w' ty' i' v' = cell w ty' i' v') →
     (faithful → cell w' ty i v = Some d) → Q tt w') →
  ends (try (rpc_write_final ty i v d)) w Q.
Proof.
  intros Hv HK HQ. apply ends_try. eapply wp_mono; [by apply write_final_ok|]. intros res w' (N & C & S).
  split_and!; [done| |auto]. intros ty' i' v' k. apply C. congruence.
Qed.

Lemma ends_rng n w (Q : list Z → eworld → Prop) :
  0 ≤ n → (∀ d w', Z.of_nat (length d) = n → cell w' = cell w → Q d w') →
  ends (try_data (crypto_rng_read n)) w Q.
Proof.
  intros Hn HQ. apply ends_try_data. eapply wp_mono; [apply rng_ok|]. intros [res d] w' (N & C & L).
  split_and!; [done|by apply stays_eq|]. simpl. intros Es. apply HQ; auto.
Qed.

End Rules.

(** The world after a call. *)
Ltac call_world :=
  let w := fresh "wx" in let C := fresh "Cx" in intros w C.

(** One step through code of the hash tree. *)
Ltac e_step :=
  cbv beta; cbn [negb orb];
  lazymatch goal with
  | |- ends _ (mbind _ _) _ _ => apply ends_bind
  | |- ends _ (e_bind _ _) _ _ => apply ends_bind
  | |- ends _ (mret _) _ _ => apply ends_ret
  | |- ends _ (e_ret _) _ _ => apply ends_ret
  | |- ends _ (throw _) _ _ => apply ends_throw; [done|done]
  | |- ends _ (try status) _ _ => apply ends_status; call_world
  | |- ends _ calloc _ _ => apply ends_calloc; call_world
  | |- ends _ (try (rpc_read_init _ _ _)) _ _ => apply ends_read_init; [auto with vers|call_world]
  | |- ends _ (try (rpc_write_init _ _ _)) _ _ => apply ends_write_init; [auto with vers|call_world]
  | |- ends _ (try_data (rpc_read_final _ _ _)) _ _ => apply ends_read_final; [auto with vers|intros ?; call_world; intros ?]
  | |- ends _ (try_data (crypto_rng_read _)) _ _ => apply ends_rng; [by vm_compute|]; (let d := fresh "d" in intros d); (let w := fresh "wx" in intros w); intros ? ?
  end; cbv beta.

(** ** Cryptography *)

Definition child_hash (c : tree) : list Z := match c with Nil => [] | Node n _ _ => n_hash (node n) end.

(** What [calc_node_hash] hashes. *)
Definition hash_input (i : node_image) (meta : option tee_fs_htree_imeta) (l r : tree) : list Z :=
  ndata i ++ (match meta with Some m => meta_bytes m | None => [] end) ++ child_hash l ++ child_hash r.

(** The context [authenc_init] prepares for an iv. *)
Definition ctx_of (ht : tee_fs_htree) (ni : option (list Z)) (iv : list Z) : authenc_ctx :=
  mk_ctx (fek ht) iv
    ((match ni with
      | Some _ => []
      | None => take (Z.to_nat TEE_FS_HTREE_FEK_SIZE) (child_hash (root ht)) ++
                le_bytes 4 (h_counter (head ht))
      end) ++ h_enc_fek (head ht) ++ iv).

Section Crypto.
Context `{HtreeStoreLaws} (K : tee_fs_htree_type → Z → Z → Prop).

Ltac same_cells := repeat match goal with E : cell ?w' = cell _ |- _ => rewrite E in *; clear E end.

Lemma ends_calc_node_hash i meta l r w (Q : list Z → eworld → Prop) :
  (∀ w', cell w' = cell w → Q (sha256 (hash_input i meta l r)) w') →
  ends K (calc_node_hash i meta l r) w Q.
Proof.
  intros HQ. unfold calc_node_hash. repeat e_step.
  destruct meta; repeat e_step; destruct l, r; cbn [is_nil]; repeat e_step; apply HQ; congruence.
Qed.

Lemma ends_authenc_init encrypt ht ni w (Q : list Z * authenc_ctx → eworld → Prop) :
  (∀ iv w', cell w' = cell w →
     (if encrypt : bool then Z.of_nat (length iv) = TEE_FS_HTREE_IV_SIZE
      else iv = match ni with Some iv => iv | None => h_iv (head ht) end) →
     Q (iv, ctx_of ht ni iv) w') →
  ends K (authenc_init encrypt ht ni) w Q.
Proof.
  intros HQ. unfold authenc_init. destruct encrypt, ni; repeat e_step;
    (apply HQ; [congruence|done]).
Qed.

Lemma ends_decrypt_final ctx tag crypt w (Q : list Z → eworld → Prop) :
  (∀ p w', cell w' = cell w → authenc_dec (c_key ctx) (c_iv ctx) (c_aad ctx) crypt tag = Some p →
     length p = length crypt → Q p w') →
  ends K (authenc_decrypt_final ctx tag crypt) w Q.
Proof.
  intros HQ. unfold authenc_decrypt_final. e_step. apply wp_bind.
  eapply wp_mono; [apply status_ok|]. intros r w' [N C]. apply wp_ret.
  split; [by apply stays_eq|]. cbv beta iota. destruct (Z.eqb_spec r TEE_SUCCESS); cbn [negb].
  - destruct (authenc_dec _ _ _ _ _) as [p|] eqn:Ed; [|e_step].
    destruct (Z.eqb_spec (Z.of_nat (length p)) (Z.of_nat (length crypt))); [|e_step].
    cbn [negb]. e_step. apply HQ; [done|done|lia].
  - destruct (Z.eqb_spec r TEE_ERROR_MAC_INVALID); apply ends_throw; done.
Qed.

Lemma ends_encrypt_final ctx plain w (Q : list Z * list Z → eworld → Prop) :
  (∀ c t w', cell w' = cell w →
     authenc_enc (c_key ctx) (c_iv ctx) (c_aad ctx) plain = Some (c, t) →
     length c = length plain → length t = 16%nat → Q (c, t) w') →
  ends K (authenc_encrypt_final ctx plain) w Q.
Proof.
  intros HQ. unfold authenc_encrypt_final. do 2 e_step.
  destruct (authenc_enc _ _ _ _) as [[c t]|] eqn:Ee; [|e_step].
  destruct (Z.eqb_spec (Z.of_nat (length c)) (Z.of_nat (length plain))); [|e_step].
  destruct (Z.eqb_spec (Z.of_nat (length t)) TEE_FS_HTREE_TAG_SIZE) as [Lt|]; [|e_step].
  cbn [negb orb]. e_step. unfold TEE_FS_HTREE_TAG_SIZE in Lt. apply HQ; [done|done|lia|lia].
Qed.

(** ** Storage *)

Lemma ends_rpc_read ty i v dlen w (Q : list Z → eworld → Prop) :
  vers_ok v →
  (∀ d w', cell w' = cell w → Z.of_nat (length d) = dlen →
     (faithful → cell w ty i v = Some d) → Q d w') →
  ends K (rpc_read ty i v dlen) w Q.
Proof.
  intros Hv HQ. unfold rpc_read. do 3 e_step. apply ends_read_final; [done|]. intros d w' C R.
  destruct (Z.eqb_spec (Z.of_nat (length d)) dlen); [|e_step]. e_step.
  apply HQ; [congruence|done|]. by rewrite <- Cx.
Qed.

Lemma ends_rpc_write ty i v d w (Q : unit → eworld → Prop) :
  vers_ok v → ¬ K ty i v →
  (∀ w', (∀ ty' i' v', (ty', i', v') ≠ (ty, i, v) → cell w' ty' i' v' = cell w ty' i' v') →
     (faithful → cell w' ty i v = Some d) → Q tt w') →
  ends K (rpc_write ty i v d) w Q.
Proof.
  intros Hv HK HQ. unfold rpc_write. do 2 e_step. apply ends_write_final; [done|done|].
  intros w' C S. apply HQ; [|done]. intros. rewrite C by done. congruence.
Qed.

(** ** Nodes *)

Lemma ends_image_at t m i w (Q : htree_node → eworld → Prop) :
  whole m t → 1 ≤ i ≤ m →
  (∀ n, node_at t i = Some n → id n = i → Q n w) → ends K (image_at t i) w Q.
Proof.
  intros W Hi HQ. destruct (whole_node m t i W Hi) as [n En].
  eapply ends_pure; [by rewrite En|]. apply HQ; [done|by apply (whole_id m t)].
Qed.

(** How many nodes there are: the root is there before it is counted. *)
Definition nodes (ht : tee_fs_htree) : Z := Z.max 1 (max_node_id (imeta ht)).

(** A handle of well-formed tree. *)
Definition formed (ht : tee_fs_htree) : Prop :=
  whole (nodes ht) (root ht) ∧ 0 ≤ max_node_id (imeta ht).

(** The trees that differ by one more node, [i]. *)
Definition with_node (i : Z) (ht ht' : tee_fs_htree) : Prop :=
  formed ht' ∧ nodes ht' = Z.max (nodes ht) i ∧
  (∀ j, node_at (root ht') j =
     if decide (nodes ht < i ∧ j = i) then Some (new_node i) else node_at (root ht) j) ∧
  head ht' = head ht ∧ fek ht' = fek ht ∧ m_length (imeta ht') = m_length (imeta ht) ∧
  ht_uuid ht' = ht_uuid ht ∧ ht_dirty ht' = ht_dirty ht.

Lemma with_node_refl i ht : formed ht → 1 ≤ i ≤ nodes ht → with_node i ht ht.
Proof.
  intros F Hi. split_and!; try done; [lia|]. intros j. rewrite decide_False by lia. done.
Qed.

(** The tree with one more node. *)
Definition grown (m : Z) (t : tree) : tree :=
  set_child ((m + 1) / 2) (Z.land (m + 1) 1) (Node (new_node (m + 1)) Nil Nil) t.

Lemma ends_add_nodes m t w (Q : tree * Z → eworld → Prop) : ∀ k n nd,
  whole m t → m + 1 < UINT32_MAX - 1 → 1 ≤ n → n + Z.of_nat (S k) = m + 2 →
  (∀ w', cell w' = cell w → Q (grown m t, m + 1) w') → ends K (add_nodes (S k) n t nd) w Q.
Proof.
  induction k as [|k IH]; intros n nd W Hm Hn Hk HQ; cbn [add_nodes]; e_step;
    (eapply ends_pure; [apply (find_closest_whole m); [done|lia]|]); pose proof W as [Wm S].
  - assert (n = m + 1) as -> by lia. rewrite decide_False by lia.
    destruct (Z.eqb_spec ((m + 1) / 2) (m + 1)); [lia|]. e_step.
    eapply ends_pure; [rewrite Z.shiftr_div_pow2 by lia; change (2 ^ 1) with 2; by rewrite Z.eqb_refl|].
    assert (Hb : Z.land (m + 1) 1 = (m + 1) mod 2) by by rewrite (Z.land_ones _ 1).
    e_step. eapply ends_pure; [rewrite (shape_child_null m t 1); [done|lia|done|lia|lia]|].
    do 3 e_step. by apply HQ.
  - rewrite decide_True by lia. rewrite Z.eqb_refl. apply (IH (n + 1) n); [done|done|lia|lia|done].
Qed.

(** [get_node] of the node after the last one. *)
Lemma ends_grow m ht w (Q : tee_fs_htree * Z → eworld → Prop) :
  whole m (root ht) → m + 1 < UINT32_MAX - 1 →
  (∀ w', cell w' = cell w →
     Q (with_imeta (if max_node_id (imeta ht) <? m + 1 then mk_imeta (m_length (imeta ht)) (m + 1)
                    else imeta ht) (with_root (grown m (root ht)) ht), m + 1) w') →
  ends K (get_node ht true (m + 1)) w Q.
Proof.
  intros W Hlim HQ. pose proof W as [Wm _]. unfold get_node. e_step.
  eapply ends_pure; [apply (find_closest_whole m); [done|lia]|]. rewrite decide_False by lia.
  destruct (Z.eqb_spec ((m + 1) / 2) (m + 1)); [lia|]. e_step.
  destruct (Z.to_nat (m + 1 - (m + 1) / 2)) as [|k] eqn:Ek; [lia|].
  apply (ends_add_nodes m); [done|lia|lia|lia|]. intros w' C. e_step.
  unfold UINT32_MAX in *. rewrite u32_id by lia. by apply HQ.
Qed.

Lemma ends_find_present m ht create i w (Q : tee_fs_htree * Z → eworld → Prop) :
  whole m (root ht) → 1 ≤ i ≤ m → Q (ht, i) w → ends K (get_node ht create i) w Q.
Proof.
  intros W Hi HQ. unfold get_node. e_step.
  eapply ends_pure; [apply (find_closest_whole m); [done|lia]|].
  rewrite decide_True, Z.eqb_refl by lia. by e_step.
Qed.

(** [get_node] of a node of the tree, or of the next one. *)
Lemma ends_get_node ht create i w (Q : tee_fs_htree * Z → eworld → Prop) :
  formed ht → 1 ≤ i ≤ nodes ht ∨ create = true ∧ i = nodes ht + 1 ∧ i < UINT32_MAX - 1 →
  (∀ ht' w', cell w' = cell w → with_node i ht ht' → Q (ht', i) w') →
  ends K (get_node ht create i) w Q.
Proof.
  intros F [Hi|(-> & -> & Hlim)] HQ; pose proof F as [W Hm].
  { apply (ends_find_present (nodes ht)); [done|lia|]. apply HQ; [done|].
    apply with_node_refl; [done|lia]. }
  apply ends_grow; [done|done|]. intros w' C. apply HQ; [done|]. set (m := nodes ht) in *.
  destruct (whole_add m (new_node (m + 1)) (root ht) W eq_refl Hlim) as [W' N].
  destruct (Z.ltb_spec (max_node_id (imeta ht)) (m + 1)); [|unfold m, nodes in *; lia].
  assert (Em : nodes (with_imeta (mk_imeta (m_length (imeta ht)) (m + 1))
    (with_root (grown m (root ht)) ht)) = m + 1) by (unfold m, nodes; simpl; lia).
  split_and!; try done.
  - split; [by rewrite Em|]. simpl. unfold m, nodes. lia.
  - rewrite Em. unfold m, nodes. lia.
  - intros j. simpl. unfold grown. rewrite N. unfold m, nodes. repeat case_decide; done || lia.
Qed.

(** [get_node] for reading. *)
Lemma ends_find_node ht i w (Q : tee_fs_htree * Z → eworld → Prop) :
  formed ht → 1 ≤ i < UINT32_MAX → (i ≤ nodes ht → Q (ht, i) w) →
  ends K (get_node ht false i) w Q.
Proof.
  intros [W _] Hi HQ. destruct (find_closest_any (nodes ht) (root ht) i W Hi) as (nd & E & R).
  unfold get_node. e_step. eapply ends_pure; [exact E|]. destruct (Z.eqb_spec nd i).
  - subst nd. e_step. apply HQ. lia.
  - e_step.
Qed.

End Crypto.
