(* ===== verification/HtreeBlocks.v ===== *)
(** Blocks of a hash tree: reading, writing and truncating the blocks of an
    open tree of core/tee/fs_htree.c does what the files of
    core/tee/tee_ree_fs.c expect of it, whatever the storage of the normal
    world answers. *)
From S2P Require Import Prelude State Bytes ReeFile ReeFileProofs Htree HtreeRules.

(** The calls of core/tee/tee_ree_fs.c that the hash tree does not know. *)
Class FileEnv `{HtreeEnv} := {
  file_rpc_truncate : Z → St eworld Z;
  mempool_alloc : St eworld bool;
  user_copy_from : Z → Z → St eworld (Z * list Z);
  user_copy_to : Z → list Z → St eworld Z;
}.

Class FileEnvLaws `{FileEnv} := {
  file_rpc_truncate_ok : ∀ n w, wp (file_rpc_truncate n) w (λ _ _, True);
  mempool_alloc_ok : ∀ w, wp mempool_alloc w (λ _ _, True);
  user_copy_from_ok : ∀ a n w, 0 ≤ n →
    wp (user_copy_from a n) w (λ '(res, d) _, res = TEE_SUCCESS → Z.of_nat (length d) = n);
  user_copy_to_ok : ∀ a d w, wp (user_copy_to a d) w (λ _ _, True);
}.

#[global] Instance fs_htree `{FileEnv} : HtreeOps := {|
  hworld := eworld;
  htree := tee_fs_htree;
  ht_length := tee_fs_htree_get_meta;
  ht_set_length := tee_fs_htree_meta_set_dirty;
  ht_read_block := λ n t, tee_fs_htree_read_block (Some t) n;
  ht_write_block := λ n b t, tee_fs_htree_write_block (Some t) n b;
  ht_truncate := λ n t, tee_fs_htree_truncate (Some t) n;
  rpc_truncate := file_rpc_truncate;
  pool_alloc := mempool_alloc;
  copy_from_user := user_copy_from;
  copy_to_user := user_copy_to;
|}.

Section Blocks.
Context `{HtreeEnvLaws}.

(** No element of the storage is claimed here. *)
Abbreviation ends' := (ends (λ _ _ _, False)).

(** The data of the block of a node. *)
Definition node_data (ht : tee_fs_htree) (n : htree_node) : list Z :=
  plain (fek ht) (n_iv (node n)) (h_enc_fek (head ht) ++ n_iv (node n)) (n_tag (node n)).

Definition tree_data (ht : tee_fs_htree) (n : Z) : option (list Z) :=
  node_data ht <$> node_at (root ht) (n + 1).

Lemma tree_data_ext ht ht' n :
  head ht' = head ht → fek ht' = fek ht →
  node <$> node_at (root ht') (n + 1) = node <$> node_at (root ht) (n + 1) →
  tree_data ht' n = tree_data ht n.
Proof.
  intros Eh Ef En. unfold tree_data, node_data. rewrite Eh, Ef.
  destruct (node_at (root ht') _), (node_at (root ht) _); simplify_eq/=; [|done].
  by rewrite En.
Qed.

Lemma tree_data_some ht n : formed ht → tree_data ht n ≠ None → n + 1 ≤ nodes ht.
Proof.
  intros [W _] D. destruct (decide (n + 1 ≤ nodes ht)); [done|].
  unfold tree_data in D. rewrite (whole_none (nodes ht)) in D by (done || lia). done.
Qed.

(** ** Reading *)

Lemma read_block_spec ht n w :
  formed ht → 0 ≤ n < 2 ^ 20 →
  ends' (read_block ht n) w (λ '(ht', b) _,
    ht' = ht ∧ tree_data ht n = Some b ∧ Z.of_nat (length b) = BLOCK_SIZE).
Proof.
  intros F Hn. unfold read_block, get_block_node. rewrite u64_id by lia. e_step.
  apply ends_find_node; [done|unfold UINT32_MAX; lia|]. intros Hle. e_step.
  apply (ends_image_at _ _ (nodes ht)); [apply F|lia|]. intros nd End _. do 3 e_step.
  apply ends_read_final; [auto with vers|]. intros enc w1 _ _.
  destruct (Z.eqb_spec (Z.of_nat (length enc)) BLOCK_SIZE) as [L|]; [|e_step]. e_step.
  apply ends_authenc_init. intros iv w2 _ ->. e_step. apply ends_decrypt_final.
  intros p w3 _ Ed Lp. e_step. split_and!; [done| |lia].
  unfold tree_data. rewrite End. simpl. f_equal. by eapply dec_plain.
Qed.

(** ** Writing *)

(** The flags of a node whose block is written, and the tree afterwards. *)
Definition block_flags (nd : htree_node) : Z :=
  if block_updated nd then n_flags (node nd)
  else Z.lxor (n_flags (node nd)) HTREE_NODE_COMMITTED_BLOCK.

Definition put_block (ht : tee_fs_htree) (nd : htree_node) (i : Z) (iv tag : list Z) : tee_fs_htree :=
  with_dirty true (with_root (upd_node i (λ n, mk_node (id n) true true
    (mk_image (n_hash (node nd)) iv tag (block_flags nd))) (root ht)) ht).

Lemma ends_write_block K ht n b w (Q : tee_fs_htree → eworld → Prop) :
  formed ht → 0 ≤ n < 2 ^ 20 → n ≤ nodes ht →
  (∀ ht1 nd, with_node (n + 1) ht ht1 → node_at (root ht1) (n + 1) = Some nd →
     ¬ K TEE_FS_HTREE_TYPE_BLOCK n
         (Z.b2z (has_flag (block_flags nd) HTREE_NODE_COMMITTED_BLOCK)) ∧
     ∀ iv c t w', Z.of_nat (length iv) = TEE_FS_HTREE_IV_SIZE → length t = 16%nat →
       authenc_enc (fek ht) iv (h_enc_fek (head ht) ++ iv) b = Some (c, t) →
       Q (put_block ht1 nd (n + 1) iv t) w') →
  ends K (write_block ht n b) w Q.
Proof.
  intros F Hn Hle HQ. unfold write_block, get_block_node. rewrite u64_id by lia. e_step.
  apply ends_get_node; [done|unfold UINT32_MAX; pose proof F as [[? _] _]; lia|].
  intros ht1 w1 _ Wn. pose proof Wn as (F1 & Hn1 & _ & Eh & Ef & _). e_step.
  apply (ends_image_at _ _ (nodes ht1)); [apply F1|lia|]. intros nd End _. e_step.
  destruct (HQ ht1 nd Wn End) as [HK HQ'].
  do 2 e_step. apply ends_authenc_init. intros iv w3 _ Liv. e_step. apply ends_encrypt_final.
  intros c t w4 _ Ec _ Lt. e_step. apply ends_write_final; [auto with vers|done|]. intros w5 _ _. e_step.
  apply (HQ' iv c t w5 Liv Lt). by rewrite <- Eh, <- Ef.
Qed.

(** A block that is written changes one node. *)
Lemma node_at_put ht ht1 nd i iv tag j :
  formed ht → with_node i ht ht1 → node_at (root ht1) i = Some nd →
  node_at (root (put_block ht1 nd i iv tag)) j =
  if decide (j = i)
  then Some (mk_node i true true (mk_image (n_hash (node nd)) iv tag (block_flags nd)))
  else node_at (root ht) j.
Proof.
  intros F (F1 & _ & N & _) End. cbn [root put_block with_root with_dirty].
  rewrite node_at_upd by done. destruct (decide (j = i)) as [->|D].
  - rewrite End. simpl. by destruct (whole_id _ _ _ _ (proj1 F1) End) as [-> _].
  - rewrite N, decide_False by tauto. done.
Qed.

Lemma formed_put ht1 nd i iv tag : formed ht1 → formed (put_block ht1 nd i iv tag).
Proof. intros [W M]. split; [by apply whole_upd|done]. Qed.

(** A node whose block is to be committed is to be written itself, and the
    hash of a node has its size. *)
Definition node_ok (n : htree_node) : Prop :=
  (block_updated n = true → dirty n = true) ∧ length (n_hash (node n)) = 32%nat.

Definition marked (ht : tee_fs_htree) : Prop := ∀ i n, node_at (root ht) i = Some n → node_ok n.

Lemma write_block_spec ht n b w :
  formed ht → 0 ≤ n < 2 ^ 20 → n ≤ nodes ht →
  ends' (write_block ht n b) w (λ ht' _,
    formed ht' ∧ (marked ht → marked ht') ∧ m_length (imeta ht') = m_length (imeta ht) ∧
    ∀ m, tree_data ht' m = if decide (m = n) then Some b else tree_data ht m).
Proof.
  intros F Hn Hle. apply ends_write_block; [done|done|done|]. intros ht1 nd Wn End.
  split; [by intros []|]. intros iv c t w' _ _ Ec.
  pose proof Wn as (F1 & _ & _ & Eh & Ef & El & _). split_and!; [by apply formed_put| |done|].
  { intros M i x. rewrite (node_at_put ht) by done. case_decide; [|apply M].
    intros [= <-]. split; [done|]. simpl. destruct Wn as (_ & _ & N & _). rewrite N in End.
    case_decide; simplify_eq; [done|]. by apply (M _ _ End). }
  intros m. unfold tree_data, node_data. rewrite (node_at_put ht) by done.
  destruct (decide (m = n)) as [->|Nm].
  - rewrite decide_True by done. simpl. rewrite Ef, Eh. f_equal. by eapply enc_plain.
  - rewrite decide_False by lia. simpl. by rewrite Eh, Ef.
Qed.

(** ** Truncating *)

Lemma remove_last_spec ht :
  formed ht → 2 ≤ max_node_id (imeta ht) →
  ∃ ht', remove_last ht = Done ht' ∧ formed ht' ∧ nodes ht' = nodes ht - 1 ∧
    max_node_id (imeta ht') = max_node_id (imeta ht) - 1 ∧
    head ht' = head ht ∧ fek ht' = fek ht ∧ m_length (imeta ht') = m_length (imeta ht) ∧
    ∀ j, node_at (root ht') j = if decide (j = nodes ht) then None else node_at (root ht) j.
Proof.
  intros F Hm. pose proof F as [W M]. pose proof W as [Wm S]. unfold nodes in *.
  rewrite Z.max_r in * by lia. set (m := max_node_id (imeta ht)) in *.
  unfold remove_last. fold m. rewrite (find_closest_whole m) by (done || lia).
  rewrite decide_True by lia. simpl. rewrite Z.eqb_refl. cbn [negb].
  rewrite !(shape_child_null m _ 1) by (done || lia). cbn [negb andb].
  destruct (Z.eqb_spec m 1); [lia|].
  destruct (whole_remove m (root ht) W Hm) as [W' N].
  eexists. split; [done|]. rewrite Z.shiftr_div_pow2 by lia. change (2 ^ 1) with 2. simpl.
  split_and!; try done; [|lia]. split; simpl; [|lia]. unfold nodes. simpl. by rewrite Z.max_r by lia.
Qed.

Lemma remove_nodes_spec k : ∀ ht,
  formed ht → Z.of_nat k < nodes ht →
  ∃ ht', remove_nodes k ht = Done ht' ∧ formed ht' ∧ nodes ht' = nodes ht - Z.of_nat k ∧
    head ht' = head ht ∧ fek ht' = fek ht ∧ m_length (imeta ht') = m_length (imeta ht) ∧
    ∀ j, j ≤ nodes ht - Z.of_nat k → node_at (root ht') j = node_at (root ht) j.
Proof.
  induction k as [|k IH]; intros ht F Hk; simpl.
  - eexists. split; [done|]. split_and!; intros; first [done|lia].
  - destruct (remove_last_spec ht F) as (h1 & -> & F1 & N1 & _ & E1 & K1 & L1 & A1);
      [unfold nodes in Hk; lia|].
    destruct (IH h1 F1 ltac:(lia)) as (h2 & R & F2 & N2 & E2 & K2 & L2 & A2).
    exists h2. simpl. split; [done|]. split_and!; try congruence; try lia.
    intros j Hj. rewrite A2, A1 by lia. by rewrite decide_False by lia.
Qed.

Lemma truncate_spec ht n w :
  formed ht → 0 ≤ n < 2 ^ 20 →
  wp (tee_fs_htree_truncate (Some ht) n) w (λ '(res, t') w', w' = w ∧ res = TEE_SUCCESS ∧
    ∃ ht', t' = Some ht' ∧ formed ht' ∧ nodes ht' = Z.min (nodes ht) (n + 1) ∧
      head ht' = head ht ∧ fek ht' = fek ht ∧ m_length (imeta ht') = m_length (imeta ht) ∧
      ∀ j, j ≤ n + 1 → node_at (root ht') j = node_at (root ht) j).
Proof.
  intros F Hn. unfold tee_fs_htree_truncate. rewrite u64_id by lia.
  set (k := Z.to_nat (max_node_id (imeta ht) - (n + 1))). pose proof F as [_ M].
  destruct (remove_nodes_spec k ht F) as (ht' & R & F' & N & E1 & K1 & L & A);
    [unfold k, nodes; lia|].
  apply wp_bind. eapply wp_run; [exact R|]. apply wp_ret. split_and!; [done|done|].
  exists ht'. split_and!; try done; [unfold k, nodes in *; lia|].
  intros j Hj. destruct (decide (j ≤ nodes ht - Z.of_nat k)); [by apply A|].
  rewrite (whole_none (nodes ht')), (whole_none (nodes ht)); 
    [done|apply F|unfold k, nodes in *; lia|apply F'|lia].
Qed.

(** ** Metadata *)

Lemma set_dirty_spec ht n :
  formed ht → let ht' := tee_fs_htree_meta_set_dirty n ht in
  formed ht' ∧ (marked ht → marked ht') ∧ m_length (imeta ht') = n ∧
  ∀ m, tree_data ht' m = tree_data ht m.
Proof.
  intros [W M] ht'. split_and!; [split; [|done]| |done|].
  - destruct (root ht) as [|nd l r] eqn:Er; unfold ht', tee_fs_htree_meta_set_dirty; simpl;
      by rewrite Er.
  - intros Mk i x. specialize (Mk i). revert Mk. unfold ht', tee_fs_htree_meta_set_dirty. simpl.
    destruct (root ht) as [|nd l r]; simpl; [done|].
    destruct (id nd =? i); [|auto]. intros Mk [= <-]. split; [done|]. by apply (Mk nd).
  - intros m. apply tree_data_ext; [done|done|]. simpl.
    destruct (root ht) as [|nd l r]; simpl; [done|]. by destruct (id nd =? m + 1).
Qed.

End Blocks.

(** The trees a file is kept in. *)
Definition sound (ht : tee_fs_htree) : Prop := formed ht ∧ marked ht.

(** The hash tree is what the files of the REE file system expect. *)
#[global] Instance fs_htree_laws `{HtreeEnvLaws, !FileEnv, !FileEnvLaws} : ReeFileProofs.HtreeLaws.
Proof.
  refine {| ht_valid := sound : @htree fs_htree → Prop; ht_quiet := quiet; block_data := tree_data |}; simpl.
  - intros n t [F M] _. destruct (set_dirty_spec t n F) as (F' & M' & L & D).
    split_and!; [by split; [|apply M']|done|done].
  - intros n t w [F M] Hn. unfold tee_fs_htree_read_block. apply wp_bind.
    eapply wp_mono; [by apply read_block_spec|]. intros [res|[t' b]] w' [_ R]; apply wp_ret.
    + by right.
    + destruct R as (-> & D & L). left. split_and!; [done|done|done|]. by exists t.
  - intros n b t w [F M] Hn Hp _. unfold tee_fs_htree_write_block. apply wp_bind.
    eapply wp_mono; [apply write_block_spec; [done|done|]|].
    + destruct Hp as [->|D]; [unfold nodes; lia|]. apply tree_data_some in D; [lia|done].
    + intros [res|t'] w' [_ R]; apply wp_ret; [by destruct R|]. intros _.
      destruct R as (F' & M' & L & D). exists t'. split_and!; [done|by split; [|apply M']|done|done].
  - intros n t w [F M] Hn. eapply wp_mono; [by apply truncate_spec|].
    intros [res t'] w' (_ & _ & ht' & -> & F' & N & Eh & Ef & L & A) _. exists ht'.
    split_and!; [done|split; [done|]|done|].
    + intros i x Ex. destruct (decide (i ≤ n + 1)); [rewrite A in Ex by done; by eapply M|].
      rewrite (whole_none (nodes ht')) in Ex by (apply F' || lia). done.
    + intros m Hm. apply tree_data_ext; [done|done|]. by rewrite A by lia.
  - apply file_rpc_truncate_ok.
  - apply mempool_alloc_ok.
  - apply user_copy_from_ok.
  - apply user_copy_to_ok.
Defined.
