(* ===== verification/HtreeAuth.v ===== *)
(** Opening a hash tree with the hash of its root, core/tee/fs_htree.c: what
    the storage answers is checked against the hash, so that a tree that is
    opened is the one the hash was computed for. *)
From S2P Require Import Prelude State Bytes ReeFile Htree HtreeRules.

#[local] Ltac Zify.zify_post_hook ::= Z.div_mod_to_equations.

(** ** Trees as the storage keeps them *)

(** The arrays of an image have the sizes of the structure. *)
Definition sized (i : node_image) : Prop :=
  length (n_hash i) = 32%nat ∧ length (n_iv i) = 16%nat ∧ length (n_tag i) = 16%nat.

Fixpoint all_nodes (P : htree_node → Prop) (t : tree) : Prop :=
  match t with
  | Nil => True
  | Node n l r => P n ∧ all_nodes P l ∧ all_nodes P r
  end.

Definition sized_tree : tree → Prop := all_nodes (λ n, sized (node n)).

Lemma all_nodes_upd P i f t : (∀ n, P n → P (f n)) → all_nodes P t → all_nodes P (upd_node i f t).
Proof.
  intros Hf. induction t as [|n l IHl r IHr]; simpl; [done|]. intros (Hn & Hl & Hr).
  split_and!; [destruct (id n =? i)|..]; auto.
Qed.

Lemma all_nodes_set_child P i b c t :
  all_nodes P c → all_nodes P t → all_nodes P (set_child i b c t).
Proof.
  intros Hc. induction t as [|n l IHl r IHr]; simpl; [done|]. intros (Hn & Hl & Hr).
  destruct (id n =? i); [destruct (b =? 0)|]; simpl; auto.
Qed.

Lemma sized_image_of d : Z.of_nat (length d) = sizeof_node_image → sized (image_of d).
Proof. intros L. change sizeof_node_image with 66 in L. split_and!; apply length_slice; lia. Qed.

(** Every node has the hash that [verify_tree] asks for. *)
Fixpoint verified `{HtreeEnv} (meta : option tee_fs_htree_imeta) (t : tree) : Prop :=
  match t with
  | Nil => True
  | Node n l r =>
      n_hash (node n) = sha256 (hash_input (node n) meta l r) ∧
      verified None l ∧ verified None r
  end.

(** The strings that are hashed. *)
Fixpoint hashed (meta : option tee_fs_htree_imeta) (t : tree) : list (list Z) :=
  match t with
  | Nil => []
  | Node n l r => hash_input (node n) meta l r :: hashed None l ++ hashed None r
  end.

Definition collision `{HtreeEnv} (A B : list (list Z)) : Prop :=
  ∃ a b, a ∈ A ∧ b ∈ B ∧ a ≠ b ∧ sha256 a = sha256 b.

(** The same image; flags have 16 bits in the storage. *)
Definition same_image (i j : node_image) : Prop :=
  n_hash i = n_hash j ∧ n_iv i = n_iv j ∧ n_tag i = n_tag j ∧ u16 (n_flags i) = u16 (n_flags j).

Fixpoint alike (t t' : tree) : Prop :=
  match t, t' with
  | Nil, Nil => True
  | Node n l r, Node n' l' r' => same_image (node n) (node n') ∧ alike l l' ∧ alike r r'
  | _, _ => False
  end.

(** The first child comes before the second. *)
Fixpoint left_first (t : tree) : Prop :=
  match t with
  | Nil => True
  | Node _ l r => (l = Nil → r = Nil) ∧ left_first l ∧ left_first r
  end.

Lemma shape_left_first m t : ∀ cur, 0 < cur → shape m cur t → left_first t.
Proof.
  induction t as [|n l IHl r IHr]; intros cur Hc; simpl; [done|]. intros (E & Hm & Sl & Sr).
  split_and!; [|by apply (IHl (2 * cur)); [lia|]|by apply (IHr (2 * cur + 1)); [lia|]].
  intros ->. simpl in Sl. destruct r; [done|]. simpl in Sr. lia.
Qed.

(** ** Equal hashes *)

Section Auth.
Context `{HtreeEnv}.

Lemma child_hash_length t : sized_tree t → length (child_hash t) = if is_nil t then 0%nat else 32%nat.
Proof. destruct t as [|n l r]; simpl; [done|]. by intros ((? & _) & _). Qed.

Lemma length_ndata i : sized i → length (ndata i) = 34%nat.
Proof. intros (_ & L1 & L2). unfold ndata. rewrite !length_app, le_bytes_length. lia. Qed.

(** The parts of what is hashed are determined by the whole. *)
Lemma hash_input_inj i i' meta meta' l r l' r' :
  sized i → sized i' → sized_tree l → sized_tree r → sized_tree l' → sized_tree r' →
  (l = Nil → r = Nil) → (l' = Nil → r' = Nil) →
  (is_Some meta ↔ is_Some meta') →
  hash_input i meta l r = hash_input i' meta' l' r' →
  n_iv i = n_iv i' ∧ n_tag i = n_tag i' ∧ u16 (n_flags i) = u16 (n_flags i') ∧
  meta_bytes <$> meta = meta_bytes <$> meta' ∧
  is_nil l = is_nil l' ∧ is_nil r = is_nil r' ∧
  child_hash l = child_hash l' ∧ child_hash r = child_hash r'.
Proof.
  intros Si Si' Sl Sr Sl' Sr' Lf Lf' Hm E. unfold hash_input in E.
  pose proof (length_ndata i Si). pose proof (length_ndata i' Si').
  pose proof (child_hash_length l Sl). pose proof (child_hash_length r Sr).
  pose proof (child_hash_length l' Sl'). pose proof (child_hash_length r' Sr').
  apply app_inj_1 in E as [E1 E]; [|congruence].
  assert (Em : meta_bytes <$> meta = meta_bytes <$> meta' ∧
    child_hash l ++ child_hash r = child_hash l' ++ child_hash r').
  { destruct meta as [m|], meta' as [m'|]; [|by destruct (proj1 Hm ltac:(done))
      |by destruct (proj2 Hm ltac:(done))|done].
    apply app_inj_1 in E as [E2 E]; [by cbn [fmap option_fmap option_map]; rewrite E2|done]. }
  destruct Em as [Em Ec].
  assert (N : is_nil l = is_nil l' ∧ is_nil r = is_nil r').
  { pose proof (f_equal length Ec) as L. rewrite !length_app in L.
    destruct l, r, l', r'; simpl in *; try done; lia || (by specialize (Lf eq_refl)) ||
      (by specialize (Lf' eq_refl)). }
  destruct N as [Nl Nr].
  apply app_inj_1 in Ec as [Ec1 Ec2]; [|rewrite H2, H4, Nl; done].
  destruct Si as (_ & Liv & Ltag), Si' as (_ & Liv' & Ltag'). unfold ndata in E1.
  apply app_inj_1 in E1 as [Eiv E1]; [|congruence].
  apply app_inj_1 in E1 as [Etag E1]; [|congruence].
  split_and!; try done. by apply le_bytes_2.
Qed.

(** Two verified trees with the same root hash are the same, or two of the
    strings they hash collide. *)
Lemma verified_alike t : ∀ t' meta meta',
  (is_Some meta ↔ is_Some meta') →
  sized_tree t → sized_tree t' → left_first t → left_first t' →
  verified meta t → verified meta' t' → is_nil t = is_nil t' → child_hash t = child_hash t' →
  alike t t' ∧ (t ≠ Nil → meta_bytes <$> meta = meta_bytes <$> meta') ∨
  collision (hashed meta t) (hashed meta' t').
Proof.
  induction t as [|n l IHl r IHr]; intros [|n' l' r'] meta meta' Hm; try done; [by left|].
  intros (Sn & Sl & Sr) (Sn' & Sl' & Sr') (Lf & Ll & Lr) (Lf' & Ll' & Lr')
    (Vn & Vl & Vr) (Vn' & Vl' & Vr') _ Eh. simpl in Eh.
  destruct (decide (hash_input (node n) meta l r = hash_input (node n') meta' l' r')) as [E|N].
  2: { right. exists (hash_input (node n) meta l r), (hash_input (node n') meta' l' r').
       split_and!; [left|left|done|congruence]. }
  destruct (hash_input_inj _ _ _ _ _ _ _ _ Sn Sn' Sl Sr Sl' Sr' Lf Lf' Hm E)
    as (Eiv & Etag & Efl & Em & Nl & Nr & Ehl & Ehr).
  assert (Sub : ∀ A B, collision A B → (∀ x, x ∈ A → x ∈ hashed meta (Node n l r)) →
    (∀ x, x ∈ B → x ∈ hashed meta' (Node n' l' r')) →
    collision (hashed meta (Node n l r)) (hashed meta' (Node n' l' r'))).
  { intros A B (a & b & Ha & Hb & C) HA HB. exists a, b. split_and!; [auto|auto|apply C..]. }
  destruct (IHl l' None None) as [[Al _]|C]; [done..| |].
  2: { right. apply (Sub _ _ C); intros x Hx; simpl; right; apply elem_of_app; by left. }
  destruct (IHr r' None None) as [[Ar _]|C]; [done..| |].
  2: { right. apply (Sub _ _ C); intros x Hx; simpl; right; apply elem_of_app; by right. }
  left. split; [|done]. simpl. split_and!; [|done|done]. by split_and!.
Qed.

End Auth.

(** ** Opening *)

Section Open.
Context `{HtreeStoreLaws}.

(** Nothing of the storage changes. *)
Abbreviation E_all := (ends (λ _ _ _, True)).

(** Opening with the hash [h] from the world [w] reads a header that the cipher
    accepts and that says [m]. *)
Definition header_says (h : list Z) (min_counter : Z) (uuid : option (list Z)) (w : eworld)
    (m : tee_fs_htree_imeta) : Prop :=
  ∃ img hd w' p, init_head_from_data (Some h) min_counter w = Some (Done (inr (img, hd), w')) ∧
    authenc_dec (fek_decrypt uuid (h_enc_fek hd)) (h_iv hd)
      ((take (Z.to_nat TEE_FS_HTREE_FEK_SIZE) h ++ le_bytes 4 (h_counter hd)) ++ h_enc_fek hd ++ h_iv hd)
      (h_imeta hd) (h_tag hd) = Some p ∧ m = imeta_of p.

(** No node has the number of a tree of 2^32 - 2 nodes or more. *)
Definition oversized (m : tee_fs_htree_imeta) : Prop := ¬ 0 ≤ max_node_id m < UINT32_MAX - 1.

Lemma find_root_version_spec hash w :
  E_all (find_root_version 2 hash 0) w (λ '(idx, img, h) _,
    sized img ∧ n_hash img = hash ∧ length (h_imeta h) = 16%nat).
Proof.
  assert (Head : ∀ idx img w, vers_ok idx → sized img → n_hash img = hash →
    E_all (e_bind (rpc_read_head idx) (λ h, e_ret (idx, img, h))) w (λ '(idx, img, h) _,
      sized img ∧ n_hash img = hash ∧ length (h_imeta h) = 16%nat)).
  { intros idx img w0 Hv Si Eh. e_step. unfold rpc_read_head. e_step. apply ends_rpc_read; [done|].
    intros d w1 _ L _. do 2 e_step. split; [done|split; [done|]]. change sizeof_image with 68 in L.
    apply length_slice; lia. }
  cbn [find_root_version]. unfold rpc_read_node. do 2 e_step. apply ends_rpc_read; [by left|].
  intros d w1 _ L _. e_step. case_bool_decide; [apply Head; [by left|by apply sized_image_of|done]|].
  change (0 =? 0) with true. change (0 + 1) with 1. cbn [negb].
  do 2 e_step. apply ends_rpc_read; [by right|]. intros d2 w2 _ L2 _. e_step.
  case_bool_decide; [apply Head; [by right|by apply sized_image_of|done]|].
  change (1 =? 0) with false. e_step.
Qed.

Lemma init_head_spec hash min_counter w :
  E_all (init_head_from_data (Some hash) min_counter) w (λ '(img, h) _,
    sized img ∧ n_hash img = hash ∧ min_counter ≤ h_counter h ∧ length (h_imeta h) = 16%nat).
Proof.
  unfold init_head_from_data. e_step. eapply ends_mono; [apply find_root_version_spec|].
  intros [[idx img] h] w' _ (S & E & L). destruct (Z.ltb_spec (h_counter h) min_counter); e_step.
  by split_and!.
Qed.

(** The handle that is being opened, and the nodes read so far. *)
Definition fresh_tree : tree → Prop := all_nodes (λ n, block_updated n = false).

Definition reading (m : Z) (ht0 ht : tee_fs_htree) : Prop :=
  whole m (root ht) ∧ sized_tree (root ht) ∧ fresh_tree (root ht) ∧
  head ht = head ht0 ∧ fek ht = fek ht0 ∧ imeta ht = imeta ht0 ∧ ht_uuid ht = ht_uuid ht0 ∧
  ht_dirty ht = ht_dirty ht0 ∧ child_hash (root ht) = child_hash (root ht0).

Lemma child_hash_upd i f t :
  (∀ n, id n = i → node_at t i = Some n → n_hash (node (f n)) = n_hash (node n)) →
  child_hash (upd_node i f t) = child_hash t.
Proof.
  destruct t as [|n l r]; simpl; [done|]. intros Hf. destruct (Z.eqb_spec (id n) i); [|done]. by apply Hf.
Qed.

Lemma child_hash_set_child i b c t : child_hash (set_child i b c t) = child_hash t.
Proof. destruct t as [|n l r]; simpl; [done|]. by destruct (id n =? i), (b =? 0). Qed.

Lemma reading_step m ht0 ht img :
  reading m ht0 ht → m + 1 < UINT32_MAX - 1 → m + 1 ≤ max_node_id (imeta ht0) → sized img →
  reading (m + 1) ht0
    (with_root (upd_node (m + 1) (λ n, mk_node (id n) (dirty n) (block_updated n) img)
       (grown m (root ht))) ht).
Proof.
  intros (W & Sz & Fr & Eh & Ef & Ei & Eu & Ed & Ec) Hlim Hmax Si.
  destruct (whole_add m (new_node (m + 1)) (root ht) W eq_refl Hlim) as [W' N].
  split_and!; simpl; try done.
  - by apply whole_upd.
  - apply all_nodes_upd; [by intros|]. by apply all_nodes_set_child.
  - apply all_nodes_upd; [by intros|]. by apply all_nodes_set_child.
  - destruct (root ht) as [|n l r] eqn:Er; [by destruct W as [? S]; simpl in S; lia|].
    rewrite <- Ec. unfold grown. simpl. destruct W as [Hm S]. simpl in S.
    destruct S as (En & _). rewrite En.
    destruct (1 =? (m + 1) / 2), (Z.land (m + 1) 1 =? 0); simpl; rewrite En;
      by destruct (Z.eqb_spec 1 (m + 1)); [lia|].
Qed.

Lemma read_tree_spec ht0 k : ∀ m ht w,
  reading m ht0 ht → Z.of_nat k = max_node_id (imeta ht0) - m →
  max_node_id (imeta ht0) < UINT32_MAX - 1 →
  E_all (read_tree k (m + 1) ht) w (λ ht' _, reading (m + Z.of_nat k) ht0 ht').
Proof.
  induction k as [|k IH]; intros m ht w R Hk Hlim; cbn [read_tree].
  { e_step. by rewrite Z.add_0_r. }
  pose proof R as (W & Sz & _ & Eh & Ef & Ei & Eu & Ed & Ec). pose proof W as [Wm _].
  rewrite Z.shiftr_div_pow2 by lia. change (2 ^ 1) with 2. e_step.
  eapply ends_pure.
  { unfold find_node. rewrite (find_closest_whole m) by (done || lia). rewrite decide_True by lia.
    simpl. by rewrite Z.eqb_refl. }
  cbv beta iota. e_step. apply (ends_image_at _ _ m); [done|lia|]. intros n _ _. e_step.
  unfold rpc_read_node. e_step. apply ends_rpc_read; [auto with vers|]. intros d w1 _ L _. do 2 e_step.
  apply ends_grow; [done|lia|]. intros w2 _. rewrite Ei.
  destruct (Z.ltb_spec (max_node_id (imeta ht0)) (m + 1)); [lia|].
  eapply ends_mono.
  { apply IH; [|lia|done].
    pose proof (reading_step m ht0 ht (image_of d) R ltac:(lia) ltac:(lia) (sized_image_of d L)) as R'.
    destruct ht as [rt hd fk im dt uu]. simpl in Ei. subst im. exact R'. }
  intros ht' w3 _ R'. by replace (m + Z.of_nat (S k)) with (m + 1 + Z.of_nat k) by lia.
Qed.

Lemma verify_nodes_spec t : ∀ meta w,
  E_all (verify_nodes meta t) w (λ _ _, verified meta t).
Proof.
  induction t as [|n l IHl r IHr]; intros meta w; cbn [verify_nodes]; [by e_step|].
  e_step. eapply ends_mono; [apply IHl|]. intros [] w1 ? Vl. e_step.
  eapply ends_mono; [apply IHr|]. intros [] w2 ? Vr. e_step. apply ends_calc_node_hash.
  intros w3 _. case_bool_decide as Eh; e_step. simpl. by split_and!.
Qed.

(** What is known of a tree opened with the hash [h]. *)
Record authentic (h : list Z) (min_counter : Z) (uuid : option (list Z)) (ht : tee_fs_htree) : Prop := {
  a_formed : formed ht;
  a_sized : sized_tree (root ht);
  a_fresh : fresh_tree (root ht);
  a_verified : verified (Some (imeta ht)) (root ht);
  a_hash : child_hash (root ht) = h;
  a_counter : min_counter ≤ h_counter (head ht);
  a_fek : fek ht = fek_decrypt uuid (h_enc_fek (head ht));
  a_clean : ht_dirty ht = false;
}.

Lemma open_existing_spec h min_counter uuid w :
  (∀ m, header_says h min_counter uuid w m → ¬ oversized m) →
  E_all (open_existing (Some h) min_counter (empty_htree uuid)) w
    (λ ht _, authentic h min_counter uuid ht).
Proof.
  intros Sane. unfold open_existing. e_step. eapply ends_mono; [apply ends_run, init_head_spec|].
  intros [img hd] w1 _ (Run & Si & Eh & Hc & Lm). e_step. unfold verify_root. do 3 e_step. cbv zeta.
  apply ends_authenc_init. intros iv w2 _ Eiv. e_step. apply ends_decrypt_final.
  intros p w3 _ Ed _. simpl in Ed, Eiv. rewrite Eiv, Eh in Ed.
  assert (0 ≤ max_node_id (imeta_of p) < UINT32_MAX - 1) as Bd.
  { destruct (decide (0 ≤ max_node_id (imeta_of p) < UINT32_MAX - 1)) as [|N]; [done|].
    destruct (Sane (imeta_of p)); [|done]. by exists img, hd, w1, p. }
  clear Ed Run Sane.
  do 2 e_step. generalize dependent (imeta_of p). clear p. intros mm Emm.
  set (ht0 := with_imeta mm _).
  assert (R : reading 1 ht0 ht0).
  { split_and!; try done; simpl; lia. }
  unfold init_tree_from_data. change (max_node_id (imeta ht0)) with (max_node_id mm).
  set (k := Z.to_nat (max_node_id mm - 1)).
  assert (F : ∀ ht, reading (1 + Z.of_nat k) ht0 ht → formed ht).
  { intros ht (W & _ & _ & _ & _ & Ei & _). split; unfold nodes; rewrite Ei; simpl; [|lia].
    by replace (Z.max 1 (max_node_id mm)) with (1 + Z.of_nat k) by (unfold k; lia). }
  eapply ends_mono with (P := λ ht _, reading (1 + Z.of_nat k) ht0 ht).
  { destruct (decide (max_node_id mm = 0)) as [E0|].
    - subst k. rewrite E0. change (Z.to_nat (0 - 1)) with 0%nat. cbn [read_tree]. by e_step.
    - apply (read_tree_spec ht0 k 1); [done|unfold k; simpl; lia|simpl; lia]. }
  intros ht w4 _ R'. pose proof R' as (W & Sz & Fr & Eh' & Ef & Ei & Eu & Edy & Ec).
  e_step. unfold verify_tree. do 2 e_step. eapply ends_mono; [apply verify_nodes_spec|].
  intros [] w5 _ V. e_step. split; try done; [by apply F|by rewrite Ec|by rewrite Eh'|].
  by rewrite Ef, Eh'.
Qed.

(** The tree the hash stands for, at every node. *)
Lemma alike_node_at m m' t : ∀ t' cur i,
  shape m cur t → shape m' cur t' → alike t t' →
  match node_at t i, node_at t' i with
  | Some n, Some n' => same_image (node n) (node n')
  | None, None => True
  | _, _ => False
  end.
Proof.
  induction t as [|n l IHl r IHr]; intros [|n' l' r'] cur i; try done.
  intros (E & _ & Sl & Sr) (E' & _ & Sl' & Sr') (Si & Al & Ar). simpl. rewrite E, E'.
  destruct (cur =? i); [done|]. specialize (IHl _ _ i Sl Sl' Al). specialize (IHr _ _ i Sr Sr' Ar).
  by destruct (node_at l i), (node_at l' i).
Qed.

(** The header that [tee_fs_htree_open] reads is accepted and is oversized. *)
Definition opens_oversized (h : list Z) (min_counter : Z) (uuid : option (list Z)) (w : eworld) : Prop :=
  ∃ w1 m, status w = Some (Done (TEE_SUCCESS, w1)) ∧ header_says h min_counter uuid w1 m ∧ oversized m.

#[export] Instance oversized_dec m : Decision (oversized m).
Proof. unfold oversized. apply _. Defined.

#[export] Instance opens_oversized_dec h min_counter uuid w :
  Decision (opens_oversized h min_counter uuid w).
Proof.
  destruct (status w) as [[[res w1]| |]|] eqn:Es; try by right; intros (? & ? & ? & _); congruence.
  destruct (decide (res = TEE_SUCCESS)) as [->|]; [|right; intros (? & ? & ? & _); congruence].
  destruct (init_head_from_data (Some h) min_counter w1) as [[[[r|[img hd]] w2]| |]|] eqn:Ei;
    try by right; intros (? & ? & E1 & (? & ? & ? & ? & ? & _) & _); simplify_eq.
  destruct (authenc_dec (fek_decrypt uuid (h_enc_fek hd)) (h_iv hd)
    ((take (Z.to_nat TEE_FS_HTREE_FEK_SIZE) h ++ le_bytes 4 (h_counter hd)) ++ h_enc_fek hd ++ h_iv hd)
    (h_imeta hd) (h_tag hd)) as [p|] eqn:Ed.
  2: { right. intros (? & ? & E1 & (? & ? & ? & ? & ? & ? & _) & _). simplify_eq. }
  destruct (decide (oversized (imeta_of p))) as [O|N].
  - left. exists w1, (imeta_of p). split; [done|]. split; [|done]. by exists img, hd, w2, p.
  - right. intros (? & ? & E1 & (? & ? & ? & ? & ? & ? & ->) & O). by simplify_eq.
Defined.

Lemma open_hash_spec h min_counter uuid w :
  ¬ opens_oversized h min_counter uuid w →
  wp (tee_fs_htree_open false (Some h) min_counter uuid) w (λ '(res, _, r) w',
    (∀ ty i v, cell w' ty i v = cell w ty i v) ∧
    (res = TEE_SUCCESS ∧ (∃ ht, r = Some ht ∧ authentic h min_counter uuid ht) ∨
     res ≠ TEE_SUCCESS ∧ r = None)).
Proof.
  intros Sane. unfold tee_fs_htree_open. apply wp_bind. destruct (status_ok w) as (res & w1 & Es & _ & C1).
  exists res, w1. split; [done|]. destruct (Z.eqb_spec res TEE_SUCCESS) as [->|]; cbn [negb].
  2: { apply wp_ret. split; [by rewrite C1|]. by right. }
  apply wp_bind, wp_bind. eapply wp_mono.
  { apply open_existing_spec. intros m S O. apply Sane. by exists w1, m. }
  intros [r|ht] w2 [Kp R]; apply wp_ret, wp_ret;
    (split; [intros ty i v; rewrite Kp by done; by rewrite C1|]).
  - right. by destruct R.
  - left. split; [done|]. by exists ht.
Qed.

(** C4: A hash tree that is opened with a hash is the tree the hash was
    computed for, whatever the storage answers: if [t] is a tree of [m] nodes
    whose hashes are right and whose root has the hash [h], then
    [tee_fs_htree_open] with [h] fails without a handle or returns a tree of
    the same nodes with the same ivs, tags and version flags, the same length
    and a counter that is not below the minimum, and writes nothing. There are
    two exceptions: that two different strings that the two trees hash have the
    same SHA-256 sum, and that the header that is read is accepted by the
    cipher with the hash and its counter, but says that the tree has 2^32 - 2
    nodes or more, for which the nodes have no numbers. Nothing is assumed of
    the cipher. *)
Theorem htree_open_authentic t meta m h min_counter uuid w :
  whole m t → sized_tree t → verified (Some meta) t → child_hash t = h →
  opens_oversized h min_counter uuid w ∨
  wp (tee_fs_htree_open false (Some h) min_counter uuid) w (λ '(res, _, r) w',
    (∀ ty i v, cell w' ty i v = cell w ty i v) ∧
    (res = TEE_SUCCESS ∧ (∃ ht, r = Some ht ∧ formed ht ∧ min_counter ≤ h_counter (head ht) ∧
       (nodes ht = m ∧ meta_bytes (imeta ht) = meta_bytes meta ∧
        (∀ i, 1 ≤ i ≤ m → ∃ n n', node_at (root ht) i = Some n ∧ node_at t i = Some n' ∧
           same_image (node n) (node n')) ∨
        collision (hashed (Some (imeta ht)) (root ht)) (hashed (Some meta) t))) ∨
     res ≠ TEE_SUCCESS ∧ r = None)).
Proof.
  intros W Sz V Hh. destruct (decide (opens_oversized h min_counter uuid w)) as [O|O]; [by left|right].
  eapply wp_mono; [by apply open_hash_spec|].
  intros [[res out] r] w' [C [(-> & ht & -> & A)|R]]; (split; [done|]); [left|by right].
  split; [done|]. exists ht. destruct A as [F S' _ V' Hh' Hc _ _]. split_and!; [done..|].
  pose proof F as [W' _]. destruct W as [Hm Sh], W' as [Hm' Sh'].
  assert (Nn : is_nil (root ht) = is_nil t).
  { destruct (root ht), t; simpl in *; done || lia. }
  destruct (verified_alike (root ht) t (Some (imeta ht)) (Some meta)) as [[Al Me]|Co];
    [done|done|done|by apply (shape_left_first (nodes ht) _ 1)|by apply (shape_left_first m _ 1)
    |done|done|done|by rewrite Hh'|left|by right].
  pose proof (alike_node_at _ _ _ _ 1 m Sh' Sh Al) as Nm.
  pose proof (alike_node_at _ _ _ _ 1 (nodes ht) Sh' Sh Al) as Nh.
  destruct (whole_node m t m (conj Hm Sh) ltac:(lia)) as [nm Em].
  destruct (whole_node _ _ (nodes ht) (conj Hm' Sh') ltac:(lia)) as [nh Eh].
  rewrite Em in Nm. rewrite Eh in Nh.
  destruct (node_at (root ht) m) as [x|] eqn:Ex; [|done].
  destruct (node_at t (nodes ht)) as [y|] eqn:Ey; [|done].
  destruct (whole_id _ _ _ _ (conj Hm' Sh') Ex) as [_ L1].
  destruct (whole_id _ _ _ _ (conj Hm Sh) Ey) as [_ L2].
  split_and!; [lia| |].
  - destruct (root ht); [by simpl in Sh'; lia|]. exact (inj Some _ _ (Me ltac:(done))).
  - intros i Hi. destruct (whole_node m t i (conj Hm Sh) Hi) as [n' En'].
    pose proof (alike_node_at _ _ _ _ 1 i Sh' Sh Al) as Ni. rewrite En' in Ni.
    destruct (node_at (root ht) i) as [n|] eqn:En; [|done]. by exists n, n'.
Qed.

End Open.
