(* ===== verification/HtreeSync.v ===== *)
(** Committing a hash tree, [tee_fs_htree_sync_to_storage] of
    core/tee/fs_htree.c: the nodes it writes, the versions it writes them to
    and the tree it leaves, against a function on trees. *)
From S2P Require Import Prelude State Bytes ReeFile Htree HtreeRules HtreeAuth.

#[local] Ltac Zify.zify_post_hook ::= Z.div_mod_to_equations.

(** ** Flags *)

Lemma has_flag_testbit x k : 0 ≤ k → has_flag x (Z.shiftl 1 k) = Z.testbit x k.
Proof.
  intros Hk. unfold has_flag. rewrite Z.shiftl_mul_pow2, Z.mul_1_l by done.
  destruct (Z.testbit x k) eqn:T.
  - destruct (Z.eqb_spec (Z.land x (2 ^ k)) 0) as [E|]; [|done].
    pose proof (Z.land_spec x (2 ^ k) k) as L. by rewrite E, T, Z.pow2_bits_true, Z.bits_0 in L by done.
  - assert (Z.land x (2 ^ k) = 0) as ->; [|done]. apply Z.bits_inj'. intros j Hj.
    rewrite Z.land_spec, Z.bits_0, Z.pow2_bits_eqb by done.
    destruct (Z.eqb_spec k j) as [->|]; [by rewrite T|apply andb_false_r].
Qed.

Lemma testbit_flip x k j :
  0 ≤ k → 0 ≤ j → Z.testbit (Z.lxor x (Z.shiftl 1 k)) j = xorb (Z.testbit x j) (k =? j).
Proof.
  intros. rewrite Z.shiftl_mul_pow2, Z.mul_1_l by done.
  by rewrite Z.lxor_spec, Z.pow2_bits_eqb.
Qed.

(** A committed version: the bit of a child in the flags of its parent. *)
Definition child_vers (flags b : Z) : Z := Z.b2z (Z.testbit flags (1 + b)).

Lemma vers_ok_flip flags b : vers_ok (1 - child_vers flags b).
Proof. unfold vers_ok, child_vers. destruct (Z.testbit _ _); simpl; lia. Qed.
#[export] Hint Resolve vers_ok_flip : vers.

Definition block_vers (flags : Z) : Z := Z.b2z (Z.testbit flags 0).

Definition flip (d : bool) (f x : Z) : Z := if d then Z.lxor x f else x.

Lemma child_vers_flip d b b' x :
  0 ≤ b → 0 ≤ b' →
  child_vers (flip d (HTREE_NODE_COMMITTED_CHILD b) x) b' =
  if decide (b' = b) then (if d then 1 - child_vers x b else child_vers x b) else child_vers x b'.
Proof.
  intros Hb Hb'. unfold child_vers, flip, HTREE_NODE_COMMITTED_CHILD.
  destruct d; [|by case_decide; subst]. rewrite testbit_flip by lia.
  case_decide; [subst; rewrite Z.eqb_refl|destruct (Z.eqb_spec (1 + b) (1 + b')); [lia|]];
    by destruct (Z.testbit x _).
Qed.

Lemma block_vers_flip d b x :
  0 ≤ b → block_vers (flip d (HTREE_NODE_COMMITTED_CHILD b) x) = block_vers x.
Proof.
  intros Hb. unfold block_vers, flip, HTREE_NODE_COMMITTED_CHILD. destruct d; [|done].
  rewrite testbit_flip by lia. destruct (Z.eqb_spec (1 + b) 0); [lia|]. by rewrite xorb_false_r.
Qed.

(** ** The tree after a commit *)

Fixpoint dirty_in (t : tree) : bool :=
  match t with Nil => false | Node n l r => dirty n || dirty_in l || dirty_in r end.

Definition with_flags (f : Z) (i : node_image) : node_image := mk_image (n_hash i) (n_iv i) (n_tag i) f.

(** The flags of a node after its children have been written. *)
Definition flags_after (n : htree_node) (l r : tree) : Z :=
  flip (dirty_in r) (HTREE_NODE_COMMITTED_CHILD 1)
    (flip (dirty_in l) (HTREE_NODE_COMMITTED_CHILD 0) (n_flags (node n))).

Fixpoint synced `{HtreeEnv} (meta : option tee_fs_htree_imeta) (t : tree) : tree :=
  match t with
  | Nil => Nil
  | Node n l r =>
      if dirty n || dirty_in l || dirty_in r then
        let l' := synced None l in
        let r' := synced None r in
        let i := with_flags (flags_after n l r) (node n) in
        Node (mk_node (id n) false false (set_hash (sha256 (hash_input i meta l' r')) i)) l' r'
      else Node n l r
  end.

Lemma clean_children n l r :
  dirty n || dirty_in l || dirty_in r = false → dirty n = false ∧ dirty_in l = false ∧ dirty_in r = false.
Proof. by destruct (dirty n), (dirty_in l), (dirty_in r). Qed.

Section Sync.
Context `{HtreeStoreLaws}.

Lemma synced_clean meta t : dirty_in t = false → synced meta t = t.
Proof. destruct t as [|n l r]; simpl; [done|]. by intros ->. Qed.

Lemma synced_nil meta t : is_nil (synced meta t) = is_nil t.
Proof. destruct t as [|n l r]; simpl; [done|]. by destruct (_ || _). Qed.

Lemma synced_shape m t : ∀ meta cur, shape m cur t → shape m cur (synced meta t).
Proof.
  induction t as [|n l IHl r IHr]; intros meta cur S; simpl; [done|].
  destruct (_ || _); [|done]. destruct S as (E & Hm & Sl & Sr). simpl. auto.
Qed.

Lemma synced_clean_after t : ∀ meta, dirty_in (synced meta t) = false.
Proof.
  induction t as [|n l IHl r IHr]; intros meta; simpl; [done|].
  destruct (dirty n || dirty_in l || dirty_in r) eqn:D; simpl; [by rewrite IHl, IHr|done].
Qed.

(** ** The traversal *)

Definition meta_of (p : sync_parent) : option tee_fs_htree_imeta :=
  match p with SyncRoot _ meta => Some meta | SyncChild _ _ => None end.

(** The version the node of position [cur] is written to. *)
Definition new_vers (cur : Z) (p : sync_parent) : Z :=
  match p with
  | SyncRoot counter _ => Z.b2z (negb (Z.testbit counter 0))
  | SyncChild flags _ => 1 - child_vers flags (cur mod 2)
  end.

Definition parent_after (cur : Z) (d : bool) (p : sync_parent) : sync_parent :=
  match p with
  | SyncRoot _ _ => p
  | SyncChild flags d0 => SyncChild (flip d (HTREE_NODE_COMMITTED_CHILD (cur mod 2)) flags) (d0 || d)
  end.

(** No node of [t] is written to an element of [K]; [v] is the version for the
    top of [t]. *)
Fixpoint writable (K : tee_fs_htree_type → Z → Z → Prop) (t : tree) (v : Z) : Prop :=
  match t with
  | Nil => True
  | Node n l r =>
      ¬ K TEE_FS_HTREE_TYPE_NODE (id n - 1) v ∧
      writable K l (1 - child_vers (n_flags (node n)) 0) ∧
      writable K r (1 - child_vers (n_flags (node n)) 1)
  end.

Definition updated_dirty : tree → Prop := all_nodes (λ n, block_updated n = true → dirty n = true).

Lemma flags_of_same n : flags_of (SyncChild (n_flags (node n)) (dirty n)) n = n.
Proof. by destruct n as [i d b [h iv t f]]. Qed.

(** What happens to a node once its children are done. *)
Definition sync_self (n : htree_node) (l r : tree) (p : sync_parent) : E (tree * sync_parent) :=
  e_bind (pure (if implb (block_updated n) (dirty n) then Done tt else Panicked 0)) (λ _,
  if negb (dirty n) then e_ret (Node n l r, p) else
  let '(p, vers, meta) :=
    match p with
    | SyncChild flags _ =>
        let f := HTREE_NODE_COMMITTED_CHILD (Z.land (id n) 1) in
        let flags := Z.lxor flags f in
        (SyncChild flags true, Z.b2z (has_flag flags f), None)
    | SyncRoot counter meta => (p, Z.b2z (negb (Z.testbit counter 0)), Some meta)
    end in
  e_bind (calc_node_hash (node n) meta l r) (λ digest,
  let n := mk_node (id n) false false (set_hash digest (node n)) in
  e_bind (rpc_write_node (id n) vers (node n)) (λ _, e_ret (Node n l r, p)))).

Lemma sync_nodes_eq n l r p :
  sync_nodes (Node n l r) p =
  e_bind (sync_nodes l (SyncChild (n_flags (node n)) (dirty n))) (λ '(l, pl),
  let n := flags_of pl n in
  e_bind (sync_nodes r (SyncChild (n_flags (node n)) (dirty n))) (λ '(r, pr),
  sync_self (flags_of pr n) l r p)).
Proof. reflexivity. Qed.

(** The node a traversal ends with, and what it has written of it. *)
Lemma sync_self_spec K n l r p w (Q : tree * sync_parent → eworld → Prop) :
  (block_updated n = true → dirty n = true) → 0 ≤ id n →
  (dirty n = true → ¬ K TEE_FS_HTREE_TYPE_NODE (id n - 1) (new_vers (id n) p)) →
  (dirty n = false → Q (Node n l r, p) w) →
  (∀ w', let n' := mk_node (id n) false false
              (set_hash (sha256 (hash_input (node n) (meta_of p) l r)) (node n)) in
     dirty n = true →
     (∀ ty i v, (ty, i, v) ≠ (TEE_FS_HTREE_TYPE_NODE, id n - 1, new_vers (id n) p) →
        cell w' ty i v = cell w ty i v) →
     (faithful → cell w' TEE_FS_HTREE_TYPE_NODE (id n - 1) (new_vers (id n) p) =
        Some (image_bytes (node n'))) →
     Q (Node n' l r, parent_after (id n) true p) w') →
  ends K (sync_self n l r p) w Q.
Proof.
  intros Hu Hid HK Hc Hd. unfold sync_self. e_step. eapply ends_pure.
  { assert (implb (block_updated n) (dirty n) = true) as ->; [|done].
    destruct (block_updated n), (dirty n); auto. }
  destruct (dirty n) eqn:D; cbn [negb]; [|by e_step; apply Hc].
  assert (Hb : Z.land (id n) 1 = id n mod 2) by by rewrite (Z.land_ones _ 1). rewrite Hb.
  assert (Hm : 0 ≤ id n mod 2) by lia.
  assert (V : ∀ fl, Z.b2z (has_flag (Z.lxor fl (HTREE_NODE_COMMITTED_CHILD (id n mod 2)))
      (HTREE_NODE_COMMITTED_CHILD (id n mod 2))) = 1 - child_vers fl (id n mod 2)).
  { intros fl. unfold HTREE_NODE_COMMITTED_CHILD, child_vers.
    rewrite has_flag_testbit, testbit_flip, Z.eqb_refl by lia. by destruct (Z.testbit _ _). }
  destruct p as [counter meta|fl d0]; cbn [new_vers meta_of parent_after] in *; rewrite ?V;
    e_step; apply ends_calc_node_hash; intros w1 C1; e_step; apply ends_rpc_write;
    try (by apply HK); auto with vers; intros w2 C2 S2; e_step.
  - apply Hd; [done| |done]. intros. rewrite C2 by done. by rewrite C1.
  - rewrite orb_true_r in Hd. apply Hd; [done| |done]. intros. rewrite C2 by done. by rewrite C1.
Qed.

(** A node after its children. *)
Lemma flags_of_children n l r cur :
  let pl := parent_after (2 * cur) (dirty_in l) (SyncChild (n_flags (node n)) (dirty n)) in
  let n1 := flags_of pl n in
  let pr := parent_after (2 * cur + 1) (dirty_in r) (SyncChild (n_flags (node n1)) (dirty n1)) in
  flags_of pr n1 = mk_node (id n) (dirty n || dirty_in l || dirty_in r) (block_updated n)
    (with_flags (flags_after n l r) (node n)).
Proof.
  intros pl n1 pr. unfold pr, n1, pl, flags_after. simpl.
  replace ((2 * cur) mod 2) with 0 by lia. by replace ((2 * cur + 1) mod 2) with 1 by lia.
Qed.

Lemma same_node_clean n l r :
  dirty n || dirty_in l || dirty_in r = false →
  mk_node (id n) (dirty n || dirty_in l || dirty_in r) (block_updated n)
    (with_flags (flags_after n l r) (node n)) = n.
Proof.
  intros D. destruct (clean_children _ _ _ D) as (Dn & Dl & Dr).
  rewrite D. unfold flags_after. rewrite Dl, Dr. destruct n as [? ? ? []]. by simpl in *; subst.
Qed.

Lemma parent_after_clean cur p : parent_after cur false p = p.
Proof. destruct p as [|fl d]; simpl; [done|]. by rewrite orb_false_r. Qed.

Lemma sync_nodes_spec K m t : ∀ cur p w,
  0 < cur → shape m cur t → updated_dirty t → writable K t (new_vers cur p) →
  ends K (sync_nodes t p) w (λ '(t', p') _,
    t' = synced (meta_of p) t ∧ p' = parent_after cur (dirty_in t) p).
Proof.
  induction t as [|n l IHl r IHr]; intros cur p w Hc S U Wr.
  { simpl. e_step. by rewrite parent_after_clean. }
  destruct S as (Ei & Hm & Sl & Sr), U as (Un & Ul & Ur), Wr as (Wn & Wl & Wrr).
  rewrite sync_nodes_eq. e_step. eapply ends_mono.
  { apply (IHl (2 * cur)); [lia|done|done|]. simpl. by replace ((2 * cur) mod 2) with 0 by lia. }
  intros [l' pl] w1 _ [-> ->]. e_step. eapply ends_mono.
  { apply (IHr (2 * cur + 1)); [lia|done|done|]. cbn [flags_of parent_after new_vers node n_flags].
    replace ((2 * cur) mod 2) with 0 by lia. replace ((2 * cur + 1) mod 2) with 1 by lia.
    by rewrite child_vers_flip. }
  intros [r' pr] w2 _ [-> ->]. cbv beta iota. rewrite flags_of_children.
  cbn [dirty_in synced meta_of]. destruct (dirty n || dirty_in l || dirty_in r) eqn:D.
  - apply sync_self_spec; cbn [id dirty node block_updated]; [done|lia|by rewrite Ei in Wn |- *|done|].
    intros w3 _ _ _. by rewrite Ei.
  - rewrite <- D at 1. rewrite same_node_clean by done.
    destruct (clean_children _ _ _ D) as (Dn & Dl & Dr). rewrite !synced_clean by done.
    apply sync_self_spec; [done|lia|congruence| |congruence]. intros _. by rewrite parent_after_clean.
Qed.

(** ** What the storage holds *)

(** The nodes of [t] are stored, that of the top in version [v]. *)
Fixpoint stored_tree (w : eworld) (t : tree) (v : Z) : Prop :=
  match t with
  | Nil => True
  | Node n l r =>
      cell w TEE_FS_HTREE_TYPE_NODE (id n - 1) v = Some (image_bytes (node n)) ∧
      stored_tree w l (child_vers (n_flags (node n)) 0) ∧
      stored_tree w r (child_vers (n_flags (node n)) 1)
  end.

(** The same for nodes that are not going to be written. *)
Fixpoint clean_stored (w : eworld) (t : tree) (v : Z) : Prop :=
  match t with
  | Nil => True
  | Node n l r =>
      (dirty n || dirty_in l || dirty_in r = false →
       cell w TEE_FS_HTREE_TYPE_NODE (id n - 1) v = Some (image_bytes (node n))) ∧
      clean_stored w l (child_vers (n_flags (node n)) 0) ∧
      clean_stored w r (child_vers (n_flags (node n)) 1)
  end.

(** All elements but the nodes from position [cur] down. *)
Definition outside (cur : Z) (ty : tee_fs_htree_type) (i v : Z) : Prop :=
  ¬ (ty = TEE_FS_HTREE_TYPE_NODE ∧ below cur (i + 1)).

Lemma writable_outside m t : ∀ top cur v,
  0 < cur → shape m cur t → below top cur → writable (outside top) t v.
Proof.
  induction t as [|n l IHl r IHr]; intros top cur v Hc S B; simpl; [done|].
  destruct S as (E & Hm & Sl & Sr). split_and!.
  - intros O. apply O. split; [done|]. by replace (id n - 1 + 1) with cur by lia.
  - apply (IHl _ (2 * cur)); [lia|done|]. rewrite <- (Z.add_0_r (2 * cur)). apply below_down; auto.
  - apply (IHr _ (2 * cur + 1)); [lia|done|]. apply below_down; auto.
Qed.

(** The cells of the nodes from [cur] down are the same. *)
Definition same_below (cur : Z) (w w' : eworld) : Prop := ∀ i v,
  below cur i → cell w' TEE_FS_HTREE_TYPE_NODE (i - 1) v = cell w TEE_FS_HTREE_TYPE_NODE (i - 1) v.

Lemma same_below_child cur b w w' : b = 0 ∨ b = 1 → same_below cur w w' → same_below (2 * cur + b) w w'.
Proof. intros Hb C i v B. apply C. by apply (below_child cur i b). Qed.

Lemma stored_tree_frame m w w' t : ∀ cur v,
  shape m cur t → same_below cur w w' → stored_tree w t v → stored_tree w' t v.
Proof.
  induction t as [|n l IHl r IHr]; intros cur v S C; simpl; [done|].
  destruct S as (E & _ & Sl & Sr). intros (Cn & Cl & Cr). split_and!.
  - rewrite E in *. by rewrite C by apply below_refl.
  - apply (IHl (2 * cur)); [done| |done].
    rewrite <- (Z.add_0_r (2 * cur)). apply same_below_child; auto.
  - apply (IHr (2 * cur + 1)); [done| |done]. apply same_below_child; auto.
Qed.

Lemma clean_stored_frame m w w' t : ∀ cur v,
  shape m cur t → same_below cur w w' → clean_stored w t v → clean_stored w' t v.
Proof.
  induction t as [|n l IHl r IHr]; intros cur v S C; simpl; [done|].
  destruct S as (E & _ & Sl & Sr). intros (Cn & Cl & Cr). split_and!.
  - intros D. rewrite E in *. rewrite C by apply below_refl. by apply Cn.
  - apply (IHl (2 * cur)); [done| |done].
    rewrite <- (Z.add_0_r (2 * cur)). apply same_below_child; auto.
  - apply (IHr (2 * cur + 1)); [done| |done]. apply same_below_child; auto.
Qed.

(** Writing below one child leaves the other child and the node alone. *)
Lemma outside_sibling cur b w w' :
  0 < cur → b = 0 ∨ b = 1 →
  (∀ ty i v, outside (2 * cur + b) ty i v → cell w' ty i v = cell w ty i v) →
  same_below (2 * cur + (1 - b)) w w' ∧
  ∀ v, cell w' TEE_FS_HTREE_TYPE_NODE (cur - 1) v = cell w TEE_FS_HTREE_TYPE_NODE (cur - 1) v.
Proof.
  intros Hc Hb C. split.
  - intros i v B. apply C. intros [_ B']. replace (i - 1 + 1) with i in B' by lia.
    destruct Hb as [-> | ->]; simpl in *; rewrite ?Z.add_0_r in *.
    + by apply (below_disjoint cur i).
    + by apply (below_disjoint cur i).
  - intros v. apply C. intros [_ B]. replace (cur - 1 + 1) with cur in B by lia.
    apply below_le in B; lia.
Qed.

(** What a traversal returns, and the versions that are stored then. *)
Definition traversed (cur : Z) (t : tree) (p : sync_parent) (r : tree * sync_parent) (w' : eworld)
    : Prop :=
  r = (synced (meta_of p) t, parent_after cur (dirty_in t) p) ∧
  stored_tree w' (synced (meta_of p) t)
    (if dirty_in t then new_vers cur p else 1 - new_vers cur p).

Lemma sync_child_ok m t cur b p w :
  0 < cur → b = 0 ∨ b = 1 → shape m (2 * cur + b) t → updated_dirty t →
  ends (outside (2 * cur + b)) (sync_nodes t p) w (traversed (2 * cur + b) t p) →
  ends (outside cur) (sync_nodes t p) w (λ r w',
    traversed (2 * cur + b) t p r w' ∧ same_below (2 * cur + (1 - b)) w w' ∧
    ∀ v, cell w' TEE_FS_HTREE_TYPE_NODE (cur - 1) v = cell w TEE_FS_HTREE_TYPE_NODE (cur - 1) v).
Proof.
  intros Hc Hb S U IH. eapply ends_mono.
  - eapply (ends_conj _ (outside (2 * cur + b))); [|exact IH].
    apply (sync_nodes_spec _ m t (2 * cur + b)); [lia|done|done|].
    apply (writable_outside m t _ (2 * cur + b)); [lia|done|].
    apply below_down; [done|apply below_refl].
  - intros r w' _ (_ & T & C). split; [done|]. by apply outside_sibling.
Qed.

(** The versions of the children in the flags of a node that was written. *)
Lemma child_vers_after n l r b :
  b = 0 ∨ b = 1 →
  child_vers (flags_after n l r) b =
  let d := if b =? 0 then dirty_in l else dirty_in r in
  if d then 1 - child_vers (n_flags (node n)) b else child_vers (n_flags (node n)) b.
Proof.
  intros [-> | ->]; unfold flags_after; rewrite !child_vers_flip by lia;
    repeat (case_decide; try lia); done.
Qed.

(** The last step: the node itself, after its children. *)
Lemma sync_self_stored m n l r cur p w :
  faithful → 0 < cur → shape m cur (Node n l r) → (block_updated n = true → dirty n = true) →
  (dirty n || dirty_in l || dirty_in r = false →
   cell w TEE_FS_HTREE_TYPE_NODE (id n - 1) (1 - new_vers cur p) = Some (image_bytes (node n))) →
  stored_tree w (synced None l) (child_vers (flags_after n l r) 0) →
  stored_tree w (synced None r) (child_vers (flags_after n l r) 1) →
  ends (outside cur)
    (sync_self (mk_node (id n) (dirty n || dirty_in l || dirty_in r) (block_updated n)
       (with_flags (flags_after n l r) (node n))) (synced None l) (synced None r) p)
    w (traversed cur (Node n l r) p).
Proof.
  intros Fa Hc S Un Cn Tl Tr. pose proof S as (Ei & Hm & Sl & Sr). unfold traversed.
  cbn [dirty_in synced].
  destruct (dirty n || dirty_in l || dirty_in r) eqn:D.
  - apply sync_self_spec; cbn [id dirty node block_updated]; [done|lia| |done|].
    + intros _ O. apply O. split; [done|]. rewrite Ei. replace (cur - 1 + 1) with cur by lia.
      apply below_refl.
    + intros w3 _ C St. rewrite Ei in *. split; [done|].
      assert (Fr : ∀ b, b = 0 ∨ b = 1 → same_below (2 * cur + b) w w3).
      { intros b Hb i v B. apply C. intros [= E]. apply below_le in B; lia. }
      cbn [stored_tree id node n_flags with_flags set_hash].
      split_and!; [by apply St| |].
      * eapply (stored_tree_frame m w _ _ (2 * cur)); [by apply synced_shape| |done].
        rewrite <- (Z.add_0_r (2 * cur)). auto.
      * eapply (stored_tree_frame m w _ _ (2 * cur + 1)); [by apply synced_shape|auto|done].
  - rewrite <- D at 1. rewrite same_node_clean by done.
    destruct (clean_children _ _ _ D) as (Dn & Dl & Dr). unfold flags_after in *.
    rewrite Dl, Dr in *. rewrite !synced_clean in * by done.
    apply sync_self_spec; [done|lia|congruence| |congruence]. intros _.
    rewrite parent_after_clean. split; [done|]. simpl. auto.
Qed.

(** The nodes a traversal leaves are stored in the versions it chose. *)
Lemma sync_nodes_stored m t : ∀ cur p w,
  faithful → 0 < cur → shape m cur t → updated_dirty t →
  clean_stored w t (1 - new_vers cur p) →
  ends (outside cur) (sync_nodes t p) w (traversed cur t p).
Proof.
  induction t as [|n l IHl r IHr]; intros cur p w Fa Hc S U Cs.
  { simpl. e_step. split; [by rewrite parent_after_clean|done]. }
  destruct S as (Ei & Hm & Sl & Sr), U as (Un & Ul & Ur), Cs as (Cn & Cl & Cr).
  pose proof Sl as Sl0. rewrite <- (Z.add_0_r (2 * cur)) in Sl0.
  rewrite sync_nodes_eq. e_step. eapply ends_mono.
  { apply (sync_child_ok m l cur 0); [done|by left|done|done|].
    apply IHl; [done|lia|done|done|]. cbn [new_vers].
    replace ((2 * cur + 0) mod 2) with 0 by lia. by rewrite Z.sub_sub_distr, Z.sub_diag. }
  intros ? w1 _ [[-> Tl] [Bl Nl]]. cbv beta iota. e_step.
  eapply (clean_stored_frame m _ _ r (2 * cur + 1)) in Cr; [|done|exact Bl].
  rewrite Z.add_0_r in *. eapply ends_mono.
  { apply (sync_child_ok m r cur 1); [done|by right|done|done|].
    apply IHr; [done|lia|done|done|]. cbn [flags_of parent_after new_vers node n_flags].
    replace ((2 * cur) mod 2) with 0 by lia. replace ((2 * cur + 1) mod 2) with 1 by lia.
    rewrite child_vers_flip by lia. rewrite decide_False by lia.
    by rewrite Z.sub_sub_distr, Z.sub_diag. }
  intros ? w2 _ [[-> Tr] [Br Nr]]. cbv beta iota. rewrite flags_of_children.
  change (1 - 1) with 0 in Br. rewrite Z.add_0_r in Br.
  apply (sync_self_stored m); [done|done|by split_and!|done| | |].
  - intros D. rewrite Ei in Cn |- *. rewrite Nr, Nl. by apply Cn.
  - rewrite child_vers_after by auto.
    eapply (stored_tree_frame m w1 _ _ (2 * cur)); [by apply synced_shape|exact Br|].
    revert Tl. cbn [meta_of new_vers]. replace ((2 * cur) mod 2) with 0 by lia.
    by rewrite Z.sub_sub_distr, Z.sub_diag.
  - rewrite child_vers_after by auto. revert Tr.
    cbn [flags_of parent_after new_vers meta_of node n_flags].
    replace ((2 * cur) mod 2) with 0 by lia. replace ((2 * cur + 1) mod 2) with 1 by lia.
    rewrite child_vers_flip by lia. rewrite decide_False by lia.
    by rewrite Z.sub_sub_distr, Z.sub_diag.
Qed.

End Sync.
