(* ===== verification/HtreeCommit.v ===== *)
(** Changes of a hash tree are atomic, core/tee/fs_htree.c: until the header is
    written, the elements of the last committed tree stay as they are in the
    storage, and when it has been written the new tree is there. Whatever the
    storage does the blocks of a tree survive a commit, and a new tree has none:
    what the files of the REE file system rely on between two commits. *)
From S2P Require Import Prelude State Bytes ReeFile Htree HtreeRules HtreeBlocks HtreeAuth HtreeSync.

#[local] Ltac Zify.zify_post_hook ::= Z.div_mod_to_equations.

(** ** The elements of a committed tree *)

(** The version the node [i] is stored in, below a node stored in [v]. *)
Fixpoint vers_at (t : tree) (v i : Z) : option Z :=
  match t with
  | Nil => None
  | Node n l r =>
      if id n =? i then Some v else
      match vers_at l (child_vers (n_flags (node n)) 0) i with
      | Some x => Some x
      | None => vers_at r (child_vers (n_flags (node n)) 1) i
      end
  end.

(** The version of the root and, by the way, of the header. *)
Definition root_vers (ht : tee_fs_htree) : Z := Z.b2z (Z.testbit (h_counter (head ht)) 0).

(** The elements of the storage that make up the tree [c]. *)
Definition own (c : tee_fs_htree) (ty : tee_fs_htree_type) (i v : Z) : Prop :=
  match ty with
  | TEE_FS_HTREE_TYPE_HEAD => v = root_vers c
  | TEE_FS_HTREE_TYPE_NODE => vers_at (root c) (root_vers c) (i + 1) = Some v
  | TEE_FS_HTREE_TYPE_BLOCK =>
      (λ n, block_vers (n_flags (node n))) <$> node_at (root c) (i + 1) = Some v
  end.

Lemma root_vers_land ht : Z.land (h_counter (head ht)) 1 = root_vers ht.
Proof.
  unfold root_vers. change 1 with (Z.ones 1) at 1. rewrite Z.land_ones by lia.
  symmetry. apply Z.bit0_mod.
Qed.

Lemma vers_at_below m t : ∀ cur v i x, 0 < cur → shape m cur t → vers_at t v i = Some x → below cur i.
Proof.
  induction t as [|n l IHl r IHr]; intros cur v i x Hc; simpl; [done|]. intros (E & Hm & Sl & Sr).
  destruct (Z.eqb_spec (id n) i); [intros _; replace i with cur by lia; apply below_refl|].
  destruct (vers_at l _ i) eqn:El; intros Ex.
  - apply (below_child cur i 0); [by left|]. rewrite Z.add_0_r. by eapply (IHl (2 * cur)); [lia|exact Sl|exact El].
  - apply (below_child cur i 1); [by right|]. by eapply (IHr (2 * cur + 1)); [lia|exact Sr|exact Ex].
Qed.

(** Below a child only the child counts. *)
Lemma vers_at_child m n l r cur v i b :
  0 < cur → shape m cur (Node n l r) → b = 0 ∨ b = 1 → below (2 * cur + b) i →
  vers_at (Node n l r) v i =
  vers_at (if b =? 0 then l else r) (child_vers (n_flags (node n)) b) i.
Proof.
  intros Hc (E & Hm & Sl & Sr) Hb B. simpl.
  destruct (Z.eqb_spec (id n) i) as [Ei|]; [apply below_le in B; lia|].
  destruct Hb as [-> | ->]; simpl in *; rewrite ?Z.add_0_r in *.
  - destruct (vers_at l _ i); [done|]. destruct (vers_at r _ i) as [x|] eqn:Er; [|done].
    
    pose proof (vers_at_below m r (2 * cur + 1) _ i x ltac:(lia) Sr Er).
    by destruct (below_disjoint cur i Hc B).
  - destruct (vers_at l _ i) as [x|] eqn:El; [|done].
    
    pose proof (vers_at_below m l (2 * cur) _ i x ltac:(lia) Sl El) as B'.
    by destruct (below_disjoint cur i Hc B').
Qed.

Lemma node_at_child m n l r cur i b :
  0 < cur → shape m cur (Node n l r) → b = 0 ∨ b = 1 → below (2 * cur + b) i →
  node_at (Node n l r) i = node_at (if b =? 0 then l else r) i.
Proof.
  intros Hc (E & Hm & Sl & Sr) Hb B. simpl.
  destruct (Z.eqb_spec (id n) i) as [Ei|]; [apply below_le in B; lia|].
  destruct Hb as [-> | ->]; simpl in *; rewrite ?Z.add_0_r in *.
  - destruct (node_at l i); [done|]. destruct (node_at r i) as [x|] eqn:Er; [|done].
    destruct (node_at_below m (2 * cur + 1) r i x ltac:(lia) Sr Er) as (_ & _ & B').
    by destruct (below_disjoint cur i Hc B).
  - destruct (node_at l i) as [x|] eqn:El; [|done].
    destruct (node_at_below m (2 * cur) l i x ltac:(lia) Sl El) as (_ & _ & B').
    by destruct (below_disjoint cur i Hc B').
Qed.

(** ** Changed trees *)

(** A node of a tree that has changed since the tree of [o] was committed. *)
Definition tracks (o : option htree_node) (n : htree_node) : Prop :=
  (block_updated n = true → dirty n = true) ∧
  match o with
  | None => dirty n = true
  | Some n0 =>
      (∀ b, b = 0 ∨ b = 1 →
         child_vers (n_flags (node n)) b = child_vers (n_flags (node n0)) b) ∧
      block_vers (n_flags (node n)) =
        (if block_updated n then 1 - block_vers (n_flags (node n0))
         else block_vers (n_flags (node n0))) ∧
      (dirty n = false → node n = node n0)
  end.

Record follows (c ht : tee_fs_htree) : Prop := {
  f_formed : formed ht;
  f_base : formed c;
  f_counter : h_counter (head ht) = h_counter (head c);
  f_node : ∀ i n, node_at (root ht) i = Some n → tracks (node_at (root c) i) n;
}.

(** The same, along the trees. *)
Fixpoint tracks_tree (c t : tree) : Prop :=
  match t with
  | Nil => True
  | Node n l r =>
      match c with
      | Nil => tracks None n ∧ tracks_tree Nil l ∧ tracks_tree Nil r
      | Node n0 l0 r0 => tracks (Some n0) n ∧ tracks_tree l0 l ∧ tracks_tree r0 r
      end
  end.

Lemma tracks_tree_intro m0 m t : ∀ c cur,
  0 < cur → shape m0 cur c → shape m cur t →
  (∀ i n, node_at t i = Some n → tracks (node_at c i) n) → tracks_tree c t.
Proof.
  induction t as [|n l IHl r IHr]; intros c cur Hc Sc St Ht; simpl; [done|].
  pose proof St as (E & Hm & Sl & Sr).
  assert (Top : tracks (node_at c cur) n) by (apply Ht; simpl; by rewrite E, Z.eqb_refl).
  assert (Sub : ∀ b i x, b = 0 ∨ b = 1 → node_at (if b =? 0 then l else r) i = Some x →
    below (2 * cur + b) i ∧ tracks (node_at c i) x).
  { intros b i x Hb Ex.
    assert (B : below (2 * cur + b) i).
    { destruct Hb as [-> | ->]; simpl in Ex; rewrite ?Z.add_0_r.
      - by destruct (node_at_below m (2 * cur) l i x ltac:(lia) Sl Ex) as (_ & _ & ?).
      - by destruct (node_at_below m (2 * cur + 1) r i x ltac:(lia) Sr Ex) as (_ & _ & ?). }
    split; [done|]. apply Ht. by rewrite (node_at_child m n l r cur i b). }
  destruct c as [|n0 l0 r0]; simpl in Top.
  - split_and!; [done| |].
    + apply (IHl Nil (2 * cur)); [lia|simpl in *; lia|done|]. intros i x Ex. by apply (Sub 0 i x); [left|].
    + apply (IHr Nil (2 * cur + 1)); [lia|simpl in *; lia|done|]. intros i x Ex. by apply (Sub 1 i x); [right|].
  - pose proof Sc as (E0 & _ & Sl0 & Sr0). rewrite E0, Z.eqb_refl in Top. split_and!; [done| |].
    + apply (IHl l0 (2 * cur)); [lia|done|done|]. intros i x Ex.
      destruct (Sub 0 i x) as [B T]; [by left|done|].
      by rewrite (node_at_child m0 n0 l0 r0 cur i 0) in T by (auto || lia).
    + apply (IHr r0 (2 * cur + 1)); [lia|done|done|]. intros i x Ex.
      destruct (Sub 1 i x) as [B T]; [by right|done|].
      by rewrite (node_at_child m0 n0 l0 r0 cur i 1) in T by (auto || lia).
Qed.

Section Commit.
Context `{HtreeEnvLaws}.

(** ** Committing *)

(** The versions a commit writes are not those of [c]. *)
Lemma writable_own c m0 m t : ∀ c0 cur v,
  0 < cur → shape m0 cur c0 → shape m cur t → tracks_tree c0 t →
  (∀ i, below cur i → vers_at (root c) (root_vers c) i = vers_at c0 v i) →
  writable (own c) t (1 - v).
Proof.
  induction t as [|n l IHl r IHr]; intros c0 cur v Hc Sc St T Ev; simpl; [done|].
  pose proof St as (E & Hm & Sl & Sr). rewrite E. replace (cur - 1 + 1) with cur by lia.
  rewrite (Ev cur (below_refl cur)).
  assert (Ev' : ∀ b i, b = 0 ∨ b = 1 → below (2 * cur + b) i →
    vers_at (root c) (root_vers c) i = vers_at c0 v i)
    by (intros b i Hb B; apply Ev; by apply (below_child cur i b)).
  destruct c0 as [|n0 l0 r0].
  - destruct T as (_ & Tl & Tr). split_and!; [done| |].
    + apply (IHl Nil (2 * cur)); [lia|simpl in *; lia|done|done|].
      intros i B. apply (Ev' 0); [by left|by rewrite Z.add_0_r].
    + apply (IHr Nil (2 * cur + 1)); [lia|simpl in *; lia|done|done|].
      intros i B. apply (Ev' 1); [by right|done].
  - destruct T as ((_ & Cv & _) & Tl & Tr). pose proof Sc as (E0 & _ & Sl0 & Sr0).
    rewrite (Cv 0), (Cv 1) by auto. split_and!.
    + simpl. rewrite E0, Z.eqb_refl. intros [= Ev0]. lia.
    + apply (IHl l0 (2 * cur)); [lia|done|done|done|].
      intros i B. rewrite (Ev' 0); [|by left|by rewrite Z.add_0_r].
      apply (vers_at_child m0 n0 l0 r0 cur v i 0); [done|done|by left|by rewrite Z.add_0_r].
    + apply (IHr r0 (2 * cur + 1)); [lia|done|done|done|].
      intros i B. rewrite (Ev' 1); [|by right|done].
      by apply (vers_at_child m0 n0 l0 r0 cur v i 1); [|done|right|].
Qed.

(** The nodes that are not written are stored already. *)
Lemma clean_stored_intro m0 m w t : ∀ c0 cur v,
  0 < cur → shape m0 cur c0 → shape m cur t → tracks_tree c0 t → stored_tree w c0 v →
  clean_stored w t v.
Proof.
  induction t as [|n l IHl r IHr]; intros c0 cur v Hc Sc St T S; simpl; [done|].
  pose proof St as (E & Hm & Sl & Sr). destruct c0 as [|n0 l0 r0].
  - destruct T as ((_ & Dn) & Tl & Tr). rewrite Dn. split_and!; [done| |].
    + apply (IHl Nil (2 * cur)); [lia|simpl in *; lia|done..].
    + apply (IHr Nil (2 * cur + 1)); [lia|simpl in *; lia|done..].
  - destruct T as ((_ & Cv & _ & Same) & Tl & Tr). pose proof Sc as (E0 & _ & Sl0 & Sr0).
    destruct S as (Cn & Cl & Cr). rewrite (Cv 0), (Cv 1) by auto. split_and!.
    + intros D. destruct (clean_children _ _ _ D) as (Dn & _). rewrite (Same Dn), E, <- E0. done.
    + by apply (IHl l0 (2 * cur)); [lia|..].
    + by apply (IHr r0 (2 * cur + 1)); [lia|..].
Qed.

Lemma updated_dirty_intro t : ∀ c0, tracks_tree c0 t → updated_dirty t.
Proof.
  induction t as [|n l IHl r IHr]; intros c0 T; simpl; [done|].
  destruct c0 as [|n0 l0 r0]; destruct T as ((U & _) & Tl & Tr); split_and!; eauto; by eapply IHl || by eapply IHr.
Qed.

(** The handle [ht] is what the storage holds. *)
Definition stored_handle (w : eworld) (c : tee_fs_htree) : Prop :=
  cell w TEE_FS_HTREE_TYPE_HEAD 0 (root_vers c) = Some (head_bytes (head c)) ∧
  stored_tree w (root c) (root_vers c).

Lemma stored_tree_keeps m w w' t : ∀ cur v,
  0 < cur → shape m cur t →
  (∀ i x, vers_at t v i = Some x →
     cell w' TEE_FS_HTREE_TYPE_NODE (i - 1) x = cell w TEE_FS_HTREE_TYPE_NODE (i - 1) x) →
  stored_tree w t v → stored_tree w' t v.
Proof.
  induction t as [|n l IHl r IHr]; intros cur v Hc St C; simpl; [done|].
  pose proof St as (E & Hm & Sl & Sr). intros (Sn & Ul & Ur). split_and!.
  - rewrite C; [done|]. simpl. by rewrite Z.eqb_refl.
  - apply (IHl (2 * cur)); [lia|done| |done]. intros i x Ex. apply C.
    rewrite (vers_at_child m n l r cur v i 0); [done|done|done|by left|].
    rewrite Z.add_0_r. by eapply vers_at_below; [|done|done]; lia.
  - apply (IHr (2 * cur + 1)); [lia|done| |done]. intros i x Ex. apply C.
    rewrite (vers_at_child m n l r cur v i 1); [done|done|done|by right|].
    by eapply vers_at_below; [|done|done]; lia.
Qed.

(** What keeps the elements of [c] keeps [c] stored. *)
Lemma stored_keeps w w' c :
  formed c → keeps (own c) w w' → stored_handle w c → stored_handle w' c.
Proof.
  intros [[_ S] _] Kp [Hd Tr]. split; [by rewrite Kp|].
  eapply (stored_tree_keeps (nodes c) w _ _ 1); [lia|done| |done].
  intros i x Ex. apply Kp. simpl. by replace (i - 1 + 1) with i by lia.
Qed.

(** The header is that of the tree. *)
Definition sealed (ht : tee_fs_htree) : Prop :=
  authenc_enc (fek ht) (h_iv (head ht)) (c_aad (ctx_of ht None (h_iv (head ht))))
    (imeta_bytes (imeta ht)) = Some (h_imeta (head ht), h_tag (head ht)) ∧
  length (h_iv (head ht)) = 16%nat ∧ length (h_imeta (head ht)) = 16%nat ∧
  length (h_tag (head ht)) = 16%nat.

(** [ht'] is [ht] after a commit. *)
Record committed_as (ht ht' : tee_fs_htree) : Prop := {
  k_root : root ht' = synced (Some (imeta ht)) (root ht);
  k_imeta : imeta ht' = imeta ht;
  k_fek : fek ht' = fek ht;
  k_uuid : ht_uuid ht' = ht_uuid ht;
  k_enc_fek : h_enc_fek (head ht') = h_enc_fek (head ht);
  k_counter : h_counter (head ht') = u32 (h_counter (head ht) + 1);
  k_clean : ht_dirty ht' = false;
  k_sealed : sealed ht';
}.

Lemma length_imeta_bytes m : length (imeta_bytes m) = 16%nat.
Proof. reflexivity. Qed.

Lemma update_root_spec K ht w :
  ends K (update_root ht) w (λ ht' w', cell w' = cell w ∧
    root ht' = root ht ∧ imeta ht' = imeta ht ∧ fek ht' = fek ht ∧ ht_uuid ht' = ht_uuid ht ∧
    h_enc_fek (head ht') = h_enc_fek (head ht) ∧
    h_counter (head ht') = u32 (h_counter (head ht) + 1) ∧ sealed ht').
Proof.
  unfold update_root. e_step. apply ends_authenc_init. intros iv w1 C1 Liv. e_step.
  apply ends_encrypt_final. intros c t w2 C2 Ec Lc Lt. e_step.
  rewrite length_imeta_bytes in Lc. unfold TEE_FS_HTREE_IV_SIZE in Liv.
  split; [congruence|]. do 6 (split; [done|]). split; [exact Ec|]. simpl. lia.
Qed.

Lemma root_vers_next ht ht' :
  h_counter (head ht') = u32 (h_counter (head ht) + 1) → root_vers ht' = 1 - root_vers ht.
Proof.
  intros E. unfold root_vers. rewrite E, !Z.bit0_mod. unfold u32. lia.
Qed.

Lemma tracked_root c ht : follows c ht → tracks_tree (root c) (root ht).
Proof.
  intros [[[? S] _] [[? Sc] _] _ T]. by apply (tracks_tree_intro (nodes c) (nodes ht) _ _ 1).
Qed.

Lemma sync_tree_spec c ht w :
  follows c ht →
  ends (own c) (sync_tree ht) w (λ '(ht', (h, counter)) _,
    committed_as ht ht' ∧ h = child_hash (root ht') ∧ counter = h_counter (head ht')).
Proof.
  intros F. pose proof F as [[[? S] _] [[? Sc] _] Ec _]. unfold sync_tree.
  set (p0 := SyncRoot (h_counter (head ht)) (imeta ht)).
  assert (V : new_vers 1 p0 = 1 - root_vers c).
  { unfold new_vers, p0, root_vers. rewrite Ec. by destruct (Z.testbit (h_counter (head c)) 0). }
  e_step. eapply ends_mono.
  { apply (sync_nodes_spec _ (nodes ht) _ 1); [lia|done| |].
    - apply (updated_dirty_intro _ (root c)). by apply tracked_root.
    - rewrite V. apply (writable_own c (nodes c) (nodes ht) _ (root c) 1); try done.
      by apply tracked_root. }
  intros [t' p'] w1 _ [-> ->]. e_step. eapply ends_mono; [apply update_root_spec|].
  intros ht1 w2 _ (_ & R & I & Fk & U & En & Cn & Se). cbv beta iota. e_step.
  unfold rpc_write_head. rewrite root_vers_land. apply ends_rpc_write; [apply vers_ok_b2z| |].
  { intros Eq. change (root_vers ht1 = root_vers c) in Eq.
    rewrite (root_vers_next ht ht1) in Eq by exact Cn. unfold root_vers in Eq. rewrite Ec in Eq.
    by destruct (Z.testbit (h_counter (head c)) 0). }
  intros w3 _ _. e_step. split_and!; done.
Qed.

Lemma sync_tree_stored c ht w :
  faithful → follows c ht → dirty_in (root ht) = true → stored_handle w c →
  wp (sync_tree ht) w (λ r w',
    match r with inl _ => True | inr (ht', _) => stored_handle w' ht' end).
Proof.
  intros Fa F D [_ St]. pose proof F as [[[? S] _] [[? Sc] _] Ec _]. unfold sync_tree.
  set (p0 := SyncRoot (h_counter (head ht)) (imeta ht)).
  assert (V : new_vers 1 p0 = 1 - root_vers ht).
  { unfold new_vers, p0, root_vers. by destruct (Z.testbit (h_counter (head ht)) 0). }
  assert (E : ends (λ _ _ _, False) (sync_tree ht) w (λ '(ht', _) w', stored_handle w' ht')).
  { unfold sync_tree. e_step. eapply wp_mono.
    { apply (sync_nodes_stored (nodes ht) _ 1 p0); [done|lia|done| |].
      - apply (updated_dirty_intro _ (root c)). by apply tracked_root.
      - rewrite V, Z.sub_sub_distr, Z.sub_diag. unfold root_vers. rewrite Ec.
        apply (clean_stored_intro (nodes c) (nodes ht) w _ (root c) 1); try done.
        by apply tracked_root. }
    intros [res|[t' p']] w1 [_ R]; (split; [by intros ? ? ? []|]); [done|]. destruct R as [[= -> ->] St1].
    rewrite D, V in St1. cbv beta iota. e_step.
    eapply ends_mono; [apply update_root_spec|].
    intros ht1 w2 _ (C2 & R & I & Fk & U & En & Cn & Se). cbv beta iota. e_step.
    unfold rpc_write_head. rewrite root_vers_land. apply ends_rpc_write; [apply vers_ok_b2z|by intros []|].
    intros w3 C3 S3. e_step. split; [by apply S3|]. simpl. rewrite R. simpl.
    change (root_vers (with_dirty false ht1)) with (root_vers ht1).
    rewrite (root_vers_next ht ht1) by done.
    apply (stored_tree_frame (nodes ht) w1 _ _ 1); [by apply synced_shape| |done].
    intros i v _. rewrite C3 by done. by rewrite C2. }
  eapply wp_mono; [exact E|]. by intros [res|[ht' out]] w' [_ R].
Qed.

(** ** Changing blocks *)

Lemma block_flags_vers nd :
  block_vers (block_flags nd) =
    (if block_updated nd then block_vers (n_flags (node nd)) else 1 - block_vers (n_flags (node nd))) ∧
  ∀ b, b = 0 ∨ b = 1 → child_vers (block_flags nd) b = child_vers (n_flags (node nd)) b.
Proof.
  unfold block_flags, block_vers, child_vers, HTREE_NODE_COMMITTED_BLOCK.
  destruct (block_updated nd); [done|]. rewrite testbit_flip by lia. split.
  - by destruct (Z.testbit _ 0).
  - intros b Hb. rewrite testbit_flip by lia. destruct (Z.eqb_spec 0 (1 + b)); [lia|].
    by rewrite xorb_false_r.
Qed.

Lemma dirty_in_node_at t i n : node_at t i = Some n → dirty n = true → dirty_in t = true.
Proof.
  induction t as [|n' l IHl r IHr]; simpl; [done|]. destruct (id n' =? i).
  - intros [= ->] ->. done.
  - destruct (node_at l i) as [x|]; intros Er D; [rewrite (IHl Er D)|rewrite (IHr Er D)];
      by rewrite orb_true_r.
Qed.

Lemma write_block_follows c ht n b w :
  follows c ht → 0 ≤ n < 2 ^ 20 → n ≤ nodes ht → n < nodes ht ∨ nodes c ≤ nodes ht →
  ends (own c) (write_block ht n b) w (λ ht' _,
    follows c ht' ∧ nodes ht' = Z.max (nodes ht) (n + 1) ∧
    m_length (imeta ht') = m_length (imeta ht) ∧
    (∀ m, tree_data ht' m = if decide (m = n) then Some b else tree_data ht m) ∧
    dirty_in (root ht') = true ∧ ht_dirty ht' = true).
Proof.
  intros Fo Hn Hle Hnew. pose proof Fo as [F Fc Ec T].
  apply ends_write_block; [done|done|done|]. intros ht1 nd Wn End.
  pose proof Wn as (F1 & Hm & N & Eh & Ef & El & _). destruct (block_flags_vers nd) as [Bv Cv].
  assert (Old : node_at (root c) (n + 1) = None ∨ tracks (node_at (root c) (n + 1)) nd).
  { specialize (N (n + 1)). rewrite End in N. case_decide as D.
    - left. apply (whole_none (nodes c)); [apply Fc|lia].
    - right. by apply T. }
  split.
  - simpl. unfold HTREE_NODE_COMMITTED_BLOCK. rewrite has_flag_testbit by done.
    fold (block_vers (block_flags nd)). destruct Old as [->|[_ Tn]]; [done|].
    destruct (node_at (root c) (n + 1)) as [n0|]; [|done]. destruct Tn as (_ & B0 & _). simpl.
    intros [= E]. rewrite Bv, B0 in E. destruct (block_updated nd); lia.
  - intros iv ci t w' _ _ Ee. split_and!.
    + split; [by apply formed_put|done|by simpl; rewrite Eh|]. intros i x.
      rewrite (node_at_put ht) by done. destruct (decide (i = n + 1)) as [->|]; [|apply T].
      intros [= <-]. split; [done|]. destruct Old as [->|[_ Tn]]; [done|].
      destruct (node_at (root c) (n + 1)) as [n0|]; [|done]. destruct Tn as (C0 & B0 & _).
      cbn [node n_flags block_updated dirty]. split_and!; [|by rewrite Bv, B0; destruct (block_updated nd); lia|done].
      intros b' Hb. by rewrite Cv, C0.
    + done.
    + done.
    + intros m. unfold tree_data, node_data. rewrite (node_at_put ht) by done.
      destruct (decide (m = n)) as [->|Nm].
      * rewrite decide_True by done. simpl. rewrite Ef, Eh. f_equal. by eapply enc_plain.
      * rewrite decide_False by lia. simpl. by rewrite Eh, Ef.
    + eapply dirty_in_node_at; [rewrite (node_at_put ht) by done; by rewrite decide_True|done].
    + done.
Qed.

(** Cutting the tree, and its metadata. *)
Lemma truncate_follows c ht ht' k :
  follows c ht → formed ht' → head ht' = head ht → 
  (∀ j, j ≤ k → node_at (root ht') j = node_at (root ht) j) → nodes ht' ≤ k → follows c ht'.
Proof.
  intros [F Fc Ec T] F' Eh N Hk. split; [done|done|by rewrite Eh|]. intros i n En.
  apply T. rewrite <- N; [done|]. pose proof F' as [W _].
  destruct (whole_id _ _ _ _ W En). lia.
Qed.

Lemma set_dirty_follows c ht len : follows c ht → follows c (tee_fs_htree_meta_set_dirty len ht).
Proof.
  intros [F Fc Ec T]. split; [by apply (set_dirty_spec ht len F)|done|done|].
  intros i n En. simpl in En. pose proof F as [W _]. destruct (root ht) as [|nd l r] eqn:Er; [done|].
  simpl in En. specialize (T i). simpl in T. destruct (Z.eqb_spec (id nd) i); [|auto].
  injection En as <-. destruct (T nd eq_refl) as [U Tn]. split; [done|].
  destruct (node_at (root c) i); [|done]. destruct Tn as (Cv & Bv & _). by split_and!.
Qed.

(** ** The committed tree *)

Definition same_block (n n' : htree_node) : Prop :=
  n_iv (node n') = n_iv (node n) ∧ n_tag (node n') = n_tag (node n) ∧ block_updated n' = false.

(** A commit keeps the blocks of the nodes. *)
Lemma synced_node_at t : ∀ meta i,
  updated_dirty t →
  match node_at t i, node_at (synced meta t) i with
  | Some n, Some n' => same_block n n'
  | None, None => True
  | _, _ => False
  end.
Proof.
  induction t as [|n l IHl r IHr]; intros meta i U; simpl; [done|]. destruct U as (Un & Ul & Ur).
  specialize (IHl None i Ul). specialize (IHr None i Ur).
  destruct (dirty n || dirty_in l || dirty_in r) eqn:D; simpl.
  - destruct (id n =? i); [done|]. by destruct (node_at l i), (node_at (synced None l) i).
  - destruct (clean_children _ _ _ D) as (Dn & Dl & Dr). rewrite !synced_clean in * by done.
    destruct (id n =? i).
    + split_and!; [done|done|]. destruct (block_updated n); [by rewrite Un in Dn|done].
    + by destruct (node_at l i).
Qed.

Lemma all_nodes_node_at P t i n : all_nodes P t → node_at t i = Some n → P n.
Proof.
  induction t as [|n' l IHl r IHr]; simpl; [done|]. intros (Pn & Pl & Pr).
  destruct (id n' =? i); [by intros [= ->]|]. destruct (node_at l i); auto.
Qed.

Lemma committed_formed ht ht' : formed ht → committed_as ht ht' → formed ht'.
Proof.
  intros [[B S] M] [R I _ _ _ _ _ _]. split; [|by rewrite I]. unfold nodes. rewrite I, R.
  split; [done|]. by apply synced_shape.
Qed.

(** A committed tree is the start of the next changes. *)
Lemma committed_follows c ht ht' : follows c ht → committed_as ht ht' → follows ht' ht'.
Proof.
  intros Fo K. pose proof (committed_formed ht ht' (f_formed _ _ Fo) K) as F'.
  split; [done|done|done|]. intros i n En. rewrite En.
  assert (B : block_updated n = false).
  { rewrite (k_root _ _ K) in En. pose proof (updated_dirty_intro _ _ (tracked_root c ht Fo)) as U.
    pose proof (synced_node_at (root ht) (Some (imeta ht)) i U) as N. rewrite En in N.
    destruct (node_at (root ht) i); [|done]. apply N. }
  split; [by rewrite B|]. rewrite B. by split_and!.
Qed.

Lemma committed_data c ht ht' m : follows c ht → committed_as ht ht' → tree_data ht' m = tree_data ht m.
Proof.
  intros Fo [R _ Ef _ Ee _ _ _]. unfold tree_data, node_data. rewrite R, Ef, Ee.
  pose proof (updated_dirty_intro _ _ (tracked_root c ht Fo)) as U.
  pose proof (synced_node_at (root ht) (Some (imeta ht)) (m + 1) U) as N.
  destruct (node_at (root ht) (m + 1)), (node_at (synced _ (root ht)) (m + 1)); try done.
  simpl. destruct N as (-> & -> & _). done.
Qed.

End Commit.

(** ** A batch of changes *)

Inductive tree_op :=
| TWrite (n : Z) (block : list Z)
| TTruncate (n : Z)
| TSetLength (len : Z).

(** The calls that are made, for a tree of [k] nodes that was committed with
    [k0]: a block follows the last one, and none comes back that was cut off
    since the last commit. *)
Fixpoint ops_ok (k0 k : Z) (ops : list tree_op) : Prop :=
  match ops with
  | [] => True
  | TWrite n b :: ops => 0 ≤ n < 2 ^ 20 ∧ (n < k ∨ n = k ∧ k0 ≤ k) ∧ ops_ok k0 (Z.max k (n + 1)) ops
  | TTruncate n :: ops => 0 ≤ n < 2 ^ 20 ∧ ops_ok k0 (Z.min k (n + 1)) ops
  | TSetLength len :: ops => ops_ok k0 k ops
  end.

(** What they should do to the blocks and the length. *)
Definition op_data (op : tree_op) (d : Z → option (list Z)) : Z → option (list Z) :=
  match op with
  | TWrite n b => λ m, if decide (m = n) then Some b else d m
  | TTruncate n => λ m, if decide (m ≤ n) then d m else None
  | TSetLength _ => d
  end.

Definition op_length (op : tree_op) (len : Z) : Z :=
  match op with TSetLength len => len | _ => len end.

Definition ops_data (ops : list tree_op) (d : Z → option (list Z)) : Z → option (list Z) :=
  foldl (λ d op, op_data op d) d ops.

Definition ops_length (ops : list tree_op) (len : Z) : Z := foldl (λ len op, op_length op len) len ops.

Section Batch.
Context `{HtreeEnvLaws}.

Definition tree_call (op : tree_op) (ht : tee_fs_htree) : St eworld (Z * option tee_fs_htree) :=
  match op with
  | TWrite n b => tee_fs_htree_write_block (Some ht) n b
  | TTruncate n => tee_fs_htree_truncate (Some ht) n
  | TSetLength len => st_ret (TEE_SUCCESS, Some (tee_fs_htree_meta_set_dirty len ht))
  end.

(** The calls until one fails and closes the tree. *)
Fixpoint tree_calls (ops : list tree_op) (ht : tee_fs_htree) : St eworld (Z * option tee_fs_htree) :=
  match ops with
  | [] => st_ret (TEE_SUCCESS, Some ht)
  | op :: ops =>
      st_bind (tree_call op ht) (λ '(res, r),
        match r with
        | Some ht' => tree_calls ops ht'
        | None => st_ret (res, None)
        end)
  end.

(** The changes and the commit. *)
Definition update (ops : list tree_op) (ht : tee_fs_htree)
  : St eworld (Z * option (list Z * Z) * option tee_fs_htree) :=
  st_bind (tree_calls ops ht) (λ '(res, r),
    match r with
    | Some ht' => tee_fs_htree_sync_to_storage (Some ht')
    | None => st_ret (res, None, None)
    end).

(** A handle in the middle of a batch: [k] nodes, the length and the blocks,
    and whether the last call leaves something to commit. *)
Record changing (c ht : tee_fs_htree) (k len : Z) (d : Z → option (list Z)) : Prop := {
  g_follows : follows c ht;
  g_nodes : nodes ht = k;
  g_length : m_length (imeta ht) = len;
  g_data : ∀ m, tree_data ht m = d m;
}.

Definition op_nodes (op : tree_op) (k : Z) : Z :=
  match op with
  | TWrite n _ => Z.max k (n + 1)
  | TTruncate n => Z.min k (n + 1)
  | TSetLength _ => k
  end.

Definition to_commit (op : tree_op) (ht : tee_fs_htree) : Prop :=
  (∀ n, op ≠ TTruncate n) → dirty_in (root ht) = true ∧ ht_dirty ht = true.

Lemma tree_call_ok c ht op k len d w :
  changing c ht k len d → ops_ok (nodes c) k [op] →
  wp (tree_call op ht) w (λ '(res, r) w', keeps (own c) w w' ∧
    (res = TEE_SUCCESS ∧
       (∃ ht', r = Some ht' ∧ changing c ht' (op_nodes op k) (op_length op len) (op_data op d) ∧
          to_commit op ht') ∨
     res ≠ TEE_SUCCESS ∧ r = None)).
Proof.
  intros [Fo <- <- Hd] Ok. pose proof (f_formed _ _ Fo) as F. destruct op as [n b|n|len'].
  - destruct Ok as (Hn & Hk & _). unfold tree_call, tee_fs_htree_write_block. apply wp_bind.
    eapply wp_mono; [apply (write_block_follows c ht n b); [done|done|lia|lia]|].
    intros [res|ht'] w' [Kp R]; apply wp_ret; (split; [done|]); [right; by destruct R|left].
    destruct R as (Fo' & Hm & Hl & Hd' & Di & Hdy). split; [done|]. exists ht'. split_and!; [done| |done].
    split; [done|done|done|]. intros m. simpl. rewrite Hd'. by rewrite Hd.
  - destruct Ok as (Hn & _). unfold tree_call. eapply wp_mono; [by apply truncate_spec|].
    intros [res r] w' (-> & -> & ht' & -> & F' & Hm & Eh & Ef & El & N).
    split; [by apply stays_eq|]. left. split; [done|]. exists ht'. split_and!; [done| |by intros C; edestruct C].
    split; [|done|done|].
    + apply (truncate_follows c ht ht' (n + 1)); [done|done|done|done|lia].
    + intros m. simpl. rewrite <- Hd. case_decide as D.
      * apply tree_data_ext; [done|done|]. by rewrite N by lia.
      * unfold tree_data. rewrite (whole_none (nodes ht')); [done|apply F'|lia].
  - unfold tree_call. apply wp_ret. split; [by apply stays_eq|]. left. split; [done|].
    eexists. split_and!; [done| |].
    + destruct (set_dirty_spec ht len' F) as (_ & _ & _ & D).
      split; [by apply set_dirty_follows|done|done|]. intros m. simpl. by rewrite D.
    + intros _. split; [|done]. simpl. destruct (root ht) as [|nd l r] eqn:Er; [|done].
      destruct F as [[? S] _]. rewrite Er in S. simpl in S. lia.
Qed.

Lemma ops_ok_app k0 a b : ∀ k,
  ops_ok k0 k (a ++ b) ↔ ops_ok k0 k a ∧ ops_ok k0 (foldl (λ k op, op_nodes op k) k a) b.
Proof.
  induction a as [|[n bl|n|len] a IH]; intros k; simpl; [tauto|rewrite IH..]; tauto.
Qed.

(** A batch that is not committed leaves the elements of [c] alone. *)
Lemma tree_calls_ok c ops : ∀ ht op k len d w,
  changing c ht k len d → ops_ok (nodes c) k (ops ++ [op]) →
  wp (tree_calls (ops ++ [op]) ht) w (λ '(res, r) w', keeps (own c) w w' ∧
    (res = TEE_SUCCESS ∧
       (∃ ht' k', r = Some ht' ∧ changing c ht' k' (ops_length (ops ++ [op]) len)
                   (ops_data (ops ++ [op]) d) ∧ to_commit op ht') ∨
     res ≠ TEE_SUCCESS ∧ r = None)).
Proof.
  induction ops as [|op0 ops IH]; intros ht op k len d w G Ok; simpl app in *; cbn [tree_calls].
  - apply wp_bind. eapply wp_mono; [by apply tree_call_ok|].
    intros [res r] w' [Kp [(-> & ht' & -> & G' & T)|[N ->]]]; apply wp_ret; (split; [done|]); [left|by right].
    split; [done|]. by eexists _, _.
  - change (op0 :: ops ++ [op]) with ([op0] ++ (ops ++ [op])) in Ok.
    apply ops_ok_app in Ok as [Ok0 Ok]. apply wp_bind. eapply wp_mono; [by apply tree_call_ok|].
    intros [res r] w' [Kp [(-> & ht' & -> & G' & _)|[N ->]]].
    + eapply wp_mono; [by apply (IH ht' op _ _ _ w' G')|]. intros [res r] w2 [Kp2 R].
      split; [by eapply stays_trans|]. exact R.
    + apply wp_ret. split; [done|by right].
Qed.

(** What a commit does to a handle in the middle of a batch. *)
Lemma sync_ok c ht k len d w :
  changing c ht k len d → dirty_in (root ht) = true → ht_dirty ht = true → stored_handle w c →
  wp (tee_fs_htree_sync_to_storage (Some ht)) w (λ '(res, out, r) w', keeps (own c) w w' ∧
    (res = TEE_SUCCESS → ∃ ht', r = Some ht' ∧ committed_as ht ht' ∧
       changing ht' ht' (nodes ht') len d ∧
       out = Some (child_hash (root ht'), h_counter (head ht')) ∧
       (faithful → stored_handle w' ht'))).
Proof.
  intros [Fo <- <- Hd] Di Dy St. unfold tee_fs_htree_sync_to_storage. rewrite Dy. cbn [negb].
  apply wp_bind. eapply wp_mono; [apply status_ok|]. intros res w1 [_ C1].
  destruct (Z.eqb_spec res TEE_SUCCESS) as [->|]; cbn [negb].
  2: { apply wp_ret. split; [by apply stays_eq|done]. }
  assert (St1 : stored_handle w1 c).
  { apply (stored_keeps w); [apply Fo|by apply stays_eq|done]. }
  apply wp_bind. destruct (sync_tree_spec c ht w1 Fo) as (r & w2 & Er & Kp & R).
  exists r, w2. split; [exact Er|]. apply wp_ret.
  destruct r as [res|[ht' [hs cnt]]]; (split; [eapply stays_trans; [by apply stays_eq|done]|]).
  { intros ->. by destruct R. }
  destruct R as (K & -> & ->). intros _. exists ht'. split_and!; [done|done| |done|].
  - split; [by eapply committed_follows|done|by rewrite (k_imeta _ _ K)|].
    intros m. rewrite <- Hd. by eapply committed_data.
  - intros Fa. destruct (sync_tree_stored c ht w1 Fa Fo Di St1) as (r2 & w3 & Er2 & R2).
    rewrite Er in Er2. by injection Er2 as <- <-.
Qed.

(** C3: The changes of a hash tree are atomic. Take a tree [c] that is committed
    in the storage, a handle that follows it, and a batch of block writes,
    truncations and changes of the length, followed by
    [tee_fs_htree_sync_to_storage]. Writes replace a block or follow the last
    one, none brings back a block that was cut off since the last commit, and
    the last call of the batch is no truncation ([ops_ok]), which is how files
    use their tree. Any call below may fail at any point, whatever the storage
    answers. No element of the storage that [c] is made of - its header, its
    nodes and its blocks in their committed versions - changes, so [c] stays
    committed; and when the batch succeeds, the handle that results has the
    counter of [c] plus one, the length that the batch says and, as long as no
    tag of the cipher is forged ([CipherLaws]), the blocks that the batch says,
    with the hash of its root reported, and ready for the next batch; it is
    committed as well on a storage that keeps what is written. *)
Theorem htree_update_atomic c ht ops op w :
  follows c ht → stored_handle w c → ops_ok (nodes c) (nodes ht) (ops ++ [op]) →
  (∀ n, op ≠ TTruncate n) →
  wp (update (ops ++ [op]) ht) w (λ '(res, out, r) w',
    (∀ ty i v, own c ty i v → cell w' ty i v = cell w ty i v) ∧ stored_handle w' c ∧
    (res = TEE_SUCCESS → ∃ ht', r = Some ht' ∧ follows ht' ht' ∧
       h_counter (head ht') = u32 (h_counter (head c) + 1) ∧
       out = Some (child_hash (root ht'), h_counter (head ht')) ∧
       m_length (imeta ht') = ops_length (ops ++ [op]) (m_length (imeta ht)) ∧
       (∀ m, tree_data ht' m = ops_data (ops ++ [op]) (tree_data ht) m) ∧
       (faithful → stored_handle w' ht'))).
Proof.
  intros Fo St Ok Hop. unfold update. apply wp_bind.
  assert (G : changing c ht (nodes ht) (m_length (imeta ht)) (tree_data ht)) by by split.
  eapply wp_mono; [by eapply tree_calls_ok; [exact G|exact Ok]|].
  assert (Fin : ∀ w', keeps (own c) w w' →
    (∀ ty i v, own c ty i v → cell w' ty i v = cell w ty i v) ∧ stored_handle w' c).
  { intros w' Kp. split; [exact Kp|]. by apply (stored_keeps w); [apply Fo|..]. }
  intros [res r] w1 [Kp [(-> & ht1 & k1 & -> & G1 & T)|[N ->]]].
  - destruct (T Hop) as [Di Dy].
    eapply wp_mono; [eapply (sync_ok c ht1); [exact G1|done|done|by apply Fin]|].
    intros [[res out] r] w2 [Kp2 R]. pose proof (stays_trans _ _ _ _ Kp Kp2) as Kp'.
    split; [by apply Fin|]. split; [by apply Fin|]. intros Es.
    destruct (R Es) as (ht' & -> & K & [Fo' _ Hl Hd] & -> & Sf). exists ht'.
    split_and!; try done. rewrite (k_counter _ _ K).
    by rewrite (f_counter _ _ (g_follows _ _ _ _ _ G1)).
  - apply wp_ret. split; [by apply Fin|]. split; [by apply Fin|]. done.
Qed.

End Batch.

(** No element is kept. *)
Definition nothing (ty : tee_fs_htree_type) (i v : Z) : Prop := False.

Lemma writable_nothing t : ∀ v, writable nothing t v.
Proof. induction t as [|n l IHl r IHr]; intros v; simpl; [done|]. split_and!; auto. Qed.

(** The properties of the nodes, by position and along the tree. *)
Lemma all_nodes_intro (P : htree_node → Prop) m t : ∀ cur,
  0 < cur → shape m cur t → (∀ i n, node_at t i = Some n → P n) → all_nodes P t.
Proof.
  induction t as [|n l IHl r IHr]; intros cur Hc S HP; simpl; [done|].
  pose proof S as (E & Hm & Sl & Sr). split_and!.
  - apply (HP cur). simpl. by rewrite E, Z.eqb_refl.
  - apply (IHl (2 * cur)); [lia|done|]. intros i x Ex. apply (HP i).
    destruct (node_at_below m (2 * cur) l i x ltac:(lia) Sl Ex) as (_ & _ & B).
    rewrite (node_at_child m n l r cur i 0); auto. by rewrite Z.add_0_r.
  - apply (IHr (2 * cur + 1)); [lia|done|]. intros i x Ex. apply (HP i).
    destruct (node_at_below m (2 * cur + 1) r i x ltac:(lia) Sr Ex) as (_ & _ & B).
    rewrite (node_at_child m n l r cur i 1); auto.
Qed.

Lemma all_nodes_impl (P Q : htree_node → Prop) t :
  (∀ n, P n → Q n) → all_nodes P t → all_nodes Q t.
Proof. intros PQ. induction t as [|n l IHl r IHr]; simpl; [done|]. intros (?&?&?). auto. Qed.

Lemma sound_nodes ht : sound ht → all_nodes node_ok (root ht).
Proof. intros [[[? S] _] M]. by apply (all_nodes_intro _ (nodes ht) _ 1). Qed.

Section Keep.
Context `{HtreeEnvLaws} (sha256_length : ∀ l, length (sha256 l) = 32%nat).

Lemma synced_ok t : ∀ meta, all_nodes node_ok t → all_nodes node_ok (synced meta t).
Proof.
  induction t as [|n l IHl r IHr]; intros meta; simpl; [done|]. intros (Sn & Sl & Sr).
  destruct (_ || _); [|done]. split_and!; [|by apply IHl|by apply IHr].
  split; [done|]. apply sha256_length.
Qed.

(** [ht'] holds what [ht] does. *)
Definition keeps_data (ht ht' : tee_fs_htree) : Prop :=
  sound ht' ∧ m_length (imeta ht') = m_length (imeta ht) ∧ ∀ m, tree_data ht' m = tree_data ht m.

Lemma keeps_data_refl ht : sound ht → keeps_data ht ht.
Proof. done. Qed.

Lemma committed_keeps ht ht' : sound ht → committed_as ht ht' → keeps_data ht ht'.
Proof.
  intros So [R I Ef _ Ee _ _ _]. pose proof (sound_nodes ht So) as Ok. destruct So as [[W M] _].
  assert (En : nodes ht' = nodes ht) by (unfold nodes; by rewrite I).
  split_and!; [split; [split|]|by rewrite I|].
  - rewrite En, R. split; [apply W|]. apply synced_shape, W.
  - by rewrite I.
  - intros i n. rewrite R. apply all_nodes_node_at. by apply synced_ok.
  - intros m. unfold tree_data, node_data. rewrite R, Ef, Ee.
    assert (U : updated_dirty (root ht)) by (eapply all_nodes_impl; [|exact Ok]; by intros n []).
    pose proof (synced_node_at (root ht) (Some (imeta ht)) (m + 1) U) as N.
    destruct (node_at (root ht) (m + 1)), (node_at (synced _ (root ht)) (m + 1)); try done.
    simpl. by destruct N as (-> & -> & _).
Qed.

Lemma sync_tree_keeps ht w :
  sound ht → ends nothing (sync_tree ht) w (λ '(ht', (h, _)) _, keeps_data ht ht' ∧ length h = 32%nat).
Proof.
  intros So. pose proof (sound_nodes ht So) as Ok. pose proof So as [[[? S] _] _].
  unfold sync_tree. set (p0 := SyncRoot (h_counter (head ht)) (imeta ht)). e_step. eapply ends_mono.
  { apply (sync_nodes_spec _ (nodes ht) _ 1 p0); [lia|done| |apply writable_nothing].
    eapply all_nodes_impl; [|exact Ok]. by intros n []. }
  intros [t' p'] w1 _ [-> ->]. e_step. eapply ends_mono; [apply update_root_spec|].
  intros ht1 w2 _ (_ & R & I & Fk & U & En & Cn & Se). cbv beta iota. e_step.
  unfold rpc_write_head. apply ends_rpc_write; [auto with vers|by intros []|].
  intros w3 _ _. e_step.
  assert (K : keeps_data ht (with_dirty false ht1)) by (by apply committed_keeps).
  split; [done|]. destruct K as [So' _]. apply sound_nodes in So'.
  change (root (with_dirty false ht1)) with (root ht1) in So' |- *.
  destruct (root ht1) as [|n l r] eqn:E1; [|apply So'].
  exfalso. simpl in R. apply (f_equal is_nil) in R. rewrite synced_nil in R.
  destruct (root ht); [simpl in S; lia|done].
Qed.

(** [tee_fs_htree_sync_to_storage] ends; when it succeeds the tree is there. *)
Lemma sync_to_storage_keeps ht w :
  sound ht →
  wp (tee_fs_htree_sync_to_storage (Some ht)) w (λ '(res, out, t') _,
    (quiet → res ≠ TEE_ERROR_ITEM_NOT_FOUND) ∧ (res = TEE_SUCCESS →
      (∃ ht', t' = Some ht' ∧ keeps_data ht ht') ∧
      match out with Some (h, _) => length h = 32%nat | None => True end)).
Proof.
  intros So. unfold tee_fs_htree_sync_to_storage. destruct (ht_dirty ht); cbn [negb].
  2: { apply wp_ret. split; [done|]. intros _. split; [|done]. by exists ht. }
  apply wp_bind. eapply wp_mono; [apply status_ok|]. intros res w1 [N _].
  destruct (Z.eqb_spec res TEE_SUCCESS) as [->|]; cbn [negb]; [|by apply wp_ret].
  apply wp_bind. eapply wp_mono; [by apply sync_tree_keeps|].
  intros [res|[ht' [h c]]] w2 [_ R]; apply wp_ret; [by destruct R|]. split; [done|]. intros _.
  destruct R as [K L]. split; [by exists ht'|done].
Qed.

(** A tree that is created has no blocks. *)
Lemma new_root_sound ht i :
  imeta ht = mk_imeta 0 0 → length (n_hash i) = 32%nat →
  sound (with_dirty true (with_root (Node (mk_node 1 true false i) Nil Nil) ht)).
Proof.
  intros E Li. split.
  - split; unfold nodes; simpl; rewrite E; simpl; [|lia]. split; [unfold UINT32_MAX; lia|].
    simpl. lia.
  - intros j n. simpl. destruct j as [|[]|]; try done; simpl; by intros [= <-].
Qed.

Lemma open_new_keeps min_counter uuid w :
  ends nothing (open_new min_counter (empty_htree uuid)) w (λ '(ht, out) _,
    (sound ht ∧ m_length (imeta ht) = 0) ∧
    match out with Some h => length h = 32%nat | None => True end).
Proof.
  unfold open_new. do 4 e_step. unfold init_root_node. do 4 e_step.
  apply ends_calc_node_hash. intros w3 _. do 2 e_step. set (ht0 := with_dirty true _).
  assert (So : sound ht0) by (apply new_root_sound; [done|apply sha256_length]).
  eapply wp_bind. eapply wp_mono; [by apply sync_to_storage_keeps|].
  intros [[res out] t'] w4 [N R]. apply wp_ret. split; [by intros ? ? ? []|].
  destruct (Z.eqb_spec res TEE_SUCCESS) as [E|]; [|by destruct t'].
  destruct (R E) as [(ht' & -> & K & L & _) Lo]. e_step. unfold rpc_write_head.
  apply ends_rpc_write; [by left|intros []|]. intros w5 _ _. e_step. split; [done|].
  by destruct out as [[h c]|].
Qed.

(** [tee_fs_htree_open] with [create] ends, with a tree of no blocks or an
    error. *)
Lemma create_keeps hash min_counter uuid w :
  wp (tee_fs_htree_open true hash min_counter uuid) w (λ '(res, out, t') _,
    res = TEE_SUCCESS ∧ (∃ ht, t' = Some ht ∧ sound ht ∧ m_length (imeta ht) = 0) ∧
      match out with Some h => length h = 32%nat | None => True end ∨
    res ≠ TEE_SUCCESS ∧ t' = None).
Proof.
  unfold tee_fs_htree_open. apply wp_bind. eapply wp_mono; [apply status_ok|]. intros res w1 _.
  destruct (Z.eqb_spec res TEE_SUCCESS) as [->|N]; cbn [negb]; [|apply wp_ret; by right].
  apply wp_bind. eapply wp_mono; [apply open_new_keeps|].
  intros [res|[ht out]] w2 [_ R]; apply wp_ret; [right; by destruct R|left].
  destruct R as [[So L] Lo]. split_and!; [done| |done]. by exists ht.
Qed.

End Keep.
