(* ===== verification/HtreeReopen.v ===== *)
(** Opening a hash tree after a commit, core/tee/fs_htree.c: what
    [tee_fs_htree_sync_to_storage] stores is what [tee_fs_htree_open] reads. *)
From S2P Require Import Prelude State Bytes ReeFile Htree HtreeRules HtreeBlocks HtreeAuth HtreeSync HtreeCommit.

#[local] Ltac Zify.zify_post_hook ::= Z.div_mod_to_equations.

(** ** The bytes of the structures *)

(** An image that is stored and read back unchanged. *)
Definition storable (i : node_image) : Prop := sized i ∧ 0 ≤ n_flags i < 2 ^ 16.

Definition storable_tree : tree → Prop := all_nodes (λ n, storable (node n)).

(** The [k]-th field of a structure. *)
Tactic Notation "pick" integer(k) :=
  do k (rewrite slice_app_r by (rewrite ?le_bytes_length; lia));
  try (rewrite slice_app_l by (rewrite ?le_bytes_length; lia));
  rewrite slice_all by (rewrite ?le_bytes_length; lia).

Lemma image_of_bytes i : storable i → image_of (image_bytes i) = i.
Proof.
  intros [(L1 & L2 & L3) Hf]. unfold image_of, image_bytes, ndata.
  destruct i as [h v t f]; cbn [n_hash n_iv n_tag n_flags] in *. f_equal.
  - by pick 0.
  - by pick 1.
  - by pick 2.
  - pick 3. apply of_le_bytes. simpl. lia.
Qed.

Record head_ok (h : htree_image) : Prop := {
  ho_iv : length (h_iv h) = 16%nat;
  ho_tag : length (h_tag h) = 16%nat;
  ho_fek : length (h_enc_fek h) = 16%nat;
  ho_imeta : length (h_imeta h) = 16%nat;
  ho_counter : 0 ≤ h_counter h < 2 ^ 32;
}.

Lemma head_of_bytes h : head_ok h → head_of (head_bytes h) = h.
Proof.
  intros []. unfold head_of, head_bytes.
  destruct h as [iv t f m c]; cbn [h_iv h_tag h_enc_fek h_imeta h_counter] in *. f_equal.
  - by pick 0.
  - by pick 1.
  - by pick 2.
  - by pick 3.
  - pick 4. apply of_le_bytes. simpl. lia.
Qed.

Lemma length_head_bytes h : head_ok h → Z.of_nat (length (head_bytes h)) = sizeof_image.
Proof.
  intros []. unfold head_bytes. rewrite !length_app, le_bytes_length. change sizeof_image with 68. lia.
Qed.

Lemma length_image_bytes i : storable i → Z.of_nat (length (image_bytes i)) = sizeof_node_image.
Proof.
  intros [(L1 & L2 & L3) _]. unfold image_bytes, ndata. rewrite !length_app, le_bytes_length.
  change sizeof_node_image with 66. lia.
Qed.

Definition imeta_ok (m : tee_fs_htree_imeta) : Prop :=
  0 ≤ m_length m < 2 ^ 64 ∧ 0 ≤ max_node_id m < UINT32_MAX - 1.

Lemma imeta_of_bytes m : imeta_ok m → imeta_of (imeta_bytes m) = m.
Proof.
  intros [Hl Hm]. unfold imeta_of, imeta_bytes, meta_bytes, UINT32_MAX in *.
  destruct m as [l n]; cbn [m_length max_node_id] in *. f_equal.
  - pick 0. apply of_le_bytes. simpl. lia.
  - pick 1. apply of_le_bytes. simpl. lia.
Qed.

(** ** Trees with the same nodes are the same *)

Lemma tree_ext m m' t : ∀ t' cur,
  0 < cur → shape m cur t → shape m' cur t' →
  (∀ i, below cur i → node_at t i = node_at t' i) → t = t'.
Proof.
  induction t as [|n l IHl r IHr]; intros [|n' l' r'] cur Hc S S' N; [done|..].
  - pose proof S' as (E & _). specialize (N cur (below_refl cur)). simpl in N.
    by rewrite E, Z.eqb_refl in N.
  - pose proof S as (E & _). specialize (N cur (below_refl cur)). simpl in N.
    by rewrite E, Z.eqb_refl in N.
  - pose proof S as (E & _ & Sl & Sr). pose proof S' as (E' & _ & Sl' & Sr').
    pose proof (N cur (below_refl cur)) as Nc. simpl in Nc. rewrite E, E', !Z.eqb_refl in Nc.
    injection Nc as ->. f_equal.
    + apply (IHl l' (2 * cur)); [lia|done|done|]. intros i B.
      rewrite <- (Z.add_0_r (2 * cur)) in B.
      pose proof (node_at_child m n' l r cur i 0 Hc S ltac:(auto) B) as A1.
      pose proof (node_at_child m' n' l' r' cur i 0 Hc S' ltac:(auto) B) as A2. simpl in A1, A2.
      apply below_child in B; [|auto]. specialize (N i B). simpl in N. congruence.
    + apply (IHr r' (2 * cur + 1)); [lia|done|done|]. intros i B.
      pose proof (node_at_child m n' l r cur i 1 Hc S ltac:(auto) B) as A1.
      pose proof (node_at_child m' n' l' r' cur i 1 Hc S' ltac:(auto) B) as A2. simpl in A1, A2.
      apply below_child in B; [|auto]. specialize (N i B). simpl in N. congruence.
Qed.

(** Where a node is stored, from the flags of its parent. *)
Lemma stored_at `{HtreeEnvLaws} m w t : ∀ cur v i n p,
  0 < cur → shape m cur t → stored_tree w t v → node_at t i = Some n → i ≠ cur →
  node_at t (i / 2) = Some p →
  cell w TEE_FS_HTREE_TYPE_NODE (i - 1) (child_vers (n_flags (node p)) (i mod 2)) =
    Some (image_bytes (node n)).
Proof.
  induction t as [|nt l IHl r IHr]; intros cur v i n p Hc S St En Hne Ep; [done|].
  pose proof S as (E & Hm & Sl & Sr). destruct St as (_ & Stl & Str).
  destruct (node_at_below m cur _ i n Hc S En) as (_ & _ & B).
  pose proof (Z.div_mod i 2 ltac:(lia)) as Di.
  assert (Sub : ∀ b (t' : tree), b = 0 ∨ b = 1 → t' = (if b =? 0 then l else r) →
    shape m (2 * cur + b) t' → stored_tree w t' (child_vers (n_flags (node nt)) b) →
    (∀ cur v i n p, 0 < cur → shape m cur t' → stored_tree w t' v → node_at t' i = Some n →
       i ≠ cur → node_at t' (i / 2) = Some p →
       cell w TEE_FS_HTREE_TYPE_NODE (i - 1) (child_vers (n_flags (node p)) (i mod 2)) =
         Some (image_bytes (node n))) →
    below (2 * cur + b) i →
    cell w TEE_FS_HTREE_TYPE_NODE (i - 1) (child_vers (n_flags (node p)) (i mod 2)) =
      Some (image_bytes (node n))).
  { intros b t' Hb -> S' St IH Bb. rewrite (node_at_child m nt l r cur i b) in En by done.
    destruct (decide (i = 2 * cur + b)) as [Ei|Ni].
    - assert (i / 2 = cur) as Eh by lia. rewrite Eh in Ep. simpl in Ep.
      rewrite E, Z.eqb_refl in Ep. injection Ep as <-. replace (i mod 2) with b by lia.
      destruct (if b =? 0 then l else r) as [|nc lc rc]; [done|].
      destruct S' as (Ec & _). destruct St as (Cc & _). simpl in En.
      rewrite Ec, <- Ei, Z.eqb_refl in En. injection En as <-.
      by rewrite Ec, <- Ei in Cc.
    - assert (Bh : below (2 * cur + b) (i / 2)).
      { destruct Bb as [[|k] Ek]; [rewrite Z.div_1_r in Ek; lia|]. exists k.
        rewrite <- Ek, Nat2Z.inj_succ, Z.pow_succ_r, Z.div_div by lia. done. }
      rewrite (node_at_child m nt l r cur (i / 2) b) in Ep by done.
      by apply (IH (2 * cur + b) (child_vers (n_flags (node nt)) b)); [lia|..]. }
  destruct (below_cases cur i Hc B) as [|[Bc|Bc]]; [done|apply (Sub 0 l)|apply (Sub 1 r)];
    rewrite ?Z.add_0_r; auto.
Qed.

(** ** Code that only reads, with no call that fails *)

Record reliable `{HtreeEnvLaws} : Prop := {
  r_faithful : faithful;
  r_status : ∀ w, wp status w (λ res _, res = TEE_SUCCESS);
  r_read_init : ∀ ty i v w, vers_ok v → wp (rpc_read_init ty i v) w (λ res _, res = TEE_SUCCESS);
  r_read_final : ∀ ty i v w d, cell w ty i v = Some d →
    wp (rpc_read_final ty i v) w (λ '(res, _) _, res = TEE_SUCCESS);
  r_dec : ∀ k iv aad m c t, imeta_ok m → authenc_enc k iv aad (imeta_bytes m) = Some (c, t) →
    authenc_dec k iv aad c t = Some (imeta_bytes m);
}.

Section Yields.
Context `{HtreeEnvLaws} (R : reliable) (C : tee_fs_htree_type → Z → Z → option (list Z)).

(** On a storage [C] the code [m] returns [a] and leaves the storage. *)
Definition yields {A} (m : E A) (a : A) : Prop :=
  ∀ w, cell w = C → wp m w (λ r w', r = inr a ∧ cell w' = C).

Lemma yields_ret {A} (a : A) : yields (e_ret a) a.
Proof. intros w Ew. by apply wp_ret. Qed.

Lemma yields_bind {A B} (m : E A) (f : A → E B) a b :
  yields m a → yields (f a) b → yields (e_bind m f) b.
Proof.
  intros Hm Hf w Ew. apply wp_bind. eapply wp_mono; [by apply Hm|]. intros r w' [-> Ew'].
  by apply Hf.
Qed.

Lemma yields_pure {A} (o : outcome A) a : o = Done a → yields (pure o) a.
Proof. intros -> w Ew. apply wp_bind. eapply wp_run; [done|]. by apply wp_ret. Qed.

Lemma yields_status : yields (try status) tt.
Proof.
  intros w Ew. apply wp_bind.
  eapply wp_mono; [apply wp_conj; [apply status_ok|apply (r_status R)]|].
  intros res w' [[_ Ec] ->]. apply wp_ret. split; [done|congruence].
Qed.

Lemma yields_calloc : yields calloc tt.
Proof.
  intros w Ew. apply wp_bind.
  eapply wp_mono; [apply wp_conj; [apply status_ok|apply (r_status R)]|].
  intros res w' [[_ Ec] ->]. apply wp_ret. split; [done|congruence].
Qed.

Lemma yields_rpc_read ty i v dlen d :
  vers_ok v → C ty i v = Some d → Z.of_nat (length d) = dlen → yields (rpc_read ty i v dlen) d.
Proof.
  intros Hv Ed L. unfold rpc_read. eapply yields_bind with (a := tt).
  { intros w Ew. apply wp_bind.
    eapply wp_mono; [apply wp_conj; [by apply read_init_ok|by apply (r_read_init R)]|].
    intros res w' [[_ Ec] ->]. apply wp_ret. split; [done|congruence]. }
  eapply yields_bind with (a := d).
  { intros w Ew. assert (Ed' : cell w ty i v = Some d) by by rewrite Ew. apply wp_bind.
    eapply wp_mono; [apply wp_conj; [by apply read_final_ok|by apply (r_read_final R _ _ _ _ _ Ed')]|].
    intros [res d'] w' [(_ & Ec & Fd) ->]. apply wp_ret. split; [|congruence].
    specialize (Fd (r_faithful R) eq_refl). simpl. congruence. }
  rewrite L, Z.eqb_refl. apply yields_ret.
Qed.

Lemma yields_calc_node_hash i meta l r :
  yields (calc_node_hash i meta l r) (sha256 (hash_input i meta l r)).
Proof.
  unfold calc_node_hash.
  assert (B : ∀ b : bool, yields (if b then e_ret tt else try status) tt)
    by (intros []; [apply yields_ret|apply yields_status]).
  assert (M : yields (if meta is Some _ then try status else e_ret tt) tt)
    by (destruct meta; [apply yields_status|apply yields_ret]).
  do 2 (eapply yields_bind; [apply yields_status|]). eapply yields_bind; [apply M|].
  do 2 (eapply yields_bind; [apply B|]). eapply yields_bind; [apply yields_status|].
  apply yields_ret.
Qed.

Lemma yields_authenc_init ht ni :
  let iv := match ni with Some iv => iv | None => h_iv (head ht) end in
  yields (authenc_init false ht ni) (iv, ctx_of ht ni iv).
Proof.
  intros iv. unfold authenc_init. eapply yields_bind; [apply yields_ret|].
  do 2 (eapply yields_bind; [apply yields_status|]).
  eapply yields_bind with (a := match ni with
      | Some _ => []
      | None => take (Z.to_nat TEE_FS_HTREE_FEK_SIZE) (child_hash (root ht)) ++
                le_bytes 4 (h_counter (head ht)) end).
  { destruct ni; [apply yields_ret|].
    do 2 (eapply yields_bind; [apply yields_status|]). apply yields_ret. }
  do 2 (eapply yields_bind; [apply yields_status|]). apply yields_ret.
Qed.

Lemma yields_decrypt_final ctx tag crypt p :
  authenc_dec (c_key ctx) (c_iv ctx) (c_aad ctx) crypt tag = Some p → length p = length crypt →
  yields (authenc_decrypt_final ctx tag crypt) p.
Proof.
  intros Ed L. unfold authenc_decrypt_final. eapply yields_bind with (a := TEE_SUCCESS).
  { intros w Ew. apply wp_bind.
    eapply wp_mono; [apply wp_conj; [apply status_ok|apply (r_status R)]|].
    intros res w' [[_ Ec] ->]. apply wp_ret. split; [done|congruence]. }
  simpl. rewrite Ed, L, Z.eqb_refl. apply yields_ret.
Qed.

(** ** Opening what is stored *)

(** A handle as it is right after a commit. *)
Record settled (ht : tee_fs_htree) : Prop := {
  s_formed : formed ht;
  s_nodes : storable_tree (root ht);
  s_clean : all_nodes (λ n, dirty n = false ∧ block_updated n = false) (root ht);
  s_verified : verified (Some (imeta ht)) (root ht);
  s_head : head_ok (head ht);
  s_sealed : sealed ht;
  s_imeta : imeta_ok (imeta ht);
  s_fek : fek ht = fek_decrypt (ht_uuid ht) (h_enc_fek (head ht));
  s_dirty : ht_dirty ht = false;
}.

Lemma yields_verify t : ∀ meta, verified meta t → yields (verify_nodes meta t) tt.
Proof.
  induction t as [|n l IHl r IHr]; intros meta V; simpl; [apply yields_ret|].
  destruct V as (En & Vl & Vr). eapply yields_bind; [by apply IHl|]. eapply yields_bind; [by apply IHr|].
  eapply yields_bind; [apply yields_calc_node_hash|]. rewrite bool_decide_eq_true_2 by done.
  apply yields_ret.
Qed.

(** *** Nodes *)

Lemma yields_add_nodes m t : ∀ k n nd,
  whole m t → m + 1 < UINT32_MAX - 1 → 1 ≤ n → n + Z.of_nat (S k) = m + 2 →
  yields (add_nodes (S k) n t nd) (grown m t, m + 1).
Proof.
  induction k as [|k IH]; intros n nd W Hm Hn Hk; pose proof W as [Wm S];
    cbn [add_nodes]; (eapply yields_bind;
      [apply yields_pure, (find_closest_whole m); [done|lia]|]).
  - assert (n = m + 1) as -> by lia. rewrite decide_False by lia.
    destruct (Z.eqb_spec ((m + 1) / 2) (m + 1)); [lia|].
    eapply yields_bind.
    { apply yields_pure. rewrite Z.shiftr_div_pow2 by lia. change (2 ^ 1) with 2. by rewrite Z.eqb_refl. }
    assert (Hb : Z.land (m + 1) 1 = (m + 1) mod 2) by by rewrite (Z.land_ones _ 1).
    eapply yields_bind.
    { apply yields_pure. by rewrite (shape_child_null m t 1) by (done || lia). }
    eapply yields_bind; [apply yields_calloc|]. apply yields_ret.
  - rewrite decide_True by lia. rewrite Z.eqb_refl. apply (IH (n + 1) n); [done|done|lia|lia].
Qed.

Lemma yields_grow m ht :
  whole m (root ht) → m + 1 < UINT32_MAX - 1 → m + 1 ≤ max_node_id (imeta ht) →
  yields (get_node ht true (m + 1)) (with_root (grown m (root ht)) ht, m + 1).
Proof.
  intros W Hlim Hmax. pose proof W as [Wm _]. unfold get_node.
  eapply yields_bind; [apply yields_pure, (find_closest_whole m); [done|lia]|].
  rewrite decide_False by lia. destruct (Z.eqb_spec ((m + 1) / 2) (m + 1)); [lia|]. cbn [negb].
  destruct (Z.to_nat (m + 1 - (m + 1) / 2)) as [|k] eqn:Ek; [lia|].
  eapply yields_bind; [apply (yields_add_nodes m); [done|done|lia|lia]|].
  cbv beta iota zeta. destruct (Z.ltb_spec (max_node_id (imeta ht)) (m + 1)); [lia|].
  destruct ht. apply yields_ret.
Qed.

(** The part of the tree that has been read. *)
Definition read_up_to (m : Z) (T t : tree) : Prop :=
  whole m t ∧ ∀ i, i ≤ m → node_at t i = node_at T i.

Lemma clean_node n img :
  dirty n = false ∧ block_updated n = false → img = node n → mk_node (id n) false false img = n.
Proof. intros [D B] ->. destruct n; simpl in *. by subst. Qed.

Lemma read_up_to_step m T t n :
  read_up_to m T t → m + 1 < UINT32_MAX - 1 → node_at T (m + 1) = Some n → id n = m + 1 →
  dirty n = false ∧ block_updated n = false →
  read_up_to (m + 1) T
    (upd_node (m + 1) (λ x, mk_node (id x) (dirty x) (block_updated x) (node n)) (grown m t)).
Proof.
  intros [W N] Hlim En Eid Cl.
  destruct (whole_add m (new_node (m + 1)) t W eq_refl Hlim) as [W' N'].
  split; [by apply whole_upd|]. intros i Hi. rewrite node_at_upd by done. unfold grown. rewrite N'.
  destruct (decide (i = m + 1)) as [->|Ni].
  - rewrite En. simpl. rewrite <- Eid. f_equal. by apply clean_node.
  - apply N. lia.
Qed.

Lemma yields_read_tree T v k : ∀ m t ht w,
  cell w = C → whole (m + Z.of_nat k) T → storable_tree T →
  all_nodes (λ n, dirty n = false ∧ block_updated n = false) T → stored_tree w T v →
  read_up_to m T t → ((0 < k)%nat → max_node_id (imeta ht) = m + Z.of_nat k) →
  yields (read_tree k (m + 1) (with_root t ht)) (with_root T ht).
Proof.
  induction k as [|k IH]; intros m t ht w Ew WT Sz Cl St [W N] Hmax; cbn [read_tree].
  { rewrite Z.add_0_r in *. assert (t = T) as ->; [|apply yields_ret].
    apply (tree_ext m m t T 1); [lia|apply W|apply WT|]. intros i B.
    destruct (decide (i ≤ m)); [by apply N|].
    by rewrite (whole_none m t), (whole_none m T) by (done || lia). }
  specialize (Hmax ltac:(lia)).
  pose proof W as [Wm _]. pose proof WT as [WTm ST]. rewrite Z.shiftr_div_pow2 by lia. change (2 ^ 1) with 2.
  destruct (whole_node _ T (m + 1) WT ltac:(lia)) as [n En].
  destruct (whole_node _ T ((m + 1) / 2) WT ltac:(lia)) as [p Ep].
  destruct (whole_id _ _ _ _ WT En) as [Eid _].
  pose proof (all_nodes_node_at _ _ _ _ Cl En) as Cn. pose proof (all_nodes_node_at _ _ _ _ Sz En) as Sn.
  eapply yields_bind.
  { apply yields_pure. unfold find_node. simpl root. rewrite (find_closest_whole m) by (done || lia).
    rewrite decide_True by lia. simpl. by rewrite Z.eqb_refl. }
  cbv beta iota. eapply yields_bind with (a := p).
  { apply yields_pure. simpl root. by rewrite N, Ep by lia. }
  assert (Hb : Z.land (m + 1) 1 = (m + 1) mod 2) by by rewrite (Z.land_ones _ 1).
  eapply yields_bind with (a := node n).
  { unfold rpc_read_node. eapply yields_bind.
    - apply (yields_rpc_read _ _ _ _ (image_bytes (node n))); [auto with vers| |by apply length_image_bytes].
      rewrite Hb. unfold HTREE_NODE_COMMITTED_CHILD. rewrite has_flag_testbit by lia.
      rewrite <- Ew. by apply (stored_at (m + Z.of_nat (S k)) w T 1 v (m + 1) n p); try done; lia.
    - rewrite image_of_bytes by done. apply yields_ret. }
  eapply yields_bind; [apply (yields_grow m); [done|lia|simpl; lia]|]. cbv beta iota.
  apply (IH (m + 1) _ ht w); [done|by replace (m + 1 + Z.of_nat k) with (m + Z.of_nat (S k)) by lia
    |done|done|done| |lia].
  by apply read_up_to_step; [|lia|..].
Qed.

(** *** The header and the root *)

Lemma root_node ht : formed ht → ∃ n l r, root ht = Node n l r ∧ id n = 1.
Proof.
  intros [[? S] _]. destruct (root ht) as [|n l r]; simpl in S; [lia|]. destruct S. by exists n, l, r.
Qed.

(** An older root in version 0 has another hash. *)
Definition no_old_root (h : list Z) (v : Z) : Prop :=
  v = 0 ∨ v = 1 ∧ ∃ i, C TEE_FS_HTREE_TYPE_NODE 0 0 = Some (image_bytes i) ∧ storable i ∧ n_hash i ≠ h.

Lemma yields_find_root v img hd :
  no_old_root (n_hash img) v → storable img → head_ok hd →
  C TEE_FS_HTREE_TYPE_NODE 0 v = Some (image_bytes img) →
  C TEE_FS_HTREE_TYPE_HEAD 0 v = Some (head_bytes hd) →
  yields (find_root_version 2 (n_hash img) 0) (v, img, hd).
Proof.
  intros Old Sg Hh Cn Ch.
  assert (Hv : vers_ok v) by (destruct Old as [->|[-> _]]; [by left|by right]).
  assert (Rn : ∀ x j, vers_ok j → C TEE_FS_HTREE_TYPE_NODE 0 j = Some (image_bytes x) → storable x →
    yields (rpc_read_node 1 j) x).
  { intros x j Hj Ex Sx. unfold rpc_read_node. eapply yields_bind.
    - by apply (yields_rpc_read _ _ _ _ (image_bytes x)); [| |apply length_image_bytes].
    - rewrite image_of_bytes by done. apply yields_ret. }
  assert (Rh : yields (e_bind (rpc_read_head v) (λ h, e_ret (v, img, h))) (v, img, hd)).
  { eapply yields_bind; [|apply yields_ret]. unfold rpc_read_head. eapply yields_bind.
    - by apply (yields_rpc_read _ _ _ _ (head_bytes hd)); [| |apply length_head_bytes].
    - rewrite head_of_bytes by done. apply yields_ret. }
  cbn [find_root_version]. destruct Old as [->|(-> & i & Ci & Si & Ni)].
  - eapply yields_bind; [by apply Rn|]. by rewrite bool_decide_eq_true_2.
  - eapply yields_bind; [by apply (Rn i); [left|..]|]. rewrite bool_decide_eq_false_2 by done.
    change (0 =? 0) with true. change (0 + 1) with 1. cbn [negb].
    eapply yields_bind; [by apply Rn|]. by rewrite bool_decide_eq_true_2.
Qed.

Lemma yields_open ht w min_counter :
  cell w = C → settled ht → stored_handle w ht → min_counter ≤ h_counter (head ht) →
  no_old_root (child_hash (root ht)) (root_vers ht) →
  yields (open_existing (Some (child_hash (root ht))) min_counter (empty_htree (ht_uuid ht))) ht.
Proof.
  intros Ew S [Sh St] Hc Old. pose proof (s_formed _ S) as F.
  destruct (root_node ht F) as (n & l & r & Er & Eid). pose proof F as [W M].
  pose proof (s_nodes _ S) as Sz. pose proof (s_clean _ S) as Cl.
  pose proof Sz as Sn. rewrite Er in Sn. destruct Sn as (Sn & _).
  pose proof Cl as Cn. rewrite Er in Cn. destruct Cn as (Cn & _).
  assert (Cell1 : C TEE_FS_HTREE_TYPE_NODE 0 (root_vers ht) = Some (image_bytes (node n))).
  { rewrite Er in St. destruct St as (E & _). rewrite Eid, Ew in E. exact E. }
  rewrite Ew in Sh.
  assert (Eh : child_hash (root ht) = n_hash (node n)) by by rewrite Er.
  unfold open_existing. eapply yields_bind with (a := (node n, head ht)).
  { unfold init_head_from_data. rewrite Eh in Old |- *.
    eapply yields_bind; [by apply yields_find_root; [..|apply S| |]|].
    cbv beta iota. destruct (Z.ltb_spec (h_counter (head ht)) min_counter); [lia|]. apply yields_ret. }
  cbv beta iota zeta. set (t1 := Node (mk_node 1 false false (node n)) Nil Nil).
  eapply yields_bind with (a := with_root t1 ht).
  { unfold verify_root. eapply yields_bind; [apply yields_status|]. cbv zeta.
    cbn [ht_uuid head with_head with_root empty_htree]. rewrite <- (s_fek _ S). eapply yields_bind; [apply yields_authenc_init|]. cbv beta iota.
    destruct (s_sealed _ S) as (Ee & _ & Li & _).
    eapply yields_bind.
    - eapply yields_decrypt_final; [|rewrite length_imeta_bytes; by symmetry].
      eapply (r_dec R); [apply (s_imeta _ S)|]. etransitivity; [|exact Ee]. unfold ctx_of. simpl.
      by rewrite Eh.
    - rewrite imeta_of_bytes by apply S. pose proof (s_dirty _ S) as Dy.
      destruct ht; simpl in *; subst. apply yields_ret. }
  eapply yields_bind with (a := ht).
  { assert (ht = with_root (root ht) ht) as E by by destruct ht. rewrite E at 2.
    unfold init_tree_from_data. simpl imeta.
    apply (yields_read_tree (root ht) (root_vers ht) _ 1 t1 ht w); try done.
    - unfold nodes in W. replace (1 + _) with (Z.max 1 (max_node_id (imeta ht))) by lia. done.
    - split.
      + split; [unfold UINT32_MAX; lia|]. unfold t1. simpl. split_and!; lia.
      + intros i Hi. rewrite Er. unfold t1. cbn [node_at id]. rewrite Eid. destruct (Z.eqb_spec 1 i) as [<-|].
        * f_equal. pose proof (clean_node n (node n) Cn eq_refl) as E1. by rewrite Eid in E1.
        * destruct W as [Hm Sp]. rewrite Er in Sp. destruct Sp as (_ & _ & Sl & Sr).
          destruct (node_at l i) as [x|] eqn:El.
          { destruct (node_at_below _ (2 * 1) l i x ltac:(lia) Sl El) as (_ & _ & B).
            apply below_le in B; lia. }
          destruct (node_at r i) as [x|] eqn:Err; [|done].
          destruct (node_at_below _ (2 * 1 + 1) r i x ltac:(lia) Sr Err) as (_ & _ & B).
          apply below_le in B; lia.
    - lia. }
  eapply yields_bind with (a := tt); [|apply yields_ret].
  unfold verify_tree. eapply yields_bind; [apply yields_status|]. apply yields_verify, S.
Qed.

End Yields.
