(* ===== verification/HtreeRound.v ===== *)
(** The life of a hash tree, core/tee/fs_htree.c: a handle that was committed,
    changed and committed again is what the next opening returns. *)
From S2P Require Import Prelude State Bytes ReeFile Htree HtreeRules HtreeBlocks HtreeAuth HtreeSync HtreeCommit HtreeReopen.

#[local] Ltac Zify.zify_post_hook ::= Z.div_mod_to_equations.

(** ** Hashes of trees that are being changed *)

(** A node that will not be written has its hash. *)
Fixpoint hashes_ok `{HtreeEnv} (meta : option tee_fs_htree_imeta) (t : tree) : Prop :=
  match t with
  | Nil => True
  | Node n l r =>
      (dirty n || dirty_in l || dirty_in r = false →
       n_hash (node n) = sha256 (hash_input (node n) meta l r)) ∧
      hashes_ok None l ∧ hashes_ok None r
  end.

Section Hashes.
Context `{HtreeEnv}.

Lemma verified_hashes_ok t : ∀ meta, verified meta t → hashes_ok meta t.
Proof.
  induction t as [|n l IHl r IHr]; intros meta; simpl; [done|]. intros (E & Vl & Vr). auto.
Qed.

Lemma hashes_ok_verified t : ∀ meta, hashes_ok meta t → dirty_in t = false → verified meta t.
Proof.
  induction t as [|n l IHl r IHr]; intros meta; simpl; [done|]. intros (E & Hl & Hr) D.
  destruct (clean_children _ _ _ D) as (_ & Dl & Dr). auto.
Qed.

(** A commit repairs the hashes. *)
Lemma synced_verified t : ∀ meta, hashes_ok meta t → verified meta (synced meta t).
Proof.
  induction t as [|n l IHl r IHr]; intros meta Ho; simpl; [done|].
  destruct (dirty n || dirty_in l || dirty_in r) eqn:D.
  - destruct Ho as (_ & Hl & Hr). simpl. split_and!; [done|by apply IHl|by apply IHr].
  - by apply (hashes_ok_verified (Node n l r)).
Qed.

(** The root of a changed tree does not have its hash yet. *)
Lemma hashes_ok_meta meta meta' t : dirty_in t = true → hashes_ok meta t → hashes_ok meta' t.
Proof. destruct t as [|n l r]; simpl; [done|]. intros -> (_ & Hl & Hr). done. Qed.

Lemma clean_upd i f t : (∀ n, dirty (f n) = true) → dirty_in (upd_node i f t) = false → upd_node i f t = t.
Proof.
  intros Hf. induction t as [|n l IHl r IHr]; simpl; [done|].
  destruct (id n =? i); [by rewrite Hf|]. intros (_ & Dl & Dr)%clean_children. by rewrite IHl, IHr.
Qed.

Lemma hashes_ok_upd i f t : ∀ meta,
  (∀ n, dirty (f n) = true) → hashes_ok meta t → hashes_ok meta (upd_node i f t).
Proof.
  intros meta Hf. revert meta. induction t as [|n l IHl r IHr]; intros meta; simpl; [done|].
  intros (E & Hl & Hr). split_and!; [|by apply IHl|by apply IHr].
  destruct (id n =? i); [by rewrite Hf|]. intros D. destruct (clean_children _ _ _ D) as (Dn & Dl & Dr).
  rewrite (clean_upd i f l Hf Dl) in D |- *. rewrite (clean_upd i f r Hf Dr) in D |- *. by apply E.
Qed.

(** A new node that is written at once. *)
Lemma clean_add i f p b c t :
  (∀ n, dirty (f n) = true) → id c = i →
  dirty_in (upd_node i f (set_child p b (Node c Nil Nil) t)) = false →
  upd_node i f (set_child p b (Node c Nil Nil) t) = t.
Proof.
  intros Hf Ec. induction t as [|n l IHl r IHr]; simpl; [done|].
  destruct (id n =? p).
  - destruct (b =? 0); cbn [upd_node dirty_in]; rewrite Ec, Z.eqb_refl, Hf; simpl;
      by rewrite !orb_true_r.
  - simpl. destruct (id n =? i); [by rewrite Hf|]. intros (_ & Dl & Dr)%clean_children. by rewrite IHl, IHr.
Qed.

Lemma hashes_ok_add i f p b c t : ∀ meta,
  (∀ n, dirty (f n) = true) → id c = i → hashes_ok meta t →
  hashes_ok meta (upd_node i f (set_child p b (Node c Nil Nil) t)).
Proof.
  intros meta Hf Ec. revert meta. induction t as [|n l IHl r IHr]; intros meta; simpl; [done|].
  intros (E & Hl & Hr).
  destruct (id n =? p).
  - destruct (b =? 0); cbn [upd_node hashes_ok dirty_in]; rewrite Ec, Z.eqb_refl, Hf; simpl;
      rewrite !orb_true_r; split_and!; try done; by apply hashes_ok_upd.
  - simpl. split_and!; [|by apply IHl|by apply IHr]. destruct (id n =? i); [by rewrite Hf|].
    intros D. destruct (clean_children _ _ _ D) as (Dn & Dl & Dr). 
    rewrite (clean_add i f p b c l Hf Ec Dl) in D |- *. rewrite (clean_add i f p b c r Hf Ec Dr) in D |- *.
    by apply E.
Qed.

End Hashes.

(** ** Handles that can be committed *)

Record coherent `{HtreeEnv} (ht : tee_fs_htree) : Prop := {
  co_formed : formed ht;
  co_nodes : storable_tree (root ht);
  co_hashes : hashes_ok (Some (imeta ht)) (root ht);
  co_fek : fek ht = fek_decrypt (ht_uuid ht) (h_enc_fek (head ht));
  co_enc_fek : length (h_enc_fek (head ht)) = 16%nat;
  co_length : 0 ≤ m_length (imeta ht) < 2 ^ 64;
}.

Lemma lxor_range x k n : 0 ≤ k < n → 0 ≤ x < 2 ^ n → 0 ≤ Z.lxor x (Z.shiftl 1 k) < 2 ^ n.
Proof.
  intros Hk Hx. assert (P : 0 < 2 ^ n) by (apply Z.pow_pos_nonneg; lia).
  assert (E : Z.lxor x (Z.shiftl 1 k) mod 2 ^ n = Z.lxor x (Z.shiftl 1 k)).
  { apply Z.bits_inj'. intros j Hj. destruct (decide (j < n)).
    - by rewrite Z.mod_pow2_bits_low.
    - rewrite Z.mod_pow2_bits_high, testbit_flip by lia.
      rewrite <- (Z.mod_small x (2 ^ n)), Z.mod_pow2_bits_high by lia.
      by destruct (Z.eqb_spec k j); [lia|]. }
  rewrite <- E. apply Z.mod_pos_bound. lia.
Qed.

Lemma flip_range d b x : b = 0 ∨ b = 1 → 0 ≤ x < 2 ^ 16 →
  0 ≤ flip d (HTREE_NODE_COMMITTED_CHILD b) x < 2 ^ 16.
Proof. intros Hb Hx. destruct d; [|done]. apply lxor_range; lia. Qed.

Section Round.
Context `{HtreeEnvLaws}.

Hypothesis sha256_length : ∀ l, length (sha256 l) = 32%nat.

Lemma synced_storable t : ∀ meta, storable_tree t → storable_tree (synced meta t).
Proof.
  induction t as [|n l IHl r IHr]; intros meta; simpl; [done|]. intros (Sn & Sl & Sr).
  destruct (_ || _); [|done]. split_and!; [|by apply IHl|by apply IHr].
  destruct Sn as [(L1 & L2 & L3) Hf]. split; [split_and!; simpl; auto|].
  simpl. unfold flags_after. apply flip_range; [by right|]. apply flip_range; [by left|done].
Qed.

Lemma synced_all_clean t : ∀ meta,
  updated_dirty t → all_nodes (λ n, dirty n = false ∧ block_updated n = false) (synced meta t).
Proof.
  induction t as [|n l IHl r IHr]; intros meta; simpl; [done|]. intros (Un & Ul & Ur).
  destruct (dirty n || dirty_in l || dirty_in r) eqn:D; simpl.
  - split_and!; [done|done|by apply IHl|by apply IHr].
  - destruct (clean_children _ _ _ D) as (Dn & Dl & Dr).
    specialize (IHl None Ul). specialize (IHr None Ur). rewrite synced_clean in IHl, IHr by done.
    split_and!; [done|destruct (block_updated n); [by rewrite Un in Dn|done]|done|done].
Qed.

(** A commit settles a handle. *)
Lemma committed_settled c ht ht' :
  follows c ht → coherent ht → committed_as ht ht' → settled ht'.
Proof.
  intros Fo [F Sz Ho Ef Le Hl] K. pose proof (committed_formed ht ht' F K) as F'.
  destruct K as [Kr Ki Kf Ku Ke Kc Kd Ks]. pose proof Ks as (_ & L1 & L2 & L3).
  split; try done.
  - rewrite Kr. by apply synced_storable.
  - rewrite Kr. apply synced_all_clean. apply (updated_dirty_intro _ (root c)). by apply tracked_root.
  - rewrite Kr, Ki. by apply synced_verified.
  - split; try done; [by rewrite Ke|]. rewrite Kc. apply u32_range.
  - rewrite Ki. destruct F as [[B _] M]. unfold nodes in B. split; [done|lia].
  - by rewrite Kf, Ku, Ke.
Qed.

(** A settled handle can be changed. *)
Lemma settled_coherent ht : settled ht → coherent ht.
Proof.
  intros S. split; try apply S. by apply verified_hashes_ok, S.
Qed.

Lemma settled_follows ht : settled ht → follows ht ht.
Proof.
  intros S. split; try apply S; try done. intros i n En. rewrite En.
  destruct (all_nodes_node_at _ _ _ _ (s_clean _ S) En) as [D B].
  split; [by rewrite B|]. rewrite B. by split_and!.
Qed.

(** ** Changes keep a handle coherent *)

Lemma with_node_root i ht ht1 :
  formed ht → with_node i ht ht1 → i ≤ nodes ht + 1 →
  root ht1 = root ht ∧ i ≤ nodes ht ∨ root ht1 = grown (nodes ht) (root ht) ∧ i = nodes ht + 1.
Proof.
  intros F (F1 & Hm & N & _) Hi. pose proof F as [W _]. pose proof F1 as [W1 _].
  destruct (decide (i ≤ nodes ht)); [left|right]; (split; [|lia]).
  - apply (tree_ext _ _ _ _ 1 ltac:(lia) (proj2 W1) (proj2 W)). intros j _.
    by rewrite N, decide_False by lia.
  - destruct (whole_add (nodes ht) (new_node (nodes ht + 1)) (root ht) W eq_refl) as [W2 N2].
    { destruct W1 as [B1 _]. lia. }
    apply (tree_ext _ _ _ _ 1 ltac:(lia) (proj2 W1) (proj2 W2)). intros j _.
    rewrite N, N2. assert (i = nodes ht + 1) as -> by lia.
    destruct (decide (j = nodes ht + 1)); [rewrite decide_True by lia|rewrite decide_False by lia]; done.
Qed.

Lemma put_block_coherent ht ht1 nd i iv tag :
  coherent ht → with_node i ht ht1 → 1 ≤ i ≤ nodes ht + 1 → node_at (root ht1) i = Some nd →
  length iv = 16%nat → length tag = 16%nat → coherent (put_block ht1 nd i iv tag).
Proof.
  intros [F Sz Ho Ef Le Hl] Wn Hi En Liv Ltag.
  pose proof Wn as (F1 & Hm & N & Eh & Efk & El & Eu & _).
  assert (Dirty : ∀ n, dirty (mk_node (id n) true true
    (mk_image (n_hash (node nd)) iv tag (block_flags nd))) = true) by done.
  assert (Sz1 : storable_tree (root ht1) ∧
    ∀ f, (∀ n, dirty (f n) = true) → hashes_ok (Some (imeta ht)) (upd_node i f (root ht1))).
  { destruct (with_node_root i ht ht1 F Wn ltac:(lia)) as [[-> _]|[-> Ei]].
    - split; [done|]. intros f Hf. by apply hashes_ok_upd.
    - split.
      + apply all_nodes_set_child; [|done]. split; [|done]. split; [by split_and!|done].
      + intros f Hf. by apply hashes_ok_add. }
  destruct Sz1 as [Sz1 Ho1]. pose proof (all_nodes_node_at _ _ _ _ Sz1 En) as [(Lh & _) Hf].
  split.
  - by apply formed_put.
  - apply all_nodes_upd; [|done]. intros n _. split; [by split_and!|]. simpl. unfold block_flags.
    destruct (block_updated nd); [done|]. by apply lxor_range.
  - apply (hashes_ok_meta (Some (imeta ht))); [|by apply Ho1].
    eapply dirty_in_node_at; [by rewrite (node_at_put ht), decide_True|done].
  - simpl. by rewrite Efk, Eu, Eh.
  - simpl. by rewrite Eh.
  - simpl. by rewrite El.
Qed.

Lemma set_dirty_coherent ht len :
  coherent ht → 0 ≤ len < 2 ^ 64 → coherent (tee_fs_htree_meta_set_dirty len ht).
Proof.
  intros [F Sz Ho Ef Le Hl] Hlen. destruct (set_dirty_spec ht len F) as (F' & _ & _).
  split; try done; simpl.
  - by destruct (root ht) as [|n l r].
  - destruct (root ht) as [|n l r]; simpl in *; [done|]. by destruct Ho as (_ & Hl' & Hr').
Qed.

(** Calls that do not cut the tree. *)
Definition op_sound (op : tree_op) : Prop :=
  match op with
  | TWrite _ _ => True
  | TTruncate _ => False
  | TSetLength len => 0 ≤ len < 2 ^ 64
  end.

Lemma tree_call_coherent c ht op k len d w :
  changing c ht k len d → coherent ht → ops_ok (nodes c) k [op] → op_sound op →
  wp (tree_call op ht) w (λ '(_, r) _, ∀ ht', r = Some ht' → coherent ht').
Proof.
  intros [Fo <- _ _] Co Ok So. pose proof (co_formed _ Co) as F. destruct op as [n b|n|l]; [|done|].
  - destruct Ok as (Hn & Hk & _). apply wp_bind. eapply wp_mono.
    { apply (ends_write_block (λ _ _ _, False) ht n b w (λ ht' _, coherent ht')); [done|done|lia|].
      intros ht1 nd Wn En. split; [by intros []|]. intros iv ci t w' Liv Lt _.
      unfold TEE_FS_HTREE_IV_SIZE in Liv. apply (put_block_coherent ht); try done; lia. }
    intros [res|ht'] w' [_ R]; apply wp_ret; [done|]. by intros ? [= <-].
  - apply wp_ret. intros ht' [= <-]. by apply set_dirty_coherent.
Qed.

Lemma tree_calls_coherent c ops : ∀ ht k len d w,
  changing c ht k len d → coherent ht → ops_ok (nodes c) k ops → Forall op_sound ops →
  wp (tree_calls ops ht) w (λ '(_, r) _, ∀ ht', r = Some ht' → coherent ht').
Proof.
  induction ops as [|op ops IH]; intros ht k len d w G Co Ok So; cbn [tree_calls].
  { apply wp_ret. by intros ht' [= <-]. }
  apply Forall_cons in So as [So Sos].
  change (op :: ops) with ([op] ++ ops) in Ok. apply ops_ok_app in Ok as [Ok0 Ok].
  apply wp_bind. eapply wp_mono.
  { apply wp_conj; [by eapply tree_call_ok|by eapply tree_call_coherent]. }
  intros [res r] w' [[_ R] Co']. destruct r as [ht'|]; [|by apply wp_ret].
  destruct R as [(_ & h1 & [= <-] & G' & _)|[_ ?]]; [|done]. eapply IH; [exact G'|by apply Co'|done|done].
Qed.

(** C33: A hash tree that is closed after a commit and opened again is the same.
    From a settled handle [c] whose tree is in the storage, take any batch of
    block writes, each in the place of a block or after the last one, and
    changes of the length, without truncations (after some of which the tree
    cannot be opened, [truncated_tree_is_corrupt]), and
    [tee_fs_htree_sync_to_storage]. When it succeeds, the handle [ht'] that
    results is settled, has the blocks and the length that the batch says and is
    what the storage holds; and [tee_fs_htree_open] with the hash that was
    reported and any minimum up to the counter that was reported returns exactly
    [ht'] - the same tree, header, key and metadata. This is for a storage that
    answers what was written to it, calls below that do not fail ([reliable])
    and a cipher of which no tag is forged, and the commit must not have kept
    the hash of a root in version 0. *)
Theorem htree_commit_reopen c ops op w :
  reliable → settled c → stored_handle w c →
  ops_ok (nodes c) (nodes c) (ops ++ [op]) → Forall op_sound (ops ++ [op]) →
  wp (update (ops ++ [op]) c) w (λ '(res, out, r) w', res = TEE_SUCCESS →
    ∃ ht' h counter, r = Some ht' ∧ out = Some (h, counter) ∧ settled ht' ∧ stored_handle w' ht' ∧
      m_length (imeta ht') = ops_length (ops ++ [op]) (m_length (imeta c)) ∧
      (∀ m, tree_data ht' m = ops_data (ops ++ [op]) (tree_data c) m) ∧
      (root_vers c = 1 ∨ h ≠ child_hash (root c) →
       ∀ min_counter, min_counter ≤ counter →
       wp (tee_fs_htree_open false (Some h) min_counter (ht_uuid ht')) w' (λ '(res2, _, r2) _,
         res2 = TEE_SUCCESS ∧ r2 = Some ht'))).
Proof.
  intros Re Se St Ok So. pose proof (settled_follows c Se) as Fo. unfold update. apply wp_bind.
  assert (G : changing c c (nodes c) (m_length (imeta c)) (tree_data c)) by by split.
  eapply wp_mono.
  { apply wp_conj; [by eapply tree_calls_ok|].
    eapply tree_calls_coherent; [exact G|by apply settled_coherent|done|done]. }
  intros [res r] w1 [[Kp [(-> & ht1 & k1 & -> & G1 & T)|[N ->]]] Co].
  2: { apply wp_ret. done. }
  specialize (Co ht1 eq_refl). destruct T as [Di Dy].
  { intros n ->. apply Forall_app in So as [_ So]. by apply Forall_cons in So as [[] _]. }
  pose proof (stored_keeps _ _ _ (f_base _ _ Fo) Kp St) as St1.
  eapply wp_mono; [by eapply (sync_ok c ht1)|]. intros [[res out] r] w2 [Kp2 R] Es.
  destruct (R Es) as (ht' & -> & K & [Fo' _ Hl Hd] & -> & Sf).
  pose proof (committed_settled c ht1 ht' (g_follows _ _ _ _ _ G1) Co K) as Se'.
  specialize (Sf (r_faithful Re)). exists ht', (child_hash (root ht')), (h_counter (head ht')).
  split_and!; try done. intros Hash mc Hmc.
  apply wp_bind. eapply wp_mono; [apply wp_conj; [apply status_ok|apply (r_status Re)]|].
  intros res2 w3 [[_ C3] ->]. change (TEE_SUCCESS =? TEE_SUCCESS) with true. cbn [negb].
  apply wp_bind, wp_bind. eapply wp_mono.
  { apply (yields_open Re (cell w2) ht' w2 mc); try done.
    pose proof (stored_keeps _ _ _ (f_base _ _ Fo) Kp2 St1) as [_ St2].
    pose proof (root_vers_next ht1 ht' (k_counter _ _ K)) as V.
    assert (V1 : root_vers ht1 = root_vers c).
    { unfold root_vers. by rewrite (f_counter _ _ (g_follows _ _ _ _ _ G1)). }
    assert (B : root_vers c = 0 ∨ root_vers c = 1) by (unfold root_vers; destruct (Z.testbit _ 0); auto).
    destruct B as [B|B]; [right|left; lia]. split; [lia|].
    destruct (root_node c (f_base _ _ Fo)) as (n & l & r & Er & Eid).
    rewrite Er in St2. destruct St2 as (Cn & _). rewrite Eid, B in Cn.
    exists (node n). split; [exact Cn|]. pose proof (s_nodes _ Se) as Sn. rewrite Er in Sn.
    split; [apply Sn|]. destruct Hash as [|Hash]; [lia|]. by rewrite Er in Hash. }
  intros r w4 [-> _]. apply wp_ret, wp_ret. done.
Qed.

End Round.
