(* ===== verification/HtreeExample.v ===== *)
(** A concrete environment for the examples on hash trees: the storage is a
    finite map, the cipher keeps what it seals in the tag, the hash is a toy,
    and no call fails. With it the truncation of a tree is run. *)
From S2P Require Import Prelude State Bytes ReeFile Htree HtreeRules HtreeBlocks HtreeAuth HtreeSync HtreeCommit HtreeReopen HtreeRound.

Definition type_num (ty : tee_fs_htree_type) : Z :=
  match ty with
  | TEE_FS_HTREE_TYPE_HEAD => 0
  | TEE_FS_HTREE_TYPE_NODE => 1
  | TEE_FS_HTREE_TYPE_BLOCK => 2
  end.

Definition toy_hash (l : list Z) : list Z :=
  foldl (λ a x, (a * 257 + x + 1) mod 2 ^ 61) 7 l :: replicate 31 0.

Definition sealed_parts : Type := list Z * list Z * list Z * list Z.

(** The iv and tag arrays hold unbounded integers here. *)
Definition toy_enc (k iv aad p : list Z) : option (list Z * list Z) :=
  Some (p, Zpos (encode ((k, iv, aad, p) : sealed_parts)) :: replicate 15 0).

Definition toy_open (t : list Z) : option sealed_parts :=
  match t with Zpos e :: _ => decode e | _ => None end.

Definition toy_dec (k iv aad c t : list Z) : option (list Z) :=
  match toy_open t with
  | Some (k', iv', aad', p) =>
      if bool_decide ((k', iv', aad', p) = (k, iv, aad, c)) then Some p else None
  | None => None
  end.

Definition toy_plain (k iv aad t : list Z) : list Z :=
  match toy_open t with Some (_, _, _, p) => p | None => [] end.

Definition toy_world : Type := gmap (Z * Z * Z) (list Z) * Z.

#[global] Instance toy_env : HtreeEnv := {|
  eworld := toy_world;
  status := st_ret TEE_SUCCESS;
  crypto_rng_read := λ n w, Some (Done ((TEE_SUCCESS, replicate (Z.to_nat n) w.2), (w.1, w.2 + 1)));
  sha256 := toy_hash;
  authenc_enc := toy_enc;
  authenc_dec := toy_dec;
  fek_encrypt := λ _ k, k;
  fek_decrypt := λ _ k, k;
  rpc_read_init := λ _ _ _, st_ret TEE_SUCCESS;
  rpc_read_final := λ ty i v, gets (λ w : toy_world,
    match w.1 !! (type_num ty, i, v) with
    | Some d => (TEE_SUCCESS, d)
    | None => (TEE_ERROR_CORRUPT_OBJECT, [])
    end);
  rpc_write_init := λ _ _ _, st_ret TEE_SUCCESS;
  rpc_write_final := λ ty i v d w, Some (Done (TEE_SUCCESS, (<[(type_num ty, i, v) := d]> w.1, w.2)));
|}.

Lemma type_num_inj ty ty' : type_num ty = type_num ty' → ty = ty'.
Proof. by destruct ty, ty'. Qed.

Lemma toy_open_enc k iv aad p c t : toy_enc k iv aad p = Some (c, t) → toy_open t = Some (k, iv, aad, p) ∧ c = p.
Proof. intros [= <- <-]. simpl. by rewrite decode_encode. Qed.

#[global] Instance toy_store : HtreeStoreLaws.
Proof.
  refine {| cell := λ (w : @eworld toy_env) ty i v, w.1 !! (type_num ty, i, v); faithful := True;
            quiet := True |}; simpl.
  - intros w. by apply wp_ret.
  - intros n w. eexists _, _. split; [done|]. split_and!; [done|done|].
    intros _ Hn. rewrite length_replicate. lia.
  - intros ty i v w Hv. by apply wp_ret.
  - intros ty i v w Hv. apply wp_gets. destruct (w.1 !! _) eqn:E; (split_and!; [done|done|]); [|done].
    by intros _ _.
  - intros ty i v w Hv. by apply wp_ret.
  - intros ty i v d w Hv. eexists _, _. split; [done|]. split_and!; [done| |].
    + intros ty' i' v' N. simpl. apply lookup_insert_ne. intros [= E -> ->].
      apply N. by rewrite (type_num_inj _ _ E).
    + intros _ _. simpl. apply lookup_insert_eq.
Defined.

#[global] Instance toy_cipher : CipherLaws.
Proof.
  refine {| plain := toy_plain |}; simpl.
  - intros k iv aad p c t E. unfold toy_plain. by destruct (toy_open_enc _ _ _ _ _ _ E) as [-> _].
  - intros k iv aad c t p. unfold toy_dec, toy_plain. destruct (toy_open t) as [[[[? ?] ?] ?]|]; [|done].
    case_match; [|done]. by intros [= <-].
Defined.

#[global] Instance toy_laws : HtreeEnvLaws.
Proof. by split; apply _. Defined.

Lemma toy_reliable : reliable.
Proof.
  split.
  - done.
  - intros w. by apply wp_ret.
  - intros ty i v w Hv. by apply wp_ret.
  - intros ty i v w d E. apply wp_gets. simpl in *. by rewrite E.
  - intros k iv aad m c t Hm E. simpl in *. destruct (toy_open_enc _ _ _ _ _ _ E) as [O ->].
    unfold toy_dec. by rewrite O, bool_decide_eq_true_2 by done.
Qed.

(** ** Runs *)

(** The handle and the world when a call succeeds. *)
Definition handle_of {A} (m : St (@eworld toy_env) (Z * A * option tee_fs_htree)) (w : toy_world)
  : option (tee_fs_htree * toy_world) :=
  match m w with
  | Some (Done ((res, _, Some ht), w')) => if res =? TEE_SUCCESS then Some (ht, w') else None
  | _ => None
  end.

(** A tree that was just created. *)
Definition created : tee_fs_htree * toy_world := Eval vm_compute in
  default (empty_htree None, (∅, 0)) (handle_of (tee_fs_htree_open true None 0 None) (∅, 1)).

Lemma created_ok : handle_of (tee_fs_htree_open true None 0 None) (∅, 1) = Some created.
Proof. vm_compute. reflexivity. Qed.

Lemma created_settled : settled created.1.
Proof.
  split; try (vm_compute; reflexivity).
  - vm_compute. by split_and!.
  - split; [|done]. split; [done|simpl; lia].
  - done.
  - split; [reflexivity|done].
  - split; try reflexivity. simpl. lia.
  - split; [vm_compute; reflexivity|]. done.
  - split; [simpl; lia|unfold UINT32_MAX; simpl; lia].
Qed.

Lemma created_stored : stored_handle created.2 created.1.
Proof. split; [vm_compute; reflexivity|]. split; [vm_compute; reflexivity|done]. Qed.

Definition some_block (n : Z) : list Z := replicate 4096 n.

Definition some_ops : list tree_op := [TWrite 0 (some_block 5); TWrite 1 (some_block 6)].

Lemma some_ops_ok : ops_ok (nodes created.1) (nodes created.1) (some_ops ++ [TSetLength 8192]).
Proof. change (nodes created.1) with 1. simpl. lia. Qed.

Lemma htree_update_atomic_witness :
  follows created.1 created.1 ∧ stored_handle created.2 created.1 ∧
  wp (update (some_ops ++ [TSetLength 8192]) created.1) created.2 (λ '(res, out, r) w',
    stored_handle w' created.1 ∧
    (res = TEE_SUCCESS → ∃ ht', r = Some ht' ∧ h_counter (head ht') = 2 ∧
       tree_data ht' 1 = Some (some_block 6) ∧ stored_handle w' ht')).
Proof.
  assert (Fo : follows created.1 created.1) by apply settled_follows, created_settled.
  split; [done|]. split; [apply created_stored|]. eapply wp_mono.
  { apply (htree_update_atomic created.1 created.1 some_ops (TSetLength 8192));
      [done|apply created_stored|apply some_ops_ok|done]. }
  intros [[res out] r] w' (_ & St & R). split; [done|]. intros Es.
  destruct (R Es) as (ht' & -> & _ & Hc & _ & _ & Hd & Sf). exists ht'. split_and!; [done|done| |by apply Sf].
  by rewrite Hd.
Defined.

Lemma htree_commit_reopen_witness :
  settled created.1 ∧
  wp (update (some_ops ++ [TSetLength 8192]) created.1) created.2 (λ '(res, out, r) w',
    res = TEE_SUCCESS → ∃ ht' h counter, r = Some ht' ∧ out = Some (h, counter) ∧
      m_length (imeta ht') = 8192 ∧
      wp (tee_fs_htree_open false (Some h) counter (ht_uuid ht')) w' (λ '(res2, _, r2) _,
        res2 = TEE_SUCCESS ∧ r2 = Some ht')).
Proof.
  split; [apply created_settled|]. eapply wp_mono.
  { apply (htree_commit_reopen ltac:(done) created.1 some_ops (TSetLength 8192));
      [apply toy_reliable|apply created_settled|apply created_stored|apply some_ops_ok|].
    repeat (apply Forall_cons; split); try done; simpl; lia. }
  intros [[res out] r] w' R Es. destruct (R Es) as (ht' & h & cnt & -> & -> & _ & _ & Hl & _ & Op).
  exists ht', h, cnt. split_and!; [done|done|done|]. apply Op; [by left|done].
Defined.

(** A tree of one node: an empty storage, and the storage it was written to. *)
Lemma htree_open_authentic_witness :
  wp (tee_fs_htree_open false (Some (child_hash (root created.1))) 0 None) (∅, 0) (λ '(res, _, r) _,
    res ≠ TEE_SUCCESS ∧ r = None) ∧
  wp (tee_fs_htree_open false (Some (child_hash (root created.1))) 0 None) created.2
    (λ '(res, _, r) w', res = TEE_SUCCESS ∧ (∃ ht, r = Some ht ∧ formed ht ∧
       (nodes ht = 1 ∧ meta_bytes (imeta ht) = meta_bytes (imeta created.1) ∨
        collision (hashed (Some (imeta ht)) (root ht))
          (hashed (Some (imeta created.1)) (root created.1)))) ∨
     res ≠ TEE_SUCCESS ∧ r = None).
Proof.
  split; [eexists _, _; split; [vm_compute; reflexivity|done]|].
  destruct (@htree_open_authentic toy_env _ (root created.1) (imeta created.1) 1 (child_hash (root created.1)) 0 None
    created.2) as [O|W].
  - vm_compute. by split_and!.
  - vm_compute. by split_and!.
  - apply created_settled.
  - done.
  - exfalso. refine (proj1 (bool_decide_eq_false (opens_oversized _ 0 None created.2)) _ O).
    vm_compute. reflexivity.
  - eapply wp_mono; [exact W|].
    intros [[res out] r] w' [_ [(-> & ht & -> & F & _ & [(N & M & _)|C])|R]]; [left|left|by right];
      (split; [done|]); exists ht; split_and!; auto.
Defined.

(** ** Truncation *)

(** A tree of the five blocks [0 .. 4]. *)
Definition five_blocks : list tree_op :=
  [TWrite 0 (some_block 0); TWrite 1 (some_block 1); TWrite 2 (some_block 2);
   TWrite 3 (some_block 3); TWrite 4 (some_block 4); TSetLength 20480].

(** A created tree changed and committed twice, and opened with the hash of the
    second commit: the results of the second commit and of the opening, and
    the length that is read. *)
Definition reopened (ops1 ops2 : list tree_op) : option (Z * Z * option Z) :=
  match handle_of (update ops1 created.1) created.2 with
  | None => None
  | Some (ht1, w1) =>
      match update ops2 ht1 w1 with
      | Some (Done ((res, Some (h, _), _), w2)) =>
          match tee_fs_htree_open false (Some h) 0 None w2 with
          | Some (Done ((res', _, r), _)) => Some (res, res', option_map tee_fs_htree_get_meta r)
          | _ => None
          end
      | _ => None
      end
  end.

(** A tree cannot always be opened after it was truncated: cutting the
    last of five blocks removes a node whose parent, node 2, is not written
    again, so that its hash is still that of a node with two children. The
    truncation and the commit succeed, and the next opening with the hash that
    the commit reported fails with [TEE_ERROR_CORRUPT_OBJECT], on a storage
    that answers what was written and with no call that fails. Without the
    truncation, or when it cuts children of the root, the tree is opened. *)
Theorem truncated_tree_is_corrupt :
  reopened five_blocks [TTruncate 3; TSetLength 16384] =
    Some (TEE_SUCCESS, TEE_ERROR_CORRUPT_OBJECT, None) ∧
  reopened five_blocks [TSetLength 16384] = Some (TEE_SUCCESS, TEE_SUCCESS, Some 16384) ∧
  reopened five_blocks [TTruncate 0; TSetLength 4096] = Some (TEE_SUCCESS, TEE_SUCCESS, Some 4096).
Proof. split_and!; vm_compute; reflexivity. Qed.
