(* ===== verification/StoredFile.v ===== *)
(** Files of the REE file system on their hash trees: core/tee/tee_ree_fs.c
    over core/tee/fs_htree.c. *)
From S2P Require Import Prelude State Bytes ReeFile ReeFileProofs ReeFileSpec.
From S2P Require Import Htree HtreeRules HtreeBlocks HtreeExample.


(** The calls below a file in the examples. *)
#[global] Instance toy_file : FileEnv := {|
  file_rpc_truncate := λ _, st_ret TEE_SUCCESS;
  mempool_alloc := st_ret true;
  user_copy_from := λ _ n, st_ret (TEE_SUCCESS, replicate (Z.to_nat n) 7);
  user_copy_to := λ _ _, st_ret TEE_SUCCESS;
|}.

#[global] Instance toy_file_laws : FileEnvLaws.
Proof.
  split; simpl; intros; apply wp_ret; try done. intros _. rewrite length_replicate. lia.
Defined.

(** A file that was just created. *)
Definition new_file : @fd_env fs_htree := mk_env (Some created.1) created.2 0.

Lemma new_file_holds : holds new_file [].
Proof.
  exists created.1. split; [done|]. split_and!; [|done|].
  - split; [vm_compute; by split_and!|]. intros i n. vm_compute. destruct i as [|[]|]; naive_solver.
  - intros i x Hi. by rewrite lookup_nil in Hi.
Qed.

