(* ===== verification/ReeFs.v ===== *)
(** The REE file system, core/tee/tee_ree_fs.c: opening, creating, renaming and
    removing the objects of trusted applications, over the directory file
    ([Dirfile]), the files ([ReeFile]), their hash trees ([Htree]) and the
    requests to the normal world ([FsRpc]). The configuration is that without
    CFG_REE_FS_INTEGRITY_RPMB: a counter protects the directory. Every
    operation holds [ree_fs_mutex] until it returns. *)
From S2P Require Import Prelude State Bytes Bitstring Dirfile FsRpc.
From S2P Require Import ReeFile Htree HtreeBlocks TeePobj.

(** ** What is below

    Cryptography, memory and user memory, and the counter of the directory. *)
Class ReeFsEnv `{RpcEnv} := {
  fs_status : St rworld Z;
  fs_rng_read : Z → St rworld (Z * list Z);
  fs_sha256 : list Z → list Z;
  fs_authenc_enc : list Z → list Z → list Z → list Z → option (list Z * list Z);
  fs_authenc_dec : list Z → list Z → list Z → list Z → list Z → option (list Z);
  fs_fek_encrypt : option (list Z) → list Z → list Z;
  fs_fek_decrypt : option (list Z) → list Z → list Z;
  fs_mempool_alloc : St rworld bool;
  fs_copy_from_user : Z → Z → St rworld (Z * list Z);
  fs_copy_to_user : Z → list Z → St rworld Z;
  fs_realloc : bitstr → Z → St rworld (option bitstr);
  fs_calloc : St rworld bool;
  nv_counter_get_ree_fs : St rworld (Z * Z);
  nv_counter_incr_ree_fs_to : Z → St rworld Z;
  CFG_INSECURE : bool;
  CFG_REE_FS_ALLOW_RESET : bool;
}.

(** ** Open files *)

(** [struct tee_fs_fd]. *)
Record tee_fs_fd := mk_fd {
  fd_ht : option tee_fs_htree;
  fd_fd : Z;
  fd_dfh : tee_fs_dirfile_fileh;
  fd_uuid : option (list Z);
}.

Section ReeFs.
Context `{ReeFsEnv}.

Definition ree_fs_rpc_read_init (ty : tee_fs_htree_type) (idx vers : Z) : St rworld Z :=
  '(offs, size) ← run (get_offs_size ty idx vers); tee_fs_rpc_read_init offs size.

Definition ree_fs_rpc_write_init (ty : tee_fs_htree_type) (idx vers : Z) : St rworld Z :=
  '(offs, size) ← run (get_offs_size ty idx vers); tee_fs_rpc_write_init offs size.

(** The storage of the hash tree of a file: the parts are at their places in
    the file [fd] of the normal world. *)
Definition ree_fs_storage_ops (fd : Z) : HtreeEnv := {|
  eworld := rworld;
  status := fs_status;
  crypto_rng_read := fs_rng_read;
  sha256 := fs_sha256;
  authenc_enc := fs_authenc_enc;
  authenc_dec := fs_authenc_dec;
  fek_encrypt := fs_fek_encrypt;
  fek_decrypt := fs_fek_decrypt;
  rpc_read_init := ree_fs_rpc_read_init;
  rpc_read_final := λ ty idx vers,
    '(offs, size) ← run (get_offs_size ty idx vers);
    tee_fs_rpc_read_final (read_op OPTEE_RPC_CMD_FS fd offs size);
  rpc_write_init := ree_fs_rpc_write_init;
  rpc_write_final := λ ty idx vers data,
    '(offs, _) ← run (get_offs_size ty idx vers);
    tee_fs_rpc_write_final (write_op OPTEE_RPC_CMD_FS fd offs data);
|}.

Definition fd_file_env (fd : Z) : @FileEnv (ree_fs_storage_ops fd) :=
  @Build_FileEnv (ree_fs_storage_ops fd)
    (tee_fs_rpc_truncate OPTEE_RPC_CMD_FS fd) fs_mempool_alloc fs_copy_from_user fs_copy_to_user.

(** The hash tree of the file [fd] as [ReeFile] uses it. *)
Definition fd_htree (fd : Z) : HtreeOps := @fs_htree (ree_fs_storage_ops fd) (fd_file_env fd).

(** What all files share: the world, and the temporary blocks in use. *)
Record fs_base := mk_base { bw : rworld; btmp : Z }.

Definition on_rworld {A} (m : St rworld A) : St fs_base A :=
  zoom bw (λ w b, mk_base w (btmp b)) m.

(** Code on an open file. *)
Definition on_fd {A} (f : tee_fs_fd) (m : St (@fd_env (fd_htree (fd_fd f))) A)
  : St fs_base (A * tee_fs_fd) := λ b,
  match m (@mk_env (fd_htree (fd_fd f)) (fd_ht f) (bw b) (btmp b)) with
  | None => None
  | Some (Done (a, e)) =>
      Some (Done ((a, mk_fd (ht e) (fd_fd f) (fd_dfh f) (fd_uuid f)), mk_base (hw e) (tmp_blocks e)))
  | Some (Panicked c) => Some (Panicked c)
  | Some Undef => Some Undef
  end.

(** [tee_fs_htree_sync_to_storage(&fdp->ht, fdp->dfh.hash, &counter)]: the
    result and the counter when it is written. *)
Definition sync_fd (f : tee_fs_fd) : St fs_base (Z * option Z * tee_fs_fd) :=
  '(res, out, t) ← on_rworld (@tee_fs_htree_sync_to_storage (ree_fs_storage_ops (fd_fd f)) (fd_ht f));
  let dfh := match out with
             | Some (h, _) => mk_fileh (fh_file_number (fd_dfh f)) h (fh_idx (fd_dfh f))
             | None => fd_dfh f
             end in
  mret (res, option_map snd out, mk_fd t (fd_fd f) dfh (fd_uuid f)).

(** [ree_fs_open_primitive] after [out:] with an error. *)
Definition open_failed (create : bool) (dfh : option tee_fs_dirfile_fileh) (fd res : Z)
  : St fs_base (Z * option tee_fs_fd) :=
  _ ← (if negb (fd =? -1) then on_rworld (tee_fs_rpc_close OPTEE_RPC_CMD_FS fd) else mret 0);
  _ ← (if create then on_rworld (tee_fs_rpc_remove_dfh OPTEE_RPC_CMD_FS dfh) else mret 0);
  mret (res, None).

(** The result and the file. A file that is created has its hash written to
    [hash], which is a field of [*dfh] when both are given. *)
Definition ree_fs_open_primitive (create : bool) (hash : option (list Z)) (min_counter : Z)
    (uuid : option (list Z)) (dfh : option tee_fs_dirfile_fileh) : St fs_base (Z * option tee_fs_fd) :=
  ok ← on_rworld fs_calloc;
  if negb ok then mret (TEE_ERROR_OUT_OF_MEMORY, None) else
  '(res, fd) ← on_rworld (if create then tee_fs_rpc_create_dfh OPTEE_RPC_CMD_FS dfh
                          else tee_fs_rpc_open_dfh OPTEE_RPC_CMD_FS dfh);
  if negb (res =? TEE_SUCCESS) then open_failed create dfh (-1) res else
  '(res, out, t) ← on_rworld (@tee_fs_htree_open (ree_fs_storage_ops fd) create hash min_counter uuid);
  if negb (res =? TEE_SUCCESS) then open_failed create dfh fd res else
  let dfh' :=
    match dfh with
    | None => mk_fileh 0 (zeros 32) (-1)
    | Some d =>
        match hash, out with
        | Some _, Some h => mk_fileh (fh_file_number d) h (fh_idx d)
        | _, _ => d
        end
    end in
  mret (TEE_SUCCESS, Some (mk_fd t fd dfh' uuid)).

Definition ree_fs_close_primitive (fh : option tee_fs_fd) : St fs_base unit :=
  match fh with
  | None => mret tt
  | Some f => _ ← on_rworld (tee_fs_rpc_close OPTEE_RPC_CMD_FS (fd_fd f)); mret tt
  end.

(** ** The directory file *)

(** The world of the directory: its open file, and what all files share. *)
Record dirf_world := mk_dw { dw_fd : option tee_fs_fd; dw_base : fs_base }.

Definition dw_on_base {A} (m : St fs_base A) : St dirf_world A :=
  zoom dw_base (λ b w, mk_dw (dw_fd w) b) m.

Definition dw_on_fd {A} (m : tee_fs_fd → St fs_base (A * tee_fs_fd)) : St dirf_world A :=
  f ← gets dw_fd;
  match f with
  | None => undef
  | Some f =>
      '(a, f) ← dw_on_base (m f);
      _ ← modify (λ w, mk_dw (Some f) (dw_base w));
      mret a
  end.

(** The counter is 0 when it is not written, as the callers initialise it. *)
Definition ree_dirf_commit_writes (f : tee_fs_fd) : St fs_base ((Z * list Z * Z) * tee_fs_fd) :=
  '(res, counter, f) ← sync_fd f;
  mret ((res, fh_hash (fd_dfh f), default 0 counter), f).

Definition dirf_read (pos len : Z) (f : tee_fs_fd) : St fs_base ((Z * list Z) * tee_fs_fd) :=
  '((res, data, _), f) ← on_fd f (ree_fs_read_primitive pos (CoreBuf []) len);
  mret ((res, data), f).

Definition dirf_write (pos : Z) (data : list Z) (f : tee_fs_fd) : St fs_base (Z * tee_fs_fd) :=
  on_fd f (ree_fs_write_primitive pos (CoreBuf data) (Z.of_nat (length data))).

#[global] Instance ree_dirf_ops : DirfileOps := {|
  dworld := dirf_world;
  dop_open := λ create hash min_counter,
    '(res, f) ← dw_on_base (ree_fs_open_primitive create hash min_counter None None);
    _ ← modify (λ w, mk_dw f (dw_base w));
    mret res;
  dop_close :=
    f ← gets dw_fd;
    _ ← dw_on_base (ree_fs_close_primitive f);
    modify (λ w, mk_dw None (dw_base w));
  dop_read := λ pos len, dw_on_fd (dirf_read pos len);
  dop_write := λ pos data, dw_on_fd (dirf_write pos data);
  dop_commit_writes := dw_on_fd ree_dirf_commit_writes;
  dop_realloc := λ f n, dw_on_base (on_rworld (fs_realloc f n));
  dop_calloc := dw_on_base (on_rworld fs_calloc);
|}.

(** ** The file system *)

(** An object [struct tee_fs_dirfile_dirh] in memory, with the file it owns. *)
Record dirh_obj := mk_dobj {
  do_fd : option tee_fs_fd;
  do_nbits : Z;
  do_files : bitstr;
  do_ndents : Z;
}.

(** [struct tee_fs_dir]; its buffer [d] is what [ree_fs_readdir_rpc] returns. *)
Record tee_fs_dir := mk_dir { d_dirh : option Z; d_idx : Z; d_uuid : list Z }.

(** The variables of the file system and the objects it has allocated, by
    address; a freed object is removed, addresses are not used again. *)
Record ree_fs := mk_fs {
  base : fs_base;
  ree_fs_dirh : option Z;
  ree_fs_dirh_refcount : Z;
  dirhs : gmap Z dirh_obj;
  fds : gmap Z tee_fs_fd;
  dirs : gmap Z tee_fs_dir;
  next_addr : Z;
}.

Definition with_base (b : fs_base) (s : ree_fs) : ree_fs :=
  mk_fs b (ree_fs_dirh s) (ree_fs_dirh_refcount s) (dirhs s) (fds s) (dirs s) (next_addr s).

Definition with_ref (d : option Z) (n : Z) (s : ree_fs) : ree_fs :=
  mk_fs (base s) d n (dirhs s) (fds s) (dirs s) (next_addr s).

Definition with_dirhs (m : gmap Z dirh_obj) (s : ree_fs) : ree_fs :=
  mk_fs (base s) (ree_fs_dirh s) (ree_fs_dirh_refcount s) m (fds s) (dirs s) (next_addr s).

Definition with_fds (m : gmap Z tee_fs_fd) (s : ree_fs) : ree_fs :=
  mk_fs (base s) (ree_fs_dirh s) (ree_fs_dirh_refcount s) (dirhs s) m (dirs s) (next_addr s).

Definition with_dirs (m : gmap Z tee_fs_dir) (s : ree_fs) : ree_fs :=
  mk_fs (base s) (ree_fs_dirh s) (ree_fs_dirh_refcount s) (dirhs s) (fds s) m (next_addr s).

Abbreviation FS := (St ree_fs).

(** A failed assertion on the reference count or the shared handle; other
    failed assertions are [Panicked 0]. *)
Definition DIRH_ASSERT : Z := 1.

Definition dirh_assert (b : bool) : FS unit := run (if b then Done tt else Panicked DIRH_ASSERT).

Definition fs_on_base {A} (m : St fs_base A) : FS A := zoom base with_base m.

(** A fresh address. *)
Definition alloc : FS Z := λ s,
  Some (Done (next_addr s, mk_fs (base s) (ree_fs_dirh s) (ree_fs_dirh_refcount s) (dirhs s) (fds s)
                             (dirs s) (next_addr s + 1))).

Definition to_dirh (o : dirh_obj) (b : fs_base) : tee_fs_dirfile_dirh :=
  mk_dirh (mk_dw (do_fd o) b : @dworld ree_dirf_ops) (do_nbits o) (do_files o) (do_ndents o).

Definition of_dirh (d : tee_fs_dirfile_dirh) : dirh_obj :=
  mk_dobj (dw_fd (fh d)) (nbits d) (files d) (ndents d).

(** Code on the directory handle at [p]; [Undef] when it was freed. *)
Definition with_dirh {A} (p : Z) (m : St tee_fs_dirfile_dirh A) : FS A :=
  o ← gets (λ s, dirhs s !! p);
  match o with
  | None => undef
  | Some o =>
      zoom (λ s, to_dirh o (base s))
        (λ d s, with_dirhs (<[p := of_dirh d]> (dirhs s)) (with_base (dw_base (fh d)) s)) m
  end.

(** Code on the open file at [fh]. *)
Definition with_file {A} (fh : Z) (m : tee_fs_fd → St fs_base (A * tee_fs_fd)) : FS A :=
  f ← gets (λ s, fds s !! fh);
  match f with
  | None => undef
  | Some f =>
      '(a, f) ← fs_on_base (m f);
      _ ← modify (λ s, with_fds (<[fh := f]> (fds s)) s);
      mret a
  end.

(** *** The shared directory handle

    The loops over the entries of the directory run on [fuel]. *)
Context (fuel : nat).

Definition dirfile_open (create : bool) (min_counter : Z) : FS (Z * option Z) :=
  '(res, d) ← zoom (λ s, mk_dw None (base s) : @dworld ree_dirf_ops)
                (λ w s, with_base (dw_base w) s) (tee_fs_dirfile_open fuel create None min_counter);
  match d with
  | None => mret (res, None)
  | Some d =>
      p ← alloc;
      _ ← modify (λ s, with_dirhs (<[p := of_dirh d]> (dirhs s)) s);
      mret (res, Some p)
  end.

Definition open_dirh : FS (Z * option Z) :=
  '(res, min_counter) ← fs_on_base (on_rworld nv_counter_get_ree_fs);
  if negb (res =? 0) && (negb (res =? TEE_ERROR_NOT_IMPLEMENTED) || negb CFG_INSECURE)
  then mret (res, None) else
  let min_counter := if res =? 0 then min_counter else 0 in
  '(res, d) ← dirfile_open false min_counter;
  if res =? TEE_ERROR_ITEM_NOT_FOUND then
    if negb (min_counter =? 0) && negb CFG_REE_FS_ALLOW_RESET then mret (TEE_ERROR_SECURITY, None)
    else dirfile_open true min_counter
  else mret (res, d).

Definition commit_dirh_writes (dirh : Z) : FS Z :=
  '(res, _, counter) ← with_dirh dirh tee_fs_dirfile_commit_writes;
  if negb (res =? 0) then mret res else
  res ← fs_on_base (on_rworld (nv_counter_incr_ree_fs_to counter));
  mret (if (res =? TEE_ERROR_NOT_IMPLEMENTED) && CFG_INSECURE then TEE_SUCCESS else res).

Definition close_dirh (dirh : Z) : FS unit :=
  o ← gets (λ s, dirhs s !! dirh);
  match o with
  | None => undef
  | Some o =>
      _ ← zoom (λ s, mk_dw (do_fd o) (base s) : @dworld ree_dirf_ops)
            (λ w s, with_base (dw_base w) s)
            (λ w, tee_fs_dirfile_close (to_dirh o (dw_base w)) w);
      modify (λ s, with_ref None (ree_fs_dirh_refcount s) (with_dirhs (delete dirh (dirhs s)) s))
  end.

(** The result and [*dirh]. *)
Definition get_dirh : FS (Z * option Z) :=
  d ← gets ree_fs_dirh;
  '(res, d) ← (match d with Some p => mret (TEE_SUCCESS, Some p) | None => open_dirh end);
  if negb (res =? 0) then mret (res, None) else
  _ ← modify (λ s, with_ref d (u64 (ree_fs_dirh_refcount s + 1)) s);
  _ ← dirh_assert (bool_decide (d ≠ None));
  n ← gets ree_fs_dirh_refcount;
  _ ← dirh_assert (negb (n =? 0));
  mret (TEE_SUCCESS, d).

Definition put_dirh_primitive (close : bool) : FS unit :=
  n ← gets ree_fs_dirh_refcount;
  _ ← dirh_assert (negb (n =? 0));
  _ ← modify (λ s, with_ref (ree_fs_dirh s) (u64 (n - 1)) s);
  d ← gets ree_fs_dirh;
  match d with
  | Some p => if (u64 (n - 1) =? 0) || close then close_dirh p else mret tt
  | None => mret tt
  end.

Definition put_dirh (dirh : option Z) (close : bool) : FS unit :=
  match dirh with
  | None => mret tt
  | Some p =>
      d ← gets ree_fs_dirh;
      _ ← dirh_assert (bool_decide (d = Some p));
      put_dirh_primitive close
  end.

(** *** Operations

    An object is named by the fields [po_uuid] and [po_id] of its
    [struct tee_pobj]. *)
Definition find_obj (dirh : Z) (po : tee_pobj) : FS (Z * tee_fs_dirfile_fileh) :=
  with_dirh dirh (tee_fs_dirfile_find fuel (po_uuid po) (po_id po) (Z.of_nat (length (po_id po)))).

Definition rename_obj (dirh : Z) (po : tee_pobj) (dfh : tee_fs_dirfile_fileh)
  : FS (Z * tee_fs_dirfile_fileh) :=
  with_dirh dirh
    (tee_fs_dirfile_rename fuel (po_uuid po) dfh (po_id po) (Z.of_nat (length (po_id po)))).

Definition remove_file (dfh : tee_fs_dirfile_fileh) : FS unit :=
  _ ← fs_on_base (on_rworld (tee_fs_rpc_remove_dfh OPTEE_RPC_CMD_FS (Some dfh))); mret tt.

Definition new_file (f : tee_fs_fd) : FS Z :=
  fh ← alloc; _ ← modify (λ s, with_fds (<[fh := f]> (fds s)) s); mret fh.

(** [ree_fs_open] up to [out:]. *)
Definition open_body (po : tee_pobj) (dirh : Z) : FS (Z * option (Z * Z)) :=
  '(res, dfh) ← find_obj dirh po;
  if negb (res =? TEE_SUCCESS) then mret (res, None) else
  '(res, f) ← fs_on_base (ree_fs_open_primitive false (Some (fh_hash dfh)) 0 (Some (po_uuid po)) (Some dfh));
  if res =? TEE_ERROR_ITEM_NOT_FOUND then mret (TEE_ERROR_CORRUPT_OBJECT, None) else
  if negb (res =? 0) then mret (res, None) else
  match f with
  | Some f =>
      match fd_ht f with
      | Some t => fh ← new_file f; mret (res, Some (fh, tee_fs_htree_get_meta t))
      | None => undef
      end
  | None => undef
  end.

(** The result, [*fh] and [*size]. *)
Definition ree_fs_open (po : tee_pobj) : FS (Z * option (Z * Z)) :=
  '(res, dirh) ← get_dirh;
  '(res, out) ← (match dirh with None => mret (res, None) | Some p => open_body po p end);
  _ ← (if negb (res =? 0) then put_dirh dirh true else mret tt);
  mret (res, out).

(** The result and [*fdp]. *)
Definition set_name (dirh : Z) (f : tee_fs_fd) (po : tee_pobj) (overwrite : bool)
  : FS (Z * tee_fs_fd) :=
  '(res, old_dfh) ← find_obj dirh po;
  if negb overwrite && (res =? 0) then mret (TEE_ERROR_ACCESS_CONFLICT, f) else
  let have_old_dfh := res =? 0 in
  let dfh := mk_fileh (fh_file_number (fd_dfh f)) (fh_hash (fd_dfh f)) (fh_idx old_dfh) in
  '(res, dfh) ← rename_obj dirh po dfh;
  let f := mk_fd (fd_ht f) (fd_fd f) dfh (fd_uuid f) in
  if negb (res =? 0) then mret (res, f) else
  res ← commit_dirh_writes dirh;
  if negb (res =? 0) then mret (res, f) else
  _ ← (if have_old_dfh
       then remove_file (mk_fileh (fh_file_number old_dfh) (fh_hash old_dfh) (-1)) else mret tt);
  mret (TEE_SUCCESS, f).

Definition ree_fs_close (fh : option Z) : FS unit :=
  match fh with
  | None => mret tt
  | Some fh =>
      _ ← put_dirh_primitive false;
      f ← gets (λ s, fds s !! fh);
      match f with
      | None => undef
      | Some f =>
          _ ← fs_on_base (ree_fs_close_primitive (Some f));
          modify (λ s, with_fds (delete fh (fds s)) s)
      end
  end.

(** One of the writes of [ree_fs_create]; nothing is written of no bytes. *)
Definition create_write (f : tee_fs_fd) (pos : Z) (src : buffer) (len : Z)
  : St fs_base (Z * tee_fs_fd) :=
  match src with
  | NoBuf => mret (TEE_SUCCESS, f)
  | _ => if len =? 0 then mret (TEE_SUCCESS, f) else on_fd f (ree_fs_write_primitive pos src len)
  end.

(** The contents of a new object: the header, the attributes and the data. *)
Definition create_contents (f : tee_fs_fd) (head : buffer) (head_size : Z) (attr : buffer)
    (attr_size : Z) (data : buffer) (data_size : Z) : St fs_base (Z * tee_fs_fd) :=
  '(res, f) ← create_write f 0 head head_size;
  if negb (res =? 0) then mret (res, f) else
  let pos := match head with NoBuf => 0 | _ => head_size end in
  '(res, f) ← create_write f pos attr attr_size;
  if negb (res =? 0) then mret (res, f) else
  let pos := match attr with NoBuf => pos | _ => u64 (pos + attr_size) end in
  create_write f pos data data_size.

(** [ree_fs_create] up to the commit of the new file: the result, the file
    when it is open, and [dfh]. *)
Definition create_file (po : tee_pobj) (head : buffer) (head_size : Z)
    (attr : buffer) (attr_size : Z) (data : buffer) (data_size : Z) (dirh : Z)
  : FS (Z * option tee_fs_fd * tee_fs_dirfile_fileh) :=
  '(res, n) ← with_dirh dirh tee_fs_dirfile_get_tmp;
  let dfh := mk_fileh n (zeros 32) (-1) in
  if negb (res =? 0) then mret (res, None, dfh) else
  '(res, f) ← fs_on_base (ree_fs_open_primitive true (Some (fh_hash dfh)) 0 (Some (po_uuid po)) (Some dfh));
  match f with
  | None => mret (res, None, dfh)
  | Some f =>
      '(res, f) ← fs_on_base (create_contents f head head_size attr attr_size data data_size);
      if negb (res =? 0) then mret (res, Some f, dfh) else
      '(res, _, f) ← fs_on_base (sync_fd f);
      mret (res, Some f, dfh)
  end.

(** [ree_fs_create] up to [out:]. *)
Definition create_body (po : tee_pobj) (overwrite : bool) (head : buffer) (head_size : Z)
    (attr : buffer) (attr_size : Z) (data : buffer) (data_size : Z) (dirh : Z)
  : FS (Z * option tee_fs_fd * tee_fs_dirfile_fileh) :=
  '(res, f, dfh) ← create_file po head head_size attr attr_size data data_size dirh;
  match f with
  | Some f =>
      if negb (res =? 0) then mret (res, Some f, dfh) else
      '(res, f) ← set_name dirh f po overwrite;
      mret (res, Some f, dfh)
  | None => mret (res, None, dfh)
  end.

(** The result and [*fh]. *)
Definition ree_fs_create (po : tee_pobj) (overwrite : bool) (head : buffer) (head_size : Z)
    (attr : buffer) (attr_size : Z) (data : buffer) (data_size : Z) : FS (Z * option Z) :=
  '(res, dirh) ← get_dirh;
  '(res, f, dfh) ←
    (match dirh with
     | None => mret (res, None, mk_fileh 0 [] (-1))
     | Some p => create_body po overwrite head head_size attr attr_size data data_size p
     end);
  if negb (res =? 0) then
    _ ← put_dirh dirh true;
    _ ← (match f with
         | Some f => _ ← fs_on_base (ree_fs_close_primitive (Some f)); remove_file dfh
         | None => mret tt
         end);
    mret (res, None)
  else
    match f with
    | Some f => fh ← new_file f; mret (res, Some fh)
    | None => undef
    end.

(** What [ree_fs_write] and [ree_fs_truncate] do after the change of a file:
    its hash tree and then its entry in the directory are committed. *)
Definition commit_file (fh dirh : Z) : FS Z :=
  '(res, dfh) ← with_file fh (λ f, '(res, _, f) ← sync_fd f; mret ((res, fd_dfh f), f));
  if negb (res =? 0) then mret res else
  res ← with_dirh dirh (tee_fs_dirfile_update_hash dfh);
  if negb (res =? 0) then mret res else
  commit_dirh_writes dirh.

(** A change of the file [fh], then its commit. *)
Definition change_file (fh : Z) (m : tee_fs_fd → St fs_base (Z * tee_fs_fd)) : FS Z :=
  '(res, dirh) ← get_dirh;
  res ← (match dirh with
         | None => mret res
         | Some p => res ← with_file fh m; if negb (res =? 0) then mret res else commit_file fh p
         end);
  _ ← put_dirh dirh (negb (res =? 0));
  mret res.

Definition ree_fs_write (fh pos : Z) (src : buffer) (len : Z) : FS Z :=
  change_file fh (λ f, on_fd f (ree_fs_write_primitive pos src len)).

Definition ree_fs_truncate (fh len : Z) : FS Z :=
  change_file fh (λ f, on_fd f (ree_fs_ftruncate_internal len)).

Definition ree_fs_read (fh pos : Z) (dst : buffer) (len : Z) : FS (Z * list Z * Z) :=
  with_file fh (λ f, on_fd f (ree_fs_read_primitive pos dst len)).

(** [ree_fs_rename] up to [out:]. *)
Definition rename_body (old new : tee_pobj) (overwrite : bool) (dirh : Z) : FS Z :=
  '(res, remove_dfh) ← find_obj dirh new;
  if (res =? 0) && negb overwrite then mret TEE_ERROR_ACCESS_CONFLICT else
  '(res, dfh) ← find_obj dirh old;
  if negb (res =? 0) then mret res else
  '(res, _) ← rename_obj dirh new dfh;
  if negb (res =? 0) then mret res else
  res ← (if negb (fh_idx remove_dfh =? -1)
         then with_dirh dirh (tee_fs_dirfile_remove remove_dfh) else mret TEE_SUCCESS);
  if negb (res =? 0) then mret res else
  res ← commit_dirh_writes dirh;
  if negb (res =? 0) then mret res else
  _ ← (if negb (fh_idx remove_dfh =? -1) then remove_file remove_dfh else mret tt);
  mret res.

Definition ree_fs_rename (old : tee_pobj) (new : option tee_pobj) (overwrite : bool) : FS Z :=
  match new with
  | None => mret TEE_ERROR_BAD_PARAMETERS
  | Some new =>
      '(res, dirh) ← get_dirh;
      res ← (match dirh with None => mret res | Some p => rename_body old new overwrite p end);
      _ ← put_dirh dirh (negb (res =? 0));
      mret res
  end.

(** [ree_fs_remove] up to [out:], with the assertion that the object is gone. *)
Definition remove_body (po : tee_pobj) (dirh : Z) : FS Z :=
  '(res, dfh) ← find_obj dirh po;
  if negb (res =? 0) then mret res else
  res ← with_dirh dirh (tee_fs_dirfile_remove dfh);
  if negb (res =? 0) then mret res else
  res ← commit_dirh_writes dirh;
  if negb (res =? 0) then mret res else
  _ ← remove_file dfh;
  '(res2, _) ← find_obj dirh po;
  _ ← st_assert (negb (res2 =? 0));
  mret res.

Definition ree_fs_remove (po : tee_pobj) : FS Z :=
  '(res, dirh) ← get_dirh;
  res ← (match dirh with None => mret res | Some p => remove_body po p end);
  _ ← put_dirh dirh (negb (res =? 0));
  mret res.

(** *** Enumeration *)

(** The result and [*dir]. *)
Definition ree_fs_opendir_rpc (uuid : list Z) : FS (Z * option Z) :=
  ok ← fs_on_base (on_rworld fs_calloc);
  if negb ok then mret (TEE_ERROR_OUT_OF_MEMORY, None) else
  '(res, dirh) ← get_dirh;
  res ← (match dirh with
         | None => mret res
         | Some p =>
             '(res, _) ← with_dirh p (tee_fs_dirfile_get_next fuel uuid (-1) TEE_OBJECT_ID_MAX_LEN);
             mret res
         end);
  if res =? 0 then
    d ← alloc;
    _ ← modify (λ s, with_dirs (<[d := mk_dir dirh (-1) uuid]> (dirs s)) s);
    mret (res, Some d)
  else _ ← put_dirh dirh false; mret (res, None).

Definition ree_fs_closedir_rpc (d : option Z) : FS unit :=
  match d with
  | None => mret tt
  | Some d =>
      o ← gets (λ s, dirs s !! d);
      match o with
      | None => undef
      | Some o =>
          _ ← put_dirh (d_dirh o) false;
          modify (λ s, with_dirs (delete d (dirs s)) s)
      end
  end.

(** The result and the identifier of the entry. *)
Definition ree_fs_readdir_rpc (d : Z) : FS (Z * list Z) :=
  o ← gets (λ s, dirs s !! d);
  match o with
  | None => undef
  | Some o =>
      match d_dirh o with
      | None => undef
      | Some p =>
          '(res, (idx, oid', _)) ←
            with_dirh p (tee_fs_dirfile_get_next fuel (d_uuid o) (d_idx o) TEE_OBJECT_ID_MAX_LEN);
          _ ← modify (λ s, with_dirs (<[d := mk_dir (d_dirh o) idx (d_uuid o)]> (dirs s)) s);
          mret (res, oid')
      end
  end.

End ReeFs.
