(* ===== verification/ReeFsLaws.v ===== *)
(** What the REE file system asks of the code below it, and that its files and
    its directory are then what the layers above expect: the storage of a hash
    tree satisfies [HtreeEnvLaws], the directory file [DirfileLaws]; and the
    directory as a map: the object of a name is the number and the hash of the
    file its entry stands for. *)
From S2P Require Import Prelude State Bytes Bitstring Dirfile DirfileProofs FsRpc ReeFile ReeFileProofs ReeFileSpec Htree HtreeRules HtreeBlocks HtreeCommit TeePobj ReeFs.

(** Requests that read or write a file. *)
Definition accesses (params : list thread_param) : bool :=
  match params with
  | VALUE_IN cmd _ _ :: _ => (cmd =? OPTEE_RPC_FS_READ) || (cmd =? OPTEE_RPC_FS_WRITE)
  | _ => false
  end.

(** Every call ends. The normal world may answer anything but
    [TEE_ERROR_ITEM_NOT_FOUND] when a file is read or written: the directory
    file takes that answer for the end of its entries, so that a normal world
    that gives it hides objects ([denied_read_hides_object] in [ReeFsExample]).
    Random bytes are as many as asked for, [realloc] keeps what fits, and a hash
    has 32 bytes. [fs_plain] is what a run of the cipher means in which no tag is
    forged, as in [CipherLaws]. *)
Class ReeFsLaws `{ReeFsEnv} := {
  fs_rpc_ok : ∀ id params w, wp (thread_rpc_cmd id params) w (λ r _,
    accesses params = true → r.1 ≠ TEE_ERROR_ITEM_NOT_FOUND);
  fs_shm_ok : ∀ n w, wp (thread_rpc_shm_cache_alloc n) w (λ _ _, True);
  fs_status_ok : ∀ w, wp fs_status w (λ res _, res ≠ TEE_ERROR_ITEM_NOT_FOUND);
  fs_rng_ok : ∀ n w, wp (fs_rng_read n) w (λ '(res, d) _,
    res ≠ TEE_ERROR_ITEM_NOT_FOUND ∧ (res = TEE_SUCCESS → 0 ≤ n → Z.of_nat (length d) = n));
  fs_mempool_ok : ∀ w, wp fs_mempool_alloc w (λ _ _, True);
  fs_copy_from_ok : ∀ a n w, 0 ≤ n → wp (fs_copy_from_user a n) w (λ '(res, d) _,
    res = TEE_SUCCESS → Z.of_nat (length d) = n);
  fs_copy_to_ok : ∀ a d w, wp (fs_copy_to_user a d) w (λ _ _, True);
  fs_realloc_ok : ∀ f n w, wp (fs_realloc f n) w (λ r _,
    match r with
    | Some p =>
        Z.of_nat (length p) = n ∧ bytes_ok p ∧
        ∀ i, (i < length f)%nat → (i < length p)%nat → p !! i = f !! i
    | None => True
    end);
  fs_calloc_ok : ∀ w, wp fs_calloc w (λ _ _, True);
  fs_nv_get_ok : ∀ w, wp nv_counter_get_ree_fs w (λ _ _, True);
  fs_nv_incr_ok : ∀ n w, wp (nv_counter_incr_ree_fs_to n) w (λ _ _, True);
  fs_sha256_length : ∀ l, length (fs_sha256 l) = 32%nat;
  fs_plain : list Z → list Z → list Z → list Z → list Z;
  fs_enc_plain : ∀ k iv aad p c t, fs_authenc_enc k iv aad p = Some (c, t) → fs_plain k iv aad t = p;
  fs_dec_plain : ∀ k iv aad c t p, fs_authenc_dec k iv aad c t = Some p → fs_plain k iv aad t = p;
}.

Lemma get_offs_size_done ty idx vers :
  vers_ok vers → ∃ offs size, get_offs_size ty idx vers = Done (offs, size).
Proof. intros [-> | ->]; unfold get_offs_size; destruct ty; simpl; eauto. Qed.

Section Laws.
Context `{ReeFsLaws}.

(** ** The storage of a hash tree *)

Lemma read_init_end offset n w :
  wp (tee_fs_rpc_read_init offset n) w (λ res _, res ≠ TEE_ERROR_ITEM_NOT_FOUND).
Proof.
  unfold tee_fs_rpc_read_init. destruct (negative offset); [by st_step|]. st_step.
  eapply wp_mono; [apply fs_shm_ok|]. intros [] w' _; by st_step.
Qed.

Lemma write_init_end offset n w :
  wp (tee_fs_rpc_write_init offset n) w (λ res _, res ≠ TEE_ERROR_ITEM_NOT_FOUND).
Proof.
  unfold tee_fs_rpc_write_init. destruct (negative offset); [by st_step|]. st_step.
  eapply wp_mono; [apply fs_shm_ok|]. intros [] w' _; by st_step.
Qed.

(** Nothing is claimed of what the storage holds. *)
#[export] Instance storage_store fd : @HtreeStoreLaws (ree_fs_storage_ops fd).
Proof.
  refine {| cell := λ (_ : @eworld (ree_fs_storage_ops fd)) _ _ _, None; faithful := False;
            quiet := True |}; simpl.
  - intros w. eapply wp_mono; [apply fs_status_ok|]. auto.
  - intros n w. eapply wp_mono; [apply fs_rng_ok|]. intros [res d] w' []. auto.
  - intros ty i v w (o & s & E)%(get_offs_size_done ty i). unfold ree_fs_rpc_read_init. st_step.
    eapply wp_run; [exact E|]. eapply wp_mono; [apply read_init_end|]. by intros res w' N.
  - intros ty i v w (o & s & E)%(get_offs_size_done ty i). st_step. eapply wp_run; [exact E|].
    unfold tee_fs_rpc_read_final, operation_commit. st_step. eapply wp_mono; [apply fs_rpc_ok|].
    intros [res ps] w' N. st_step. split_and!; [by intros _; apply N|done|done].
  - intros ty i v w (o & s & E)%(get_offs_size_done ty i). unfold ree_fs_rpc_write_init. st_step.
    eapply wp_run; [exact E|]. eapply wp_mono; [apply write_init_end|]. by intros res w' N.
  - intros ty i v d w (o & s & E)%(get_offs_size_done ty i). st_step. eapply wp_run; [exact E|].
    unfold tee_fs_rpc_write_final, operation_commit. st_step. eapply wp_mono; [apply fs_rpc_ok|].
    intros [res ps] w' N. st_step. split_and!; [by intros _; apply N|done|done].
Defined.

#[export] Instance storage_cipher fd : @CipherLaws (ree_fs_storage_ops fd).
Proof. refine {| plain := fs_plain |}; simpl; [apply fs_enc_plain|apply fs_dec_plain]. Defined.

#[export] Instance storage_laws fd : @HtreeEnvLaws (ree_fs_storage_ops fd).
Proof. split; apply _. Defined.

#[export] Instance fd_file_laws fd : @FileEnvLaws (ree_fs_storage_ops fd) (fd_file_env fd).
Proof.
  split; simpl.
  - intros n w. unfold tee_fs_rpc_truncate, operation_commit. st_step.
    eapply wp_mono; [apply fs_rpc_ok|]. intros [res ps] w' _. by st_step.
  - apply fs_mempool_ok.
  - apply fs_copy_from_ok.
  - apply fs_copy_to_ok.
Defined.

Definition fd_laws fd : @HtreeLaws (fd_htree fd) :=
  @fs_htree_laws (ree_fs_storage_ops fd) (storage_laws fd) (fd_file_env fd) (fd_file_laws fd).

(** ** Open files *)

(** The file holds the bytes [c]. *)
Definition file_holds (f : tee_fs_fd) (c : list Z) : Prop :=
  ∃ t, fd_ht f = Some t ∧ @is_file (fd_htree (fd_fd f)) (fd_laws (fd_fd f)) t c.

Lemma file_holds_env f c b :
  file_holds f c →
  @holds _ (fd_laws (fd_fd f)) (@mk_env (fd_htree (fd_fd f)) (fd_ht f) (bw b) (btmp b)) c.
Proof. done. Qed.

Lemma file_holds_inj f c c' : file_holds f c → file_holds f c' → c = c'.
Proof.
  intros (t & E & _ & L & F) (t' & E' & _ & L' & F'). assert (t' = t) as -> by congruence.
  assert (Ln : length c = length c') by lia. apply list_eq. intros i.
  destruct (c !! i) as [x|] eqn:Ex, (c' !! i) as [x'|] eqn:Ex'; [| | |done].
  - apply F in Ex. apply F' in Ex'. congruence.
  - apply lookup_lt_Some in Ex. apply lookup_ge_None in Ex'. lia.
  - apply lookup_lt_Some in Ex'. apply lookup_ge_None in Ex. lia.
Qed.

Lemma wp_on_fd {A} f (m : St (@fd_env (fd_htree (fd_fd f))) A) b (Q : A * tee_fs_fd → fs_base → Prop) :
  wp m (@mk_env (fd_htree (fd_fd f)) (fd_ht f) (bw b) (btmp b))
    (λ a e, Q (a, mk_fd (ht e) (fd_fd f) (fd_dfh f) (fd_uuid f)) (mk_base (hw e) (tmp_blocks e))) →
  wp (on_fd f m) b Q.
Proof. intros (a & e & E & HQ). eexists _, _. split; [|exact HQ]. unfold on_fd. by rewrite E. Qed.

Lemma wp_rworld {A} (m : St rworld A) b (Q : A → fs_base → Prop) :
  wp m (bw b) (λ a w, Q a (mk_base w (btmp b))) → wp (on_rworld m) b Q.
Proof. intros W. unfold on_rworld. apply wp_zoom. exact W. Qed.

(** ** The directory file *)

(** [tee_fs_htree_sync_to_storage] keeps the bytes of a file; only the hash of
    its handle changes. *)
Definition same_entry (f f' : tee_fs_fd) : Prop :=
  fd_fd f' = fd_fd f ∧ fh_file_number (fd_dfh f') = fh_file_number (fd_dfh f) ∧
  fh_idx (fd_dfh f') = fh_idx (fd_dfh f).

Lemma wp_sync_fd f b c :
  file_holds f c →
  wp (sync_fd f) b (λ '(res, _, f') _, same_entry f f' ∧
    (res = TEE_SUCCESS → file_holds f' c ∧
       (length (fh_hash (fd_dfh f)) = 32%nat → length (fh_hash (fd_dfh f')) = 32%nat))).
Proof.
  intros (t & Et & F). pose proof F as [So _]. unfold sync_fd. rewrite Et. st_step. apply wp_rworld.
  eapply wp_mono;
    [exact (@sync_to_storage_keeps (ree_fs_storage_ops (fd_fd f)) _ fs_sha256_length t (bw b) So)|].
  intros [[res out] t'] w [_ R]. st_step. split; [by destruct out as [[]|]|]. intros E.
  destruct (R E) as [(t2 & -> & So2 & L2 & D) Lo]. split; [|by destruct out as [[]|]].
  exists t2. split; [done|].
  exact (@is_file_ext (fd_htree (fd_fd f)) (fd_laws (fd_fd f)) t t2 c So2 L2 D F).
Qed.

Lemma wp_dw_on_fd {A} (m : tee_fs_fd → St fs_base (A * tee_fs_fd)) (w : dirf_world) f
    (Q : A → dirf_world → Prop) :
  dw_fd w = Some f →
  wp (m f) (dw_base w) (λ r b, Q r.1 (mk_dw (Some r.2) b)) → wp (dw_on_fd m) w Q.
Proof.
  intros E W. unfold dw_on_fd. do 2 st_step. rewrite E. st_step. unfold dw_on_base. apply wp_zoom.
  eapply wp_mono; [exact W|]. intros [a f'] b HQ. by do 3 st_step.
Qed.

(** [ree_fs_write_primitive] of core memory, also of no bytes. *)
Lemma write_data_ok `{HtreeOps, !HtreeLaws} e c pos data :
  holds e c → 0 ≤ pos → pos + Z.of_nat (length data) ≤ INT_MAX → Z.of_nat (length c) ≤ INT_MAX →
  wp (ree_fs_write_primitive pos (CoreBuf data) (Z.of_nat (length data))) e (λ res e',
    tmp_blocks e' = tmp_blocks e ∧
    (res = TEE_SUCCESS ∧ holds e' (file_spec (FWrite pos data) c).2 ∨ res ≠ TEE_SUCCESS)).
Proof.
  intros He Hp Hm Hc. pose proof (file_call_ok (FWrite pos data) e c (conj Hp Hm) Hc He) as W.
  unfold file_call in W. destruct W as ([res out] & e' & E & T & R).
  unfold mbind, st_mbind, st_bind in E. destruct (ree_fs_write_primitive _ _ _ e) as [[[r s]| |]|] eqn:E1;
    try done. injection E as <- <- <-. exists r, s. split; [done|]. split; [done|].
  destruct R as [(-> & _ & R)|]; auto.
Qed.

(** The open directory file holds [c]. *)
Definition dirf_holds (w : dirf_world) (c : list Z) : Prop :=
  ∃ f, dw_fd w = Some f ∧ file_holds f c ∧ Z.of_nat (length c) ≤ INT_MAX.

#[export] Instance ree_dirf_laws : @DirfileLaws ree_dirf_ops.
Proof.
  refine {| contents := dirf_holds : @dworld ree_dirf_ops → list Z → Prop |}; simpl.
  - intros w c c' (f & E & Hf & _) (f' & E' & Hf' & _). assert (f' = f) as -> by congruence.
    by eapply file_holds_inj.
  - intros pos len w c (f & E & Hf & Hc) Hp Hl Hm. apply (wp_dw_on_fd _ _ f); [done|].
    unfold dirf_read. st_step. apply wp_on_fd.
    eapply wp_mono.
    { by apply (@read_primitive_ok (fd_htree (fd_fd f)) (fd_laws (fd_fd f)) _ c). }
    intros [[res d] rl] e [(-> & -> & _ & (t & Ht & F) & _)|(N & _ & N2)]; st_step; simpl.
    + left. split_and!; [done|done|]. eexists. split_and!; [done| |done]. by exists t.
    + right. split; [done|by apply N2].
  - intros pos data w c (f & E & Hf & Hc) Hp Hm. apply (wp_dw_on_fd _ _ f); [done|].
    unfold dirf_write. apply wp_on_fd.
    eapply wp_mono.
    { apply (@write_data_ok (fd_htree (fd_fd f)) (fd_laws (fd_fd f)) _ c); [done|lia|lia|done]. }
    intros res e [_ [(-> & t & Ht & F)|N]]; [left|by right]. split; [done|].
    simpl in F. replace (Z.of_nat (length c) <? pos) with false in F by lia.
    destruct (decide (data = [])) as [->|Hd].
    { rewrite Nat.add_0_r, app_nil_l, take_drop. exists (mk_fd (Some t) (fd_fd f) (fd_dfh f) (fd_uuid f)).
      split_and!; [by rewrite <- Ht|exists t; split; [done|exact F]|done]. }
    eexists. split_and!; [done|exists t; split; [exact Ht|exact F]|]. rewrite length_app, length_take, length_app, length_drop. lia.
  - intros f n w. unfold dw_on_base. apply wp_zoom, wp_rworld.
    eapply wp_mono; [apply fs_realloc_ok|]. intros r w' R. split; [|done].
    intros c (f' & E & Hf & Hc). by exists f'.
  - intros w c (f & E & Hf & Hc). apply (wp_dw_on_fd _ _ f); [done|].
    unfold ree_dirf_commit_writes. st_step. eapply wp_mono; [by apply wp_sync_fd|].
    intros [[res n] f'] b [_ R]. st_step. simpl. intros Es. exists f'. split_and!; [done|by apply R|done].
  - intros w. unfold dw_on_base. apply wp_zoom, wp_rworld. by eapply wp_mono; [apply fs_calloc_ok|].
  - intros w. do 3 st_step. unfold dw_on_base. apply wp_zoom.
    eapply wp_mono with (P := λ _ _, True); [|by intros; st_step].
    unfold ree_fs_close_primitive, tee_fs_rpc_close, operation_commit. destruct (dw_fd w); [|by st_step].
    st_step. apply wp_rworld. st_step. eapply wp_mono; [apply fs_rpc_ok|]. intros [res ps] w' _.
    by do 2 st_step.
Defined.

End Laws.

(** The file number and the hash of the object [k]. *)
Definition obj_at (k : name) (ents : list dirfile_entry) : option (Z * list Z) :=
  (λ x, (file_number x.2, hash x.2)) <$> list_find (has_name k) ents.

(** No two entries are for the same object. *)
Definition unique_names (ents : list dirfile_entry) : Prop := ∀ k i j e e',
  ents !! i = Some e → ents !! j = Some e' → has_name k e → has_name k e' → i = j.

Lemma has_name_inj k k' e : has_name k e → has_name k' e → k = k'.
Proof. unfold has_name. intros [_ E] [_ E']. congruence. Qed.

Lemma obj_at_none k ents : obj_at k ents = None ↔ no_name k ents.
Proof.
  unfold obj_at. rewrite fmap_None, list_find_None, Forall_lookup. unfold no_name. done.
Qed.

Lemma obj_at_some k ents i e :
  unique_names ents → ents !! i = Some e → has_name k e → obj_at k ents = Some (file_number e, hash e).
Proof.
  intros U E N. unfold obj_at. assert (list_find (has_name k) ents = Some (i, e)) as ->; [|done].
  apply list_find_Some. split_and!; [done|done|]. intros j y Ej Hj Nj.
  pose proof (U k i j e y E Ej N Nj). lia.
Qed.

Lemma first_named_at k ents i e :
  first_named k ents i e → obj_at k ents = Some (file_number e, hash e).
Proof.
  intros (E & N & L). unfold obj_at. assert (list_find (has_name k) ents = Some (i, e)) as ->; [|done].
  apply list_find_Some. split_and!; [done|done|]. intros j y Ej Hj. by apply (L j y).
Qed.

(** Where the entry of an object is. *)
Lemma obj_at_entry k ents v :
  obj_at k ents = Some v → ∃ i e, ents !! i = Some e ∧ has_name k e ∧ v = (file_number e, hash e).
Proof.
  unfold obj_at. destruct (list_find (has_name k) ents) as [[i e]|] eqn:L; [|done].
  intros [= <-]. apply list_find_Some in L as (E & N & _). by exists i, e.
Qed.

(** [e] can be stored at [i]: no other entry is for its object. *)
Definition fits (i : nat) (e : dirfile_entry) (ents : list dirfile_entry) : Prop :=
  (i ≤ length ents)%nat ∧
  ∀ k j e', j ≠ i → ents !! j = Some e' → has_name k e' → ¬ has_name k e.

Lemma unique_store i e ents : unique_names ents → fits i e ents → unique_names (store i e ents).
Proof.
  intros U [Hi F] k j j' x x'. rewrite !lookup_store by done.
  repeat case_decide; subst; intros E E' N N'; simplify_eq; [done| | |by apply (U k j j' x x')].
  - by destruct (F k j' x' ltac:(done) E' N').
  - by destruct (F k j x ltac:(done) E N).
Qed.

Lemma obj_at_store i e ents k :
  unique_names ents → fits i e ents →
  obj_at k (store i e ents) =
    if decide (has_name k e) then Some (file_number e, hash e)
    else match ents !! i with
         | Some e0 => if decide (has_name k e0) then None else obj_at k ents
         | None => obj_at k ents
         end.
Proof.
  intros U F. pose proof (unique_store i e ents U F) as U'. pose proof F as [Hi Fo].
  assert (Ei : store i e ents !! i = Some e) by (rewrite lookup_store by done; by rewrite decide_True).
  case_decide as N; [by apply (obj_at_some k _ i)|].
  assert (Other : ∀ x, (∀ e0, ents !! i = Some e0 → ¬ has_name k e0) → obj_at k ents = x →
    obj_at k (store i e ents) = x).
  { intros x Old <-. destruct (obj_at k ents) as [v|] eqn:Ev.
    - apply obj_at_entry in Ev as (j & x & Ej & Nx & ->).
      destruct (decide (j = i)) as [->|Nj]; [by destruct (Old x Ej)|].
      apply (obj_at_some k _ j); [done| |done]. rewrite lookup_store by done. by rewrite decide_False.
    - rewrite obj_at_none in Ev |- *. intros j x. rewrite lookup_store by done.
      case_decide; [by intros [= <-]|apply Ev]. }
  destruct (ents !! i) as [e0|] eqn:E0; [|by apply Other].
  case_decide as N0; [|apply Other; [|done]; by intros ? [= <-]].
  apply obj_at_none. intros j x. rewrite lookup_store by done.
  case_decide; [by intros [= <-]|]. intros Ej Nx. by destruct (U k j i x e0).
Qed.

Lemma free_no_name k e : free_ent e = true → ¬ has_name k e.
Proof. intros Fr [Fr' _]. congruence. Qed.

(** An entry that is freed. *)
Lemma fits_free i e ents : (i ≤ length ents)%nat → free_ent e = true → fits i e ents.
Proof. intros Hi Fr. split; [done|]. intros. by apply free_no_name. Qed.

Lemma obj_at_remove i e ents k k' :
  unique_names ents → ents !! i = Some e → has_name k e →
  obj_at k' (store i zero_dent ents) = if decide (k' = k) then None else obj_at k' ents.
Proof.
  intros U E N. pose proof (lookup_lt_Some _ _ _ E) as Hi.
  rewrite obj_at_store by (done || (apply fits_free; [lia|done])).
  rewrite decide_False by by apply free_no_name. rewrite E.
  case_decide as N'.
  - by rewrite decide_True by by eapply has_name_inj.
  - rewrite decide_False; [done|]. by intros ->.
Qed.
