(* ===== verification/ReeFsRules.v ===== *)
(** Rules for the operations of core/tee/tee_ree_fs.c: what the handle of the
    directory holds, what code on it changes, and how it is taken and given
    back. *)
From S2P Require Import Prelude State Bytes Bitstring Dirfile DirfileProofs FsRpc.
From S2P Require Import ReeFile ReeFileProofs Htree HtreeRules HtreeBlocks HtreeAuth HtreeCommit.
From S2P Require Import TeePobj ReeFs ReeFsLaws.

Section Rules.
Context `{ReeFsLaws} (fuel : nat).

(** ** The handle of the directory *)

(** The handle at [p] is [d]. *)
Definition handle_at (p : Z) (s : ree_fs) (d : tee_fs_dirfile_dirh) : Prop :=
  ∃ o, dirhs s !! p = Some o ∧ to_dirh o (base s) = d.

(** Two states that differ by the handle at [p], what all files share and the
    open files. *)
Definition same_rest (p : Z) (s s' : ree_fs) : Prop :=
  ree_fs_dirh s' = ree_fs_dirh s ∧ ree_fs_dirh_refcount s' = ree_fs_dirh_refcount s ∧
  dirs s' = dirs s ∧ next_addr s' = next_addr s ∧ delete p (dirhs s') = delete p (dirhs s).

Lemma same_rest_refl p s : same_rest p s s.
Proof. done. Qed.

Lemma same_rest_trans p s1 s2 s3 : same_rest p s1 s2 → same_rest p s2 s3 → same_rest p s1 s3.
Proof. intros (?&?&?&?&?) (?&?&?&?&?). split_and!; congruence. Qed.

(** The directory does not depend on what all files share. *)
Lemma dir_inv_base o b b' ents : dir_inv (to_dirh o b) ents → dir_inv (to_dirh o b') ents.
Proof. by intros [[] [] ?]; split; [split|split|]. Qed.

Lemma wp_with_dirh {A} p (m : St tee_fs_dirfile_dirh A) s d (P : A → tee_fs_dirfile_dirh → Prop)
    (Q : A → ree_fs → Prop) :
  handle_at p s d → wp m d P →
  (∀ a d' s', P a d' → same_rest p s s' → fds s' = fds s → handle_at p s' d' → Q a s') →
  wp (with_dirh p m) s Q.
Proof.
  intros (o & E & <-) W HQ. unfold with_dirh. do 2 st_step. rewrite E. apply wp_zoom.
  eapply wp_mono; [exact W|]. intros a d' HP. apply (HQ a d'); [done| |done|].
  - split_and!; try done. simpl. by rewrite delete_insert_eq.
  - exists (of_dirh d'). simpl. split; [by rewrite lookup_insert_eq|]. by destruct d' as [[] ???].
Qed.

(** The handle at [p] is there, and has the entries [ents]. *)
Definition dir_at (p : Z) (ents : list dirfile_entry) (s : ree_fs) : Prop :=
  ∃ d, handle_at p s d ∧ dir_inv d ents.

Definition present (p : Z) (s : ree_fs) : Prop := is_Some (dirhs s !! p).

Lemma handle_present p s d : handle_at p s d → present p s.
Proof. intros (o & E & _). by exists o. Qed.

(** The handle at [p] is the same, but for its world. *)
Definition same_handle (p : Z) (s s' : ree_fs) : Prop :=
  ∀ d, handle_at p s d → ∃ d', handle_at p s' d' ∧ same_dir d d'.

Lemma same_handle_dir_at p s s' ents : same_handle p s s' → dir_at p ents s → dir_at p ents s'.
Proof.
  intros S (d & Hd & I). destruct (S d Hd) as (d' & Hd' & Sd). exists d'.
  split; [done|by eapply same_dir_inv].
Qed.

Lemma same_handle_present p s s' : same_handle p s s' → present p s → present p s'.
Proof.
  intros S [o E]. destruct (S (to_dirh o (base s))) as (d' & Hd' & _); [by exists o|].
  by eapply handle_present.
Qed.

(** The number [n] was given out for a new file. *)
Definition reserved (p n : Z) (s : ree_fs) : Prop := ∃ d, handle_at p s d ∧ in_use d n.

Lemma same_handle_reserved p n s s' : same_handle p s s' → reserved p n s → reserved p n s'.
Proof.
  intros S (d & Hd & U). destruct (S d Hd) as (d' & Hd' & Sd). exists d'. split; [done|].
  by rewrite (same_dir_in_use _ _ _ Sd).
Qed.

Lemma handle_at_inj p s d d' : handle_at p s d → handle_at p s d' → d' = d.
Proof. intros (o & E & <-) (o' & E' & <-). congruence. Qed.

(** Code that does not use the handle. *)
Lemma wp_base {A} (m : St fs_base A) s (P : A → Prop) (Q : A → ree_fs → Prop) :
  (∀ b, wp m b (λ a _, P a)) → (∀ a b, P a → Q a (with_base b s)) → wp (fs_on_base m) s Q.
Proof. intros W HQ. apply wp_zoom. eapply wp_mono; [apply W|]. intros a b HP. by apply HQ. Qed.

Lemma wp_fs_on_base {A} p (m : St fs_base A) s (P : A → Prop) (Q : A → ree_fs → Prop) :
  (∀ b, wp m b (λ a _, P a)) →
  (∀ a s', P a → same_rest p s s' → fds s' = fds s → same_handle p s s' → Q a s') →
  wp (fs_on_base m) s Q.
Proof.
  intros W HQ. eapply wp_base; [exact W|]. intros a b HP.
  apply HQ; [done|done|done|]. intros d (o & E & <-).
  exists (to_dirh o b). split; [by exists o|]. by eexists.
Qed.

(** ** Requests that end *)

Lemma wp_request {A} (m : St rworld A) b : (∀ w, wp m w (λ _ _, True)) → wp (on_rworld m) b (λ _ _, True).
Proof. intros W. apply wp_rworld. by eapply wp_mono; [apply W|]. Qed.

Lemma rpc_ends id params w : wp (thread_rpc_cmd id params) w (λ _ _, True).
Proof. by eapply wp_mono; [apply fs_rpc_ok|]. Qed.

Lemma name_param_ends dfh w : wp (name_param dfh) w (λ _ _, True).
Proof.
  unfold name_param. st_step. eapply wp_mono; [apply fs_shm_ok|]. intros [] w' _; [|by st_step].
  destruct (create_filename TEE_FS_NAME_MAX dfh). by st_step.
Qed.

Lemma remove_dfh_ends dfh w : wp (tee_fs_rpc_remove_dfh OPTEE_RPC_CMD_FS dfh) w (λ _ _, True).
Proof.
  unfold tee_fs_rpc_remove_dfh. st_step. eapply wp_mono; [apply name_param_ends|].
  intros [res nm] w1 _. cbv beta iota.
  destruct (res =? TEE_SUCCESS); cbn [negb]; [|by st_step]. st_step.
  eapply wp_mono; [apply rpc_ends|]. intros [res2 ps] w2 _. by st_step.
Qed.

Lemma open_dfh_ends cmd dfh w : wp (operation_open_dfh OPTEE_RPC_CMD_FS cmd dfh) w (λ _ _, True).
Proof.
  unfold operation_open_dfh. st_step. eapply wp_mono; [apply name_param_ends|].
  intros [res nm] w1 _. cbv beta iota.
  destruct (res =? TEE_SUCCESS); cbn [negb]; [|by st_step]. st_step.
  eapply wp_mono; [apply rpc_ends|]. intros [res2 ps] w2 _. by st_step.
Qed.

Lemma close_ends fd w : wp (tee_fs_rpc_close OPTEE_RPC_CMD_FS fd) w (λ _ _, True).
Proof.
  unfold tee_fs_rpc_close, operation_commit. st_step. eapply wp_mono; [apply rpc_ends|].
  intros [res ps] w2 _. by st_step.
Qed.

Lemma close_primitive_ends fh b : wp (ree_fs_close_primitive fh) b (λ _ _, True).
Proof.
  destruct fh as [f|]; simpl; [|by st_step]. st_step.
  eapply wp_mono; [apply wp_request, close_ends|]. intros ? ? _. by st_step.
Qed.

Lemma open_failed_ends create dfh fd res b :
  wp (open_failed create dfh fd res) b (λ r _, r = (res, None)).
Proof.
  unfold open_failed. st_step. eapply wp_mono with (P := λ _ _, True).
  { destruct (fd =? -1); [by st_step|apply wp_request, close_ends]. }
  intros ? b1 _. st_step. eapply wp_mono with (P := λ _ _, True).
  { destruct create; [apply wp_request, remove_dfh_ends|by st_step]. }
  intros ? b2 _. by st_step.
Qed.

(** ** Opening files *)

(** A file that is created is empty, and its handle has a hash. *)
Lemma open_create_ok hash min_counter uuid d b :
  length (fh_hash d) = 32%nat →
  wp (ree_fs_open_primitive true hash min_counter uuid (Some d)) b (λ '(res, f) _,
    res = TEE_SUCCESS ∧ (∃ f', f = Some f' ∧ file_holds f' [] ∧
      fh_file_number (fd_dfh f') = fh_file_number d ∧ fh_idx (fd_dfh f') = fh_idx d ∧
      length (fh_hash (fd_dfh f')) = 32%nat) ∨
    res ≠ TEE_SUCCESS ∧ f = None).
Proof.
  intros Hd. unfold ree_fs_open_primitive. st_step. eapply wp_mono; [apply wp_request, fs_calloc_ok|].
  intros ok b1 _. destruct ok; cbn [negb]; [|st_step; by right]. st_step.
  eapply wp_mono; [apply wp_request; intros w; apply open_dfh_ends|].
  intros [res fd] b2 _. destruct (Z.eqb_spec res TEE_SUCCESS) as [->|N]; cbn [negb].
  2: { eapply wp_mono; [apply open_failed_ends|]. intros r b3 ->. by right. }
  st_step. apply wp_rworld.
  eapply wp_mono; [exact (@create_keeps (ree_fs_storage_ops fd) _ fs_sha256_length hash min_counter uuid _)|].
  intros [[res out] t] w [(-> & (ht & -> & So & L) & Lo)|[N ->]].
  - rewrite Z.eqb_refl. cbn [negb]. st_step. left. split; [done|]. eexists. split; [done|]. split.
    + exists ht. split; [done|]. split_and!; [done|done|]. intros i x Hi. by rewrite lookup_nil in Hi.
    + destruct hash as [h0|], out as [h|]; simpl; auto.
  - destruct (Z.eqb_spec res TEE_SUCCESS); [done|]. cbn [negb].
    eapply wp_mono; [apply open_failed_ends|]. intros r b3 ->. by right.
Qed.

(** ** Taking and giving back the handle *)

(** What code on the handle at [p] leaves: the handle is still there. *)
Definition leaves (p : Z) (s s' : ree_fs) : Prop := same_rest p s s' ∧ present p s'.

Lemma leaves_trans p s1 s2 s3 : leaves p s1 s2 → leaves p s2 s3 → leaves p s1 s3.
Proof. intros [? _] [? ?]. split; [by eapply same_rest_trans|done]. Qed.

(** Code on a handle with the entries [ents]. *)
Lemma wp_on_dir {A} p ents (m : St tee_fs_dirfile_dirh A) s
    (P : tee_fs_dirfile_dirh → A → tee_fs_dirfile_dirh → Prop) (Q : A → ree_fs → Prop) :
  dir_at p ents s → (∀ d, dir_inv d ents → handle_at p s d → wp m d (P d)) →
  (∀ a d d' s', dir_inv d ents → handle_at p s d → P d a d' → leaves p s s' → fds s' = fds s →
     handle_at p s' d' → Q a s') →
  wp (with_dirh p m) s Q.
Proof.
  intros (d & Hd & I) W HQ. eapply wp_with_dirh; [done|by apply W|].
  intros a d' s' HP R F H'. apply (HQ a d d'); try done.
  split; [done|by eapply handle_present].
Qed.

(** Committing the directory keeps its entries. *)
Lemma commit_dirh_ok p ents s :
  dir_at p ents s →
  wp (commit_dirh_writes p) s (λ res s',
    leaves p s s' ∧ fds s' = fds s ∧ (res = TEE_SUCCESS → dir_at p ents s')).
Proof.
  intros D. unfold commit_dirh_writes. st_step.
  apply (wp_on_dir p ents _ _ (λ _ '(res, _, _) d', res = TEE_SUCCESS → dir_inv d' ents)); [done| |].
  { intros d I _. pose proof I as [[] [] Hn]. apply wp_call.
    eapply wp_mono; [by apply commit_ok|]. intros [[res h] c] w R E.
    split; [split; try done; by apply R|by split|done]. }
  intros [[res h] c] d d' s1 _ _ R A1 F1 Hh1. cbv beta iota.
  destruct (Z.eqb_spec res 0) as [->|N]; cbn [negb]; [|by st_step].
  assert (D1 : dir_at p ents s1) by (exists d'; split; [done|by apply R]).
  st_step. apply (wp_fs_on_base p _ _ (λ _, True)).
  { intros b. apply wp_request, fs_nv_incr_ok. }
  intros r2 s2 _ R2 F2 Sh. st_step.
  split_and!; [|congruence|intros _; by eapply same_handle_dir_at].
  eapply leaves_trans; [done|]. split; [done|]. eapply same_handle_present; [done|apply A1].
Qed.

(** The shared handle is open at [p], and [n] files use it. *)
Definition shared (p n : Z) (s : ree_fs) : Prop :=
  ree_fs_dirh s = Some p ∧ ree_fs_dirh_refcount s = n ∧ 1 ≤ n < 2 ^ 64 - 1 ∧ present p s.

(** No handle is open. *)
Definition closed (p n : Z) (s : ree_fs) : Prop :=
  ree_fs_dirh s = None ∧ ree_fs_dirh_refcount s = n ∧ dirhs s !! p = None.

Lemma wp_get_dirh p n s (Q : Z * option Z → ree_fs → Prop) :
  shared p n s → Q (TEE_SUCCESS, Some p) (with_ref (Some p) (n + 1) s) → wp (get_dirh fuel) s Q.
Proof.
  intros (E & N & Hn & _) HQ. unfold get_dirh. do 2 st_step. rewrite E. do 2 st_step.
  rewrite Z.eqb_refl. cbn [negb]. do 2 st_step. rewrite N, u64_id by lia.
  st_step. unfold dirh_assert. rewrite bool_decide_eq_true_2 by done.
  eapply wp_run; [done|]. do 3 st_step. cbn [ree_fs_dirh_refcount with_ref].
  destruct (Z.eqb_spec (n + 1) 0); [lia|]. eapply wp_run; [done|]. by st_step.
Qed.

Lemma close_ends_dirf (w : @dworld ree_dirf_ops) : wp dop_close w (λ _ _, True).
Proof. apply close_ok. Qed.

Lemma close_dirh_ok p s (Q : unit → ree_fs → Prop) :
  present p s →
  (∀ b, Q tt (with_ref None (ree_fs_dirh_refcount s) (with_dirhs (delete p (dirhs s)) (with_base b s)))) →
  wp (close_dirh p) s Q.
Proof.
  intros [o E] HQ. unfold close_dirh. do 2 st_step. rewrite E. st_step. apply wp_zoom.
  eapply wp_mono; [exact (close_ends_dirf _)|]. intros [] w _. st_step.
  destruct w as [f b]. apply HQ.
Qed.

Lemma wp_put_dirh p n close s (Q : unit → ree_fs → Prop) :
  ree_fs_dirh s = Some p → ree_fs_dirh_refcount s = n + 1 → 1 ≤ n < 2 ^ 64 - 1 → present p s →
  (close = false → Q tt (with_ref (Some p) n s)) →
  (close = true → ∀ b, Q tt (with_ref None n (with_dirhs (delete p (dirhs s)) (with_base b s)))) →
  wp (put_dirh (Some p) close) s Q.
Proof.
  intros E N Hn Pr HF HT. unfold put_dirh, put_dirh_primitive, dirh_assert. do 3 st_step.
  rewrite E, bool_decide_eq_true_2 by done. eapply wp_run; [done|]. do 3 st_step. rewrite N.
  destruct (Z.eqb_spec (n + 1) 0); [lia|]. eapply wp_run; [done|]. do 4 st_step.
  cbn [ree_fs_dirh with_ref]. rewrite E. replace (n + 1 - 1) with n by lia. rewrite u64_id by lia.
  destruct (Z.eqb_spec n 0); [lia|]. destruct close; simpl.
  - apply close_dirh_ok; [done|]. intros b. by apply HT.
  - st_step. by apply HF.
Qed.

(** The state once the handle is given back. *)
Definition kept (p n : Z) (s : ree_fs) : ree_fs := with_ref (Some p) n s.

Definition dropped (p n : Z) (b : fs_base) (s : ree_fs) : ree_fs :=
  with_ref None n (with_dirhs (delete p (dirhs s)) (with_base b s)).

(** The shape of the operations: the handle is taken, and closed when the body
    fails. *)
Lemma wp_dir_op p n s (body : Z → St ree_fs Z) (P Q : Z → ree_fs → Prop) :
  let s1 := with_ref (Some p) (n + 1) s in
  shared p n s →
  wp (body p) s1 (λ res s', leaves p s1 s' ∧ P res s') →
  (∀ s', leaves p s1 s' → P TEE_SUCCESS s' → Q TEE_SUCCESS (kept p n s')) →
  (∀ res s' b, res ≠ TEE_SUCCESS → leaves p s1 s' → P res s' → Q res (dropped p n b s')) →
  wp ('(res, dirh) ← get_dirh fuel;
      res ← (match dirh with None => mret res | Some p => body p end);
      _ ← put_dirh dirh (negb (res =? 0));
      mret res) s Q.
Proof.
  intros s1 Sh W HS HF. st_step. apply (wp_get_dirh p n); [done|]. cbv beta iota. st_step.
  eapply wp_mono; [exact W|]. intros res s' [A R]. st_step.
  destruct Sh as (E & N & Hn & _). pose proof A as [(E1 & N1 & _) Pr].
  apply (wp_put_dirh p n); [done|done|lia|done| |].
  - intros C. st_step. destruct (Z.eqb_spec res 0) as [->|]; [by apply HS|done].
  - intros C b. st_step. destruct (Z.eqb_spec res 0) as [->|]; [done|by apply HF].
Qed.

(** What the handle holds does not depend on how many use it. *)
Lemma dir_at_kept p n ents s : dir_at p ents s → dir_at p ents (kept p n s).
Proof. done. Qed.

(** The states between two operations: the directory has the entries [ents],
    no two for the same object. *)
Definition fs_open (p n : Z) (ents : list dirfile_entry) (s : ree_fs) : Prop :=
  shared p n s ∧ dir_at p ents s ∧ unique_names ents.

(** Room for one more entry, and fuel for the loops. *)
Definition small (ents : list dirfile_entry) : Prop :=
  Z.of_nat (length ents) < MAX_ENTS ∧ (length ents < fuel)%nat.

(** A name of an object. *)
Definition good_name (po : tee_pobj) : Prop :=
  length (po_uuid po) = 16%nat ∧ Z.of_nat (length (po_id po)) ≤ TEE_OBJECT_ID_MAX_LEN.

Definition obj_name (po : tee_pobj) : name := (po_uuid po, po_id po).

Lemma slice_id (l : list Z) : slice 0 (Z.of_nat (length l)) l = l.
Proof. by apply slice_all. Qed.

(** *** Searching *)

Definition looked_up (p : Z) (ents : list dirfile_entry) (k : name) (s : ree_fs)
    (r : Z * tee_fs_dirfile_fileh) (s' : ree_fs) : Prop :=
  leaves p s s' ∧ fds s' = fds s ∧
  (r.1 = TEE_SUCCESS ∧ dir_at p ents s' ∧
     (∃ i e, first_named k ents i e ∧ r.2 = mk_fileh (file_number e) (hash e) (Z.of_nat i)) ∨
   r.1 = TEE_ERROR_ITEM_NOT_FOUND ∧ dir_at p ents s' ∧ no_name k ents ∧ fh_idx r.2 = -1 ∨
   fails r.1).

Lemma find_obj_ok p ents po s :
  dir_at p ents s → small ents → good_name po →
  wp (find_obj fuel p po) s (looked_up p ents (obj_name po) s).
Proof.
  intros D [Hm Hf] [Hu Hl]. unfold find_obj.
  apply (wp_on_dir p ents _ _ (found (obj_name po) ents)); [done| |].
  { intros d I _. eapply wp_mono; [by apply (find_ok fuel d ents); [..|lia|]|].
    intros r d' F. by rewrite slice_id in F. }
  intros r d d' s' I _ F A Fd Hh. split_and!; [done|done|].
  assert (Dir : same_dir d d' → dir_at p ents s')
    by (intros S; exists d'; split; [done|by eapply same_dir_inv]).
  destruct F as [(E & S & R)|[(E & S & R)|F]]; auto 10.
Qed.

Lemma find_obj_same p ents po s :
  dir_at p ents s → small ents → good_name po →
  wp (find_obj fuel p po) s (λ r s', ¬ fails r.1 → same_handle p s s').
Proof.
  intros D [Hm Hf] [Hu Hl]. unfold find_obj.
  apply (wp_on_dir p ents _ _ (found (obj_name po) ents)); [done| |].
  { intros d I _. eapply wp_mono; [by apply (find_ok fuel d ents); [..|lia|]|].
    intros r d' F. by rewrite slice_id in F. }
  intros r d d' s' I Hd F A Fd Hh N d2 Hd2. rewrite (handle_at_inj p s d d2) by done.
  exists d'. split; [done|]. by destruct F as [(_ & S & _)|[(_ & S & _)|F]].
Qed.

(** The entry of the object [k] is the one the handle of its open file
    remembers. *)
Definition entry_for (k : name) (f : tee_fs_fd) (ents : list dirfile_entry) : Prop :=
  ∃ i e, fh_idx (fd_dfh f) = Z.of_nat i ∧ ents !! i = Some e ∧ has_name k e ∧
    file_number e = fh_file_number (fd_dfh f).

(** A file that is open from now on. *)
Definition with_new_file (f : tee_fs_fd) (s : ree_fs) : ree_fs :=
  mk_fs (base s) (ree_fs_dirh s) (ree_fs_dirh_refcount s) (dirhs s)
    (<[next_addr s := f]> (fds s)) (dirs s) (next_addr s + 1).

Lemma wp_new_file f s (Q : Z → ree_fs → Prop) :
  Q (next_addr s) (with_new_file f s) → wp (new_file f) s Q.
Proof. intros HQ. eexists _, _. split; [reflexivity|exact HQ]. Qed.

(** A file is closed and removed once the handle of the directory is gone. *)
Lemma wp_drop_file f dfh s (Q : unit → ree_fs → Prop) :
  (∀ b, Q tt (with_base b s)) →
  wp (_ ← fs_on_base (ree_fs_close_primitive (Some f)); remove_file dfh) s Q.
Proof.
  intros HQ. st_step. apply (wp_base _ _ (λ _, True)); [intros b'; apply close_primitive_ends|].
  intros [] b1 _. unfold remove_file. st_step. apply (wp_base _ _ (λ _, True)).
  { intros b. apply wp_request, remove_dfh_ends. }
  intros r b2 _. st_step. apply HQ.
Qed.

End Rules.
