(* ===== verification/ReeFsOps.v ===== *)
(** Removing and renaming objects, [ree_fs_remove] and [ree_fs_rename] of
    core/tee/tee_ree_fs.c, against the map from names to files. *)
From S2P Require Import Prelude State Bytes Bitstring Dirfile DirfileProofs FsRpc.
From S2P Require Import TeePobj ReeFs ReeFsLaws ReeFsRules.

Section Ops.
Context `{ReeFsLaws} (fuel : nat).

(** ** Steps on the directory *)

(** The entries after a change of the directory, and the map they stand for. *)
Definition changed (p : Z) (s s' : ree_fs) (ents ents' : list dirfile_entry)
    (new : name → option (Z * list Z)) : Prop :=
  dir_at p ents' s' ∧ unique_names ents' ∧ ∀ k, obj_at k ents' = new k.

Definition without (k : name) (ents : list dirfile_entry) : name → option (Z * list Z) :=
  λ k', if decide (k' = k) then None else obj_at k' ents.

(** Removing an entry. *)
Lemma remove_raw_ok p ents i e s :
  dir_at p ents s → small fuel ents → ents !! i = Some e → free_ent e = false →
  wp (with_dirh p (tee_fs_dirfile_remove (mk_fileh (file_number e) (hash e) (Z.of_nat i)))) s
    (λ res s', leaves p s s' ∧ fds s' = fds s ∧
      (res = TEE_SUCCESS → dir_at p (store i zero_dent ents) s')).
Proof.
  intros D [Hm _] E Fr. eapply (wp_on_dir p ents); [done| |].
  { intros d I _. apply (remove_ok d ents _ e I Hm); simpl; rewrite ?Nat2Z.id; [lia|done..]. }
  intros res d d' s' _ _ R A F Hh. split_and!; [done|done|]. intros ->. cbn in R.
  destruct R as [(_ & I & _)|]; [|done]. rewrite Nat2Z.id in I. by exists d'.
Qed.

(** Removing the entry of an object. *)
Lemma remove_entry_ok p ents k i e s :
  dir_at p ents s → small fuel ents → unique_names ents → ents !! i = Some e → has_name k e →
  wp (with_dirh p (tee_fs_dirfile_remove (mk_fileh (file_number e) (hash e) (Z.of_nat i)))) s
    (λ res s', leaves p s s' ∧ fds s' = fds s ∧
      (res = TEE_SUCCESS → changed p s s' ents (store i zero_dent ents) (without k ents))).
Proof.
  intros D Sm U E N. eapply wp_mono; [apply (remove_raw_ok p ents i e); [done|done|done|apply N]|].
  intros res s' (A & F & R). split_and!; [done|done|]. intros Er. split_and!; [by apply R| |].
  - apply unique_store; [done|]. apply fits_free; [|done]. apply lookup_lt_Some in E. lia.
  - intros k'. by apply (obj_at_remove i e).
Qed.

Lemma small_store i e ents : (i < length ents)%nat → small fuel ents → small fuel (store i e ents).
Proof. intros Hi [? ?]. unfold small. rewrite length_store, decide_True by done. done. Qed.

Lemma remove_file_ok p dfh s :
  wp (remove_file dfh) s (λ _ s', same_rest p s s' ∧ fds s' = fds s ∧ same_handle p s s').
Proof.
  unfold remove_file. st_step. apply (wp_fs_on_base p _ _ (λ _, True)).
  { intros b. apply wp_request, remove_dfh_ends. }
  intros r s' _ R F S. by st_step.
Qed.

(** Committing a change. *)
Lemma commit_changed p s0 s ents ents' new :
  changed p s0 s ents ents' new →
  wp (commit_dirh_writes p) s (λ res s', leaves p s s' ∧ fds s' = fds s ∧
    (res = TEE_SUCCESS → changed p s0 s' ents ents' new)).
Proof.
  intros (D & U & M). eapply wp_mono; [by apply (commit_dirh_ok p ents')|].
  intros res s' (A & F & R). split_and!; [done|done|]. intros E. split_and!; auto.
Qed.

(** ** Removing an object *)

(** What the body of [ree_fs_remove] does: the entry of the object is removed
    and the directory committed; then [assert] searches for the object again in
    the state [s1], and the search answers [r]. *)
Definition removed_body (p : Z) (po : tee_pobj) (ents : list dirfile_entry) (res : Z) (s' : ree_fs)
    : Prop :=
  res = TEE_SUCCESS ∧ obj_at (obj_name po) ents ≠ None ∧
    (∃ ents' s1 r, changed p s1 s1 ents ents' (without (obj_name po) ents) ∧
       find_obj fuel p po s1 = Some (Done (r, s')) ∧
       (r.1 = TEE_ERROR_ITEM_NOT_FOUND ∧ dir_at p ents' s' ∨ fails r.1)) ∨
  res = TEE_ERROR_ITEM_NOT_FOUND ∧ obj_at (obj_name po) ents = None ∨
  res ≠ TEE_SUCCESS ∧ obj_at (obj_name po) ents ≠ None ∨
  fails res.

Lemma remove_body_ok p po ents s :
  dir_at p ents s → small fuel ents → unique_names ents → good_name po →
  wp (remove_body fuel po p) s (λ res s',
    leaves p s s' ∧ fds s' = fds s ∧ removed_body p po ents res s').
Proof.
  intros D Sm U G. unfold remove_body. st_step.
  eapply wp_mono; [by apply (find_obj_ok fuel p ents)|]. intros [res dfh] s1 (A1 & F1 & R).
  cbn [fst snd] in R.
  destruct R as [(-> & D1 & i & e & Fn & ->)|[(-> & D1 & Nn & _)|[N1 N2]]].
  2: { change (TEE_ERROR_ITEM_NOT_FOUND =? 0) with false. cbn [negb]. st_step.
       split_and!; [done|done|]. right; left. split; [done|]. by apply obj_at_none. }
  2: { destruct (Z.eqb_spec res 0); [done|]. cbn [negb]. st_step. split_and!; [done|done|].
       by right; right; right. }
  pose proof (first_named_at _ _ _ _ Fn) as Ob. destruct Fn as (E & N & _).
  assert (Has : obj_at (obj_name po) ents ≠ None) by congruence.
  change (TEE_SUCCESS =? 0) with true. cbn [negb]. st_step.
  eapply wp_mono; [by eapply remove_entry_ok|]. intros res s2 (A2 & F2 & C2).
  pose proof (leaves_trans _ _ _ _ A1 A2) as A12.
  destruct (Z.eqb_spec res 0) as [->|Nr]; cbn [negb].
  2: { st_step. split_and!; [done|congruence|]. right; right; left. done. }
  specialize (C2 eq_refl). st_step. eapply wp_mono; [by eapply commit_changed|].
  intros res s3 (A3 & F3 & C3). pose proof (leaves_trans _ _ _ _ A12 A3) as A13.
  destruct (Z.eqb_spec res 0) as [->|Nr]; cbn [negb].
  2: { st_step. split_and!; [done|congruence|]. right; right; left. done. }
  destruct (C3 eq_refl) as (D3 & U3 & M3). st_step. eapply wp_mono; [by apply (remove_file_ok p)|].
  intros [] s4 (R4 & F4 & Sh). pose proof (same_handle_dir_at _ _ _ _ Sh D3) as D4. st_step.
  assert (Sm4 : small fuel (store i zero_dent ents)) by (apply small_store; [by eapply lookup_lt_Some|done]).
  destruct (find_obj_ok fuel p _ po s4 D4 Sm4 G) as ([r rf] & s5 & Er & A5 & F5 & R5).
  exists (r, rf), s5. split; [done|]. cbv beta iota. cbn [fst snd] in R5.
  assert (Nr : r ≠ TEE_SUCCESS).
  { destruct R5 as [(-> & _ & j & x & (Ex & Nx & _) & _)|[(-> & _)|[? _]]]; [|done|done].
    exfalso. assert (O : obj_at (obj_name po) (store i zero_dent ents) = None)
      by (rewrite M3; unfold without; by rewrite decide_True).
    apply obj_at_none in O. by apply (O j x). }
  st_step. apply wp_assert; [destruct (Z.eqb_spec r 0); done|]. st_step.
  split_and!; [|congruence|].
  - eapply leaves_trans; [exact A13|]. eapply leaves_trans; [|exact A5]. split; [done|].
    eapply same_handle_present; [done|apply A3].
  - left. split_and!; [done|done|]. eexists _, s4, (r, rf). split_and!; [by split_and!|done|].
    destruct R5 as [(-> & _)|[(-> & D5 & _)|F]]; [done|by left|by right].
Qed.

Lemma dropped_closed p n b s : closed p n (dropped p n b s).
Proof. split_and!; [done|done|]. simpl. by rewrite lookup_delete_eq. Qed.

Lemma kept_shared p n s0 s : shared p n s0 → present p s → shared p n (kept p n s).
Proof. by intros (_ & _ & Hn & _) P. Qed.


(** ** Renaming an object *)

(** Storing the entry of an object. *)
Lemma rename_obj_ok p ents po dfh s :
  dir_at p ents s → small fuel ents → good_name po →
  (∀ d, dir_inv d ents → handle_at p s d → fileh_ok d ents dfh) →
  wp (rename_obj fuel p po dfh) s (λ '(res, dfh') s', leaves p s s' ∧ fds s' = fds s ∧
    (res = TEE_SUCCESS → ∃ i e, dfh' = mk_fileh (fh_file_number dfh) (fh_hash dfh) (Z.of_nat i) ∧
       dir_at p (store i e ents) s' ∧ (i ≤ length ents)%nat ∧ has_name (obj_name po) e ∧
       file_number e = fh_file_number dfh ∧ hash e = fh_hash dfh ∧ place (obj_name po) ents dfh i)).
Proof.
  intros D [Hm Hf] [Hu Hl] Ok. eapply (wp_on_dir p ents); [done| |].
  { intros d I Hd. apply (rename_ok fuel d ents (po_uuid po) dfh (po_id po));
      [done|done|done|done|lia|done|by apply Ok]. }
  intros [res dfh'] d d' s' _ _ R A F Hh. split_and!; [done|done|]. intros ->. cbn in R.
  destruct R as [(_ & i & e & -> & I & _ & Hi & Fr & Nm & Nu & Ha & P)|]; [|done].
  rewrite slice_id in Nm, P. exists i, e. split_and!; try done. by exists d'.
Qed.

(** The map once the object [old] has the name [new]. *)
Definition renamed (old new : name) (ents : list dirfile_entry) : name → option (Z * list Z) :=
  λ k, if decide (k = new) then obj_at old ents
       else if decide (k = old) then None else obj_at k ents.

Lemma fits_no_name i e ents k :
  (i ≤ length ents)%nat → has_name k e → no_name k ents → fits i e ents.
Proof.
  intros Hi N No. split; [done|]. intros k' j e' _ Ej N' Ne.
  assert (k' = k) as -> by by eapply has_name_inj. by apply (No j e').
Qed.

(** The entry of [old] is stored again with the name [new], which no other
    entry has. *)
Lemma renamed_map ents i e0 e old new :
  unique_names ents → ents !! i = Some e0 → has_name old e0 → has_name new e → no_name new ents →
  file_number e = file_number e0 → hash e = hash e0 →
  unique_names (store i e ents) ∧ ∀ k, obj_at k (store i e ents) = renamed old new ents k.
Proof.
  intros U E0 N0 N No Nu Ha. pose proof (lookup_lt_Some _ _ _ E0) as Hi.
  assert (F : fits i e ents) by (apply (fits_no_name i e ents new); [lia|done|done]).
  split; [by apply unique_store|]. intros k. rewrite obj_at_store by done. rewrite E0. unfold renamed.
  case_decide as D.
  - assert (k = new) as -> by by eapply has_name_inj. rewrite decide_True by done.
    rewrite (obj_at_some old ents i e0) by done. congruence.
  - rewrite (decide_False (P := k = new)) by congruence. repeat case_decide; try done.
    + by destruct (has_name_inj k old e0).
    + by subst.
Qed.

(** Entries at different places. *)
Lemma store_comm i j e e' ents :
  i ≠ j → (i < length ents)%nat → (j < length ents)%nat →
  store i e (store j e' ents) = store j e' (store i e ents).
Proof.
  intros N Hi Hj. apply list_eq. intros m.
  rewrite !lookup_store; rewrite ?length_store; repeat case_decide; try lia; try done; try congruence.
Qed.

(** The handle that the search for an object found. *)
Lemma found_fileh_ok d ents i e :
  dir_inv d ents → ents !! i = Some e → free_ent e = false →
  fileh_ok d ents (mk_fileh (file_number e) (hash e) (Z.of_nat i)).
Proof.
  intros I E Fr. pose proof (lookup_lt_Some _ _ _ E) as Hi.
  pose proof (ents_ok_lookup _ _ _ (b_ents _ _ (i_base _ _ I)) E) as Ok. split; simpl.
  - apply Ok.
  - by apply (c_used _ _ (i_cover _ _ I) i e).
  - lia.
  - intros j e' Ej Fj En. split; [lia|]. rewrite Nat2Z.id.
    by apply (c_distinct _ _ (i_cover _ _ I) j i e' e).
Qed.

(** What the search for the new name answered. *)
Definition taken (new : name) (ents : list dirfile_entry) (dfh : tee_fs_dirfile_fileh) : Prop :=
  fh_idx dfh = -1 ∧ no_name new ents ∨
  ∃ j en, ents !! j = Some en ∧ has_name new en ∧
    dfh = mk_fileh (file_number en) (hash en) (Z.of_nat j).

(** The entry that had the new name is removed. *)
Lemma replaced_ok p ents i e0 e old new rdfh s :
  old ≠ new → dir_at p (store i e ents) s → small fuel ents → unique_names ents →
  ents !! i = Some e0 → has_name old e0 → has_name new e →
  file_number e = file_number e0 → hash e = hash e0 → taken new ents rdfh →
  wp (if negb (fh_idx rdfh =? -1) then with_dirh p (tee_fs_dirfile_remove rdfh) else mret TEE_SUCCESS) s
    (λ res s', leaves p s s' ∧ fds s' = fds s ∧
      (res = TEE_SUCCESS → ∃ ents', changed p s s' ents ents' (renamed old new ents))).
Proof.
  intros Ne D Sm U E0 N0 N Nu Ha T. pose proof (lookup_lt_Some _ _ _ E0) as Hi.
  assert (Pr : present p s) by (destruct D as (d & Hd & _); by eapply handle_present).
  destruct T as [[-> No]|(j & en & Ej & Nj & ->)].
  { rewrite Z.eqb_refl. cbn [negb]. st_step. split_and!; [by split|done|]. intros _.
    exists (store i e ents). split; [done|]. by apply (renamed_map ents i e0). }
  assert (Nij : j ≠ i) by (intros ->; simplify_eq; by apply Ne; eapply has_name_inj).
  pose proof (lookup_lt_Some _ _ _ Ej) as Hj. simpl.
  destruct (Z.eqb_spec (Z.of_nat j) (-1)); [lia|]. cbn [negb].
  assert (Sm' : small fuel (store i e ents)) by (by apply small_store).
  assert (Ej' : store i e ents !! j = Some en) by (rewrite lookup_store by lia; by rewrite decide_False).
  eapply wp_mono; [apply (remove_raw_ok p (store i e ents) j en); [done|done|done|apply Nj]|].
  intros res s' (A & F & R). split_and!; [done|done|]. intros Er.
  exists (store i e (store j zero_dent ents)). split; [rewrite store_comm by (done || lia); auto|].
  assert (U1 : unique_names (store j zero_dent ents))
    by (apply unique_store; [done|apply fits_free; [lia|done]]).
  assert (M1 : ∀ k, obj_at k (store j zero_dent ents) = without new ents k)
    by (intros k; by apply (obj_at_remove j en)).
  destruct (renamed_map (store j zero_dent ents) i e0 e old new) as [U2 M2]; try done.
  - rewrite lookup_store by lia. by rewrite decide_False.
  - apply obj_at_none. rewrite M1. unfold without. by rewrite decide_True.
  - split; [done|]. intros k. rewrite M2. unfold renamed. rewrite !M1. unfold without.
    rewrite (decide_False (P := old = new)) by done. by repeat case_decide.
Qed.

(** [ree_fs_rename] after the search for the new name. *)
Lemma rename_rest_ok p ents old new rdfh s0 s :
  obj_name old ≠ obj_name new → dir_at p ents s → small fuel ents → unique_names ents →
  good_name old → good_name new → taken (obj_name new) ents rdfh → leaves p s0 s → fds s = fds s0 →
  wp ('(res, dfh) ← find_obj fuel p old;
      if negb (res =? 0) then mret res else
      '(res, _) ← rename_obj fuel p new dfh;
      if negb (res =? 0) then mret res else
      res ← (if negb (fh_idx rdfh =? -1)
             then with_dirh p (tee_fs_dirfile_remove rdfh) else mret TEE_SUCCESS);
      if negb (res =? 0) then mret res else
      res ← commit_dirh_writes p;
      if negb (res =? 0) then mret res else
      _ ← (if negb (fh_idx rdfh =? -1) then remove_file rdfh else mret tt);
      mret res) s (λ res s', leaves p s0 s' ∧ fds s' = fds s0 ∧
    (res = TEE_SUCCESS ∧ obj_at (obj_name old) ents ≠ None ∧
       (∃ ents', changed p s' s' ents ents' (renamed (obj_name old) (obj_name new) ents)) ∨
     res ≠ TEE_SUCCESS ∧
       (obj_at (obj_name old) ents = None → res = TEE_ERROR_ITEM_NOT_FOUND ∨ fails res))).
Proof.
  intros Ne D Sm U Go Gn T A0 F0. st_step.
  eapply wp_mono; [by apply (find_obj_ok fuel p ents)|]. intros [res dfh] s1 (A1 & F1 & R).
  pose proof (leaves_trans _ _ _ _ A0 A1) as B1. cbn [fst snd] in R.
  destruct R as [(-> & D1 & i & e0 & Fn & ->)|[(-> & D1 & Nn & _)|[N1 N2]]].
  2: { change (TEE_ERROR_ITEM_NOT_FOUND =? 0) with false. cbn [negb]. st_step.
       split_and!; [done|congruence|]. right. auto. }
  2: { destruct (Z.eqb_spec res 0); [done|]. cbn [negb]. st_step. split_and!; [done|congruence|].
       right. split; [done|]. intros _. by right. }
  pose proof (first_named_at _ _ _ _ Fn) as Ob. destruct Fn as (E0 & N0 & _).
  assert (Has : obj_at (obj_name old) ents ≠ None) by congruence.
  change (TEE_SUCCESS =? 0) with true. cbn [negb]. st_step.
  eapply wp_mono.
  { apply (rename_obj_ok p ents new); [done|done|done|]. intros d I _.
    apply found_fileh_ok; [done|done|apply N0]. }
  intros [res dfh'] s2 (A2 & F2 & R). pose proof (leaves_trans _ _ _ _ B1 A2) as B2. cbv beta iota.
  destruct (Z.eqb_spec res 0) as [->|Nr]; cbn [negb].
  2: { st_step. split_and!; [done|congruence|]. right. by split. }
  destruct (R eq_refl) as (i' & e & -> & D2 & Hi & N & Nu & Ha & P). simpl in Nu, Ha.
  assert (i' = i) as -> by (destruct P as [[_ P]|[[P _]|[P _]]]; simpl in P; lia).
  st_step. eapply wp_mono; [by eapply (replaced_ok p ents i e0 e)|].
  intros res s3 (A3 & F3 & R3). pose proof (leaves_trans _ _ _ _ B2 A3) as B3.
  destruct (Z.eqb_spec res 0) as [->|Nr]; cbn [negb].
  2: { st_step. split_and!; [done|congruence|]. right. by split. }
  destruct (R3 eq_refl) as (ents' & C3). st_step. eapply wp_mono; [by eapply commit_changed|].
  intros res s4 (A4 & F4 & C4). pose proof (leaves_trans _ _ _ _ B3 A4) as B4.
  destruct (Z.eqb_spec res 0) as [->|Nr]; cbn [negb].
  2: { st_step. split_and!; [done|congruence|]. right. by split. }
  destruct (C4 eq_refl) as (D4 & U4 & M4). st_step.
  eapply wp_mono with (P := λ _ s', same_rest p s4 s' ∧ fds s' = fds s4 ∧ dir_at p ents' s' ∧ present p s').
  { destruct (negb (fh_idx rdfh =? -1)); [|st_step; split_and!; [done|done|done|apply A4]].
    eapply wp_mono; [by apply (remove_file_ok p)|]. intros [] s5 (R5 & F5 & Sh).
    split_and!; [done|done|by eapply same_handle_dir_at|eapply same_handle_present; [done|apply A4]]. }
  intros [] s5 (R5 & F5 & D5 & P5). st_step. split_and!; [|congruence|].
  - eapply leaves_trans; [exact B4|]. by split.
  - left. split_and!; [done|done|]. by exists ents'.
Qed.

(** What [ree_fs_rename] does to the map when the search for the new name does
    not fail. *)
Definition rename_result (old new : name) (overwrite : bool) (ents : list dirfile_entry) (res : Z)
    (p : Z) (s' : ree_fs) : Prop :=
  res = TEE_SUCCESS ∧ obj_at old ents ≠ None ∧ (obj_at new ents ≠ None → overwrite = true) ∧
    (∃ ents', dir_at p ents' s' ∧ unique_names ents' ∧
       ∀ k, obj_at k ents' = renamed old new ents k) ∨
  res ≠ TEE_SUCCESS ∧
    (obj_at new ents ≠ None → overwrite = false → res = TEE_ERROR_ACCESS_CONFLICT) ∧
    (obj_at old ents = None →
       obj_at new ents ≠ None ∧ overwrite = false ∨ res = TEE_ERROR_ITEM_NOT_FOUND ∨ fails res).

Lemma rename_body_ok p ents old new overwrite s :
  obj_name old ≠ obj_name new → dir_at p ents s → small fuel ents → unique_names ents →
  good_name old → good_name new → wp (find_obj fuel p new) s (λ r _, ¬ fails r.1) →
  wp (rename_body fuel old new overwrite p) s (λ res s', leaves p s s' ∧ fds s' = fds s ∧
    rename_result (obj_name old) (obj_name new) overwrite ents res p s').
Proof.
  intros Ne D Sm U Go Gn Nf. unfold rename_body, rename_result. st_step.
  eapply wp_mono; [apply wp_conj; [by apply (find_obj_ok fuel p ents)|exact Nf]|].
  intros [res rdfh] s1 [(A1 & F1 & R) N]. cbn [fst snd] in R, N.
  assert (T : ∃ D1 : dir_at p ents s1, taken (obj_name new) ents rdfh ∧
    (res = TEE_SUCCESS ∧ obj_at (obj_name new) ents ≠ None ∨
     res ≠ TEE_SUCCESS ∧ obj_at (obj_name new) ents = None)).
  { destruct R as [(-> & D1 & j & en & Fn & ->)|[(-> & D1 & Nn & I)|?]]; [| |done].
    - exists D1. pose proof (first_named_at _ _ _ _ Fn) as Ob. destruct Fn as (Ej & Nj & _).
      split; [right; by exists j, en|left]. split; [done|congruence].
    - exists D1. split; [by left|right]. split; [done|by apply obj_at_none]. }
  destruct T as (D1 & T & Tk).
  destruct ((res =? 0) && negb overwrite) eqn:C.
  { apply andb_true_iff in C as [C1 C2]. st_step. split_and!; [done|done|]. right.
    split_and!; [done|done|]. intros _. left. destruct Tk as [[_ ?]|[? _]];
      [by destruct overwrite|by apply Z.eqb_eq in C1]. }
  eapply wp_mono; [by eapply (rename_rest_ok p ents old new rdfh s)|].
  intros res2 s2 (A2 & F2 & [(-> & Ho & ents' & D2 & U2 & M2)|[Nr Ho]]); (split_and!; [done|done|]).
  - left. split_and!; [done|done| |by exists ents']. intros Hn. destruct Tk as [[-> _]|[_ ?]]; [|done].
    by destruct overwrite.
  - right. split_and!; [done| |auto]. intros Hn ->. destruct Tk as [[-> _]|[_ ?]]; [|done]. done.
Qed.


End Ops.
