(* ===== verification/ReeFsCreate.v ===== *)
(** Creating an object, [ree_fs_create] of core/tee/tee_ree_fs.c: a file with a
    number of its own, its contents, and the entry of the directory. *)
From S2P Require Import Prelude State Bytes Bitstring Dirfile DirfileProofs FsRpc.
From S2P Require Import ReeFile ReeFileProofs Htree HtreeBlocks TeePobj.
From S2P Require Import ReeFs ReeFsLaws ReeFsRules ReeFsOps.

Section Create.
Context `{ReeFsLaws} (fuel : nat).

(** ** The contents *)

(** What a part of the contents consists of; nothing is written of no
    buffer. *)
Definition part (src : buffer) (n : Z) (d : list Z) : Prop :=
  match src with NoBuf => d = [] | _ => src_bytes src n d end.

Definition part_size (src : buffer) (n : Z) : Z := match src with NoBuf => 0 | _ => n end.

Lemma part_length src n d : part src n d → Z.of_nat (length d) = part_size src n.
Proof. destruct src; simpl; [by intros []..|by intros ->]. Qed.

(** Only the hash tree of a file has changed. *)
Definition same_file (f f' : tee_fs_fd) : Prop := fd_fd f' = fd_fd f ∧ fd_dfh f' = fd_dfh f.

Lemma create_write_ok f c pos src len b :
  file_holds f c → pos = Z.of_nat (length c) → src_room src len → 0 ≤ len →
  pos + part_size src len ≤ INT_MAX →
  wp (create_write f pos src len) b (λ '(res, f') _, same_file f f' ∧
    (res = TEE_SUCCESS → ∃ d, part src len d ∧ file_holds f' (c ++ d))).
Proof.
  intros Hf -> Room Hl Hm. unfold create_write.
  assert (None : part src len [] → wp (mret (TEE_SUCCESS, f)) b (λ '(res, f') _, same_file f f' ∧
    (res = TEE_SUCCESS → ∃ d, part src len d ∧ file_holds f' (c ++ d)))).
  { intros P. st_step. split; [done|]. intros _. exists []. by rewrite app_nil_r. }
  assert (Write : src ≠ NoBuf → len ≠ 0 →
    wp (on_fd f (ree_fs_write_primitive (Z.of_nat (length c)) src len)) b (λ '(res, f') _, same_file f f' ∧
      (res = TEE_SUCCESS → ∃ d, part src len d ∧ file_holds f' (c ++ d)))).
  { intros Ns Nl. assert (Hp : part_size src len = len) by by destruct src.
    apply wp_on_fd. eapply wp_mono.
    { apply (@write_primitive_ok (fd_htree (fd_fd f)) (fd_laws (fd_fd f)) _ c); [done|lia|lia|done|lia|lia]. }
    intros res e [(-> & _ & d & Sd & t & Ht & F)|[N _]]; (split; [done|]); [|done]. intros _.
    exists d. split; [by destruct src|]. exists t. split; [done|].
    replace (Z.of_nat (length c) <? Z.of_nat (length c)) with false in F by lia.
    unfold splice in F. rewrite Nat2Z.id, take_ge, drop_ge, app_nil_r in F by lia. exact F. }
  destruct src as [s|a|]; [..|by apply None];
    (destruct (Z.eqb_spec len 0) as [->|]; [apply None; by split|by apply Write]).
Qed.

(** The header, the attributes and the data of the object. *)
Definition object_data (head : buffer) (head_size : Z) (attr : buffer) (attr_size : Z) (data : buffer)
    (data_size : Z) (c : list Z) : Prop :=
  ∃ d1 d2 d3, part head head_size d1 ∧ part attr attr_size d2 ∧ part data data_size d3 ∧
    c = d1 ++ d2 ++ d3.

Definition sizes_ok (head : buffer) (head_size : Z) (attr : buffer) (attr_size : Z) (data : buffer)
    (data_size : Z) : Prop :=
  0 ≤ head_size ∧ 0 ≤ attr_size ∧ 0 ≤ data_size ∧ head_size + attr_size + data_size ≤ INT_MAX ∧
  src_room head head_size ∧ src_room attr attr_size ∧ src_room data data_size.

Lemma create_contents_ok f head head_size attr attr_size data data_size b :
  file_holds f [] → sizes_ok head head_size attr attr_size data data_size →
  wp (create_contents f head head_size attr attr_size data data_size) b (λ '(res, f') _,
    same_file f f' ∧
    (res = TEE_SUCCESS → ∃ c, object_data head head_size attr attr_size data data_size c ∧
       Z.of_nat (length c) ≤ INT_MAX ∧ file_holds f' c)).
Proof.
  intros Hf (Z1 & Z2 & Z3 & Hs & R1 & R2 & R3). unfold create_contents.
  assert (P : ∀ src n, 0 ≤ n → 0 ≤ part_size src n ≤ n) by (intros []; simpl; lia).
  pose proof (P head head_size Z1) as P1. pose proof (P attr attr_size Z2) as P2.
  pose proof (P data data_size Z3) as P3.
  st_step. eapply wp_mono; [apply (create_write_ok f []); [done|done|done|done|lia]|].
  intros [res f1] b1 [S1 W1]. cbv beta iota. destruct (Z.eqb_spec res 0) as [->|]; cbn [negb]; [|by st_step].
  destruct (W1 eq_refl) as (d1 & Pd1 & F1). pose proof (part_length _ _ _ Pd1) as L1. simpl in F1.
  assert (E1 : match head with NoBuf => 0 | _ => head_size end = Z.of_nat (length d1))
    by (rewrite L1; by destruct head).
  rewrite E1. st_step. eapply wp_mono; [apply (create_write_ok f1 d1); [done|done|done|done|lia]|].
  intros [res f2] b2 [S2 W2]. cbv beta iota. destruct (Z.eqb_spec res 0) as [->|]; cbn [negb].
  2: { st_step. split; [|done]. destruct S1, S2. split; congruence. }
  destruct (W2 eq_refl) as (d2 & Pd2 & F2). pose proof (part_length _ _ _ Pd2) as L2.
  assert (E2 : match attr with NoBuf => Z.of_nat (length d1) | _ => u64 (Z.of_nat (length d1) + attr_size) end =
    Z.of_nat (length (d1 ++ d2))).
  { rewrite length_app, Nat2Z.inj_add, L2, L1. unfold INT_MAX in *.
    destruct attr; simpl; [apply u64_id; lia|apply u64_id; lia|lia]. }
  rewrite E2. eapply wp_mono.
  { apply (create_write_ok f2 (d1 ++ d2)); [done|done|done|done|]. rewrite length_app. lia. }
  intros [res f3] b3 [S3 W3]. split; [destruct S1, S2, S3; split; congruence|]. intros E.
  destruct (W3 E) as (d3 & Pd3 & F3). pose proof (part_length _ _ _ Pd3) as L3.
  exists ((d1 ++ d2) ++ d3). rewrite <- (assoc_L (++)) at 1. split; [by exists d1, d2, d3|].
  split; [rewrite !length_app; lia|done].
Qed.

(** ** The entry of the directory *)

(** No entry has the number [n]. *)
Definition unused (n : Z) (ents : list dirfile_entry) : Prop :=
  ∀ i e, ents !! i = Some e → free_ent e = false → file_number e ≠ n.

(** The map once [k] stands for another file. *)
Definition bound (k : name) (v : Z * list Z) (ents : list dirfile_entry) : name → option (Z * list Z) :=
  λ k', if decide (k' = k) then Some v else obj_at k' ents.

(** Storing the entry of a new file, in the place of the object's or in a free
    one. *)
Lemma bound_map ents i e k dfh :
  unique_names ents → (i ≤ length ents)%nat → has_name k e → place k ents dfh i →
  (fh_idx dfh = -1 ∧ no_name k ents ∨ ∃ e0, ents !! i = Some e0 ∧ has_name k e0) →
  unique_names (store i e ents) ∧
  ∀ k', obj_at k' (store i e ents) = bound k (file_number e, hash e) ents k'.
Proof.
  intros U Hi N P C.
  assert (F : fits i e ents).
  { destruct C as [[_ No]|(e0 & E0 & N0)]; [by apply (fits_no_name i e ents k)|]. split; [done|].
    intros k' j e' Nj Ej N' Ne. assert (k' = k) as -> by by eapply has_name_inj.
    apply Nj. by apply (U k j i e' e0). }
  split; [by apply unique_store|]. intros k'. rewrite obj_at_store by done. unfold bound.
  case_decide as D; [by rewrite decide_True by by eapply has_name_inj|].
  rewrite decide_False by congruence.
  destruct (ents !! i) as [e1|] eqn:E1; [|done]. case_decide as D1; [|done]. exfalso.
  destruct C as [[I No]|(e0 & [= ->] & N0)].
  - destruct P as [[? _]|[[_ (e2 & F2)]|(_ & _ & Fr)]]; [lia| |].
    + apply (No i e2); apply F2.
    + by destruct (free_no_name k' e1 (Fr _ E1)).
  - apply D. by rewrite (has_name_inj k' k e0).
Qed.

(** What [set_name] does. *)
Definition named (p : Z) (k : name) (overwrite : bool) (ents : list dirfile_entry) (f f' : tee_fs_fd)
    (res : Z) (s' : ree_fs) : Prop :=
  res = TEE_SUCCESS ∧ (obj_at k ents ≠ None → overwrite = true) ∧
    fh_file_number (fd_dfh f') = fh_file_number (fd_dfh f) ∧
    (∃ ents', dir_at p ents' s' ∧ unique_names ents' ∧ entry_for k f' ents' ∧
       ∀ k', obj_at k' ents' = bound k (fh_file_number (fd_dfh f'), fh_hash (fd_dfh f')) ents k') ∨
  res ≠ TEE_SUCCESS ∧ (obj_at k ents ≠ None → overwrite = false → res = TEE_ERROR_ACCESS_CONFLICT).

Lemma new_fileh_ok p ents n h i s d :
  reserved p n s → unused n ents → length h = 32%nat → i ≤ Z.of_nat (length ents) →
  handle_at p s d → fileh_ok d ents (mk_fileh n h i).
Proof.
  intros (d0 & Hd0 & U) Un Lh Hi Hd. rewrite (handle_at_inj p s d d0) in U by done.
  split; simpl; [done|done|done|]. intros j e Ej Fr En. by destruct (Un j e Ej Fr).
Qed.

Lemma set_name_ok p ents po overwrite f s :
  let n := fh_file_number (fd_dfh f) in
  dir_at p ents s → small fuel ents → unique_names ents → good_name po →
  reserved p n s → unused n ents → length (fh_hash (fd_dfh f)) = 32%nat →
  wp (find_obj fuel p po) s (λ r _, ¬ fails r.1) →
  wp (set_name fuel p f po overwrite) s (λ '(res, f') s',
    leaves p s s' ∧ fds s' = fds s ∧ fd_ht f' = fd_ht f ∧ fd_fd f' = fd_fd f ∧
    named p (obj_name po) overwrite ents f f' res s').
Proof.
  intros n D Sm U G Rs Un Lh Nf. unfold set_name, named. st_step.
  eapply wp_mono; [apply wp_conj; [apply wp_conj|exact Nf];
    [by apply (find_obj_ok fuel p ents)|by apply (find_obj_same fuel p ents)]|].
  intros [res odfh] s1 [[(A1 & F1 & R) Sh] N]. cbn [fst snd] in R, Sh, N. specialize (Sh N).
  assert (T : dir_at p ents s1 ∧ -1 ≤ fh_idx odfh ≤ Z.of_nat (length ents) ∧
    (res = TEE_SUCCESS ∧ obj_at (obj_name po) ents ≠ None ∧
       (∃ i e0, fh_idx odfh = Z.of_nat i ∧ ents !! i = Some e0 ∧ has_name (obj_name po) e0) ∨
     res ≠ TEE_SUCCESS ∧ obj_at (obj_name po) ents = None ∧
       fh_idx odfh = -1 ∧ no_name (obj_name po) ents)).
  { destruct R as [(-> & D1 & i & e0 & Fn & ->)|[(-> & D1 & Nn & I)|?]]; [| |done]; (split; [done|]).
    - pose proof (first_named_at _ _ _ _ Fn) as Ob. destruct Fn as (E0 & N0 & _).
      pose proof (lookup_lt_Some _ _ _ E0). simpl. split; [lia|left].
      split_and!; [done|congruence|]. by exists i, e0.
    - split; [lia|right]. split_and!; [done|by apply obj_at_none|done|done]. }
  destruct T as (D1 & Hi & Tk). pose proof (same_handle_reserved _ _ _ _ Sh Rs) as Rs1.
  destruct (negb overwrite && (res =? 0)) eqn:C.
  { apply andb_true_iff in C as [C1 C2]. st_step. split_and!; try done. by right. }
  st_step. eapply wp_mono.
  { apply (rename_obj_ok fuel p ents po); [done|done|done|]. intros d I Hd.
    apply (new_fileh_ok p ents n _ _ s1); [done|done|done|lia|done]. }
  intros [res2 dfh2] s2 (A2 & F2 & R2). pose proof (leaves_trans _ _ _ _ A1 A2) as B2. cbv beta iota zeta.
  assert (Ow : obj_at (obj_name po) ents ≠ None → overwrite = true).
  { intros Hn. destruct Tk as [[-> _]|[_ [? _]]]; [|done]. by destruct overwrite. }
  assert (Conf : ∀ r, obj_at (obj_name po) ents ≠ None → overwrite = false → r = TEE_ERROR_ACCESS_CONFLICT)
    by (intros r Hn Eo; by rewrite Ow in Eo).
  destruct (Z.eqb_spec res2 0) as [->|Nr]; cbn [negb].
  2: { st_step. split_and!; [done|congruence|done|done|by right; auto]. }
  destruct (R2 eq_refl) as (i & e & -> & D2 & Hi2 & Nm & Nu & Ha & P). simpl in Nu, Ha.
  destruct (bound_map ents i e (obj_name po) _ U Hi2 Nm P) as [U2 M2].
  { simpl. destruct Tk as [(_ & _ & j & e0 & Ej & E0 & N0)|(_ & _ & I & No)]; [right|by left].
    simpl in P. assert (j = i) as ->; [|by exists e0].
    destruct P as [[_ P]|[[P _]|[P _]]]; simpl in P; lia. }
  st_step. eapply wp_mono; [by apply (commit_dirh_ok p (store i e ents))|].
  intros res3 s3 (A3 & F3 & C3). pose proof (leaves_trans _ _ _ _ B2 A3) as B3.
  destruct (Z.eqb_spec res3 0) as [->|Nr]; cbn [negb].
  2: { st_step. split_and!; [done|congruence|done..|by right; auto]. }
  st_step. eapply wp_mono with (P := λ _ s', same_rest p s3 s' ∧ fds s' = fds s3 ∧ same_handle p s3 s').
  { destruct (res =? 0); [by apply (remove_file_ok p)|]. st_step. split_and!; [done|done|].
    intros d Hd. exists d. split; [done|apply same_dir_refl]. }
  intros [] s4 (R4 & F4 & S4). st_step. split_and!; [|congruence|done..|].
  { eapply leaves_trans; [exact B3|]. split; [done|]. eapply same_handle_present; [done|apply A3]. }
  left. split_and!; [done|done|done|]. exists (store i e ents). simpl. split_and!.
  - eapply same_handle_dir_at; [done|by apply C3].
  - done.
  - exists i, e. rewrite lookup_store, decide_True by done. done.
  - intros k'. by rewrite M2, Nu, Ha.
Qed.

(** ** The file *)

(** The arguments of [ree_fs_create] that describe the contents. *)
Context (head : buffer) (head_size : Z) (attr : buffer) (attr_size : Z) (data : buffer) (data_size : Z).

Abbreviation contents_of := (object_data head head_size attr attr_size data data_size).

(** A file that is ready to be named: its number is new. *)
Definition new_object (p : Z) (ents : list dirfile_entry) (f : tee_fs_fd) (s' : ree_fs) : Prop :=
  let n := fh_file_number (fd_dfh f) in
  dir_at p ents s' ∧ reserved p n s' ∧ unused n ents ∧ length (fh_hash (fd_dfh f)) = 32%nat ∧
  ∃ c, contents_of c ∧ Z.of_nat (length c) ≤ INT_MAX ∧ file_holds f c.

Lemma leaves_base p s s1 s2 :
  leaves p s s1 → same_rest p s1 s2 → same_handle p s1 s2 → leaves p s s2.
Proof.
  intros A R S. eapply leaves_trans; [done|]. split; [done|]. eapply same_handle_present; [done|apply A].
Qed.

Lemma create_file_ok p ents po s :
  dir_at p ents s → (∀ d, handle_at p s d → nbits d ≤ FILE_NUMBER_MAX) →
  sizes_ok head head_size attr attr_size data data_size →
  wp (create_file po head head_size attr attr_size data data_size p) s (λ '(res, mf, _) s',
    leaves p s s' ∧ fds s' = fds s ∧
    (res = TEE_SUCCESS ∧ (∃ f, mf = Some f ∧ new_object p ents f s') ∨ res ≠ TEE_SUCCESS)).
Proof.
  intros D Nb Sz. unfold create_file. st_step.
  apply (wp_on_dir p ents _ _ (λ d '(res, n) d', dir_inv d' ents ∧
    (res = TEE_SUCCESS → ¬ in_use d n ∧ in_use d' n))); [done| |].
  { intros d I Hd. eapply wp_mono; [by apply (get_tmp_ok d ents); [|by apply Nb]|].
    intros [res n] d' (I' & [(-> & _ & U & U')|(-> & _)]); (split; [done|]); [|done]. intros _.
    split; [done|]. apply U'. by left. }
  intros [res n] d d1 s1 I Hd (I1 & U) A1 F1 Hd1. cbv beta iota.
  destruct (Z.eqb_spec res 0) as [->|Nr]; cbn [negb]; [|st_step; split_and!; [done|done|by right]].
  destruct (U eq_refl) as [U0 U1]. clear U. set (dfh := mk_fileh n (zeros 32) (-1)).
  assert (D1 : dir_at p ents s1) by by exists d1.
  assert (Rs : reserved p n s1) by by exists d1.
  assert (Un : unused n ents).
  { intros i e E Fr <-. apply U0. by apply (c_used _ _ (i_cover _ _ I) i e). }
  st_step. apply (wp_fs_on_base p _ _ (λ '(res, f),
    res = TEE_SUCCESS ∧ (∃ f', f = Some f' ∧ file_holds f' [] ∧ fh_file_number (fd_dfh f') = n ∧
      length (fh_hash (fd_dfh f')) = 32%nat) ∨ res ≠ TEE_SUCCESS ∧ f = None)).
  { intros b. eapply wp_mono; [by apply (open_create_ok _ 0 _ dfh)|].
    intros [r f] b' [(-> & f' & -> & ? & ? & ? & ?)|?]; [left|by right]. split; [done|]. by exists f'. }
  intros [res f] s2 Of R2 F2 S2. pose proof (leaves_base _ _ _ _ A1 R2 S2) as A2. cbv beta iota.
  destruct Of as [(-> & f0 & -> & Hf & Nf & Lf)|[Nr ->]].
  2: { st_step. split_and!; [done|congruence|by right]. }
  st_step. apply (wp_fs_on_base p _ _ (λ '(res, f'), same_file f0 f' ∧
    (res = TEE_SUCCESS → ∃ c, contents_of c ∧ Z.of_nat (length c) ≤ INT_MAX ∧ file_holds f' c))).
  { intros b. eapply wp_mono; [by apply create_contents_ok|]. by intros [r f'] b' W. }
  intros [res f1] s3 [[E1 E2] W] R3 F3 S3. pose proof (leaves_base _ _ _ _ A2 R3 S3) as A3. cbv beta iota.
  destruct (Z.eqb_spec res 0) as [->|Nr]; cbn [negb].
  2: { st_step. split_and!; [done|congruence|by right]. }
  destruct (W eq_refl) as (c & Oc & Lc & Hc). st_step.
  apply (wp_fs_on_base p _ _ (λ '(res, _, f'), same_entry f1 f' ∧
    (res = TEE_SUCCESS → file_holds f' c ∧
      (length (fh_hash (fd_dfh f1)) = 32%nat → length (fh_hash (fd_dfh f')) = 32%nat)))).
  { intros b. eapply wp_mono; [by apply wp_sync_fd|]. by intros [[r k] f'] b' V. }
  intros [[res k] f2] s4 [(E3 & E4 & E5) V] R4 F4 S4.
  pose proof (leaves_base _ _ _ _ A3 R4 S4) as A4. st_step. split_and!; [done|congruence|].
  destruct (decide (res = TEE_SUCCESS)) as [->|]; [left|by right]. split; [done|].
  destruct (V eq_refl) as [Hc2 Lh]. exists f2. split; [done|]. unfold new_object.
  rewrite E4, E2, Nf. split_and!.
  - do 3 (eapply same_handle_dir_at; [done|]). done.
  - do 3 (eapply same_handle_reserved; [done|]). done.
  - done.
  - apply Lh. by rewrite E2.
  - by exists c.
Qed.

Lemma create_body_ok p ents po overwrite s :
  dir_at p ents s → small fuel ents → unique_names ents → good_name po →
  (∀ d, handle_at p s d → nbits d ≤ FILE_NUMBER_MAX) →
  sizes_ok head head_size attr attr_size data data_size →
  wp (create_file po head head_size attr attr_size data data_size p) s (λ '(res, _, _) s',
    res = TEE_SUCCESS → wp (find_obj fuel p po) s' (λ r _, ¬ fails r.1)) →
  wp (create_body fuel po overwrite head head_size attr attr_size data data_size p) s
    (λ '(res, mf, _) s', leaves p s s' ∧ fds s' = fds s ∧
      (res = TEE_SUCCESS ∧ (obj_at (obj_name po) ents ≠ None → overwrite = true) ∧
         (∃ f c ents', mf = Some f ∧ contents_of c ∧ file_holds f c ∧
            unused (fh_file_number (fd_dfh f)) ents ∧
            dir_at p ents' s' ∧ unique_names ents' ∧ entry_for (obj_name po) f ents' ∧
            ∀ k', obj_at k' ents' =
              bound (obj_name po) (fh_file_number (fd_dfh f), fh_hash (fd_dfh f)) ents k') ∨
       res ≠ TEE_SUCCESS)).
Proof.
  intros D Sm U G Nb Sz Nf. unfold create_body. st_step.
  eapply wp_mono; [apply wp_conj; [by apply (create_file_ok p ents po)|exact Nf]|].
  intros [[res mf] dfh] s1 [(A1 & F1 & R) N]. cbv beta iota.
  destruct R as [(-> & f & -> & D1 & Rs & Un & Lh & c & Oc & Lc & Hc)|Nr].
  2: { destruct mf as [f|]; [|st_step; auto]. destruct (Z.eqb_spec res 0); [done|]. cbn [negb].
       st_step. auto. }
  change (TEE_SUCCESS =? 0) with true. cbn [negb]. st_step. eapply wp_mono.
  { apply (set_name_ok p ents po overwrite f s1); try done. by apply N. }
  intros [res f'] s2 (A2 & F2 & Eh & Ef & R). st_step. split_and!; [by eapply leaves_trans|congruence|].
  destruct R as [(-> & Ow & En & ents' & D2 & U2 & E2 & M2)|[? _]]; [left|by right].
  split_and!; [done|done|]. exists f', c, ents'. rewrite En. split_and!; try done.
  - destruct Hc as (t & Et & Ht). exists t. rewrite Eh, Ef. by split.
  - by rewrite En in M2.
Qed.


End Create.
