(* ===== verification/ReeFsWrite.v ===== *)
(** Writing and truncating an open object, [ree_fs_write] and
    [ree_fs_truncate] of core/tee/tee_ree_fs.c: the file, its hash tree, and
    the hash in the entry of the directory. *)
From S2P Require Import Prelude State Bytes Bitstring Dirfile DirfileProofs FsRpc.
From S2P Require Import ReeFile ReeFileProofs Htree HtreeBlocks TeePobj.
From S2P Require Import ReeFs ReeFsLaws ReeFsRules ReeFsOps ReeFsCreate.

Section Write.
Context `{ReeFsLaws} (fuel : nat).

(** The two changes of a file, and what they should do to its bytes; those of
    a user buffer are what was copied from it. *)
Inductive file_change :=
| Write (pos : Z) (src : buffer) (len : Z)
| Truncate (len : Z).

Definition change_call (fh : Z) (ch : file_change) : St ree_fs Z :=
  match ch with
  | Write pos src len => ree_fs_write fuel fh pos src len
  | Truncate len => ree_fs_truncate fuel fh len
  end.

Definition change_range (ch : file_change) : Prop :=
  match ch with
  | Write pos src len => 0 ≤ pos ∧ 0 ≤ len ∧ pos + len ≤ INT_MAX ∧ src_room src len
  | Truncate len => 0 ≤ len ≤ INT_MAX
  end.

Definition changes (ch : file_change) (c c' : list Z) : Prop :=
  match ch with
  | Write pos src len =>
      if decide (len = 0) then c' = c
      else ∃ d, src_bytes src len d ∧
        c' = splice pos d (if Z.of_nat (length c) <? pos then resize pos c else c)
  | Truncate len => c' = resize len c
  end.

(** What is done to the file itself. *)
Definition change_step (ch : file_change) (f : tee_fs_fd) : St fs_base (Z * tee_fs_fd) :=
  match ch with
  | Write pos src len => on_fd f (ree_fs_write_primitive pos src len)
  | Truncate len => on_fd f (ree_fs_ftruncate_internal len)
  end.

Lemma change_call_eq fh ch : change_call fh ch = change_file fuel fh (change_step ch).
Proof. by destruct ch. Qed.

Lemma changes_length ch c c' :
  change_range ch → Z.of_nat (length c) ≤ INT_MAX → changes ch c c' → Z.of_nat (length c') ≤ INT_MAX.
Proof.
  destruct ch as [pos src len|len]; simpl.
  - intros (Hp & Hl & Hm & _) Hc. case_decide; [by intros ->|]. intros (d & [Ld _] & ->).
    destruct (Z.ltb_spec (Z.of_nat (length c)) pos); rewrite length_splice;
      rewrite ?length_resize by lia; try lia; pose proof (length_resize pos c ltac:(lia)); lia.
  - intros Hl _ ->. rewrite length_resize; lia.
Qed.

Lemma change_step_ok ch f c b :
  file_holds f c → Z.of_nat (length c) ≤ INT_MAX → change_range ch →
  wp (change_step ch f) b (λ '(res, f') _, same_file f f' ∧
    (res = TEE_SUCCESS → ∃ c', changes ch c c' ∧ file_holds f' c')).
Proof.
  intros Hf Hc Hr. destruct ch as [pos src len|len]; simpl in *.
  - destruct Hr as (Hp & Hl & Hm & Room). apply wp_on_fd. case_decide as D.
    + subst len. eexists _, _. split; [reflexivity|]. split; [done|]. intros _. by exists c.
    + eapply wp_mono.
      { apply (@write_primitive_ok (fd_htree (fd_fd f)) (fd_laws (fd_fd f)) _ c); done || lia. }
      intros res e [(-> & _ & d & Sd & t & Ht & F)|[N _]]; (split; [done|]); [|done]. intros _.
      eexists. split; [by exists d|]. by exists t.
  - apply wp_on_fd. eapply wp_mono.
    { by apply (@ftruncate_ok (fd_htree (fd_fd f)) (fd_laws (fd_fd f)) _ c). }
    intros res e [_ [[-> (t & Ht & F)]|N]]; (split; [done|]); [|done]. intros _.
    eexists. split; [done|]. by exists t.
Qed.

(** Code on an open file. *)
Lemma wp_with_file {A} fh (m : tee_fs_fd → St fs_base (A * tee_fs_fd)) s f (P : A → tee_fs_fd → Prop)
    (Q : A → ree_fs → Prop) :
  fds s !! fh = Some f → (∀ b, wp (m f) b (λ '(a, f') _, P a f')) →
  (∀ a f' b, P a f' → Q a (with_fds (<[fh := f']> (fds s)) (with_base b s))) →
  wp (with_file fh m) s Q.
Proof.
  intros E W HQ. unfold with_file. do 2 st_step. rewrite E. st_step.
  apply (wp_base _ _ (λ '(a, f'), P a f')).
  { intros b. eapply wp_mono; [apply W|]. by intros [a f'] b' HP. }
  intros [a f'] b HP. do 3 st_step. by apply HQ.
Qed.

(** The state after a step on the file [fh]. *)
Definition file_step (p fh : Z) (s : ree_fs) (f' : tee_fs_fd) (s' : ree_fs) : Prop :=
  same_rest p s s' ∧ same_handle p s s' ∧ fds s' = <[fh := f']> (fds s).

Lemma file_step_intro p fh s f' b :
  file_step p fh s f' (with_fds (<[fh := f']> (fds s)) (with_base b s)).
Proof.
  split_and!; [done| |done]. intros d (o & E & <-). exists (to_dirh o b).
  split; [by exists o|by eexists].
Qed.

(** ** The hash of the entry *)

Lemma update_entry_ok p ents k f s :
  dir_at p ents s → small fuel ents → unique_names ents → entry_for k f ents →
  length (fh_hash (fd_dfh f)) = 32%nat →
  wp (with_dirh p (tee_fs_dirfile_update_hash (fd_dfh f))) s (λ res s',
    leaves p s s' ∧ fds s' = fds s ∧
    (res = TEE_SUCCESS → ∃ ents', dir_at p ents' s' ∧ unique_names ents' ∧ entry_for k f ents' ∧
       length ents' = length ents ∧
       ∀ k', obj_at k' ents' = bound k (fh_file_number (fd_dfh f), fh_hash (fd_dfh f)) ents k')).
Proof.
  intros D [Hm _] U (i & e & Ei & E & N & Nu) Lh. eapply (wp_on_dir p ents); [done| |].
  { intros d I _. apply (update_hash_ok d ents (fd_dfh f) e I Hm);
      rewrite ?Ei, ?Nat2Z.id; [lia|done|done|apply N|done]. }
  intros res d d' s' _ _ R A F Hd. split_and!; [done|done|]. intros ->. cbn in R.
  destruct R as [(_ & I & _)|]; [|done]. rewrite Ei, Nat2Z.id in I.
  set (e' := mk_dent (uuid e) (oid e) (oidlen e) (fh_hash (fd_dfh f)) (file_number e)) in *.
  pose proof (lookup_lt_Some _ _ _ E) as Hi.
  destruct (bound_map ents i e' k (fd_dfh f)) as [U' M']; [done|lia|exact N|by left; lia|right; by exists e|].
  exists (store i e' ents). split_and!; [by exists d'|done| |rewrite length_store; by rewrite decide_True|].
  - exists i, e'. rewrite lookup_store, decide_True by lia. done.
  - intros k'. rewrite M'. simpl. by rewrite Nu.
Qed.

(** ** A change and its commit *)

(** What is left of a change that succeeded. *)
Definition committed (p fh : Z) (k : name) (ents : list dirfile_entry) (c : list Z)
    (m : gmap Z tee_fs_fd) (f : tee_fs_fd) (s' : ree_fs) : Prop :=
  ∃ f' ents', fds s' = <[fh := f']> m ∧ file_holds f' c ∧
    fh_file_number (fd_dfh f') = fh_file_number (fd_dfh f) ∧ length (fh_hash (fd_dfh f')) = 32%nat ∧
    dir_at p ents' s' ∧ unique_names ents' ∧ entry_for k f' ents' ∧ length ents' = length ents ∧
    ∀ k', obj_at k' ents' = bound k (fh_file_number (fd_dfh f'), fh_hash (fd_dfh f')) ents k'.

Lemma leaves_step p fh s s1 f' s2 : leaves p s s1 → file_step p fh s1 f' s2 → leaves p s s2.
Proof. intros A (R & S & _). by eapply leaves_base. Qed.

Lemma commit_file_ok p ents k fh f c s :
  dir_at p ents s → small fuel ents → unique_names ents → fds s !! fh = Some f →
  file_holds f c → entry_for k f ents → length (fh_hash (fd_dfh f)) = 32%nat →
  wp (commit_file fh p) s (λ res s', leaves p s s' ∧ (∃ f', fds s' = <[fh := f']> (fds s)) ∧
    (res = TEE_SUCCESS → committed p fh k ents c (fds s) f s')).
Proof.
  intros D Sm U Ef Hc En Lh. unfold commit_file. st_step.
  apply (wp_with_file fh _ s f (λ '(res, dfh) f', dfh = fd_dfh f' ∧ same_entry f f' ∧
    (res = TEE_SUCCESS → file_holds f' c ∧ length (fh_hash (fd_dfh f')) = 32%nat))); [done| |].
  { intros b. st_step. eapply wp_mono; [by apply wp_sync_fd|]. intros [[res n] f'] b' [Se R].
    st_step. split_and!; [done|done|]. intros E. destruct (R E). auto. }
  intros [res dfh] f' b (-> & (E1 & E2 & E3) & R). cbv beta iota.
  set (s1 := with_fds (<[fh := f']> (fds s)) (with_base b s)).
  assert (St : file_step p fh s f' s1) by apply file_step_intro.
  assert (A1 : leaves p s s1).
  { apply (leaves_step p fh s s f'); [|done]. split; [done|].
    destruct D as (d & Hd & _). by eapply handle_present. }
  destruct (Z.eqb_spec res 0) as [->|Nr]; cbn [negb].
  2: { st_step. split_and!; [done|by exists f'|done]. }
  destruct (R eq_refl) as [Hc' Lh'].
  assert (En' : entry_for k f' ents).
  { destruct En as (i & e & Ei & E & N & Nu). exists i, e. rewrite E2, E3. done. }
  assert (D1 : dir_at p ents s1) by (eapply same_handle_dir_at; [apply St|done]).
  st_step. eapply wp_mono; [by apply (update_entry_ok p ents k f')|].
  intros res2 s2 (A2 & F2 & R2). pose proof (leaves_trans _ _ _ _ A1 A2) as A12.
  destruct (Z.eqb_spec res2 0) as [->|Nr]; cbn [negb].
  2: { st_step. split_and!; [done|by exists f'|done]. }
  destruct (R2 eq_refl) as (ents' & D2 & U2 & En2 & L2 & M2).
  eapply wp_mono; [by apply (commit_dirh_ok p ents')|]. intros res3 s3 (A3 & F3 & R3).
  split_and!; [by eapply leaves_trans|exists f'; by rewrite F3, F2|]. intros E.
  exists f', ents'. rewrite F3, F2, E2. split_and!; try done; [by apply R3|].
  intros k'. by rewrite M2, E2.
Qed.


End Write.
