(* ===== verification/ReeFsExample.v ===== *)
(** A concrete normal world for the examples on the REE file system: the files
    are a finite map from positions to what was written there, and one of the
    reads to come may fail. With it objects are created, renamed and removed,
    and what goes wrong when a search fails is run. *)
From S2P Require Import Prelude State Bytes Bitstring Dirfile DirfileProofs FsRpc.
From S2P Require Import DirfileExample ReeFile ReeFileProofs Htree HtreeRules HtreeBlocks HtreeAuth HtreeCommit.
From S2P Require Import HtreeExample TeePobj.
From S2P Require Import ReeFs ReeFsLaws ReeFsRules ReeFsOps ReeFsCreate ReeFsWrite.

(** ** The world

    [w_fail] is the number of the read that fails, counted down; 0 if none
    does. *)
Record world := mk_world { w_cells : gmap (Z * Z) (list Z); w_fail : Z; w_seed : Z }.

(** A name as the number of its file, and whether there is such a file. *)
Definition name_fd (name : list Z) : Z := foldl (λ a c, (a * 131 + c) mod 2 ^ 31) 7 name.

Definition exists_fd (w : world) (fd : Z) : bool :=
  existsb (λ kv, kv.1.1 =? fd) (map_to_list (w_cells w)).

(** [denial] is the answer to the read that fails. *)
Definition toy_rpc (denial : Z) (params : list thread_param) (w : world) : Z * list thread_param * world :=
  match params with
  | [VALUE_IN cmd a b as p; MEMREF_IN name; VALUE_OUT _ _ _] =>
      let fd := name_fd name in
      if (cmd =? OPTEE_RPC_FS_OPEN) && negb (exists_fd w fd)
      then (TEE_ERROR_ITEM_NOT_FOUND, params, w)
      else (TEE_SUCCESS, [p; MEMREF_IN name; VALUE_OUT fd 0 0], w)
  | [VALUE_IN cmd fd offs as p; MEMREF_OUT size _] =>
      let w' := mk_world (w_cells w) (Z.max 0 (w_fail w - 1)) (w_seed w) in
      if w_fail w =? 1 then (denial, params, w') else
      match w_cells w !! (fd, offs) with
      | Some d => (TEE_SUCCESS, [p; MEMREF_OUT size d], w')
      | None => (TEE_ERROR_GENERIC, params, w')
      end
  | [VALUE_IN cmd fd offs; MEMREF_IN data] =>
      if cmd =? OPTEE_RPC_FS_WRITE
      then (TEE_SUCCESS, params, mk_world (<[(fd, offs) := data]> (w_cells w)) (w_fail w) (w_seed w))
      else (TEE_SUCCESS, params, w)
  | _ => (TEE_SUCCESS, params, w)
  end.

Definition denying (denial : Z) : RpcEnv := {|
  rworld := world;
  thread_rpc_cmd := λ _ params w,
    let '(res, ps, w') := toy_rpc denial params w in Some (Done ((res, ps), w'));
  thread_rpc_shm_cache_alloc := λ _, st_ret true;
|}.

Definition fs_denying (denial : Z) : @ReeFsEnv (denying denial) := {|
  fs_status := st_ret TEE_SUCCESS : St (@rworld (denying denial)) Z;
  fs_rng_read := λ n w, Some (Done ((TEE_SUCCESS, replicate (Z.to_nat n) (w_seed w)),
    mk_world (w_cells w) (w_fail w) (w_seed w + 1)));
  fs_sha256 := toy_hash;
  fs_authenc_enc := toy_enc;
  fs_authenc_dec := toy_dec;
  fs_fek_encrypt := λ _ k, k;
  fs_fek_decrypt := λ _ k, k;
  fs_mempool_alloc := st_ret true;
  fs_copy_from_user := λ _ n, st_ret (TEE_SUCCESS, replicate (Z.to_nat n) 7);
  fs_copy_to_user := λ _ _, st_ret TEE_SUCCESS;
  fs_realloc := λ f n, st_ret (if bool_decide (bytes_ok f) && (0 <=? n) then Some (resized f n) else None);
  fs_calloc := st_ret true;
  nv_counter_get_ree_fs := st_ret (TEE_SUCCESS, 0);
  nv_counter_incr_ree_fs_to := λ _, st_ret TEE_SUCCESS;
  CFG_INSECURE := false;
  CFG_REE_FS_ALLOW_RESET := false;
|}.

#[global] Instance toy_normal_world : RpcEnv := denying TEE_ERROR_GENERIC.

#[global] Instance toy_fs : ReeFsEnv := fs_denying TEE_ERROR_GENERIC.

(** A request that reads or writes a file does not say that something is not
    found. *)
Lemma toy_rpc_access params w :
  accesses params = true → (toy_rpc TEE_ERROR_GENERIC params w).1.1 ≠ TEE_ERROR_ITEM_NOT_FOUND.
Proof.
  unfold toy_rpc, accesses. intros Ac.
  destruct (w_fail w =? 1); repeat case_match; simplify_eq/=; try done;
    breflect; subst; done.
Qed.

#[global] Instance toy_fs_laws : ReeFsLaws.
Proof.
  refine {| fs_plain := toy_plain |}; simpl.
  - intros id params w. pose proof (toy_rpc_access params w) as A. unfold wp.
    destruct (toy_rpc TEE_ERROR_GENERIC params w) as [[res ps] w'] eqn:E. eexists _, _. by split.
  - intros. by apply wp_ret.
  - intros. by apply wp_ret.
  - intros n w. eexists _, _. split; [done|]. split; [done|]. intros _ Hn. rewrite length_replicate. lia.
  - intros. by apply wp_ret.
  - intros a n w Hn. apply wp_ret. intros _. rewrite length_replicate. lia.
  - intros. by apply wp_ret.
  - intros f n w. apply wp_ret. case_bool_decide as B; [|done].
    destruct (Z.leb_spec 0 n); [|done]. simpl.
    assert (L : length (resized f n) = Z.to_nat n).
    { unfold resized. rewrite length_take, length_app, length_replicate. lia. }
    split_and!; [lia|by apply bytes_ok_resized|]. intros i Hf Hi. apply lookup_resized; lia.
  - intros. by apply wp_ret.
  - intros. by apply wp_ret.
  - intros. by apply wp_ret.
  - done.
  - intros k iv aad p c t E. unfold toy_plain. by destruct (toy_open_enc _ _ _ _ _ _ E) as [-> _].
  - intros k iv aad c t p. unfold toy_dec, toy_plain. destruct (toy_open t) as [[[[? ?] ?] ?]|]; [|done].
    case_match; [|done]. by intros [= <-].
Defined.

(** ** Runs *)

Definition empty_fs : ree_fs := mk_fs (mk_base (mk_world ∅ 0 1) 0) None 0 ∅ ∅ ∅ 1.

Definition state_of {A} (m : St ree_fs A) (s : ree_fs) : ree_fs :=
  match m s with Some (Done (_, s')) => s' | _ => empty_fs end.

Definition res_of {A} (m : St ree_fs A) (s : ree_fs) : option A :=
  match m s with Some (Done (a, _)) => Some a | _ => None end.

(** An object of one character. *)
Definition pobj (o : Z) : tee_pobj := mk_pobj 1 ta [o] 0 false false 0.

Definition create (o : Z) (overwrite : bool) (data : list Z) : St ree_fs (Z * option Z) :=
  ree_fs_create 10 (pobj o) overwrite (CoreBuf [1; 2]) 2 NoBuf 0 (CoreBuf data) (Z.of_nat (length data)).

(** The directory is open and empty; then there is the object A, open as the
    file 2. *)
Definition start : ree_fs := Eval vm_compute in state_of (get_dirh 10) empty_fs.

Definition with_A : ree_fs := state_of (create 65 false [3; 4; 5]) start.

Definition file_A : tee_fs_fd := default (mk_fd None 0 (mk_fileh 0 [] 0) None) (fds with_A !! 2).

Definition entry_A : dirfile_entry := mk_dent ta (65 :: zeros 63) 1 (fh_hash (fd_dfh file_A)) 0.

(** ** Checking what a file holds *)

Lemma sound_intro `{HtreeEnv} ht :
  formed ht → all_nodes node_ok (root ht) → sound ht.
Proof. intros F A. split; [done|]. intros i n. by apply all_nodes_node_at. Qed.

Definition holds_check (f : tee_fs_fd) (c : list Z) : bool :=
  match fd_ht f with
  | Some t =>
      (m_length (imeta t) =? Z.of_nat (length c)) &&
      forallb (λ i, bool_decide (@byte (fd_htree (fd_fd f)) (fd_laws (fd_fd f)) t (Z.of_nat i) = c !! i))
        (seq 0 (length c))
  | None => false
  end.

Lemma holds_check_ok f t c :
  fd_ht f = Some t → sound t → holds_check f c = true → file_holds f c.
Proof.
  intros E So Ck. unfold holds_check in Ck. rewrite E in Ck. apply andb_true_iff in Ck as [L Ck].
  exists t. split; [done|]. split_and!; [done|by apply Z.eqb_eq|]. intros i x Hx.
  rewrite forallb_forall in Ck. pose proof (lookup_lt_Some _ _ _ Hx).
  specialize (Ck i ltac:(apply in_seq; lia)). apply bool_decide_eq_true in Ck. by rewrite Ck.
Qed.

Lemma start_shared : shared 1 1 start.
Proof. split_and!; [done|done|lia|lia|]. by eexists. Qed.

Lemma start_open : fs_open 1 1 [] start.
Proof.
  split; [apply start_shared|split].
  - eexists. split; [by eexists|]. split; [split|split|]; try done; simpl.
    + eexists. split_and!; [done| |done]. eexists. split; [done|]. split_and!; [|done|].
      * apply sound_intro; vm_compute; by split_and!.
      * intros i x Hi. by destruct i.
    + by apply Forall_nil.
  - intros k i j e e'. by rewrite lookup_nil.
Qed.

Lemma file_A_holds : file_holds file_A [1; 2; 3; 4; 5].
Proof.
  eapply holds_check_ok; [vm_compute; reflexivity| |vm_compute; reflexivity].
  apply sound_intro; vm_compute; by split_and!.
Qed.

Lemma entry_A_ok : ent_ok entry_A.
Proof. split; try (vm_compute; done); vm_compute; split; done. Qed.

Lemma with_A_open : fs_open 1 2 [entry_A] with_A.
Proof.
  assert (Ok : Forall ent_ok [entry_A]) by (apply Forall_singleton, entry_A_ok).
  split; [split_and!; [vm_compute; reflexivity|vm_compute; reflexivity|lia|lia|vm_compute; by eexists]|].
  split; [|intros k [|i] [|j] e e'; done].
  eexists. split; [eexists; split; [vm_compute; reflexivity|reflexivity]|].
  split; [split|split|].
  - eexists. split_and!; [reflexivity| |vm_compute; done].
    eapply holds_check_ok; [reflexivity| |vm_compute; reflexivity].
    apply sound_intro; vm_compute; by split_and!.
  - done.
  - vm_compute; done.
  - vm_compute. by repeat constructor.
  - vm_compute; done.
  - vm_compute; done.
  - intros [|i] e [= <-] _. vm_compute. by split.
  - by intros [|i] [|j] e e' ??.
  - vm_compute; done.
Qed.

(** ** The theorems on the operations, on these states *)

(** A rule checked by running the code. *)
Definition ran {S A} (m : St S A) (s : S) (q : A → S → bool) : bool :=
  match m s with Some (Done (a, s')) => q a s' | _ => false end.

Lemma wp_ran {S A} (m : St S A) (s : S) (q : A → S → bool) (Q : A → S → Prop) :
  ran m s q = true → (∀ a s', q a s' = true → Q a s') → wp m s Q.
Proof.
  unfold ran, wp. intros R I. destruct (m s) as [[[a s']| |]|] eqn:E; [|done..].
  exists a, s'. auto.
Qed.

Lemma found_not_fails (res : Z) : (res =? TEE_SUCCESS) || (res =? TEE_ERROR_ITEM_NOT_FOUND) = true → ¬ fails res.
Proof. unfold fails. lia. Qed.

Lemma small_A : small 10 [entry_A].
Proof. split; [vm_compute; done|simpl; lia]. Qed.

Lemma small_nil : small 10 [].
Proof. split; [done|simpl; lia]. Qed.

Lemma good_pobj o : good_name (pobj o).
Proof. by split. Qed.



Lemma start_bits d : handle_at 1 start d → nbits d ≤ FILE_NUMBER_MAX.
Proof. intros (o & E & <-). injection E as <-. vm_compute. done. Qed.



(** ** What goes wrong *)

(** How a run ends, without the state. *)
Definition outcome_of {A} (m : St ree_fs A) (s : ree_fs) : option (outcome A) :=
  match m s with
  | Some (Done (a, _)) => Some (Done a)
  | Some (Panicked c) => Some (Panicked c)
  | Some Undef => Some Undef
  | None => None
  end.

(** An enumeration of the objects, then [m], then [k] on the enumeration. *)
Definition enumerating {A B} (m : St ree_fs A) (k : option Z → St ree_fs B) : St ree_fs B :=
  '(_, d) ← ree_fs_opendir_rpc 10 ta;
  _ ← m;
  k d.

Definition next_object (d : option Z) : St ree_fs (Z * list Z) := ree_fs_readdir_rpc 10 (default 0 d).

(** What an enumeration finds of an object that is not open. *)
Definition closed_A : ree_fs := state_of (ree_fs_close (Some 2)) with_A.

Example enumeration_finds :
  res_of (enumerating (mret tt) next_object) closed_A = Some (TEE_SUCCESS, [65]).
Proof. vm_compute. reflexivity. Qed.

(** Any operation that fails closes the handle of the directory, which an
    enumeration still points to: after an attempt to remove an object that is
    not there the next step of the enumeration uses a handle that was freed,
    and ending it fails the assertion of [put_dirh]. *)
Theorem enumeration_after_failure :
  res_of (enumerating (mret tt) next_object) closed_A = Some (TEE_SUCCESS, [65]) ∧
  res_of (ree_fs_remove 10 (pobj 99)) closed_A = Some TEE_ERROR_ITEM_NOT_FOUND ∧
  outcome_of (enumerating (ree_fs_remove 10 (pobj 99)) next_object) closed_A = Some Undef ∧
  outcome_of (enumerating (ree_fs_remove 10 (pobj 99)) ree_fs_closedir_rpc) closed_A =
     Some (Panicked DIRH_ASSERT).
Proof. split_and!; vm_compute; reflexivity. Qed.

(** The state in which the [k]-th read from now on fails. *)
Definition failing (k : Z) (s : ree_fs) : ree_fs :=
  let w := bw (base s) in with_base (mk_base (mk_world (w_cells w) k (w_seed w)) (btmp (base s))) s.

(** When the search for the new name fails, renaming and creating an object go
    on with a directory that has lost its hash tree. *)
Theorem failed_search_undefined :
  outcome_of (ree_fs_rename 10 (pobj 65) (Some (pobj 66)) true) (failing 1 with_A) = Some Undef ∧
  outcome_of (create 66 false [7]) (failing 2 with_A) = Some Undef.
Proof. split; vm_compute; reflexivity. Qed.

(** When the search in the assertion of [ree_fs_remove] fails, the object is
    removed and the result is a success, but the next operation on the
    directory uses a hash tree that is not there. *)
Theorem failed_assertion_search :
  res_of (ree_fs_remove 10 (pobj 65)) (failing 4 with_A) = Some TEE_SUCCESS ∧
  outcome_of (_ ← ree_fs_remove 10 (pobj 65); ree_fs_open 10 (pobj 66)) (failing 4 with_A) = Some Undef.
Proof. split; vm_compute; reflexivity. Qed.

(** Renaming an object onto its own name removes it; the callers exclude it. *)
Theorem rename_onto_itself_removes :
  res_of (r ← ree_fs_rename 10 (pobj 65) (Some (pobj 65)) true;
          '(r', _) ← ree_fs_open 10 (pobj 65); mret (r, r')) with_A =
  Some (TEE_SUCCESS, TEE_ERROR_ITEM_NOT_FOUND).
Proof. vm_compute. reflexivity. Qed.

(** ** A normal world that denies a read *)

Section Denied.

#[local] Instance denied_world : RpcEnv := denying TEE_ERROR_ITEM_NOT_FOUND.
#[local] Instance denied_fs : @ReeFsEnv denied_world := fs_denying TEE_ERROR_ITEM_NOT_FOUND.

Definition create_in (o : Z) (data : list Z) : St (@ree_fs denied_world) (Z * option Z) :=
  ree_fs_create 10 (pobj o) false (CoreBuf [1; 2]) 2 NoBuf 0 (CoreBuf data) (Z.of_nat (length data)).

Definition deny (k : Z) : St (@ree_fs denied_world) unit :=
  modify (λ s, with_base (mk_base (mk_world (w_cells (bw (base s))) k (w_seed (bw (base s)))) (btmp (base s))) s).

(** The objects A and B are created and closed; then the directory is open with
    no file, and the [k]-th read from now on is denied. *)
Definition denied_run {A} (k : Z) (m : St (@ree_fs denied_world) A) : option (outcome A) :=
  match (_ ← get_dirh 10; '(_, f) ← create_in 65 [3; 4; 5]; _ ← ree_fs_close f;
         '(_, f) ← create_in 66 [6]; _ ← ree_fs_close f; _ ← deny k; m)
        (mk_fs (mk_base (mk_world ∅ 0 1) 0) None 0 ∅ ∅ ∅ 1) with
  | Some (Done (a, _)) => Some (Done a)
  | Some (Panicked c) => Some (Panicked c)
  | Some Undef => Some Undef
  | None => None
  end.

Definition open_result (o : Z) : St (@ree_fs denied_world) Z :=
  '(res, _) ← ree_fs_open 10 (pobj o); mret res.

(** When the normal world answers the read of a block of the directory with
    [TEE_ERROR_ITEM_NOT_FOUND], the answer is returned as it is by
    [tee_fs_rpc_read_final], the hash tree and [ree_fs_read_primitive], and the
    directory takes it for the end of its entries: opening an object that is
    there says that there is none, as if its absence had been checked, although
    the directory is authenticated; and creating one goes on after the search
    with the hash tree that the failed read has closed. *)
Theorem denied_read_hides_object :
  denied_run 0 (open_result 65) = Some (Done TEE_SUCCESS) ∧
  denied_run 1 (open_result 65) = Some (Done TEE_ERROR_ITEM_NOT_FOUND) ∧
  denied_run 2 ('(res, _) ← create_in 67 [9]; mret res) = Some Undef.
Proof. split_and!; vm_compute; reflexivity. Qed.

End Denied.
