(* ===== verification/UteeDefs.v ===== *)
(** Constants of lib/libutee/include/tee_api_defines.h and
    tee_api_defines_extensions.h, and the functions of utee_defines.h that take
    an algorithm identifier apart. *)
From S2P Require Import Prelude.

Definition TEE_HANDLE_NULL : Z := 0.

Definition TEE_MALLOC_FILL_ZERO : Z := 0x00000000.

Definition TEE_MODE_ENCRYPT : Z := 0x00000000.

Definition TEE_MODE_DECRYPT : Z := 0x00000001.

Definition TEE_MODE_SIGN : Z := 0x00000002.

Definition TEE_MODE_VERIFY : Z := 0x00000003.

Definition TEE_MODE_MAC : Z := 0x00000004.

Definition TEE_MODE_DIGEST : Z := 0x00000005.

Definition TEE_MODE_DERIVE : Z := 0x00000006.

Definition TEE_USAGE_ENCRYPT : Z := 0x00000002.

Definition TEE_USAGE_DECRYPT : Z := 0x00000004.

Definition TEE_USAGE_MAC : Z := 0x00000008.

Definition TEE_USAGE_SIGN : Z := 0x00000010.

Definition TEE_USAGE_VERIFY : Z := 0x00000020.

Definition TEE_USAGE_DERIVE : Z := 0x00000040.

Definition TEE_HANDLE_FLAG_PERSISTENT : Z := 0x00010000.

Definition TEE_HANDLE_FLAG_INITIALIZED : Z := 0x00020000.

Definition TEE_HANDLE_FLAG_KEY_SET : Z := 0x00040000.

Definition TEE_HANDLE_FLAG_EXPECT_TWO_KEYS : Z := 0x00080000.

Definition TEE_HANDLE_FLAG_EXTRACTING : Z := 0x00100000.

Definition TEE_OPERATION_CIPHER : Z := 1.

Definition TEE_OPERATION_MAC : Z := 3.

Definition TEE_OPERATION_AE : Z := 4.

Definition TEE_OPERATION_DIGEST : Z := 5.

Definition TEE_OPERATION_ASYMMETRIC_CIPHER : Z := 6.

Definition TEE_OPERATION_ASYMMETRIC_SIGNATURE : Z := 7.

Definition TEE_OPERATION_KEY_DERIVATION : Z := 8.

Definition TEE_OPERATION_STATE_INITIAL : Z := 0x00000000.

Definition TEE_OPERATION_STATE_ACTIVE : Z := 0x00000001.

Definition TEE_OPERATION_STATE_EXTRACTING : Z := 0x00000002.

Definition TEE_ALG_AES_ECB_NOPAD : Z := 0x10000010.

Definition TEE_ALG_AES_CBC_NOPAD : Z := 0x10000110.

Definition TEE_ALG_AES_CTR : Z := 0x10000210.

Definition TEE_ALG_AES_CTS : Z := 0x10000310.

Definition TEE_ALG_AES_XTS : Z := 0x10000410.

Definition TEE_ALG_AES_CBC_MAC_NOPAD : Z := 0x30000110.

Definition TEE_ALG_AES_CBC_MAC_PKCS5 : Z := 0x30000510.

Definition TEE_ALG_AES_CMAC : Z := 0x30000610.

Definition TEE_ALG_AES_CCM : Z := 0x40000710.

Definition TEE_ALG_AES_GCM : Z := 0x40000810.

Definition TEE_ALG_DES_ECB_NOPAD : Z := 0x10000011.

Definition TEE_ALG_DES_CBC_NOPAD : Z := 0x10000111.

Definition TEE_ALG_DES_CBC_MAC_NOPAD : Z := 0x30000111.

Definition TEE_ALG_DES_CBC_MAC_PKCS5 : Z := 0x30000511.

Definition TEE_ALG_DES3_ECB_NOPAD : Z := 0x10000013.

Definition TEE_ALG_DES3_CBC_NOPAD : Z := 0x10000113.

Definition TEE_ALG_DES3_CBC_MAC_NOPAD : Z := 0x30000113.

Definition TEE_ALG_DES3_CBC_MAC_PKCS5 : Z := 0x30000513.

Definition TEE_ALG_SM4_ECB_NOPAD : Z := 0x10000014.

Definition TEE_ALG_SM4_CBC_NOPAD : Z := 0x10000114.

Definition TEE_ALG_SM4_CTR : Z := 0x10000214.

Definition TEE_ALG_RSASSA_PKCS1_V1_5_MD5 : Z := 0x70001830.

Definition TEE_ALG_RSASSA_PKCS1_V1_5_SHA1 : Z := 0x70002830.

Definition TEE_ALG_RSASSA_PKCS1_V1_5_SHA224 : Z := 0x70003830.

Definition TEE_ALG_RSASSA_PKCS1_V1_5_SHA256 : Z := 0x70004830.

Definition TEE_ALG_RSASSA_PKCS1_V1_5_SHA384 : Z := 0x70005830.

Definition TEE_ALG_RSASSA_PKCS1_V1_5_SHA512 : Z := 0x70006830.

Definition TEE_ALG_RSASSA_PKCS1_V1_5_MD5SHA1 : Z := 0x7000F830.

Definition TEE_ALG_RSASSA_PKCS1_PSS_MGF1_SHA1 : Z := 0x70212930.

Definition TEE_ALG_RSASSA_PKCS1_PSS_MGF1_SHA224 : Z := 0x70313930.

Definition TEE_ALG_RSASSA_PKCS1_PSS_MGF1_SHA256 : Z := 0x70414930.

Definition TEE_ALG_RSASSA_PKCS1_PSS_MGF1_SHA384 : Z := 0x70515930.

Definition TEE_ALG_RSASSA_PKCS1_PSS_MGF1_SHA512 : Z := 0x70616930.

Definition TEE_ALG_RSAES_PKCS1_V1_5 : Z := 0x60000130.

Definition TEE_ALG_RSAES_PKCS1_OAEP_MGF1_SHA1 : Z := 0x60210230.

Definition TEE_ALG_RSAES_PKCS1_OAEP_MGF1_SHA224 : Z := 0x60310230.

Definition TEE_ALG_RSAES_PKCS1_OAEP_MGF1_SHA256 : Z := 0x60410230.

Definition TEE_ALG_RSAES_PKCS1_OAEP_MGF1_SHA384 : Z := 0x60510230.

Definition TEE_ALG_RSAES_PKCS1_OAEP_MGF1_SHA512 : Z := 0x60610230.

Definition TEE_ALG_RSA_NOPAD : Z := 0x60000030.

Definition TEE_ALG_DSA_SHA1 : Z := 0x70002131.

Definition TEE_ALG_DSA_SHA224 : Z := 0x70003131.

Definition TEE_ALG_DSA_SHA256 : Z := 0x70004131.

Definition TEE_ALG_SM2_DSA_SM3 : Z := 0x70006045.

Definition TEE_ALG_DH_DERIVE_SHARED_SECRET : Z := 0x80000032.

Definition TEE_ALG_SM2_KEP : Z := 0x60000045.

Definition TEE_ALG_MD5 : Z := 0x50000001.

Definition TEE_ALG_SHA1 : Z := 0x50000002.

Definition TEE_ALG_SHA224 : Z := 0x50000003.

Definition TEE_ALG_SHA256 : Z := 0x50000004.

Definition TEE_ALG_SHA384 : Z := 0x50000005.

Definition TEE_ALG_SHA512 : Z := 0x50000006.

Definition TEE_ALG_SHA3_224 : Z := 0x50000008.

Definition TEE_ALG_SHA3_256 : Z := 0x50000009.

Definition TEE_ALG_SHA3_384 : Z := 0x5000000A.

Definition TEE_ALG_SHA3_512 : Z := 0x5000000B.

Definition TEE_ALG_MD5SHA1 : Z := 0x5000000F.

Definition TEE_ALG_HMAC_MD5 : Z := 0x30000001.

Definition TEE_ALG_HMAC_SHA1 : Z := 0x30000002.

Definition TEE_ALG_HMAC_SHA224 : Z := 0x30000003.

Definition TEE_ALG_HMAC_SHA256 : Z := 0x30000004.

Definition TEE_ALG_HMAC_SHA384 : Z := 0x30000005.

Definition TEE_ALG_HMAC_SHA512 : Z := 0x30000006.

Definition TEE_ALG_HMAC_SM3 : Z := 0x30000007.

Definition TEE_ALG_HMAC_SHA3_224 : Z := 0x30000008.

Definition TEE_ALG_HMAC_SHA3_256 : Z := 0x30000009.

Definition TEE_ALG_HMAC_SHA3_384 : Z := 0x3000000A.

Definition TEE_ALG_HMAC_SHA3_512 : Z := 0x3000000B.

Definition __OPTEE_ALG_ECDSA_P192 : Z := 0x70001041.

Definition __OPTEE_ALG_ECDSA_P224 : Z := 0x70002041.

Definition __OPTEE_ALG_ECDSA_P256 : Z := 0x70003041.

Definition __OPTEE_ALG_ECDSA_P384 : Z := 0x70004041.

Definition __OPTEE_ALG_ECDSA_P521 : Z := 0x70005041.

Definition __OPTEE_ALG_ECDH_P192 : Z := 0x80001042.

Definition __OPTEE_ALG_ECDH_P224 : Z := 0x80002042.

Definition __OPTEE_ALG_ECDH_P256 : Z := 0x80003042.

Definition __OPTEE_ALG_ECDH_P384 : Z := 0x80004042.

Definition __OPTEE_ALG_ECDH_P521 : Z := 0x80005042.

Definition TEE_ALG_ECDH_DERIVE_SHARED_SECRET : Z := 0x80000042.

Definition TEE_ALG_ECDSA_SHA1 : Z := 0x70001042.

Definition TEE_ALG_ECDSA_SHA224 : Z := 0x70002042.

Definition TEE_ALG_ECDSA_SHA256 : Z := 0x70003042.

Definition TEE_ALG_ECDSA_SHA384 : Z := 0x70004042.

Definition TEE_ALG_ECDSA_SHA512 : Z := 0x70005042.

Definition TEE_ALG_ED25519 : Z := 0x70006043.

Definition TEE_ALG_SM2_PKE : Z := 0x80000046.

Definition TEE_ALG_HKDF : Z := 0x80000047.

Definition TEE_ALG_SM3 : Z := 0x50000007.

Definition TEE_ALG_X25519 : Z := 0x80000044.

Definition TEE_ALG_X448 : Z := 0x80000045.

Definition TEE_ALG_SHAKE128 : Z := 0x50000101.

Definition TEE_ALG_SHAKE256 : Z := 0x50000102.

Definition TEE_TYPE_GENERIC_SECRET : Z := 0xA0000000.

Definition TEE_TYPE_DATA : Z := 0xA00000BF.

Definition TEE_CRYPTO_ELEMENT_NONE : Z := 0x00000000.

Definition TEE_ECC_CURVE_NIST_P192 : Z := 0x00000001.

Definition TEE_ECC_CURVE_NIST_P224 : Z := 0x00000002.

Definition TEE_ECC_CURVE_NIST_P256 : Z := 0x00000003.

Definition TEE_ECC_CURVE_NIST_P384 : Z := 0x00000004.

Definition TEE_ECC_CURVE_NIST_P521 : Z := 0x00000005.

Definition TEE_ECC_CURVE_25519 : Z := 0x00000300.

Definition TEE_ECC_CURVE_SM2 : Z := 0x00000400.

Definition TEE_ALG_RSASSA_PKCS1_PSS_MGF1_MD5 : Z := 0xF0111930.

Definition TEE_ALG_RSAES_PKCS1_OAEP_MGF1_MD5 : Z := 0xF0110230.

Definition TEE_ALG_HKDF_MD5_DERIVE_KEY : Z := 0x800010C0.

Definition TEE_ALG_HKDF_SHA1_DERIVE_KEY : Z := 0x800020C0.

Definition TEE_ALG_HKDF_SHA224_DERIVE_KEY : Z := 0x800030C0.

Definition TEE_ALG_HKDF_SHA256_DERIVE_KEY : Z := 0x800040C0.

Definition TEE_ALG_HKDF_SHA384_DERIVE_KEY : Z := 0x800050C0.

Definition TEE_ALG_HKDF_SHA512_DERIVE_KEY : Z := 0x800060C0.

Definition TEE_ALG_CONCAT_KDF_SHA1_DERIVE_KEY : Z := 0x800020C1.

Definition TEE_ALG_CONCAT_KDF_SHA224_DERIVE_KEY : Z := 0x800030C1.

Definition TEE_ALG_CONCAT_KDF_SHA256_DERIVE_KEY : Z := 0x800040C1.

Definition TEE_ALG_CONCAT_KDF_SHA384_DERIVE_KEY : Z := 0x800050C1.

Definition TEE_ALG_CONCAT_KDF_SHA512_DERIVE_KEY : Z := 0x800060C1.

Definition TEE_ALG_PBKDF2_HMAC_SHA1_DERIVE_KEY : Z := 0x800020C2.

Definition TEE_ALG_RSASSA_PKCS1_V1_5 : Z := 0xF0000830.

Definition TEE_ALG_DES3_CMAC : Z := 0xF0000613.

Definition TEE_ALG_SM4_XTS : Z := 0xF0000414.

Definition TEE_MAIN_ALGO_MD5 : Z := 0x01.

Definition TEE_MAIN_ALGO_SHA1 : Z := 0x02.

Definition TEE_MAIN_ALGO_SHA224 : Z := 0x03.

Definition TEE_MAIN_ALGO_SHA256 : Z := 0x04.

Definition TEE_MAIN_ALGO_SHA384 : Z := 0x05.

Definition TEE_MAIN_ALGO_SHA512 : Z := 0x06.

Definition TEE_MAIN_ALGO_SM3 : Z := 0x07.

Definition TEE_MAIN_ALGO_SHA3_224 : Z := 0x08.

Definition TEE_MAIN_ALGO_SHA3_256 : Z := 0x09.

Definition TEE_MAIN_ALGO_SHA3_384 : Z := 0x0A.

Definition TEE_MAIN_ALGO_SHA3_512 : Z := 0x0B.

Definition TEE_MAIN_ALGO_AES : Z := 0x10.

Definition TEE_MAIN_ALGO_DES : Z := 0x11.

Definition TEE_MAIN_ALGO_DES2 : Z := 0x12.

Definition TEE_MAIN_ALGO_DES3 : Z := 0x13.

Definition TEE_MAIN_ALGO_SM4 : Z := 0x14.

Definition TEE_MAIN_ALGO_RSA : Z := 0x30.

Definition TEE_MAIN_ALGO_DSA : Z := 0x31.

Definition TEE_MAIN_ALGO_DH : Z := 0x32.

Definition TEE_MAIN_ALGO_ECDSA : Z := 0x41.

Definition TEE_MAIN_ALGO_ECDH : Z := 0x42.

Definition TEE_MAIN_ALGO_ED25519 : Z := 0x43.

Definition TEE_MAIN_ALGO_SM2_DSA_SM3 : Z := 0x45.

Definition TEE_MAIN_ALGO_SM2_KEP : Z := 0x46.

Definition TEE_MAIN_ALGO_SM2_PKE : Z := 0x47.

Definition TEE_MAIN_ALGO_HKDF : Z := 0xC0.

Definition TEE_MAIN_ALGO_CONCAT_KDF : Z := 0xC1.

Definition TEE_MAIN_ALGO_PBKDF2 : Z := 0xC2.

Definition TEE_MAIN_ALGO_X25519 : Z := 0x44.

Definition TEE_MAIN_ALGO_SHAKE128 : Z := 0xC3.

Definition TEE_MAIN_ALGO_SHAKE256 : Z := 0xC4.

Definition TEE_MAIN_ALGO_X448 : Z := 0x49.

Definition TEE_AES_BLOCK_SIZE : Z := 16.

Definition TEE_DES_BLOCK_SIZE : Z := 8.

Definition TEE_SM4_BLOCK_SIZE : Z := 16.

Definition TEE_AES_MAX_KEY_SIZE : Z := 32.

Definition TEE_MD5_HASH_SIZE : Z := 16.

Definition TEE_SHA1_HASH_SIZE : Z := 20.

Definition TEE_SHA224_HASH_SIZE : Z := 28.

Definition TEE_SHA256_HASH_SIZE : Z := 32.

Definition TEE_SM3_HASH_SIZE : Z := 32.

Definition TEE_SHA384_HASH_SIZE : Z := 48.

Definition TEE_SHA512_HASH_SIZE : Z := 64.

Definition TEE_MAX_HASH_SIZE : Z := 64.

Definition TEE_TIME_MILLIS_BASE : Z := 1000.

(** [alg] is one of the labels of a group of [case]s. *)
Definition is_one_of (alg : Z) (l : list Z) : bool := existsb (Z.eqb alg) l.

(** Bits 31 to 28, but for the identifiers that were chosen outside the
    scheme. *)
Definition TEE_ALG_GET_CLASS (algo : Z) : Z :=
  if algo =? TEE_ALG_SM2_PKE then TEE_OPERATION_ASYMMETRIC_CIPHER
  else if algo =? TEE_ALG_SM2_KEP then TEE_OPERATION_KEY_DERIVATION
  else if algo =? TEE_ALG_RSASSA_PKCS1_V1_5 then TEE_OPERATION_ASYMMETRIC_SIGNATURE
  else if algo =? TEE_ALG_DES3_CMAC then TEE_OPERATION_MAC
  else if algo =? TEE_ALG_SM4_XTS then TEE_OPERATION_CIPHER
  else if algo =? TEE_ALG_RSASSA_PKCS1_PSS_MGF1_MD5
  then TEE_OPERATION_ASYMMETRIC_SIGNATURE
  else if algo =? TEE_ALG_RSAES_PKCS1_OAEP_MGF1_MD5
  then TEE_OPERATION_ASYMMETRIC_CIPHER
  else Z.land (Z.shiftr algo 28) 0xF.

Definition TEE_ALG_GET_MAIN_ALG (algo : Z) : Z :=
  if algo =? TEE_ALG_SM2_PKE then TEE_MAIN_ALGO_SM2_PKE
  else if algo =? TEE_ALG_SM2_KEP then TEE_MAIN_ALGO_SM2_KEP
  else if algo =? TEE_ALG_X25519 then TEE_MAIN_ALGO_X25519
  else if algo =? TEE_ALG_ED25519 then TEE_MAIN_ALGO_ED25519
  else if is_one_of algo [TEE_ALG_ECDSA_SHA1; TEE_ALG_ECDSA_SHA224;
    TEE_ALG_ECDSA_SHA256; TEE_ALG_ECDSA_SHA384; TEE_ALG_ECDSA_SHA512]
  then TEE_MAIN_ALGO_ECDSA
  else if algo =? TEE_ALG_HKDF then TEE_MAIN_ALGO_HKDF
  else if algo =? TEE_ALG_SHAKE128 then TEE_MAIN_ALGO_SHAKE128
  else if algo =? TEE_ALG_SHAKE256 then TEE_MAIN_ALGO_SHAKE256
  else if algo =? TEE_ALG_X448 then TEE_MAIN_ALGO_X448
  else Z.land algo 0xff.

Definition TEE_ALG_GET_KEY_TYPE (algo : Z) (with_priv : bool) : Z :=
  let key_type := Z.lor 0xA0000000 (TEE_ALG_GET_MAIN_ALG algo) in
  if with_priv then Z.lor key_type 0x01000000 else key_type.

Definition TEE_ALG_GET_DIGEST_SIZE (algo : Z) : Z :=
  if is_one_of algo [TEE_ALG_MD5; TEE_ALG_HMAC_MD5] then TEE_MD5_HASH_SIZE
  else if is_one_of algo [TEE_ALG_SHA1; TEE_ALG_HMAC_SHA1; TEE_ALG_DSA_SHA1;
    TEE_ALG_ECDSA_SHA1] then TEE_SHA1_HASH_SIZE
  else if is_one_of algo [TEE_ALG_SHA224; TEE_ALG_SHA3_224; TEE_ALG_HMAC_SHA224;
    TEE_ALG_HMAC_SHA3_224; TEE_ALG_DSA_SHA224; TEE_ALG_ECDSA_SHA224]
  then TEE_SHA224_HASH_SIZE
  else if is_one_of algo [TEE_ALG_SHA256; TEE_ALG_SHA3_256; TEE_ALG_HMAC_SHA256;
    TEE_ALG_HMAC_SHA3_256; TEE_ALG_DSA_SHA256; TEE_ALG_ECDSA_SHA256]
  then TEE_SHA256_HASH_SIZE
  else if is_one_of algo [TEE_ALG_SHA384; TEE_ALG_SHA3_384; TEE_ALG_HMAC_SHA384;
    TEE_ALG_HMAC_SHA3_384; TEE_ALG_ECDSA_SHA384] then TEE_SHA384_HASH_SIZE
  else if is_one_of algo [TEE_ALG_SHA512; TEE_ALG_SHA3_512; TEE_ALG_HMAC_SHA512;
    TEE_ALG_HMAC_SHA3_512; TEE_ALG_ECDSA_SHA512] then TEE_SHA512_HASH_SIZE
  else if is_one_of algo [TEE_ALG_SM3; TEE_ALG_HMAC_SM3] then TEE_SM3_HASH_SIZE
  else if is_one_of algo [TEE_ALG_AES_CBC_MAC_NOPAD; TEE_ALG_AES_CBC_MAC_PKCS5;
    TEE_ALG_AES_CMAC] then TEE_AES_BLOCK_SIZE
  else if is_one_of algo [TEE_ALG_DES_CBC_MAC_NOPAD; TEE_ALG_DES_CBC_MAC_PKCS5;
    TEE_ALG_DES3_CBC_MAC_NOPAD; TEE_ALG_DES3_CBC_MAC_PKCS5; TEE_ALG_DES3_CMAC]
  then TEE_DES_BLOCK_SIZE
  else 0.
