(* ===== verification/UteeOps.v ===== *)
(** lib/libutee/tee_api_operations.c: operation handles, their allocation, keys,
    copy and information, and the transient objects of tee_api_objects.c they
    use.

    The heap of the TA maps a handle to its operation; a handle that is NULL
    or not in the heap is an access to memory that is not an operation
    ([Undef]). The system calls [_utee_*] and the allocator are the interface
    [Utee]: they take and return the state of the core. Byte buffers are lists
    of bytes, [None] is a NULL pointer. Pointers to lengths and the other
    output pointers are valid, as the annotation checks make sure;
    [size_t] is 64 bits wide. *)
From S2P Require Import Prelude Bytes UteeDefs.

Abbreviation bytes := (list Z).

Definition blen (b : bytes) : Z := Z.of_nat (length b).

Record operation_info := mk_info {
  algorithm : Z;
  operationClass : Z;
  mode : Z;
  digestLength : Z;
  maxKeySize : Z;
  keySize : Z;
  requiredKeyUsage : Z;
  handleState : Z;
}.

Record operation := mk_op {
  info : operation_info;
  key1 : Z;
  key2 : Z;
  operationState : Z;
  buffer : option bytes;
  buffer_two_blocks : bool;
  block_size : Z;
  buffer_offs : Z;
  state : Z;
}.

(** Attributes are passed through to the core. *)
Definition attributes := list (Z * bytes).

Record object_info := mk_oinfo {
  obj_type : Z;
  obj_size : Z;
  obj_usage : Z;
  handle_flags : Z;
}.

(** The core and the allocator, as the TA sees them. Every call returns its
    [TEE_Result] first; a call that fills a buffer of a given capacity returns
    the bytes written and the length it reports. *)
Class Utee := {
  kst : Type;
  CFG_CRYPTO_RSASSA_NA1 : bool;
  malloc_op : kst → option Z * kst;
  malloc_buf : Z → kst → option bytes * kst;
  cryp_obj_alloc : Z → Z → kst → Z * Z * kst;
  cryp_obj_get_info : Z → kst → Z * object_info * kst;
  cryp_obj_reset : Z → kst → Z * kst;
  cryp_obj_close : Z → kst → Z * kst;
  cryp_obj_copy : Z → Z → kst → Z * kst;
  cryp_state_alloc : Z → Z → Z → Z → kst → Z * Z * kst;
  cryp_state_copy : Z → Z → kst → Z * kst;
  cryp_state_free : Z → kst → Z * kst;
  hash_init : Z → option bytes → Z → kst → Z * kst;
  hash_update : Z → option bytes → Z → kst → Z * kst;
  hash_final : Z → option bytes → Z → Z → kst → Z * bytes * Z * kst;
  cipher_init : Z → option bytes → Z → kst → Z * kst;
  cipher_update : Z → bytes → Z → kst → Z * bytes * Z * kst;
  cipher_final : Z → bytes → Z → kst → Z * bytes * Z * kst;
  authenc_init : Z → option bytes → Z → Z → Z → Z → kst → Z * kst;
  authenc_update_aad : Z → option bytes → Z → kst → Z * kst;
  authenc_update_payload : Z → bytes → Z → kst → Z * bytes * Z * kst;
  authenc_enc_final : Z → bytes → Z → Z → kst → Z * (bytes * Z) * (bytes * Z) * kst;
  authenc_dec_final : Z → bytes → Z → bytes → Z → kst → Z * bytes * Z * kst;
  asymm_operate : Z → attributes → option bytes → Z → Z → kst → Z * bytes * Z * kst;
  asymm_verify : Z → attributes → option bytes → Z → option bytes → Z → kst → Z * kst;
  cryp_derive_key : Z → attributes → Z → kst → Z * kst;
  random_number_generate : Z → kst → Z * bytes * kst;
}.

Record ta `{Utee} := mk_ta {
  ops : gmap Z operation;
  kern : kst;
}.
Arguments mk_ta {_} ops kern.
Arguments ops {_} t.
Arguments kern {_} t.

(** Code that works on the heap and the core, and may panic. *)
Definition M `{Utee} (A : Type) : Type := ta → outcome (A * ta).

#[global] Instance M_ret `{Utee} : MRet M := λ A a s, Done (a, s).

#[global] Instance M_bind `{Utee} : MBind M :=
  λ A B f m s,
    match m s with
    | Done (a, s') => f a s'
    | Panicked c => Panicked c
    | Undef => Undef
    end.

(** Fields that the functions assign. *)
Definition handleState_of (i : operation_info) (v : Z) : operation_info :=
  mk_info (algorithm i) (operationClass i) (mode i) (digestLength i) (maxKeySize i)
    (keySize i) (requiredKeyUsage i) v.

Definition set_handleState (o : operation) (v : Z) : operation :=
  mk_op (handleState_of (info o) v)
    (key1 o) (key2 o) (operationState o) (buffer o) (buffer_two_blocks o)
    (block_size o) (buffer_offs o) (state o).

Definition set_keySize (o : operation) (v : Z) : operation :=
  mk_op (mk_info (algorithm (info o)) (operationClass (info o)) (mode (info o))
    (digestLength (info o)) (maxKeySize (info o)) v
    (requiredKeyUsage (info o)) (handleState (info o)))
    (key1 o) (key2 o) (operationState o) (buffer o) (buffer_two_blocks o)
    (block_size o) (buffer_offs o) (state o).

Definition set_digestLength (o : operation) (v : Z) : operation :=
  mk_op (mk_info (algorithm (info o)) (operationClass (info o)) (mode (info o))
    v (maxKeySize (info o)) (keySize (info o))
    (requiredKeyUsage (info o)) (handleState (info o)))
    (key1 o) (key2 o) (operationState o) (buffer o) (buffer_two_blocks o)
    (block_size o) (buffer_offs o) (state o).

Definition set_operationState (o : operation) (v : Z) : operation :=
  mk_op (info o) (key1 o) (key2 o) v (buffer o) (buffer_two_blocks o)
    (block_size o) (buffer_offs o) (state o).

Definition set_buffer (o : operation) (b : option bytes) (offs : Z) : operation :=
  mk_op (info o) (key1 o) (key2 o) (operationState o) b (buffer_two_blocks o)
    (block_size o) offs (state o).

Definition set_flag (o : operation) (f : Z) : operation :=
  set_handleState o (Z.lor (handleState (info o)) f).

Definition clear_flag (o : operation) (f : Z) : operation :=
  set_handleState o (Z.land (handleState (info o)) (Z.lnot f)).

Definition op_flag (o : operation) (f : Z) : bool := has_flag (handleState (info o)) f.

(** ** Tables of [TEE_AllocateOperation] *)

(** The first [switch]: the key sizes of an algorithm. *)
Definition check_max_key_size (alg maxKeySize : Z) : bool :=
  if alg =? TEE_ALG_DSA_SHA1 then
    (512 <=? maxKeySize) && (maxKeySize <=? 1024) && (maxKeySize mod 64 =? 0)
  else if alg =? TEE_ALG_DSA_SHA224 then maxKeySize =? 2048
  else if alg =? TEE_ALG_DSA_SHA256 then (maxKeySize =? 2048) || (maxKeySize =? 3072)
  else if is_one_of alg [TEE_ALG_ECDSA_SHA1; __OPTEE_ALG_ECDSA_P192; __OPTEE_ALG_ECDH_P192]
  then maxKeySize =? 192
  else if is_one_of alg [TEE_ALG_ECDSA_SHA224; __OPTEE_ALG_ECDSA_P224; __OPTEE_ALG_ECDH_P224]
  then maxKeySize =? 224
  else if is_one_of alg [TEE_ALG_ECDSA_SHA256; __OPTEE_ALG_ECDSA_P256; __OPTEE_ALG_ECDH_P256;
    TEE_ALG_SM2_PKE; TEE_ALG_SM2_DSA_SM3]
  then maxKeySize =? 256
  else if alg =? TEE_ALG_SM2_KEP then maxKeySize =? 512
  else if is_one_of alg [TEE_ALG_ECDSA_SHA384; __OPTEE_ALG_ECDSA_P384; __OPTEE_ALG_ECDH_P384]
  then maxKeySize =? 384
  else if is_one_of alg [TEE_ALG_ECDSA_SHA512; __OPTEE_ALG_ECDSA_P521; __OPTEE_ALG_ECDH_P521]
  then maxKeySize =? 521
  else if alg =? TEE_ALG_ECDH_DERIVE_SHARED_SECRET then maxKeySize <=? 521
  else if is_one_of alg [TEE_ALG_ED25519; TEE_ALG_X25519] then maxKeySize =? 256
  else true.

(** What the second [switch] sets. *)
Record alg_setup := mk_setup {
  su_block_size : Z;
  su_req_key_usage : Z;
  su_with_private_key : bool;
  su_two_blocks : bool;
  su_key_set : bool;
}.

Definition two_block_algs : list Z := [TEE_ALG_AES_CTS; TEE_ALG_AES_XTS; TEE_ALG_SM4_XTS].

Definition block_algs : list Z :=
  [TEE_ALG_AES_ECB_NOPAD; TEE_ALG_AES_CBC_NOPAD; TEE_ALG_AES_CCM; TEE_ALG_DES_ECB_NOPAD;
   TEE_ALG_DES_CBC_NOPAD; TEE_ALG_DES3_ECB_NOPAD; TEE_ALG_DES3_CBC_NOPAD;
   TEE_ALG_SM4_ECB_NOPAD; TEE_ALG_SM4_CBC_NOPAD; TEE_ALG_SM4_CTR].

Definition stream_algs : list Z := [TEE_ALG_AES_CTR; TEE_ALG_AES_GCM].

Definition sign_algs : list Z :=
  [TEE_ALG_RSASSA_PKCS1_V1_5_MD5; TEE_ALG_RSASSA_PKCS1_V1_5_SHA1;
   TEE_ALG_RSASSA_PKCS1_V1_5_SHA224; TEE_ALG_RSASSA_PKCS1_V1_5_SHA256;
   TEE_ALG_RSASSA_PKCS1_V1_5_SHA384; TEE_ALG_RSASSA_PKCS1_V1_5_SHA512;
   TEE_ALG_RSASSA_PKCS1_PSS_MGF1_MD5; TEE_ALG_RSASSA_PKCS1_PSS_MGF1_SHA1;
   TEE_ALG_RSASSA_PKCS1_PSS_MGF1_SHA224; TEE_ALG_RSASSA_PKCS1_PSS_MGF1_SHA256;
   TEE_ALG_RSASSA_PKCS1_PSS_MGF1_SHA384; TEE_ALG_RSASSA_PKCS1_PSS_MGF1_SHA512;
   TEE_ALG_DSA_SHA1; TEE_ALG_DSA_SHA224; TEE_ALG_DSA_SHA256; TEE_ALG_ECDSA_SHA1;
   TEE_ALG_ECDSA_SHA224; TEE_ALG_ECDSA_SHA256; TEE_ALG_ECDSA_SHA384;
   TEE_ALG_ECDSA_SHA512; __OPTEE_ALG_ECDSA_P192; __OPTEE_ALG_ECDSA_P224;
   __OPTEE_ALG_ECDSA_P256; __OPTEE_ALG_ECDSA_P384; __OPTEE_ALG_ECDSA_P521;
   TEE_ALG_SM2_DSA_SM3; TEE_ALG_ED25519].

Definition asymm_cipher_algs : list Z :=
  [TEE_ALG_RSAES_PKCS1_V1_5; TEE_ALG_RSAES_PKCS1_OAEP_MGF1_MD5;
   TEE_ALG_RSAES_PKCS1_OAEP_MGF1_SHA1; TEE_ALG_RSAES_PKCS1_OAEP_MGF1_SHA224;
   TEE_ALG_RSAES_PKCS1_OAEP_MGF1_SHA256; TEE_ALG_RSAES_PKCS1_OAEP_MGF1_SHA384;
   TEE_ALG_RSAES_PKCS1_OAEP_MGF1_SHA512; TEE_ALG_SM2_PKE].

Definition derive_algs : list Z :=
  [TEE_ALG_DH_DERIVE_SHARED_SECRET; TEE_ALG_ECDH_DERIVE_SHARED_SECRET;
   __OPTEE_ALG_ECDH_P192; __OPTEE_ALG_ECDH_P224; __OPTEE_ALG_ECDH_P256;
   __OPTEE_ALG_ECDH_P384; __OPTEE_ALG_ECDH_P521; TEE_ALG_HKDF_MD5_DERIVE_KEY;
   TEE_ALG_HKDF_SHA1_DERIVE_KEY; TEE_ALG_HKDF_SHA224_DERIVE_KEY;
   TEE_ALG_HKDF_SHA256_DERIVE_KEY; TEE_ALG_HKDF_SHA384_DERIVE_KEY;
   TEE_ALG_HKDF_SHA512_DERIVE_KEY; TEE_ALG_CONCAT_KDF_SHA1_DERIVE_KEY;
   TEE_ALG_CONCAT_KDF_SHA224_DERIVE_KEY; TEE_ALG_CONCAT_KDF_SHA256_DERIVE_KEY;
   TEE_ALG_CONCAT_KDF_SHA384_DERIVE_KEY; TEE_ALG_CONCAT_KDF_SHA512_DERIVE_KEY;
   TEE_ALG_PBKDF2_HMAC_SHA1_DERIVE_KEY; TEE_ALG_SM2_KEP; TEE_ALG_X25519].

Definition digest_algs : list Z :=
  [TEE_ALG_MD5; TEE_ALG_SHA1; TEE_ALG_SHA224; TEE_ALG_SHA256; TEE_ALG_SHA384;
   TEE_ALG_SHA512; TEE_ALG_SHA3_224; TEE_ALG_SHA3_256; TEE_ALG_SHA3_384;
   TEE_ALG_SHA3_512; TEE_ALG_SHAKE128; TEE_ALG_SHAKE256; TEE_ALG_SM3].

Definition mac_algs : list Z :=
  [TEE_ALG_DES_CBC_MAC_NOPAD; TEE_ALG_AES_CBC_MAC_NOPAD; TEE_ALG_AES_CBC_MAC_PKCS5;
   TEE_ALG_AES_CMAC; TEE_ALG_DES_CBC_MAC_PKCS5; TEE_ALG_DES3_CBC_MAC_NOPAD;
   TEE_ALG_DES3_CBC_MAC_PKCS5; TEE_ALG_DES3_CMAC; TEE_ALG_HMAC_MD5;
   TEE_ALG_HMAC_SHA1; TEE_ALG_HMAC_SHA224; TEE_ALG_HMAC_SHA256;
   TEE_ALG_HMAC_SHA384; TEE_ALG_HMAC_SHA512; TEE_ALG_HMAC_SHA3_224;
   TEE_ALG_HMAC_SHA3_256; TEE_ALG_HMAC_SHA3_384; TEE_ALG_HMAC_SHA3_512;
   TEE_ALG_HMAC_SM3].

Definition cipher_block_size (alg : Z) : Z :=
  if TEE_ALG_GET_MAIN_ALG alg =? TEE_MAIN_ALGO_AES then TEE_AES_BLOCK_SIZE
  else if TEE_ALG_GET_MAIN_ALG alg =? TEE_MAIN_ALGO_SM4 then TEE_SM4_BLOCK_SIZE
  else TEE_DES_BLOCK_SIZE.

(** The second [switch]; [None] is [TEE_ERROR_NOT_SUPPORTED]. *)
Definition check_alg_mode (na1 : bool) (alg m : Z) : option alg_setup :=
  if is_one_of alg (two_block_algs ++ block_algs ++ stream_algs) then
    let bs := if is_one_of alg stream_algs then 1 else cipher_block_size alg in
    let two := is_one_of alg two_block_algs in
    if m =? TEE_MODE_ENCRYPT then Some (mk_setup bs TEE_USAGE_ENCRYPT false two false)
    else if m =? TEE_MODE_DECRYPT then Some (mk_setup bs TEE_USAGE_DECRYPT false two false)
    else None
  else if (na1 && (alg =? TEE_ALG_RSASSA_PKCS1_V1_5)) || is_one_of alg sign_algs then
    if m =? TEE_MODE_SIGN then Some (mk_setup 1 TEE_USAGE_SIGN true false false)
    else if m =? TEE_MODE_VERIFY then Some (mk_setup 1 TEE_USAGE_VERIFY false false false)
    else None
  else if is_one_of alg asymm_cipher_algs then
    if m =? TEE_MODE_ENCRYPT then Some (mk_setup 1 TEE_USAGE_ENCRYPT false false false)
    else if m =? TEE_MODE_DECRYPT then Some (mk_setup 1 TEE_USAGE_DECRYPT true false false)
    else None
  else if alg =? TEE_ALG_RSA_NOPAD then
    if m =? TEE_MODE_ENCRYPT
    then Some (mk_setup 1 (Z.lor TEE_USAGE_ENCRYPT TEE_USAGE_VERIFY) false false false)
    else if m =? TEE_MODE_DECRYPT
    then Some (mk_setup 1 (Z.lor TEE_USAGE_DECRYPT TEE_USAGE_SIGN) true false false)
    else None
  else if is_one_of alg derive_algs then
    if m =? TEE_MODE_DERIVE then Some (mk_setup 1 TEE_USAGE_DERIVE true false false) else None
  else if is_one_of alg digest_algs then
    if m =? TEE_MODE_DIGEST then Some (mk_setup 1 0 false false true) else None
  else if is_one_of alg mac_algs then
    if m =? TEE_MODE_MAC then Some (mk_setup 1 TEE_USAGE_MAC false false false) else None
  else None.

Definition expects_two_keys (alg : Z) : bool :=
  is_one_of alg [TEE_ALG_AES_XTS; TEE_ALG_SM2_KEP; TEE_ALG_SM4_XTS].

(** ** Operations on the heap *)

Section Operations.
Context `{U : Utee}.

Definition get_op (op : Z) : M operation :=
  λ s, match ops s !! op with Some o => Done (o, s) | None => Undef end.

Definition set_op (op : Z) (o : operation) : M unit :=
  λ s, Done (tt, mk_ta (<[op:=o]> (ops s)) (kern s)).

Definition TEE_Free_op (op : Z) : M unit :=
  λ s, Done (tt, mk_ta (delete op (ops s)) (kern s)).

Definition TEE_Panic {A} (code : Z) : M A := λ _, Panicked code.

Definition undefined {A} : M A := λ _, Undef.

Definition panic_if (b : bool) (code : Z) : M unit :=
  if b then TEE_Panic code else mret tt.

(** A system call. *)
Definition sys {A} (f : kst → A * kst) : M A :=
  λ s, let '(a, k) := f (kern s) in Done (a, mk_ta (ops s) k).

(** The end of a function that panics on results it does not return. *)
Definition out_res (allowed : list Z) (res : Z) : M Z :=
  if existsb (Z.eqb res) allowed then mret res else TEE_Panic res.

Definition out {A} (allowed : list Z) (r : Z * A) : M (Z * A) :=
  if existsb (Z.eqb r.1) allowed then mret r else TEE_Panic r.1.

(** *** Transient objects (tee_api_objects.c) *)

Definition TEE_AllocateTransientObject (objectType maxObjectSize : Z) : M (Z * Z) :=
  if objectType =? TEE_TYPE_DATA then mret (TEE_ERROR_NOT_SUPPORTED, 0) else
  '(res, obj) ← sys (cryp_obj_alloc objectType maxObjectSize);
  out [TEE_SUCCESS; TEE_ERROR_OUT_OF_MEMORY; TEE_ERROR_NOT_SUPPORTED]
    (res, if res =? TEE_SUCCESS then obj else 0).

Definition TEE_FreeTransientObject (object : Z) : M unit :=
  if object =? 0 then mret tt else
  '(res, oi) ← sys (cryp_obj_get_info object);
  panic_if (negb (res =? TEE_SUCCESS)) res;;
  panic_if (has_flag (handle_flags oi) TEE_HANDLE_FLAG_PERSISTENT) 0;;
  res ← sys (cryp_obj_close object);
  panic_if (negb (res =? TEE_SUCCESS)) res.

Definition TEE_ResetTransientObject (object : Z) : M unit :=
  if object =? 0 then mret tt else
  '(res, oi) ← sys (cryp_obj_get_info object);
  panic_if (negb (res =? TEE_SUCCESS)) res;;
  panic_if (has_flag (handle_flags oi) TEE_HANDLE_FLAG_PERSISTENT) 0;;
  res ← sys (cryp_obj_reset object);
  panic_if (negb (res =? TEE_SUCCESS)) res.

Definition object_results : list Z :=
  [TEE_SUCCESS; TEE_ERROR_CORRUPT_OBJECT; TEE_ERROR_STORAGE_NOT_AVAILABLE].

Definition TEE_GetObjectInfo1 (object : Z) : M (Z * object_info) :=
  '(res, oi) ← sys (cryp_obj_get_info object);
  out object_results (res, oi).

Definition TEE_CopyObjectAttributes1 (destObject srcObject : Z) : M Z :=
  '(res, dst_info) ← sys (cryp_obj_get_info destObject);
  if negb (res =? TEE_SUCCESS) then out_res object_results res else
  '(res, src_info) ← sys (cryp_obj_get_info srcObject);
  if negb (res =? TEE_SUCCESS) then out_res object_results res else
  panic_if (negb (has_flag (handle_flags src_info) TEE_HANDLE_FLAG_INITIALIZED)) 0;;
  panic_if (has_flag (handle_flags dst_info) TEE_HANDLE_FLAG_PERSISTENT) 0;;
  panic_if (has_flag (handle_flags dst_info) TEE_HANDLE_FLAG_INITIALIZED) 0;;
  res ← sys (cryp_obj_copy destObject srcObject);
  out_res object_results res.

(** *** Operation handles *)

Definition TEE_FreeOperation (op : Z) : M unit :=
  if op =? 0 then mret tt else
  o ← get_op op;
  res ← sys (cryp_state_free (state o));
  panic_if (negb (res =? TEE_SUCCESS)) res;;
  TEE_Free_op op.

Definition __GP11_TEE_FreeOperation (op : Z) : M unit :=
  panic_if (op =? 0) 0;; TEE_FreeOperation op.

(** The clean-up at [out:] of [TEE_AllocateOperation]: [op] is the address of
    the handle, which holds [o]. *)
Definition alloc_fail (op : Z) (o : operation) (res : Z) : M (Z * Z) :=
  panic_if (negb (is_one_of res [TEE_ERROR_OUT_OF_MEMORY; TEE_ERROR_NOT_SUPPORTED])) res;;
  set_op op o;;
  (if negb (state o =? 0) then TEE_FreeOperation op
   else
     TEE_FreeTransientObject (key1 o);;
     TEE_FreeTransientObject (key2 o);;
     TEE_Free_op op);;
  mret (res, 0).

(** The part of [TEE_AllocateOperation] after the two [switch]es: the handle
    is allocated and filled in. *)
Definition alloc_operation (alg m max : Z) (su : alg_setup) : M (Z * Z) :=
  addr ← sys malloc_op;
  match addr with
  | None => mret (TEE_ERROR_OUT_OF_MEMORY, 0)
  | Some op =>
    let cls :=
      if CFG_CRYPTO_RSASSA_NA1 && (alg =? TEE_ALG_RSASSA_PKCS1_V1_5)
      then TEE_OPERATION_ASYMMETRIC_SIGNATURE else TEE_ALG_GET_CLASS alg in
    let two_keys := expects_two_keys alg in
    let hs := Z.lor (if two_keys then TEE_HANDLE_FLAG_EXPECT_TWO_KEYS else 0)
                    (if su_key_set su then TEE_HANDLE_FLAG_KEY_SET else 0) in
    let inf := mk_info alg cls m (TEE_ALG_GET_DIGEST_SIZE alg) max 0
                 (su_req_key_usage su) hs in
    let bs := if cls =? TEE_OPERATION_DIGEST then digestLength inf else su_block_size su in
    let mk k1 k2 opst buf two b st h :=
      mk_op (handleState_of inf h) k1 k2 opst buf two b 0 st in
    buf ← (if 1 <? bs
           then sys (malloc_buf (if su_two_blocks su then bs * 2 else bs))
           else mret None);
    if (1 <? bs) && match buf with None => true | Some _ => false end
    then alloc_fail op (mk 0 0 0 None false 0 0 hs) TEE_ERROR_OUT_OF_MEMORY else
    let is_digest := TEE_ALG_GET_CLASS alg =? TEE_OPERATION_DIGEST in
    let key_type := TEE_ALG_GET_KEY_TYPE alg (su_with_private_key su) in
    let mks := if two_keys then max / 2 else max in
    '(res, k1) ← (if is_digest then mret (TEE_SUCCESS, 0)
                  else TEE_AllocateTransientObject key_type mks);
    if negb (res =? TEE_SUCCESS)
    then alloc_fail op (mk 0 0 0 buf (su_two_blocks su) bs 0 hs) res else
    '(res, k2) ← (if is_digest || negb two_keys then mret (TEE_SUCCESS, 0)
                  else TEE_AllocateTransientObject key_type mks);
    if negb (res =? TEE_SUCCESS)
    then alloc_fail op (mk k1 0 0 buf (su_two_blocks su) bs 0 hs) res else
    '(res, st) ← sys (cryp_state_alloc alg m k1 k2);
    let o := mk k1 k2 TEE_OPERATION_STATE_INITIAL buf (su_two_blocks su) bs in
    if negb (res =? TEE_SUCCESS) then alloc_fail op (o st hs) res else
    res ← (if is_digest then sys (hash_init st None 0) else mret TEE_SUCCESS);
    if negb (res =? TEE_SUCCESS) then alloc_fail op (o st hs) res else
    set_op op (o st (if is_digest then Z.lor hs TEE_HANDLE_FLAG_INITIALIZED else hs));;
    mret (TEE_SUCCESS, op)
  end.

(** The result and the handle. The out pointer is not NULL when
    [has_out]. *)
Definition TEE_AllocateOperation (has_out : bool) (alg m max : Z) : M (Z * Z) :=
  panic_if (negb has_out) 0;;
  if negb (check_max_key_size alg max) then mret (TEE_ERROR_NOT_SUPPORTED, 0) else
  match check_alg_mode CFG_CRYPTO_RSASSA_NA1 alg m with
  | None => mret (TEE_ERROR_NOT_SUPPORTED, 0)
  | Some su => alloc_operation alg m max su
  end.

Definition TEE_GetOperationInfo (op : Z) : M operation_info :=
  panic_if (op =? 0) 0;;
  o ← get_op op;
  let i := info o in
  mret (if op_flag o TEE_HANDLE_FLAG_EXPECT_TWO_KEYS
        then mk_info (algorithm i) (operationClass i) (mode i) (digestLength i)
               (maxKeySize i) 0 0 (handleState i)
        else i).

(** [TEE_OperationInfoMultiple]: the information, the state and the keys, each
    with its size and required usage. *)
Definition info_multiple : Type := operation_info * Z * list (Z * Z).

Definition sizeof_info_multiple : Z := 32.

Definition sizeof_info_key : Z := 8.

Definition out_info (r : Z * option info_multiple) : M (Z * option info_multiple) :=
  out [TEE_SUCCESS; TEE_ERROR_SHORT_BUFFER] r.

Definition TEE_GetOperationInfoMultiple (op size : Z) : M (Z * option info_multiple) :=
  if op =? 0 then out_info (TEE_ERROR_BAD_PARAMETERS, None) else
  if size <? sizeof_info_multiple then out_info (TEE_ERROR_BAD_PARAMETERS, None) else
  let max_key_count := (size - sizeof_info_multiple) / sizeof_info_key in
  o ← get_op op;
  let two_keys := op_flag o TEE_HANDLE_FLAG_EXPECT_TWO_KEYS in
  let usage := requiredKeyUsage (info o) in
  let done keys := out_info (TEE_SUCCESS, Some (info o, operationState o, keys)) in
  if mode (info o) =? TEE_MODE_DIGEST then done [] else
  if negb two_keys then
    if max_key_count <? 1 then out_info (TEE_ERROR_SHORT_BUFFER, None) else
    '(res, k) ← TEE_GetObjectInfo1 (key1 o);
    if negb (res =? TEE_SUCCESS) then out_info (res, None)
    else done [(obj_size k, usage)]
  else
    if max_key_count <? 2 then out_info (TEE_ERROR_SHORT_BUFFER, None) else
    '(res, k) ← TEE_GetObjectInfo1 (key1 o);
    if negb (res =? TEE_SUCCESS) then out_info (res, None) else
    '(res, k') ← TEE_GetObjectInfo1 (key2 o);
    if negb (res =? TEE_SUCCESS) then out_info (res, None)
    else done [(obj_size k, usage); (obj_size k', usage)].

Definition __GP11_TEE_GetOperationInfoMultiple (op size : Z)
  : M (Z * option info_multiple) := TEE_GetOperationInfoMultiple op size.

Definition reset_operation_state (op : Z) : M unit :=
  o ← get_op op;
  let o1 := set_operationState o TEE_OPERATION_STATE_INITIAL in
  if operationClass (info o) =? TEE_OPERATION_DIGEST then
    set_op op o1;;
    res ← sys (hash_init (state o) None 0);
    panic_if (negb (res =? TEE_SUCCESS)) res;;
    set_op op (set_flag o1 TEE_HANDLE_FLAG_INITIALIZED)
  else set_op op (clear_flag o1 TEE_HANDLE_FLAG_INITIALIZED).

Definition TEE_ResetOperation (op : Z) : M unit :=
  panic_if (op =? 0) 0;;
  o ← get_op op;
  panic_if (negb (op_flag o TEE_HANDLE_FLAG_KEY_SET)) 0;;
  reset_operation_state op.

(** Reset unless the operation is in its initial state. *)
Definition reset_if_active (op : Z) : M unit :=
  o ← get_op op;
  if negb (operationState o =? TEE_OPERATION_STATE_INITIAL)
  then reset_operation_state op else mret tt.

(** [handleState &= ~flag] and [|= flag] through the handle. *)
Definition op_clear_flag (op f : Z) : M unit :=
  o ← get_op op; set_op op (clear_flag o f).

Definition op_set_flag (op f : Z) : M unit :=
  o ← get_op op; set_op op (set_flag o f).

(** The supplied key does not have the required usage. *)
Definition bad_usage (o : operation) (k : object_info) : bool :=
  negb (Z.land (obj_usage k) (requiredKeyUsage (info o)) =? requiredKeyUsage (info o)).

Definition TEE_SetOperationKey (op key : Z) : M Z :=
  let bad := out_res object_results TEE_ERROR_BAD_PARAMETERS in
  if op =? 0 then bad else
  o ← get_op op;
  if key =? 0 then
    TEE_ResetTransientObject (key1 o);;
    op_clear_flag op TEE_HANDLE_FLAG_KEY_SET;;
    reset_if_active op;;
    mret TEE_SUCCESS
  else if operationClass (info o) =? TEE_OPERATION_DIGEST then bad
  else if op_flag o TEE_HANDLE_FLAG_EXPECT_TWO_KEYS then bad else
  '(res, k) ← TEE_GetObjectInfo1 key;
  if negb (res =? TEE_SUCCESS) then out_res object_results res else
  if bad_usage o k then bad else
  if maxKeySize (info o) <? obj_size k then bad else
  TEE_ResetTransientObject (key1 o);;
  op_clear_flag op TEE_HANDLE_FLAG_KEY_SET;;
  res ← TEE_CopyObjectAttributes1 (key1 o) key;
  if negb (res =? TEE_SUCCESS) then out_res object_results res else
  op_set_flag op TEE_HANDLE_FLAG_KEY_SET;;
  o' ← get_op op;
  set_op op (set_keySize o' (obj_size k));;
  reset_if_active op;;
  out_res object_results TEE_SUCCESS.

Definition __GP11_TEE_SetOperationKey (op key : Z) : M Z :=
  panic_if (op =? 0) 0;;
  o ← get_op op;
  panic_if (negb (operationState o =? TEE_OPERATION_STATE_INITIAL)) 0;;
  TEE_SetOperationKey op key.

Definition two_key_results : list Z :=
  [TEE_SUCCESS; TEE_ERROR_CORRUPT_OBJECT; TEE_ERROR_CORRUPT_OBJECT_2;
   TEE_ERROR_STORAGE_NOT_AVAILABLE; TEE_ERROR_STORAGE_NOT_AVAILABLE_2].

(** A corrupt second key is reported as such. *)
Definition second_key (res : Z) : Z :=
  if res =? TEE_ERROR_CORRUPT_OBJECT then TEE_ERROR_CORRUPT_OBJECT_2 else res.

Definition set_operation_key2 (op k1 k2 : Z) : M Z :=
  let bad := out_res two_key_results TEE_ERROR_BAD_PARAMETERS in
  if op =? 0 then bad else
  o ← get_op op;
  if (k1 =? 0) && (k2 =? 0) then
    TEE_ResetTransientObject (key1 o);;
    TEE_ResetTransientObject (key2 o);;
    op_clear_flag op TEE_HANDLE_FLAG_KEY_SET;;
    reset_if_active op;;
    mret TEE_SUCCESS
  else if (k1 =? 0) || (k2 =? 0) then bad
  else if operationClass (info o) =? TEE_OPERATION_DIGEST then bad
  else if negb (op_flag o TEE_HANDLE_FLAG_EXPECT_TWO_KEYS) then bad else
  '(res, i1) ← TEE_GetObjectInfo1 k1;
  if negb (res =? TEE_SUCCESS) then out_res two_key_results res else
  if bad_usage o i1 then bad else
  '(res, i2) ← TEE_GetObjectInfo1 k2;
  if negb (res =? TEE_SUCCESS) then out_res two_key_results (second_key res) else
  if bad_usage o i2 then bad else
  if negb (obj_size i1 =? obj_size i2) then bad else
  if maxKeySize (info o) <? obj_size i1 then bad else
  TEE_ResetTransientObject (key1 o);;
  TEE_ResetTransientObject (key2 o);;
  op_clear_flag op TEE_HANDLE_FLAG_KEY_SET;;
  res ← TEE_CopyObjectAttributes1 (key1 o) k1;
  if negb (res =? TEE_SUCCESS) then out_res two_key_results res else
  res ← TEE_CopyObjectAttributes1 (key2 o) k2;
  if negb (res =? TEE_SUCCESS) then out_res two_key_results (second_key res) else
  op_set_flag op TEE_HANDLE_FLAG_KEY_SET;;
  o' ← get_op op;
  set_op op (set_keySize o' (obj_size i1));;
  reset_if_active op;;
  out_res two_key_results TEE_SUCCESS.

Definition TEE_SetOperationKey2 (op k1 k2 : Z) : M Z :=
  if negb (op =? 0) && negb (k1 =? 0) && (k1 =? k2) then mret TEE_ERROR_SECURITY
  else set_operation_key2 op k1 k2.

Definition __GP11_TEE_SetOperationKey2 (op k1 k2 : Z) : M Z :=
  panic_if (op =? 0) 0;;
  o ← get_op op;
  panic_if (negb (operationState o =? TEE_OPERATION_STATE_INITIAL)) 0;;
  set_operation_key2 op k1 k2.

(** [memcpy(dst, src, n)] between two buffers: the first [n] bytes of [dst]
    are replaced. *)
Definition copy_buffer (dst src : bytes) (n : Z) : M bytes :=
  if (n <=? blen src) && (n <=? blen dst)
  then mret (take (Z.to_nat n) src ++ drop (Z.to_nat n) dst) else undefined.

(** Both operations have a buffer, or none of them. *)
Definition copy_op_buffer (dst_op : Z) (d s : operation) : M unit :=
  match buffer d, buffer s with
  | Some bd, Some bs =>
    let sz := if buffer_two_blocks s then block_size s * 2 else block_size s in
    b ← copy_buffer bd bs sz;
    set_op dst_op (set_buffer d (Some b) (buffer_offs s))
  | None, None => mret tt
  | _, _ => TEE_Panic 0
  end.

Definition TEE_CopyOperation (dst_op src_op : Z) : M unit :=
  panic_if ((dst_op =? 0) || (src_op =? 0)) 0;;
  d ← get_op dst_op;
  s ← get_op src_op;
  panic_if (negb (algorithm (info d) =? algorithm (info s))) 0;;
  panic_if (negb (mode (info d) =? mode (info s))) 0;;
  (if negb (operationClass (info s) =? TEE_OPERATION_DIGEST) then
     let key_set := op_flag s TEE_HANDLE_FLAG_KEY_SET in
     let k1 := if key_set then key1 s else 0 in
     let k2 := if key_set then key2 s else 0 in
     if negb (op_flag s TEE_HANDLE_FLAG_EXPECT_TWO_KEYS)
     then _ ← TEE_SetOperationKey dst_op k1; mret tt
     else _ ← TEE_SetOperationKey2 dst_op k1 k2; mret tt
   else mret tt);;
  d ← get_op dst_op;
  s ← get_op src_op;
  set_op dst_op (set_handleState d (handleState (info s)));;
  d ← get_op dst_op;
  set_op dst_op (set_operationState
    (set_digestLength (set_keySize d (keySize (info s))) (digestLength (info s)))
    (operationState s));;
  d ← get_op dst_op;
  s ← get_op src_op;
  panic_if (negb (Bool.eqb (buffer_two_blocks d) (buffer_two_blocks s))
            || negb (block_size d =? block_size s)) 0;;
  copy_op_buffer dst_op d s;;
  d ← get_op dst_op;
  s ← get_op src_op;
  res ← sys (cryp_state_copy (state d) (state s));
  panic_if (negb (res =? TEE_SUCCESS)) res.
End Operations.
