(* ===== verification/UteeCrypt.v ===== *)
(** lib/libutee/tee_api_operations.c: the digest, cipher, MAC, authenticated
    encryption, asymmetric and key derivation functions, and the buffering they
    share ([tee_buffer_update]).

    A function that fills a buffer returns its [TEE_Result], the bytes written
    and the length it reports. The [__GP11_] variants truncate lengths to
    [uint32_t]. *)
From S2P Require Import Prelude Bytes UteeDefs UteeOps.

Section Crypt.
Context `{U : Utee}.

(** The [n] bytes at [off] of a buffer. *)
Definition slice (b : bytes) (off n : Z) : bytes :=
  take (Z.to_nat n) (drop (Z.to_nat off) b).

(** [n] bytes from the pointer [src]. *)
Definition read_bytes (src : option bytes) (n : Z) : M bytes :=
  match src with
  | Some d => if n <=? blen d then mret (slice d 0 n) else undefined
  | None => if n =? 0 then mret [] else undefined
  end.

(** [memcpy(buf + off, data, len)]. *)
Definition write_at (buf : bytes) (off : Z) (data : bytes) : M bytes :=
  if off + blen data <=? blen buf
  then mret (take (Z.to_nat off) buf ++ data ++ drop (Z.to_nat (off + blen data)) buf)
  else undefined.

(** [len] bytes at [off] of the operation's buffer. *)
Definition read_at (buf : bytes) (off len : Z) : M bytes :=
  if off + len <=? blen buf then mret (slice buf off len) else undefined.

Definition the_buffer (o : operation) : M bytes :=
  match buffer o with Some b => mret b | None => undefined end.

(** The system call that [tee_buffer_update] feeds. *)
Definition update_func := Z → bytes → Z → kst → Z * bytes * Z * kst.

(** One call of it: panics on an error. *)
Definition feed (upd : update_func) (st : Z) (data : bytes) (dlen : Z) : M (bytes * Z) :=
  '(res, out, tmp_dlen) ← sys (upd st data dlen);
  panic_if (negb (res =? TEE_SUCCESS)) res;;
  mret (out, tmp_dlen).

(** The buffer, its fill level and the source that is left. *)
Record fill := mk_fill {
  f_buf : bytes;
  f_offs : Z;
  f_src : bytes;
}.

Definition buffer_size (o : operation) : Z :=
  if buffer_two_blocks o then block_size o * 2 else block_size o.

Definition buffer_left (o : operation) : Z := if buffer_two_blocks o then 1 else 0.

(** Fill up a complete block; [true] when nothing is left to do. *)
Definition fill_block (o : operation) (f : fill) : M (bool * fill) :=
  if 0 <? f_offs f then
    let slen := blen (f_src f) in
    let l := if f_offs f <? block_size o then Z.min slen (block_size o - f_offs f)
             else Z.min slen (u64 (buffer_size o - f_offs f)) in
    b ← write_at (f_buf f) (f_offs f) (slice (f_src f) 0 l);
    let offs := f_offs f + l in
    mret (negb (offs mod block_size o =? 0),
          mk_fill b offs (drop (Z.to_nat l) (f_src f)))
  else mret (false, f).

(** Feed from the buffer, if possible. *)
Definition feed_buffer (upd : update_func) (o : operation) (f : fill) (dlen : Z)
  : M (bool * fill * bytes * Z) :=
  let slen := blen (f_src f) in
  if (0 <? f_offs f) && (buffer_size o + buffer_left o <=? u64 (f_offs f + slen)) then
    let l := Z.min (f_offs f) (ROUNDUP (u64 (f_offs f + slen - buffer_size o)) (block_size o)) in
    data ← read_at (f_buf f) 0 l;
    '(out, n) ← feed upd (state o) data dlen;
    let offs := f_offs f - l in
    if 0 <? offs then
      tl ← read_at (f_buf f) l (buffer_size o - l);
      b ← write_at (f_buf f) 0 tl;
      b ← write_at b offs (f_src f);
      mret (true, mk_fill b (u64 (offs + slen)) [], out, n)
    else mret (false, mk_fill (f_buf f) offs (f_src f), out, n)
  else mret (false, f, [], 0).

(** Feed as much as possible from the source. *)
Definition feed_source (upd : update_func) (o : operation) (f : fill) (dlen : Z)
  : M (fill * bytes * Z) :=
  let slen := blen (f_src f) in
  if buffer_size o + buffer_left o <=? slen then
    let l := if algorithm (info o) =? TEE_ALG_AES_CTS
             then ROUNDUP (slen - buffer_size o) (block_size o)
             else ROUNDUP (u64 (slen - buffer_size o + 1)) (block_size o) in
    data ← read_bytes (Some (f_src f)) l;
    '(out, n) ← feed upd (state o) data dlen;
    mret (mk_fill (f_buf f) (f_offs f) (drop (Z.to_nat l) (f_src f)), out, n)
  else mret (f, [], 0).

(** What is left is small enough to be contained in the buffer. *)
Definition keep_rest (f : fill) : M fill :=
  b ← write_at (f_buf f) (f_offs f) (f_src f);
  mret (mk_fill b (u64 (f_offs f + blen (f_src f))) []).

(** The steps of [tee_buffer_update] on the buffer and the source: what is left,
    the output and its length. *)
Definition run_update (upd : update_func) (o : operation) (f : fill) (dlen : Z)
  : M (fill * bytes * Z) :=
  '(stop, f) ← fill_block o f;
  if stop : bool then mret (f, [], 0) else
  '(stop, f, out1, n1) ← feed_buffer upd o f dlen;
  if stop : bool then mret (f, out1, u64 n1) else
  '(f, out2, n2) ← feed_source upd o f (u64 (dlen - n1));
  f ← keep_rest f;
  mret (f, out1 ++ out2, u64 (n1 + n2)).

Definition tee_buffer_update (op : Z) (upd : update_func) (src_data : option bytes)
  (src_len dest_len : Z) : M (bytes * Z) :=
  match src_data with
  | None => panic_if (negb (src_len =? 0)) 0;; mret ([], 0)
  | Some _ =>
    o ← get_op op;
    src ← read_bytes src_data src_len;
    buf ← the_buffer o;
    '(f, out, acc) ← run_update upd o (mk_fill buf (buffer_offs o) src) dest_len;
    o ← get_op op;
    set_op op (set_buffer o (Some (f_buf f)) (f_offs f));;
    mret (out, acc)
  end.

(** *** Message digests *)

Definition init_hash_operation (op : Z) (IV : option bytes) (IVLen : Z) : M unit :=
  o ← get_op op;
  res ← sys (hash_init (state o) IV IVLen);
  panic_if (negb (res =? TEE_SUCCESS)) res;;
  set_op op (set_flag (set_buffer o (buffer o) 0) TEE_HANDLE_FLAG_INITIALIZED).

Definition op_state (op v : Z) : M unit :=
  o ← get_op op; set_op op (set_operationState o v).

Definition TEE_DigestUpdate (op : Z) (chunk : option bytes) (chunkSize : Z) : M unit :=
  panic_if (op =? 0) 0;;
  o ← get_op op;
  panic_if (negb (operationClass (info o) =? TEE_OPERATION_DIGEST)) 0;;
  op_state op TEE_OPERATION_STATE_ACTIVE;;
  res ← sys (hash_update (state o) chunk chunkSize);
  panic_if (negb (res =? TEE_SUCCESS)) res.

Definition __GP11_TEE_DigestUpdate (op : Z) (chunk : option bytes) (chunkSize : Z) : M unit :=
  TEE_DigestUpdate op chunk chunkSize.

(** A NULL pointer with a length. *)
Definition null_with_len (b : option bytes) (n : Z) : bool :=
  match b with None => negb (n =? 0) | Some _ => false end.

Definition no_output {A} (res : Z) (len : A) : Z * (bytes * A) := (res, ([], len)).

Definition short_ok : list Z := [TEE_SUCCESS; TEE_ERROR_SHORT_BUFFER].

Definition TEE_DigestDoFinal (op : Z) (chunk : option bytes) (chunkLen hashLen : Z)
  : M (Z * (bytes * Z)) :=
  let bad := out short_ok (no_output TEE_ERROR_BAD_PARAMETERS hashLen) in
  if (op =? 0) || null_with_len chunk chunkLen then bad else
  o ← get_op op;
  if negb (operationClass (info o) =? TEE_OPERATION_DIGEST) then bad else
  let extracting := operationState o =? TEE_OPERATION_STATE_EXTRACTING in
  if extracting && negb (chunkLen =? 0) then bad else
  '(res, hash, len) ←
    match buffer o with
    | Some b =>
      if extracting then
        let len := Z.min (u64 (block_size o - buffer_offs o)) hashLen in
        h ← read_at b (buffer_offs o) len;
        mret (TEE_SUCCESS, h, len)
      else sys (hash_final (state o) chunk chunkLen hashLen)
    | None => sys (hash_final (state o) chunk chunkLen hashLen)
    end;
  if negb (res =? TEE_SUCCESS) then out short_ok (res, (hash, len)) else
  init_hash_operation op None 0;;
  op_state op TEE_OPERATION_STATE_INITIAL;;
  out short_ok (TEE_SUCCESS, (hash, len)).

(** The lengths of a [__GP11_] variant. *)
Definition gp11_len (r : Z * (bytes * Z)) : Z * (bytes * Z) :=
  let '(res, (b, len)) := r in (res, (b, u32 len)).

Definition __GP11_TEE_DigestDoFinal (op : Z) (chunk : option bytes) (chunkLen hashLen : Z)
  : M (Z * (bytes * Z)) :=
  r ← TEE_DigestDoFinal op chunk chunkLen hashLen; mret (gp11_len r).

Definition TEE_DigestExtract (op hashLen : Z) : M (Z * (bytes * Z)) :=
  panic_if (op =? 0) 0;;
  o ← get_op op;
  panic_if (negb (operationClass (info o) =? TEE_OPERATION_DIGEST)) 0;;
  let extracting o :=
    set_operationState (set_flag o TEE_HANDLE_FLAG_EXTRACTING) TEE_OPERATION_STATE_EXTRACTING in
  match buffer o with
  | None =>
    set_op op (extracting o);;
    '(res, hash, len) ← sys (hash_final (state o) None 0 hashLen);
    panic_if (negb (res =? TEE_SUCCESS)) 0;;
    mret (TEE_SUCCESS, (hash, len))
  | Some b =>
    (if negb (operationState o =? TEE_OPERATION_STATE_EXTRACTING) then
       '(res, digest, hl) ← sys (hash_final (state o) None 0 (block_size o));
       b' ← write_at b 0 digest;
       panic_if (negb (res =? TEE_SUCCESS)) 0;;
       panic_if (negb (hl =? block_size o)) 0;;
       panic_if (negb (buffer_offs o =? 0)) 0;;
       set_op op (extracting (set_buffer o (Some b') (buffer_offs o)))
     else mret tt);;
    o ← get_op op;
    b ← the_buffer o;
    let len := Z.min (u64 (block_size o - buffer_offs o)) hashLen in
    hash ← read_at b (buffer_offs o) len;
    set_op op (set_buffer o (buffer o) (u64 (buffer_offs o + len)));;
    mret (TEE_SUCCESS, (hash, len))
  end.

(** *** Symmetric ciphers *)

Definition ecb_algs : list Z :=
  [TEE_ALG_AES_ECB_NOPAD; TEE_ALG_DES_ECB_NOPAD; TEE_ALG_DES3_ECB_NOPAD;
   TEE_ALG_SM4_ECB_NOPAD].

Definition nopad_algs : list Z :=
  [TEE_ALG_AES_ECB_NOPAD; TEE_ALG_AES_CBC_NOPAD; TEE_ALG_DES_ECB_NOPAD;
   TEE_ALG_DES_CBC_NOPAD; TEE_ALG_DES3_ECB_NOPAD; TEE_ALG_DES3_CBC_NOPAD;
   TEE_ALG_SM4_ECB_NOPAD; TEE_ALG_SM4_CBC_NOPAD].

Definition is_some_buf (b : option bytes) : bool :=
  match b with Some _ => true | None => false end.

(** The checks [TEE_CipherInit] and [TEE_MACInit] share. *)
Definition init_checks (op class : Z) : M operation :=
  panic_if (op =? 0) 0;;
  o ← get_op op;
  panic_if (negb (operationClass (info o) =? class)) 0;;
  panic_if (negb (op_flag o TEE_HANDLE_FLAG_KEY_SET) || (key1 o =? 0)) 0;;
  (if negb (operationState o =? TEE_OPERATION_STATE_INITIAL)
   then TEE_ResetOperation op else mret tt);;
  mret o.

Definition TEE_CipherInit (op : Z) (IV : option bytes) (IVLen : Z) : M unit :=
  o ← init_checks op TEE_OPERATION_CIPHER;
  panic_if (is_some_buf IV && negb (IVLen =? 0)
            && is_one_of (algorithm (info o)) ecb_algs) 0;;
  op_state op TEE_OPERATION_STATE_ACTIVE;;
  res ← sys (cipher_init (state o) IV IVLen);
  panic_if (negb (res =? TEE_SUCCESS)) res;;
  o ← get_op op;
  set_op op (set_flag (set_buffer o (buffer o) 0) TEE_HANDLE_FLAG_INITIALIZED).

Definition __GP11_TEE_CipherInit (op : Z) (IV : option bytes) (IVLen : Z) : M unit :=
  TEE_CipherInit op IV IVLen.

(** The operation can be updated: its class, initialised and active. *)
Definition ready (o : operation) (class : Z) : bool :=
  (operationClass (info o) =? class) && op_flag o TEE_HANDLE_FLAG_INITIALIZED
  && (operationState o =? TEE_OPERATION_STATE_ACTIVE).

(** The required output length of [TEE_CipherUpdate]. *)
Definition cipher_req_dlen (o : operation) (srcLen : Z) : Z :=
  let r := if 1 <? block_size o
           then u64 (buffer_offs o + srcLen) / block_size o * block_size o
           else srcLen in
  if buffer_two_blocks o then
    if block_size o * 2 <? r then r - block_size o * 2 else 0
  else r.

Definition TEE_CipherUpdate (op : Z) (srcData : option bytes) (srcLen destLen : Z)
  : M (Z * (bytes * Z)) :=
  let bad := out short_ok (no_output TEE_ERROR_BAD_PARAMETERS destLen) in
  if (op =? 0) || null_with_len srcData srcLen then bad else
  o ← get_op op;
  if negb (ready o TEE_OPERATION_CIPHER) then bad else
  if negb (is_some_buf srcData) && (srcLen =? 0)
  then out short_ok (no_output TEE_SUCCESS 0) else
  let req_dlen := cipher_req_dlen o srcLen in
  if destLen <? req_dlen
  then out short_ok (no_output TEE_ERROR_SHORT_BUFFER req_dlen) else
  '(res, dest, dl) ←
    (if 1 <? block_size o then
       '(dest, dl) ← tee_buffer_update op cipher_update srcData srcLen destLen;
       mret (TEE_SUCCESS, dest, dl)
     else if 0 <? srcLen then
       data ← read_bytes srcData srcLen;
       sys (cipher_update (state o) data destLen)
     else mret (TEE_SUCCESS, [], 0));
  out short_ok (res, (dest, dl)).

Definition __GP11_TEE_CipherUpdate (op : Z) (srcData : option bytes) (srcLen destLen : Z)
  : M (Z * (bytes * Z)) :=
  r ← TEE_CipherUpdate op srcData srcLen destLen; mret (gp11_len r).

(** The final system call, on the operation's buffer when it has one. *)
Definition final_input (o : operation) (srcData : option bytes) (srcLen : Z) : M bytes :=
  if 1 <? block_size o
  then b ← the_buffer o; read_at b 0 (buffer_offs o)
  else read_bytes srcData srcLen.

(** Back to the initial state. *)
Definition finish_operation (op : Z) : M unit :=
  o ← get_op op;
  set_op op (set_operationState (clear_flag o TEE_HANDLE_FLAG_INITIALIZED)
               TEE_OPERATION_STATE_INITIAL).

(** [destLen] is [None] for a NULL pointer. *)
Definition TEE_CipherDoFinal (op : Z) (srcData : option bytes) (srcLen : Z)
  (destLen : option Z) : M (Z * (bytes * option Z)) :=
  let bad := out short_ok (no_output TEE_ERROR_BAD_PARAMETERS destLen) in
  if (op =? 0) || null_with_len srcData srcLen then bad else
  o ← get_op op;
  if negb (ready o TEE_OPERATION_CIPHER) then bad else
  if is_one_of (algorithm (info o)) nopad_algs && (block_size o =? 0) then undefined else
  if is_one_of (algorithm (info o)) nopad_algs
     && negb (u64 (buffer_offs o + srcLen) mod block_size o =? 0) then bad else
  let req_dlen := if 1 <? block_size o then u64 (buffer_offs o + srcLen) else srcLen in
  let tmp_dlen := default 0 destLen in
  if tmp_dlen <? req_dlen
  then out short_ok (no_output TEE_ERROR_SHORT_BUFFER ((λ _, req_dlen) <$> destLen)) else
  '(out1, acc) ←
    (if (1 <? block_size o) && negb (srcLen =? 0)
     then tee_buffer_update op cipher_update srcData srcLen tmp_dlen
     else mret ([], 0));
  o' ← get_op op;
  data ← final_input o' srcData srcLen;
  '(res, out2, n) ← sys (cipher_final (state o) data (u64 (tmp_dlen - acc)));
  if negb (res =? TEE_SUCCESS) then out short_ok (res, (out1 ++ out2, destLen)) else
  finish_operation op;;
  out short_ok (TEE_SUCCESS, (out1 ++ out2, (λ _, u64 (acc + n)) <$> destLen)).

Definition __GP11_TEE_CipherDoFinal (op : Z) (srcData : option bytes) (srcLen : Z)
  (destLen : option Z) : M (Z * (bytes * option Z)) :=
  '(res, (b, len)) ← TEE_CipherDoFinal op srcData srcLen (Some (default 0 destLen));
  mret (res, (b, match destLen, len with Some _, Some l => Some (u32 l) | _, _ => None end)).

(** *** MACs *)

Definition TEE_MACInit (op : Z) (IV : option bytes) (IVLen : Z) : M unit :=
  _ ← init_checks op TEE_OPERATION_MAC;
  op_state op TEE_OPERATION_STATE_ACTIVE;;
  init_hash_operation op IV IVLen.

Definition __GP11_TEE_MACInit (op : Z) (IV : option bytes) (IVLen : Z) : M unit :=
  TEE_MACInit op IV IVLen.

Definition TEE_MACUpdate (op : Z) (chunk : option bytes) (chunkSize : Z) : M unit :=
  panic_if ((op =? 0) || null_with_len chunk chunkSize) 0;;
  o ← get_op op;
  panic_if (negb (ready o TEE_OPERATION_MAC)) 0;;
  res ← sys (hash_update (state o) chunk chunkSize);
  panic_if (negb (res =? TEE_SUCCESS)) res.

Definition __GP11_TEE_MACUpdate (op : Z) (chunk : option bytes) (chunkSize : Z) : M unit :=
  TEE_MACUpdate op chunk chunkSize.

Definition TEE_MACComputeFinal (op : Z) (message : option bytes) (messageLen macLen : Z)
  : M (Z * (bytes * Z)) :=
  let bad := out short_ok (no_output TEE_ERROR_BAD_PARAMETERS macLen) in
  if (op =? 0) || null_with_len message messageLen then bad else
  o ← get_op op;
  if negb (ready o TEE_OPERATION_MAC) then bad else
  '(res, mac, ml) ← sys (hash_final (state o) message messageLen macLen);
  if negb (res =? TEE_SUCCESS) then out short_ok (res, (mac, ml)) else
  finish_operation op;;
  out short_ok (TEE_SUCCESS, (mac, ml)).

Definition __GP11_TEE_MACComputeFinal (op : Z) (message : option bytes)
  (messageLen macLen : Z) : M (Z * (bytes * Z)) :=
  r ← TEE_MACComputeFinal op message messageLen macLen; mret (gp11_len r).

(** [consttime_memcmp] of [n] bytes. *)
Definition memcmp_differs (a b : bytes) (n : Z) : bool :=
  negb (bool_decide (slice a 0 n = slice b 0 n)).

(** [computed_mac] is filled with zeros after the bytes written. *)
Definition TEE_MACCompareFinal (op : Z) (message : option bytes) (messageLen : Z)
  (mac : option bytes) (macLen : Z) : M Z :=
  let compare_results := [TEE_SUCCESS; TEE_ERROR_MAC_INVALID] in
  o ← get_op op;
  if negb (ready o TEE_OPERATION_MAC)
  then out_res compare_results TEE_ERROR_BAD_PARAMETERS else
  '(res, (written, n)) ← TEE_MACComputeFinal op message messageLen TEE_MAX_HASH_SIZE;
  if negb (res =? TEE_SUCCESS) then out_res compare_results res else
  if negb (n =? macLen) then out_res compare_results TEE_ERROR_MAC_INVALID else
  computed_mac ← write_at (replicate (Z.to_nat TEE_MAX_HASH_SIZE) 0) 0 written;
  m ← read_bytes mac n;
  c ← read_at computed_mac 0 n;
  if memcmp_differs m c n
  then out_res compare_results TEE_ERROR_MAC_INVALID else
  op_state op TEE_OPERATION_STATE_INITIAL;;
  out_res compare_results TEE_SUCCESS.

Definition __GP11_TEE_MACCompareFinal (op : Z) (message : option bytes) (messageLen : Z)
  (mac : option bytes) (macLen : Z) : M Z :=
  TEE_MACCompareFinal op message messageLen mac macLen.

(** *** Authenticated encryption *)

Definition TEE_AEInit (op : Z) (nonce : option bytes) (nonceLen tagLen AADLen payloadLen : Z)
  : M Z :=
  let fin res := out_res [TEE_SUCCESS; TEE_ERROR_NOT_SUPPORTED] res in
  if (op =? 0) || negb (is_some_buf nonce) then fin TEE_ERROR_BAD_PARAMETERS else
  o ← get_op op;
  if negb (operationClass (info o) =? TEE_OPERATION_AE)
  then fin TEE_ERROR_BAD_PARAMETERS else
  if negb (operationState o =? TEE_OPERATION_STATE_INITIAL)
  then fin TEE_ERROR_BAD_PARAMETERS else
  if (algorithm (info o) =? TEE_ALG_AES_GCM)
     && ((tagLen <? 96) || (128 <? tagLen) || negb (tagLen mod 8 =? 0))
  then fin TEE_ERROR_NOT_SUPPORTED else
  res ← sys (authenc_init (state o) nonce nonceLen (tagLen / 8) AADLen payloadLen);
  if negb (res =? TEE_SUCCESS) then fin res else
  set_op op (set_flag (set_buffer (set_digestLength o (tagLen / 8)) (buffer o) 0)
               TEE_HANDLE_FLAG_INITIALIZED);;
  fin TEE_SUCCESS.

Definition __GP11_TEE_AEInit (op : Z) (nonce : option bytes)
  (nonceLen tagLen AADLen payloadLen : Z) : M Z :=
  TEE_AEInit op nonce nonceLen tagLen AADLen payloadLen.

Definition ae_ready (o : operation) : bool :=
  (operationClass (info o) =? TEE_OPERATION_AE) && op_flag o TEE_HANDLE_FLAG_INITIALIZED.

Definition TEE_AEUpdateAAD (op : Z) (AADdata : option bytes) (AADdataLen : Z) : M unit :=
  panic_if ((op =? 0) || null_with_len AADdata AADdataLen) 0;;
  o ← get_op op;
  panic_if (negb (operationClass (info o) =? TEE_OPERATION_AE)) 0;;
  panic_if (negb (operationState o =? TEE_OPERATION_STATE_INITIAL)) 0;;
  panic_if (negb (op_flag o TEE_HANDLE_FLAG_INITIALIZED)) 0;;
  res ← sys (authenc_update_aad (state o) AADdata AADdataLen);
  panic_if (negb (res =? TEE_SUCCESS)) res.

Definition __GP11_TEE_AEUpdateAAD (op : Z) (AADdata : option bytes) (AADdataLen : Z)
  : M unit :=
  panic_if ((op =? 0) || null_with_len AADdata AADdataLen) 0;;
  o ← get_op op;
  panic_if (negb (ae_ready o)) 0;;
  res ← sys (authenc_update_aad (state o) AADdata AADdataLen);
  op_state op TEE_OPERATION_STATE_ACTIVE;;
  panic_if (negb (res =? TEE_SUCCESS)) res.

Definition ae_update_helper (op : Z) (src : option bytes) (slen dlen : Z)
  : M (Z * (bytes * Z)) :=
  if negb (is_some_buf src) && (slen =? 0) then mret (no_output TEE_SUCCESS 0) else
  o ← get_op op;
  let req_dlen := if 1 <? block_size o
                  then ROUNDDOWN (u64 (buffer_offs o + slen)) (block_size o) else slen in
  if dlen <? req_dlen then mret (no_output TEE_ERROR_SHORT_BUFFER req_dlen) else
  '(res, dest, dl) ←
    (if 1 <? block_size o then
       '(dest, dl) ← tee_buffer_update op authenc_update_payload src slen dlen;
       mret (TEE_SUCCESS, dest, dl)
     else if 0 <? slen then
       data ← read_bytes src slen;
       sys (authenc_update_payload (state o) data dlen)
     else mret (TEE_SUCCESS, [], 0));
  mret (res, (dest, if res =? TEE_SUCCESS then dl else dlen)).

Definition TEE_AEUpdate (op : Z) (srcData : option bytes) (srcLen destLen : Z)
  : M (Z * (bytes * Z)) :=
  let bad := out short_ok (no_output TEE_ERROR_BAD_PARAMETERS destLen) in
  if (op =? 0) || null_with_len srcData srcLen then bad else
  o ← get_op op;
  if negb (ae_ready o) then bad else
  '(res, r) ← ae_update_helper op srcData srcLen destLen;
  (if negb (res =? TEE_ERROR_SHORT_BUFFER) && negb (srcLen =? 0)
   then op_state op TEE_OPERATION_STATE_ACTIVE else mret tt);;
  out short_ok (res, r).

Definition __GP11_TEE_AEUpdate (op : Z) (srcData : option bytes) (srcLen destLen : Z)
  : M (Z * (bytes * Z)) :=
  let bad := out short_ok (no_output TEE_ERROR_BAD_PARAMETERS destLen) in
  if (op =? 0) || null_with_len srcData srcLen then bad else
  o ← get_op op;
  if negb (ae_ready o) then bad else
  '(res, r) ← ae_update_helper op srcData srcLen destLen;
  if negb (res =? TEE_SUCCESS) then out short_ok (gp11_len (res, r)) else
  op_state op TEE_OPERATION_STATE_ACTIVE;;
  out short_ok (gp11_len (TEE_SUCCESS, r)).

(** What [TEE_AEEncryptFinal] and [TEE_AEDecryptFinal] feed before the final
    call: the output so far and the input of the final call. *)
Definition ae_final_input (op : Z) (o : operation) (srcData : option bytes)
  (srcLen dlen : Z) : M (bytes * Z * bytes) :=
  '(out1, acc) ←
    (if 1 <? block_size o
     then tee_buffer_update op authenc_update_payload srcData srcLen dlen
     else mret ([], 0));
  o' ← get_op op;
  data ← final_input o' srcData srcLen;
  mret (out1, acc, data).

Definition TEE_AEEncryptFinal (op : Z) (srcData : option bytes) (srcLen destLen tagLen : Z)
  : M (Z * (bytes * (Z * (bytes * Z)))) :=
  let bad := out short_ok (no_output TEE_ERROR_BAD_PARAMETERS (destLen, ([], tagLen))) in
  if (op =? 0) || null_with_len srcData srcLen then bad else
  o ← get_op op;
  if negb (ae_ready o) then bad else
  let req_dlen := u64 (buffer_offs o + srcLen) in
  let short_dest := destLen <? req_dlen in
  let short_tag := tagLen <? digestLength (info o) in
  if short_dest || short_tag then
    out short_ok (no_output TEE_ERROR_SHORT_BUFFER
      (if short_dest then req_dlen else destLen,
       ([], if short_tag then digestLength (info o) else tagLen)))
  else
  '(out1, acc, data) ← ae_final_input op o srcData srcLen destLen;
  '(res, (out2, n), (tag, tl)) ←
    sys (authenc_enc_final (state o) data (u64 (destLen - acc)) tagLen);
  if negb (res =? TEE_SUCCESS) then out short_ok (res, (out1 ++ out2, (destLen, (tag, tl)))) else
  finish_operation op;;
  out short_ok (TEE_SUCCESS, (out1 ++ out2, (u64 (acc + n), (tag, tl)))).

Definition __GP11_TEE_AEEncryptFinal (op : Z) (srcData : option bytes)
  (srcLen destLen tagLen : Z) : M (Z * (bytes * (Z * (bytes * Z)))) :=
  '(res, (b, (dl, (tag, tl)))) ← TEE_AEEncryptFinal op srcData srcLen destLen tagLen;
  mret (res, (b, (u32 dl, (tag, u32 tl)))).

Definition dec_ok : list Z := [TEE_SUCCESS; TEE_ERROR_SHORT_BUFFER; TEE_ERROR_MAC_INVALID].

Definition TEE_AEDecryptFinal (op : Z) (srcData : option bytes) (srcLen destLen : Z)
  (tag : bytes) (tagLen : Z) : M (Z * (bytes * Z)) :=
  let bad := out dec_ok (no_output TEE_ERROR_BAD_PARAMETERS destLen) in
  if (op =? 0) || null_with_len srcData srcLen then bad else
  o ← get_op op;
  if negb (ae_ready o) then bad else
  let req_dlen := u64 (buffer_offs o + srcLen) in
  if destLen <? req_dlen
  then out dec_ok (no_output TEE_ERROR_SHORT_BUFFER req_dlen) else
  '(out1, acc, data) ← ae_final_input op o srcData srcLen destLen;
  '(res, out2, n) ← sys (authenc_dec_final (state o) data (u64 (destLen - acc)) tag tagLen);
  if negb (res =? TEE_SUCCESS) then out dec_ok (res, (out1 ++ out2, destLen)) else
  let res := if negb (tagLen =? digestLength (info o)) then TEE_ERROR_MAC_INVALID
             else TEE_SUCCESS in
  finish_operation op;;
  out dec_ok (res, (out1 ++ out2, u64 (acc + n))).

Definition __GP11_TEE_AEDecryptFinal (op : Z) (srcData : option bytes) (srcLen destLen : Z)
  (tag : bytes) (tagLen : Z) : M (Z * (bytes * Z)) :=
  r ← TEE_AEDecryptFinal op srcData srcLen destLen tag tagLen; mret (gp11_len r).

(** *** Asymmetric operations *)

(** The checks of the asymmetric functions: key, class and mode. *)
Definition asymm_checks (op class m : Z) : M operation :=
  o ← get_op op;
  panic_if (key1 o =? 0) 0;;
  panic_if (negb (operationClass (info o) =? class)) 0;;
  panic_if (negb (mode (info o) =? m)) 0;;
  mret o.

Definition asymm_run (allowed : list Z) (class m op : Z) (params : attributes)
  (srcData : option bytes) (srcLen destLen : Z) : M (Z * (bytes * Z)) :=
  panic_if ((op =? 0) || null_with_len srcData srcLen) 0;;
  o ← asymm_checks op class m;
  '(res, dest, dl) ← sys (asymm_operate (state o) params srcData srcLen destLen);
  out allowed (res, (dest, dl)).

Definition asymm_cipher_results : list Z :=
  [TEE_SUCCESS; TEE_ERROR_SHORT_BUFFER; TEE_ERROR_BAD_PARAMETERS;
   TEE_ERROR_CIPHERTEXT_INVALID; TEE_ERROR_NOT_SUPPORTED].

Definition gp11_asymm_cipher_results : list Z :=
  [TEE_SUCCESS; TEE_ERROR_SHORT_BUFFER; TEE_ERROR_BAD_PARAMETERS].

Definition TEE_AsymmetricEncrypt :=
  asymm_run asymm_cipher_results TEE_OPERATION_ASYMMETRIC_CIPHER TEE_MODE_ENCRYPT.

Definition __GP11_TEE_AsymmetricEncrypt (op : Z) (params : attributes)
  (srcData : option bytes) (srcLen destLen : Z) : M (Z * (bytes * Z)) :=
  r ← asymm_run gp11_asymm_cipher_results TEE_OPERATION_ASYMMETRIC_CIPHER TEE_MODE_ENCRYPT
        op params srcData srcLen destLen;
  mret (gp11_len r).

Definition TEE_AsymmetricDecrypt :=
  asymm_run asymm_cipher_results TEE_OPERATION_ASYMMETRIC_CIPHER TEE_MODE_DECRYPT.

Definition __GP11_TEE_AsymmetricDecrypt (op : Z) (params : attributes)
  (srcData : option bytes) (srcLen destLen : Z) : M (Z * (bytes * Z)) :=
  r ← asymm_run gp11_asymm_cipher_results TEE_OPERATION_ASYMMETRIC_CIPHER TEE_MODE_DECRYPT
        op params srcData srcLen destLen;
  mret (gp11_len r).

Definition TEE_AsymmetricSignDigest :=
  asymm_run short_ok TEE_OPERATION_ASYMMETRIC_SIGNATURE TEE_MODE_SIGN.

Definition __GP11_TEE_AsymmetricSignDigest (op : Z) (params : attributes)
  (digest : option bytes) (digestLen signatureLen : Z) : M (Z * (bytes * Z)) :=
  r ← asymm_run short_ok TEE_OPERATION_ASYMMETRIC_SIGNATURE TEE_MODE_SIGN
        op params digest digestLen signatureLen;
  mret (gp11_len r).

Definition TEE_AsymmetricVerifyDigest (op : Z) (params : attributes)
  (digest : option bytes) (digestLen : Z) (signature : option bytes) (signatureLen : Z)
  : M Z :=
  panic_if ((op =? 0) || null_with_len digest digestLen
            || null_with_len signature signatureLen) 0;;
  o ← asymm_checks op TEE_OPERATION_ASYMMETRIC_SIGNATURE TEE_MODE_VERIFY;
  res ← sys (asymm_verify (state o) params digest digestLen signature signatureLen);
  out_res [TEE_SUCCESS; TEE_ERROR_SIGNATURE_INVALID] res.

Definition __GP11_TEE_AsymmetricVerifyDigest (op : Z) (params : attributes)
  (digest : option bytes) (digestLen : Z) (signature : option bytes) (signatureLen : Z)
  : M Z := TEE_AsymmetricVerifyDigest op params digest digestLen signature signatureLen.

(** *** Key derivation and random numbers *)

Definition TEE_DeriveKey (op : Z) (params : attributes) (derivedKey : Z) : M unit :=
  panic_if ((op =? 0) || (derivedKey =? 0)) 0;;
  o ← get_op op;
  panic_if (negb (TEE_ALG_GET_CLASS (algorithm (info o)) =? TEE_OPERATION_KEY_DERIVATION)) 0;;
  o ← asymm_checks op TEE_OPERATION_KEY_DERIVATION TEE_MODE_DERIVE;
  panic_if (negb (op_flag o TEE_HANDLE_FLAG_KEY_SET)) 0;;
  '(res, key_info) ← sys (cryp_obj_get_info derivedKey);
  panic_if (negb (res =? TEE_SUCCESS)) res;;
  panic_if (negb (obj_type key_info =? TEE_TYPE_GENERIC_SECRET)) 0;;
  panic_if (has_flag (handle_flags key_info) TEE_HANDLE_FLAG_INITIALIZED) 0;;
  res ← sys (cryp_derive_key (state o) params derivedKey);
  panic_if (negb (res =? TEE_SUCCESS)) res.

Definition __GP11_TEE_DeriveKey (op : Z) (params : attributes) (derivedKey : Z) : M unit :=
  TEE_DeriveKey op params derivedKey.

Definition TEE_GenerateRandom (randomBufferLen : Z) : M bytes :=
  '(res, b) ← sys (random_number_generate randomBufferLen);
  panic_if (negb (res =? TEE_SUCCESS)) res;;
  mret b.

Definition __GP11_TEE_GenerateRandom (randomBufferLen : Z) : M bytes :=
  TEE_GenerateRandom randomBufferLen.

(** The bytes of an [int], little endian, without the sign bit. *)
Definition RAND_MAX : Z := 2 ^ 31 - 1.

Definition rand : M Z :=
  b ← TEE_GenerateRandom 4;
  mret (Z.land (foldr (λ x acc, x + 256 * acc) 0 b) RAND_MAX).
End Crypt.
