(* ===== verification/UteeTables.v ===== *)
(** lib/libutee/tee_api_operations.c: [TEE_IsAlgorithmSupported], and the
    algorithm tables of libutee: what [TEE_AllocateOperation] sets up for an
    algorithm and a mode, and how the two relate. *)
From S2P Require Import Prelude Bytes UteeDefs UteeOps UteeCrypt.

(** The build configuration it looks at. *)
Record crypto_config := {
  CFG_CRYPTO_AES : bool;
  CFG_CRYPTO_DES : bool;
  CFG_CRYPTO_SM4 : bool;
  CFG_CRYPTO_ECB : bool;
  CFG_CRYPTO_CBC : bool;
  CFG_CRYPTO_CTR : bool;
  CFG_CRYPTO_CTS : bool;
  CFG_CRYPTO_XTS : bool;
  CFG_CRYPTO_CBC_MAC : bool;
  CFG_CRYPTO_CMAC : bool;
  CFG_CRYPTO_CCM : bool;
  CFG_CRYPTO_GCM : bool;
  CFG_CRYPTO_MD5 : bool;
  CFG_CRYPTO_SHA1 : bool;
  CFG_CRYPTO_SHA224 : bool;
  CFG_CRYPTO_SHA256 : bool;
  CFG_CRYPTO_SHA384 : bool;
  CFG_CRYPTO_SHA512 : bool;
  CFG_CRYPTO_SHA3_224 : bool;
  CFG_CRYPTO_SHA3_256 : bool;
  CFG_CRYPTO_SHA3_384 : bool;
  CFG_CRYPTO_SHA3_512 : bool;
  CFG_CRYPTO_SM3 : bool;
  CFG_CRYPTO_HMAC : bool;
  CFG_CRYPTO_RSA : bool;
  CFG_CRYPTO_RSASSA_NA1_ : bool;
  CFG_CRYPTO_DSA : bool;
  CFG_CRYPTO_DH : bool;
  CFG_CRYPTO_ECC : bool;
  CFG_CRYPTO_SM2_DSA : bool;
  CFG_CRYPTO_SM2_KEP : bool;
  CFG_CRYPTO_SM2_PKE : bool;
  CFG_CRYPTO_X25519 : bool;
  CFG_CRYPTO_ED25519 : bool;
}.

Section Supported.
Context (c : crypto_config).

(** One [if (IS_ENABLED(cfg)) if (alg is one of ...)]. *)
Definition enabled_for (cfg : bool) (alg : Z) (l : list Z) : bool := cfg && is_one_of alg l.

(** The tests for AES and DES that lead to [check_element_none]. *)
Definition supports_aes_des (alg : Z) : bool :=
  CFG_CRYPTO_AES c &&
    (enabled_for (CFG_CRYPTO_ECB c) alg [TEE_ALG_AES_ECB_NOPAD]
     || enabled_for (CFG_CRYPTO_CBC c) alg [TEE_ALG_AES_CBC_NOPAD]
     || enabled_for (CFG_CRYPTO_CTR c) alg [TEE_ALG_AES_CTR]
     || enabled_for (CFG_CRYPTO_CTS c) alg [TEE_ALG_AES_CTS]
     || enabled_for (CFG_CRYPTO_XTS c) alg [TEE_ALG_AES_XTS]
     || enabled_for (CFG_CRYPTO_CBC_MAC c) alg
          [TEE_ALG_AES_CBC_MAC_NOPAD; TEE_ALG_AES_CBC_MAC_PKCS5]
     || enabled_for (CFG_CRYPTO_CMAC c) alg [TEE_ALG_AES_CMAC]
     || enabled_for (CFG_CRYPTO_CCM c) alg [TEE_ALG_AES_CCM]
     || enabled_for (CFG_CRYPTO_GCM c) alg [TEE_ALG_AES_GCM])
  || CFG_CRYPTO_DES c &&
    (enabled_for (CFG_CRYPTO_ECB c) alg [TEE_ALG_DES_ECB_NOPAD; TEE_ALG_DES3_ECB_NOPAD]
     || enabled_for (CFG_CRYPTO_CBC c) alg [TEE_ALG_DES_CBC_NOPAD; TEE_ALG_DES3_CBC_NOPAD]
     || enabled_for (CFG_CRYPTO_CBC_MAC c) alg
          [TEE_ALG_DES_CBC_MAC_NOPAD; TEE_ALG_DES_CBC_MAC_PKCS5;
           TEE_ALG_DES3_CBC_MAC_NOPAD; TEE_ALG_DES3_CBC_MAC_PKCS5]).

(** The tests for the digests and HMAC. *)
Definition supports_digest_hmac (alg : Z) : bool :=
  enabled_for (CFG_CRYPTO_MD5 c) alg [TEE_ALG_MD5]
  || enabled_for (CFG_CRYPTO_SHA1 c) alg [TEE_ALG_SHA1]
  || enabled_for (CFG_CRYPTO_SHA224 c) alg [TEE_ALG_SHA224]
  || enabled_for (CFG_CRYPTO_SHA256 c) alg [TEE_ALG_SHA256]
  || enabled_for (CFG_CRYPTO_SHA384 c) alg [TEE_ALG_SHA384]
  || enabled_for (CFG_CRYPTO_SHA512 c) alg [TEE_ALG_SHA512]
  || enabled_for (CFG_CRYPTO_SHA3_224 c) alg [TEE_ALG_SHA3_224]
  || enabled_for (CFG_CRYPTO_SHA3_256 c) alg [TEE_ALG_SHA3_256]
  || enabled_for (CFG_CRYPTO_SHA3_384 c) alg [TEE_ALG_SHA3_384]
  || enabled_for (CFG_CRYPTO_SHA3_512 c) alg [TEE_ALG_SHA3_512]
  || enabled_for (CFG_CRYPTO_MD5 c && CFG_CRYPTO_SHA1 c) alg [TEE_ALG_MD5SHA1]
  || CFG_CRYPTO_HMAC c &&
    (enabled_for (CFG_CRYPTO_MD5 c) alg [TEE_ALG_HMAC_MD5]
     || enabled_for (CFG_CRYPTO_SHA1 c) alg [TEE_ALG_HMAC_SHA1]
     || enabled_for (CFG_CRYPTO_SHA224 c) alg [TEE_ALG_HMAC_SHA224]
     || enabled_for (CFG_CRYPTO_SHA256 c) alg [TEE_ALG_HMAC_SHA256]
     || enabled_for (CFG_CRYPTO_SHA384 c) alg [TEE_ALG_HMAC_SHA384]
     || enabled_for (CFG_CRYPTO_SHA512 c) alg [TEE_ALG_HMAC_SHA512]
     || enabled_for (CFG_CRYPTO_SHA3_224 c) alg [TEE_ALG_HMAC_SHA3_224]
     || enabled_for (CFG_CRYPTO_SHA3_256 c) alg [TEE_ALG_HMAC_SHA3_256]
     || enabled_for (CFG_CRYPTO_SHA3_384 c) alg [TEE_ALG_HMAC_SHA3_384]
     || enabled_for (CFG_CRYPTO_SHA3_512 c) alg [TEE_ALG_HMAC_SHA3_512]
     || enabled_for (CFG_CRYPTO_SM3 c) alg [TEE_ALG_HMAC_SM3])
  || enabled_for (CFG_CRYPTO_SM3 c) alg [TEE_ALG_SM3].

(** The tests for SM4, RSA, DSA and DH. *)
Definition supports_sm4_rsa_dsa_dh (alg : Z) : bool :=
  CFG_CRYPTO_SM4 c &&
    (enabled_for (CFG_CRYPTO_ECB c) alg [TEE_ALG_SM4_ECB_NOPAD]
     || enabled_for (CFG_CRYPTO_CBC c) alg [TEE_ALG_SM4_CBC_NOPAD]
     || enabled_for (CFG_CRYPTO_CTR c) alg [TEE_ALG_SM4_CTR]
     || enabled_for (CFG_CRYPTO_XTS c) alg [TEE_ALG_SM4_XTS])
  || CFG_CRYPTO_RSA c &&
    (enabled_for (CFG_CRYPTO_MD5 c) alg
       [TEE_ALG_RSASSA_PKCS1_V1_5_MD5; TEE_ALG_RSASSA_PKCS1_PSS_MGF1_MD5;
        TEE_ALG_RSAES_PKCS1_OAEP_MGF1_MD5]
     || enabled_for (CFG_CRYPTO_SHA1 c) alg
       [TEE_ALG_RSASSA_PKCS1_V1_5_SHA1; TEE_ALG_RSASSA_PKCS1_PSS_MGF1_SHA1;
        TEE_ALG_RSAES_PKCS1_OAEP_MGF1_SHA1]
     || enabled_for (CFG_CRYPTO_MD5 c && CFG_CRYPTO_SHA1 c) alg
       [TEE_ALG_RSASSA_PKCS1_V1_5_MD5SHA1]
     || enabled_for (CFG_CRYPTO_SHA224 c) alg
       [TEE_ALG_RSASSA_PKCS1_V1_5_SHA224; TEE_ALG_RSASSA_PKCS1_PSS_MGF1_SHA224;
        TEE_ALG_RSAES_PKCS1_OAEP_MGF1_SHA224]
     || enabled_for (CFG_CRYPTO_SHA256 c) alg
       [TEE_ALG_RSASSA_PKCS1_V1_5_SHA256; TEE_ALG_RSASSA_PKCS1_PSS_MGF1_SHA256;
        TEE_ALG_RSAES_PKCS1_OAEP_MGF1_SHA256]
     || enabled_for (CFG_CRYPTO_SHA384 c) alg
       [TEE_ALG_RSASSA_PKCS1_V1_5_SHA384; TEE_ALG_RSASSA_PKCS1_PSS_MGF1_SHA384;
        TEE_ALG_RSAES_PKCS1_OAEP_MGF1_SHA384]
     || enabled_for (CFG_CRYPTO_SHA512 c) alg
       [TEE_ALG_RSASSA_PKCS1_V1_5_SHA512; TEE_ALG_RSASSA_PKCS1_PSS_MGF1_SHA512;
        TEE_ALG_RSAES_PKCS1_OAEP_MGF1_SHA512]
     || enabled_for (CFG_CRYPTO_RSASSA_NA1_ c) alg [TEE_ALG_RSASSA_PKCS1_V1_5]
     || is_one_of alg [TEE_ALG_RSA_NOPAD])
  || CFG_CRYPTO_DSA c &&
    (enabled_for (CFG_CRYPTO_SHA1 c) alg [TEE_ALG_DSA_SHA1]
     || enabled_for (CFG_CRYPTO_SHA224 c) alg [TEE_ALG_DSA_SHA224]
     || enabled_for (CFG_CRYPTO_SHA256 c) alg [TEE_ALG_DSA_SHA256])
  || enabled_for (CFG_CRYPTO_DH c) alg [TEE_ALG_DH_DERIVE_SHARED_SECRET].

(** The tests that return [TEE_SUCCESS] for an algorithm with its curve. *)
Definition supports_curve (alg element : Z) : bool :=
  CFG_CRYPTO_ECC c &&
    (is_one_of alg [__OPTEE_ALG_ECDH_P192; __OPTEE_ALG_ECDSA_P192;
       TEE_ALG_ECDH_DERIVE_SHARED_SECRET; TEE_ALG_ECDSA_SHA1]
       && (element =? TEE_ECC_CURVE_NIST_P192)
     || is_one_of alg [__OPTEE_ALG_ECDH_P224; __OPTEE_ALG_ECDSA_P224;
       TEE_ALG_ECDH_DERIVE_SHARED_SECRET; TEE_ALG_ECDSA_SHA224]
       && (element =? TEE_ECC_CURVE_NIST_P224)
     || is_one_of alg [__OPTEE_ALG_ECDH_P256; __OPTEE_ALG_ECDSA_P256;
       TEE_ALG_ECDH_DERIVE_SHARED_SECRET; TEE_ALG_ECDSA_SHA256]
       && (element =? TEE_ECC_CURVE_NIST_P256)
     || is_one_of alg [__OPTEE_ALG_ECDH_P384; __OPTEE_ALG_ECDSA_P384;
       TEE_ALG_ECDH_DERIVE_SHARED_SECRET; TEE_ALG_ECDSA_SHA384]
       && (element =? TEE_ECC_CURVE_NIST_P384)
     || is_one_of alg [__OPTEE_ALG_ECDH_P521; __OPTEE_ALG_ECDSA_P521;
       TEE_ALG_ECDH_DERIVE_SHARED_SECRET; TEE_ALG_ECDSA_SHA512]
       && (element =? TEE_ECC_CURVE_NIST_P521))
  || CFG_CRYPTO_SM2_DSA c && (alg =? TEE_ALG_SM2_DSA_SM3) && (element =? TEE_ECC_CURVE_SM2)
  || CFG_CRYPTO_SM2_KEP c && (alg =? TEE_ALG_SM2_KEP) && (element =? TEE_ECC_CURVE_SM2)
  || CFG_CRYPTO_SM2_PKE c && (alg =? TEE_ALG_SM2_PKE) && (element =? TEE_ECC_CURVE_SM2)
  || CFG_CRYPTO_X25519 c && (alg =? TEE_ALG_X25519) && (element =? TEE_ECC_CURVE_25519)
  || CFG_CRYPTO_ED25519 c && (alg =? TEE_ALG_ED25519) && (element =? TEE_ECC_CURVE_25519).

Definition TEE_IsAlgorithmSupported (alg element : Z) : Z :=
  if supports_aes_des alg || supports_digest_hmac alg || supports_sm4_rsa_dsa_dh alg
  then if element =? TEE_CRYPTO_ELEMENT_NONE then TEE_SUCCESS else TEE_ERROR_NOT_SUPPORTED
  else if supports_curve alg element then TEE_SUCCESS else TEE_ERROR_NOT_SUPPORTED.
End Supported.

Lemma is_one_of_In alg l : is_one_of alg l = true ↔ alg ∈ l.
Proof.
  unfold is_one_of. rewrite existsb_exists, list_elem_of_In.
  split; [intros (x & H & E); by apply Z.eqb_eq in E as ->|].
  intros H. exists alg. split; [done|apply Z.eqb_refl].
Qed.

Lemma enabled_for_In cfg alg l : enabled_for cfg alg l = true → alg ∈ l.
Proof. unfold enabled_for. intros [_ H]%andb_true_iff. by apply is_one_of_In. Qed.

Definition modes : list Z :=
  [TEE_MODE_ENCRYPT; TEE_MODE_DECRYPT; TEE_MODE_SIGN; TEE_MODE_VERIFY; TEE_MODE_MAC;
   TEE_MODE_DIGEST; TEE_MODE_DERIVE].

(** The algorithms of the second [switch]. *)
Definition known_algs : list Z :=
  (two_block_algs ++ block_algs ++ stream_algs)
  ++ (TEE_ALG_RSASSA_PKCS1_V1_5 :: sign_algs) ++ asymm_cipher_algs
  ++ [TEE_ALG_RSA_NOPAD] ++ derive_algs ++ digest_algs ++ mac_algs.

(** The modes that make sense for a class. *)
Definition modes_of_class (class : Z) : list Z :=
  if (class =? TEE_OPERATION_CIPHER) || (class =? TEE_OPERATION_AE)
     || (class =? TEE_OPERATION_ASYMMETRIC_CIPHER)
  then [TEE_MODE_ENCRYPT; TEE_MODE_DECRYPT]
  else if class =? TEE_OPERATION_ASYMMETRIC_SIGNATURE then [TEE_MODE_SIGN; TEE_MODE_VERIFY]
  else if class =? TEE_OPERATION_MAC then [TEE_MODE_MAC]
  else if class =? TEE_OPERATION_DIGEST then [TEE_MODE_DIGEST]
  else if class =? TEE_OPERATION_KEY_DERIVATION then [TEE_MODE_DERIVE]
  else [].

(** The usage a key must have for a mode, but for raw RSA. *)
Definition usage_of_mode (m : Z) : Z :=
  if m =? TEE_MODE_ENCRYPT then TEE_USAGE_ENCRYPT
  else if m =? TEE_MODE_DECRYPT then TEE_USAGE_DECRYPT
  else if m =? TEE_MODE_SIGN then TEE_USAGE_SIGN
  else if m =? TEE_MODE_VERIFY then TEE_USAGE_VERIFY
  else if m =? TEE_MODE_MAC then TEE_USAGE_MAC
  else if m =? TEE_MODE_DERIVE then TEE_USAGE_DERIVE else 0.

(** What the set-up of an algorithm and a mode must satisfy. *)
Definition setup_ok (alg m : Z) (su : alg_setup) : bool :=
  let class := TEE_ALG_GET_CLASS alg in
  is_one_of m (modes_of_class class)
  && (if alg =? TEE_ALG_RSA_NOPAD
      then Z.land (su_req_key_usage su) (usage_of_mode m) =? usage_of_mode m
      else su_req_key_usage su =? usage_of_mode m)
  && Bool.eqb (su_key_set su) (class =? TEE_OPERATION_DIGEST)
  && is_one_of (su_block_size su) [1; TEE_DES_BLOCK_SIZE; TEE_AES_BLOCK_SIZE]
  && implb (1 <? su_block_size su)
       (is_one_of class [TEE_OPERATION_CIPHER; TEE_OPERATION_AE])
  && implb (su_two_blocks su)
       ((su_block_size su =? TEE_AES_BLOCK_SIZE) && (class =? TEE_OPERATION_CIPHER)
        && is_one_of alg two_block_algs)
  && implb (is_one_of alg block_algs) (1 <? su_block_size su).

Definition setups_ok (na1 : bool) : bool :=
  forallb (λ alg, forallb (λ m,
    match check_alg_mode na1 alg m with Some su => setup_ok alg m su | None => true end)
    modes) known_algs.

Lemma setups_ok_both na1 : setups_ok na1 = true.
Proof. destruct na1; vm_compute; reflexivity. Qed.

(** Splits a disjunction of boolean tests. *)
Ltac split_tests H :=
  repeat match type of H with
  | (_ || _) = true => apply orb_true_iff in H as [H|H]
  | (_ && _) = true => let H1 := fresh in apply andb_true_iff in H as [H1 H]
  end.

Lemma check_alg_mode_known na1 alg m su :
  check_alg_mode na1 alg m = Some su → alg ∈ known_algs ∧ m ∈ modes.
Proof.
  unfold check_alg_mode, known_algs. intros H. rewrite !elem_of_app.
  destruct (is_one_of alg (two_block_algs ++ block_algs ++ stream_algs)) eqn:E1.
  { apply is_one_of_In in E1. rewrite !elem_of_app in E1. split; [tauto|].
    repeat case_match; breflect; simplify_eq; unfold modes; set_solver+. }
  destruct ((na1 && (alg =? TEE_ALG_RSASSA_PKCS1_V1_5)) || is_one_of alg sign_algs) eqn:E2.
  { assert (alg ∈ TEE_ALG_RSASSA_PKCS1_V1_5 :: sign_algs) as Hs.
    { apply elem_of_cons. apply orb_true_iff in E2 as [E2|E2];
        [left; apply andb_true_iff in E2 as [_ E2]; by apply Z.eqb_eq|].
      right. by apply is_one_of_In. }
    split; [tauto|]. repeat case_match; breflect; simplify_eq; unfold modes; set_solver+. }
  destruct (is_one_of alg asymm_cipher_algs) eqn:E3.
  { apply is_one_of_In in E3. split; [tauto|].
    repeat case_match; breflect; simplify_eq; unfold modes; set_solver+. }
  destruct (alg =? TEE_ALG_RSA_NOPAD) eqn:E4.
  { assert (alg ∈ [TEE_ALG_RSA_NOPAD]) by (apply Z.eqb_eq in E4 as ->; by left).
    split; [tauto|].
    repeat case_match; breflect; simplify_eq; unfold modes; set_solver+. }
  destruct (is_one_of alg derive_algs) eqn:E5.
  { apply is_one_of_In in E5. split; [tauto|].
    repeat case_match; breflect; simplify_eq; unfold modes; set_solver+. }
  destruct (is_one_of alg digest_algs) eqn:E6.
  { apply is_one_of_In in E6. split; [tauto|].
    repeat case_match; breflect; simplify_eq; unfold modes; set_solver+. }
  destruct (is_one_of alg mac_algs) eqn:E7; [|done].
  apply is_one_of_In in E7. split; [tauto|].
  repeat case_match; breflect; simplify_eq; unfold modes; set_solver+.
Qed.

Lemma check_alg_mode_ok na1 alg m su :
  check_alg_mode na1 alg m = Some su → setup_ok alg m su = true.
Proof.
  intros E. destruct (check_alg_mode_known _ _ _ _ E) as [Ha Hm].
  pose proof (setups_ok_both na1) as H. unfold setups_ok in H.
  rewrite forallb_forall in H. apply list_elem_of_In, H in Ha.
  rewrite forallb_forall in Ha. apply list_elem_of_In, Ha in Hm. by rewrite E in Hm.
Qed.

(** The block size that [TEE_AllocateOperation] gives the operation. *)
Definition alloc_class (na1 : bool) (alg : Z) : Z :=
  if na1 && (alg =? TEE_ALG_RSASSA_PKCS1_V1_5)
  then TEE_OPERATION_ASYMMETRIC_SIGNATURE else TEE_ALG_GET_CLASS alg.

Definition alloc_block_size (na1 : bool) (alg : Z) (su : alg_setup) : Z :=
  if alloc_class na1 alg =? TEE_OPERATION_DIGEST then TEE_ALG_GET_DIGEST_SIZE alg
  else su_block_size su.

Definition alloc_ok (na1 : bool) (alg : Z) (su : alg_setup) : bool :=
  let bs := alloc_block_size na1 alg su in
  is_one_of bs [0; 1; 8; 16; 20; 28; 32; 48; 64]
  && implb (is_one_of (alloc_class na1 alg) [TEE_OPERATION_CIPHER; TEE_OPERATION_AE])
       (is_one_of bs [1; 8; 16])
  && implb (alloc_class na1 alg =? TEE_OPERATION_DIGEST) (negb (su_two_blocks su))
  && implb (is_one_of alg nopad_algs) (1 <? bs).

Lemma alloc_setup_ok na1 alg m su :
  check_alg_mode na1 alg m = Some su → alloc_ok na1 alg su = true.
Proof.
  intros E. destruct (check_alg_mode_known _ _ _ _ E) as [Ha Hm].
  assert (forallb (λ alg, forallb (λ m,
    match check_alg_mode na1 alg m with Some su => alloc_ok na1 alg su | None => true end)
    modes) known_algs = true) as H by (destruct na1; vm_compute; reflexivity).
  rewrite forallb_forall in H. apply list_elem_of_In, H in Ha.
  rewrite forallb_forall in Ha. apply list_elem_of_In, Ha in Hm. by rewrite E in Hm.
Qed.

(** What [TEE_AllocateOperation] sets up fits the class of the algorithm:
    the mode is one of the class, the key usage is the one of the mode (raw RSA
    adds the usage of the signature modes), only digests start with their key
    set, and an operation buffers blocks only if it is a cipher or
    authenticated encryption, two 16-byte blocks only for AES-CTS, AES-XTS and
    SM4-XTS. *)
Theorem check_alg_mode_correct na1 alg m su :
  check_alg_mode na1 alg m = Some su →
  m ∈ modes_of_class (TEE_ALG_GET_CLASS alg) ∧
  (alg ≠ TEE_ALG_RSA_NOPAD → su_req_key_usage su = usage_of_mode m) ∧
  (su_key_set su = true ↔ TEE_ALG_GET_CLASS alg = TEE_OPERATION_DIGEST) ∧
  su_block_size su ∈ [1; TEE_DES_BLOCK_SIZE; TEE_AES_BLOCK_SIZE] ∧
  (1 < su_block_size su → TEE_ALG_GET_CLASS alg ∈ [TEE_OPERATION_CIPHER; TEE_OPERATION_AE]) ∧
  (su_two_blocks su = true → su_block_size su = TEE_AES_BLOCK_SIZE ∧
     alg ∈ [TEE_ALG_AES_CTS; TEE_ALG_AES_XTS; TEE_ALG_SM4_XTS]).
Proof.
  intros H%check_alg_mode_ok. unfold setup_ok in H.
  apply andb_true_iff in H as [H H7]. apply andb_true_iff in H as [H H6].
  apply andb_true_iff in H as [H H5]. apply andb_true_iff in H as [H H4].
  apply andb_true_iff in H as [H H3]. apply andb_true_iff in H as [H1 H2].
  apply is_one_of_In in H1, H4. split_and!; [done| | |done| |].
  - intros N. rewrite (proj2 (Z.eqb_neq _ _) N) in H2. by apply Z.eqb_eq.
  - apply eqb_prop in H3. rewrite H3. apply Z.eqb_eq.
  - intros L. apply Z.ltb_lt in L. rewrite L in H5. by apply is_one_of_In.
  - intros L. rewrite L in H6. simpl in H6. apply andb_true_iff in H6 as [H6 Ha].
    apply andb_true_iff in H6 as [Hb _]. split; [by apply Z.eqb_eq|by apply is_one_of_In].
Qed.

Lemma check_alg_mode_correct_witness :
  let su := mk_setup 16 TEE_USAGE_DECRYPT false true false in
  TEE_MODE_DECRYPT ∈ modes_of_class (TEE_ALG_GET_CLASS TEE_ALG_AES_CTS) ∧
  (TEE_ALG_AES_CTS ≠ TEE_ALG_RSA_NOPAD →
     su_req_key_usage su = usage_of_mode TEE_MODE_DECRYPT) ∧
  (su_key_set su = true ↔ TEE_ALG_GET_CLASS TEE_ALG_AES_CTS = TEE_OPERATION_DIGEST) ∧
  su_block_size su ∈ [1; TEE_DES_BLOCK_SIZE; TEE_AES_BLOCK_SIZE] ∧
  (1 < su_block_size su →
     TEE_ALG_GET_CLASS TEE_ALG_AES_CTS ∈ [TEE_OPERATION_CIPHER; TEE_OPERATION_AE]) ∧
  (su_two_blocks su = true → su_block_size su = TEE_AES_BLOCK_SIZE ∧
     TEE_ALG_AES_CTS ∈ [TEE_ALG_AES_CTS; TEE_ALG_AES_XTS; TEE_ALG_SM4_XTS]).
Proof.
  apply (check_alg_mode_correct false TEE_ALG_AES_CTS TEE_MODE_DECRYPT). reflexivity.
Defined.

(** ** Supported algorithms *)

(** An algorithm can be allocated in some mode with some key size. *)
Definition allocatable (na1 : bool) (alg : Z) : bool :=
  existsb (λ m, existsb (λ max, check_max_key_size alg max &&
    match check_alg_mode na1 alg m with Some _ => true | None => false end)
    [192; 224; 256; 384; 512; 521; 2048]) modes.

Lemma allocatable_spec na1 alg :
  allocatable na1 alg = true →
  ∃ m max su, check_max_key_size alg max = true ∧ check_alg_mode na1 alg m = Some su.
Proof.
  unfold allocatable. intros H. apply existsb_exists in H as (m & _ & H).
  apply existsb_exists in H as (max & _ & H). apply andb_true_iff in H as [H1 H2].
  destruct (check_alg_mode na1 alg m) as [su|] eqn:E; [|done]. eauto.
Qed.

(** From a test to the identifiers it may have been made with. *)
Ltac by_cases_on_alg H :=
  split_tests H;
  try (first [apply enabled_for_In in H | apply is_one_of_In in H]);
  repeat (apply elem_of_cons in H as [H|H]); try (by apply elem_of_nil in H);
  subst.

Lemma supported_allocatable c alg el :
  TEE_IsAlgorithmSupported c alg el = TEE_SUCCESS →
  alg ≠ TEE_ALG_MD5SHA1 → alg ≠ TEE_ALG_RSASSA_PKCS1_V1_5_MD5SHA1 →
  allocatable (CFG_CRYPTO_RSASSA_NA1_ c) alg = true.
Proof.
  unfold TEE_IsAlgorithmSupported. intros H N1 N2.
  destruct (supports_aes_des c alg || supports_digest_hmac c alg
            || supports_sm4_rsa_dsa_dh c alg) eqn:E.
  - clear H. split_tests E.
    + unfold supports_aes_des in E.
      by_cases_on_alg E; destruct (CFG_CRYPTO_RSASSA_NA1_ c); vm_compute; reflexivity.
    + unfold supports_digest_hmac in E.
      by_cases_on_alg E; try done;
        destruct (CFG_CRYPTO_RSASSA_NA1_ c); vm_compute; reflexivity.
    + unfold supports_sm4_rsa_dsa_dh in E.
      destruct (decide (alg = TEE_ALG_RSASSA_PKCS1_V1_5)) as [->|N3].
      * assert (CFG_CRYPTO_RSASSA_NA1_ c = true) as ->; [|vm_compute; reflexivity].
        destruct (CFG_CRYPTO_RSASSA_NA1_ c) eqn:N; [done|]. exfalso. split_tests E;
          try (unfold enabled_for in E; simpl in E; discriminate);
          by_cases_on_alg E; vm_compute in E; discriminate.
      * by_cases_on_alg E; try done;
          destruct (CFG_CRYPTO_RSASSA_NA1_ c); vm_compute; reflexivity.
  - destruct (supports_curve c alg el) eqn:S; [|done]. clear H E. unfold supports_curve in S.
    split_tests S;
      repeat match goal with
      | H : is_one_of _ _ = true |- _ => apply is_one_of_In in H
      | H : (_ =? _) = true |- _ => apply Z.eqb_eq in H
      | H : _ && _ = true |- _ => apply andb_true_iff in H as [? H]
      end;
      repeat match goal with
      | H : _ ∈ _ :: _ |- _ => apply elem_of_cons in H as [H|H]
      | H : _ ∈ [] |- _ => by apply elem_of_nil in H
      end; subst;
      destruct (CFG_CRYPTO_RSASSA_NA1_ c); vm_compute; reflexivity.
Qed.

(** An algorithm [TEE_IsAlgorithmSupported] reports as supported, in
    whatever configuration, can be allocated in some mode with some key size,
    but for the two that combine MD5 and SHA-1. *)
Theorem supported_can_be_allocated c alg el :
  TEE_IsAlgorithmSupported c alg el = TEE_SUCCESS →
  alg ≠ TEE_ALG_MD5SHA1 → alg ≠ TEE_ALG_RSASSA_PKCS1_V1_5_MD5SHA1 →
  ∃ m max su, check_max_key_size alg max = true ∧
    check_alg_mode (CFG_CRYPTO_RSASSA_NA1_ c) alg m = Some su.
Proof. intros. by apply allocatable_spec, (supported_allocatable c alg el). Qed.

(** Every option on. *)
Definition all_on : crypto_config :=
  Build_crypto_config true true true true true true true true true true true true
    true true true true true true true true true true true true true true true true
    true true true true true true.

Lemma supported_can_be_allocated_witness :
  ∃ m max su, check_max_key_size TEE_ALG_ECDSA_SHA384 max = true ∧
    check_alg_mode (CFG_CRYPTO_RSASSA_NA1_ all_on) TEE_ALG_ECDSA_SHA384 m = Some su.
Proof.
  apply (supported_can_be_allocated all_on TEE_ALG_ECDSA_SHA384 TEE_ECC_CURVE_NIST_P384);
    [reflexivity|vm_compute; discriminate|vm_compute; discriminate].
Defined.

(** Refutes a test made with an identifier that is not among those tested. *)
Ltac refute_tests H :=
  split_tests H;
  repeat match goal with
  | H : enabled_for _ _ _ = true |- _ => apply enabled_for_In in H
  | H : is_one_of _ _ = true |- _ => apply is_one_of_In in H
  | H : _ && _ = true |- _ => apply andb_true_iff in H as [? H]
  end;
  repeat match goal with
  | H : _ ∈ _ :: _ |- _ => apply elem_of_cons in H as [H|H]; [vm_compute in H; discriminate|]
  | H : _ ∈ [] |- _ => by apply elem_of_nil in H
  | H : (?a =? ?b) = true |- _ => vm_compute in H; discriminate
  end.

Lemma unreported c el alg :
  alg ∈ [TEE_ALG_SHAKE128; TEE_ALG_RSAES_PKCS1_V1_5; TEE_ALG_HKDF_SHA256_DERIVE_KEY] →
  TEE_IsAlgorithmSupported c alg el = TEE_ERROR_NOT_SUPPORTED.
Proof.
  intros Ha. unfold TEE_IsAlgorithmSupported.
  destruct (supports_aes_des c alg || supports_digest_hmac c alg
            || supports_sm4_rsa_dsa_dh c alg) eqn:E; [exfalso|].
  - unfold supports_aes_des, supports_digest_hmac, supports_sm4_rsa_dsa_dh in E.
    repeat (apply elem_of_cons in Ha as [->|Ha]; [clear -E; refute_tests E|]).
    by apply elem_of_nil in Ha.
  - clear E. destruct (supports_curve c alg el) eqn:E; [exfalso|done].
    unfold supports_curve in E.
    repeat (apply elem_of_cons in Ha as [->|Ha]; [clear -E; refute_tests E|]).
    by apply elem_of_nil in Ha.
Qed.

(** the two functions disagree in both directions: with MD5 and SHA-1
    enabled, [TEE_IsAlgorithmSupported] reports [TEE_ALG_MD5SHA1] and its RSA
    signature scheme, which no mode of [TEE_AllocateOperation] accepts, and in
    no configuration does it report SHAKE128, RSAES-PKCS1-v1_5 or HKDF, which
    [TEE_AllocateOperation] accepts. *)
Theorem supported_disagrees :
  TEE_IsAlgorithmSupported all_on TEE_ALG_MD5SHA1 TEE_CRYPTO_ELEMENT_NONE = TEE_SUCCESS ∧
  TEE_IsAlgorithmSupported all_on TEE_ALG_RSASSA_PKCS1_V1_5_MD5SHA1
    TEE_CRYPTO_ELEMENT_NONE = TEE_SUCCESS ∧
  (∀ na1 m, check_alg_mode na1 TEE_ALG_MD5SHA1 m = None ∧
    check_alg_mode na1 TEE_ALG_RSASSA_PKCS1_V1_5_MD5SHA1 m = None) ∧
  (∀ c el, Forall (λ alg, TEE_IsAlgorithmSupported c alg el = TEE_ERROR_NOT_SUPPORTED)
    [TEE_ALG_SHAKE128; TEE_ALG_RSAES_PKCS1_V1_5; TEE_ALG_HKDF_SHA256_DERIVE_KEY]) ∧
  Forall (λ alg, allocatable false alg = true)
    [TEE_ALG_SHAKE128; TEE_ALG_RSAES_PKCS1_V1_5; TEE_ALG_HKDF_SHA256_DERIVE_KEY].
Proof.
  split_and!; [reflexivity|reflexivity| | |].
  - intros na1 m. destruct na1; split; reflexivity.
  - intros c el. apply Forall_forall. intros alg. apply unreported.
  - repeat constructor.
Qed.
