(* ===== verification/UteeCipher.v ===== *)
(** [tee_buffer_update] of libutee: the bytes fed to the core, followed by the
    bytes left in the buffer, are the bytes that were buffered followed by the
    new ones; everything that is fed is a whole number of blocks; no access is
    outside the buffer. Then the cipher functions: how a message is cut into
    calls does not matter, and the output length that [TEE_CipherUpdate] asks for
    is enough for the ciphers that buffer one block, but not for those that
    buffer two. *)
From S2P Require Import Prelude Bytes UteeDefs UteeOps UteeCrypt.

Section Buffer.
Context `{U : Utee}.

(** An operation whose buffer [tee_buffer_update] works on. *)
Record buf_ok (o : operation) (b : bytes) : Prop := {
  bo_block : ∃ k, 1 ≤ k < 32 ∧ block_size o = 2 ^ k;
  bo_buffer : buffer o = Some b;
  bo_size : blen b = buffer_size o;
  bo_offs : 0 ≤ buffer_offs o ≤ buffer_size o;
}.

(** The first bytes of a buffer. *)
Definition first (n : Z) (b : bytes) : bytes := take (Z.to_nat n) b.

(** A sequence of successful calls of [upd], each given the room that is
    left: the chunks, the output, the length reported and the core
    afterwards. *)
Inductive fed (upd : update_func) (st : Z) : Z → kst → list bytes → bytes → Z → kst → Prop :=
| fed_nil dlen k : fed upd st dlen k [] [] 0 k
| fed_cons dlen k c out n k1 cs outs acc k2 :
    upd st c dlen k = (TEE_SUCCESS, out, n, k1) →
    fed upd st (u64 (dlen - n)) k1 cs outs acc k2 →
    fed upd st dlen k (c :: cs) (out ++ outs) (u64 (n + acc)) k2.

(** ** Lists of bytes *)

Lemma blen_app a b : blen (a ++ b) = blen a + blen b.
Proof. unfold blen. rewrite length_app. lia. Qed.

Lemma blen_nonneg b : 0 ≤ blen b.
Proof. unfold blen. lia. Qed.

Lemma blen_first n b : 0 ≤ n ≤ blen b → blen (first n b) = n.
Proof. unfold blen, first. intros H. rewrite length_take. lia. Qed.

Lemma blen_slice b off n : 0 ≤ off → 0 ≤ n → off + n ≤ blen b → blen (slice b off n) = n.
Proof.
  unfold blen, slice. intros. rewrite length_take, length_drop. lia.
Qed.

Lemma blen_drop n b : 0 ≤ n ≤ blen b → blen (drop (Z.to_nat n) b) = blen b - n.
Proof. unfold blen. intros. rewrite length_drop. lia. Qed.

Lemma slice_first b n : slice b 0 n = first n b.
Proof. unfold slice, first. by rewrite drop_0. Qed.

Lemma first_all n b : n = blen b → first n b = b.
Proof. unfold first, blen. intros ->. rewrite Nat2Z.id. by rewrite firstn_all. Qed.

Lemma first_drop n b : first n b ++ drop (Z.to_nat n) b = b.
Proof. apply take_drop. Qed.

Lemma first_0 b : first 0 b = [].
Proof. done. Qed.

Lemma blen_nil_inv b : blen b = 0 → b = [].
Proof. unfold blen. destruct b; [done|simpl; lia]. Qed.

(** A write at [off] extends the first [off] bytes. *)
Lemma write_at_ok buf off data s :
  0 ≤ off → off + blen data ≤ blen buf →
  ∃ buf', write_at buf off data s = Done (buf', s) ∧ blen buf' = blen buf ∧
    first (off + blen data) buf' = first off buf ++ data.
Proof.
  intros H0 H. unfold write_at. rewrite (proj2 (Z.leb_le _ _) H).
  eexists. split; [done|]. unfold first, blen in *. split.
  - rewrite !length_app, length_take, length_drop. lia.
  - rewrite app_assoc, take_app_le; [|rewrite length_app, length_take; lia].
    apply take_ge. rewrite length_app, length_take. lia.
Qed.

Lemma read_at_ok buf off n s :
  0 ≤ off → 0 ≤ n → off + n ≤ blen buf → read_at buf off n s = Done (slice buf off n, s).
Proof. intros. unfold read_at. by rewrite (proj2 (Z.leb_le _ _)). Qed.

(** ** The phases *)

Definition content (f : fill) : bytes := first (f_offs f) (f_buf f) ++ f_src f.

Record fill_ok (o : operation) (f : fill) : Prop := {
  fo_size : blen (f_buf f) = buffer_size o;
  fo_offs : 0 ≤ f_offs f ≤ buffer_size o;
}.

Lemma fill_block_spec o b f s :
  buf_ok o b → fill_ok o f →
  ∃ stop f', fill_block o f s = Done ((stop, f'), s) ∧ fill_ok o f' ∧
    content f' = content f ∧ blen (f_src f') ≤ blen (f_src f) ∧
    (if stop then f_src f' = [] else (block_size o | f_offs f')).
Proof.
  intros [(k & Hk & Eb) _ _ _] [Fs Fo]. unfold fill_block.
  pose proof (pow2_pos k ltac:(lia)). pose proof (blen_nonneg (f_src f)).
  assert (block_size o ≤ buffer_size o ≤ 2 * block_size o) as HB
    by (unfold buffer_size; rewrite Eb; case_match; lia).
  assert (2 ^ k ≤ 2 ^ 31) by (apply Z.pow_le_mono_r; lia).
  destruct (0 <? f_offs f) eqn:E0; breflect.
  2:{ exists false, f. split_and!; [done|done|done|lia|].
      replace (f_offs f) with 0 by lia. apply Z.divide_0_r. }
  rewrite u64_id by lia.
  set (l := if f_offs f <? block_size o then Z.min _ _ else Z.min _ _).
  assert (0 ≤ l ≤ blen (f_src f) ∧ f_offs f + l ≤ buffer_size o ∧
    (l < blen (f_src f) → f_offs f + l = block_size o ∨ f_offs f + l = buffer_size o)) as Hl.
  { subst l. case_match; breflect; lia. }
  assert (blen (slice (f_src f) 0 l) = l) as Bl by (apply blen_slice; lia).
  destruct (write_at_ok (f_buf f) (f_offs f) (slice (f_src f) 0 l) s) as (b' & Ew & Lb & Fb);
    [lia|rewrite Bl, Fs; lia|].
  unfold mbind, M_bind. rewrite Ew. cbn. rewrite Bl in Fb.
  eexists _, _. split; [done|]. split_and!.
  - split; simpl; [by rewrite Lb|lia].
  - unfold content. simpl. rewrite Fb, <- app_assoc. f_equal.
    rewrite slice_first. apply first_drop.
  - simpl. rewrite blen_drop by lia. lia.
  - destruct ((f_offs f + l) mod block_size o =? 0) eqn:Em; breflect; simpl.
    + apply Z.mod_divide; lia.
    + apply blen_nil_inv. rewrite blen_drop by lia.
      enough (¬ l < blen (f_src f)) by lia. intros Hlt. apply Em.
      destruct (proj2 (proj2 Hl) Hlt) as [-> | ->].
      * apply Z_mod_same_full.
      * unfold buffer_size. case_match; [|apply Z_mod_same_full].
        apply Z.mod_divide; [lia|]. exists 2. lia.
Qed.

(** One successful call of [upd] on the chunk [c]. *)
Definition fed_one (upd : update_func) (o : operation) (dlen : Z) (s : ta)
  (c out : bytes) (n : Z) (s' : ta) : Prop :=
  upd (state o) c dlen (kern s) = (TEE_SUCCESS, out, n, kern s') ∧ ops s' = ops s.

(** A call of [upd] on the chunk [c] that fails. *)
Definition refused (upd : update_func) (st : Z) (dlen : Z) (k : kst) (c : bytes) : Prop :=
  ∃ res out n k', upd st c dlen k = (res, out, n, k') ∧ res ≠ TEE_SUCCESS.

Lemma feed_spec upd o c dlen s :
  match feed upd (state o) c dlen s with
  | Done ((out, n), s') => fed_one upd o dlen s c out n s'
  | Panicked _ => refused upd (state o) dlen (kern s) c
  | Undef => False
  end.
Proof.
  unfold feed, sys, mbind, M_bind, fed_one, refused.
  destruct (upd (state o) c dlen (kern s)) as [[[res out] n] k'] eqn:E.
  destruct (res =? TEE_SUCCESS) eqn:R; cbn; breflect; [subst; split; done|].
  exists res, out, n, k'. split; [done|]. by intros ->.
Qed.

(** The core refuses a whole number of blocks from the start of [l]. *)
Definition refused_prefix (upd : update_func) (o : operation) (dlen : Z) (k : kst)
  (l : bytes) : Prop :=
  ∃ c rest, refused upd (state o) dlen k c ∧ c ++ rest = l ∧ (block_size o | blen c).

Definition two (o : operation) : Prop := buffer_two_blocks o = true.

(** Moving the rest of the buffer to its front and appending the source. *)
Lemma shift_ok o f l s :
  fill_ok o f → 0 ≤ l ≤ f_offs f → f_offs f - l + blen (f_src f) ≤ buffer_size o →
  ∃ tl b1 b2,
    read_at (f_buf f) l (buffer_size o - l) s = Done (tl, s) ∧
    write_at (f_buf f) 0 tl s = Done (b1, s) ∧
    write_at b1 (f_offs f - l) (f_src f) s = Done (b2, s) ∧
    blen b2 = buffer_size o ∧
    first l (f_buf f) ++ first (f_offs f - l + blen (f_src f)) b2 = content f.
Proof.
  intros [Fs Fo] Hl Hr. pose proof (blen_nonneg (f_src f)).
  assert (blen (slice (f_buf f) l (buffer_size o - l)) = buffer_size o - l) as Bt
    by (apply blen_slice; lia).
  destruct (write_at_ok (f_buf f) 0 (slice (f_buf f) l (buffer_size o - l)) s)
    as (b1 & E1 & L1 & F1); [lia|lia|].
  destruct (write_at_ok b1 (f_offs f - l) (f_src f) s) as (b2 & E2 & L2 & F2); [lia|lia|].
  exists (slice (f_buf f) l (buffer_size o - l)), b1, b2.
  split_and!; [apply read_at_ok; lia|done|done|lia|].
  rewrite F2, app_assoc. unfold content. f_equal.
  rewrite Bt in F1. rewrite first_0 in F1. simpl in F1.
  assert (first (f_offs f - l) b1 = slice (f_buf f) l (f_offs f - l)) as ->.
  { transitivity (first (f_offs f - l) (first (0 + (buffer_size o - l)) b1)).
    - unfold first. rewrite take_take. f_equal. lia.
    - rewrite F1. unfold first, slice. rewrite take_take. f_equal. lia. }
  unfold first, slice.
  replace (Z.to_nat (f_offs f)) with (Z.to_nat l + Z.to_nat (f_offs f - l))%nat by lia.
  apply take_take_drop.
Qed.

Lemma feed_buffer_spec upd o b f dlen s :
  buf_ok o b → fill_ok o f → (block_size o | f_offs f) → blen (f_src f) < 2 ^ 63 →
  match feed_buffer upd o f dlen s with
  | Done ((stop, f', out, n), s') =>
    (stop = false ∧ f' = f ∧ out = [] ∧ n = 0 ∧ s' = s ∧
     (f_offs f = 0 ∨ f_offs f + blen (f_src f) < buffer_size o + buffer_left o)) ∨
    (∃ c, fed_one upd o dlen s c out n s' ∧ fill_ok o f' ∧
       c ++ content f' = content f ∧ (block_size o | blen c) ∧
       if stop : bool then f_src f' = [] ∧ (two o → block_size o < f_offs f')
       else f_offs f' = 0 ∧ (two o → block_size o < blen (f_src f')))
  | Panicked _ => refused_prefix upd o dlen (kern s) (content f)
  | Undef => False
  end.
Proof.
  intros [(k & Hk & Eb) _ _ _] Fo' Hd Hs. pose proof Fo' as [Fs Fo].
  pose proof (blen_nonneg (f_src f)). pose proof (pow2_pos k ltac:(lia)).
  assert (2 ^ k ≤ 2 ^ 31) by (apply Z.pow_le_mono_r; lia).
  assert (buffer_size o = block_size o ∧ buffer_left o = 0 ∧ ¬ two o ∨
          buffer_size o = block_size o * 2 ∧ buffer_left o = 1 ∧ two o) as HB.
  { unfold buffer_size, buffer_left, two. destruct (buffer_two_blocks o); [right|left]; auto. }
  unfold feed_buffer.
  set (slen := blen (f_src f)) in *.
  rewrite (u64_id (f_offs f + slen)) by lia.
  destruct (0 <? f_offs f) eqn:E0; breflect; simpl.
  2:{ left. split_and!; try done. left. lia. }
  destruct (buffer_size o + buffer_left o <=? f_offs f + slen) eqn:E1; breflect.
  2:{ left. split_and!; try done. by right. }
  rewrite u64_id by lia. rewrite Eb.
  destruct (ROUNDUP_bounds (f_offs f + slen - buffer_size o) k) as [HR DR]; [lia..|].
  rewrite Eb in *. set (r := ROUNDUP (f_offs f + slen - buffer_size o) (2 ^ k)) in *.
  set (l := Z.min (f_offs f) r).
  assert ((2 ^ k | l) ∧ 0 ≤ l ≤ f_offs f) as [Dl Hl].
  { subst l. split; [|lia]. destruct (Z.min_spec (f_offs f) r) as [[_ ->]|[_ ->]]; done. }
  unfold mbind, M_bind. rewrite read_at_ok by lia. cbn.
  pose proof (feed_spec upd o (slice (f_buf f) 0 l) dlen s) as HF.
  rewrite slice_first in *.
  assert ((2 ^ k | blen (first l (f_buf f)))) as Dc by (rewrite blen_first by lia; done).
  destruct (feed upd (state o) (first l (f_buf f)) dlen s) as [[[out n] s1]|c|]; [| |done].
  2:{ exists (first l (f_buf f)), (slice (f_buf f) l (f_offs f - l) ++ f_src f).
      split_and!; [done| |by rewrite Eb]. rewrite app_assoc. unfold content. f_equal.
      unfold first, slice. rewrite take_take_drop. f_equal. lia. }
  destruct (0 <? f_offs f - l) eqn:E2; breflect.
  - (* something stays in the buffer *)
    assert (l = r) as El by (subst l; lia).
    destruct (shift_ok o f l s1) as (tl & b1 & b2 & R1 & W1 & W2 & L2 & C2); [done|lia|lia|].
    rewrite R1, W1, W2. cbn. rewrite u64_id by lia. right.
    exists (first l (f_buf f)). split_and!; [done|split; simpl; lia| |done|done|].
    + rewrite <- C2. unfold content. simpl. by rewrite app_nil_r.
    + simpl. intros Ht. destruct HB as [(_ & _ & Hn)|(HB1 & HB2 & _)]; [done|].
      assert (2 ^ k ≤ f_offs f - l); [|lia].
      apply (divide_le (2 ^ k)); [lia|apply Z.divide_refl|by apply Z.divide_sub_r|lia].
  - (* the buffer is drained *)
    assert (l = f_offs f) as El by lia. right.
    exists (first l (f_buf f)). split_and!; [done|split; simpl; lia| |done|simpl; lia|].
    + unfold content. simpl. replace (f_offs f - l) with 0 by lia. by rewrite El.
    + simpl. intros Ht. destruct HB as [(_ & _ & Hn)|(HB1 & HB2 & _)]; [done|]. lia.
Qed.

Lemma feed_source_spec upd o b f dlen s :
  buf_ok o b → fill_ok o f → blen (f_src f) < 2 ^ 63 →
  f_offs f = 0 ∨ blen (f_src f) < buffer_size o + buffer_left o →
  match feed_source upd o f dlen s with
  | Done ((f', out, n), s') =>
    (f' = f ∧ out = [] ∧ n = 0 ∧ s' = s ∧ blen (f_src f) < buffer_size o + buffer_left o) ∨
    (∃ c, fed_one upd o dlen s c out n s' ∧ fill_ok o f' ∧ f_offs f' = 0 ∧
       c ++ content f' = content f ∧ (block_size o | blen c) ∧
       blen (f_src f') ≤ buffer_size o ∧
       (two o → block_size o ≤ blen (f_src f') ∧
          (algorithm (info o) = TEE_ALG_AES_CTS → block_size o < blen (f_src f'))))
  | Panicked _ => refused_prefix upd o dlen (kern s) (content f)
  | Undef => False
  end.
Proof.
  intros [(k & Hk & Eb) _ _ _] Fo' Hs H0. pose proof Fo' as [Fs Fo].
  pose proof (blen_nonneg (f_src f)). pose proof (pow2_pos k ltac:(lia)).
  assert (2 ^ k ≤ 2 ^ 31) by (apply Z.pow_le_mono_r; lia).
  assert (buffer_size o = block_size o ∧ buffer_left o = 0 ∧ ¬ two o ∨
          buffer_size o = block_size o * 2 ∧ buffer_left o = 1 ∧ two o) as HB.
  { unfold buffer_size, buffer_left, two. destruct (buffer_two_blocks o); [right|left]; auto. }
  unfold feed_source. set (slen := blen (f_src f)) in *.
  destruct (buffer_size o + buffer_left o <=? slen) eqn:E1; breflect.
  2:{ left. split_and!; done || lia. }
  destruct H0 as [H0|H0]; [|lia]. rewrite u64_id by lia. rewrite Eb in *.
  destruct (ROUNDUP_bounds (slen - buffer_size o) k) as [HR1 DR1]; [lia..|].
  destruct (ROUNDUP_bounds (slen - buffer_size o + 1) k) as [HR2 DR2]; [lia..|].
  set (l := if algorithm (info o) =? TEE_ALG_AES_CTS then _ else _).
  assert ((2 ^ k | l) ∧ 0 ≤ l ≤ slen ∧ slen - l ≤ buffer_size o ∧
    (two o → 2 ^ k ≤ slen - l ∧ (algorithm (info o) = TEE_ALG_AES_CTS → 2 ^ k < slen - l)))
    as (Dl & Hl & Hr & Ht).
  { subst l. destruct (algorithm (info o) =? TEE_ALG_AES_CTS) eqn:A; breflect;
      (split_and!; [done|lia|lia|lia|]);
      intros Ht; (destruct HB as [(_ & _ & Hn)|(HB1 & HB2 & _)]; [done|]);
      (split; [lia|]); intros; [lia|congruence]. }
  unfold read_bytes. fold slen. rewrite (proj2 (Z.leb_le l slen)) by lia.
  unfold mbind, M_bind. cbn.
  pose proof (feed_spec upd o (slice (f_src f) 0 l) dlen s) as HF.
  rewrite slice_first in *.
  destruct (feed upd (state o) (first l (f_src f)) dlen s) as [[[out n] s1]|c|]; [| |done].
  2:{ exists (first l (f_src f)), (drop (Z.to_nat l) (f_src f)).
      split_and!; [done| |rewrite Eb; by rewrite blen_first by lia].
      unfold content. rewrite H0, first_0. apply first_drop. }
  cbn. right.
  assert (blen (drop (Z.to_nat l) (f_src f)) = slen - l) as Bd by (apply blen_drop; lia).
  exists (first l (f_src f)). split_and!; [done|split; simpl; lia|done| | | |].
  - unfold content. simpl. rewrite H0, !first_0. apply first_drop.
  - by rewrite blen_first by lia.
  - simpl. by rewrite Bd.
  - simpl. by rewrite Bd.
Qed.

Lemma keep_rest_spec o f s :
  fill_ok o f → f_offs f + blen (f_src f) ≤ buffer_size o → buffer_size o < 2 ^ 63 →
  ∃ f', keep_rest f s = Done (f', s) ∧ fill_ok o f' ∧ content f' = content f ∧
    f_src f' = [] ∧ f_offs f' = f_offs f + blen (f_src f).
Proof.
  intros [Fs Fo] Hr HB. pose proof (blen_nonneg (f_src f)). unfold keep_rest.
  destruct (write_at_ok (f_buf f) (f_offs f) (f_src f) s) as (b' & E & L & F); [lia|lia|].
  unfold mbind, M_bind. rewrite E. cbn. rewrite u64_id by lia.
  eexists. split; [done|]. split_and!; [split; simpl; lia| |done|done].
  unfold content. simpl. by rewrite F, app_nil_r.
Qed.

(** What [tee_buffer_update] does to the operation [o] with buffer [b] when it
    is given [src]: the chunks fed and the operation afterwards. *)
Definition update_post (upd : update_func) (o : operation) (b src : bytes) (dlen : Z)
  (k : kst) (out : bytes) (acc : Z) (o' : operation) (k' : kst) : Prop :=
  ∃ chunks b', fed upd (state o) dlen k chunks out acc k' ∧
    o' = set_buffer o (Some b') (buffer_offs o') ∧ buf_ok o' b' ∧
    concat chunks ++ first (buffer_offs o') b' = first (buffer_offs o) b ++ src ∧
    Forall (λ c, (block_size o | blen c)) chunks ∧ (length chunks ≤ 2)%nat ∧
    (two o → chunks ≠ [] → block_size o ≤ buffer_offs o' ∧
       (algorithm (info o) = TEE_ALG_AES_CTS → block_size o < buffer_offs o')).

Lemma fed_single upd o dlen s c out n s' :
  fed_one upd o dlen s c out n s' →
  fed upd (state o) dlen (kern s) [c] out (u64 n) (kern s').
Proof.
  intros [E _]. rewrite <- (app_nil_r out). replace (u64 n) with (u64 (n + 0)) by (f_equal; lia).
  econstructor; [done|constructor].
Qed.

Lemma fed_double upd o dlen s c1 out1 n1 s1 c2 out2 n2 s2 :
  fed_one upd o dlen s c1 out1 n1 s1 →
  fed_one upd o (u64 (dlen - n1)) s1 c2 out2 n2 s2 →
  fed upd (state o) dlen (kern s) [c1; c2] (out1 ++ out2) (u64 (n1 + n2)) (kern s2).
Proof.
  intros [E1 _] H2. pose proof (fed_single _ _ _ _ _ _ _ _ H2) as F2.
  replace (u64 (n1 + n2)) with (u64 (n1 + u64 n2)).
  - econstructor; [done|]. done.
  - unfold u64. apply Z.add_mod_idemp_r. lia.
Qed.

Lemma buf_ok_done o b f :
  buf_ok o b → fill_ok o f → buf_ok (set_buffer o (Some (f_buf f)) (f_offs f)) (f_buf f).
Proof. intros [H1 _ _ _] [H2 H3]. by split. Qed.

Definition run_post (upd : update_func) (o : operation) (f : fill) (dlen : Z) (s : ta)
  (f' : fill) (out : bytes) (acc : Z) (s' : ta) : Prop :=
  ∃ chunks, fed upd (state o) dlen (kern s) chunks out acc (kern s') ∧ ops s' = ops s ∧
    fill_ok o f' ∧ f_src f' = [] ∧ concat chunks ++ content f' = content f ∧
    Forall (λ c, (block_size o | blen c)) chunks ∧ (length chunks ≤ 2)%nat ∧
    (two o → chunks ≠ [] → block_size o ≤ f_offs f' ∧
       (algorithm (info o) = TEE_ALG_AES_CTS → block_size o < f_offs f')).

(** A call of the core reports a length that fits a [uint64_t]. *)
Definition reports_u64 (upd : update_func) : Prop :=
  ∀ st c dlen k res out n k', upd st c dlen k = (res, out, n, k') → 0 ≤ n < 2 ^ 64.

(** The core refuses a chunk after the chunks [cs]. *)
Definition run_refused (upd : update_func) (o : operation) (dlen : Z) (k : kst)
  (l : bytes) : Prop :=
  ∃ cs out acc k' rest, fed upd (state o) dlen k cs out acc k' ∧
    concat cs ++ rest = l ∧ Forall (λ c, (block_size o | blen c)) cs ∧
    refused_prefix upd o (u64 (dlen - acc)) k' rest.

Lemma run_refused_first upd o dlen k l :
  0 ≤ dlen < 2 ^ 64 → refused_prefix upd o dlen k l → run_refused upd o dlen k l.
Proof.
  intros Hd R. exists [], [], 0, k, l. split; [constructor|]. split; [done|].
  split; [constructor|]. by rewrite Z.sub_0_r, u64_id.
Qed.

Lemma u64_sub_u64 x n : u64 (x - u64 n) = u64 (x - n).
Proof. unfold u64. rewrite Zminus_mod_idemp_r. done. Qed.

Lemma run_refused_second upd o dlen s c out n s' l rest :
  fed_one upd o dlen s c out n s' → c ++ rest = l → (block_size o | blen c) →
  refused_prefix upd o (u64 (dlen - n)) (kern s') rest →
  run_refused upd o dlen (kern s) l.
Proof.
  intros F E D R. exists [c], out, (u64 n), (kern s'), rest.
  split; [by apply fed_single|]. split; [simpl; by rewrite app_nil_r|].
  split; [by repeat constructor|]. by rewrite u64_sub_u64.
Qed.

Lemma run_post_nil upd o f dlen s f' :
  fill_ok o f' → f_src f' = [] → content f' = content f →
  run_post upd o f dlen s f' [] 0 s.
Proof.
  intros F E C. exists []. split; [constructor|]. split; [done|]. split; [done|].
  split; [done|]. split; [exact C|]. split; [constructor|]. split; [simpl; lia|].
  intros _ N. by destruct N.
Qed.

Lemma run_post_one upd o f dlen s c out n s' f' :
  fed_one upd o dlen s c out n s' → fill_ok o f' → f_src f' = [] →
  c ++ content f' = content f → (block_size o | blen c) →
  (two o → block_size o ≤ f_offs f' ∧
     (algorithm (info o) = TEE_ALG_AES_CTS → block_size o < f_offs f')) →
  run_post upd o f dlen s f' out (u64 n) s'.
Proof.
  intros F Fo E C D T. exists [c]. split; [by apply fed_single|]. split; [apply F|].
  split; [done|]. split; [done|]. split; [simpl; by rewrite app_nil_r|].
  split; [by repeat constructor|]. split; [simpl; lia|]. auto.
Qed.

(** A chunk that drains the buffer is as long as what was buffered. *)
Lemma drained_src o f1 f2 c :
  fill_ok o f1 → f_offs f2 = 0 → c ++ content f2 = content f1 →
  blen (f_src f2) ≤ f_offs f1 + blen (f_src f1).
Proof.
  intros [F1 F2] O C. apply (f_equal blen) in C. unfold content in C.
  rewrite !blen_app, O in C. change (blen (first 0 (f_buf f2))) with 0 in C.
  rewrite blen_first in C by lia. pose proof (blen_nonneg c). lia.
Qed.

Lemma run_update_spec upd o b f dlen s :
  buf_ok o b → fill_ok o f → blen (f_src f) < 2 ^ 62 → 0 ≤ dlen < 2 ^ 64 →
  match run_update upd o f dlen s with
  | Done ((f', out, acc), s') => run_post upd o f dlen s f' out acc s'
  | Panicked _ => run_refused upd o dlen (kern s) (content f)
  | Undef => False
  end.
Proof.
  intros B Fo Hs Hd. unfold run_update, mbind, M_bind.
  assert (buffer_size o < 2 ^ 62 ∧ buffer_left o ≤ 1 ∧ 0 < buffer_size o) as (HB & HL & Hp).
  { destruct (bo_block _ _ B) as (k & Hk & Eb). unfold buffer_size, buffer_left.
    pose proof (pow2_pos k ltac:(lia)).
    assert (2 ^ k ≤ 2 ^ 31) by (apply Z.pow_le_mono_r; lia). case_match; lia. }
  destruct (fill_block_spec o b f s B Fo) as (stop & f1 & -> & Fo1 & C1 & L1 & S1).
  pose proof (fo_offs _ _ Fo1) as O1.
  destruct stop; cbn; [by apply run_post_nil|].
  pose proof (feed_buffer_spec upd o b f1 dlen s B Fo1 S1 ltac:(lia)) as H2.
  destruct (feed_buffer upd o f1 dlen s) as [[[[[stop f2] out1] n1] s2]|c|]; [| |done].
  2:{ apply run_refused_first; [done|]. by rewrite <- C1. }
  destruct H2 as [(-> & -> & -> & -> & -> & H2)|(c & F2 & Fo2 & C2 & D2 & H2)].
  - (* nothing fed from the buffer *)
    rewrite Z.sub_0_r, (u64_id dlen) by lia.
    assert (f_offs f1 = 0 ∨ blen (f_src f1) < buffer_size o + buffer_left o) as H2'
      by (destruct H2; [by left|right; lia]).
    pose proof (feed_source_spec upd o b f1 dlen s B Fo1 ltac:(lia) H2') as H3.
    destruct (feed_source upd o f1 dlen s) as [[[[f3 out2] n2] s3]|c|]; [| |done].
    2:{ apply run_refused_first; [done|]. by rewrite <- C1. }
    destruct H3 as [(-> & -> & -> & -> & H3)|(c & F3 & Fo3 & O3 & C3 & D3 & R3 & T3)].
    + destruct (keep_rest_spec o f1 s Fo1) as (f4 & -> & Fo4 & C4 & N4 & _);
        [destruct H2; lia|lia|]. cbn. apply run_post_nil; [done|done|congruence].
    + destruct (keep_rest_spec o f3 s3 Fo3) as (f4 & -> & Fo4 & C4 & N4 & O4);
        [lia|lia|]. cbn. rewrite O3 in O4.
      apply (run_post_one _ _ _ _ _ c); try done; [congruence|].
      by rewrite O4.
  - destruct stop; cbn.
    + destruct H2 as [N2 T2].
      apply (run_post_one _ _ _ _ _ c); try done; [congruence|].
      intros Ht. specialize (T2 Ht). split; [lia|done].
    + (* the buffer is drained *)
      destruct H2 as [O2 T2]. pose proof (drained_src _ _ _ _ Fo1 O2 C2) as L2.
      pose proof (feed_source_spec upd o b f2 (u64 (dlen - n1)) s2 B Fo2 ltac:(lia)
                    (or_introl O2)) as H3.
      destruct (feed_source upd o f2 (u64 (dlen - n1)) s2) as [[[[f3 out2] n2] s3]|c3|];
        [| |done].
      2:{ eapply run_refused_second; [done|by rewrite C2|done|done]. }
      destruct H3 as [(-> & -> & -> & -> & H3)|(c3 & F3 & Fo3 & O3 & C3 & D3 & R3 & T3)].
      * destruct (keep_rest_spec o f2 s2 Fo2) as (f4 & -> & Fo4 & C4 & N4 & O4);
          [lia|lia|]. cbn. rewrite app_nil_r, Z.add_0_r.
        apply (run_post_one _ _ _ _ _ c); try done; [congruence|].
        intros Ht. specialize (T2 Ht). split; lia.
      * destruct (keep_rest_spec o f3 s3 Fo3) as (f4 & -> & Fo4 & C4 & N4 & O4);
          [lia|lia|]. cbn. rewrite O3 in O4. exists [c; c3].
        split; [by eapply fed_double|].
        split; [destruct F2 as [_ F2], F3 as [_ F3]; congruence|].
        split; [done|]. split; [done|].
        split; [simpl; rewrite app_nil_r, C4, <- app_assoc, C3; congruence|].
        split; [by repeat constructor|]. split; [simpl; lia|].
        intros Ht _. rewrite O4. by apply T3.
Qed.

(** One call of [tee_buffer_update] on a handle. *)
Lemma tee_buffer_update_spec op upd o b d n dlen s :
  ops s !! op = Some o → buf_ok o b → 0 ≤ n ≤ blen d → n < 2 ^ 62 → 0 ≤ dlen < 2 ^ 64 →
  match tee_buffer_update op upd (Some d) n dlen s with
  | Done ((out, acc), s') =>
    ∃ o', ops s' = <[op:=o']> (ops s) ∧
      update_post upd o b (first n d) dlen (kern s) out acc o' (kern s')
  | Panicked _ => run_refused upd o dlen (kern s) (first (buffer_offs o) b ++ first n d)
  | Undef => False
  end.
Proof.
  intros Ho B Hn Hlt Hd. unfold tee_buffer_update, mbind, M_bind, get_op.
  rewrite Ho. unfold read_bytes. rewrite (proj2 (Z.leb_le n _)) by lia.
  unfold the_buffer. rewrite (bo_buffer _ _ B). cbn.
  pose proof B as [_ _ Bs Bo]. rewrite slice_first.
  set (f := mk_fill b (buffer_offs o) (first n d)).
  pose proof (run_update_spec upd o b f dlen s B) as H.
  destruct (run_update upd o f dlen s) as [[[[f' out] acc] s']|c|];
    [|apply H; [by split|simpl; rewrite blen_first by lia; lia|done]|apply H; [by split|simpl; rewrite blen_first by lia; lia|done]].
  destruct H as (cs & F & Os & Fo & N & C & D & L & T);
    [by split|simpl; rewrite blen_first by lia; lia|done|].
  rewrite Os, Ho. cbn. exists (set_buffer o (Some (f_buf f')) (f_offs f')).
  split; [rewrite Os; reflexivity|]. exists cs, (f_buf f'). split_and!; try done.
  - by apply (buf_ok_done _ b).
  - unfold content in C. rewrite N, app_nil_r in C. exact C.
Qed.
End Buffer.

Section Cipher.
Context `{U : Utee}.

(** A sequence of successful calls of [upd], whatever room each was given. *)
Inductive core_fed (upd : update_func) (st : Z) : kst → list bytes → bytes → kst → Prop :=
| core_fed_nil k : core_fed upd st k [] [] k
| core_fed_cons k c dlen out n k1 cs outs k2 :
    upd st c dlen k = (TEE_SUCCESS, out, n, k1) → core_fed upd st k1 cs outs k2 →
    core_fed upd st k (c :: cs) (out ++ outs) k2.

Lemma fed_core upd st dlen k cs out acc k' :
  fed upd st dlen k cs out acc k' → core_fed upd st k cs out k'.
Proof. induction 1; [constructor|econstructor; eauto]. Qed.

Lemma core_fed_app upd st k cs1 out1 k1 cs2 out2 k2 :
  core_fed upd st k cs1 out1 k1 → core_fed upd st k1 cs2 out2 k2 →
  core_fed upd st k (cs1 ++ cs2) (out1 ++ out2) k2.
Proof.
  induction 1 as [|k c dlen out n k1 cs outs k2' E F IH]; intros H; [done|].
  simpl. rewrite <- app_assoc. econstructor; eauto.
Qed.

Lemma out_done {A} ok (r r' : Z * A) s s' : out ok r s = Done (r', s') → r' = r ∧ s' = s.
Proof. unfold out. case_match; [|done]. intros E. by injection E as <- <-. Qed.

Lemma out_ok {A} ok (r : Z * A) s :
  existsb (Z.eqb r.1) ok = true → out ok r s = Done (r, s).
Proof. unfold out. by intros ->. Qed.

(** The cipher can be updated through [op]. *)
Record cipher_at (op : Z) (s : ta) (o : operation) (b : bytes) : Prop := {
  ca_op : ops s !! op = Some o;
  ca_nonnull : op ≠ 0;
  ca_ready : ready o TEE_OPERATION_CIPHER = true;
  ca_buf : buf_ok o b;
}.

Lemma buf_ok_gt o b : buf_ok o b → 1 < block_size o < 2 ^ 32.
Proof.
  intros [(k & Hk & ->) _ _ _]. split.
  - apply (Z.lt_le_trans _ (2 ^ 1)); [lia|]. apply Z.pow_le_mono_r; lia.
  - apply Z.pow_lt_mono_r; lia.
Qed.

#[local] Arguments tee_buffer_update : simpl never.

(** [TEE_CipherUpdate] on such a cipher. *)
Lemma cipher_update_eq op s o b d n dl :
  cipher_at op s o b →
  TEE_CipherUpdate op (Some d) n dl s =
  if dl <? cipher_req_dlen o n
  then Done (no_output TEE_ERROR_SHORT_BUFFER (cipher_req_dlen o n), s)
  else match tee_buffer_update op cipher_update (Some d) n dl s with
       | Done ((out, acc), s') => Done ((TEE_SUCCESS, (out, acc)), s')
       | Panicked c => Panicked c
       | Undef => Undef
       end.
Proof.
  intros [Ho Hn Hr Hb]. pose proof (buf_ok_gt _ _ Hb).
  unfold TEE_CipherUpdate. rewrite (proj2 (Z.eqb_neq op 0) Hn). simpl.
  unfold mbind, M_bind, get_op. rewrite Ho, Hr. simpl.
  destruct (dl <? cipher_req_dlen o n); [by apply out_ok|].
  rewrite (proj2 (Z.ltb_lt 1 (block_size o))) by lia.
  destruct (tee_buffer_update op cipher_update (Some d) n dl s) as [[[dest acc] s']|c|];
    [by apply out_ok|done|done].
Qed.

Lemma cipher_update_done op s o b d n dl out acc s' :
  cipher_at op s o b → 0 ≤ n ≤ blen d → n < 2 ^ 62 → 0 ≤ dl < 2 ^ 64 →
  TEE_CipherUpdate op (Some d) n dl s = Done ((TEE_SUCCESS, (out, acc)), s') →
  ∃ o' b', cipher_at op s' o' b' ∧ ops s' = <[op:=o']> (ops s) ∧
    state o' = state o ∧ block_size o' = block_size o ∧
    ∃ cs, core_fed cipher_update (state o) (kern s) cs out (kern s') ∧
      concat cs ++ first (buffer_offs o') b' = first (buffer_offs o) b ++ first n d ∧
      Forall (λ c, (block_size o | blen c)) cs.
Proof.
  intros C Hn Hlt Hd. pose proof C as [Ho Hnn Hr Hb].
  rewrite (cipher_update_eq op s o b d n dl C).
  case_match; [done|].
  pose proof (tee_buffer_update_spec op cipher_update o b d n dl s Ho Hb Hn Hlt Hd) as H1.
  destruct (tee_buffer_update op cipher_update (Some d) n dl s) as [[[out' acc'] s1]|c|];
    [|done|done].
  intros E. injection E as -> -> ->.
  destruct H1 as (o' & Os & cs & b' & F & Eo & Bo & Cc & D & _ & _).
  exists o', b'. rewrite Eo in *. simpl in *. split_and!; try done.
  - split; [by rewrite Os, lookup_insert_eq|done|done|done].
  - exists cs. split_and!; [by eapply fed_core|done|done].
Qed.

(** Updates with the pieces [ups], each given its own room; [None] when one
    of them does not succeed. *)
Fixpoint cipher_updates (op : Z) (ups : list (bytes * Z)) : M (option bytes) :=
  match ups with
  | [] => mret (Some [])
  | (d, dl) :: ups' =>
    '(res, (out, _)) ← TEE_CipherUpdate op (Some d) (blen d) dl;
    if res =? TEE_SUCCESS then
      r ← cipher_updates op ups';
      mret (option_map (app out) r)
    else mret None
  end.

Definition ups_ok (ups : list (bytes * Z)) : Prop :=
  Forall (λ u, blen u.1 < 2 ^ 62 ∧ 0 ≤ u.2 < 2 ^ 64) ups.

Lemma cipher_updates_done op ups : ∀ s o b outs s',
  cipher_at op s o b → ups_ok ups →
  cipher_updates op ups s = Done (Some outs, s') →
  ∃ o' b', cipher_at op s' o' b' ∧ state o' = state o ∧ block_size o' = block_size o ∧
    ∃ cs, core_fed cipher_update (state o) (kern s) cs outs (kern s') ∧
      concat cs ++ first (buffer_offs o') b' =
      first (buffer_offs o) b ++ concat (map fst ups) ∧
      Forall (λ c, (block_size o | blen c)) cs.
Proof.
  induction ups as [|[d dl] ups IH]; simpl; intros s o b outs s' C Hu E.
  - injection E as <- <-. exists o, b. split_and!; try done.
    exists []. split_and!; [constructor|by rewrite app_nil_r|constructor].
  - apply Forall_cons in Hu as [[Hd Hl] Hu]. simpl in *.
    unfold mbind, M_bind in E.
    destruct (TEE_CipherUpdate op (Some d) (blen d) dl s) as [[[res [out n]] s1]|c|] eqn:E1;
      [|done|done].
    destruct (res =? TEE_SUCCESS) eqn:R; breflect; [subst res|done].
    destruct (cipher_updates op ups s1) as [[[outs'|] s2]|c|] eqn:E2; try done.
    injection E as <- <-.
    apply (cipher_update_done op s o b d (blen d) dl out n s1 C) in E1
      as (o1 & b1 & C1 & _ & St & Bs & cs1 & F1 & Cc1 & D1);
      [|pose proof (blen_nonneg d); lia|done|done].
    destruct (IH _ _ _ _ _ C1 Hu E2) as (o2 & b2 & C2 & St2 & Bs2 & cs2 & F2 & Cc2 & D2).
    exists o2, b2. split_and!; [done|congruence|congruence|].
    exists (cs1 ++ cs2). rewrite St, Bs in *. split_and!.
    + by eapply core_fed_app.
    + rewrite concat_app, <- app_assoc, Cc2, !app_assoc, Cc1.
      by rewrite (first_all (blen d) d).
    + by apply Forall_app.
Qed.

(** ** [TEE_CipherDoFinal] *)

Lemma final_input_buffered o b d n s :
  buf_ok o b → final_input o d n s = Done (first (buffer_offs o) b, s).
Proof.
  intros Hb. pose proof (buf_ok_gt _ _ Hb) as Hgt. destruct Hb as [_ Eb Sb Ob].
  unfold final_input. rewrite (proj2 (Z.ltb_lt 1 _)) by lia.
  unfold mbind, M_bind, the_buffer. rewrite Eb. cbn.
  rewrite read_at_ok by lia. by rewrite slice_first.
Qed.

(** The update that [TEE_CipherDoFinal] makes when there is input. *)
Lemma final_feed_done op s o b d n dl out acc s1 :
  cipher_at op s o b → 0 ≤ n ≤ blen d → n < 2 ^ 62 → 0 ≤ dl < 2 ^ 64 →
  (if (1 <? block_size o) && negb (n =? 0)
   then tee_buffer_update op cipher_update (Some d) n dl else mret ([], 0)) s
    = Done ((out, acc), s1) →
  ∃ o' b', cipher_at op s1 o' b' ∧ state o' = state o ∧
    ∃ cs, core_fed cipher_update (state o) (kern s) cs out (kern s1) ∧
      concat cs ++ first (buffer_offs o') b' = first (buffer_offs o) b ++ first n d ∧
      Forall (λ c, (block_size o | blen c)) cs.
Proof.
  intros C Hn Hlt Hd. pose proof C as [Ho Hnn Hr Hb].
  rewrite (proj2 (Z.ltb_lt 1 _)) by (apply buf_ok_gt in Hb; lia). simpl.
  destruct (n =? 0) eqn:E0; breflect; cbn -[first].
  - intros E. injection E as <- <- <-. exists o, b. split_and!; [done|done|].
    exists []. rewrite E0, first_0, app_nil_r. split_and!; [constructor|done|constructor].
  - intros E.
    pose proof (tee_buffer_update_spec op cipher_update o b d n dl s Ho Hb Hn Hlt Hd) as H1.
    rewrite E in H1.
    destruct H1 as (o' & Os & cs & b' & F & Eo & Bo & Cc & D & _ & _).
    exists o', b'. rewrite Eo in *. split_and!; [|done|].
    + split; [by rewrite Os, lookup_insert_eq|done|done|done].
    + exists cs. split_and!; [by eapply fed_core|done|done].
Qed.

(** A successful [TEE_CipherDoFinal]: what is buffered and the last piece go
    to the core, the rest of it to the final call. *)
Lemma cipher_final_done op s o b d n dl out len s' :
  cipher_at op s o b → 0 ≤ n ≤ blen d → n < 2 ^ 62 → 0 ≤ dl < 2 ^ 64 →
  TEE_CipherDoFinal op (Some d) n (Some dl) s = Done ((TEE_SUCCESS, (out, len)), s') →
  ∃ cs outs k1 last dl' fin m,
    core_fed cipher_update (state o) (kern s) cs outs k1 ∧
    cipher_final (state o) last dl' k1 = (TEE_SUCCESS, fin, m, kern s') ∧
    out = outs ++ fin ∧ concat cs ++ last = first (buffer_offs o) b ++ first n d ∧
    Forall (λ c, (block_size o | blen c)) cs ∧
    ∃ o', ops s' !! op = Some o' ∧ operationState o' = TEE_OPERATION_STATE_INITIAL ∧
      op_flag o' TEE_HANDLE_FLAG_INITIALIZED = false.
Proof.
  intros C Hn Hlt Hd. pose proof C as [Ho Hnn Hr Hb].
  unfold TEE_CipherDoFinal. rewrite (proj2 (Z.eqb_neq op 0) Hnn). simpl.
  unfold mbind at 1, M_bind at 1, get_op at 1. rewrite Ho, Hr. simpl.
  destruct (_ && _) ; [done|]. destruct (_ && _); [by intros [[=] _]%out_done|].
  destruct (dl <? _); [by intros [[=] _]%out_done|].
  unfold mbind at 1, M_bind at 1.
  match goal with |- match ?m with _ => _ end = _ → _ =>
    destruct m as [[[out1 acc] s1]|c|] eqn:E1; [|done|done] end.
  apply (final_feed_done op s o b) in E1 as (o1 & b1 & C1 & St & cs & F & Cc & D);
    [|done..].
  pose proof C1 as [Ho1 _ Hr1 Hb1].
  unfold mbind, M_bind, get_op. rewrite Ho1, (final_input_buffered o1 b1) by done.
  unfold sys.
  destruct (cipher_final _ _ _ _) as [[[res fin] m] k] eqn:E2. cbn -[first].
  destruct (res =? TEE_SUCCESS) eqn:R; breflect; cbn -[first].
  2:{ intros E%out_done. destruct E as [E _]. by injection E as <-. }
  subst res. unfold finish_operation, mbind, M_bind, get_op. cbn -[first].
  rewrite Ho1. cbn -[first]. intros E. injection E as <- <- <-.
  exists cs, out1, (kern s1), (first (buffer_offs o1) b1), (u64 (dl - acc)), fin, m.
  split_and!; try done.
  eexists. split; [apply lookup_insert_eq|]. split; [done|].
  unfold op_flag, clear_flag. simpl. apply has_flag_clear.
Qed.

(** ** The room that [TEE_CipherUpdate] asks for *)

(** The update system call of a stream state: it succeeds exactly when there
    is as much room as input, and outputs as much as it takes in. *)
Record stream_core (upd : update_func) (st : Z) : Prop := {
  sc_accept c dlen k : blen c ≤ dlen → ∃ out k', upd st c dlen k = (TEE_SUCCESS, out, blen c, k');
  sc_report c dlen k out n k' :
    upd st c dlen k = (TEE_SUCCESS, out, n, k') → n = blen c ∧ blen c ≤ dlen;
}.

(** Such a core reports the length of what it was fed. *)
Lemma fed_length upd st dlen k cs out acc k' :
  stream_core upd st → fed upd st dlen k cs out acc k' → 0 ≤ dlen < 2 ^ 64 →
  acc = blen (concat cs) ∧ acc ≤ dlen.
Proof.
  intros Sc. induction 1 as [dlen k|dlen k c out n k1 cs outs acc k2 E F IH]; intros Hd.
  - simpl. unfold blen. simpl. lia.
  - apply (sc_report _ _ Sc) in E as [-> Hc]. pose proof (blen_nonneg c).
    rewrite u64_id in IH by lia. destruct IH as [-> Hl]; [lia|]. simpl. rewrite blen_app.
    pose proof (blen_nonneg (concat cs)). rewrite u64_id by lia. lia.
Qed.

(** Whole blocks out of [n] bytes are at most [n / bs] blocks. *)
Lemma whole_blocks bs m n : 0 < bs → (bs | m) → m ≤ n → m ≤ n / bs * bs.
Proof.
  intros Hb [q ->] Hm. apply Z.mul_le_mono_nonneg_r; [lia|].
  apply Z.div_le_lower_bound; lia.
Qed.

Lemma blocks_concat bs cs :
  Forall (λ c, (bs | blen c)) cs → (bs | blen (concat cs)).
Proof.
  induction 1 as [|c cs Hc _ IH]; simpl; [apply Z.divide_0_r|].
  rewrite blen_app. by apply Z.divide_add_r.
Qed.

(** A stream core does not refuse when there is room for all whole blocks. *)
Lemma stream_not_refused upd o dlen k l :
  0 < block_size o → stream_core upd (state o) → 0 ≤ dlen < 2 ^ 64 →
  blen l / block_size o * block_size o ≤ dlen → ¬ run_refused upd o dlen k l.
Proof.
  intros Hb Sc Hd Hl (cs & out & acc & k' & rest & F & <- & D & c & rest' & R & <- & Dc).
  destruct (fed_length _ _ _ _ _ _ _ _ Sc F Hd) as [-> Ha].
  destruct R as (res & o' & n & k2 & E & Hne). apply Hne.
  rewrite !blen_app in Hl. pose proof (blen_nonneg rest'). pose proof (blen_nonneg c).
  pose proof (blen_nonneg (concat cs)).
  assert (blen (concat cs) + blen c ≤ dlen) as Hfit.
  { etransitivity; [|apply Hl]. apply whole_blocks; [done| |lia].
    apply Z.divide_add_r; [by apply blocks_concat|done]. }
  destruct (sc_accept _ _ Sc c (u64 (dlen - blen (concat cs))) k') as (o2 & k3 & E2);
    [rewrite u64_id by lia; lia|].
  congruence.
Qed.

(** The kept bytes and the ones fed partition the input. *)
Lemma update_length upd o b src dlen k out acc o' k' :
  stream_core upd (state o) → 0 ≤ dlen < 2 ^ 64 → buf_ok o b →
  update_post upd o b src dlen k out acc o' k' →
  acc + buffer_offs o' = buffer_offs o + blen src ∧ (block_size o | acc) ∧ acc ≤ dlen.
Proof.
  intros Sc Hd Hb (cs & b' & F & _ & [_ _ Sb' Ob'] & C & D & _).
  destruct (fed_length _ _ _ _ _ _ _ _ Sc F Hd) as [-> Ha].
  apply (f_equal blen) in C. rewrite !blen_app in C.
  destruct Hb as [_ _ Sb Ob].
  rewrite (blen_first (buffer_offs o)), (blen_first (buffer_offs o')) in C by lia.
  split_and!; [lia|by apply blocks_concat|lia].
Qed.
End Cipher.
