(* ===== verification/UteeSafe.v ===== *)
(** Memory safety of the libutee operation API: every function, called with
    live handles and readable buffers, keeps all operations well formed and
    never accesses memory out of bounds, whatever the core answers.

    [spec m s]: from [s], [m] returns or panics, keeps the heap well formed and
    every handle live with the same static part. *)
From S2P Require Import Prelude Bytes UteeDefs UteeOps UteeCrypt UteeCipher.

(** What the core and the allocator promise about lengths. *)
Class UteeLaws `{U : Utee} : Prop := {
  malloc_op_nonnull k op k' : malloc_op k = (Some op, k') → op ≠ 0;
  malloc_buf_size n k b k' : 0 ≤ n → malloc_buf n k = (Some b, k') → blen b = n;
  hash_final_room st c n room k res h len k' : 0 ≤ room →
    hash_final st c n room k = (res, h, len, k') →
    blen h ≤ room ∧ (res = TEE_SUCCESS → 0 ≤ len ≤ room);
}.

(** What a function never changes of an operation. *)
Definition static (o : operation) : Z * Z * Z * bool :=
  (algorithm (info o), operationClass (info o), block_size o, buffer_two_blocks o).

Record op_wf (o : operation) : Prop := {
  ow_size : 0 ≤ block_size o < 2 ^ 32;
  ow_buf : match buffer o with
           | Some b => 1 < block_size o ∧ blen b = buffer_size o
           | None => block_size o ≤ 1
           end;
  ow_offs : 0 ≤ buffer_offs o ≤ buffer_size o;
  ow_pow2 : is_one_of (operationClass (info o)) [TEE_OPERATION_CIPHER; TEE_OPERATION_AE] = true →
    1 < block_size o → ∃ k, 1 ≤ k < 32 ∧ block_size o = 2 ^ k;
  ow_digest : operationClass (info o) = TEE_OPERATION_DIGEST → buffer_two_blocks o = false;
  ow_nopad : is_one_of (algorithm (info o)) nopad_algs = true → 1 < block_size o;
}.

Section Safe.
Context `{L : UteeLaws}.

Definition wf (s : ta) : Prop := map_Forall (λ _, op_wf) (ops s).

Definition keeps (s s' : ta) : Prop :=
  ∀ a o, ops s !! a = Some o → ∃ o', ops s' !! a = Some o' ∧ static o' = static o.

(** The handle [a] holds an operation with the static part of [o]. *)
Definition holds (a : Z) (o : operation) (s : ta) : Prop :=
  ∃ o', ops s !! a = Some o' ∧ static o' = static o.

Definition live (a : Z) (s : ta) : Prop := is_Some (ops s !! a).

Definition safe {A} (m : M A) (s : ta) (Q : A → ta → Prop) : Prop :=
  match m s with
  | Done (a, s') => Q a s'
  | Panicked _ => True
  | Undef => False
  end.

Definition spec {A} (m : M A) (s : ta) : Prop := safe m s (λ _ s', wf s' ∧ keeps s s').

Lemma keeps_refl s : keeps s s.
Proof. intros a o H. by exists o. Qed.

Lemma keeps_trans s1 s2 s3 : keeps s1 s2 → keeps s2 s3 → keeps s1 s3.
Proof.
  intros H1 H2 a o Ho. destruct (H1 a o Ho) as (o2 & Ho2 & E2).
  destruct (H2 a o2 Ho2) as (o3 & Ho3 & E3). exists o3. split; [done|congruence].
Qed.

Lemma live_keeps a s s' : keeps s s' → live a s → live a s'.
Proof. intros H [o Ho]. destruct (H a o Ho) as (o' & E & _). by exists o'. Qed.

Lemma holds_keeps a o s s' : keeps s s' → holds a o s → holds a o s'.
Proof.
  intros H (o1 & Ho & E). destruct (H a o1 Ho) as (o' & E' & St).
  exists o'. split; [done|congruence].
Qed.

(** *** Rules *)

Lemma spec_ret {A} (a : A) s : wf s → spec (mret a) s.
Proof. intros H. split; [done|apply keeps_refl]. Qed.

Lemma spec_panic {A} c s : spec (A:=A) (TEE_Panic c) s.
Proof. done. Qed.

Lemma safe_bind {A B} (m : M A) (f : A → M B) s Q R :
  safe m s Q → (∀ a s', Q a s' → safe (f a) s' R) → safe (m ≫= f) s R.
Proof.
  unfold safe, mbind, M_bind. destruct (m s) as [[a s']| |]; [|done|done].
  intros H1 H2. by apply H2.
Qed.

Lemma spec_bind {A B} (m : M A) (f : A → M B) s :
  spec m s → (∀ a s', wf s' → keeps s s' → spec (f a) s') → spec (m ≫= f) s.
Proof.
  intros H1 H2. eapply safe_bind; [apply H1|]. intros a s' [W K]. specialize (H2 a s' W K).
  unfold spec, safe in *. destruct (f a s') as [[b s2]| |]; [|done|done].
  destruct H2 as [W2 K2]. split; [done|by eapply keeps_trans].
Qed.

Lemma spec_sys {A} (f : kst → A * kst) s : wf s → spec (sys f) s.
Proof.
  unfold spec, safe, sys. destruct (f (kern s)) as [a k]. intros H.
  split; [done|exact (keeps_refl s)].
Qed.

Lemma spec_sys_bind {A B} (f : kst → A * kst) (g : A → M B) s :
  (∀ a k, f (kern s) = (a, k) → spec (g a) (mk_ta (ops s) k)) → spec (sys f ≫= g) s.
Proof.
  unfold spec, safe, sys, mbind, M_bind. destruct (f (kern s)) as [a k]. intros H.
  apply (H a k eq_refl).
Qed.

Lemma spec_panic_if b c s : wf s → spec (panic_if b c) s.
Proof. intros H. unfold panic_if. destruct b; [done|by apply spec_ret]. Qed.

Lemma spec_panic_if_bind {B} b c (g : unit → M B) s :
  (b = false → spec (g tt) s) → spec (panic_if b c ≫= g) s.
Proof. unfold panic_if. destruct b; [done|]. intros H. by apply H. Qed.

Lemma spec_get_bind {B} op (g : operation → M B) s :
  wf s → live op s → (∀ o, holds op o s → op_wf o → spec (g o) s) → spec (get_op op ≫= g) s.
Proof.
  intros W [o Ho] H. unfold spec, safe, get_op, mbind, M_bind. rewrite Ho.
  apply H; [by exists o|]. by apply (W op).
Qed.

Lemma spec_get op s : wf s → live op s → spec (get_op op) s.
Proof.
  intros W [o Ho]. unfold spec, safe, get_op. rewrite Ho. split; [done|apply keeps_refl].
Qed.

Lemma spec_set op o o0 s :
  wf s → holds op o0 s → static o = static o0 → op_wf o → spec (set_op op o) s.
Proof.
  intros W (o1 & Ho & E) St Wo. split.
  - by apply map_Forall_insert_2.
  - intros a oa Ha. simpl. destruct (decide (a = op)) as [->|N].
    + rewrite lookup_insert_eq. exists o. split; [done|]. congruence.
    + rewrite lookup_insert_ne by done. by exists oa.
Qed.

Lemma spec_out {A} l (r : Z * A) s : wf s → spec (out l r) s.
Proof. intros W. unfold out. case_match; [by apply spec_ret|done]. Qed.

Lemma spec_out_res l r s : wf s → spec (out_res l r) s.
Proof. intros W. unfold out_res. case_match; [by apply spec_ret|done]. Qed.

(** A handle that may be NULL where the function checks it. *)
Definition handle_ok (op : Z) (s : ta) : Prop := op ≠ 0 → live op s.

Lemma handle_ok_keeps op s s' : keeps s s' → handle_ok op s → handle_ok op s'.
Proof. intros K H N. eapply live_keeps; [done|by apply H]. Qed.

Lemma handle_ok_live op s : handle_ok op s → (op =? 0) = false → live op s.
Proof. intros H E. apply H. by breflect. Qed.

Lemma handle_ok_live' op b s : handle_ok op s → (op =? 0) || b = false → live op s.
Proof. intros H [E _]%orb_false_iff. by apply handle_ok_live. Qed.

Lemma handle_ok_live_r op b s : handle_ok op s → b || (op =? 0) = false → live op s.
Proof. intros H [_ E]%orb_false_iff. by apply handle_ok_live. Qed.

Lemma handle_ok_live3 op a b s : handle_ok op s → (op =? 0) || a || b = false → live op s.
Proof. intros H [E _]%orb_false_iff. by eapply handle_ok_live'. Qed.

(** *** Fields that keep an operation well formed *)

Lemma op_wf_info o i :
  op_wf o → algorithm i = algorithm (info o) → operationClass i = operationClass (info o) →
  op_wf (mk_op i (key1 o) (key2 o) (operationState o) (buffer o) (buffer_two_blocks o)
           (block_size o) (buffer_offs o) (state o)).
Proof. intros [] Ea Ec. split; simpl; rewrite ?Ea, ?Ec; done. Qed.

Lemma op_wf_handleState o v : op_wf o → op_wf (set_handleState o v).
Proof. intros W. by apply op_wf_info. Qed.

Lemma op_wf_set_flag o f : op_wf o → op_wf (set_flag o f).
Proof. apply op_wf_handleState. Qed.

Lemma op_wf_clear_flag o f : op_wf o → op_wf (clear_flag o f).
Proof. apply op_wf_handleState. Qed.

Lemma op_wf_keySize o v : op_wf o → op_wf (set_keySize o v).
Proof. intros W. by apply op_wf_info. Qed.

Lemma op_wf_digestLength o v : op_wf o → op_wf (set_digestLength o v).
Proof. intros W. by apply op_wf_info. Qed.

Lemma op_wf_state o v : op_wf o → op_wf (set_operationState o v).
Proof. by intros []. Qed.

Lemma buffer_size_nonneg o : op_wf o → 0 ≤ buffer_size o.
Proof. intros W. pose proof (ow_offs _ W). lia. Qed.

Lemma op_wf_offs o n : op_wf o → 0 ≤ n ≤ buffer_size o → op_wf (set_buffer o (buffer o) n).
Proof. by intros [] H. Qed.

Lemma op_wf_offs0 o : op_wf o → op_wf (set_buffer o (buffer o) 0).
Proof. intros W. apply op_wf_offs; [done|]. pose proof (buffer_size_nonneg _ W). lia. Qed.

Lemma op_wf_buffer o b n :
  op_wf o → 1 < block_size o → blen b = buffer_size o → 0 ≤ n ≤ buffer_size o →
  op_wf (set_buffer o (Some b) n).
Proof. intros [] H1 H2 H3. by split. Qed.
End Safe.

(** The rules and lemmas that the tactic below applies. *)
Create HintDb utee.
#[export] Hint Resolve op_wf_set_flag op_wf_clear_flag op_wf_keySize op_wf_digestLength
  op_wf_state op_wf_offs0 op_wf_handleState spec_panic
  handle_ok_live handle_ok_live' handle_ok_live_r handle_ok_live3 : utee.

(** Carry what is known of the handles to the state after a call. *)
Ltac carry :=
  repeat match goal with
  | K : keeps ?s ?s', H : live ?a ?s |- _ =>
    lazymatch goal with
    | _ : live a s' |- _ => fail
    | _ => pose proof (live_keeps a s s' K H)
    end
  | K : keeps ?s ?s', H : handle_ok ?a ?s |- _ =>
    lazymatch goal with
    | _ : handle_ok a s' |- _ => fail
    | _ => pose proof (handle_ok_keeps a s s' K H)
    end
  | K : keeps ?s ?s', H : holds ?a ?o ?s |- _ =>
    lazymatch goal with
    | _ : holds a o s' |- _ => fail
    | _ => pose proof (holds_keeps a o s s' K H)
    end
  end.

(** One step through a function of the API. *)
Ltac utee_step :=
  match goal with
  | |- wf _ => assumption
  | |- _ => progress cbv zeta
  | |- live _ _ => solve [eauto with utee]
  | |- spec (mret _) _ => apply spec_ret
  | |- spec (TEE_Panic _) _ => apply spec_panic
  | |- spec (panic_if _ _) _ => apply spec_panic_if
  | |- spec (out _ _) _ => apply spec_out
  | |- spec (out_res _ _) _ => apply spec_out_res
  | |- spec (sys _) _ => apply spec_sys
  | |- spec (get_op _) _ => apply spec_get
  | |- spec (set_op ?a _) _ =>
    eapply (spec_set a); [assumption|eassumption|reflexivity|solve [eauto with utee]]
  | |- spec (if ?b then _ else _) _ => destruct b eqn:?
  | |- spec (match ?x with Some _ => _ | None => _ end) _ => destruct x eqn:?
  | |- spec (let '_ := ?r in _) _ => destruct r
  | |- spec (panic_if _ _ ≫= _) _ => apply spec_panic_if_bind; intros ?
  | |- spec (get_op _ ≫= _) _ => apply spec_get_bind; [..|intros ? ? ?]
  | |- spec (_ ≫= _) _ => apply spec_bind; [|intros ? ? ? ?; carry]
  | |- spec _ _ => solve [eauto with utee]
  end.
Ltac utee := repeat utee_step.
