(* ===== verification/UteeExample.v ===== *)
(** A concrete core for the examples of the libutee theorems: the identity
    cipher, which records what it is given, checks the room for the output and
    has one operation handle, and a memory allocator that never fails. *)
From S2P Require Import Prelude Bytes UteeDefs UteeOps UteeCrypt UteeSafe.

(** Output the input when there is room for it, and record it. *)
Definition echo (st : Z) (data : bytes) (dlen : Z) (k : list bytes) : Z * bytes * Z * list bytes :=
  if dlen <? blen data then (TEE_ERROR_SHORT_BUFFER, [], blen data, k)
  else (TEE_SUCCESS, data, blen data, k ++ [data]).

(** A digest of [hashLen] bytes at most: the length of all that was hashed. *)
Definition count_digest (st : Z) (chunk : option bytes) (n room : Z) (k : list bytes)
  : Z * bytes * Z * list bytes :=
  (TEE_SUCCESS, replicate (Z.to_nat room) (Z.of_nat (length (concat k)) mod 256), room, []).

#[global] Instance echo_core : Utee := {|
  kst := list bytes;
  CFG_CRYPTO_RSASSA_NA1 := true;
  malloc_op := λ k, (Some 16, k);
  malloc_buf := λ n k, (Some (replicate (Z.to_nat n) 0), k);
  cryp_obj_alloc := λ t m k, (TEE_SUCCESS, 32, k);
  cryp_obj_get_info := λ o k, 
    (TEE_SUCCESS, mk_oinfo 0 128 TEE_USAGE_ENCRYPT
       (if o =? 64 then TEE_HANDLE_FLAG_INITIALIZED else 0), k);
  cryp_obj_reset := λ o k, (TEE_SUCCESS, k);
  cryp_obj_close := λ o k, (TEE_SUCCESS, k);
  cryp_obj_copy := λ d s k, (TEE_SUCCESS, k);
  cryp_state_alloc := λ a m k1 k2 k, (TEE_SUCCESS, 48, k);
  cryp_state_copy := λ d s k, (TEE_SUCCESS, k);
  cryp_state_free := λ s k, (TEE_SUCCESS, k);
  hash_init := λ s iv n k, (TEE_SUCCESS, []);
  hash_update := λ s c n k, (TEE_SUCCESS, k ++ [default [] c]);
  hash_final := count_digest;
  cipher_init := λ s iv n k, (TEE_SUCCESS, []);
  cipher_update := echo;
  cipher_final := echo;
  authenc_init := λ s iv n t a p k, (TEE_SUCCESS, []);
  authenc_update_aad := λ s a n k, (TEE_SUCCESS, k);
  authenc_update_payload := echo;
  authenc_enc_final := λ s d n t k, (TEE_SUCCESS, (d, blen d), ([], 0), k);
  authenc_dec_final := λ s d n tg t k, (TEE_SUCCESS, d, blen d, k);
  asymm_operate := λ s p d n r k, (TEE_SUCCESS, default [] d, n, k);
  asymm_verify := λ s p d n sg m k, (TEE_SUCCESS, k);
  cryp_derive_key := λ s p o k, (TEE_SUCCESS, k);
  random_number_generate := λ n k, (TEE_SUCCESS, replicate (Z.to_nat n) 4, k);
|}.

#[global] Instance echo_laws : UteeLaws.
Proof.
  split.
  - intros k op k' [= <- _]. done.
  - intros n k b k' Hn [= <- _]. unfold blen. rewrite length_replicate. lia.
  - intros st c n room k res h len k' Hr [= _ <- <- _]. unfold blen.
    rewrite length_replicate. lia.
Defined.

(** An initialised cipher operation of [alg] in a heap of its own. *)
Definition cipher_op (alg bs : Z) (two : bool) : operation :=
  mk_op (mk_info alg TEE_OPERATION_CIPHER TEE_MODE_ENCRYPT 0 256 128 TEE_USAGE_ENCRYPT
           (Z.lor TEE_HANDLE_FLAG_KEY_SET TEE_HANDLE_FLAG_INITIALIZED))
    32 0 TEE_OPERATION_STATE_ACTIVE
    (Some (replicate (Z.to_nat (if two then bs * 2 else bs)) 0)) two bs 0 48.

Definition cbc_ta : ta := mk_ta {[16 := cipher_op TEE_ALG_AES_CBC_NOPAD 16 false]} [].

Definition cts_ta : ta := mk_ta {[16 := cipher_op TEE_ALG_AES_CTS 16 true]} [].

(** [n] bytes with the values from [a]. *)
Definition message (a n : nat) : bytes := Z.of_nat <$> seq a n.
