(* ===== verification/UteeCipherProofs.v ===== *)
(** What the buffering of libutee guarantees to a TA that updates a cipher:
    memory safety and streaming of [tee_buffer_update], independence of the way
    a message is cut into calls, and when [TEE_CipherUpdate] asks for enough
    room. *)
From S2P Require Import Prelude Bytes UteeDefs UteeOps UteeCrypt UteeCipher.
From S2P Require Import UteeExample.

#[local] Arguments tee_buffer_update : simpl never.

(** [tee_buffer_update] on an operation with a buffer never accesses memory
    out of bounds; it feeds the core whole blocks, at most two chunks, such
    that the chunks followed by what stays buffered are what was buffered
    followed by the new bytes; an operation that keeps two blocks keeps at least
    one block, and more than one for AES-CTS, once something was fed. It panics
    only when the core refuses a chunk. *)
Theorem tee_buffer_update_correct `{U : Utee} op upd o b d n dlen s :
  ops s !! op = Some o → buf_ok o b → 0 ≤ n ≤ blen d → n < 2 ^ 62 → 0 ≤ dlen < 2 ^ 64 →
  match tee_buffer_update op upd (Some d) n dlen s with
  | Done ((out, acc), s') =>
    ∃ o', ops s' = <[op:=o']> (ops s) ∧
      update_post upd o b (first n d) dlen (kern s) out acc o' (kern s')
  | Panicked _ => run_refused upd o dlen (kern s) (first (buffer_offs o) b ++ first n d)
  | Undef => False
  end.
Proof. apply tee_buffer_update_spec. Qed.

(** C32: however a message is cut into [TEE_CipherUpdate] calls before
    [TEE_CipherDoFinal], when all of them succeed the core sees exactly the
    message: a sequence of chunks of whole blocks, then the last bytes in the
    final call, which together are what was buffered and the pieces in order;
    the output is the output of these calls of the core in order, and the
    operation is back in its initial state. *)
Theorem cipher_chunking `{U : Utee} op s o b ups d n dl outs s1 out len s' :
  cipher_at op s o b → ups_ok ups → 0 ≤ n ≤ blen d → n < 2 ^ 62 → 0 ≤ dl < 2 ^ 64 →
  cipher_updates op ups s = Done (Some outs, s1) →
  TEE_CipherDoFinal op (Some d) n (Some dl) s1 = Done ((TEE_SUCCESS, (out, len)), s') →
  ∃ cs fed_out k last dl' fin m,
    core_fed cipher_update (state o) (kern s) cs fed_out k ∧
    cipher_final (state o) last dl' k = (TEE_SUCCESS, fin, m, kern s') ∧
    outs ++ out = fed_out ++ fin ∧
    concat cs ++ last = first (buffer_offs o) b ++ concat (map fst ups) ++ first n d ∧
    Forall (λ c, (block_size o | blen c)) cs ∧
    ∃ o', ops s' !! op = Some o' ∧ operationState o' = TEE_OPERATION_STATE_INITIAL ∧
      op_flag o' TEE_HANDLE_FLAG_INITIALIZED = false.
Proof.
  intros C Hu Hn Hlt Hd E1 E2.
  destruct (cipher_updates_done _ _ _ _ _ _ _ C Hu E1)
    as (o1 & b1 & C1 & St & Bs & cs1 & F1 & Cc1 & D1).
  destruct (cipher_final_done _ _ _ _ _ _ _ _ _ _ C1 Hn Hlt Hd E2)
    as (cs2 & outs2 & k & last & dl' & fin & m & F2 & Ef & -> & Cc2 & D2 & Fin).
  rewrite St, Bs in *.
  exists (cs1 ++ cs2), (outs ++ outs2), k, last, dl', fin, m. split_and!; try done.
  - by eapply core_fed_app.
  - by rewrite app_assoc.
  - by rewrite concat_app, <- app_assoc, Cc2, app_assoc, Cc1, <- app_assoc.
  - by apply Forall_app.
Qed.

(** For a cipher that buffers one block, on a core that refuses a chunk only
    for lack of room, [TEE_CipherUpdate] never panics: with less room than the
    whole blocks it can output it asks for exactly that room and changes
    nothing, otherwise it succeeds within the room and stays updatable. *)
Theorem cipher_update_no_panic `{U : Utee} op s o b d n dl :
  cipher_at op s o b → buffer_two_blocks o = false → stream_core cipher_update (state o) →
  0 ≤ n ≤ blen d → n < 2 ^ 62 → 0 ≤ dl < 2 ^ 64 →
  let req := (buffer_offs o + n) / block_size o * block_size o in
  if dl <? req
  then TEE_CipherUpdate op (Some d) n dl s = Done ((TEE_ERROR_SHORT_BUFFER, ([], req)), s)
  else ∃ out acc s' o' b',
    TEE_CipherUpdate op (Some d) n dl s = Done ((TEE_SUCCESS, (out, acc)), s') ∧
    cipher_at op s' o' b' ∧ acc + buffer_offs o' = buffer_offs o + n ∧
    (block_size o | acc) ∧ acc ≤ dl.
Proof.
  intros C T Sc Hn Hlt Hd req. pose proof C as [Ho Hnn Hr Hb].
  pose proof (buf_ok_gt _ _ Hb) as Hbs.
  assert (0 ≤ buffer_offs o < 2 ^ 32) as Hoff
    by (destruct Hb as [_ _ _ Ob]; unfold buffer_size in Ob; rewrite T in Ob; lia).
  assert (cipher_req_dlen o n = req) as Er.
  { unfold cipher_req_dlen. rewrite T, (proj2 (Z.ltb_lt _ _)) by lia. by rewrite u64_id by lia. }
  rewrite (cipher_update_eq op s o b d n dl C), Er.
  destruct (dl <? req) eqn:E; breflect; [done|].
  pose proof (tee_buffer_update_spec op cipher_update o b d n dl s Ho Hb Hn Hlt Hd) as H1.
  destruct (tee_buffer_update op cipher_update (Some d) n dl s) as [[[out acc] s']|c|]; [| |done].
  - destruct H1 as (o' & Os & P). exists out, acc, s', o'.
    destruct (update_length _ _ _ _ _ _ _ _ _ _ Sc Hd Hb P) as (L1 & L2 & L3).
    rewrite blen_first in L1 by lia.
    destruct P as (cs & b' & F & Eo & Bo & _). exists b'. split_and!; try done.
    rewrite Eo in *. split; [by rewrite Os, lookup_insert_eq|done|done|done].
  - exfalso. revert H1. apply stream_not_refused; [lia|done|done|].
    destruct Hb as [_ _ Sb Ob]. rewrite blen_app, !blen_first by lia. done.
Qed.

(** For a cipher that buffers two blocks the room that [TEE_CipherUpdate]
    checks is too small: with an empty buffer, two blocks and a byte of input
    and no room at all, it asks for nothing, feeds a block to the core and
    panics. *)
Theorem cipher_update_two_blocks_panics `{U : Utee} op s o b d :
  cipher_at op s o b → buffer_two_blocks o = true → buffer_offs o = 0 →
  blen d = block_size o * 2 + 1 →
  (∀ c dlen k, dlen < blen c →
     ∃ out n k', cipher_update (state o) c dlen k = (TEE_ERROR_SHORT_BUFFER, out, n, k')) →
  cipher_req_dlen o (blen d) = 0 ∧
  TEE_CipherUpdate op (Some d) (blen d) 0 s = Panicked TEE_ERROR_SHORT_BUFFER.
Proof.
  intros C T O0 Hd Short. pose proof C as [Ho Hnn Hr Hb].
  pose proof (buf_ok_gt _ _ Hb) as Hbs.
  assert (cipher_req_dlen o (blen d) = 0) as Er.
  { unfold cipher_req_dlen. rewrite T, O0, Hd, (proj2 (Z.ltb_lt 1 (block_size o))) by lia.
    rewrite u64_id by lia.
    replace ((0 + (block_size o * 2 + 1)) / block_size o) with 2.
    - case_match; breflect; lia.
    - apply (Z.div_unique _ _ _ 1); lia. }
  split; [done|]. rewrite (cipher_update_eq op s o b d _ _ C), Er. simpl.
  destruct Hb as [(k & Hk & Eb) Eb' Sb Ob].
  unfold tee_buffer_update, mbind, M_bind, get_op. rewrite Ho. unfold read_bytes.
  rewrite (proj2 (Z.leb_le _ _)) by lia. unfold the_buffer. rewrite Eb'. cbn -[slice].
  unfold run_update, mbind, M_bind, fill_block. cbn -[slice]. rewrite O0. cbn -[slice].
  unfold feed_buffer. cbn -[slice]. unfold feed_source. cbn -[slice].
  rewrite slice_first, (first_all (blen d) d) by done.
  unfold buffer_size, buffer_left. rewrite T, Hd.
  rewrite (proj2 (Z.leb_le _ _)) by lia.
  set (l := if _ =? TEE_ALG_AES_CTS then _ else _).
  assert (l = block_size o) as ->.
  { subst l. rewrite Eb in *.
    replace (2 ^ k * 2 + 1 - 2 ^ k * 2) with 1 by lia. rewrite (u64_id (1 + 1)) by lia.
    destruct (ROUNDUP_bounds 1 k) as [H1 D1]; [lia..|].
    destruct (ROUNDUP_bounds (1 + 1) k) as [H2 D2]; [lia..|].
    case_match; apply (divide_close (2 ^ k)); try lia; done || apply Z.divide_refl. }
  unfold read_bytes, mbind, M_bind. rewrite (proj2 (Z.leb_le _ _)) by lia. cbn -[slice].
  unfold feed, sys, mbind, M_bind. cbn -[slice].
  destruct (Short (slice d 0 (block_size o)) (u64 (0 - 0)) (kern s)) as (out & n & k' & ->).
  - rewrite blen_slice by lia. change (u64 (0 - 0)) with 0. lia.
  - done.
Qed.

(** ** Examples *)

Lemma cbc_at : cipher_at 16 cbc_ta (cipher_op TEE_ALG_AES_CBC_NOPAD 16 false)
  (replicate 16 0).
Proof. split; [done..|]. split; [by exists 4|done..]. Defined.

Lemma cts_at : cipher_at 16 cts_ta (cipher_op TEE_ALG_AES_CTS 16 true) (replicate 32 0).
Proof. split; [done..|]. split; [by exists 4|done..]. Defined.

Lemma echo_stream st : stream_core cipher_update st.
Proof.
  split.
  - intros c dlen k H. eexists _, _. cbn. unfold echo.
    by rewrite (proj2 (Z.ltb_ge _ _)) by lia.
  - intros c dlen k out n k'. cbn. unfold echo. case_match; breflect; [done|].
    intros E. injection E as _ <- _. lia.
Qed.

Theorem tee_buffer_update_correct_witness :
  ∃ o', update_post cipher_update (cipher_op TEE_ALG_AES_CTS 16 true) (replicate 32 0)
    (message 0 50) 100 [] (message 0 32) 32 o' [message 0 32].
Proof.
  pose proof (tee_buffer_update_correct 16 cipher_update _ _ (message 0 50) 50 100 cts_ta
    (ca_op _ _ _ _ cts_at) (ca_buf _ _ _ _ cts_at) ltac:(vm_compute; split; discriminate)
    ltac:(done) ltac:(lia)) as H.
  vm_compute tee_buffer_update in H. destruct H as (o' & _ & H). exists o'. exact H.
Defined.

Theorem cipher_chunking_witness :
  ∃ cs fed_out k last dl' fin m,
    core_fed cipher_update 48 [] cs fed_out k ∧
    cipher_final 48 last dl' k = (TEE_SUCCESS, fin, m, [message 0 16; message 16 16; message 32 16; []]) ∧
    message 0 48 = fed_out ++ fin ∧ concat cs ++ last = message 0 48.
Proof.
  destruct (cipher_chunking 16 cbc_ta _ _ [(message 0 7, 0); (message 7 13, 16)]
    (message 20 28) 28 100
    (message 0 16)
    (match cipher_updates 16 [(message 0 7, 0); (message 7 13, 16)] cbc_ta with
     | Done (_, s) => s | _ => cbc_ta end)
    (message 16 32) (Some 32)
    (match cipher_updates 16 [(message 0 7, 0); (message 7 13, 16)] cbc_ta with
     | Done (_, s) => match TEE_CipherDoFinal 16 (Some (message 20 28)) 28 (Some 100) s with
                      | Done (_, s') => s' | _ => cbc_ta end
     | _ => cbc_ta end) cbc_at)
    as (cs & fo & k & last & dl' & fin & m & F & Ef & Eo & Cc & _).
  - repeat constructor; vm_compute; done.
  - vm_compute. split; discriminate.
  - done.
  - lia.
  - vm_compute. reflexivity.
  - vm_compute. reflexivity.
  - exists cs, fo, k, last, dl', fin, m. split; [exact F|]. split; [exact Ef|].
    split; [exact Eo|exact Cc].
Defined.

Theorem cipher_update_no_panic_witness :
  TEE_CipherUpdate 16 (Some (message 0 33)) 33 31 cbc_ta
    = Done ((TEE_ERROR_SHORT_BUFFER, ([], 32)), cbc_ta) ∧
  ∃ out acc s', TEE_CipherUpdate 16 (Some (message 0 33)) 33 32 cbc_ta
    = Done ((TEE_SUCCESS, (out, acc)), s').
Proof.
  split.
  - apply (cipher_update_no_panic 16 cbc_ta _ _ (message 0 33) 33 31 cbc_at
      eq_refl (echo_stream _)); [vm_compute; split; discriminate|done|lia].
  - destruct (cipher_update_no_panic 16 cbc_ta _ _ (message 0 33) 33 32 cbc_at
      eq_refl (echo_stream _)) as (out & acc & s' & _ & _ & E & _);
      [vm_compute; split; discriminate|done|lia|].
    exists out, acc, s'. exact E.
Defined.

Theorem cipher_update_two_blocks_panics_witness :
  TEE_CipherUpdate 16 (Some (message 0 33)) 33 0 cts_ta = Panicked TEE_ERROR_SHORT_BUFFER.
Proof.
  apply (cipher_update_two_blocks_panics 16 cts_ta _ _ (message 0 33) cts_at eq_refl eq_refl
    eq_refl).
  intros c dlen k H. exists [], (blen c), k. cbn. unfold echo.
  by rewrite (proj2 (Z.ltb_lt _ _)).
Defined.
