(* ===== verification/UteeDigest.v ===== *)
(** Digests and MACs of libutee: partial extraction of a digest, the comparison
    of a MAC, and what a reset in the middle of an extraction does. *)
From S2P Require Import Prelude Bytes UteeDefs UteeOps UteeCrypt UteeCipher.
From S2P Require Import UteeSafe UteeExample.

Section Digest.
Context `{L : UteeLaws}.

Implicit Types s : ta.

(** A digest with a buffer, filled up to or extracted from [offs]. *)
Record digest_at (op : Z) (s : ta) (o : operation) (b : bytes) : Prop := {
  da_op : ops s !! op = Some o;
  da_nonnull : op ≠ 0;
  da_class : operationClass (info o) = TEE_OPERATION_DIGEST;
  da_buffer : buffer o = Some b;
  da_size : blen b = block_size o;
  da_bound : block_size o < 2 ^ 32;
  da_offs : 0 ≤ buffer_offs o ≤ block_size o;
}.

Lemma run_bind {A B} (m : M A) (f : A → M B) s a s' :
  m s = Done (a, s') → (m ≫= f) s = f a s'.
Proof. unfold mbind, M_bind. by intros ->. Qed.

(** Extract into buffers of the given sizes, one after the other. *)
Fixpoint digest_extracts (op : Z) (rooms : list Z) : M (list bytes) :=
  match rooms with
  | [] => mret []
  | r :: rooms' =>
    '(_, (hash, _)) ← TEE_DigestExtract op r;
    hs ← digest_extracts op rooms';
    mret (hash :: hs)
  end.

Definition sum_rooms (rooms : list Z) : Z := foldr Z.add 0 rooms.

(** The rest of the function, once the digest is in the buffer. *)
Lemma extract_take op s o b r :
  digest_at op s o b → 0 ≤ r →
  let len := Z.min (block_size o - buffer_offs o) r in
  (o ← get_op op;
   b ← the_buffer o;
   let len := Z.min (u64 (block_size o - buffer_offs o)) r in
   hash ← read_at b (buffer_offs o) len;
   set_op op (set_buffer o (buffer o) (u64 (buffer_offs o + len)));;
   mret (TEE_SUCCESS, (hash, len))) s =
  Done ((TEE_SUCCESS, (slice b (buffer_offs o) len, len)),
        mk_ta (<[op:=set_buffer o (Some b) (buffer_offs o + len)]> (ops s)) (kern s)).
Proof.
  intros [Ho Hn Hc Hb Hs Hbd Hof] Hr len.
  unfold mbind, M_bind, get_op. rewrite Ho. unfold the_buffer. rewrite Hb. cbn -[slice].
  rewrite (u64_id (block_size o - buffer_offs o)) by lia. fold len.
  rewrite read_at_ok by lia. cbn -[slice]. by rewrite u64_id by lia.
Qed.

Lemma extract_step op s o b r :
  digest_at op s o b → operationState o = TEE_OPERATION_STATE_EXTRACTING → 0 ≤ r →
  let len := Z.min (block_size o - buffer_offs o) r in
  TEE_DigestExtract op r s =
  Done ((TEE_SUCCESS, (slice b (buffer_offs o) len, len)),
        mk_ta (<[op:=set_buffer o (Some b) (buffer_offs o + len)]> (ops s)) (kern s)).
Proof.
  intros D He Hr len. pose proof D as [Ho Hn Hc Hb Hs Hbd Hof].
  unfold TEE_DigestExtract. rewrite (proj2 (Z.eqb_neq op 0) Hn). simpl.
  unfold mbind at 1 2 3 4, M_bind at 1 2 3 4. simpl. unfold get_op at 1. rewrite Ho, Hc. simpl.
  rewrite Hb, He. simpl. by apply extract_take.
Qed.

Lemma extracts_spec op rooms : ∀ s o b,
  digest_at op s o b → operationState o = TEE_OPERATION_STATE_EXTRACTING →
  Forall (λ r, 0 ≤ r) rooms →
  ∃ hs s', digest_extracts op rooms s = Done (hs, s') ∧ kern s' = kern s ∧
    concat hs = slice b (buffer_offs o) (Z.min (sum_rooms rooms) (block_size o - buffer_offs o)).
Proof.
  induction rooms as [|r rooms IH]; simpl; intros s o b D He Hr.
  - exists [], s. split_and!; [done|done|]. pose proof (da_offs _ _ _ _ D).
    by rewrite Z.min_l by lia.
  - apply Forall_cons in Hr as [Hr Hrs].
    unfold mbind, M_bind. rewrite (extract_step op s o b r D He Hr).
    set (len := Z.min (block_size o - buffer_offs o) r).
    pose proof D as [Ho Hn Hc Hb Hs Hbd Hof].
    destruct (IH (mk_ta (<[op:=set_buffer o (Some b) (buffer_offs o + len)]> (ops s)) (kern s))
      (set_buffer o (Some b) (buffer_offs o + len)) b) as (hs & s' & E & K & C).
    { split; try done; simpl; [apply lookup_insert_eq|lia]. }
    { done. }
    { done. }
    rewrite E. eexists _, s'. split_and!; [done|done|]. simpl. rewrite C. simpl.
    assert (0 ≤ sum_rooms rooms) as Hp.
    { clear -Hrs. induction Hrs; simpl; lia. }
    unfold slice. replace (Z.to_nat (buffer_offs o + len))
      with (Z.to_nat (buffer_offs o) + Z.to_nat len)%nat by lia.
    rewrite <- drop_drop. rewrite take_take_drop. f_equal. lia.
Qed.

(** The first extraction computes the digest. *)
Lemma extract_first op s o b r h k' :
  digest_at op s o b → operationState o ≠ TEE_OPERATION_STATE_EXTRACTING →
  buffer_offs o = 0 → blen h = block_size o →
  hash_final (state o) None 0 (block_size o) (kern s) = (TEE_SUCCESS, h, block_size o, k') →
  ∃ s1 o1, digest_at op s1 o1 h ∧ operationState o1 = TEE_OPERATION_STATE_EXTRACTING ∧
    kern s1 = k' ∧ block_size o1 = block_size o ∧ buffer_offs o1 = 0 ∧
    (0 ≤ r → TEE_DigestExtract op r s = TEE_DigestExtract op r s1).
Proof.
  intros D He O0 Hh Hf. pose proof D as [Ho Hn Hc Hb Hs Hbd Hof].
  set (o1 := set_operationState (set_flag (set_buffer o (Some h) 0) TEE_HANDLE_FLAG_EXTRACTING)
               TEE_OPERATION_STATE_EXTRACTING).
  set (s1 := mk_ta (<[op:=o1]> (ops s)) k').
  assert (digest_at op s1 o1 h) as D1.
  { split; try done; simpl; [apply lookup_insert_eq|lia]. }
  exists s1, o1. split_and!; try done. intros Hr.
  rewrite (extract_step op s1 o1 h r D1 eq_refl Hr), <- (extract_take op s1 o1 h r D1 Hr).
  unfold TEE_DigestExtract. rewrite (proj2 (Z.eqb_neq op 0) Hn). simpl panic_if.
  unfold mbind at 1 2 3, M_bind at 1 2 3. cbn -[mbind slice hash_final].
  unfold get_op at 1. rewrite Ho, Hc. cbn -[mbind slice hash_final].
  rewrite Hb, (proj2 (Z.eqb_neq _ _) He).
  unfold mbind at 1, M_bind at 1. unfold mbind at 1, M_bind at 1. cbn -[mbind slice hash_final].
  unfold sys. rewrite Hf. cbn -[slice].
  destruct (write_at_ok b 0 h (mk_ta (ops s) k')) as (b' & Ew & Lb & Fb); [lia|lia|].
  rewrite (run_bind _ _ _ _ _ Ew).
  rewrite Z.eqb_refl, O0. cbn -[slice read_at].
  assert (b' = h) as ->.
  { unfold first in Fb. simpl in Fb. rewrite firstn_all2 in Fb; [done|].
    unfold blen in *. lia. }
  done.
Qed.

(** With bytes extracted and the state no longer extracting, the function
    panics, whatever the core answers. *)
Lemma extract_stale_panics op s o b r :
  digest_at op s o b → operationState o ≠ TEE_OPERATION_STATE_EXTRACTING →
  buffer_offs o ≠ 0 → ∃ c, TEE_DigestExtract op r s = Panicked c.
Proof.
  intros D He O0. pose proof D as [Ho Hn Hc Hb Hs Hbd Hof].
  unfold TEE_DigestExtract. rewrite (proj2 (Z.eqb_neq op 0) Hn). simpl panic_if.
  unfold mbind at 1 2 3, M_bind at 1 2 3. cbn -[mbind slice hash_final].
  unfold get_op at 1. rewrite Ho, Hc. cbn -[mbind slice hash_final].
  rewrite Hb, (proj2 (Z.eqb_neq _ _) He). cbn -[mbind slice hash_final].
  unfold mbind at 1, M_bind at 1. unfold mbind at 1, M_bind at 1. unfold sys.
  destruct (hash_final _ _ _ _ _) as [[[res h] hl] k'] eqn:Hf.
  apply hash_final_room in Hf as [Hl _]; [|lia].
  destruct (write_at_ok b 0 h (mk_ta (ops s) k')) as (b' & Ew & _); [lia|lia|].
  rewrite (run_bind _ _ _ _ _ Ew). unfold panic_if at 1.
  destruct (negb (res =? TEE_SUCCESS)); [by eexists|]. cbn.
  unfold panic_if at 1. destruct (negb (hl =? block_size o)); [by eexists|].
  rewrite (proj2 (Z.eqb_neq _ 0) O0). by eexists.
Qed.

(** [TEE_ResetOperation] on a digest: the buffer is left as it is. *)
Lemma reset_digest op s o b :
  digest_at op s o b → op_flag o TEE_HANDLE_FLAG_KEY_SET = true →
  match TEE_ResetOperation op s with
  | Done (_, s') => ∃ o', digest_at op s' o' b ∧ buffer_offs o' = buffer_offs o ∧
      operationState o' = TEE_OPERATION_STATE_INITIAL
  | Panicked _ => True
  | Undef => False
  end.
Proof.
  intros [Ho Hn Hc Hb Hs Hbd Hof] Hk. unfold TEE_ResetOperation.
  rewrite (proj2 (Z.eqb_neq op 0) Hn). unfold mbind, M_bind, get_op. cbn. rewrite Ho, Hk. cbn.
  unfold reset_operation_state, mbind, M_bind, get_op. rewrite Ho, Hc. cbn.
  unfold sys. cbn. destruct (hash_init _ _ _ _) as [res k'].
  unfold panic_if. destruct (negb _); [done|]. cbn.
  exists (set_flag (set_operationState o TEE_OPERATION_STATE_INITIAL)
    TEE_HANDLE_FLAG_INITIALIZED). split_and!; [|done|done].
  split; try done. cbn. apply lookup_insert_eq.
Qed.

(** The comparison of a MAC that the core computed. *)
Lemma mac_compare_spec op s o msg n mac m h k' :
  ops s !! op = Some o → op ≠ 0 → ready o TEE_OPERATION_MAC = true →
  null_with_len msg n = false → m ≤ blen mac →
  hash_final (state o) msg n TEE_MAX_HASH_SIZE (kern s) = (TEE_SUCCESS, h, blen h, k') →
  ∃ s' o', TEE_MACCompareFinal op msg n (Some mac) m s =
    Done (if bool_decide (m = blen h ∧ first m mac = h)
          then TEE_SUCCESS else TEE_ERROR_MAC_INVALID, s') ∧
    kern s' = k' ∧ ops s' !! op = Some o' ∧
    operationState o' = TEE_OPERATION_STATE_INITIAL ∧
    op_flag o' TEE_HANDLE_FLAG_INITIALIZED = false.
Proof.
  intros Ho Hn Hr Hm Hmac Hf.
  destruct (hash_final_room _ _ _ TEE_MAX_HASH_SIZE _ _ _ _ _
    ltac:(unfold TEE_MAX_HASH_SIZE; lia) Hf) as [Hl _].
  set (o1 := set_operationState (clear_flag o TEE_HANDLE_FLAG_INITIALIZED)
               TEE_OPERATION_STATE_INITIAL).
  set (s1 := mk_ta (<[op:=o1]> (ops s)) k').
  assert (TEE_MACComputeFinal op msg n TEE_MAX_HASH_SIZE s =
          Done ((TEE_SUCCESS, (h, blen h)), s1)) as Ec.
  { unfold TEE_MACComputeFinal. rewrite (proj2 (Z.eqb_neq op 0) Hn), Hm. cbn -[slice].
    unfold mbind, M_bind, get_op. rewrite Ho, Hr. cbn. unfold sys. rewrite Hf. cbn.
    unfold finish_operation, mbind, M_bind, get_op. cbn. by rewrite Ho. }
  assert (op_flag o1 TEE_HANDLE_FLAG_INITIALIZED = false) as Hfl by apply has_flag_clear.
  unfold TEE_MACCompareFinal. unfold mbind at 1, M_bind at 1, get_op at 1. rewrite Ho, Hr.
  cbn [negb]. rewrite (run_bind _ _ _ _ _ Ec), Z.eqb_refl. cbn [negb].
  destruct (blen h =? m) eqn:E; breflect; cbn [negb].
  2:{ exists s1, o1. rewrite bool_decide_eq_false_2 by (intros [? _]; congruence).
      split_and!; try done. apply lookup_insert_eq. }
  subst m. pose proof (blen_nonneg h).
  destruct (write_at_ok (replicate (Z.to_nat TEE_MAX_HASH_SIZE) 0) 0 h s1)
    as (cm & Ew & Lc & Fc); [done|done|]. rewrite (run_bind _ _ _ _ _ Ew).
  assert (read_bytes (Some mac) (blen h) s1 = Done (slice mac 0 (blen h), s1)) as Er
    by (unfold read_bytes; by rewrite (proj2 (Z.leb_le _ _) Hmac)).
  rewrite (run_bind _ _ _ _ _ Er).
  assert (read_at cm 0 (blen h) s1 = Done (slice cm 0 (blen h), s1)) as Ea
    by (apply read_at_ok; [done|done|rewrite Lc; exact Hl]).
  rewrite (run_bind _ _ _ _ _ Ea).
  assert (slice cm 0 (blen h) = h) as -> by (rewrite slice_first; exact Fc).
  unfold memcmp_differs. rewrite !slice_first, (first_all (blen h) h) by done.
  assert (first (blen h) (first (blen h) mac) = first (blen h) mac) as ->
    by (unfold first; rewrite take_take; f_equal; lia).
  destruct (decide (first (blen h) mac = h)) as [D|D].
  - rewrite !bool_decide_eq_true_2 by done. cbn [negb].
    unfold op_state, mbind, M_bind, get_op. cbn. rewrite lookup_insert_eq. cbn.
    eexists _, _. split_and!; [done|done|cbn; apply lookup_insert_eq|done|done].
  - rewrite !bool_decide_eq_false_2 by (try intros [_ ?]; congruence). cbn [negb].
    exists s1, o1. split_and!; try done. apply lookup_insert_eq.
Qed.
End Digest.

(** A digest extracted piecewise. The first [TEE_DigestExtract] computes the
    digest [h] in the core, once; however the requests are cut, the pieces they
    return are consecutive slices of [h], and nothing is returned past its
    end. *)
Theorem digest_extract_slices `{L : UteeLaws} op s o b rooms h k' :
  digest_at op s o b → operationState o ≠ TEE_OPERATION_STATE_EXTRACTING →
  buffer_offs o = 0 → blen h = block_size o → Forall (λ r, 0 ≤ r) rooms → rooms ≠ [] →
  hash_final (state o) None 0 (block_size o) (kern s) = (TEE_SUCCESS, h, block_size o, k') →
  ∃ hs s', digest_extracts op rooms s = Done (hs, s') ∧ kern s' = k' ∧
    concat hs = first (Z.min (sum_rooms rooms) (blen h)) h.
Proof.
  intros D He O0 Hh Hr Hne Hf. destruct rooms as [|r rooms]; [done|].
  destruct (extract_first op s o b r h k' D He O0 Hh Hf) as (s1 & o1 & D1 & E1 & K1 & B1 & O1 & Eq).
  pose proof Hr as [Hr0 _]%Forall_cons.
  destruct (extracts_spec op (r :: rooms) s1 o1 h D1 E1 Hr) as (hs & s' & E & K & C).
  exists hs, s'. split_and!.
  - rewrite <- E. simpl. unfold mbind, M_bind. by rewrite Eq.
  - congruence.
  - by rewrite C, O1, B1, Hh, slice_first, Z.sub_0_r.
Qed.

(** [TEE_ResetOperation] in the middle of an extraction leaves the fill level
    of the buffer, so the operation cannot be extracted from again: the next
    [TEE_DigestExtract] panics on its assertion, whatever the core answers. *)
Theorem digest_reset_extract_panics `{L : UteeLaws} op s o b r :
  digest_at op s o b → op_flag o TEE_HANDLE_FLAG_KEY_SET = true → 0 < buffer_offs o →
  ∃ c, (TEE_ResetOperation op;; TEE_DigestExtract op r) s = Panicked c.
Proof.
  intros D Hk Ho. pose proof (reset_digest op s o b D Hk) as H.
  unfold mbind, M_bind. destruct (TEE_ResetOperation op s) as [[[] s']|c|]; [|by exists c|done].
  destruct H as (o' & D' & Eo & Es). apply (extract_stale_panics op s' o' b); [done| |lia].
  rewrite Es. done.
Qed.

(** [TEE_MACCompareFinal] on an active MAC operation returns success exactly
    when the given MAC is the one the core computed over the message, in length
    and contents, and [TEE_ERROR_MAC_INVALID] otherwise; either way the
    operation is back in its initial state and no longer initialised. *)
Theorem mac_compare_correct `{L : UteeLaws} op s o msg n mac m h k' :
  ops s !! op = Some o → op ≠ 0 → ready o TEE_OPERATION_MAC = true →
  null_with_len msg n = false → m ≤ blen mac →
  hash_final (state o) msg n TEE_MAX_HASH_SIZE (kern s) = (TEE_SUCCESS, h, blen h, k') →
  ∃ s' o', TEE_MACCompareFinal op msg n (Some mac) m s =
    Done (if bool_decide (m = blen h ∧ first m mac = h)
          then TEE_SUCCESS else TEE_ERROR_MAC_INVALID, s') ∧
    kern s' = k' ∧ ops s' !! op = Some o' ∧
    operationState o' = TEE_OPERATION_STATE_INITIAL ∧
    op_flag o' TEE_HANDLE_FLAG_INITIALIZED = false.
Proof. apply mac_compare_spec. Qed.

(** ** Examples *)

(** A SHA-256 operation of which [offs] bytes have been extracted. *)
Definition digest_op (offs st : Z) : operation :=
  mk_op (mk_info TEE_ALG_SHA256 TEE_OPERATION_DIGEST TEE_MODE_DIGEST 32 0 0 0
           (Z.lor TEE_HANDLE_FLAG_KEY_SET TEE_HANDLE_FLAG_INITIALIZED))
    0 0 st (Some (replicate 32 7)) false 32 offs 48.

Definition digest_ta (offs st : Z) : ta := mk_ta {[16 := digest_op offs st]} [message 0 5].

Lemma digest_op_at offs st :
  0 ≤ offs ≤ 32 → digest_at 16 (digest_ta offs st) (digest_op offs st) (replicate 32 7).
Proof. intros H. split; done. Defined.

Theorem digest_extract_slices_witness :
  ∃ hs s', digest_extracts 16 [10; 0; 30; 5] (digest_ta 0 TEE_OPERATION_STATE_ACTIVE)
    = Done (hs, s') ∧ kern s' = [] ∧ concat hs = replicate 32 5.
Proof.
  apply (@digest_extract_slices echo_core echo_laws 16 _ _ _ [10; 0; 30; 5] (replicate 32 5) []
    (digest_op_at 0 TEE_OPERATION_STATE_ACTIVE ltac:(lia))); try done.
  repeat constructor; lia.
Defined.

Theorem digest_reset_extract_panics_witness :
  ∃ c, (TEE_ResetOperation 16;; TEE_DigestExtract 16 32)
    (digest_ta 10 TEE_OPERATION_STATE_EXTRACTING) = Panicked c.
Proof.
  apply (@digest_reset_extract_panics echo_core echo_laws 16 _ _ _ 32
    (digest_op_at 10 TEE_OPERATION_STATE_EXTRACTING ltac:(lia)) eq_refl).
  simpl. lia.
Defined.

(** An active HMAC operation. *)
Definition mac_ta : ta :=
  mk_ta {[16 := mk_op (mk_info TEE_ALG_HMAC_SHA256 TEE_OPERATION_MAC TEE_MODE_MAC 32 256 128
      TEE_USAGE_MAC (Z.lor TEE_HANDLE_FLAG_KEY_SET TEE_HANDLE_FLAG_INITIALIZED))
    32 0 TEE_OPERATION_STATE_ACTIVE None false 1 0 48]} [message 0 5].

Theorem mac_compare_correct_witness :
  (∃ s', TEE_MACCompareFinal 16 None 0 (Some (replicate 64 5)) 64 mac_ta
    = Done (TEE_SUCCESS, s')) ∧
  (∃ s', TEE_MACCompareFinal 16 None 0 (Some (replicate 64 6)) 64 mac_ta
    = Done (TEE_ERROR_MAC_INVALID, s')).
Proof.
  split.
  - destruct (@mac_compare_correct echo_core echo_laws 16 mac_ta _ None 0 (replicate 64 5) 64 (replicate 64 5) []
      eq_refl ltac:(done) eq_refl eq_refl ltac:(done) eq_refl) as (s' & o' & E & _).
    exists s'. exact E.
  - destruct (@mac_compare_correct echo_core echo_laws 16 mac_ta _ None 0 (replicate 64 6) 64 (replicate 64 5) []
      eq_refl ltac:(done) eq_refl eq_refl ltac:(done) eq_refl) as (s' & o' & E & _).
    exists s'. exact E.
Defined.
