(* ===== verification/UteeCryptSafe.v ===== *)
(** Memory safety of each function of tee_api_operations.c and of the
    transient object functions it calls, then of the digest, cipher, MAC,
    authenticated encryption, asymmetric and derivation functions, and of every
    sequence of calls. *)
From S2P Require Import Prelude Bytes UteeDefs UteeOps UteeCrypt UteeCipher UteeTables UteeSafe.

Section MemSafe.
Context `{L : UteeLaws}.

Implicit Types s : ta.

(** *** Transient objects *)

Lemma spec_ResetTransientObject k s : wf s → spec (TEE_ResetTransientObject k) s.
Proof. intros. unfold TEE_ResetTransientObject. utee. Qed.

Lemma spec_FreeTransientObject k s : wf s → spec (TEE_FreeTransientObject k) s.
Proof. intros. unfold TEE_FreeTransientObject. utee. Qed.

Lemma spec_AllocateTransientObject t m s : wf s → spec (TEE_AllocateTransientObject t m) s.
Proof. intros. unfold TEE_AllocateTransientObject. utee. Qed.

Lemma spec_GetObjectInfo1 k s : wf s → spec (TEE_GetObjectInfo1 k) s.
Proof. intros. unfold TEE_GetObjectInfo1. utee. Qed.

Lemma spec_CopyObjectAttributes1 d k s : wf s → spec (TEE_CopyObjectAttributes1 d k) s.
Proof. intros. unfold TEE_CopyObjectAttributes1. utee. Qed.

#[local] Hint Resolve spec_ResetTransientObject spec_FreeTransientObject
  spec_AllocateTransientObject spec_GetObjectInfo1 spec_CopyObjectAttributes1 : utee.

(** *** State, keys, information *)

Lemma spec_op_state op v s : wf s → live op s → spec (op_state op v) s.
Proof. intros. unfold op_state. utee. Qed.

Lemma spec_op_clear_flag op f s : wf s → live op s → spec (op_clear_flag op f) s.
Proof. intros. unfold op_clear_flag. utee. Qed.

Lemma spec_op_set_flag op f s : wf s → live op s → spec (op_set_flag op f) s.
Proof. intros. unfold op_set_flag. utee. Qed.

Lemma spec_reset_operation_state op s : wf s → live op s → spec (reset_operation_state op) s.
Proof. intros. unfold reset_operation_state. utee. Qed.

#[local] Hint Resolve spec_op_state spec_op_clear_flag spec_op_set_flag
  spec_reset_operation_state : utee.

Lemma spec_reset_if_active op s : wf s → live op s → spec (reset_if_active op) s.
Proof. intros. unfold reset_if_active. utee. Qed.

#[local] Hint Resolve spec_reset_if_active : utee.

Lemma spec_ResetOperation op s : wf s → handle_ok op s → spec (TEE_ResetOperation op) s.
Proof. intros. unfold TEE_ResetOperation. utee. Qed.

#[local] Hint Resolve spec_ResetOperation : utee.

Lemma spec_GetOperationInfo op s : wf s → handle_ok op s → spec (TEE_GetOperationInfo op) s.
Proof. intros. unfold TEE_GetOperationInfo. utee. Qed.

Lemma spec_out_info r s : wf s → spec (out_info r) s.
Proof. intros. unfold out_info. utee. Qed.

#[local] Hint Resolve spec_out_info : utee.

Lemma spec_GetOperationInfoMultiple op n s :
  wf s → handle_ok op s → spec (TEE_GetOperationInfoMultiple op n) s.
Proof. intros. unfold TEE_GetOperationInfoMultiple. utee. Qed.

Lemma spec_SetOperationKey op k s :
  wf s → handle_ok op s → spec (TEE_SetOperationKey op k) s.
Proof. intros. unfold TEE_SetOperationKey. utee. Qed.

Lemma spec_set_operation_key2 op k1 k2 s :
  wf s → handle_ok op s → spec (set_operation_key2 op k1 k2) s.
Proof. intros. unfold set_operation_key2. utee. Qed.

#[local] Hint Resolve spec_SetOperationKey spec_set_operation_key2 : utee.

Lemma spec_SetOperationKey2 op k1 k2 s :
  wf s → handle_ok op s → spec (TEE_SetOperationKey2 op k1 k2) s.
Proof. intros. unfold TEE_SetOperationKey2. utee. Qed.

Lemma spec_gp11_SetOperationKey op k s :
  wf s → handle_ok op s → spec (__GP11_TEE_SetOperationKey op k) s.
Proof. intros. unfold __GP11_TEE_SetOperationKey. utee. Qed.

Lemma spec_gp11_SetOperationKey2 op k1 k2 s :
  wf s → handle_ok op s → spec (__GP11_TEE_SetOperationKey2 op k1 k2) s.
Proof. intros. unfold __GP11_TEE_SetOperationKey2. utee. Qed.

#[local] Hint Resolve spec_SetOperationKey2 : utee.

(** *** Copying an operation *)

Lemma blen_copy (dst src : bytes) n :
  0 ≤ n ≤ blen src → n ≤ blen dst → blen (take (Z.to_nat n) src ++ drop (Z.to_nat n) dst) = blen dst.
Proof. unfold blen. rewrite length_app, length_take, length_drop. lia. Qed.

(** Copying the buffer between operations of the same block size. *)
Lemma spec_copy_op_buffer dst_op d o s :
  wf s → holds dst_op d s → op_wf d → op_wf o →
  negb (Bool.eqb (buffer_two_blocks d) (buffer_two_blocks o))
    || negb (block_size d =? block_size o) = false →
  spec (copy_op_buffer dst_op d o) s.
Proof.
  intros W H Wd Wo [E2 Eb]%orb_false_iff. breflect. apply eqb_prop in E2.
  unfold copy_op_buffer. pose proof (ow_buf _ Wd) as Bd. pose proof (ow_buf _ Wo) as Bo.
  destruct (buffer d) as [bd|], (buffer o) as [bs|]; try done; [|by apply spec_ret].
  assert (buffer_size d = buffer_size o) as Es by (unfold buffer_size; by rewrite E2, Eb).
  change (if buffer_two_blocks o then _ else _) with (buffer_size o). cbv zeta.
  pose proof (buffer_size_nonneg _ Wo). pose proof (ow_offs _ Wo).
  unfold copy_buffer. rewrite (proj2 (Z.leb_le (buffer_size o) (blen bs))) by lia.
  rewrite (proj2 (Z.leb_le (buffer_size o) (blen bd))) by lia. simpl.
  unfold spec. eapply (safe_bind _ _ _ (λ b s', s' = s ∧ blen b = blen bd)).
  - simpl. split; [done|]. apply blen_copy; lia.
  - intros b s' [-> Lb]. eapply spec_set; [done|done|done|].
    apply op_wf_buffer; [done|lia|lia|lia].
Qed.

#[local] Hint Resolve spec_copy_op_buffer : utee.

Lemma spec_CopyOperation d o s :
  wf s → handle_ok d s → handle_ok o s → spec (TEE_CopyOperation d o) s.
Proof. intros. unfold TEE_CopyOperation. utee. Qed.

(** *** Allocation and release *)

(** A function that may add or release handles. *)
Definition wf_spec {A} (m : M A) s : Prop := safe m s (λ _ s', wf s').

Lemma spec_wf_spec {A} (m : M A) s : spec m s → wf_spec m s.
Proof. unfold spec, wf_spec, safe. destruct (m s) as [[a s']| |]; tauto. Qed.

Lemma wf_spec_bind {A B} (m : M A) (f : A → M B) s :
  wf_spec m s → (∀ a s', wf s' → wf_spec (f a) s') → wf_spec (m ≫= f) s.
Proof. intros H1 H2. by eapply safe_bind. Qed.

Lemma wf_delete op s : wf s → wf (mk_ta (delete op (ops s)) (kern s)).
Proof. intros W. by apply map_Forall_delete. Qed.

Lemma wf_spec_FreeOperation op s : wf s → handle_ok op s → wf_spec (TEE_FreeOperation op) s.
Proof.
  intros W H. unfold TEE_FreeOperation. destruct (op =? 0) eqn:E; [done|].
  destruct (handle_ok_live _ _ H E) as [o Ho].
  unfold wf_spec, safe, mbind, M_bind, get_op. rewrite Ho. unfold sys.
  destruct (cryp_state_free _ _) as [res k]. unfold panic_if.
  destruct (negb _); [done|]. cbn. by apply wf_delete.
Qed.

(** Transient objects do not touch the heap. *)
Definition same_ops {A} (m : M A) : Prop := ∀ s, safe m s (λ _ s', ops s' = ops s).

Lemma same_ops_bind {A B} (m : M A) (f : A → M B) :
  same_ops m → (∀ a, same_ops (f a)) → same_ops (m ≫= f).
Proof.
  intros H1 H2 s. eapply safe_bind; [apply H1|]. intros a s' E. specialize (H2 a s').
  unfold safe in *. destruct (f a s') as [[b s2]| |]; [congruence|done|done].
Qed.

Lemma same_ops_sys {A} (f : kst → A * kst) : same_ops (sys f).
Proof. intros s. unfold safe, sys. by destruct (f (kern s)). Qed.

Lemma same_ops_panic_if b c : same_ops (panic_if b c).
Proof. intros s. by destruct b. Qed.

Lemma same_ops_FreeTransientObject k : same_ops (TEE_FreeTransientObject k).
Proof.
  unfold TEE_FreeTransientObject. destruct (k =? 0); [done|].
  apply same_ops_bind; [apply same_ops_sys|]. intros [res oi].
  repeat (apply same_ops_bind; [apply same_ops_panic_if || apply same_ops_sys|]; intros ?).
  apply same_ops_panic_if.
Qed.

Lemma wf_delete_insert op o s s' :
  wf s → ops s' = <[op:=o]> (ops s) → wf (mk_ta (delete op (ops s')) (kern s')).
Proof.
  intros W E. unfold wf in *. simpl. rewrite E, delete_insert_eq. by apply map_Forall_delete.
Qed.

Lemma wf_spec_alloc_fail op o res s :
  wf s → op ≠ 0 → wf_spec (alloc_fail op o res) s.
Proof.
  intros W N. unfold alloc_fail, wf_spec. eapply (safe_bind _ _ _ (λ _ s', s' = s)).
  { unfold panic_if. by case_match. }
  intros _ ? ->. eapply (safe_bind _ _ _ (λ _ s', ops s' = <[op:=o]> (ops s))); [done|].
  intros _ s1 E1. eapply (safe_bind _ _ _ (λ _ s', wf s')); [|done].
  destruct (negb _).
  - unfold TEE_FreeOperation. rewrite (proj2 (Z.eqb_neq op 0) N).
    eapply (safe_bind _ _ _ (λ _ s', ops s' = <[op:=o]> (ops s))).
    { unfold safe, get_op. by rewrite E1, lookup_insert_eq. }
    intros o1 s2 E2. eapply (safe_bind _ _ _ (λ _ s', ops s' = <[op:=o]> (ops s))).
    { unfold safe, sys. by destruct (cryp_state_free _ _). }
    intros r s3 E3. eapply (safe_bind _ _ _ (λ _ s', ops s' = <[op:=o]> (ops s))).
    { unfold panic_if. by case_match. }
    intros _ s4 E4. by eapply wf_delete_insert.
  - eapply (safe_bind _ _ _ (λ _ s', ops s' = <[op:=o]> (ops s))).
    { pose proof (same_ops_FreeTransientObject (key1 o) s1) as H. unfold safe in *.
      case_match; [|done..]. case_match. congruence. }
    intros _ s2 E2. eapply (safe_bind _ _ _ (λ _ s', ops s' = <[op:=o]> (ops s))).
    { pose proof (same_ops_FreeTransientObject (key2 o) s2) as H. unfold safe in *.
      case_match; [|done..]. case_match. congruence. }
    intros _ s4 E4. by eapply wf_delete_insert.
Qed.

(** The operation that is filled in is well formed. *)
Lemma alloc_op_wf na1 alg m max su dl usage k1 k2 opst buf st h :
  check_alg_mode na1 alg m = Some su →
  let bs := alloc_block_size na1 alg su in
  (if 1 <? bs then ∃ b, buf = Some b ∧ blen b = (if su_two_blocks su then bs * 2 else bs)
   else buf = None) →
  op_wf (mk_op (mk_info alg (alloc_class na1 alg) m dl max 0 usage h)
           k1 k2 opst buf (su_two_blocks su) bs 0 st).
Proof.
  intros E bs Hb. apply alloc_setup_ok in E. unfold alloc_ok in E. fold bs in E.
  clearbody bs.
  apply andb_true_iff in E as [E E4]. apply andb_true_iff in E as [E E3].
  apply andb_true_iff in E as [E1 E2]. apply is_one_of_In in E1.
  assert (0 ≤ bs ≤ 64) as Hbs by set_solver by lia.
  split; unfold buffer_size; cbn -[is_one_of].
  - lia.
  - destruct (1 <? bs) eqn:El; breflect; [destruct Hb as (b & -> & Hb); lia|].
    subst buf. lia.
  - destruct (su_two_blocks su); lia.
  - intros Hc Hl. rewrite Hc in E2. cbn -[is_one_of] in E2. apply is_one_of_In in E2.
    assert (bs = 2 ^ 3 ∨ bs = 2 ^ 4) as [->| ->] by set_solver by lia;
      eexists; (split; [|reflexivity]); lia.
  - intros Hc. rewrite Hc in E3. simpl in E3. by destruct (su_two_blocks su).
  - intros Hn. rewrite Hn in E4. simpl in E4. by breflect.
Qed.

Lemma wf_spec_bind_spec {A B} (m : M A) (f : A → M B) s :
  spec m s → (∀ a s', wf s' → wf_spec (f a) s') → wf_spec (m ≫= f) s.
Proof. intros H. by apply wf_spec_bind, spec_wf_spec. Qed.

Lemma wf_spec_set op o s : wf s → op_wf o → wf_spec (set_op op o) s.
Proof. intros W Wo. by apply map_Forall_insert_2. Qed.

(** The buffer that an operation of block size [bs] gets. *)
Lemma alloc_buffer_spec bs n s :
  wf s → (1 < bs → 0 ≤ n) →
  safe (if 1 <? bs then sys (malloc_buf n) else mret None) s
    (λ buf s', wf s' ∧
       ((1 <? bs) && match buf with None => true | Some _ => false end = false →
        if 1 <? bs then ∃ b, buf = Some b ∧ blen b = n else buf = None)).
Proof.
  intros W Hn. destruct (1 <? bs) eqn:E0; [|done]. breflect. specialize (Hn E0).
  unfold safe, sys.
  destruct (malloc_buf n (kern s)) as [[b|] k] eqn:E; (split; [done|]); [|done].
  intros _. exists b. split; [done|]. by eapply malloc_buf_size.
Qed.

Lemma wf_spec_alloc_operation alg m max su s :
  wf s → check_alg_mode CFG_CRYPTO_RSASSA_NA1 alg m = Some su →
  wf_spec (alloc_operation alg m max su) s.
Proof.
  intros W E. unfold alloc_operation. unfold wf_spec at 1.
  eapply (safe_bind _ _ _ (λ addr s', wf s' ∧ ∀ a, addr = Some a → a ≠ 0)).
  { unfold safe, sys. destruct (malloc_op (kern s)) as [addr k] eqn:Ea. split; [done|].
    intros a ->. by eapply malloc_op_nonnull. }
  intros [op|] s1 [W1 N]; [|exact W1]. specialize (N op eq_refl). cbv zeta.
  fold (alloc_class CFG_CRYPTO_RSASSA_NA1 alg). simpl digestLength.
  fold (alloc_block_size CFG_CRYPTO_RSASSA_NA1 alg su).
  set (bs := alloc_block_size _ _ _).
  eapply safe_bind; [apply alloc_buffer_spec; [done|case_match; lia]|]. intros buf s2 [W2 Hb].
  destruct (_ && _); [by apply wf_spec_alloc_fail|]. specialize (Hb eq_refl).
  apply wf_spec_bind_spec; [utee; by apply spec_AllocateTransientObject|].
  intros [res k1] s3 W3. destruct (negb _); [by apply wf_spec_alloc_fail|].
  apply wf_spec_bind_spec; [utee; by apply spec_AllocateTransientObject|].
  intros [res2 k2] s4 W4. destruct (negb _); [by apply wf_spec_alloc_fail|].
  apply wf_spec_bind_spec; [by apply spec_sys|].
  intros [res3 st] s5 W5. destruct (negb _); [by apply wf_spec_alloc_fail|].
  apply wf_spec_bind_spec; [utee|].
  intros res4 s6 W6. destruct (negb _); [by apply wf_spec_alloc_fail|].
  apply wf_spec_bind; [|done]. apply wf_spec_set; [done|].
  by eapply alloc_op_wf.
Qed.

Lemma wf_spec_AllocateOperation b alg m max s :
  wf s → wf_spec (TEE_AllocateOperation b alg m max) s.
Proof.
  intros W. unfold TEE_AllocateOperation. apply wf_spec_bind_spec; [by apply spec_panic_if|].
  intros _ s' W'. destruct (negb _); [done|].
  destruct (check_alg_mode _ _ _) eqn:E; [by apply wf_spec_alloc_operation|done].
Qed.
End MemSafe.

#[export] Hint Resolve spec_ResetTransientObject spec_FreeTransientObject
  spec_AllocateTransientObject spec_GetObjectInfo1 spec_CopyObjectAttributes1
  spec_op_state spec_op_clear_flag spec_op_set_flag spec_reset_operation_state
  spec_reset_if_active spec_ResetOperation spec_out_info spec_SetOperationKey
  spec_set_operation_key2 spec_SetOperationKey2 spec_copy_op_buffer : utee.

(** The pointer [src] can be read for [n] bytes when it is not NULL. *)
Definition src_ok (src : option bytes) (n : Z) : Prop :=
  0 ≤ n < 2 ^ 62 ∧ match src with Some d => n ≤ blen d | None => True end.

(** A length of a buffer. *)
Definition len_ok (n : Z) : Prop := 0 ≤ n < 2 ^ 62.

Section CryptSafe.
Context `{L : UteeLaws}.

Implicit Types s : ta.

Lemma spec_init_hash_operation op iv n s :
  wf s → live op s → spec (init_hash_operation op iv n) s.
Proof. intros. unfold init_hash_operation. utee. Qed.

#[local] Hint Resolve spec_init_hash_operation : utee.

Lemma spec_DigestUpdate op c n s : wf s → handle_ok op s → spec (TEE_DigestUpdate op c n) s.
Proof. intros. unfold TEE_DigestUpdate. utee. Qed.

(** Reading the buffer of a digest from the bytes that were extracted. *)
Lemma digest_read o b n s :
  op_wf o → operationClass (info o) = TEE_OPERATION_DIGEST → buffer o = Some b → 0 ≤ n →
  wf s →
  let len := Z.min (u64 (block_size o - buffer_offs o)) n in
  0 ≤ len ≤ block_size o - buffer_offs o ∧ spec (read_at b (buffer_offs o) len) s.
Proof.
  intros W Hc Hb Hn Ws len. pose proof (ow_buf _ W) as B. rewrite Hb in B.
  pose proof (ow_offs _ W) as O. pose proof (ow_size _ W).
  unfold buffer_size in *. rewrite (ow_digest _ W Hc) in *.
  assert (0 ≤ len ≤ block_size o - buffer_offs o) as Hl
    by (subst len; rewrite u64_id by lia; lia).
  split; [done|]. unfold spec, safe. rewrite read_at_ok by lia.
  split; [done|apply keeps_refl].
Qed.

Lemma spec_DigestDoFinal op c n h s :
  wf s → handle_ok op s → len_ok h → spec (TEE_DigestDoFinal op c n h) s.
Proof.
  intros W H [Hh _]. unfold TEE_DigestDoFinal. utee.
  eapply (digest_read o l h); try done. by breflect.
Qed.

(** A bind whose first part does not change the state. *)
Lemma spec_bind_pure {A B} (m : M A) (f : A → M B) s (P : A → Prop) :
  safe m s (λ a s', s' = s ∧ P a) → (∀ a, P a → spec (f a) s) → spec (m ≫= f) s.
Proof.
  intros H1 H2. unfold spec. eapply safe_bind; [apply H1|]. intros a s' [-> Ha]. by apply H2.
Qed.

(** A bind whose first part is known to do more than keep the heap. *)
Lemma spec_safe_bind {A B} (m : M A) (f : A → M B) s (P : A → ta → Prop) :
  safe m s (λ a s', wf s' ∧ keeps s s' ∧ P a s') →
  (∀ a s', wf s' → keeps s s' → P a s' → spec (f a) s') → spec (m ≫= f) s.
Proof.
  intros H1 H2. unfold spec. eapply safe_bind; [apply H1|]. intros a s' (W & K & Ha).
  specialize (H2 a s' W K Ha). unfold spec, safe in *.
  destruct (f a s') as [[b s2]| |]; [|done|done]. destruct H2 as [W2 K2].
  split; [done|by eapply keeps_trans].
Qed.

Lemma safe_write_at (buf : bytes) off (data : bytes) s :
  0 ≤ off → off + blen data ≤ blen buf →
  safe (write_at buf off data) s (λ b s', s' = s ∧ blen b = blen buf).
Proof.
  intros H1 H2. destruct (write_at_ok buf off data s H1 H2) as (b & E & Lb & _).
  unfold safe. by rewrite E.
Qed.

Lemma safe_read_at (buf : bytes) off n s :
  0 ≤ off → 0 ≤ n → off + n ≤ blen buf →
  safe (read_at buf off n) s (λ b s', s' = s ∧ blen b = n).
Proof.
  intros. unfold safe. rewrite read_at_ok by lia. split; [done|]. by apply blen_slice.
Qed.

(** Extracting from the buffer of a digest. *)
Lemma spec_digest_take op o h s :
  wf s → holds op o s → op_wf o → operationClass (info o) = TEE_OPERATION_DIGEST →
  1 < block_size o → 0 ≤ h →
  spec (o ← get_op op;
        b ← the_buffer o;
        let len := Z.min (u64 (block_size o - buffer_offs o)) h in
        hash ← read_at b (buffer_offs o) len;
        set_op op (set_buffer o (buffer o) (u64 (buffer_offs o + len)));;
        mret (TEE_SUCCESS, (hash, len))) s.
Proof.
  intros W Ho _ Hc Hbs Hh. destruct Ho as (o' & Eo & St).
  apply spec_get_bind; [done|by exists o'|]. intros o1 (o2 & E2 & St2) W1.
  replace o2 with o' in * by congruence. clear o2 E2.
  assert (operationClass (info o1) = TEE_OPERATION_DIGEST ∧ 1 < block_size o1) as [Hc1 Hb1]
    by (unfold static in *; simplify_eq; split; [congruence|lia]).
  pose proof (ow_buf _ W1) as B. destruct (buffer o1) as [b|] eqn:Eb; [|lia].
  apply (spec_bind_pure _ _ _ (λ b', b' = b)).
  { unfold safe, the_buffer. by rewrite Eb. }
  intros ? ->. cbv zeta.
  destruct (digest_read o1 b h s W1 Hc1 Eb Hh W) as [Hl R].
  apply spec_bind; [apply R|]. intros hash s1 W3 K. apply spec_bind; [|by intros; utee].
  eapply (spec_set op _ o1); [done| |done|].
  - eapply holds_keeps; [apply K|]. by exists o'.
  - rewrite <- Eb. apply op_wf_offs; [done|].
    pose proof (ow_offs _ W1). pose proof (ow_size _ W1).
    unfold buffer_size in *. rewrite (ow_digest _ W1 Hc1) in *. rewrite u64_id by lia. lia.
Qed.

Lemma spec_DigestExtract op h s :
  wf s → handle_ok op s → len_ok h → spec (TEE_DigestExtract op h) s.
Proof.
  intros W H [Hh _]. unfold TEE_DigestExtract.
  apply spec_panic_if_bind. intros E0. apply spec_get_bind; [done|utee|].
  intros o Ho Wo. apply spec_panic_if_bind. intros Hc. breflect.
  destruct (buffer o) as [b|] eqn:Eb; [|utee].
  pose proof (ow_buf _ Wo) as B. rewrite Eb in B. destruct B as [Hbs Hbl].
  apply spec_bind; [|intros _ s1 W1 K; carry; by apply (spec_digest_take op o)].
  destruct (negb _); [|utee]. unfold buffer_size in Hbl. rewrite (ow_digest _ Wo Hc) in Hbl.
  apply spec_sys_bind. intros [[res digest] hl] k E.
  destruct (hash_final_room _ _ _ (block_size o) _ _ _ _ _ ltac:(lia) E) as [Hd _].
  apply (spec_bind_pure _ _ _ (λ b', blen b' = blen b)).
  { apply safe_write_at; lia. }
  intros b' Lb. utee. eapply (spec_set op _ o); [done|done|done|].
  apply op_wf_state, op_wf_set_flag, op_wf_buffer; [done|done| |apply Wo].
  unfold buffer_size. rewrite (ow_digest _ Wo Hc). lia.
Qed.

#[local] Hint Resolve spec_DigestUpdate spec_DigestDoFinal spec_DigestExtract : utee.

(** *** Ciphers *)

Definition buffered_class (o : operation) : bool :=
  is_one_of (operationClass (info o)) [TEE_OPERATION_CIPHER; TEE_OPERATION_AE].

Lemma op_wf_buf_ok o :
  op_wf o → buffered_class o = true → 1 < block_size o → ∃ b, buf_ok o b.
Proof.
  intros W Hc Hb. pose proof (ow_buf _ W) as B.
  destruct (buffer o) as [b|] eqn:Eb; [|lia]. exists b.
  split; [by apply ow_pow2|done|apply B|apply W].
Qed.

Lemma spec_tee_buffer_update op upd src n dl o s :
  wf s → holds op o s → buffered_class o = true → (1 <? block_size o) = true →
  src_ok src n → len_ok dl → spec (tee_buffer_update op upd src n dl) s.
Proof.
  intros W (o' & Ho & St) Hc Hb%Z.ltb_lt [Hn Hs] Hd. unfold static in St. simplify_eq.
  destruct src as [d|]; [|simpl; utee].
  assert (op_wf o') as Wo by (by apply (W op)).
  destruct (op_wf_buf_ok o' Wo) as [b B]; [unfold buffered_class in *; congruence|lia|].
  unfold len_ok in Hd.
  pose proof (tee_buffer_update_spec op upd o' b d n dl s Ho B ltac:(lia) ltac:(lia)
    ltac:(lia)) as HU. unfold spec, safe.
  destruct (tee_buffer_update _ _ _ _ _ _) as [[[out acc] s']| |]; [|done|done].
  destruct HU as (o2 & Os & cs & b' & _ & Eo & B2 & _). rewrite Eo in *.
  destruct B2 as [_ _ Bs Bo]. simpl in *.
  assert (op_wf (set_buffer o' (Some b') (buffer_offs o2))) as W2
    by (apply op_wf_buffer; [done|lia|done|done]).
  split; [unfold wf; rewrite Os; by apply map_Forall_insert_2|].
  intros a oa Ha. rewrite Os. destruct (decide (a = op)) as [->|Ne].
  - rewrite lookup_insert_eq. eexists. split; [done|]. by simplify_eq.
  - rewrite lookup_insert_ne by done. by exists oa.
Qed.

Lemma safe_read_bytes src n s :
  src_ok src n → null_with_len src n = false →
  safe (read_bytes src n) s (λ b s', s' = s ∧ blen b = n).
Proof.
  intros [Hn Hs] Hl. destruct src as [d|]; simpl in *.
  - rewrite (proj2 (Z.leb_le n _)) by lia. simpl. split; [done|]. apply blen_slice; lia.
  - apply negb_false_iff in Hl. rewrite Hl. simpl. breflect. by subst n.
Qed.

Lemma spec_read_bytes src n s :
  wf s → src_ok src n → null_with_len src n = false → spec (read_bytes src n) s.
Proof.
  intros W H1 H2. pose proof (safe_read_bytes src n s H1 H2) as H. unfold spec, safe in *.
  destruct (read_bytes src n s) as [[b s']| |]; [|done|done].
  destruct H as [-> _]. split; [done|apply keeps_refl].
Qed.

Lemma null_with_len_r b src n : b || null_with_len src n = false → null_with_len src n = false.
Proof. by intros [_ ?]%orb_false_iff. Qed.

Lemma spec_final_input o src n s :
  wf s → op_wf o → src_ok src n → null_with_len src n = false → spec (final_input o src n) s.
Proof.
  intros W Wo H1 H2. unfold final_input. destruct (1 <? block_size o) eqn:E.
  2:{ by apply spec_read_bytes. }
  breflect. pose proof (ow_buf _ Wo) as B. pose proof (ow_offs _ Wo).
  destruct (buffer o) as [b|] eqn:Eb; [|lia].
  unfold the_buffer. rewrite Eb.
  apply (spec_bind_pure _ _ _ (λ b', b' = b)); [done|]. intros ? ->.
  unfold spec, safe. rewrite read_at_ok by lia. split; [done|apply keeps_refl].
Qed.

Lemma spec_finish_operation op s : wf s → live op s → spec (finish_operation op) s.
Proof. intros. unfold finish_operation. utee. Qed.

Lemma ready_buffered o : ready o TEE_OPERATION_CIPHER = true → buffered_class o = true.
Proof. unfold ready, buffered_class. intros H. breflect. by rewrite H. Qed.

Lemma ae_ready_buffered o : ae_ready o = true → buffered_class o = true.
Proof. unfold ae_ready, buffered_class. intros H. breflect. by rewrite H. Qed.

#[local] Hint Resolve spec_tee_buffer_update spec_read_bytes null_with_len_r
  spec_final_input spec_finish_operation ready_buffered ae_ready_buffered
  negb_false_iff : utee.
#[local] Hint Extern 1 (buffered_class _ = true) =>
  (apply ready_buffered; by breflect) || (apply ae_ready_buffered; by breflect) : utee.

Lemma spec_init_checks op c s : wf s → handle_ok op s → spec (init_checks op c) s.
Proof. intros. unfold init_checks. utee. Qed.

(** After the checks the handle is live and the operation is its own. *)
Lemma safe_init_checks op c s :
  wf s → handle_ok op s →
  safe (init_checks op c) s (λ o s', wf s' ∧ keeps s s' ∧ live op s').
Proof.
  intros W H. pose proof (spec_init_checks op c s W H) as Hs. unfold spec, safe in *.
  destruct (init_checks op c s) as [[o s']| |] eqn:E; [|done|done].
  destruct Hs as [W' K]. split_and!; [done|done|]. eapply live_keeps; [done|].
  apply H. intros ->. done.
Qed.

(** The class of an operation that [init_checks] lets through is the wanted one,
    the set-up never depends on it; the handle stays live. *)
Lemma spec_init_bind {B} op c s (f : operation → M B) :
  wf s → handle_ok op s →
  (∀ o s', wf s' → live op s' → spec (f o) s') → spec (init_checks op c ≫= f) s.
Proof.
  intros W H Hf. eapply spec_safe_bind; [by apply safe_init_checks|].
  intros o s' W' _. by apply Hf.
Qed.

Lemma spec_CipherInit op iv n s : wf s → handle_ok op s → spec (TEE_CipherInit op iv n) s.
Proof.
  intros W H. unfold TEE_CipherInit. apply spec_init_bind; [done..|].
  clear W H. intros o s' W H. utee.
Qed.

Lemma spec_MACInit op iv n s : wf s → handle_ok op s → spec (TEE_MACInit op iv n) s.
Proof.
  intros W H. unfold TEE_MACInit. apply spec_init_bind; [done..|].
  clear W H. intros o s' W H. utee.
Qed.

Lemma spec_MACUpdate op c n s : wf s → handle_ok op s → spec (TEE_MACUpdate op c n) s.
Proof. intros. unfold TEE_MACUpdate. utee. Qed.

Lemma spec_CipherUpdate op src n dl s :
  wf s → handle_ok op s → src_ok src n → len_ok dl → spec (TEE_CipherUpdate op src n dl) s.
Proof. intros. unfold TEE_CipherUpdate. utee. Qed.

Lemma spec_CipherDoFinal op src n dl s :
  wf s → handle_ok op s → src_ok src n → len_ok (default 0 dl) →
  spec (TEE_CipherDoFinal op src n dl) s.
Proof.
  intros. unfold TEE_CipherDoFinal. utee.
  - apply andb_true_iff in Heqb1 as [Ha Hb]. pose proof (ow_nopad o ltac:(done) Ha).
    breflect. lia.
  - eapply spec_tee_buffer_update; eauto with utee.
    by apply andb_true_iff in Heqb4 as [Heqb4 _].
Qed.

#[local] Hint Resolve spec_CipherInit spec_MACInit spec_MACUpdate spec_CipherUpdate
  spec_CipherDoFinal : utee.

Lemma spec_MACComputeFinal op c n m s :
  wf s → handle_ok op s → spec (TEE_MACComputeFinal op c n m) s.
Proof. intros. unfold TEE_MACComputeFinal. utee. Qed.

(** What [TEE_MACComputeFinal] writes fits the buffer it is given. *)
Lemma safe_MACComputeFinal op c n m s :
  wf s → handle_ok op s → 0 ≤ m →
  safe (TEE_MACComputeFinal op c n m) s (λ r s', wf s' ∧ keeps s s' ∧
    (r.1 = TEE_SUCCESS → blen r.2.1 ≤ m ∧ 0 ≤ r.2.2 ≤ m)).
Proof.
  intros W H Hm. pose proof (spec_MACComputeFinal op c n m s W H) as HS.
  unfold spec, safe in *.
  destruct (TEE_MACComputeFinal op c n m s) as [[[res [mac ml]] s']| |] eqn:E; [|done|done].
  destruct HS as [W' K]. split_and!; [done|done|]. simpl. intros ->.
  revert E. unfold TEE_MACComputeFinal. destruct (_ || _); [by intros [[=] _]%out_done|].
  unfold mbind, M_bind, get_op. destruct (ops s !! op) as [o|]; [|done].
  destruct (negb (ready _ _)); [by intros [[=] _]%out_done|].
  unfold sys. destruct (hash_final _ _ _ _ _) as [[[res h] len] k] eqn:Eh.
  apply hash_final_room in Eh as [H1 H2]; [|done].
  destruct (res =? TEE_SUCCESS) eqn:R; breflect; cbn.
  - subst res. specialize (H2 eq_refl). unfold finish_operation, mbind, M_bind, get_op. cbn.
    destruct (ops s !! op); [|done]. cbn. intros [= <- <- <-]. done.
  - intros [[= E1 _ _] _]%out_done. congruence.
Qed.

Lemma spec_MACCompareFinal op c n mac m s :
  wf s → live op s → src_ok mac m → null_with_len mac m = false →
  spec (TEE_MACCompareFinal op c n mac m) s.
Proof.
  intros W H Hm Hn. unfold TEE_MACCompareFinal. apply spec_get_bind; [done..|].
  intros o Ho Wo. destruct (negb _); [utee|].
  eapply spec_safe_bind;
    [apply safe_MACComputeFinal; [done|by intros _|unfold TEE_MAX_HASH_SIZE; lia]|].
  intros [res [written k]] s1 W1 K1 R. simpl in R. carry.
  destruct (negb (res =? TEE_SUCCESS)) eqn:Er; [utee|]. breflect. destruct (R Er) as [R1 R2].
  destruct (negb (k =? m)) eqn:Ek; [utee|]. breflect. subst k.
  apply (spec_bind_pure _ _ _ (λ b, blen b = TEE_MAX_HASH_SIZE)).
  { by apply safe_write_at. }
  intros cm Lc. apply (spec_bind_pure _ _ _ (λ b, blen b = m)); [by apply safe_read_bytes|].
  intros mm _. apply (spec_bind_pure _ _ _ (λ b, blen b = m)).
  { apply safe_read_at; lia. }
  intros cc _. utee.
Qed.

#[local] Hint Resolve spec_MACComputeFinal : utee.

(** *** Authenticated encryption *)

Lemma spec_AEInit op nonce nl tl al pl s :
  wf s → handle_ok op s → spec (TEE_AEInit op nonce nl tl al pl) s.
Proof.
  intros. unfold TEE_AEInit. utee.
  eapply (spec_set op _ o); [done|done|done|].
  by apply op_wf_set_flag, (op_wf_offs0 (set_digestLength o (tl / 8))), op_wf_digestLength.
Qed.

Lemma spec_AEUpdateAAD op a n s : wf s → handle_ok op s → spec (TEE_AEUpdateAAD op a n) s.
Proof. intros. unfold TEE_AEUpdateAAD. utee. Qed.

Lemma spec_gp11_AEUpdateAAD op a n s :
  wf s → handle_ok op s → spec (__GP11_TEE_AEUpdateAAD op a n) s.
Proof. intros. unfold __GP11_TEE_AEUpdateAAD. utee. Qed.

Lemma spec_ae_update_helper op src n dl s o :
  wf s → holds op o s → buffered_class o = true → src_ok src n → len_ok dl →
  null_with_len src n = false → spec (ae_update_helper op src n dl) s.
Proof.
  intros W Ho Hc Hs Hd Hn. unfold ae_update_helper.
  assert (live op s) by (destruct Ho as (o' & E & _); by exists o').
  utee_step; [utee|].
  apply spec_get_bind; [done..|]. intros o1 H1 W1.
  assert (buffered_class o1 = true) as Hc1.
  { destruct Ho as (o2 & E2 & St2), H1 as (o3 & E3 & St3).
    replace o3 with o2 in * by congruence. unfold static, buffered_class in *.
    congruence. }
  utee.
Qed.

#[local] Hint Resolve spec_AEInit spec_AEUpdateAAD spec_ae_update_helper : utee.

Lemma spec_AEUpdate op src n dl s :
  wf s → handle_ok op s → src_ok src n → len_ok dl → spec (TEE_AEUpdate op src n dl) s.
Proof. intros. unfold TEE_AEUpdate. utee. Qed.

Lemma spec_gp11_AEUpdate op src n dl s :
  wf s → handle_ok op s → src_ok src n → len_ok dl → spec (__GP11_TEE_AEUpdate op src n dl) s.
Proof. intros. unfold __GP11_TEE_AEUpdate. utee. Qed.

Lemma spec_ae_final_input op o src n dl s :
  wf s → holds op o s → live op s → buffered_class o = true → src_ok src n → len_ok dl →
  null_with_len src n = false → spec (ae_final_input op o src n dl) s.
Proof. intros. unfold ae_final_input. utee. Qed.

#[local] Hint Resolve spec_ae_final_input : utee.

Lemma spec_AEEncryptFinal op src n dl tl s :
  wf s → handle_ok op s → src_ok src n → len_ok dl → spec (TEE_AEEncryptFinal op src n dl tl) s.
Proof. intros. unfold TEE_AEEncryptFinal. utee. Qed.

Lemma spec_AEDecryptFinal op src n dl tg tl s :
  wf s → handle_ok op s → src_ok src n → len_ok dl →
  spec (TEE_AEDecryptFinal op src n dl tg tl) s.
Proof. intros. unfold TEE_AEDecryptFinal. utee. Qed.

(** *** Asymmetric operations, derivation, random numbers *)

Lemma spec_asymm_checks op c m s : wf s → live op s → spec (asymm_checks op c m) s.
Proof. intros. unfold asymm_checks. utee. Qed.

#[local] Hint Resolve spec_asymm_checks : utee.

Lemma spec_asymm_run l c m op p src n dl s :
  wf s → handle_ok op s → spec (asymm_run l c m op p src n dl) s.
Proof. intros. unfold asymm_run. utee. Qed.

Lemma spec_AsymmetricVerifyDigest op p d n sg m s :
  wf s → handle_ok op s → spec (TEE_AsymmetricVerifyDigest op p d n sg m) s.
Proof. intros. unfold TEE_AsymmetricVerifyDigest. utee. Qed.

Lemma spec_DeriveKey op p k s : wf s → handle_ok op s → spec (TEE_DeriveKey op p k) s.
Proof. intros. unfold TEE_DeriveKey. utee. Qed.

Lemma spec_GenerateRandom n s : wf s → spec (TEE_GenerateRandom n) s.
Proof. intros. unfold TEE_GenerateRandom. utee. Qed.
End CryptSafe.

#[export] Hint Resolve spec_DigestUpdate spec_DigestDoFinal spec_DigestExtract
  spec_CipherInit spec_CipherUpdate spec_CipherDoFinal spec_MACInit spec_MACUpdate
  spec_MACComputeFinal spec_MACCompareFinal spec_AEInit spec_AEUpdateAAD
  spec_gp11_AEUpdateAAD spec_AEUpdate spec_gp11_AEUpdate spec_AEEncryptFinal
  spec_AEDecryptFinal spec_asymm_run spec_AsymmetricVerifyDigest spec_DeriveKey
  spec_GenerateRandom spec_gp11_SetOperationKey spec_gp11_SetOperationKey2
  spec_GetOperationInfo spec_GetOperationInfoMultiple spec_CopyOperation : utee.
