(* ===== verification/UteeApi.v ===== *)
(** The operation API of libutee as a whole: any sequence of calls a TA makes
    with live handles and readable buffers keeps every operation well formed
    and never accesses memory that is not an operation or is out of bounds. *)
From S2P Require Import Prelude Bytes UteeDefs UteeOps UteeCrypt UteeCipher.
From S2P Require Import UteeSafe UteeTables UteeCryptSafe UteeExample.

(** A call of a function; [gp11] selects its [__GP11_] variant. *)
Inductive api_call :=
| AllocateOperation (has_out : bool) (alg m max : Z)
| FreeOperation (gp11 : bool) (op : Z)
| GetOperationInfo (op : Z)
| GetOperationInfoMultiple (gp11 : bool) (op size : Z)
| ResetOperation (op : Z)
| SetOperationKey (gp11 : bool) (op key : Z)
| SetOperationKey2 (gp11 : bool) (op k1 k2 : Z)
| CopyOperation (dst src : Z)
| DigestUpdate (gp11 : bool) (op : Z) (chunk : option bytes) (n : Z)
| DigestDoFinal (gp11 : bool) (op : Z) (chunk : option bytes) (n room : Z)
| DigestExtract (op room : Z)
| CipherInit (gp11 : bool) (op : Z) (iv : option bytes) (n : Z)
| CipherUpdate (gp11 : bool) (op : Z) (src : option bytes) (n room : Z)
| CipherDoFinal (gp11 : bool) (op : Z) (src : option bytes) (n : Z) (room : option Z)
| MACInit (gp11 : bool) (op : Z) (iv : option bytes) (n : Z)
| MACUpdate (gp11 : bool) (op : Z) (chunk : option bytes) (n : Z)
| MACComputeFinal (gp11 : bool) (op : Z) (msg : option bytes) (n room : Z)
| MACCompareFinal (gp11 : bool) (op : Z) (msg : option bytes) (n : Z) (mac : option bytes) (m : Z)
| AEInit (gp11 : bool) (op : Z) (nonce : option bytes) (n tagLen aadLen payloadLen : Z)
| AEUpdateAAD (gp11 : bool) (op : Z) (aad : option bytes) (n : Z)
| AEUpdate (gp11 : bool) (op : Z) (src : option bytes) (n room : Z)
| AEEncryptFinal (gp11 : bool) (op : Z) (src : option bytes) (n room tagRoom : Z)
| AEDecryptFinal (gp11 : bool) (op : Z) (src : option bytes) (n room : Z) (tag : bytes) (m : Z)
| AsymmetricEncrypt (gp11 : bool) (op : Z) (p : attributes) (src : option bytes) (n room : Z)
| AsymmetricDecrypt (gp11 : bool) (op : Z) (p : attributes) (src : option bytes) (n room : Z)
| AsymmetricSignDigest (gp11 : bool) (op : Z) (p : attributes) (d : option bytes) (n room : Z)
| AsymmetricVerifyDigest (gp11 : bool) (op : Z) (p : attributes) (d : option bytes) (n : Z)
    (sg : option bytes) (m : Z)
| DeriveKey (gp11 : bool) (op : Z) (p : attributes) (key : Z)
| GenerateRandom (gp11 : bool) (n : Z).

Section Api.
Context `{L : UteeLaws}.

Implicit Types s : ta.

Definition discard {A} (m : M A) : M unit := _ ← m; mret tt.

Definition run_call (c : api_call) : M unit :=
  match c with
  | AllocateOperation b a m x => discard (TEE_AllocateOperation b a m x)
  | FreeOperation g op => if g then __GP11_TEE_FreeOperation op else TEE_FreeOperation op
  | GetOperationInfo op => discard (TEE_GetOperationInfo op)
  | GetOperationInfoMultiple g op n =>
    discard (if g then __GP11_TEE_GetOperationInfoMultiple op n
             else TEE_GetOperationInfoMultiple op n)
  | ResetOperation op => TEE_ResetOperation op
  | SetOperationKey g op k =>
    discard (if g then __GP11_TEE_SetOperationKey op k else TEE_SetOperationKey op k)
  | SetOperationKey2 g op k1 k2 =>
    discard (if g then __GP11_TEE_SetOperationKey2 op k1 k2 else TEE_SetOperationKey2 op k1 k2)
  | CopyOperation d o => TEE_CopyOperation d o
  | DigestUpdate g op c n =>
    if g then __GP11_TEE_DigestUpdate op c n else TEE_DigestUpdate op c n
  | DigestDoFinal g op c n r =>
    discard (if g then __GP11_TEE_DigestDoFinal op c n r else TEE_DigestDoFinal op c n r)
  | DigestExtract op r => discard (TEE_DigestExtract op r)
  | CipherInit g op iv n =>
    if g then __GP11_TEE_CipherInit op iv n else TEE_CipherInit op iv n
  | CipherUpdate g op d n r =>
    discard (if g then __GP11_TEE_CipherUpdate op d n r else TEE_CipherUpdate op d n r)
  | CipherDoFinal g op d n r =>
    discard (if g then __GP11_TEE_CipherDoFinal op d n r else TEE_CipherDoFinal op d n r)
  | MACInit g op iv n => if g then __GP11_TEE_MACInit op iv n else TEE_MACInit op iv n
  | MACUpdate g op c n => if g then __GP11_TEE_MACUpdate op c n else TEE_MACUpdate op c n
  | MACComputeFinal g op c n r =>
    discard (if g then __GP11_TEE_MACComputeFinal op c n r else TEE_MACComputeFinal op c n r)
  | MACCompareFinal g op c n mac m =>
    discard (if g then __GP11_TEE_MACCompareFinal op c n mac m
             else TEE_MACCompareFinal op c n mac m)
  | AEInit g op no n t a p =>
    discard (if g then __GP11_TEE_AEInit op no n t a p else TEE_AEInit op no n t a p)
  | AEUpdateAAD g op a n => if g then __GP11_TEE_AEUpdateAAD op a n else TEE_AEUpdateAAD op a n
  | AEUpdate g op d n r =>
    discard (if g then __GP11_TEE_AEUpdate op d n r else TEE_AEUpdate op d n r)
  | AEEncryptFinal g op d n r t =>
    discard (if g then __GP11_TEE_AEEncryptFinal op d n r t else TEE_AEEncryptFinal op d n r t)
  | AEDecryptFinal g op d n r t m =>
    discard (if g then __GP11_TEE_AEDecryptFinal op d n r t m
             else TEE_AEDecryptFinal op d n r t m)
  | AsymmetricEncrypt g op p d n r =>
    discard (if g then __GP11_TEE_AsymmetricEncrypt op p d n r
             else TEE_AsymmetricEncrypt op p d n r)
  | AsymmetricDecrypt g op p d n r =>
    discard (if g then __GP11_TEE_AsymmetricDecrypt op p d n r
             else TEE_AsymmetricDecrypt op p d n r)
  | AsymmetricSignDigest g op p d n r =>
    discard (if g then __GP11_TEE_AsymmetricSignDigest op p d n r
             else TEE_AsymmetricSignDigest op p d n r)
  | AsymmetricVerifyDigest g op p d n sg m =>
    discard (if g then __GP11_TEE_AsymmetricVerifyDigest op p d n sg m
             else TEE_AsymmetricVerifyDigest op p d n sg m)
  | DeriveKey g op p k => if g then __GP11_TEE_DeriveKey op p k else TEE_DeriveKey op p k
  | GenerateRandom g n =>
    discard (if g then __GP11_TEE_GenerateRandom n else TEE_GenerateRandom n)
  end.

(** What the TA must respect: a handle is NULL or live (live for
    [TEE_MACCompareFinal], which does not check it), buffers are as long as
    their lengths say, and lengths are those of buffers in memory. *)
Definition valid_call (s : ta) (c : api_call) : Prop :=
  match c with
  | AllocateOperation _ _ _ _ | GenerateRandom _ _ => True
  | FreeOperation _ op | GetOperationInfo op | GetOperationInfoMultiple _ op _
  | ResetOperation op | SetOperationKey _ op _ | SetOperationKey2 _ op _ _
  | DigestUpdate _ op _ _ | CipherInit _ op _ _ | MACInit _ op _ _ | MACUpdate _ op _ _
  | MACComputeFinal _ op _ _ _ | AEInit _ op _ _ _ _ _ | AEUpdateAAD _ op _ _
  | AsymmetricEncrypt _ op _ _ _ _ | AsymmetricDecrypt _ op _ _ _ _
  | AsymmetricSignDigest _ op _ _ _ _ | AsymmetricVerifyDigest _ op _ _ _ _ _
  | DeriveKey _ op _ _ => handle_ok op s
  | CopyOperation d o => handle_ok d s ∧ handle_ok o s
  | DigestDoFinal _ op _ _ r | DigestExtract op r => handle_ok op s ∧ len_ok r
  | CipherUpdate _ op d n r | AEUpdate _ op d n r | AEEncryptFinal _ op d n r _
  | AEDecryptFinal _ op d n r _ _ => handle_ok op s ∧ src_ok d n ∧ len_ok r
  | CipherDoFinal _ op d n r => handle_ok op s ∧ src_ok d n ∧ len_ok (default 0 r)
  | MACCompareFinal _ op _ _ mac m =>
    live op s ∧ src_ok mac m ∧ null_with_len mac m = false
  end.

Lemma wf_spec_discard {A} (m : M A) s : wf_spec m s → wf_spec (discard m) s.
Proof. intros H. unfold discard. by apply wf_spec_bind. Qed.

Lemma len_ok_room r : len_ok (default 0 r) → len_ok (default 0 (Some (default 0 r))).
Proof. done. Qed.

#[local] Hint Resolve len_ok_room : utee.

(** Unfolds a call down to the function that has its own lemma. *)
Ltac unfold_call :=
  unfold discard, __GP11_TEE_GetOperationInfoMultiple, __GP11_TEE_DigestUpdate,
    __GP11_TEE_DigestDoFinal, __GP11_TEE_CipherInit, __GP11_TEE_CipherUpdate,
    __GP11_TEE_CipherDoFinal, __GP11_TEE_MACInit, __GP11_TEE_MACUpdate,
    __GP11_TEE_MACComputeFinal, __GP11_TEE_MACCompareFinal, __GP11_TEE_AEInit,
    __GP11_TEE_AEEncryptFinal, __GP11_TEE_AEDecryptFinal, __GP11_TEE_AsymmetricEncrypt,
    __GP11_TEE_AsymmetricDecrypt, __GP11_TEE_AsymmetricSignDigest,
    __GP11_TEE_AsymmetricVerifyDigest, __GP11_TEE_DeriveKey, __GP11_TEE_GenerateRandom,
    TEE_AsymmetricEncrypt, TEE_AsymmetricDecrypt, TEE_AsymmetricSignDigest.

Lemma wf_spec_gp11_FreeOperation op s :
  wf s → handle_ok op s → wf_spec (__GP11_TEE_FreeOperation op) s.
Proof.
  intros W H. unfold __GP11_TEE_FreeOperation, panic_if. destruct (op =? 0); [done|].
  by apply wf_spec_FreeOperation.
Qed.

Lemma run_call_safe c s : wf s → valid_call s c → wf_spec (run_call c) s.
Proof.
  intros W V. destruct c; simpl in *; break_and;
    try (apply wf_spec_discard; by apply wf_spec_AllocateOperation);
    try (destruct gp11; [by apply wf_spec_gp11_FreeOperation|by apply wf_spec_FreeOperation]);
    apply spec_wf_spec; unfold_call; utee.
Qed.

(** A sequence of calls, each valid where it is made. *)
Inductive calls : ta → list api_call → ta → Prop :=
| calls_nil s : calls s [] s
| calls_cons s c s1 cs s2 :
    valid_call s c → run_call c s = Done (tt, s1) → calls s1 cs s2 → calls s (c :: cs) s2.

Lemma calls_wf s cs s' : calls s cs s' → wf s → wf s'.
Proof.
  induction 1 as [|s c s1 cs s2 V E _ IH]; [done|]. intros W. apply IH.
  pose proof (run_call_safe c s W V) as H. unfold wf_spec, safe in H. by rewrite E in H.
Qed.
End Api.

(** C31: memory safety of the operation API of libutee. After any sequence of
    calls with valid arguments from a state without operations, whatever the
    core answers within its length contract, every operation is well formed
    (its buffer has the size of its blocks, its fill level is within it), and
    the next valid call does not access memory that is not an operation or out
    of the bounds of a buffer: it returns or panics. *)
Theorem utee_memory_safe `{L : UteeLaws} k cs s c :
  calls (mk_ta ∅ k) cs s → valid_call s c →
  wf s ∧
  match run_call c s with
  | Done (_, s') => wf s'
  | Panicked _ => True
  | Undef => False
  end.
Proof.
  intros C V. assert (wf s) as W by (eapply calls_wf; [done|apply map_Forall_empty]).
  split; [done|]. pose proof (run_call_safe c s W V) as H. unfold wf_spec, safe in H.
  destruct (run_call c s) as [[[] s']| |]; done.
Qed.

(** ** Example *)

(** Allocate AES-CTS, set a key, start, feed 40 bytes. *)
Definition example_calls : list api_call :=
  [AllocateOperation true TEE_ALG_AES_CTS TEE_MODE_ENCRYPT 128;
   SetOperationKey false 16 64; CipherInit false 16 None 0;
   CipherUpdate false 16 (Some (message 0 40)) 40 100].

Theorem utee_memory_safe_witness :
  ∃ s, calls (mk_ta ∅ []) example_calls s ∧ wf s ∧
    match run_call (CipherDoFinal false 16 (Some (message 40 8)) 8 (Some 100)) s with
    | Done (_, s') => wf s'
    | Panicked _ => True
    | Undef => False
    end.
Proof.
  assert (∃ s, calls (mk_ta ∅ []) example_calls s ∧ valid_call s (CipherDoFinal false 16 (Some (message 40 8)) 8 (Some 100)))
    as (s & C & V).
  { eexists. split.
    - eapply calls_cons; [done|vm_compute; reflexivity|].
      eapply calls_cons; [intros _; eexists; reflexivity|vm_compute; reflexivity|].
      eapply calls_cons; [intros _; eexists; reflexivity|vm_compute; reflexivity|].
      eapply calls_cons; [|vm_compute; reflexivity|apply calls_nil].
      split; [intros _; eexists; reflexivity|]. split; [split; [lia|vm_compute; discriminate]|].
      split; lia.
    - split; [intros _; eexists; reflexivity|]. split; [split; [lia|vm_compute; discriminate]|].
      split; simpl; lia. }
  exists s. split; [exact C|]. apply (@utee_memory_safe echo_core echo_laws [] example_calls s _ C V).
Defined.
